(* ===== verification/_CoqProject ===== *)
-Q . S2P
Prelude.v
NetTypes.v
Text.v
Disco.v
Stun.v
DerpFrame.v
DerpMux.v
WgPolicy.v
WgEngine.v
Boringtun.v
VitaFs.v
Taildrop.v
VitaSync.v
Ftp.v
Magicsock.v
Netmap.v
Keys.v
Noise.v
NoisePump.v
MapStream.v
Chan.v
Runtime.v
Login.v
LocalApi.v
ConfigEdit.v
VitaLog.v
ViewModel.v
Dashboard.v
Session.v
Paths.v
EventLoop.v
Supervisor.v
DerpHandshake.v
Netstack.v
Proxy.v
Plugin.v
Services.v
Http2.v
Probe.v
Bootstrap.v
