(* ===== verification/Prelude.v ===== *)
(** * tailscale-vita: a verification of the core of the Tailscale client for the PS Vita

    The program (under src/crates) is a Tailscale node for a 32-bit games
    console: it logs in to a control server, keeps a long-poll open that streams
    the network map, feeds that map to a WireGuard engine, and moves WireGuard
    packets over direct UDP paths it validates itself or over DERP relays.  On
    top run small services (Taildrop, FTP, a loopback API with an application that
    shows and steers the node) and below it the
    ports of locks, channels, files and logging to the console's kernel.

    ** How the parts work together

    - _Control plane_ (ts-control, driven by tailscale-vita/runtime.rs):
      [interactive_login] makes a connection ([establish_control_conn]: server
      key, Noise handshake in an HTTP upgrade, HTTP/2 over the Noise records
      through a bridge thread) and registers; the map stream then yields
      responses that [apply_response] folds into a [NetMap] together with a
      delta; the event loop pushes the delta to the engine, to the table of relay
      regions and to the magic socket, and publishes a snapshot.
    - _Data plane_: the engine's pump takes datagrams from the magic socket or
      the relays, hands them to the peer's Noise state, checks decrypted packets
      against the peer's allowed addresses and the packet filter, and routes
      outbound packets by longest prefix.  The magic socket demultiplexes UDP
      into STUN, disco and WireGuard, and validates paths by disco ping/pong; the
      DERP mux keeps at most a fixed number of relay connections, each opened by
      a handshake inside TLS.  Plaintext goes to smoltcp, whose sockets netstack
      hands out as listeners and streams.
    - _Services_: Taildrop and FTP accept streams of netstack on a bounded number of
      threads and store files through vita-fs; the LocalAPI shows
      the snapshot and turns local POSTs into signals to the event loop; the
      dashboard polls it, edits the configuration file and posts the actions, and
      a proxy on the tailnet exposes its read-only part.
    - _Foundations_: vita-sync's locks over lazily created kernel objects,
      vita-chan's channels over those locks, vita-fs over sceIo, vita-log.

    ** The files, in dependency order

    - [Prelude] (this file): results, panics ([outcome]), byte strings, wrapping
      integers, the shared tactics and hints.  [NetTypes]: addresses.  [Text]:
      the string functions of std that the code uses on untrusted input.
    - [Disco] (ts-disco), [DerpFrame] (ts-derp: magic.rs, frame.rs, conn.rs),
      [DerpMux] (mux.rs), [Stun] (ts-magicsock/stun.rs), [Magicsock]
      (ts-magicsock/lib.rs).
    - [WgPolicy] (wg-engine: peer.rs, policy.rs, icmp.rs and the packet parsers),
      [WgEngine] (indices.rs, lib.rs, dispatch.rs, pump.rs), [Boringtun] (the packet
      queue of the vendored boringtun, noise/mod.rs, under the pump).
    - [VitaSync] (vita-sync/vita.rs), [Chan] (vita-chan/lib.rs), [VitaFs]
      (vita-fs/vita.rs and the interface the services use), [VitaLog] (vita-log).
    - [Taildrop] (ts-peerapi), [Ftp] (ts-ftp).
    - [Netmap] (ts-control/netmap.rs and its consumers in runtime.rs), [Keys]
      (types.rs, keystore.rs, server_key.rs, persist.rs, url.rs, error.rs), [Noise]
      (noise.rs, record.rs, upgrade.rs, tailscale-vita/proto.rs), [NoisePump]
      (async_io.rs), [MapStream] (map.rs), [Runtime] (tailscale-vita: lifecycle.rs,
      the error triage and back-off of runtime.rs), [Login] (register.rs, the connection and
      the login loop of runtime.rs), [LocalApi] (snapshot.rs, localapi.rs,
      http.rs, handlers.rs, router.rs and the publishers of runtime.rs).
    - The runtime (tailscale-vita/runtime.rs) over all of these: [Session]
      (bootstrap_control_session, finish_session, perform_logout), [Paths]
      (ts-magicsock/netcheck.rs, run_netcheck, dual_transport.rs, the transport of
      ts-derp), [EventLoop] (run_event_loop in full, one pass as a function of
      what the outside does in it), [Supervisor] (Runtime::up, run_supervised and the waits).
    - [DerpHandshake] (ts-derp/handshake.rs), [Netstack] (netstack: handle.rs,
      poll.rs, tcp.rs, tcp_listener.rs), [Proxy] (the handler.rs of the two
      applications), [Plugin] (tailscale-vita-rt/lib.rs: allocator and start),
      [Services] (the accept loops of ts-ftp and ts-peerapi, FTP command lines).
    - [Http2] (ts-control/http2.rs: the client over h2, whose session is the class
      [H2] with the laws of flow control), [Probe] (tailscale-vita/egress_probe.rs over
      the socket of [Magicsock]), [Bootstrap] (loading config.rs and its template,
      wg-engine/config.rs, the self-test of wg-engine/lib.rs, netstack/device.rs and
      the life of the stack).
    - The dashboard application (tailscale-vita-demo/src/ui): [ConfigEdit]
      (config_edit.rs), [ViewModel] (timefmt.rs, viewmodel.rs), [Dashboard]
      (client.rs, buttons.rs and the loop of dashboard.rs).

    Definitions keep the source's names; where two files declare one name the
    file tells them apart ([WgEngine.pump_step] is the engine's turn,
    [NoisePump.pump_step] that of the Noise bridge).

    ** How code is translated

    Pure functions are functions.  A fallible function returns [result E A]; a
    function that indexes or unwraps untrusted data returns [outcome A], in which
    a Rust panic is a value, so that totality theorems say no input panics.
    Locked state is a record passed through the handlers.  Concurrent code (Chan,
    VitaSync, NoisePump, Taildrop, Netstack) is a step relation or step function in which
    every lock operation, atomic access and system call is one step; invariants
    are proved over all interleavings.  [Arc] objects that are mutated in place
    (engine peers) live in a store with pointers.  Machine integers are [Z] with
    the wrap-around written out where the code can wrap ([wrap]); sizes are those
    of the 32-bit target.  Text is a list of bytes.

    What is not under src/ is a parameter: as a class with laws where the proofs
    rely on documented behaviour — [CryptoBox] and [SalsaBox] (NaCl boxes), [SmolTcp]/
    [SmolTcpLaws] (smoltcp's TCP sockets), [TunnOps]/[TunnLaws]
    (boringtun's sessions; [Boringtun] has its queue over a class [Noise]), [NoiseOps]/[NoiseLaws] (snow's cipher states), [SceIo]/
    [SceIoLaws] (the kernel's file calls), [Fs]/[FsLaws] (what services ask of
    files, with names that may ignore case as on the console's cards; VitaFs
    discharges it over SceIo) — and as plain arguments elsewhere:
    httparse, serde_json, zstd, gzip, base64, X25519, random bytes, the clock, HTTP
    clients and sockets, the iteration order of hash maps, IPv6 text.  Each class
    has a concrete instance used by the witnesses.

    ** Bounds and fuel

    Loops that are not structural carry fuel that is proved or evidently enough:
    the STUN walk the buffer length, decimal printing the number of bits, UTF-8
    replacement the length of the text, the write loop of vita-fs the length of
    the data (so too the log's), trimming a prefix the length of the text, the
    client's response its cap of 512 KiB plus one, filling the Noise buffer the missing bytes, the heads of the upgrade
    and of a LocalAPI request their size caps (16 KiB and 8 KiB) plus one, a
    request body the bytes and events still to come, the relay reader the reads
    and frames to come, the engine's drains the queued packets and those still to
    come, healing a pool and
    reaping threads the length of the list, a proxied answer its cap of 256 KiB, a wait the number
    of 250 ms slices of the longest delay (300).  Reads and
    directory walks of vita-fs and the body of an HTTP/2 answer take their fuel as an
    argument and the theorems say how much suffices.  Counters that the code increments without bound (login
    attempts, connection sequence numbers) are assumed not to reach their width
    where a theorem needs it, as a named hypothesis.

    ** What the theorems show

    - _Safety of the data plane_: plaintext is delivered only for the right peer,
      source and filter; reply addresses and direct paths change only on
      authenticated evidence; routing is longest prefix; the peer tables stay
      consistent and a turn of the pump ends once nobody adds to its queue.
    - _The map and its consumers_: deltas refine the map, engine and region table
      mirror it, filters mean what the wire rules say, the session on disk is the
      client's session.
    - _Byte streams_: DERP frames, Noise records, the upgrades, map frames, LocalAPI
      requests and FTP commands arrive whole and in order however the bytes are
      cut; a netstack stream is a pair of byte queues; the DERP handshake accepts
      and discloses no more than it should; an HTTP/2 answer is its chunks in order,
      with the window never owed anything.
    - _Trust and login_: which server key a connection trusts, that the identity on
      disk is the node's identity, when a login ends and with which errors; which
      requests can steer the node, and that none from the tailnet can.
    - _The runtime as a whole_: after [down] the node is parked until asked to come
      back, whatever else happens; a boot and every supervised cycle without a
      logout run under one node key, that on disk, that the server authorized; a
      logout has three outcomes, each exact; waits are bounded and end; a network
      check reports what was answered; the joined transport keeps order.
    - _Concurrency_: locks refine the abstract mutex, channels are bounded queues
      without lost wake-ups, the Noise bridge keeps order; every socket of the
      netstack has one owner in every interleaving and listeners keep their size;
      the services join every thread once and run no more than their limit.
    - _Files_: Taildrop loses no stored upload under any interleaving, under
      conditions on names and the directory without which it does; FTP stays below
      its root but for one temporary name; written bytes are what is read.
    - _The application_: an edit of the configuration is read back and leaves
      the old or new text where it says, a logout needs a confirmation, an action counts as accepted
      exactly when its signal reached the runtime, dates follow the calendar; the
      log loses no line silently and its files hold the end of what was written.
    - _Formats and limits_: round trips of disco messages, names and keys; the
      watchdog and the key cache fire exactly at their limits; the plugin's
      allocator keeps blocks apart and aligned, and starts at most one runtime; the
      template has every setting the dashboard flips, and the egress probe accounts
      for every send.
    Some theorems state what the code does where that differs from what it means
    to do (for example [outage_never_reported], [drain_starves],
    [logout_rotation_refused], [taildrop_case_overwrites], [config_edit_loses_all], [close_races],
    [empty_record_ends_stream], [request_cap_wraps], [login_shown_pitfalls],
    [boot_magic_keeps_old_key], [logout_resume_splits_identity], [wakeup_lost],
    [reset_not_awaited], [connect_v6_leaks], [handshake_drops_leftover]).

    ** Not modelled

    TLS, h2, tokio and smoltcp themselves, the TOML parser, host back ends, drawing
    and process entry points of the applications, and of the vendored boringtun all but its packet queue: they are calls into third-party code or devices, with little logic
    of their own that could be stated without them.  In [EventLoop] and
    [Supervisor] what other threads do between two steps is a function argument of
    the pass, as their own files model it step by step.  Log lines are left out
    everywhere; the jitter of a wait and latencies are exact where the code has
    floating point. *)

From stdpp Require Export base list gmap option numbers.
From Stdlib Require Export ZArith Lia.
From Stdlib Require Ascii String.
Export Stdlib.Strings.String.StringSyntax.

#[local] Open Scope Z_scope.

(** ** Rust results and panics *)

(** [Result<A, E>]. *)
Inductive result (E A : Type) : Type :=
| Ok (a : A)
| Err (e : E).
Arguments Ok {E A} a.
Arguments Err {E A} e.

#[global] Instance result_ret {E} : MRet (result E) := fun A a => Ok a.
#[global] Instance result_bind {E} : MBind (result E) := fun A B k r =>
  match r with Ok a => k a | Err e => Err e end.
#[global] Instance result_fmap {E} : FMap (result E) := fun A B f r =>
  match r with Ok a => Ok (f a) | Err e => Err e end.

#[global] Instance result_eq_dec {E A} `{EqDecision E, EqDecision A} :
  EqDecision (result E A).
Proof. solve_decision. Defined.

Definition map_err {E F A} (f : E -> F) (r : result E A) : result F A :=
  match r with Ok a => Ok a | Err e => Err (f e) end.

Definition ok_or {E A} (e : E) (o : option A) : result E A :=
  match o with Some a => Ok a | None => Err e end.

(** [Result::ok]. *)
Definition ok {E A} (r : result E A) : option A :=
  match r with Ok a => Some a | Err _ => None end.

Definition is_ok {E A} (r : result E A) : bool :=
  match r with Ok _ => true | Err _ => false end.

(** A computation that may panic (an out-of-range index or slice) or, for a
    loop translated with fuel, run out of it. *)
Inductive outcome (A : Type) : Type :=
| Val (a : A)
| Panicked
| OutOfFuel.
Arguments Val {A} a.
Arguments Panicked {A}.
Arguments OutOfFuel {A}.

#[global] Instance outcome_ret : MRet outcome := fun A a => Val a.
#[global] Instance outcome_bind : MBind outcome := fun A B k r =>
  match r with Val a => k a | Panicked => Panicked | OutOfFuel => OutOfFuel end.
#[global] Instance outcome_fmap : FMap outcome := fun A B f r =>
  match r with Val a => Val (f a) | Panicked => Panicked | OutOfFuel => OutOfFuel end.

(** [l[i]] *)
Definition index {A} (l : list A) (i : nat) : outcome A :=
  match l !! i with Some a => Val a | None => Panicked end.

(** [l[a..b]] *)
Definition slice {A} (l : list A) (a b : nat) : outcome (list A) :=
  if decide (a <= b <= length l)%nat then Val (take (b - a) (drop a l)) else Panicked.

(** ** Machine integers *)

Definition u8 (z : Z) : Prop := 0 <= z < 2 ^ 8.
Definition u16 (z : Z) : Prop := 0 <= z < 2 ^ 16.
Definition u32 (z : Z) : Prop := 0 <= z < 2 ^ 32.
Definition u64 (z : Z) : Prop := 0 <= z < 2 ^ 64.
Definition bytes_wf (l : list Z) : Prop := Forall u8 l.

(** [z as u16] and friends: truncation to [w] bits. *)
Definition wrap (w z : Z) : Z := z mod 2 ^ w.

(** [to_be_bytes] of an [8n]-bit integer. *)
Fixpoint be_bytes (n : nat) (z : Z) : list Z :=
  match n with
  | O => []
  | S m => (z / 2 ^ (8 * Z.of_nat m)) mod 256 :: be_bytes m z
  end.

(** [from_be_bytes]. *)
Fixpoint from_be (l : list Z) : Z :=
  match l with
  | [] => 0
  | b :: r => b * 2 ^ (8 * Z.of_nat (length r)) + from_be r
  end.

(** [from_le_bytes] and [to_le_bytes]. *)
Definition from_le (l : list Z) : Z := from_be (reverse l).
Definition le_bytes (n : nat) (z : Z) : list Z := reverse (be_bytes n z).

(** ** Strings: Rust [str] and [&[u8]] literals as byte lists *)

Fixpoint bs (s : String.string) : list Z :=
  match s with
  | String.EmptyString => []
  | String.String c r => Z.of_N (Ascii.N_of_ascii c) :: bs r
  end.
#[global] Arguments bs s%_string_scope.

(** * Lemmas and automation *)

Create HintDb bytes discriminated.
Create Rewrite HintDb len.
#[export] Hint Constructors Forall : bytes.

(** [lia] on goals with division and remainder. *)
Ltac lia_div := Z.div_mod_to_equations; lia.

Ltac unfold_width := unfold u8, u16, u32, u64 in *.

(** Splits the binds of the two monads in a hypothesis. *)
Ltac inv_bind H :=
  repeat (unfold mbind, result_bind, outcome_bind in H; simpl in H; case_match; simplify_eq).

(** Reduces well-formedness of an explicit list to that of its elements. *)
Ltac wf_list :=
  unfold bytes_wf; repeat (apply Forall_cons_2 || apply Forall_nil_2).

(** ** Panic-free indexing *)

Lemma index_lt {A} (l : list A) i : (i < length l)%nat -> exists a, index l i = Val a.
Proof. intros [a Ha]%lookup_lt_is_Some. exists a. unfold index. by rewrite Ha. Qed.

Lemma index_val {A} (l : list A) i a : l !! i = Some a -> index l i = Val a.
Proof. intros H. unfold index. by rewrite H. Qed.

Lemma slice_val {A} (l : list A) a b :
  (a <= b <= length l)%nat -> slice l a b = Val (take (b - a) (drop a l)).
Proof. intros H. unfold slice. by rewrite decide_True. Qed.

Lemma length_slice {A} (l r : list A) a b :
  slice l a b = Val r -> length r = (b - a)%nat /\ (b <= length l)%nat.
Proof.
  unfold slice. case_decide; [|done]. intros [= <-].
  rewrite length_take, length_drop. lia.
Qed.

(** ** Fixed-width encodings *)

Lemma length_be_bytes n z : length (be_bytes n z) = n.
Proof. revert z. induction n; intros; simpl; auto. Qed.

Lemma be_bytes_wf n z : bytes_wf (be_bytes n z).
Proof.
  unfold bytes_wf. induction n; simpl; constructor; auto.
  unfold u8. apply Z.mod_pos_bound. lia.
Qed.

Lemma from_be_bound l : bytes_wf l -> 0 <= from_be l < 2 ^ (8 * Z.of_nat (length l)).
Proof.
  induction 1 as [|b l Hb Hl IH]; simpl; [lia|].
  unfold u8 in Hb.
  replace (8 * Z.of_nat (S (length l))) with (8 + 8 * Z.of_nat (length l)) by lia.
  rewrite Z.pow_add_r by lia. nia.
Qed.

Lemma from_be_be_bytes n z : from_be (be_bytes n z) = z mod 2 ^ (8 * Z.of_nat n).
Proof.
  induction n as [|n IH]; simpl; [by rewrite Z.mod_1_r|].
  rewrite IH, length_be_bytes.
  replace (8 * Z.of_nat (S n)) with (8 * Z.of_nat n + 8) by lia.
  rewrite Z.pow_add_r by lia. change (2 ^ 8) with 256.
  rewrite Z.rem_mul_r by lia. lia.
Qed.

Lemma from_be_be_bytes_small n z :
  0 <= z < 2 ^ (8 * Z.of_nat n) -> from_be (be_bytes n z) = z.
Proof. intros. rewrite from_be_be_bytes. by apply Z.mod_small. Qed.

Lemma be_bytes_congr n y z :
  y mod 2 ^ (8 * Z.of_nat n) = z mod 2 ^ (8 * Z.of_nat n) -> be_bytes n y = be_bytes n z.
Proof.
  revert y z. induction n as [|n IH]; intros y z H; simpl; [done|].
  replace (8 * Z.of_nat (S n)) with (8 * Z.of_nat n + 8) in H by lia.
  rewrite Z.pow_add_r in H by lia. change (2 ^ 8) with 256 in H.
  rewrite !Z.rem_mul_r in H by lia.
  pose proof (Z.mod_pos_bound y (2 ^ (8 * Z.of_nat n)) ltac:(lia)).
  pose proof (Z.mod_pos_bound z (2 ^ (8 * Z.of_nat n)) ltac:(lia)).
  assert ((y / 2 ^ (8 * Z.of_nat n)) mod 256 = (z / 2 ^ (8 * Z.of_nat n)) mod 256) by nia.
  f_equal; [done|]. apply IH. nia.
Qed.

Lemma be_bytes_from_be l : bytes_wf l -> be_bytes (length l) (from_be l) = l.
Proof.
  induction 1 as [|b l Hb Hl IH]; simpl; [done|].
  pose proof (from_be_bound l Hl). unfold u8 in Hb.
  rewrite Z.div_add_l, Z.div_small, Z.add_0_r by lia.
  rewrite Z.mod_small by lia. f_equal.
  transitivity (be_bytes (length l) (from_be l)); [|done]. apply be_bytes_congr.
  by rewrite Z.add_comm, Z.mod_add by lia.
Qed.

Lemma from_be_inj l k :
  bytes_wf l -> bytes_wf k -> length l = length k -> from_be l = from_be k -> l = k.
Proof.
  intros Hl Hk Hlen E. rewrite <- (be_bytes_from_be l Hl), <- (be_bytes_from_be k Hk).
  by rewrite Hlen, E.
Qed.

Lemma from_be_app l k :
  from_be (l ++ k) = from_be l * 2 ^ (8 * Z.of_nat (length k)) + from_be k.
Proof.
  induction l as [|b l IH]; simpl; [lia|].
  rewrite IH, length_app, Nat2Z.inj_add, Z.mul_add_distr_l, Z.pow_add_r by lia. lia.
Qed.

Lemma bytes_wf_app l k : bytes_wf (l ++ k) <-> bytes_wf l /\ bytes_wf k.
Proof. apply Forall_app. Qed.

Lemma bytes_wf_take n l : bytes_wf l -> bytes_wf (take n l).
Proof. apply Forall_take. Qed.

Lemma bytes_wf_drop n l : bytes_wf l -> bytes_wf (drop n l).
Proof. apply Forall_drop. Qed.

Lemma bytes_wf_lookup l i b : bytes_wf l -> l !! i = Some b -> u8 b.
Proof. intros H Hi. by eapply Forall_lookup_1 in H. Qed.

Lemma bs_wf s : bytes_wf (bs s).
Proof.
  unfold bytes_wf. induction s as [|c s IH]; simpl; constructor; auto. unfold u8.
  pose proof (Ascii.N_ascii_bounded c). lia.
Qed.

#[global] Arguments be_bytes : simpl never.
#[global] Arguments from_be : simpl never.

#[export] Hint Resolve be_bytes_wf bytes_wf_take bytes_wf_drop bs_wf : bytes.
#[export] Hint Rewrite length_be_bytes @length_app @length_take @length_drop
  @length_replicate @length_cons @length_nil : len.

(** [take]/[drop] of a concatenation at the length of its first part, in the
    form wire layouts use it. *)
Lemma take_app_len {A} (l k : list A) n : n = length l -> take n (l ++ k) = l.
Proof. intros ->. by rewrite take_app_length. Qed.

Lemma drop_app_len {A} (l k : list A) n : n = length l -> drop n (l ++ k) = k.
Proof. intros ->. by rewrite drop_app_length. Qed.

Ltac simpl_len := repeat (autorewrite with len in *; simpl length in *).
