(* ===== verification/NetTypes.v ===== *)
(** Network addresses of the Rust standard library, as the crates use them:
    [Ipv4Addr] is its [u32] value, [Ipv6Addr] its [u128] value, [SocketAddr]
    the two-variant enum whose V6 half also carries flow info and scope id
    (which take part in equality and hashing). *)

From S2P Require Import Prelude.
#[local] Open Scope Z_scope.

(** ** Ipv4Addr *)

Definition ipv4 (z : Z) : Prop := u32 z.
Definition ipv4_new (a b c d : Z) : Z := from_be [a; b; c; d].
Definition ipv4_octets (ip : Z) : list Z := be_bytes 4 ip.

Lemma ipv4_octets_new a b c d :
  u8 a -> u8 b -> u8 c -> u8 d -> ipv4_octets (ipv4_new a b c d) = [a; b; c; d].
Proof. intros. apply (be_bytes_from_be [a; b; c; d]). by wf_list. Qed.

Lemma ipv4_new_wf a b c d : u8 a -> u8 b -> u8 c -> u8 d -> ipv4 (ipv4_new a b c d).
Proof. intros. apply (from_be_bound [a; b; c; d]). by wf_list. Qed.

(** ** Ipv6Addr *)

Definition ipv6 (z : Z) : Prop := 0 <= z < 2 ^ 128.

(** [Ipv6Addr::segments] and [Ipv6Addr::new]. *)
Definition ipv6_segments (ip : Z) : list Z :=
  map (fun i => (ip / 2 ^ (16 * i)) mod 2 ^ 16) [7; 6; 5; 4; 3; 2; 1; 0].
Definition ipv6_new (segs : list Z) : Z := fold_left (fun acc s => acc * 2 ^ 16 + s) segs 0.

(** [Ipv4Addr::to_ipv6_mapped] ([::ffff:a.b.c.d]) and [Ipv6Addr::to_ipv4_mapped]. *)
Definition to_ipv6_mapped (ip : Z) : Z := 0xffff * 2 ^ 32 + ip.
Definition to_ipv4_mapped (ip : Z) : option Z :=
  if ip / 2 ^ 32 =? 0xffff then Some (ip mod 2 ^ 32) else None.

(** ** SocketAddr *)

Inductive IpAddr : Type :=
| IpV4 (ip : Z)
| IpV6 (ip : Z).

Inductive SocketAddr : Type :=
| SAV4 (ip port : Z)
| SAV6 (ip port flowinfo scope_id : Z).

#[global] Instance IpAddr_eq_dec : EqDecision IpAddr.
Proof. solve_decision. Defined.
#[global] Instance SocketAddr_eq_dec : EqDecision SocketAddr.
Proof. solve_decision. Defined.

Definition sa_ip (sa : SocketAddr) : IpAddr :=
  match sa with SAV4 ip _ => IpV4 ip | SAV6 ip _ _ _ => IpV6 ip end.
Definition sa_port (sa : SocketAddr) : Z :=
  match sa with SAV4 _ p => p | SAV6 _ p _ _ => p end.
Definition is_ipv4 (sa : SocketAddr) : bool :=
  match sa with SAV4 _ _ => true | SAV6 _ _ _ _ => false end.
Definition is_ipv6 (sa : SocketAddr) : bool := negb (is_ipv4 sa).

(** [SocketAddr::new]: a V6 address built this way has no flow info or scope. *)
Definition sa_new (ip : IpAddr) (port : Z) : SocketAddr :=
  match ip with IpV4 a => SAV4 a port | IpV6 a => SAV6 a port 0 0 end.

Definition sa_wf (sa : SocketAddr) : Prop :=
  match sa with
  | SAV4 ip p => ipv4 ip /\ u16 p
  | SAV6 ip p f s => ipv6 ip /\ u16 p /\ u32 f /\ u32 s
  end.

#[global] Instance SocketAddr_countable : Countable SocketAddr.
Proof.
  refine (inj_countable'
    (fun sa => match sa with
               | SAV4 ip p => inl (ip, p)
               | SAV6 ip p f s => inr (ip, p, f, s)
               end)
    (fun t => match t with
              | inl (ip, p) => SAV4 ip p
              | inr (ip, p, f, s) => SAV6 ip p f s
              end) _).
  by intros [].
Defined.

(** ** Lemmas *)

Lemma ipv6_new_segments ip : ipv6 ip -> ipv6_new (ipv6_segments ip) = ip.
Proof.
  intros [H0 H1]. unfold ipv6_new, ipv6_segments. simpl map. simpl fold_left.
  change (16 * 0) with 0. change (16 * 1) with 16. change (16 * 2) with 32.
  change (16 * 3) with 48. change (16 * 4) with 64. change (16 * 5) with 80.
  change (16 * 6) with 96. change (16 * 7) with 112.
  change (2 ^ 0) with 1. change (2 ^ 16) with 65536.
  change (2 ^ 32) with (65536 * 65536).
  change (2 ^ 48) with (65536 * 65536 * 65536).
  change (2 ^ 64) with (65536 * 65536 * 65536 * 65536).
  change (2 ^ 80) with (65536 * 65536 * 65536 * 65536 * 65536).
  change (2 ^ 96) with (65536 * 65536 * 65536 * 65536 * 65536 * 65536).
  change (2 ^ 112) with (65536 * 65536 * 65536 * 65536 * 65536 * 65536 * 65536).
  rewrite <- !Z.div_div by lia. rewrite Z.div_1_r.
  set (q1 := ip / 65536). set (q2 := q1 / 65536). set (q3 := q2 / 65536).
  set (q4 := q3 / 65536). set (q5 := q4 / 65536). set (q6 := q5 / 65536).
  set (q7 := q6 / 65536).
  assert (q7 mod 65536 = q7).
  { subst q7 q6 q5 q4 q3 q2 q1. rewrite !Z.div_div by lia.
    apply Z.mod_small. split; [apply Z.div_pos; lia|].
    apply Z.div_lt_upper_bound; lia. }
  pose proof (Z.div_mod ip 65536 ltac:(lia)). pose proof (Z.div_mod q1 65536 ltac:(lia)).
  pose proof (Z.div_mod q2 65536 ltac:(lia)). pose proof (Z.div_mod q3 65536 ltac:(lia)).
  pose proof (Z.div_mod q4 65536 ltac:(lia)). pose proof (Z.div_mod q5 65536 ltac:(lia)).
  pose proof (Z.div_mod q6 65536 ltac:(lia)).
  subst q7 q6 q5 q4 q3 q2 q1. lia.
Qed.

Lemma ipv6_segments_wf ip : Forall u16 (ipv6_segments ip).
Proof.
  unfold ipv6_segments. simpl map. wf_list; apply Z.mod_pos_bound; lia.
Qed.

Lemma length_ipv6_segments ip : length (ipv6_segments ip) = 8%nat.
Proof. done. Qed.

Lemma to_ipv6_mapped_wf ip : ipv4 ip -> ipv6 (to_ipv6_mapped ip).
Proof. unfold ipv4, u32, ipv6, to_ipv6_mapped. lia. Qed.

Lemma to_ipv4_mapped_mapped ip : ipv4 ip -> to_ipv4_mapped (to_ipv6_mapped ip) = Some ip.
Proof.
  unfold ipv4, u32, to_ipv6_mapped, to_ipv4_mapped. intros H.
  rewrite Z.div_add_l, Z.div_small by lia. simpl.
  by rewrite Z.add_comm, Z.mod_add, Z.mod_small by lia.
Qed.

#[export] Hint Resolve ipv6_segments_wf to_ipv6_mapped_wf ipv4_new_wf : bytes.
