(* ===== verification/Text.v ===== *)
(** Byte strings and the standard-library text functions the crates use on
    untrusted input: splitting, trimming, [from_utf8], integer [from_str] and
    [from_str_radix], [Ipv4Addr::from_str], and the [Display] forms they invert.
    Text is a list of bytes. *)

From S2P Require Import Prelude NetTypes.
#[local] Open Scope Z_scope.

(** ** Splitting *)

(** [split_once(c)]: at the first occurrence. *)
Fixpoint split_once (c : Z) (s : list Z) : option (list Z * list Z) :=
  match s with
  | [] => None
  | x :: r =>
      if x =? c then Some ([], r)
      else '(a, b) ← split_once c r; Some (x :: a, b)
  end.

(** [rsplit_once(c)]: at the last occurrence. *)
Definition rsplit_once (c : Z) (s : list Z) : option (list Z * list Z) :=
  '(a, b) ← split_once c (reverse s); Some (reverse b, reverse a).

(** [split(c)]. *)
Fixpoint split_on (c : Z) (s : list Z) : list (list Z) :=
  match s with
  | [] => [[]]
  | x :: r =>
      match split_on c r with
      | [] => [[]]
      | p :: ps => if x =? c then [] :: p :: ps else (x :: p) :: ps
      end
  end.

(** [split_once(p)] for a string pattern. *)
Fixpoint split_str (p s : list Z) : option (list Z * list Z) :=
  if decide (take (length p) s = p) then Some ([], drop (length p) s)
  else match s with
       | [] => None
       | x :: r => '(a, b) ← split_str p r; Some (x :: a, b)
       end.

(** [lines()]: a line ends at a line feed, with the carriage return before it. *)
Definition strip_cr (l : list Z) : list Z :=
  match reverse l with 13 :: r => reverse r | _ => l end.
Fixpoint lines_of (ps : list (list Z)) : list (list Z) :=
  match ps with
  | [] => []
  | [p] => match p with [] => [] | _ => [p] end
  | p :: r => strip_cr p :: lines_of r
  end.
Definition lines (s : list Z) : list (list Z) := lines_of (split_on 10 s).

Definition strip_prefix (p s : list Z) : option (list Z) :=
  if decide (take (length p) s = p) then Some (drop (length p) s) else None.

(** ** Characters *)

(** [char::is_whitespace] on the characters of one, two and three bytes. *)
Definition is_space (c : Z) : bool := ((9 <=? c) && (c <=? 13)) || (c =? 32).
Definition is_space2 (a b : Z) : bool := (a =? 194) && ((b =? 133) || (b =? 160)).
Definition is_space3 (a b c : Z) : bool :=
  ((a =? 225) && (b =? 154) && (c =? 128)) ||
  ((a =? 226) && (b =? 128) && (((128 <=? c) && (c <=? 138)) || (c =? 168) || (c =? 169) || (c =? 175))) ||
  ((a =? 226) && (b =? 129) && (c =? 159)) || ((a =? 227) && (b =? 128) && (c =? 128)).

(** [trim_start] of UTF-8 text, and the same from the other end, where the
    bytes of a character come last first. *)
Fixpoint trim_with (sp2 : Z -> Z -> bool) (sp3 : Z -> Z -> Z -> bool) (s : list Z) : list Z :=
  match s with
  | [] => []
  | a :: r =>
      if is_space a then trim_with sp2 sp3 r
      else match r with
           | [] => s
           | b :: r2 =>
               if sp2 a b then trim_with sp2 sp3 r2
               else match r2 with
                    | [] => s
                    | c :: r3 => if sp3 a b c then trim_with sp2 sp3 r3 else s
                    end
           end
  end.
Definition trim_start (s : list Z) : list Z := trim_with is_space2 is_space3 s.
Definition trim_end (s : list Z) : list Z :=
  reverse (trim_with (fun a b => is_space2 b a) (fun a b c => is_space3 c b a) (reverse s)).
Definition trim (s : list Z) : list Z := trim_end (trim_start s).

(** [to_ascii_uppercase] of a byte. *)
Definition to_upper (c : Z) : Z := if (97 <=? c) && (c <=? 122) then c - 32 else c.
Definition eq_ignore_ascii_case (a b : list Z) : bool := bool_decide (map to_upper a = map to_upper b).

(** [str::from_utf8(..).is_ok()]: no overlong forms, no surrogates, nothing
    above U+10FFFF. *)
Definition is_cont (b : Z) : bool := (128 <=? b) && (b <=? 191).
Fixpoint utf8_valid (s : list Z) : bool :=
  match s with
  | [] => true
  | a :: r =>
      if a <? 128 then utf8_valid r
      else match r with
           | [] => false
           | b :: r2 =>
               if (194 <=? a) && (a <=? 223) then is_cont b && utf8_valid r2
               else match r2 with
                    | [] => false
                    | c :: r3 =>
                        if (224 <=? a) && (a <=? 239) then
                          is_cont b && is_cont c && negb ((a =? 224) && (b <? 160)) && negb ((a =? 237) && (159 <? b)) &&
                          utf8_valid r3
                        else match r3 with
                             | [] => false
                             | d :: r4 =>
                                 (240 <=? a) && (a <=? 244) && is_cont b && is_cont c && is_cont d &&
                                 negb ((a =? 240) && (b <? 144)) && negb ((a =? 244) && (143 <? b)) && utf8_valid r4
                             end
                    end
           end
  end.

(** The first character of a text, or the longest prefix of one that is not
    completed: its length and whether it is whole. *)
Definition byte_at (s : list Z) (i : nat) : Z := match s !! i with Some b => b | None => 0 end.
Definition second_ok (a b : Z) : bool :=
  is_cont b && negb ((a =? 224) && (b <? 160)) && negb ((a =? 237) && (159 <? b)) &&
  negb ((a =? 240) && (b <? 144)) && negb ((a =? 244) && (143 <? b)).
Definition utf8_step (s : list Z) : nat * bool :=
  let a := byte_at s 0 in
  if a <? 128 then (1, true)%nat
  else if (194 <=? a) && (a <=? 223) then if is_cont (byte_at s 1) then (2, true)%nat else (1, false)%nat
  else if (224 <=? a) && (a <=? 239) then
    if negb (second_ok a (byte_at s 1)) then (1, false)%nat
    else if is_cont (byte_at s 2) then (3, true)%nat else (2, false)%nat
  else if (240 <=? a) && (a <=? 244) then
    if negb (second_ok a (byte_at s 1)) then (1, false)%nat
    else if negb (is_cont (byte_at s 2)) then (2, false)%nat
    else if is_cont (byte_at s 3) then (4, true)%nat else (3, false)%nat
  else (1, false)%nat.

(** [String::from_utf8_lossy]: every step takes a byte at least, so the length is
    enough fuel. *)
Fixpoint lossy_fuel (fuel : nat) (s : list Z) : list Z :=
  match fuel, s with
  | S f, _ :: _ =>
      let '(n, whole) := utf8_step s in
      (if whole : bool then take n s else [239; 191; 189]) ++ lossy_fuel f (drop n s)
  | _, _ => []
  end.
Definition from_utf8_lossy (s : list Z) : list Z := lossy_fuel (length s) s.

(** [&s[a..b]] of a [str]: both ends on a character boundary. *)
Definition char_boundary (s : list Z) (i : nat) : bool :=
  match s !! i with
  | Some b => (i =? 0)%nat || negb (is_cont b)
  | None => (i =? length s)%nat
  end.
Definition str_slice (s : list Z) (a b : nat) : outcome (list Z) :=
  if (a <=? b)%nat && char_boundary s a && char_boundary s b then Val (take (b - a) (drop a s)) else Panicked.

(** ** Integers *)

Definition is_digit (c : Z) : bool := (48 <=? c) && (c <=? 57).

(** [char::to_digit(radix)] for radix 10 and 16. *)
Definition to_digit (radix c : Z) : option Z :=
  let d := if (48 <=? c) && (c <=? 57) then Some (c - 48)
           else if (97 <=? c) && (c <=? 122) then Some (c - 87)
           else if (65 <=? c) && (c <=? 90) then Some (c - 55) else None in
  match d with Some v => if v <? radix then Some v else None | None => None end.

(** The checked multiply-and-add loop of [from_str_radix]. *)
Fixpoint parse_digits (radix max acc : Z) (s : list Z) : option Z :=
  match s with
  | [] => Some acc
  | c :: r =>
      d ← to_digit radix c;
      let acc := acc * radix + d in
      if max <? acc then None else parse_digits radix max acc r
  end.

(** [uN::from_str_radix]: a lone sign is an error, a leading [+] is accepted. *)
Definition from_str_radix (radix max : Z) (s : list Z) : option Z :=
  match s with
  | [] => None
  | c :: r =>
      if c =? 43 then (match r with [] => None | _ => parse_digits radix max 0 r end)
      else parse_digits radix max 0 s
  end.

Definition parse_u8 : list Z -> option Z := from_str_radix 10 255.
Definition parse_u16 : list Z -> option Z := from_str_radix 10 65535.
Definition parse_u64 : list Z -> option Z := from_str_radix 10 (2 ^ 64 - 1).

(** [Display] of an unsigned integer. *)
Fixpoint dec_fuel (fuel : nat) (z : Z) : list Z :=
  match fuel with
  | O => []
  | S f => if z <? 10 then [48 + z] else dec_fuel f (z / 10) ++ [48 + z mod 10]
  end.
Definition dec (z : Z) : list Z := dec_fuel (S (Z.to_nat (Z.log2 z))) z.

(** [{:02x}] *)
Definition hex_digit (d : Z) : Z := if d <? 10 then 48 + d else 87 + d.
Definition hex_byte (b : Z) : list Z := [hex_digit (b / 16); hex_digit (b mod 16)].
Definition hex (l : list Z) : list Z := concat (map hex_byte l).

(** ** Ipv4Addr::from_str *)

(** One octet: one to three digits, no leading zero, at most 255. *)
Definition parse_octet (s : list Z) : option Z :=
  match s with
  | [] => None
  | c :: r =>
      if forallb is_digit s && (length s <=? 3)%nat && negb ((c =? 48) && negb (bool_decide (r = [])))
      then parse_digits 10 255 0 s else None
  end.

Definition parse_ipv4 (s : list Z) : option Z :=
  match split_on 46 s with
  | [a; b; c; d] =>
      a ← parse_octet a; b ← parse_octet b; c ← parse_octet c; d ← parse_octet d;
      Some (ipv4_new a b c d)
  | _ => None
  end.

(** [Display] of [Ipv4Addr]. *)
Definition show_ipv4 (ip : Z) : list Z :=
  match ipv4_octets ip with
  | [a; b; c; d] => dec a ++ [46] ++ dec b ++ [46] ++ dec c ++ [46] ++ dec d
  | _ => []
  end.

(** * Lemmas *)

Lemma split_once_none c s : split_once c s = None -> c ∉ s.
Proof.
  induction s as [|x s IH]; cbn [split_once]; [intros _; apply not_elem_of_nil|]. destruct (Z.eqb_spec x c); [done|].
  destruct (split_once c s) as [[a b]|]; cbn; [done|]. intros _. apply not_elem_of_cons. split; [congruence|by apply IH].
Qed.

Lemma split_once_spec c s a b :
  split_once c s = Some (a, b) <-> s = a ++ c :: b /\ c ∉ a.
Proof.
  revert a b. induction s as [|x s IH]; intros a b; simpl.
  - split; [done|]. intros [H _]. by destruct a.
  - destruct (x =? c) eqn:E.
    + apply Z.eqb_eq in E as ->. split.
      * intros [= <- <-]. split; [done|]. apply not_elem_of_nil.
      * intros [H Hn]. destruct a as [|y a]; simplify_eq/=; [done|].
        exfalso. apply Hn. left.
    + apply Z.eqb_neq in E. destruct (split_once c s) as [[a' b']|] eqn:Es; simpl.
      * destruct (proj1 (IH a' b') eq_refl) as [-> Hn]. split.
        -- intros [= <- <-]. split; [done|]. rewrite not_elem_of_cons. auto.
        -- intros [H Hn']. destruct a as [|y a]; simplify_eq/=.
           apply not_elem_of_cons in Hn' as [_ Hn'].
           assert (Some (a', b') = Some (a, b)) as [= <- <-]; [by apply IH|done].
      * split; [done|]. intros [H Hn']. destruct a as [|y a]; simplify_eq/=.
        apply not_elem_of_cons in Hn' as [_ Hn'].
        assert (None = Some (a, b)); [by apply IH|done].
Qed.

Lemma split_once_app c a b : c ∉ a -> split_once c (a ++ c :: b) = Some (a, b).
Proof. intros. by apply split_once_spec. Qed.

Lemma rsplit_once_app c a b : c ∉ b -> rsplit_once c (a ++ c :: b) = Some (a, b).
Proof.
  intros Hb. unfold rsplit_once.
  rewrite reverse_app, reverse_cons, <- app_assoc. simpl.
  rewrite split_once_app by (by rewrite elem_of_reverse). simpl.
  by rewrite !reverse_involutive.
Qed.

Lemma split_on_single c s : c ∉ s -> split_on c s = [s].
Proof.
  induction s as [|x s IH]; intros H; simpl; [done|].
  apply not_elem_of_cons in H as [H1 H2]. rewrite (IH H2).
  by rewrite (proj2 (Z.eqb_neq x c)) by congruence.
Qed.

Lemma split_on_ne c s : split_on c s <> [].
Proof. induction s as [|x s IH]; cbn [split_on]; [done|]. destruct (split_on c s); [done|]. by destruct (x =? c). Qed.

Lemma split_on_app c a b : c ∉ a -> split_on c (a ++ c :: b) = a :: split_on c b.
Proof.
  induction a as [|x a IH]; intros H; simpl.
  - rewrite Z.eqb_refl. pose proof (split_on_ne c b). by destruct (split_on c b).
  - apply not_elem_of_cons in H as [H1 H2]. rewrite (IH H2).
    by rewrite (proj2 (Z.eqb_neq x c)) by congruence.
Qed.

Lemma strip_prefix_app p s : strip_prefix p (p ++ s) = Some s.
Proof. unfold strip_prefix. by rewrite take_app_length, decide_True, drop_app_length. Qed.

(** ** Trimming *)

(** Text that begins and ends with a visible ASCII character is left alone, and
    a line feed after it goes. *)
Definition solid (c : Z) : Prop := 0 <= c < 128 /\ is_space c = false.

Lemma trim_start_solid c s : solid c -> trim_start (c :: s) = c :: s.
Proof.
  intros [Hc Hs]. unfold trim_start. cbn [trim_with]. rewrite Hs. destruct s as [|b s]; [done|].
  assert (is_space2 c b = false) as -> by (unfold is_space2; lia). destruct s as [|d s]; [done|].
  by assert (is_space3 c b d = false) as -> by (unfold is_space3; lia).
Qed.

Lemma trim_end_solid c s : solid c -> trim_end (s ++ [c]) = s ++ [c].
Proof.
  intros [Hc Hs]. unfold trim_end. rewrite reverse_app. cbn [reverse app rev_append].
  change (reverse [c]) with [c]. cbn [app trim_with]. rewrite Hs.
  assert (E : forall r, trim_with (fun a b => is_space2 b a) (fun a b c => is_space3 c b a) (c :: r) = c :: r).
  { intros r. cbn [trim_with]. rewrite Hs. destruct r as [|b r]; [done|].
    assert (is_space2 b c = false) as -> by (unfold is_space2; lia). destruct r as [|d r]; [done|].
    by assert (is_space3 d b c = false) as -> by (unfold is_space3; lia). }
  specialize (E (reverse s)). cbn [trim_with] in E. rewrite Hs in E. rewrite E.
  by rewrite reverse_cons, reverse_involutive.
Qed.

Lemma trim_end_newline s : trim_end (s ++ [10]) = trim_end s.
Proof. unfold trim_end. by rewrite reverse_app. Qed.

Lemma trim_solid a s b : solid a -> solid b -> trim (a :: s ++ [b]) = a :: s ++ [b].
Proof. intros Ha Hb. unfold trim. rewrite trim_start_solid by done. by apply (trim_end_solid b (a :: s)). Qed.

Lemma trim_solid_line a s b : solid a -> solid b -> trim ((a :: s ++ [b]) ++ [10]) = a :: s ++ [b].
Proof.
  intros Ha Hb. unfold trim. cbn [app]. rewrite trim_start_solid by done.
  rewrite (app_comm_cons (s ++ [b])), trim_end_newline. by apply (trim_end_solid b (a :: s)).
Qed.

Lemma lines_one l : 10 ∉ l -> lines (l ++ [10]) = [strip_cr l].
Proof.
  intros H. unfold lines. rewrite split_on_app by done. done.
Qed.

(** ** Decimal round trip *)

Lemma dec_fuel_digits fuel z : 0 <= z -> Forall (fun c => 48 <= c <= 57) (dec_fuel fuel z).
Proof.
  revert z. induction fuel as [|fuel IH]; intros z Hz; simpl; [constructor|].
  destruct (Z.ltb_spec z 10).
  - constructor; [lia|constructor].
  - apply Forall_app. split; [apply IH; apply Z.div_pos; lia|].
    constructor; [|constructor]. pose proof (Z.mod_pos_bound z 10). lia.
Qed.

Lemma dec_digits z : 0 <= z -> Forall (fun c => 48 <= c <= 57) (dec z).
Proof. apply dec_fuel_digits. Qed.

Lemma dec_no_char c z : 0 <= z -> ~ 48 <= c <= 57 -> c ∉ dec z.
Proof.
  intros Hz Hc Hin. pose proof (dec_digits z Hz) as Hf.
  rewrite list.Forall_forall in Hf. by apply Hf in Hin.
Qed.

Lemma show_ipv4_no c ip : c <> 46 -> ~ 48 <= c <= 57 -> c ∉ show_ipv4 ip.
Proof.
  intros Hd Hc. unfold show_ipv4. pose proof (be_bytes_wf 4 ip) as Hwf. unfold ipv4_octets.
  destruct (be_bytes 4 ip) as [|a [|b [|c' [|d [|]]]]]; try apply not_elem_of_nil.
  unfold bytes_wf, u8 in Hwf. rewrite !list.Forall_cons in Hwf. destruct Hwf as (Ha & Hb & Hc' & Hd' & _).
  repeat (apply not_elem_of_app; split); first [apply dec_no_char; [lia|done]|by apply not_elem_of_cons; split; [|apply not_elem_of_nil]].
Qed.

Lemma to_digit_dec d : 0 <= d < 10 -> to_digit 10 (48 + d) = Some d.
Proof.
  intros H. unfold to_digit.
  rewrite (proj2 (Z.leb_le _ _)), (proj2 (Z.leb_le (48 + d) _)) by lia. simpl.
  replace (48 + d - 48) with d by lia. by rewrite (proj2 (Z.ltb_lt _ _)) by lia.
Qed.

Lemma parse_digits_app radix max acc s t :
  parse_digits radix max acc (s ++ t)
  = (acc' ← parse_digits radix max acc s; parse_digits radix max acc' t).
Proof.
  revert acc. induction s as [|c s IH]; intros acc; simpl; [done|].
  destruct (to_digit radix c); simpl; [|done].
  case_match; simpl; [done|]. apply IH.
Qed.

Lemma to_digit_bound radix c d : to_digit radix c = Some d -> 0 <= d < radix.
Proof.
  unfold to_digit. intros H.
  destruct ((48 <=? c) && (c <=? 57)) eqn:E1;
    [|destruct ((97 <=? c) && (c <=? 122)) eqn:E2;
      [|destruct ((65 <=? c) && (c <=? 90)) eqn:E3; [|discriminate H]]];
    cbv zeta iota in H; case_match; simplify_eq; lia.
Qed.

Lemma parse_digits_bound radix max s : forall acc z,
  0 < radix -> 0 <= acc <= max -> parse_digits radix max acc s = Some z -> 0 <= z <= max.
Proof.
  induction s as [|c s IH]; intros acc z Hr Ha H; simpl in H; [simplify_eq; lia|].
  destruct (to_digit radix c) as [d|] eqn:E; [|done]. apply to_digit_bound in E. simpl in H.
  destruct (Z.ltb_spec max (acc * radix + d)); [done|]. eapply IH in H; [done|done|nia].
Qed.

Lemma from_str_radix_bound radix max s z :
  0 < radix -> 0 <= max -> from_str_radix radix max s = Some z -> 0 <= z <= max.
Proof.
  intros Hr Hm H. unfold from_str_radix in H. destruct s as [|c r]; [done|].
  destruct (c =? 43); [destruct r; [done|]|]; eapply parse_digits_bound in H; (done || lia).
Qed.

Lemma parse_octet_u8 s z : parse_octet s = Some z -> u8 z.
Proof.
  unfold parse_octet. destruct s; [done|]. case_match; [|done].
  intros Hz%parse_digits_bound; unfold u8; lia.
Qed.

Lemma parse_ipv4_wf s ip : parse_ipv4 s = Some ip -> ipv4 ip.
Proof.
  unfold parse_ipv4. intros H. repeat case_match; try done.
  repeat match type of H with
    (_ ← parse_octet ?x; _) = _ => let E := fresh "E" in
      destruct (parse_octet x) eqn:E; [simpl in H; apply parse_octet_u8 in E|done] end.
  injection H as <-. by apply ipv4_new_wf.
Qed.

Lemma parse_digits_dec_fuel max fuel : forall z,
  0 <= z <= max -> z < 2 ^ Z.of_nat fuel -> parse_digits 10 max 0 (dec_fuel fuel z) = Some z.
Proof.
  induction fuel as [|fuel IH]; intros z Hz Hf; [simpl in *; f_equal; lia|].
  cbn [dec_fuel]. destruct (Z.ltb_spec z 10).
  - simpl. rewrite to_digit_dec by lia. simpl. by rewrite (proj2 (Z.ltb_ge _ _)) by lia.
  - rewrite Nat2Z.inj_succ, Z.pow_succ_r in Hf by lia.
    pose proof (Z.div_mod z 10 ltac:(lia)). pose proof (Z.mod_pos_bound z 10 ltac:(lia)).
    rewrite parse_digits_app, IH by lia. simpl. rewrite to_digit_dec by lia. simpl.
    rewrite (proj2 (Z.ltb_ge _ _)) by lia. f_equal. lia.
Qed.

Lemma parse_digits_dec max z : 0 <= z <= max -> parse_digits 10 max 0 (dec z) = Some z.
Proof.
  intros H. apply parse_digits_dec_fuel; [done|].
  rewrite Nat2Z.inj_succ, Z2Nat.id by apply Z.log2_nonneg.
  destruct (decide (z = 0)) as [->|]; [done|]. apply Z.log2_spec. lia.
Qed.

Lemma dec_nonempty z : 0 <= z -> exists c r, dec z = c :: r /\ 48 <= c <= 57.
Proof.
  intros H. pose proof (dec_digits z H) as Hd. unfold dec in *. cbn [dec_fuel] in *.
  destruct (z <? 10); [eexists _, _; split; [done|]; by apply Forall_cons_1 in Hd as [? _]|].
  destruct (dec_fuel _ (z / 10) ++ _) as [|c r] eqn:E; [by destruct (dec_fuel _ _)|].
  exists c, r. split; [done|]. by apply Forall_cons_1 in Hd as [? _].
Qed.

(** Parsing the decimal form of an integer gives it back. *)
Lemma from_str_radix_dec max z : 0 <= z <= max -> from_str_radix 10 max (dec z) = Some z.
Proof.
  intros H. destruct (dec_nonempty z) as (c & r & E & Hc); [lia|].
  unfold from_str_radix. rewrite E. rewrite (proj2 (Z.eqb_neq _ _)) by lia.
  rewrite <- E. by apply parse_digits_dec.
Qed.

Lemma parse_octet_dec z : u8 z -> parse_octet (dec z) = Some z.
Proof.
  unfold u8. intros H.
  assert (Hall : forallb (fun z => bool_decide (parse_octet (dec z) = Some z))
                         (map Z.of_nat (seq 0 256)) = true) by (vm_compute; reflexivity).
  rewrite forallb_forall in Hall.
  specialize (Hall z). rewrite bool_decide_eq_true in Hall. apply Hall.
  apply in_map_iff. exists (Z.to_nat z). split; [lia|]. apply in_seq. lia.
Qed.

Lemma parse_ipv4_show ip : ipv4 ip -> parse_ipv4 (show_ipv4 ip) = Some ip.
Proof.
  intros H. unfold show_ipv4, ipv4_octets.
  assert (Hwf : bytes_wf (be_bytes 4 ip)) by apply be_bytes_wf.
  assert (Hv : from_be (be_bytes 4 ip) = ip) by by apply from_be_be_bytes_small.
  pose proof (length_be_bytes 4 ip) as Hl.
  destruct (be_bytes 4 ip) as [|a [|b [|c [|d [|]]]]]; try done.
  unfold bytes_wf in Hwf. rewrite !list.Forall_cons in Hwf. destruct Hwf as (Ha & Hb & Hc & Hd & _).
  unfold parse_ipv4. unfold u8 in *. cbn [app].
  rewrite !split_on_app, split_on_single by (apply dec_no_char; lia).
  rewrite !parse_octet_dec by done. simpl. f_equal. apply Hv.
Qed.

(** ** Hex round trip *)

Lemma hex_byte_parse b : u8 b -> from_str_radix 16 255 (hex_byte b) = Some b.
Proof.
  unfold u8. intros H.
  assert (Hall : forallb (fun z => bool_decide (from_str_radix 16 255 (hex_byte z) = Some z))
                         (map Z.of_nat (seq 0 256)) = true) by (vm_compute; reflexivity).
  rewrite forallb_forall in Hall.
  specialize (Hall b). rewrite bool_decide_eq_true in Hall. apply Hall.
  apply in_map_iff. exists (Z.to_nat b). split; [lia|]. apply in_seq. lia.
Qed.

Lemma length_hex l : length (hex l) = (2 * length l)%nat.
Proof. induction l as [|b l IH]; simpl; [done|]. unfold hex in IH. lia. Qed.

Lemma utf8_step_valid a r : utf8_valid (a :: r) = true ->
  exists n, utf8_step (a :: r) = (S n, true) /\ (n <= length r)%nat /\ utf8_valid (drop n r) = true.
Proof.
  unfold utf8_step, byte_at. cbn [lookup list_lookup utf8_valid]. destruct (Z.ltb_spec a 128); [exists 0%nat; split_and!; [done|lia|done]|].
  destruct r as [|b r2]; [done|]. cbn [lookup list_lookup length].
  destruct ((194 <=? a) && (a <=? 223)) eqn:E2; [intros [-> Hv]%andb_true_iff; exists 1%nat; split_and!; [done|lia|done]|].
  destruct r2 as [|c r3]; [done|]. cbn [lookup list_lookup length].
  destruct ((224 <=? a) && (a <=? 239)) eqn:E3.
  - rewrite !andb_true_iff. intros ((((Hb & Hc) & H1) & H2) & Hv).
    assert (Hs : second_ok a b = true).
    { unfold second_ok. rewrite Hb, H1, H2. apply andb_true_iff in E3 as [_ E3]. apply Z.leb_le in E3.
      by rewrite !(proj2 (Z.eqb_neq a _)) by lia. }
    rewrite Hs, Hc. exists 2%nat. split_and!; [done|lia|done].
  - destruct r3 as [|d r4]; [done|]. cbn [lookup list_lookup length].
    rewrite !andb_true_iff. intros (((((((Ha1 & Ha2) & Hb) & Hc) & Hd) & H1) & H2) & Hv). rewrite Ha1, Ha2.
    assert (Hs : second_ok a b = true).
    { unfold second_ok. rewrite Hb, H1, H2. apply Z.leb_le in Ha1. by rewrite !(proj2 (Z.eqb_neq a _)) by lia. }
    rewrite Hs, Hc, Hd. exists 3%nat. split_and!; [done|lia|done].
Qed.

(** [from_utf8_lossy] leaves valid text alone. *)
Lemma lossy_valid fuel : forall s, (length s <= fuel)%nat -> utf8_valid s = true -> lossy_fuel fuel s = s.
Proof.
  induction fuel as [|f IH]; intros s Hl Hv; (destruct s as [|a r]; [done|]); [cbn in Hl; lia|]. cbn [lossy_fuel length] in *.
  destruct (utf8_step_valid a r Hv) as (n & -> & Hn & Hr). cbn [take drop app]. f_equal. rewrite IH; [|rewrite length_drop; lia|done].
  apply take_drop.
Qed.

Lemma from_utf8_lossy_valid s : utf8_valid s = true -> from_utf8_lossy s = s.
Proof. intros H. by apply lossy_valid. Qed.
