(* ===== verification/Disco.v ===== *)
(** Disco wire format ([crates/ts-disco]): message types, the outer header,
    the Ping / Pong / CallMeMaybe bodies, and the plaintext and encrypted
    packet views.  A [#[repr(C, packed)]] structure is the concatenation of its
    fields, and a checked cast from a byte slice succeeds exactly when the
    length is one the structure can have.  The NaCl box is the [CryptoBox]
    interface. *)

From S2P Require Import Prelude NetTypes.
#[local] Open Scope Z_scope.

(** ** message_type.rs *)

Inductive MessageType : Type :=
| MTPing | MTPong | MTCallMeMaybe
| MTBindUdpRelayEndpoint | MTBindUdpRelayEndpointChallenge | MTBindUdpRelayEndpointAnswer
| MTCallMeMaybeVia
| MTAllocateUdpRelayEndpointsRequest | MTAllocateUdpRelayEndpointsResponse.

#[global] Instance MessageType_eq_dec : EqDecision MessageType.
Proof. solve_decision. Defined.

(** The [#[repr(u8)]] discriminant. *)
Definition mt_byte (t : MessageType) : Z :=
  match t with
  | MTPing => 1 | MTPong => 2 | MTCallMeMaybe => 3
  | MTBindUdpRelayEndpoint => 4 | MTBindUdpRelayEndpointChallenge => 5
  | MTBindUdpRelayEndpointAnswer => 6 | MTCallMeMaybeVia => 7
  | MTAllocateUdpRelayEndpointsRequest => 8 | MTAllocateUdpRelayEndpointsResponse => 9
  end.

(** [TryFrom<u8>]: the variant with that discriminant. *)
Definition mt_try_from (b : Z) : result unit MessageType :=
  ok_or tt (find (fun t => mt_byte t =? b)
    [MTPing; MTPong; MTCallMeMaybe; MTBindUdpRelayEndpoint; MTBindUdpRelayEndpointChallenge;
     MTBindUdpRelayEndpointAnswer; MTCallMeMaybeVia; MTAllocateUdpRelayEndpointsRequest;
     MTAllocateUdpRelayEndpointsResponse]).

(** ** error.rs *)

Inductive DiscoError : Type :=
| CryptoFailed | WrongMagic | UnknownVersion | TooShort | Alignment | Validity.

#[global] Instance DiscoError_eq_dec : EqDecision DiscoError.
Proof. solve_decision. Defined.

(** ** header.rs *)

Record Header : Type := mkHeader {
  magic : list Z;
  sender_pub : list Z;
  nonce : list Z
}.

Definition MAGIC : list Z := bs "TS" ++ [0xf0; 0x9f; 0x92; 0xac].
Definition NONCE_LEN : nat := 24.
Definition DISCO_KEY_LEN : nat := 32.
Definition HEADER_SIZE : nat := 62.

Definition Header_new (pk n : list Z) : Header := mkHeader MAGIC pk n.
Definition header_bytes (h : Header) : list Z := magic h ++ sender_pub h ++ nonce h.

(** The structure view of the first [size_of::<Header>()] bytes. *)
Definition header_try_ref_from_prefix (b : list Z) : result DiscoError (Header * list Z) :=
  if decide (length b < HEADER_SIZE)%nat then Err TooShort
  else Ok (mkHeader (take 6 b) (take 32 (drop 6 b)) (take 24 (drop 38 b)), drop 62 b).

Definition header_is_valid (h : Header) : bool := bool_decide (magic h = MAGIC).

Definition header_validate (h : Header) : result DiscoError unit :=
  if negb (header_is_valid h) then Err WrongMagic else Ok tt.

Definition header_from_bytes (b : list Z) : result DiscoError (Header * list Z) :=
  r ← header_try_ref_from_prefix b;
  _ ← header_validate r.1;
  Ok r.

(** lib.rs *)
Definition is_disco_message (b : list Z) : bool := is_ok (header_from_bytes b).

(** ** endpoint.rs *)

Record Endpoint : Type := mkEndpoint {
  ep_addr : list Z;   (** eight network-endian [u16] segments *)
  ep_port_ : Z
}.

#[global] Instance Endpoint_eq_dec : EqDecision Endpoint.
Proof. solve_decision. Defined.

Definition ENDPOINT_SIZE : nat := 18.

Definition addr_v6 (e : Endpoint) : Z := ipv6_new (ep_addr e).

Definition ep_addr_ip (e : Endpoint) : IpAddr :=
  match to_ipv4_mapped (addr_v6 e) with
  | Some v4 => IpV4 v4
  | None => IpV6 (addr_v6 e)
  end.

Definition ep_port (e : Endpoint) : Z := ep_port_ e.

Definition socket_addr_v6 (e : Endpoint) : SocketAddr := SAV6 (addr_v6 e) (ep_port e) 0 0.

Definition socket_addr (e : Endpoint) : SocketAddr := sa_new (ep_addr_ip e) (ep_port e).

Definition from_v6_segments (s : list Z) (port : Z) : Endpoint := mkEndpoint s port.

Definition from_socket_addr (sa : SocketAddr) : Endpoint :=
  let ip := match sa_ip sa with IpV4 a => to_ipv6_mapped a | IpV6 a => a end in
  from_v6_segments (ipv6_segments ip) (sa_port sa).

(** Wire image of an [Endpoint]: every segment, then the port, big-endian. *)
Definition endpoint_bytes (e : Endpoint) : list Z :=
  concat (map (be_bytes 2) (ep_addr e)) ++ be_bytes 2 (ep_port_ e).

Fixpoint u16s_of (n : nat) (b : list Z) : list Z :=
  match n with
  | O => []
  | S m => from_be (take 2 b) :: u16s_of m (drop 2 b)
  end.

Definition endpoint_view (b : list Z) : Endpoint :=
  mkEndpoint (u16s_of 8 b) (from_be (drop 16 b)).

Definition endpoint_wf (e : Endpoint) : Prop :=
  length (ep_addr e) = 8%nat /\ Forall u16 (ep_addr e) /\ u16 (ep_port_ e).

(** ** The [Message] trait with its byte-slice cast *)

Class Message (M : Type) : Type := {
  msg_TYPE : MessageType;
  msg_bytes : M -> list Z;
  msg_ref_from_bytes : list Z -> result DiscoError M;
  msg_wf : M -> Prop
}.

(** What the packet layer relies on: the cast and the byte view are inverse. *)
Class MessageLaws (M : Type) `{Message M} : Prop := {
  msg_view_bytes : forall m, msg_wf m -> msg_ref_from_bytes (msg_bytes m) = Ok m;
  msg_bytes_view : forall b m, bytes_wf b -> msg_ref_from_bytes b = Ok m -> msg_bytes m = b;
  msg_view_wf : forall b m, bytes_wf b -> msg_ref_from_bytes b = Ok m -> msg_wf m;
  msg_bytes_wf : forall m, msg_wf m -> bytes_wf (msg_bytes m)
}.

(** ** ping.rs, pong.rs, call_me_maybe.rs *)

Record Ping : Type := mkPing { ping_tx_id : list Z; ping_node_key : list Z; ping_padding : list Z }.
Record Pong : Type := mkPong { pong_tx_id : list Z; pong_src : Endpoint }.
Record CallMeMaybe : Type := mkCallMeMaybe { cmm_endpoints : list Endpoint }.

Definition ping_size_with_padding (n : nat) : nat := 12 + 32 + n.
Definition pong_size : nat := 12 + ENDPOINT_SIZE.
Definition cmm_size_for_endpoint_count (n : nat) : nat := ENDPOINT_SIZE * n.

Definition ping_ref_from_bytes (b : list Z) : result DiscoError Ping :=
  if decide (length b < ping_size_with_padding 0)%nat then Err TooShort
  else Ok (mkPing (take 12 b) (take 32 (drop 12 b)) (drop 44 b)).

Definition pong_ref_from_bytes (b : list Z) : result DiscoError Pong :=
  if decide (length b = pong_size) then Ok (mkPong (take 12 b) (endpoint_view (drop 12 b)))
  else Err TooShort.

Fixpoint endpoints_view (n : nat) (b : list Z) : list Endpoint :=
  match n with
  | O => []
  | S m => endpoint_view (take ENDPOINT_SIZE b) :: endpoints_view m (drop ENDPOINT_SIZE b)
  end.

Definition cmm_ref_from_bytes (b : list Z) : result DiscoError CallMeMaybe :=
  if decide (length b mod ENDPOINT_SIZE = 0)%nat
  then Ok (mkCallMeMaybe (endpoints_view (length b / ENDPOINT_SIZE) b))
  else Err TooShort.

#[global] Instance Ping_Message : Message Ping := {|
  msg_TYPE := MTPing;
  msg_bytes p := ping_tx_id p ++ ping_node_key p ++ ping_padding p;
  msg_ref_from_bytes := ping_ref_from_bytes;
  msg_wf p := length (ping_tx_id p) = 12%nat /\ length (ping_node_key p) = 32%nat /\
    bytes_wf (ping_tx_id p) /\ bytes_wf (ping_node_key p) /\ bytes_wf (ping_padding p)
|}.

#[global] Instance Pong_Message : Message Pong := {|
  msg_TYPE := MTPong;
  msg_bytes p := pong_tx_id p ++ endpoint_bytes (pong_src p);
  msg_ref_from_bytes := pong_ref_from_bytes;
  msg_wf p := length (pong_tx_id p) = 12%nat /\ bytes_wf (pong_tx_id p) /\ endpoint_wf (pong_src p)
|}.

#[global] Instance CallMeMaybe_Message : Message CallMeMaybe := {|
  msg_TYPE := MTCallMeMaybe;
  msg_bytes c := concat (map endpoint_bytes (cmm_endpoints c));
  msg_ref_from_bytes := cmm_ref_from_bytes;
  msg_wf c := Forall endpoint_wf (cmm_endpoints c)
|}.

(** ** packet.rs *)

Record Plaintext : Type := mkPlaintext { pt_ty : Z; pt_version : Z; pt_message : list Z }.

Definition PT_VERSION : Z := 0.

Definition plaintext_ref_from_bytes (b : list Z) : result DiscoError Plaintext :=
  match b with
  | t :: v :: m => Ok (mkPlaintext t v m)
  | _ => Err TooShort
  end.

Definition plaintext_bytes (p : Plaintext) : list Z := pt_ty p :: pt_version p :: pt_message p.

Definition plaintext_ty (p : Plaintext) : option MessageType :=
  match mt_try_from (pt_ty p) with Ok t => Some t | Err _ => None end.

Definition plaintext_size_for_message (n : nat) : nat := 2 + n.
Definition aead_size_for_payload (n : nat) : nat := 16 + n.

(** A packet view, [CryptState] being a phantom. *)
Record Packet : Type := mkPacket {
  pkt_header : Header;
  pkt_tag : list Z;
  pkt_payload : list Z
}.

Definition packet_try_ref_from_bytes (b : list Z) : result DiscoError Packet :=
  if decide (length b < aead_size_for_payload HEADER_SIZE)%nat then Err TooShort
  else Ok (mkPacket (mkHeader (take 6 b) (take 32 (drop 6 b)) (take 24 (drop 38 b)))
                    (take 16 (drop 62 b)) (drop 78 b)).

Definition packet_bytes (p : Packet) : list Z :=
  header_bytes (pkt_header p) ++ pkt_tag p ++ pkt_payload p.

Definition size_for_message (n : nat) : nat :=
  HEADER_SIZE + aead_size_for_payload (plaintext_size_for_message n).

Definition packet_validate (p : Packet) : result DiscoError unit :=
  pt ← plaintext_ref_from_bytes (pkt_payload p);
  if negb (pt_version pt =? PT_VERSION) then Err UnknownVersion else Ok tt.

Definition packet_plaintext (p : Packet) : option Plaintext :=
  match plaintext_ref_from_bytes (pkt_payload p) with Ok pt => Some pt | Err _ => None end.

Definition packet_ty (p : Packet) : option MessageType :=
  packet_plaintext p ≫= plaintext_ty.

Definition as_msg {M} `{Message M} (p : Packet) : option M :=
  pt ← packet_plaintext p;
  if bool_decide (plaintext_ty pt = Some msg_TYPE)
  then match msg_ref_from_bytes (pt_message pt) with Ok m => Some m | Err _ => None end
  else None.

(** [init_from_bytes]: [init] is what the closure does to the message in place. *)
Definition init_from_bytes {M} `{Message M} (b : list Z) (init : M -> M) :
    result DiscoError Packet :=
  s ← packet_try_ref_from_bytes b;
  pt ← plaintext_ref_from_bytes (pkt_payload s);
  msg ← msg_ref_from_bytes (pt_message pt);
  let pt' := mkPlaintext (mt_byte msg_TYPE) 0 (msg_bytes (init msg)) in
  let s' := mkPacket (pkt_header s) (pkt_tag s) (plaintext_bytes pt') in
  _ ← packet_validate s';
  Ok s'.

Definition from_encrypted_bytes (b : list Z) : result DiscoError Packet :=
  slf ← packet_try_ref_from_bytes b;
  _ ← header_validate (pkt_header slf);
  Ok slf.

(** The NaCl box of the [crypto_box] crate, as the packet code calls it:
    [public_key sk]; [seal peer_pk sk nonce msg] with the ciphertext and the
    detached tag; [open peer_pk sk nonce ciphertext tag]. *)
Class CryptoBox : Type := {
  box_public_key : list Z -> list Z;
  box_seal : list Z -> list Z -> list Z -> list Z -> option (list Z * list Z);
  box_open : list Z -> list Z -> list Z -> list Z -> list Z -> option (list Z)
}.

(** Documented behaviour of the box: keys and tags have fixed sizes, sealing
    keeps the length, and the holder of the matching secret key opens what was
    sealed for it. *)
Class CryptoBoxLaws `{CryptoBox} : Prop := {
  box_public_key_len : forall sk, length (box_public_key sk) = DISCO_KEY_LEN;
  box_public_key_wf : forall sk, bytes_wf (box_public_key sk);
  box_seal_sizes : forall pk sk n m ct tag,
    box_seal pk sk n m = Some (ct, tag) -> length ct = length m /\ length tag = 16%nat;
  box_open_seal : forall a b n m ct tag,
    box_seal (box_public_key b) a n m = Some (ct, tag) ->
    box_open (box_public_key a) b n ct tag = Some m
}.

Section Crypt.
Context `{CryptoBox}.

Definition encrypt_in_place (p : Packet) (secret receiver nonce_ : list Z) :
    result DiscoError Packet :=
  let header := Header_new (box_public_key secret) nonce_ in
  match box_seal receiver secret nonce_ (pkt_payload p) with
  | None => Err CryptoFailed
  | Some (ct, tag) => packet_try_ref_from_bytes (packet_bytes (mkPacket header tag ct))
  end.

Definition decrypt_in_place (p : Packet) (secret : list Z) : result DiscoError Packet :=
  match box_open (sender_pub (pkt_header p)) secret (nonce (pkt_header p))
                 (pkt_payload p) (pkt_tag p) with
  | None => Err CryptoFailed
  | Some m =>
      ret ← packet_try_ref_from_bytes (packet_bytes (mkPacket (pkt_header p) (pkt_tag p) m));
      _ ← packet_validate ret;
      Ok ret
  end.
End Crypt.

(** * Lemmas *)

Lemma mt_try_from_byte t : mt_try_from (mt_byte t) = Ok t.
Proof. by destruct t. Qed.

Lemma mt_try_from_inv b t : mt_try_from b = Ok t -> mt_byte t = b.
Proof.
  unfold mt_try_from, ok_or. case_match eqn:E; [|done]. intros [= ->].
  apply find_some in E. lia.
Qed.

(** ** Endpoints *)

Lemma length_u16s_bytes l : length (concat (map (be_bytes 2) l)) = (2 * length l)%nat.
Proof. induction l; simpl; rewrite ?length_app, ?length_be_bytes; lia. Qed.

Lemma u16s_of_bytes l k :
  Forall u16 l -> u16s_of (length l) (concat (map (be_bytes 2) l) ++ k) = l.
Proof.
  induction 1 as [|z l Hz Hl IH]; simpl length; [done|].
  cbn [map concat u16s_of]. rewrite <- app_assoc.
  rewrite take_app_len, drop_app_len by (by rewrite length_be_bytes).
  rewrite IH, from_be_be_bytes_small by done. done.
Qed.

Lemma u16s_bytes_of n b :
  bytes_wf b -> (2 * n <= length b)%nat ->
  concat (map (be_bytes 2) (u16s_of n b)) = take (2 * n) b.
Proof.
  revert b. induction n as [|n IH]; intros b Hb Hl; [done|].
  cbn [u16s_of map concat]. rewrite IH by (auto with bytes; rewrite ?length_drop; lia).
  assert (be_bytes 2 (from_be (take 2 b)) = take 2 b) as ->.
  { rewrite <- (be_bytes_from_be (take 2 b)) at 2 by auto with bytes.
    rewrite length_take. by replace (2 `min` length b)%nat with 2%nat by lia. }
  replace (2 * S n)%nat with (2 + 2 * n)%nat by lia.
  by rewrite take_take_drop.
Qed.

Lemma u16s_of_wf n b : bytes_wf b -> (2 * n <= length b)%nat ->
  Forall u16 (u16s_of n b) /\ length (u16s_of n b) = n.
Proof.
  revert b. induction n as [|n IH]; intros b Hb Hl; simpl; [by split; [constructor|]|].
  destruct (IH (drop 2 b)) as [H1 H2]; [auto with bytes|rewrite length_drop; lia|].
  split; [constructor; [|done]|lia].
  pose proof (from_be_bound (take 2 b) ltac:(auto with bytes)) as Hbd.
  rewrite length_take in Hbd. unfold u16.
  by replace (2 `min` length b)%nat with 2%nat in Hbd by lia.
Qed.

Lemma length_endpoint_bytes e : endpoint_wf e -> length (endpoint_bytes e) = ENDPOINT_SIZE.
Proof.
  intros (Hl & _ & _). unfold endpoint_bytes.
  rewrite length_app, length_u16s_bytes, Hl, length_be_bytes. done.
Qed.

Lemma u16s_bytes_wf l : bytes_wf (concat (map (be_bytes 2) l)).
Proof. induction l; cbn [map concat]; [constructor|]. apply bytes_wf_app. auto with bytes. Qed.

Lemma endpoint_bytes_wf e : bytes_wf (endpoint_bytes e).
Proof. apply bytes_wf_app. split; [apply u16s_bytes_wf|auto with bytes]. Qed.

Lemma endpoint_view_bytes e : endpoint_wf e -> endpoint_view (endpoint_bytes e) = e.
Proof.
  intros (Hl & Hs & Hp). unfold endpoint_view, endpoint_bytes.
  rewrite <- Hl, u16s_of_bytes by done.
  rewrite drop_app_len by (rewrite length_u16s_bytes; lia).
  rewrite from_be_be_bytes_small by done. by destruct e.
Qed.

Lemma endpoint_bytes_view b :
  bytes_wf b -> length b = ENDPOINT_SIZE -> endpoint_bytes (endpoint_view b) = b.
Proof.
  intros Hb Hl. unfold ENDPOINT_SIZE in Hl. unfold endpoint_bytes, endpoint_view. cbn [ep_addr ep_port_].
  rewrite u16s_bytes_of by (auto; lia).
  rewrite <- (take_drop 16 b) at 3. f_equal.
  rewrite <- (be_bytes_from_be (drop 16 b)) at 2 by auto with bytes.
  by rewrite length_drop, Hl.
Qed.

Lemma endpoint_view_wf b :
  bytes_wf b -> length b = ENDPOINT_SIZE -> endpoint_wf (endpoint_view b).
Proof.
  intros Hb Hl. unfold ENDPOINT_SIZE in Hl.
  destruct (u16s_of_wf 8 b) as [H1 H2]; [done|lia|].
  split; [done|]. split; [done|].
  pose proof (from_be_bound (drop 16 b) ltac:(auto with bytes)) as Hbd.
  by rewrite length_drop, Hl in Hbd.
Qed.

Lemma endpoints_view_bytes l :
  Forall endpoint_wf l -> endpoints_view (length l) (concat (map endpoint_bytes l)) = l.
Proof.
  induction 1 as [|e l He Hl IH]; [done|]. cbn [length map concat endpoints_view].
  rewrite take_app_len, drop_app_len by (by rewrite length_endpoint_bytes).
  by rewrite IH, endpoint_view_bytes.
Qed.

Lemma endpoints_bytes_view n b :
  bytes_wf b -> length b = (ENDPOINT_SIZE * n)%nat ->
  concat (map endpoint_bytes (endpoints_view n b)) = b /\
  Forall endpoint_wf (endpoints_view n b).
Proof.
  revert b. induction n as [|n IH]; intros b Hb Hl.
  - destruct b; [by split|]. simpl in Hl. lia.
  - assert (length (take ENDPOINT_SIZE b) = ENDPOINT_SIZE).
    { rewrite length_take. unfold ENDPOINT_SIZE in *. lia. }
    destruct (IH (drop ENDPOINT_SIZE b)) as [H1 H2]; [auto with bytes|rewrite length_drop; lia|].
    cbn [endpoints_view map concat]. split.
    + rewrite H1, endpoint_bytes_view by auto with bytes. apply take_drop.
    + constructor; [|done]. apply endpoint_view_wf; auto with bytes.
Qed.

Lemma length_endpoints_bytes l :
  Forall endpoint_wf l -> length (concat (map endpoint_bytes l)) = (ENDPOINT_SIZE * length l)%nat.
Proof.
  induction 1; cbn [map concat length]; [done|].
  rewrite length_app, length_endpoint_bytes by done. lia.
Qed.

(** ** The three bodies satisfy the cast laws *)

#[global] Instance Ping_MessageLaws : MessageLaws Ping.
Proof.
  split; cbn [msg_wf msg_bytes msg_ref_from_bytes Ping_Message]; unfold ping_ref_from_bytes.
  - intros [tx nk pad] (Htx & Hnk & _); cbn [ping_tx_id ping_node_key ping_padding] in *.
    rewrite decide_False by (unfold ping_size_with_padding; simpl_len; lia).
    rewrite take_app_len by done. rewrite drop_app_len by done.
    rewrite take_app_len by done. rewrite app_assoc, drop_app_len by (simpl_len; lia). done.
  - intros b m Hb. case_decide; [done|]. intros [= <-]. cbn.
    change 44%nat with (12 + 32)%nat. by rewrite <- drop_drop, !take_drop.
  - intros b m Hb. case_decide as Hlen; [done|]. unfold ping_size_with_padding in Hlen.
    intros [= <-]. cbn. simpl_len. repeat split; auto with bytes; lia.
  - intros m (_ & _ & ? & ? & ?). by rewrite !bytes_wf_app.
Qed.

#[global] Instance Pong_MessageLaws : MessageLaws Pong.
Proof.
  split; cbn [msg_wf msg_bytes msg_ref_from_bytes Pong_Message]; unfold pong_ref_from_bytes, pong_size.
  - intros [tx e] (Htx & _ & He); cbn [pong_tx_id pong_src] in *.
    rewrite decide_True by (rewrite length_app, length_endpoint_bytes by done; lia).
    rewrite take_app_len, drop_app_len by done. by rewrite endpoint_view_bytes.
  - intros b m Hb. case_decide as Hlen; [|done]. intros [= <-]. cbn [pong_tx_id pong_src].
    rewrite endpoint_bytes_view by (auto with bytes; rewrite length_drop; lia).
    apply take_drop.
  - intros b m Hb. case_decide as Hlen; [|done]. intros [= <-]. cbn [pong_tx_id pong_src].
    repeat split; auto with bytes; try (apply endpoint_view_wf; auto with bytes);
      rewrite ?length_take, ?length_drop; lia.
  - intros m (_ & ? & ?). apply bytes_wf_app. split; [done|apply endpoint_bytes_wf].
Qed.

#[global] Instance CallMeMaybe_MessageLaws : MessageLaws CallMeMaybe.
Proof.
  split; cbn [msg_wf msg_bytes msg_ref_from_bytes CallMeMaybe_Message]; unfold cmm_ref_from_bytes.
  - intros [l] Hl; cbn [cmm_endpoints] in *. rewrite length_endpoints_bytes by done.
    rewrite Nat.mul_comm, Nat.Div0.mod_mul, decide_True by done.
    rewrite Nat.div_mul by done. by rewrite endpoints_view_bytes.
  - intros b m Hb. case_decide as Hlen; [|done]. intros [= <-]. cbn [cmm_endpoints].
    apply endpoints_bytes_view; [done|]. apply Nat.Div0.div_exact. done.
  - intros b m Hb. case_decide as Hlen; [|done]. intros [= <-]. cbn [cmm_endpoints].
    apply endpoints_bytes_view; [done|]. apply Nat.Div0.div_exact. done.
  - intros m _. induction (cmm_endpoints m); cbn [map concat]; [constructor|].
    apply bytes_wf_app. split; [apply endpoint_bytes_wf|done].
Qed.

(** ** Packet views *)

Definition header_wf (h : Header) : Prop :=
  length (magic h) = 6%nat /\ length (sender_pub h) = 32%nat /\ length (nonce h) = 24%nat.

Lemma Header_new_wf pk n : length pk = 32%nat -> length n = 24%nat -> header_wf (Header_new pk n).
Proof. by repeat split. Qed.

Lemma packet_view_bytes p :
  header_wf (pkt_header p) -> length (pkt_tag p) = 16%nat ->
  packet_try_ref_from_bytes (packet_bytes p) = Ok p.
Proof.
  destruct p as [[mg pk n] tag pl]; intros (Hm & Hp & Hn) Ht; cbn in Hm, Hp, Hn, Ht.
  unfold packet_try_ref_from_bytes, packet_bytes, header_bytes.
  cbn [pkt_header pkt_tag pkt_payload magic sender_pub nonce].
  rewrite decide_False
    by (unfold aead_size_for_payload, HEADER_SIZE; rewrite !length_app; lia).
  rewrite <- !app_assoc.
  rewrite take_app_len by done. rewrite drop_app_len by done. rewrite take_app_len by done.
  rewrite !(app_assoc mg), drop_app_len by (rewrite length_app; lia).
  rewrite take_app_len by done.
  rewrite !(app_assoc (mg ++ pk)), drop_app_len by (rewrite !length_app; lia).
  rewrite take_app_len by done.
  rewrite (app_assoc ((mg ++ pk) ++ n)), drop_app_len by (rewrite !length_app; lia). done.
Qed.

Lemma packet_bytes_view b p :
  packet_try_ref_from_bytes b = Ok p -> packet_bytes p = b.
Proof.
  unfold packet_try_ref_from_bytes. case_decide; [done|]. intros [= <-].
  unfold packet_bytes, header_bytes.
  cbn [pkt_header pkt_tag pkt_payload magic sender_pub nonce].
  replace (drop 78 b) with (drop 16 (drop 62 b)) by by rewrite drop_drop.
  replace (drop 62 b) with (drop 24 (drop 38 b)) by by rewrite drop_drop.
  replace (drop 38 b) with (drop 32 (drop 6 b)) by by rewrite drop_drop.
  rewrite <- !app_assoc. by rewrite !take_drop.
Qed.

Lemma init_from_bytes_payload {M} `{Message M} b (init : M -> M) p :
  init_from_bytes b init = Ok p ->
  exists m0, msg_ref_from_bytes (drop 80 b) = Ok m0 /\
    pkt_payload p = mt_byte msg_TYPE :: 0 :: msg_bytes (init m0).
Proof.
  unfold init_from_bytes. intros E. inv_bind E. eexists. split; [|done].
  match goal with H : packet_try_ref_from_bytes _ = Ok _ |- _ =>
    unfold packet_try_ref_from_bytes in H; case_decide; [done|]; simplify_eq end.
  match goal with H : plaintext_ref_from_bytes _ = Ok _ |- _ =>
    revert H; cbn [pkt_payload]; intros H end.
  destruct (drop 78 b) as [|t [|v r]] eqn:Ed; simplify_eq/=.
  change 80%nat with (78 + 2)%nat. rewrite <- drop_drop, Ed. done.
Qed.

(** A buffer of the right size is always initialised. *)
Lemma init_from_bytes_ok {M} `{Message M} b (init : M -> M) m0 :
  (80 <= length b)%nat -> msg_ref_from_bytes (drop 80 b) = Ok m0 ->
  exists p, init_from_bytes b init = Ok p.
Proof.
  intros Hl Hm. unfold init_from_bytes, packet_try_ref_from_bytes.
  rewrite decide_False by (unfold aead_size_for_payload, HEADER_SIZE; lia).
  unfold mbind, result_bind. cbn [pkt_payload].
  pose proof (length_drop b 78) as Hd. change 80%nat with (78 + 2)%nat in Hm. rewrite <- drop_drop in Hm.
  destruct (drop 78 b) as [|t [|v r]]; [simpl in Hd; lia|simpl in Hd; lia|].
  cbn [plaintext_ref_from_bytes pt_message]. change (drop 2 (t :: v :: r)) with r in Hm. rewrite Hm.
  eexists. reflexivity.
Qed.

(** ** Who speaks disco *)

Lemma is_disco_message_spec b :
  is_disco_message b = true <-> (HEADER_SIZE <= length b)%nat /\ take 6 b = MAGIC.
Proof.
  unfold is_disco_message, header_from_bytes, header_try_ref_from_prefix.
  destruct (decide (length b < HEADER_SIZE)%nat); [split; [done|lia]|].
  unfold mbind, result_bind, header_validate, header_is_valid. cbn [fst magic].
  destruct (bool_decide_reflect (take 6 b = MAGIC)) as [Hm|Hm]; cbn [negb is_ok].
  - split; [|done]. intros _. split; [lia|done].
  - split; [done|]. by intros [_ ?].
Qed.

(** * Properties *)

(** The address an endpoint stands for after one trip over the wire: V4 stays
    itself, a V4-mapped V6 address becomes V4, and flow info and scope are
    dropped. *)
Definition canonical_sa (sa : SocketAddr) : SocketAddr :=
  match sa with
  | SAV4 ip p => SAV4 ip p
  | SAV6 ip p _ _ => sa_new (match to_ipv4_mapped ip with Some a => IpV4 a | None => IpV6 ip end) p
  end.

Lemma from_socket_addr_wf sa : sa_wf sa -> endpoint_wf (from_socket_addr sa).
Proof.
  intros Hs. split; [done|]. split; [apply ipv6_segments_wf|].
  destruct sa; cbn; apply Hs.
Qed.

Lemma addr_v6_from_socket_addr sa :
  sa_wf sa ->
  addr_v6 (from_socket_addr sa) =
  match sa_ip sa with IpV4 a => to_ipv6_mapped a | IpV6 a => a end.
Proof.
  intros Hs. unfold addr_v6, from_socket_addr, from_v6_segments. cbn [ep_addr].
  apply ipv6_new_segments. destruct sa as [ip p|ip p f s], Hs; cbn; auto with bytes.
Qed.

(** The eight segments in network order are the sixteen address bytes. *)
Lemma segments_bytes ip : concat (map (be_bytes 2) (ipv6_segments ip)) = be_bytes 16 ip.
Proof.
  unfold ipv6_segments. cbn [map concat].
  rewrite !(be_bytes_congr 2 (_ mod 2 ^ 16) _) by (apply Z.mod_mod; done).
  unfold be_bytes. cbn [app Z.of_nat].
  rewrite !Z.div_div by lia.
  by repeat (apply (f_equal2 cons); [apply (f_equal (fun q => ip / q mod 256)); vm_compute; reflexivity|]).
Qed.

(** Encoding a socket address as a disco endpoint, putting it on the wire
    and reading it back yields the canonical form of the same address; for an
    IPv4 address, the address itself. *)
Theorem endpoint_wire_roundtrip sa :
  sa_wf sa ->
  socket_addr (endpoint_view (endpoint_bytes (from_socket_addr sa))) = canonical_sa sa.
Proof.
  intros Hs. rewrite endpoint_view_bytes by by apply from_socket_addr_wf.
  unfold socket_addr, ep_addr_ip. rewrite addr_v6_from_socket_addr by done.
  destruct sa as [ip p|ip p f s]; cbn; [|done].
  rewrite to_ipv4_mapped_mapped by apply Hs. done.
Qed.

Lemma endpoint_wire_roundtrip_witness :
  socket_addr (endpoint_view (endpoint_bytes (from_socket_addr (SAV4 0x7f000001 41641))))
  = SAV4 0x7f000001 41641.
Proof.
  apply (endpoint_wire_roundtrip (SAV4 0x7f000001 41641)).
  unfold sa_wf, ipv4, u32, u16. lia.
Defined.

(** On the wire an IPv4 endpoint is the v4-mapped IPv6 address in network
    order followed by the port: ten zero bytes, [ff ff], the dotted quad, the
    port big-endian. *)
Theorem endpoint_ipv4_wire_order a b c d port :
  u8 a -> u8 b -> u8 c -> u8 d ->
  endpoint_bytes (from_socket_addr (SAV4 (ipv4_new a b c d) port)) =
  replicate 10 0 ++ [0xff; 0xff; a; b; c; d] ++ be_bytes 2 port.
Proof.
  intros Ha Hb Hc Hd. unfold endpoint_bytes, from_socket_addr, from_v6_segments.
  cbn [ep_addr ep_port_ sa_ip sa_port]. rewrite segments_bytes, app_assoc. f_equal.
  assert (to_ipv6_mapped (ipv4_new a b c d) =
          from_be (replicate 10 0 ++ [0xff; 0xff; a; b; c; d])) as ->.
  { unfold to_ipv6_mapped, ipv4_new.
    change [0xff; 0xff; a; b; c; d] with ([0xff; 0xff] ++ [a; b; c; d]).
    rewrite app_assoc, from_be_app. done. }
  apply (be_bytes_from_be (replicate 10 0 ++ [0xff; 0xff; a; b; c; d])).
  change (replicate 10 0) with [0; 0; 0; 0; 0; 0; 0; 0; 0; 0].
  cbn [app]. wf_list; done || (unfold u8; lia).
Qed.

Lemma endpoint_ipv4_wire_order_witness :
  endpoint_bytes (from_socket_addr (SAV4 (ipv4_new 192 0 2 33) 53492)) =
  replicate 10 0 ++ [0xff; 0xff; 192; 0; 2; 33] ++ be_bytes 2 53492.
Proof. apply (endpoint_ipv4_wire_order 192 0 2 33 53492); unfold u8; lia. Defined.

Section CryptProperties.
Context `{CryptoBoxLaws}.

Lemma encrypt_in_place_inv p secret receiver n q :
  length n = NONCE_LEN -> encrypt_in_place p secret receiver n = Ok q ->
  exists ct tag, box_seal receiver secret n (pkt_payload p) = Some (ct, tag) /\
    q = mkPacket (Header_new (box_public_key secret) n) tag ct /\
    header_wf (pkt_header q) /\ length (pkt_tag q) = 16%nat.
Proof.
  intros Hn. unfold encrypt_in_place. case_match eqn:E; [|done]. destruct p0 as [ct tag].
  destruct (box_seal_sizes _ _ _ _ _ _ E) as [Hct Htag].
  assert (header_wf (Header_new (box_public_key secret) n)).
  { apply Header_new_wf; [apply box_public_key_len|done]. }
  rewrite packet_view_bytes by done. intros [= <-]. by exists ct, tag.
Qed.

(** The packet a receiver gets out of an encrypted datagram: same header, the
    plaintext that was sealed. *)
Lemma decrypt_encrypted p a b n q :
  length n = NONCE_LEN ->
  packet_validate (mkPacket (pkt_header p) [] (pkt_payload p)) = Ok tt ->
  encrypt_in_place p a (box_public_key b) n = Ok q ->
  exists e r, from_encrypted_bytes (packet_bytes q) = Ok e /\ decrypt_in_place e b = Ok r /\
    sender_pub (pkt_header r) = box_public_key a /\ nonce (pkt_header r) = n /\
    pkt_header e = pkt_header r /\ pkt_payload r = pkt_payload p.
Proof.
  intros Hn Hv He. apply encrypt_in_place_inv in He as (ct & tag & Hseal & -> & Hh & Ht); [|done].
  set (h := Header_new (box_public_key a) n) in *.
  exists (mkPacket h tag ct), (mkPacket h tag (pkt_payload p)). split_and!.
  - unfold from_encrypted_bytes. rewrite packet_view_bytes by done. cbn.
    unfold header_validate, header_is_valid. cbn. by rewrite bool_decide_eq_true_2.
  - unfold decrypt_in_place. cbn [pkt_header pkt_payload pkt_tag h Header_new sender_pub nonce].
    erewrite box_open_seal by done. rewrite packet_view_bytes by done.
    unfold packet_validate in *. cbn in *. by rewrite Hv.
  - done.
  - done.
  - done.
  - done.
Qed.

(** An encrypted packet is recognised as disco and carries its sender's key at
    bytes 6 to 38. *)
Lemma encrypted_layout p a pk n q :
  length n = NONCE_LEN -> encrypt_in_place p a pk n = Ok q ->
  exists rest, packet_bytes q = MAGIC ++ box_public_key a ++ n ++ rest.
Proof.
  intros Hn He. apply encrypt_in_place_inv in He as (ct & tag & _ & -> & _); [|done].
  exists (tag ++ ct). unfold packet_bytes, header_bytes. cbn. by rewrite <- !app_assoc.
Qed.

(** What the receiver of an encrypted message reads. *)
Lemma message_received {M} `{MessageLaws M} (buf a b n : list Z) (init : M -> M) m0 p q :
  length n = NONCE_LEN ->
  msg_ref_from_bytes (drop 80 buf) = Ok m0 ->
  msg_wf (init m0) ->
  init_from_bytes buf init = Ok p ->
  encrypt_in_place p a (box_public_key b) n = Ok q ->
  exists e r, from_encrypted_bytes (packet_bytes q) = Ok e /\ decrypt_in_place e b = Ok r /\
    sender_pub (pkt_header r) = box_public_key a /\ nonce (pkt_header r) = n /\
    pkt_header e = pkt_header r /\ packet_ty r = Some msg_TYPE /\ as_msg r = Some (init m0).
Proof.
  intros Hn Hm0 Hwf Hi He.
  apply init_from_bytes_payload in Hi as (m0' & Hm0' & Hp).
  rewrite Hm0 in Hm0'. injection Hm0' as <-.
  destruct (decrypt_encrypted p a b n q) as (e & r & H1' & H2' & H3' & H4' & H5' & Hpl); [done| |done|].
  { unfold packet_validate. cbn. by rewrite Hp. }
  exists e, r. split_and!; try done.
  - unfold packet_ty, packet_plaintext. rewrite Hpl, Hp. cbn.
    unfold plaintext_ty. cbn. by rewrite mt_try_from_byte.
  - unfold as_msg, packet_plaintext. rewrite Hpl, Hp. cbn.
    unfold plaintext_ty. cbn. rewrite mt_try_from_byte, bool_decide_eq_true_2 by done.
    by rewrite msg_view_bytes.
Qed.

(** C35: every disco message (Ping, Pong, CallMeMaybe, and any other body whose
    cast is lawful) survives the whole path the code takes: built in a buffer
    with [init_from_bytes], encrypted for the receiver, parsed again from the
    raw bytes with the magic check, decrypted with the receiver's key, and
    viewed with [as_msg].  Header fields identify the sender. *)
Theorem disco_message_roundtrip {M} `{MessageLaws M} (buf a b n : list Z) (init : M -> M) m0 p q :
  length n = NONCE_LEN ->
  msg_ref_from_bytes (drop 80 buf) = Ok m0 ->
  msg_wf (init m0) ->
  init_from_bytes buf init = Ok p ->
  encrypt_in_place p a (box_public_key b) n = Ok q ->
  exists e r, from_encrypted_bytes (packet_bytes q) = Ok e /\ decrypt_in_place e b = Ok r /\
    sender_pub (pkt_header r) = box_public_key a /\ nonce (pkt_header r) = n /\
    packet_ty r = Some msg_TYPE /\ as_msg r = Some (init m0).
Proof.
  intros Hn Hm Hwf Hi He. destruct (message_received buf a b n init m0 p q) as (e & r & Hr); [done..|].
  exists e, r. tauto.
Qed.

End CryptProperties.

(** [as_msg] is exactly the inverse of the encoder: on a byte payload it
    returns [m] if and only if the payload is the type byte of [m]'s kind, a
    version byte and the wire image of the well-formed [m]; every other payload
    (wrong type byte, truncated, wrong length) gives [None]. *)
Theorem as_msg_spec {M} `{MessageLaws M} p (m : M) :
  bytes_wf (pkt_payload p) ->
  as_msg p = Some m <->
  msg_wf m /\ exists v, pkt_payload p = mt_byte msg_TYPE :: v :: msg_bytes m.
Proof.
  intros Hb. unfold as_msg, packet_plaintext.
  destruct (pkt_payload p) as [|t [|v body]] eqn:Ep; cbn.
  1,2: by split; [|intros (_ & v & ?)].
  assert (bytes_wf body) by (by inversion Hb as [|?? _ Hb']; inversion Hb').
  unfold plaintext_ty. cbn. split.
  - case_bool_decide as Ht; [|done]. destruct (msg_ref_from_bytes body) as [m'|] eqn:Em; [|done].
    intros [= ->]. split; [by eapply msg_view_wf|]. exists v.
    destruct (mt_try_from t) as [ty|] eqn:Et; [|done]. injection Ht as ->.
    apply mt_try_from_inv in Et. rewrite Et. by erewrite msg_bytes_view.
  - intros (Hwf & v' & [= -> -> ->]). rewrite mt_try_from_byte, bool_decide_eq_true_2 by done.
    by rewrite msg_view_bytes.
Qed.

(** A box that leaves the message in the clear: the interface can be met. *)
#[local] Instance clear_box : CryptoBox := {|
  box_public_key _ := replicate 32 7;
  box_seal _ _ _ m := Some (m, replicate 16 0);
  box_open _ _ _ ct _ := Some ct
|}.

#[local] Instance clear_box_laws : CryptoBoxLaws.
Proof.
  split; [done|intros; wf_list; unfold u8; lia|intros; by simplify_eq/=|intros; by simplify_eq/=].
Qed.

Definition witness_ping (p : Ping) : Ping :=
  mkPing (replicate 12 1) (replicate 32 2) (ping_padding p).

Lemma disco_message_roundtrip_witness :
  exists p q e r,
    init_from_bytes (replicate (size_for_message (ping_size_with_padding 0)) 0) witness_ping = Ok p /\
    encrypt_in_place p [1] (box_public_key [2]) (replicate 24 9) = Ok q /\
    from_encrypted_bytes (packet_bytes q) = Ok e /\ decrypt_in_place e [2] = Ok r /\
    as_msg r = Some (mkPing (replicate 12 1) (replicate 32 2) []).
Proof.
  destruct (init_from_bytes (replicate (size_for_message (ping_size_with_padding 0)) 0) witness_ping)
    as [p|] eqn:Hp; [|vm_compute in Hp; discriminate].
  destruct (encrypt_in_place p [1] (box_public_key [2]) (replicate 24 9)) as [q|] eqn:Hq;
    [|vm_compute in Hp; injection Hp as <-; vm_compute in Hq; discriminate].
  exists p, q.
  destruct (disco_message_roundtrip
    (replicate (size_for_message (ping_size_with_padding 0)) 0) [1] [2] (replicate 24 9)
    witness_ping (mkPing (replicate 12 0) (replicate 32 0) []) p q) as (e & r & He & Hr & _ & _ & _ & Hm);
    [reflexivity|reflexivity| |done|done|].
  { cbn. split_and!; [done|done|..]; wf_list; unfold u8; lia. }
  exists e, r. split_and!; [done|done|done|done|apply Hm].
Defined.

Lemma as_msg_spec_witness :
  as_msg (mkPacket (Header_new [] []) [] (2 :: 0 :: replicate 12 5 ++ replicate 10 0 ++
            [0xff; 0xff; 10; 0; 0; 1] ++ [0; 80]))
  = Some (mkPong (replicate 12 5) (from_socket_addr (SAV4 (ipv4_new 10 0 0 1) 80))).
Proof.
  apply (as_msg_spec
    (mkPacket (Header_new [] []) [] (2 :: 0 :: replicate 12 5 ++ replicate 10 0 ++
       [0xff; 0xff; 10; 0; 0; 1] ++ [0; 80]))
    (mkPong (replicate 12 5) (from_socket_addr (SAV4 (ipv4_new 10 0 0 1) 80)))).
  - cbn. wf_list; unfold u8; lia.
  - split; [|exists 0; reflexivity].
    cbn. split_and!; [done|wf_list; unfold u8; lia|].
    apply from_socket_addr_wf. vm_compute. split; split; congruence.
Defined.
