(* ===== verification/Stun.v ===== *)
(** The STUN binding client of ts-magicsock ([stun.rs]): the binding request,
    the recogniser of the receive path, and the response parser with its walk
    over the attribute list.  The parser reads an untrusted datagram with
    indexing, so it is translated in the [outcome] monad where an out-of-range
    access is a panic; the walk carries the buffer length as fuel. *)

From S2P Require Import Prelude NetTypes Disco.
#[local] Open Scope Z_scope.

Definition MAGIC_COOKIE : Z := 0x2112A442.
Definition HEADER_LEN : nat := 20.
Definition TX_ID_LEN : nat := 12.
Definition TYPE_BINDING_REQUEST : Z := 0x0001.
Definition TYPE_BINDING_SUCCESS : Z := 0x0101.
Definition ATTR_XOR_MAPPED_ADDRESS : Z := 0x0020.
Definition FAMILY_IPV4 : Z := 0x01.
Definition FAMILY_IPV6 : Z := 0x02.

Definition encode_binding_request (tx_id : list Z) : list Z :=
  be_bytes 2 TYPE_BINDING_REQUEST ++ be_bytes 2 0 ++ be_bytes 4 MAGIC_COOKIE ++ tx_id.

Definition be_at (bytes : list Z) (i n : nat) : outcome Z :=
  from_be <$> slice bytes i (i + n).

Definition looks_like_stun (bytes : list Z) : outcome bool :=
  if decide (length bytes < HEADER_LEN)%nat then Val false
  else cookie ← be_at bytes 4 4; Val (cookie =? MAGIC_COOKIE).

Definition tx_id_from (bytes : list Z) : outcome (option (list Z)) :=
  if decide (length bytes < HEADER_LEN)%nat then Val None
  else tx ← slice bytes 8 20; Val (Some tx).

(** The [for k in 0..n] loop: [addr_bytes[k] = body[4 + k] ^ tx_id_full[k]]. *)
Fixpoint xor_from (n k : nat) (body tx_id_full : list Z) : outcome (list Z) :=
  match n with
  | O => Val []
  | S m =>
      b ← index body (4 + k);
      t ← index tx_id_full k;
      rest ← xor_from m (S k) body tx_id_full;
      Val (Z.lxor b t :: rest)
  end.

Definition parse_xor_mapped_address (body tx_id_full : list Z) : outcome (option SocketAddr) :=
  if decide (length body < 4)%nat then Val None else
  family ← index body 1;
  x_port ← be_at body 2 2;
  let port := Z.lxor x_port (Z.shiftr MAGIC_COOKIE 16) in
  if family =? FAMILY_IPV4 then
    if decide (length body < 8)%nat then Val None else
    addr_bytes ← xor_from 4 0 body tx_id_full;
    Val (Some (sa_new (IpV4 (from_be addr_bytes)) port))
  else if family =? FAMILY_IPV6 then
    if decide (length body < 20)%nat then Val None else
    addr_bytes ← xor_from 16 0 body tx_id_full;
    Val (Some (sa_new (IpV6 (from_be addr_bytes)) port))
  else Val None.

(** [(attr_len + 3) & !3] *)
Definition padded_len (attr_len : nat) : nat :=
  Z.to_nat (Z.land (Z.of_nat attr_len + 3) (Z.lnot 3)).

(** The [while i + 4 <= end] walk. *)
Fixpoint walk_attrs (fuel : nat) (bytes tx_id_full : list Z) (i end_ : nat) :
    outcome (option SocketAddr) :=
  match fuel with
  | O => OutOfFuel
  | S fuel =>
      if decide (i + 4 <= end_)%nat then
        attr_type ← be_at bytes i 2;
        attr_len_z ← be_at bytes (i + 2) 2;
        let attr_len := Z.to_nat attr_len_z in
        let val_start := (i + 4)%nat in
        let val_end := (val_start + attr_len)%nat in
        if decide (end_ < val_end)%nat then Val None
        else if attr_type =? ATTR_XOR_MAPPED_ADDRESS then
          body ← slice bytes val_start val_end;
          parse_xor_mapped_address body tx_id_full
        else walk_attrs fuel bytes tx_id_full (val_start + padded_len attr_len) end_
      else Val None
  end.

Definition parse_binding_response (bytes : list Z) : outcome (option SocketAddr) :=
  if decide (length bytes < HEADER_LEN)%nat then Val None else
  msg_type ← be_at bytes 0 2;
  if negb (msg_type =? TYPE_BINDING_SUCCESS) then Val None else
  body_len_z ← be_at bytes 2 2;
  let body_len := Z.to_nat body_len_z in
  if decide (length bytes < HEADER_LEN + body_len)%nat then Val None else
  cookie ← be_at bytes 4 4;
  if negb (cookie =? MAGIC_COOKIE) then Val None else
  tx ← slice bytes 8 20;
  let tx_id_full := be_bytes 4 MAGIC_COOKIE ++ tx in
  walk_attrs (S (length bytes)) bytes tx_id_full HEADER_LEN (HEADER_LEN + body_len).

(** ** Reference encoder: the responses a STUN server sends (RFC 5389) *)

Definition encode_attr (t : Z) (v : list Z) : list Z :=
  be_bytes 2 t ++ be_bytes 2 (Z.of_nat (length v)) ++ v ++ replicate (padded_len (length v) - length v) 0.

Definition xor_bytes (l m : list Z) : list Z := zip_with Z.lxor l m.

Definition xor_mapped_value (tx : list Z) (sa : SocketAddr) : list Z :=
  let key := be_bytes 4 MAGIC_COOKIE ++ tx in
  let xport := be_bytes 2 (Z.lxor (sa_port sa) 0x2112) in
  match sa_ip sa with
  | IpV4 ip => [0; FAMILY_IPV4] ++ xport ++ xor_bytes (be_bytes 4 ip) key
  | IpV6 ip => [0; FAMILY_IPV6] ++ xport ++ xor_bytes (be_bytes 16 ip) key
  end.

(** A success response whose attributes are [before], then the mapped
    address, then [after]. *)
Definition binding_response (tx : list Z) (before : list (Z * list Z)) (sa : SocketAddr)
    (after : list Z) : list Z :=
  let body := concat (map (fun '(t, v) => encode_attr t v) before)
              ++ encode_attr ATTR_XOR_MAPPED_ADDRESS (xor_mapped_value tx sa) ++ after in
  be_bytes 2 TYPE_BINDING_SUCCESS ++ be_bytes 2 (Z.of_nat (length body))
  ++ be_bytes 4 MAGIC_COOKIE ++ tx ++ body.

(** * Lemmas *)

Lemma padded_len_spec n : (n <= padded_len n < n + 4)%nat /\ (padded_len n mod 4 = 0)%nat.
Proof.
  unfold padded_len. change (Z.lnot 3) with (Z.lnot (Z.ones 2)).
  rewrite <- Z.ldiff_land, Z.ldiff_ones_r by lia.
  rewrite Z.shiftl_mul_pow2, Z.shiftr_div_pow2 by lia. change (2 ^ 2) with 4.
  pose proof (Z.div_mod (Z.of_nat n + 3) 4 ltac:(lia)).
  pose proof (Z.mod_pos_bound (Z.of_nat n + 3) 4 ltac:(lia)).
  split; [lia|]. apply Nat2Z.inj. rewrite Nat2Z.inj_mod. change (Z.of_nat 4) with 4.
  rewrite Z2Nat.id by lia. by rewrite Z.mod_mul by lia.
Qed.

Lemma be_at_val bytes i n :
  (i + n <= length bytes)%nat -> be_at bytes i n = Val (from_be (take n (drop i bytes))).
Proof.
  intros H. unfold be_at. rewrite slice_val by lia. simpl.
  by replace (i + n - i)%nat with n by lia.
Qed.

Lemma xor_from_val n : forall k body key,
  (4 + k + n <= length body)%nat -> (k + n <= length key)%nat ->
  xor_from n k body key = Val (zip_with Z.lxor (take n (drop (4 + k) body)) (take n (drop k key))).
Proof.
  induction n as [|n IH]; intros k body key Hb Hk; [done|].
  destruct (lookup_lt_is_Some_2 body (4 + k)) as [b Eb]; [lia|].
  destruct (lookup_lt_is_Some_2 key k) as [t Et]; [lia|].
  unfold xor_from; fold xor_from. rewrite (index_val _ _ _ Eb), (index_val _ _ _ Et).
  unfold mbind, outcome_bind. rewrite IH by lia.
  rewrite (drop_S _ _ _ Eb), (drop_S _ _ _ Et). done.
Qed.

#[local] Arguments xor_from : simpl never.

Lemma parse_xor_total body key :
  length key = 16%nat -> exists r, parse_xor_mapped_address body key = Val r.
Proof.
  intros Hk. unfold parse_xor_mapped_address. case_decide; [eauto|].
  destruct (index_lt body 1) as [fam ->]; [lia|]. simpl.
  rewrite be_at_val by lia. simpl.
  destruct (fam =? _); [|destruct (fam =? _); [|eauto]]; (case_decide; [eauto|]);
    rewrite xor_from_val by lia; eauto.
Qed.

Lemma walk_attrs_total fuel : forall bytes key i end_,
  length key = 16%nat -> (end_ <= length bytes)%nat -> (end_ - i < fuel)%nat ->
  exists r, walk_attrs fuel bytes key i end_ = Val r.
Proof.
  induction fuel as [|fuel IH]; intros bytes key i end_ Hk Hend Hfuel; [lia|].
  simpl. case_decide; [|eauto]. rewrite !be_at_val by lia. simpl.
  case_decide; [eauto|]. case_match.
  - rewrite slice_val by lia. simpl. by apply parse_xor_total.
  - apply IH; lia.
Qed.

Lemma from_be_two a b : u16 a -> from_be (take 2 (be_bytes 2 a ++ b)) = a.
Proof.
  intros H. rewrite take_app_len by done. by apply from_be_be_bytes_small.
Qed.

Lemma drop_app_at {A} (a b : list A) n m : length a = n -> drop (n + m) (a ++ b) = drop m b.
Proof. intros <-. by rewrite <- drop_drop, drop_app_length. Qed.

Lemma length_encode_attr t v :
  length (encode_attr t v) = (4 + padded_len (length v))%nat.
Proof.
  unfold encode_attr. simpl_len. pose proof (padded_len_spec (length v)). lia.
Qed.

(** The head of the walk: one attribute has been read. *)
Lemma walk_attrs_head fuel bytes key i t v rest :
  u16 t -> Z.of_nat (length v) < 2 ^ 16 -> drop i bytes = encode_attr t v ++ rest ->
  walk_attrs (S fuel) bytes key i (length bytes) =
  if t =? ATTR_XOR_MAPPED_ADDRESS then parse_xor_mapped_address v key
  else walk_attrs fuel bytes key (i + length (encode_attr t v)) (length bytes).
Proof.
  intros Ht Hv Hd. pose proof (padded_len_spec (length v)) as [Hp _].
  pose proof (f_equal length Hd) as Hlen.
  rewrite length_drop, length_app, length_encode_attr in Hlen.
  assert (Hd4 : drop (i + 4) bytes
                = v ++ replicate (padded_len (length v) - length v) 0 ++ rest).
  { rewrite <- drop_drop, Hd. unfold encode_attr. by rewrite <- !app_assoc. }
  assert (Et : from_be (take 2 (drop i bytes)) = t).
  { rewrite Hd. unfold encode_attr. rewrite <- !app_assoc. by apply from_be_two. }
  assert (El : from_be (take 2 (drop (i + 2) bytes)) = Z.of_nat (length v)).
  { rewrite <- drop_drop, Hd. unfold encode_attr. rewrite <- !app_assoc.
    rewrite (drop_app_len (be_bytes 2 t)) by done. apply from_be_two. split; lia. }
  cbn [walk_attrs]. rewrite decide_True by lia. rewrite !be_at_val by lia.
  unfold mbind, outcome_bind. rewrite Et, El, Nat2Z.id. rewrite decide_False by lia.
  rewrite length_encode_attr. case_match.
  - rewrite slice_val by lia. rewrite Hd4, take_app_len by lia. done.
  - f_equal. lia.
Qed.

Lemma length_xor_bytes l m : (length l <= length m)%nat -> length (xor_bytes l m) = length l.
Proof. intros. unfold xor_bytes. rewrite length_zip_with. lia. Qed.

Lemma xor_bytes_twice l m :
  (length l <= length m)%nat -> xor_bytes (xor_bytes l m) (take (length l) m) = l.
Proof.
  revert m. induction l as [|b l IH]; intros [|k m] Hle; simpl in *; try done; try lia.
  rewrite Z.lxor_assoc, Z.lxor_nilpotent, Z.lxor_0_r.
  f_equal. apply IH. lia.
Qed.

Lemma u16_lxor a b : u16 a -> u16 b -> u16 (Z.lxor a b).
Proof.
  unfold u16. intros Ha Hb.
  assert (0 <= Z.lxor a b) by (apply Z.lxor_nonneg; lia).
  split; [done|]. destruct (decide (Z.lxor a b = 0)) as [->|]; [lia|].
  apply Z.log2_lt_pow2; [lia|].
  eapply Z.le_lt_trans; [apply Z.log2_lxor; lia|].
  apply Z.max_lub_lt; (destruct (decide (a = 0)) as [->|]); (destruct (decide (b = 0)) as [->|]);
    simpl; try lia; apply Z.log2_lt_pow2; lia.
Qed.

(** What the parser reads from an attribute value of either family. *)
Lemma xor_value_reads tx fam xport n ip (key := be_bytes 4 MAGIC_COOKIE ++ tx)
    (body := [0; fam] ++ be_bytes 2 xport ++ xor_bytes (be_bytes n ip) key) :
  length tx = 12%nat -> (n <= 16)%nat ->
  length body = (4 + n)%nat /\ index body 1 = Val fam /\
  be_at body 2 2 = Val (from_be (be_bytes 2 xport)) /\
  xor_from n 0 body key = Val (be_bytes n ip).
Proof.
  intros Htx Hn.
  assert (Hlk : length key = 16%nat) by (subst key; simpl_len; lia).
  assert (Hlb : length body = (4 + n)%nat).
  { subst body. simpl_len. rewrite length_xor_bytes; simpl_len; lia. }
  split_and!; [done|done| |].
  - rewrite be_at_val by lia. done.
  - rewrite xor_from_val by lia. f_equal.
    rewrite drop_0. change (drop (4 + 0) body) with (xor_bytes (be_bytes n ip) key).
    rewrite (take_ge (xor_bytes _ _)) by (rewrite length_xor_bytes; simpl_len; lia).
    replace n with (length (be_bytes n ip)) at 2 by apply length_be_bytes.
    apply xor_bytes_twice. simpl_len. lia.
Qed.

Lemma parse_xor_value tx sa :
  length tx = 12%nat -> sa_wf sa ->
  parse_xor_mapped_address (xor_mapped_value tx sa) (be_bytes 4 MAGIC_COOKIE ++ tx)
  = Val (Some (sa_new (sa_ip sa) (sa_port sa))).
Proof.
  intros Htx Hwf.
  assert (Hp : u16 (sa_port sa)) by (destruct sa; simpl in *; tauto).
  assert (Hx : Z.lxor (from_be (be_bytes 2 (Z.lxor (sa_port sa) 0x2112)))
                      (Z.shiftr MAGIC_COOKIE 16) = sa_port sa).
  { rewrite from_be_be_bytes_small by (apply u16_lxor; [done | by split]).
    change (Z.shiftr MAGIC_COOKIE 16) with 0x2112.
    by rewrite Z.lxor_assoc, Z.lxor_nilpotent, Z.lxor_0_r. }
  unfold parse_xor_mapped_address, xor_mapped_value.
  destruct sa as [ip p|ip p f s]; cbn [sa_ip]; cbv zeta.
  - destruct (xor_value_reads tx FAMILY_IPV4 (Z.lxor (sa_port (SAV4 ip p)) 0x2112) 4 ip)
      as (Hl & -> & -> & ->); [done|lia|].
    rewrite !decide_False by lia. unfold mbind, outcome_bind. rewrite Hx.
    change (FAMILY_IPV4 =? FAMILY_IPV4) with true. cbv iota.
    rewrite from_be_be_bytes_small by apply Hwf. done.
  - destruct (xor_value_reads tx FAMILY_IPV6 (Z.lxor (sa_port (SAV6 ip p f s)) 0x2112) 16 ip)
      as (Hl & -> & -> & ->); [done|lia|].
    rewrite !decide_False by lia. unfold mbind, outcome_bind. rewrite Hx.
    change (FAMILY_IPV6 =? FAMILY_IPV4) with false.
    change (FAMILY_IPV6 =? FAMILY_IPV6) with true. cbv iota. rewrite decide_False by lia.
    rewrite from_be_be_bytes_small by apply Hwf. done.
Qed.

Lemma length_xor_mapped_value tx sa :
  length tx = 12%nat -> (length (xor_mapped_value tx sa) <= 20)%nat.
Proof.
  intros Htx. unfold xor_mapped_value. destruct sa; cbn [sa_ip];
    rewrite !length_app, length_xor_bytes; simpl_len; lia.
Qed.

(** The attribute the server may put before the mapped address. *)
Definition other_attr (a : Z * list Z) : Prop :=
  u16 a.1 /\ a.1 <> ATTR_XOR_MAPPED_ADDRESS /\ Z.of_nat (length a.2) < 2 ^ 16.

Lemma walk_attrs_skip key sa bytes after tx before : forall fuel i,
  Forall other_attr before -> key = be_bytes 4 MAGIC_COOKIE ++ tx -> length tx = 12%nat -> sa_wf sa ->
  drop i bytes = concat (map (fun '(t, v) => encode_attr t v) before)
                 ++ encode_attr ATTR_XOR_MAPPED_ADDRESS (xor_mapped_value tx sa) ++ after ->
  (length before < fuel)%nat ->
  walk_attrs fuel bytes key i (length bytes) = Val (Some (sa_new (sa_ip sa) (sa_port sa))).
Proof.
  induction before as [|[t v] before IH]; intros [|fuel] i Hb Hkey Htx Hwf Hd Hf; simpl in Hf; try lia.
  - cbn [map concat app] in Hd. erewrite walk_attrs_head; [| | |exact Hd]; [|by split|].
    + change (ATTR_XOR_MAPPED_ADDRESS =? ATTR_XOR_MAPPED_ADDRESS) with true. cbv iota.
      subst key. by apply parse_xor_value.
    + pose proof (length_xor_mapped_value tx sa Htx). lia.
  - apply Forall_cons_1 in Hb as [(Ht & Hne & Hv) Hb]. cbn [fst snd] in *.
    cbn [map concat] in Hd. rewrite <- app_assoc in Hd.
    erewrite walk_attrs_head; [|exact Ht|exact Hv|exact Hd].
    rewrite (proj2 (Z.eqb_neq _ _) Hne).
    apply IH; [done..| |lia]. rewrite <- drop_drop, Hd. by rewrite drop_app_length.
Qed.

Lemma length_encoded_attrs before :
  (length before <= length (concat (map (fun '(t, v) => encode_attr t v) before)))%nat.
Proof.
  induction before as [|[t v] before IH]; [done|]. cbn [map concat].
  rewrite length_cons, length_app, length_encode_attr. lia.
Qed.

(** ** The recogniser *)

Lemma looks_like_stun_spec bytes :
  exists b, looks_like_stun bytes = Val b /\
  (b = true <-> (20 <= length bytes)%nat /\ from_be (take 4 (drop 4 bytes)) = MAGIC_COOKIE).
Proof.
  unfold looks_like_stun, HEADER_LEN. case_decide.
  - exists false. split; [done|]. split; [done|lia].
  - rewrite be_at_val by lia. unfold mbind, outcome_bind. eexists. split; [done|].
    rewrite Z.eqb_eq. split; [intros; split; [lia|done]|tauto].
Qed.

(** The cookie and the disco magic disagree at byte 4, so no datagram is both. *)
Lemma stun_not_disco bytes :
  bytes_wf bytes -> looks_like_stun bytes = Val true -> is_disco_message bytes = false.
Proof.
  intros Hwf Hs. destruct (looks_like_stun_spec bytes) as (b & Hb & Hspec).
  rewrite Hs in Hb. injection Hb as <-. destruct (proj1 Hspec eq_refl) as [Hlen Hc].
  apply not_true_iff_false. rewrite is_disco_message_spec. intros [_ Hm].
  assert (Hc4 : take 4 (drop 4 bytes) = be_bytes 4 MAGIC_COOKIE).
  { rewrite <- Hc, <- (be_bytes_from_be (take 4 (drop 4 bytes))) at 1
      by (by apply bytes_wf_take, bytes_wf_drop).
    by rewrite length_take, length_drop, Nat.min_l by lia. }
  do 6 (destruct bytes as [|? bytes]; [simpl in Hlen; lia|]).
  cbn in Hm, Hc4. vm_compute in Hc4. unfold MAGIC in Hm. congruence.
Qed.

(** A datagram that starts with the disco magic and a key is not STUN. *)
Lemma disco_not_stun pk rest :
  bytes_wf pk -> length pk = 32%nat -> looks_like_stun (MAGIC ++ pk ++ rest) = Val false.
Proof.
  intros Hwf Hl. destruct (looks_like_stun_spec (MAGIC ++ pk ++ rest)) as (b & -> & Hb). f_equal.
  destruct b; [|done]. destruct (proj1 Hb eq_refl) as [_ Hc]. exfalso.
  destruct pk as [|x [|y pk]]; try done.
  apply Forall_cons_1 in Hwf as [Hx [Hy _]%Forall_cons_1]. unfold u8 in *.
  change (from_be [0x92; 0xac; x; y] = MAGIC_COOKIE) in Hc. unfold from_be, MAGIC_COOKIE in Hc.
  simpl in Hc. lia.
Qed.

Lemma binding_request_recognised tx :
  length tx = 12%nat ->
  looks_like_stun (encode_binding_request tx) = Val true /\
  tx_id_from (encode_binding_request tx) = Val (Some tx).
Proof.
  intros Htx. assert (Hl : length (encode_binding_request tx) = 20%nat).
  { unfold encode_binding_request. simpl_len. lia. }
  split.
  - destruct (looks_like_stun_spec (encode_binding_request tx)) as (b & -> & Hb).
    f_equal. apply Hb. split; [lia|done].
  - unfold tx_id_from, HEADER_LEN. rewrite decide_False by lia.
    rewrite slice_val by lia. unfold mbind, outcome_bind. do 2 f_equal.
    change (drop 8 _) with tx. by apply take_ge; lia.
Qed.

Lemma parse_total bytes : exists r, parse_binding_response bytes = Val r.
Proof.
  unfold parse_binding_response, HEADER_LEN.
  destruct (decide (length bytes < 20)%nat); [eauto|].
  rewrite !be_at_val, slice_val by lia. unfold mbind, outcome_bind.
  destruct (negb (_ =? TYPE_BINDING_SUCCESS)); [eauto|]. case_decide; [eauto|].
  destruct (negb (_ =? MAGIC_COOKIE)); [eauto|].
  apply walk_attrs_total; [simpl_len; lia|lia|lia].
Qed.

(** * Properties *)

(** Parsing a STUN response is total: on every datagram, well formed or
    not, the parser neither reads out of range nor loops; it returns an
    address or nothing. *)
Theorem stun_parse_total bytes : exists r, parse_binding_response bytes = Val r.
Proof. apply parse_total. Qed.

(** A response is taken for STUN and shows its transaction id. *)
Lemma response_recognised tx before sa after : length tx = 12%nat ->
  looks_like_stun (binding_response tx before sa after) = Val true /\ tx_id_from (binding_response tx before sa after) = Val (Some tx).
Proof.
  intros Htx. remember (binding_response tx before sa after) as bytes eqn:E. unfold binding_response in E.
  set (body := concat _ ++ _ ++ after) in E. cbv zeta in E.
  assert (Hbl : length bytes = (20 + length body)%nat) by (subst bytes; simpl_len; lia).
  unfold looks_like_stun, tx_id_from. rewrite !decide_False by (unfold HEADER_LEN; lia). rewrite be_at_val, slice_val by lia.
  unfold mbind, outcome_bind. subst bytes. split; [done|]. change (drop 8 _) with (tx ++ body).
  replace (20 - 8)%nat with (length tx) by lia. by rewrite take_app_len.
Qed.

(** a binding success response that carries the mapped address in an
    XOR-MAPPED-ADDRESS attribute, after any number of other attributes of any
    lengths and with anything behind it, parses to exactly that address (both
    families). *)
Theorem stun_response_roundtrip tx before sa after :
  length tx = 12%nat -> sa_wf sa -> Forall other_attr before ->
  Z.of_nat (length (binding_response tx before sa after)) < 2 ^ 16 ->
  parse_binding_response (binding_response tx before sa after)
  = Val (Some (sa_new (sa_ip sa) (sa_port sa))).
Proof.
  intros Htx Hwf Hb Hlen.
  remember (binding_response tx before sa after) as bytes eqn:E. unfold binding_response in E.
  set (body := concat _ ++ _ ++ after) in E. cbv zeta in E.
  assert (Hbl : length bytes = (20 + length body)%nat) by (subst bytes; simpl_len; lia).
  assert (E0 : be_at bytes 0 2 = Val TYPE_BINDING_SUCCESS).
  { rewrite be_at_val by lia. subst bytes. rewrite drop_0, from_be_two; [done | by split]. }
  assert (E2 : be_at bytes 2 2 = Val (Z.of_nat (length body))).
  { rewrite be_at_val by lia. subst bytes. rewrite drop_app_len, from_be_two; [done|split; lia|done]. }
  assert (E4 : be_at bytes 4 4 = Val MAGIC_COOKIE) by (rewrite be_at_val by lia; by subst bytes).
  assert (E8 : slice bytes 8 20 = Val tx).
  { rewrite slice_val by lia. subst bytes. f_equal.
    change (drop 8 _) with (tx ++ body). by apply take_app_len. }
  unfold parse_binding_response. rewrite decide_False by (unfold HEADER_LEN; lia).
  rewrite E0, E2, E4, E8. unfold mbind, outcome_bind.
  change (negb (TYPE_BINDING_SUCCESS =? TYPE_BINDING_SUCCESS)) with false.
  change (negb (MAGIC_COOKIE =? MAGIC_COOKIE)) with false. cbv iota.
  rewrite Nat2Z.id, decide_False by (unfold HEADER_LEN; lia).
  replace (HEADER_LEN + length body)%nat with (length bytes) by done.
  eapply walk_attrs_skip; [exact Hb|done|done|done| |].
  - subst bytes. change (drop HEADER_LEN _) with (drop 12 (tx ++ body)). by apply drop_app_len.
  - pose proof (length_encoded_attrs before). rewrite Hbl. subst body. rewrite length_app. lia.
Qed.

Lemma stun_response_roundtrip_witness :
  let tx := [1; 2; 3; 4; 5; 6; 7; 8; 9; 10; 11; 12] in
  parse_binding_response
    (binding_response tx [(0x8022, [116; 115; 118])] (SAV4 (ipv4_new 203 0 113 7) 41641) [])
  = Val (Some (SAV4 (ipv4_new 203 0 113 7) 41641)).
Proof.
  apply (stun_response_roundtrip _ [(0x8022, [116; 115; 118])] (SAV4 (ipv4_new 203 0 113 7) 41641) []).
  - reflexivity.
  - split; split; vm_compute; congruence.
  - constructor; [|constructor]. split_and!; [split; vm_compute; congruence|vm_compute; congruence|].
    vm_compute. reflexivity.
  - vm_compute. reflexivity.
Defined.

