(* ===== verification/DerpFrame.v ===== *)
(** DERP frame codec and connection loop ([crates/ts-derp]: [magic.rs],
    [frame.rs], [conn.rs]).  Byte sinks are the bytes appended to them; a byte
    source is either a plain buffer ([read_exact]) or the sequence of what
    successive [read] calls return ([read_event]). *)

From S2P Require Import Prelude.
#[local] Open Scope Z_scope.

(** ** magic.rs *)

Definition DERP_MAGIC : list Z := bs "DERP" ++ [0xf0; 0x9f; 0x94; 0x91].
Definition PROTOCOL_VERSION : Z := 2.
Definition MAX_PAYLOAD : nat := Z.to_nat (64 * 1024).
Definition FRAME_HEADER_LEN : nat := 5.
(** Durations are nanoseconds. *)
Definition KEEPALIVE_DEADLINE : Z := 125 * 10 ^ 9.
Definition DEFAULT_MAX_CONNS : nat := 8.

(** ** error.rs, the variants these modules construct *)

Inductive IoKind : Type := UnexpectedEof | OtherIo.

Inductive DerpError : Type :=
| DerpIo (k : IoKind)
| BadMagic (first8 : list Z)
| BadFrameType (byte : Z)
| FrameTooLarge (len cap : nat)
| FrameTooShort (ty : list Z) (len need : nat)
| TlsErr
| HttpParseErr
| UpgradeErr
| NaclBox
| JsonErr
| InternalErr
| UnsupportedServerVersion (server_version expected : Z)
| NoReachableRegion (probed total : nat)
| UnknownRegion (region : Z)
| CapExceededHome (cap : nat) (home : Z)
| ConnDied (region : Z).

(** ** FrameType *)

Inductive FrameType : Type :=
| FServerKey | FClientInfo | FServerInfo | FSendPacket | FRecvPacket | FKeepAlive
| FNotePreferred | FPeerGone | FPeerPresent | FForwardPacket | FWatchConns | FClosePeer
| FPing | FPong | FHealth | FRestarting.

#[global] Instance FrameType_eq_dec : EqDecision FrameType.
Proof. solve_decision. Defined.

Definition ft_byte (t : FrameType) : Z :=
  match t with
  | FServerKey => 0x01 | FClientInfo => 0x02 | FServerInfo => 0x03 | FSendPacket => 0x04
  | FRecvPacket => 0x05 | FKeepAlive => 0x06 | FNotePreferred => 0x07 | FPeerGone => 0x08
  | FPeerPresent => 0x09 | FForwardPacket => 0x0a | FWatchConns => 0x10 | FClosePeer => 0x11
  | FPing => 0x12 | FPong => 0x13 | FHealth => 0x14 | FRestarting => 0x15
  end.

Definition from_byte (b : Z) : result DerpError FrameType :=
  match b with
  | 0x01 => Ok FServerKey | 0x02 => Ok FClientInfo | 0x03 => Ok FServerInfo
  | 0x04 => Ok FSendPacket | 0x05 => Ok FRecvPacket | 0x06 => Ok FKeepAlive
  | 0x07 => Ok FNotePreferred | 0x08 => Ok FPeerGone | 0x09 => Ok FPeerPresent
  | 0x0a => Ok FForwardPacket | 0x10 => Ok FWatchConns | 0x11 => Ok FClosePeer
  | 0x12 => Ok FPing | 0x13 => Ok FPong | 0x14 => Ok FHealth | 0x15 => Ok FRestarting
  | _ => Err (BadFrameType b)
  end.

(** ** Raw codec *)

(** [hdr]: the type byte, then [len as u32] big-endian. *)
Definition frame_header (t : FrameType) (len : nat) : list Z :=
  ft_byte t :: be_bytes 4 (wrap 32 (Z.of_nat len)).

Definition write_frame (out : list Z) (ty : FrameType) (payload : list Z) :
    result DerpError (list Z) :=
  if decide (MAX_PAYLOAD < length payload)%nat
  then Err (FrameTooLarge (length payload) MAX_PAYLOAD)
  else Ok (out ++ frame_header ty (length payload) ++ payload).

(** [Read::read_exact] on a cursor: the bytes and what is left. *)
Definition read_exact (n : nat) (r : list Z) : result DerpError (list Z * list Z) :=
  if decide (n <= length r)%nat then Ok (take n r, drop n r) else Err (DerpIo UnexpectedEof).

Definition read_frame (r : list Z) : result DerpError (FrameType * list Z * list Z) :=
  hr ← read_exact FRAME_HEADER_LEN r;
  match hr.1 with
  | t :: lenb =>
      ty ← from_byte t;
      let len := Z.to_nat (from_be lenb) in
      if decide (MAX_PAYLOAD < len)%nat then Err (FrameTooLarge len MAX_PAYLOAD)
      else pr ← read_exact len hr.2; Ok (ty, pr.1, pr.2)
  | [] => Err (DerpIo UnexpectedEof)
  end.

(** *** FrameReader: the state is the accumulation buffer *)

Definition try_extract (buf : list Z) :
    result DerpError (option (FrameType * list Z)) * list Z :=
  match buf with
  | b0 :: b1 :: b2 :: b3 :: b4 :: rest =>
      match from_byte b0 with
      | Err e => (Err e, buf)
      | Ok ty =>
          let len := Z.to_nat (from_be [b1; b2; b3; b4]) in
          if decide (MAX_PAYLOAD < len)%nat then (Err (FrameTooLarge len MAX_PAYLOAD), buf)
          else if decide (length buf < FRAME_HEADER_LEN + len)%nat then (Ok None, buf)
          else (Ok (Some (ty, take len rest)), drop len rest)
      end
  | _ => (Ok None, buf)
  end.

(** What one call of [r.read(&mut tmp)] gives. *)
Inductive read_event : Type :=
| RData (chunk : list Z)      (** [Ok(n)], the [n] bytes read, at most 8192; [n = 0] is EOF *)
| RTimeout                    (** [WouldBlock] or [TimedOut] *)
| RFail.                      (** any other error *)

Definition READ_CHUNK : nat := Z.to_nat 8192.

(** [poll_frame]: the source is the list of coming read events; a source with no
    event left has nothing to read yet (a timeout). *)
Definition poll_frame (buf : list Z) (src : list read_event) :
    result DerpError (option (FrameType * list Z)) * list Z * list read_event :=
  match try_extract buf with
  | (Err e, buf') => (Err e, buf', src)
  | (Ok (Some f), buf') => (Ok (Some f), buf', src)
  | (Ok None, buf') =>
      match src with
      | [] => (Ok None, buf', [])
      | RTimeout :: src' => (Ok None, buf', src')
      | RFail :: src' => (Err (DerpIo OtherIo), buf', src')
      | RData [] :: src' => (Err (DerpIo UnexpectedEof), buf', src')
      | RData c :: src' =>
          let '(r, b) := try_extract (buf' ++ c) in (r, b, src')
      end
  end.

(** ** Typed helpers *)

Definition write_send_packet (out dst_pubkey wg_bytes : list Z) : result DerpError (list Z) :=
  let total := (32 + length wg_bytes)%nat in
  if decide (MAX_PAYLOAD < total)%nat then Err (FrameTooLarge total MAX_PAYLOAD)
  else Ok (out ++ frame_header FSendPacket total ++ dst_pubkey ++ wg_bytes).

Definition parse_recv_packet (payload : list Z) : result DerpError (list Z * list Z) :=
  if decide (length payload < 32)%nat
  then Err (FrameTooShort (bs "RecvPacket") (length payload) 32)
  else Ok (take 32 payload, drop 32 payload).

Definition write_note_preferred (out : list Z) (is_home : bool) : result DerpError (list Z) :=
  write_frame out FNotePreferred [if is_home then 1 else 0].

Definition write_pong (out payload : list Z) : result DerpError (list Z) :=
  write_frame out FPong payload.

Definition parse_ping (payload : list Z) : result DerpError (list Z) :=
  if decide (length payload < 8)%nat
  then Err (FrameTooShort (bs "Ping") (length payload) 8)
  else Ok (take 8 payload).

Definition parse_peer_gone (payload : list Z) : result DerpError (list Z * Z) :=
  if decide (length payload < 32)%nat
  then Err (FrameTooShort (bs "PeerGone") (length payload) 33)
  else Ok (take 32 payload, default 0 (payload !! 32%nat)).

Definition parse_restarting (payload : list Z) : result DerpError (Z * Z) :=
  if decide (length payload < 8)%nat
  then Err (FrameTooShort (bs "Restarting") (length payload) 8)
  else Ok (from_be (take 4 payload), from_be (take 4 (drop 4 payload))).

(** ** conn.rs *)

Inductive DerpTx : Type :=
| TxSendPacket (dst_pubkey wg_bytes : list Z)
| TxNotePreferred (home : bool)
| TxPong (echo : list Z).

Record DerpRx : Type := mkDerpRx { src_pubkey : list Z; rx_wg_bytes : list Z }.

Inductive HandleAction : Type :=
| HContinue
| HRestart (delay : Z).

(** [handle_frame]: the action, what is pushed on the connection's own tx
    channel and what is pushed on the shared inbound channel. *)
Definition handle_frame (region : Z) (ty : FrameType) (payload : list Z) :
    HandleAction * list DerpTx * list (Z * DerpRx) :=
  match ty with
  | FRecvPacket =>
      match parse_recv_packet payload with
      | Ok (src, body) => (HContinue, [], [(region, mkDerpRx src body)])
      | Err _ => (HContinue, [], [])
      end
  | FPing =>
      match parse_ping payload with
      | Ok echo => (HContinue, [TxPong echo], [])
      | Err _ => (HContinue, [], [])
      end
  | FRestarting =>
      match parse_restarting payload with
      | Ok (reconnect_in_ms, _) => (HRestart (reconnect_in_ms * 10 ^ 6), [], [])
      | Err _ => (HContinue, [], [])
      end
  | _ => (HContinue, [], [])
  end.

Definition write_outbound (out : list Z) (msg : DerpTx) : result DerpError (list Z) :=
  match msg with
  | TxSendPacket dst wg => write_send_packet out dst wg
  | TxNotePreferred b => write_note_preferred out b
  | TxPong p => write_pong out p
  end.

Definition is_pong (m : DerpTx) : bool := match m with TxPong _ => true | _ => false end.

(** The order an iteration writes what it drained: pongs first. *)
Definition tx_order (batch : list DerpTx) : list DerpTx :=
  List.filter is_pong batch ++ List.filter (fun m => negb (is_pong m)) batch.

(** The writes of a batch; the socket takes [up] of them before one fails.  What was
    written, and whether all of it was. *)
Fixpoint write_all_outbound (up : nat) (out : list Z) (msgs : list DerpTx) {struct msgs} : list Z * bool :=
  match msgs with
  | [] => (out, true)
  | m :: rest =>
      match up with
      | O => (out, false)
      | S up => match write_outbound out m with Ok out' => write_all_outbound up out' rest | Err _ => (out, false) end
      end
  end.

(** One connection's I/O thread. *)
Record IoState : Type := mkIo {
  io_tx : list DerpTx;          (** pending on the connection's channel *)
  io_buf : list Z;              (** FrameReader buffer *)
  io_src : list read_event;     (** what the relay will deliver *)
  io_out : list Z;              (** bytes written to the relay *)
  io_sink : list (Z * DerpRx);  (** pushed to the mux *)
  io_last_rx : Z;
  io_last_used : Z
}.

(** What one turn of the loop meets: the shutdown flag, the messages other threads
    send before the channel is drained, the writes the socket takes, whether it can
    be flushed, and the clock. *)
Record Turn : Type := mkTurn { t_stop : bool; t_new : list DerpTx; t_up : nat; t_flush : bool; t_now : Z }.

(** One turn of [io_loop]: the next state, or the thread exits. *)
Definition io_step (region : Z) (t : Turn) (st : IoState) : IoState + IoState :=
  if t_stop t then inr st else
  let batch := io_tx st ++ t_new t in
  let '(out, written) := write_all_outbound (t_up t) (io_out st) (tx_order batch) in
  let st1 := mkIo [] (io_buf st) (io_src st) out (io_sink st) (io_last_rx st) (io_last_used st) in
  if negb written then inr st1 else
  if negb (bool_decide (batch = [])) && negb (t_flush t) then inr st1 else
  let used := if bool_decide (batch = []) then io_last_used st else t_now t in
  match poll_frame (io_buf st) (io_src st) with
  | (Err _, buf, src) => inr (mkIo [] buf src out (io_sink st) (io_last_rx st) used)
  | (Ok (Some (ty, payload)), buf, src) =>
      let '(act, txs, rxs) := handle_frame region ty payload in
      let st' := mkIo txs buf src out (io_sink st ++ rxs) (t_now t) used in
      match act with HRestart _ => inr st' | HContinue => inl st' end
  | (Ok None, buf, src) =>
      let st' := mkIo [] buf src out (io_sink st) (io_last_rx st) used in
      if t_now t - io_last_rx st >? KEEPALIVE_DEADLINE then inr st' else inl st'
  end.

(** * Lemmas *)

Lemma MAX_PAYLOAD_val : Z.of_nat MAX_PAYLOAD = 65536.
Proof. unfold MAX_PAYLOAD. lia. Qed.

#[global] Opaque MAX_PAYLOAD.

Lemma from_byte_ft_byte t : from_byte (ft_byte t) = Ok t.
Proof. by destruct t. Qed.

Lemma from_byte_inv b t : from_byte b = Ok t -> b = ft_byte t.
Proof. unfold from_byte. repeat case_match; naive_solver. Qed.

(** The wire image of a frame. *)
Definition frame_bytes (f : FrameType * list Z) : list Z :=
  frame_header f.1 (length f.2) ++ f.2.

Definition frame_ok (f : FrameType * list Z) : Prop := (length f.2 <= MAX_PAYLOAD)%nat.

Lemma frame_len_roundtrip n :
  (n <= MAX_PAYLOAD)%nat -> from_be (be_bytes 4 (wrap 32 (Z.of_nat n))) = Z.of_nat n.
Proof.
  intros Hn. pose proof MAX_PAYLOAD_val.
  unfold wrap. rewrite (Z.mod_small (Z.of_nat n)) by lia.
  apply from_be_be_bytes_small. lia.
Qed.

Lemma be_bytes_4_shape z : exists b1 b2 b3 b4, be_bytes 4 z = [b1; b2; b3; b4].
Proof.
  pose proof (length_be_bytes 4 z).
  destruct (be_bytes 4 z) as [|b1 [|b2 [|b3 [|b4 [|]]]]]; simplify_eq/=. by eexists _, _, _, _.
Qed.

Lemma write_frame_bytes out ty payload :
  frame_ok (ty, payload) -> write_frame out ty payload = Ok (out ++ frame_bytes (ty, payload)).
Proof. intros H. unfold write_frame. rewrite decide_False; [done|]. unfold frame_ok in H. simpl in H. lia. Qed.

(** A complete frame at the front of the buffer is the one extracted. *)
Lemma try_extract_frame f rest :
  frame_ok f -> try_extract (frame_bytes f ++ rest) = (Ok (Some f), rest).
Proof.
  destruct f as [t p]. unfold frame_ok, frame_bytes, frame_header. cbn [fst snd]. intros Hok.
  pose proof (frame_len_roundtrip _ Hok) as Hl. revert Hl.
  destruct (be_bytes_4_shape (wrap 32 (Z.of_nat (length p)))) as (b1 & b2 & b3 & b4 & ->).
  intros Hl. cbn [app try_extract]. rewrite from_byte_ft_byte, Hl, Nat2Z.id.
  rewrite decide_False by lia.
  rewrite decide_False by (simpl_len; unfold FRAME_HEADER_LEN; lia).
  by rewrite take_app_len, drop_app_len by done.
Qed.

(** A strict prefix of a frame is left alone. *)
Lemma try_extract_partial f b rest :
  frame_ok f -> rest <> [] -> b ++ rest = frame_bytes f -> try_extract b = (Ok None, b).
Proof.
  destruct f as [t p]. unfold frame_ok, frame_bytes, frame_header. cbn [fst snd].
  intros Hok Hrest Heq.
  pose proof (frame_len_roundtrip _ Hok) as Hl. revert Hl Heq.
  destruct (be_bytes_4_shape (wrap 32 (Z.of_nat (length p)))) as (b1 & b2 & b3 & b4 & ->).
  intros Hl Heq. cbn [app] in Heq.
  destruct b as [|c0 [|c1 [|c2 [|c3 [|c4 tl]]]]]; try done.
  cbn [app] in Heq. simplify_eq. cbn [try_extract].
  rewrite from_byte_ft_byte, Hl, Nat2Z.id.
  rewrite decide_False by lia. rewrite decide_True; [done|].
  rewrite length_app. destruct rest; [done|]. simpl. unfold FRAME_HEADER_LEN. lia.
Qed.

(** Every prefix of a stream of frames either ends inside its first frame or
    has it whole. *)
Lemma prefix_of_frames b rest f (fs : list (FrameType * list Z)) :
  b ++ rest = frame_bytes f ++ concat (map frame_bytes fs) ->
  (exists r, r <> [] /\ b ++ r = frame_bytes f) \/
  (exists b', b = frame_bytes f ++ b' /\ b' ++ rest = concat (map frame_bytes fs)).
Proof.
  intros E. destruct (decide (length b < length (frame_bytes f))%nat) as [Hlt|Hge].
  - left. exists (drop (length b) (frame_bytes f)). split.
    + intros E'. apply (f_equal length) in E'. rewrite length_drop in E'. rewrite length_nil in E'. lia.
    + rewrite <- (take_drop (length b) (frame_bytes f)) at 2. f_equal.
      apply (f_equal (take (length b))) in E. rewrite take_app_length in E.
      by rewrite take_app_le in E by lia.
  - right. exists (drop (length (frame_bytes f)) b). split.
    + rewrite <- (take_drop (length (frame_bytes f)) b) at 1. f_equal.
      apply (f_equal (take (length (frame_bytes f)))) in E. rewrite take_app_length in E.
      by rewrite take_app_le in E by lia.
    + apply (f_equal (drop (length (frame_bytes f)))) in E.
      rewrite drop_app_length in E. by rewrite drop_app_le in E by lia.
Qed.

(** The bytes a source will deliver, and the sources that only deliver bytes or
    time out (no EOF, no error). *)
Definition stream_of (src : list read_event) : list Z :=
  concat (map (fun e => match e with RData c => c | _ => [] end) src).

Definition quiet (e : read_event) : Prop :=
  match e with RData c => c <> [] | RTimeout => True | RFail => False end.

Lemma extract_step b rest fs :
  Forall frame_ok fs -> b ++ rest = concat (map frame_bytes fs) ->
  (try_extract b = (Ok None, b) /\ (rest = [] -> fs = [])) \/
  (exists f fs' b', fs = f :: fs' /\ try_extract b = (Ok (Some f), b') /\
     b' ++ rest = concat (map frame_bytes fs')).
Proof.
  destruct fs as [|f fs]; cbn [map concat]; intros Hok E.
  { left. apply app_eq_nil in E as [-> ->]. done. }
  apply Forall_cons_1 in Hok as [Hf Hok].
  destruct (prefix_of_frames _ _ _ _ E) as [(r & Hr & Hb)|(b' & -> & Hb')].
  - left. split; [by eapply try_extract_partial|]. intros ->. exfalso.
    rewrite app_nil_r in E. apply (f_equal length) in E, Hb. rewrite length_app in E, Hb.
    destruct r; [done|]. rewrite length_cons in Hb. lia.
  - right. exists f, fs, b'. split_and!; [done|by apply try_extract_frame|done].
Qed.

(** One poll makes progress: it either returns the next frame or consumes one
    read event without losing a byte. *)
Lemma poll_frame_step buf src fs :
  Forall frame_ok fs -> Forall quiet src ->
  buf ++ stream_of src = concat (map frame_bytes fs) ->
  (exists src' buf', poll_frame buf src = (Ok None, buf', src') /\ Forall quiet src' /\
     buf' ++ stream_of src' = concat (map frame_bytes fs) /\
     (S (length src') = length src \/ src = [] /\ src' = [] /\ fs = [])) \/
  (exists f fs' src' buf', fs = f :: fs' /\ poll_frame buf src = (Ok (Some f), buf', src') /\
     Forall quiet src' /\ buf' ++ stream_of src' = concat (map frame_bytes fs') /\
     (length src' <= length src)%nat).
Proof.
  intros Hok Hq E. unfold poll_frame.
  destruct (extract_step _ _ _ Hok E) as [[-> Hnil]|(f & fs' & b' & -> & -> & Hb')].
  2: { right. exists f, fs', src, b'. done. }
  destruct src as [|[c| |] src].
  - left. exists [], buf. split_and!; auto.
  - apply Forall_cons_1 in Hq as [Hc Hq]. cbn in Hc. destruct c as [|z c]; [done|].
    unfold stream_of in E. cbn [map concat] in E. rewrite app_assoc in E.
    destruct (extract_step _ _ _ Hok E) as [[-> _]|(f & fs' & b' & -> & -> & Hb')].
    + left. exists src, (buf ++ z :: c). split_and!; auto.
    + right. exists f, fs', src, b'. split_and!; auto. simpl. lia.
  - apply Forall_cons_1 in Hq as [_ Hq]. left. exists src, buf. split_and!; auto.
  - apply Forall_cons_1 in Hq as [[] _].
Qed.

(** The loop that keeps polling, as the I/O thread does, collecting frames. *)
Fixpoint poll_many (fuel : nat) (buf : list Z) (src : list read_event) :
    result DerpError (list (FrameType * list Z)) * list Z * list read_event :=
  match fuel with
  | O => (Ok [], buf, src)
  | S k =>
      match poll_frame buf src with
      | (Err e, b, s) => (Err e, b, s)
      | (Ok None, b, s) => poll_many k b s
      | (Ok (Some f), b, s) => let '(r, b', s') := poll_many k b s in (cons f <$> r, b', s')
      end
  end.

(** * Properties *)

(** The frame codec round-trips for every type and every payload within the
    cap, whatever follows on the stream. *)
Theorem frame_codec_roundtrip out ty payload rest bytes :
  write_frame out ty payload = Ok (out ++ bytes) ->
  read_frame (bytes ++ rest) = Ok (ty, payload, rest).
Proof.
  unfold write_frame. case_decide as Hlen; [done|]. intros E.
  assert (bytes = frame_header ty (length payload) ++ payload) as ->
    by (apply (app_inv_head out); congruence).
  assert (Hok : (length payload <= MAX_PAYLOAD)%nat) by lia.
  pose proof (frame_len_roundtrip _ Hok) as Hl.
  unfold read_frame, frame_header, read_exact, FRAME_HEADER_LEN.
  set (lb := be_bytes 4 _) in *.
  assert (Hlb : length lb = 4%nat) by apply length_be_bytes.
  rewrite decide_True by (simpl_len; lia).
  rewrite <- app_assoc. change ((ft_byte ty :: lb) ++ payload ++ rest) with
    ([ft_byte ty] ++ lb ++ payload ++ rest). rewrite app_assoc.
  rewrite take_app_len, drop_app_len by (simpl_len; lia).
  unfold mbind, result_bind. cbn [fst snd app]. rewrite from_byte_ft_byte, Hl, Nat2Z.id.
  rewrite decide_False by lia. rewrite decide_True by (simpl_len; lia).
  cbn [fst snd]. by rewrite take_app_len, drop_app_len by done.
Qed.

Lemma frame_codec_roundtrip_witness :
  read_frame ([0x13; 0; 0; 0; 3; 7; 8; 9] ++ [1]) = Ok (FPong, [7; 8; 9], [1]).
Proof. apply (frame_codec_roundtrip [] FPong [7; 8; 9] [1] [0x13; 0; 0; 0; 3; 7; 8; 9]). reflexivity. Defined.

(** C6: the resumable reader never loses its place.  However the bytes of a
    sequence of frames are split into reads, and however many timeouts fall in
    between (in the middle of headers and payloads included), polling returns
    exactly those frames in order and ends with an empty buffer. *)
Theorem frame_reader_no_desync fs src buf fuel :
  Forall frame_ok fs -> Forall quiet src ->
  buf ++ stream_of src = concat (map frame_bytes fs) ->
  (length src + length fs <= fuel)%nat ->
  poll_many fuel buf src = (Ok fs, [], []).
Proof.
  revert fs src buf. induction fuel as [|n IH]; intros fs src buf Hok Hq E Hfuel.
  { destruct fs, src; simpl in Hfuel; try lia. cbn in E. by rewrite app_nil_r in E; subst. }
  cbn [poll_many].
  destruct (poll_frame_step _ _ _ Hok Hq E)
    as [(src' & buf' & -> & Hq' & E' & Hd)|(f & fs' & src' & buf' & -> & -> & Hq' & E' & Hle)].
  - destruct Hd as [Hd|(-> & -> & ->)]; apply IH; auto; simpl in *; lia.
  - apply Forall_cons_1 in Hok as [_ Hok]. rewrite (IH fs'); auto. simpl in Hfuel. lia.
Qed.

Lemma frame_reader_no_desync_witness :
  poll_many 6 [0x06; 0] [RTimeout; RData [0; 0; 0; 0x12]; RTimeout; RData [0; 0; 0; 1; 9]]
  = (Ok [(FKeepAlive, []); (FPing, [9])], [], []).
Proof.
  apply frame_reader_no_desync.
  - pose proof MAX_PAYLOAD_val. repeat constructor; unfold frame_ok; simpl; lia.
  - by repeat constructor.
  - reflexivity.
  - simpl. lia.
Defined.

(** ** The connection loop *)

(** The frame an outbound message becomes. *)
Definition tx_frame (m : DerpTx) : FrameType * list Z :=
  match m with
  | TxSendPacket dst wg => (FSendPacket, dst ++ wg)
  | TxNotePreferred b => (FNotePreferred, [if b then 1 else 0])
  | TxPong p => (FPong, p)
  end.

(** What callers can enqueue without the write failing: keys of 32 bytes and
    packets under the cap, eight-byte echoes. *)
Definition tx_ok (m : DerpTx) : Prop :=
  match m with
  | TxSendPacket dst wg => length dst = 32%nat /\ (32 + length wg <= MAX_PAYLOAD)%nat
  | TxNotePreferred _ => True
  | TxPong p => length p = 8%nat
  end.

Lemma write_outbound_ok out m :
  tx_ok m -> write_outbound out m = Ok (out ++ frame_bytes (tx_frame m)).
Proof.
  pose proof MAX_PAYLOAD_val.
  destruct m as [dst wg|b|p]; cbn [tx_ok write_outbound tx_frame].
  - intros [Hd Hl]. unfold write_send_packet, frame_bytes. cbn [fst snd].
    rewrite decide_False by lia. by rewrite length_app, Hd.
  - intros _. apply write_frame_bytes. unfold frame_ok. simpl. lia.
  - intros Hp. apply write_frame_bytes. unfold frame_ok. simpl. lia.
Qed.

Lemma write_all_outbound_ok msgs : forall up out,
  Forall tx_ok msgs -> (length msgs <= up)%nat ->
  write_all_outbound up out msgs = (out ++ concat (map frame_bytes (map tx_frame msgs)), true).
Proof.
  induction msgs as [|m msgs IH]; intros up out Hok Hup; cbn; [by rewrite app_nil_r|].
  apply Forall_cons_1 in Hok as [Hm Hok]. destruct up as [|up]; [cbn in Hup; lia|]. rewrite write_outbound_ok by done. cbn.
  rewrite IH; [by rewrite <- app_assoc|done|cbn in Hup; lia].
Qed.

Lemma tx_order_perm batch : tx_order batch ≡ₚ batch.
Proof.
  unfold tx_order. induction batch as [|m batch IH]; [done|]. cbn.
  destruct (is_pong m); cbn; [by rewrite IH|].
  by rewrite <- Permutation_middle, IH.
Qed.

Lemma tx_order_ok batch : Forall tx_ok batch -> Forall tx_ok (tx_order batch).
Proof. by rewrite tx_order_perm. Qed.

(** The inbound packets of a frame, the pongs it makes us send. *)
Definition delivered (region : Z) (f : FrameType * list Z) : list (Z * DerpRx) :=
  (handle_frame region f.1 f.2).2.

Lemma handle_frame_txs region ty p act txs rxs :
  handle_frame region ty p = (act, txs, rxs) -> Forall tx_ok txs.
Proof.
  unfold handle_frame. intros E.
  destruct ty; repeat case_match; simplify_eq; try by constructor.
  constructor; [|constructor]. cbn.
  match goal with H : parse_ping _ = _ |- _ => unfold parse_ping in H end.
  case_decide; simplify_eq. rewrite length_take. lia.
Qed.

Lemma handle_frame_continue region ty p :
  ty <> FRestarting -> (handle_frame region ty p).1.1 = HContinue.
Proof. destruct ty; intros; try done; cbn; by repeat case_match. Qed.

(** The thread body iterated over its turns. *)
Fixpoint io_run (region : Z) (ts : list Turn) (st : IoState) : IoState + IoState :=
  match ts with
  | [] => inl st
  | t :: ts' => match io_step region t st with inl st' => io_run region ts' st' | inr st' => inr st' end
  end.

(** A turn nothing of our side spoils: no shutdown, a socket that takes the batch. *)
Definition turn_ok (backlog : nat) (t : Turn) : Prop :=
  t_stop t = false /\ Forall tx_ok (t_new t) /\ (backlog + length (t_new t) <= t_up t)%nat /\ t_flush t = true.

(** The relay is heard in time: counted from [last], and then from every turn that
    reads a whole frame off [buf] and [src], no turn without a frame is later than the
    deadline. *)
Fixpoint timely (last : Z) (buf : list Z) (src : list read_event) (ts : list Turn) : Prop :=
  match ts with
  | [] => True
  | t :: ts =>
      match poll_frame buf src with
      | (Ok (Some _), buf, src) => timely (t_now t) buf src ts
      | (Ok None, buf, src) => t_now t <= last + KEEPALIVE_DEADLINE /\ timely last buf src ts
      | (Err _, _, _) => True
      end
  end.

(** The pongs that frames ask for. *)
Definition pongs (region : Z) (f : FrameType * list Z) : list DerpTx := (handle_frame region f.1 f.2).1.2.

Lemma pongs_short region f : (length (pongs region f) <= 1)%nat.
Proof. unfold pongs, handle_frame. destruct f as [[] p]; cbn; try lia; repeat case_match; cbn; lia. Qed.

(** A batch that goes out leaves the thread at the read. *)
Lemma io_step_written region t st : turn_ok (length (io_tx st)) t -> Forall tx_ok (io_tx st) ->
  exists used, io_step region t st =
    let out := io_out st ++ concat (map frame_bytes (map tx_frame (tx_order (io_tx st ++ t_new t)))) in
    match poll_frame (io_buf st) (io_src st) with
    | (Err _, buf, src) => inr (mkIo [] buf src out (io_sink st) (io_last_rx st) used)
    | (Ok (Some (ty, payload)), buf, src) =>
        let '(act, txs, rxs) := handle_frame region ty payload in
        let st' := mkIo txs buf src out (io_sink st ++ rxs) (t_now t) used in
        match act with HRestart _ => inr st' | HContinue => inl st' end
    | (Ok None, buf, src) =>
        let st' := mkIo [] buf src out (io_sink st) (io_last_rx st) used in
        if t_now t - io_last_rx st >? KEEPALIVE_DEADLINE then inr st' else inl st'
    end.
Proof.
  intros (Hs & Hn & Hu & Hf) Htx. unfold io_step. rewrite Hs, Hf, andb_false_r.
  rewrite write_all_outbound_ok; [cbn [negb]; eexists; reflexivity|by apply tx_order_ok, Forall_app|].
  rewrite (Permutation_length (tx_order_perm _)), length_app. lia.
Qed.



(** A relay that goes silent is given up: the turn that finds no frame more than the
    deadline after the last one ends the thread. *)
Theorem silent_relay_dropped region t st buf src : turn_ok (length (io_tx st)) t -> Forall tx_ok (io_tx st) ->
  poll_frame (io_buf st) (io_src st) = (Ok None, buf, src) -> io_last_rx st + KEEPALIVE_DEADLINE < t_now t ->
  exists st', io_step region t st = inr st'.
Proof.
  intros Ht Htx Hp Hl. destruct (io_step_written region t st Ht Htx) as [used ->]. rewrite Hp.
  destruct (Z.gtb_spec (t_now t - io_last_rx st) KEEPALIVE_DEADLINE); [eauto|lia].
Qed.

(** pong priority.  When the loop reads a Ping of at least eight bytes, the
    very next turn writes its echo before every packet and marker that other
    threads queue in the meantime, and still writes all of those, in order. *)
Theorem ping_answered_first region t t' st st1 payload buf src :
  turn_ok (length (io_tx st)) t -> Forall tx_ok (io_tx st) -> (8 <= length payload)%nat ->
  poll_frame (io_buf st) (io_src st) = (Ok (Some (FPing, payload)), buf, src) ->
  io_step region t st = inl st1 -> turn_ok 1 t' -> Forall (fun m => is_pong m = false) (t_new t') ->
  match io_step region t' st1 with
  | inl st2 | inr st2 =>
      io_out st2 = io_out st1 ++ frame_bytes (FPong, take 8 payload) ++ concat (map frame_bytes (map tx_frame (t_new t')))
  end.
Proof.
  intros Ht Htx Hlen Hp Hs Ht' Hnp.
  assert (E1 : io_tx st1 = [TxPong (take 8 payload)]).
  { destruct (io_step_written region t st Ht Htx) as [used E]. rewrite E, Hp in Hs.
    unfold handle_frame, parse_ping in Hs. rewrite decide_False in Hs by lia. by simplify_eq/=. }
  assert (Ho : tx_order (io_tx st1 ++ t_new t') = TxPong (take 8 payload) :: t_new t').
  { rewrite E1. unfold tx_order. cbn.
    assert (Hno : List.filter is_pong (t_new t') = [] /\ List.filter (fun m => negb (is_pong m)) (t_new t') = t_new t').
    { clear -Hnp. induction Hnp as [|m l Hm _ [IH1 IH2]]; [done|]. cbn. rewrite Hm. cbn. by rewrite IH1, IH2. }
    destruct Hno as [-> ->]. done. }
  destruct (io_step_written region t' st1) as [used ->]; [by rewrite E1|rewrite E1; constructor; [cbn; rewrite length_take; lia|constructor]|].
  rewrite Ho. cbn [map concat tx_frame].
  destruct (poll_frame (io_buf st1) (io_src st1)) as [[[[[ty pl]|]|] b] s]; cbn;
    [|by destruct (t_now t' - io_last_rx st1 >? KEEPALIVE_DEADLINE)|done].
  by destruct (handle_frame region ty pl) as [[[|] ?] ?].
Qed.
