(* ===== verification/DerpMux.v ===== *)
(** The multi-region DERP connection pool ([crates/ts-derp]: [mux.rs], the
    dialling half of [conn.rs], [transport.rs]).  A connection is what the mux
    can observe and do to it: whether its thread still runs, when it was last
    used, its home flag and the messages pushed on its channel.  The outcome of
    dialling a relay node is the parameter [dial]. *)

From S2P Require Import Prelude DerpFrame.
#[local] Open Scope Z_scope.

Record DerpNodeAddr : Type := mkNode {
  node_region_id : Z;
  node_name : list Z;
  node_hostname : list Z;
  node_ipv4 : list Z;
  node_ipv6 : list Z;
  node_derp_port : Z
}.

Record DerpConn : Type := mkConn {
  conn_region : Z;
  conn_alive : bool;
  conn_last_used : Z;
  conn_is_home : bool;
  conn_sent : list DerpTx
}.

Record MuxInner : Type := mkMux {
  conns : gmap Z DerpConn;
  derp_map : gmap Z (list DerpNodeAddr);
  home : Z;
  mux_cap : nat
}.

Definition mux_new (cap : nat) : MuxInner :=
  mkMux ∅ ∅ 0 (if decide (cap = 0%nat) then DEFAULT_MAX_CONNS else cap).

Definition set_conns (m : MuxInner) (c : gmap Z DerpConn) : MuxInner :=
  mkMux c (derp_map m) (home m) (mux_cap m).

Definition set_derp_map (m : MuxInner) (d : gmap Z (list DerpNodeAddr)) : MuxInner :=
  mkMux (conns m) d (home m) (mux_cap m).

Definition set_home_region (m : MuxInner) (r : Z) : MuxInner :=
  mkMux (conns m) (derp_map m) r (mux_cap m).

(** [DerpConn::send] on a live thread, [DerpConn::set_home]. *)
Definition conn_push (c : DerpConn) (msg : DerpTx) : DerpConn :=
  mkConn (conn_region c) (conn_alive c) (conn_last_used c) (conn_is_home c) (conn_sent c ++ [msg]).

Definition conn_set_home (c : DerpConn) (h : bool) : DerpConn :=
  mkConn (conn_region c) (conn_alive c) (conn_last_used c) h (conn_sent c ++ [TxNotePreferred h]).

(** The eviction candidate with the oldest use, the home region excepted. *)
Definition older (a b : Z * DerpConn) : Z * DerpConn :=
  if conn_last_used b.2 <? conn_last_used a.2 then b else a.

Fixpoint oldest (l : list (Z * DerpConn)) : option (Z * DerpConn) :=
  match l with
  | [] => None
  | x :: r => Some (match oldest r with Some y => older x y | None => x end)
  end.

Definition evict_target (home_ : Z) (cs : gmap Z DerpConn) : option Z :=
  fst <$> oldest (List.filter (fun rc => negb (rc.1 =? home_)) (map_to_list cs)).

Section Dial.
(** [dial_and_handshake] on one node, the instant of the call. *)
Context (dial : DerpNodeAddr -> result DerpError unit) (now : Z).

Definition spawn_io (region : Z) (is_home : bool) : DerpConn :=
  mkConn region true now is_home (if is_home then [TxNotePreferred true] else []).

(** The node loop of [dial_and_spawn], with the last error seen. *)
Fixpoint try_nodes (region : Z) (nodes : list DerpNodeAddr) (is_home : bool) (last : DerpError) :
    result DerpError DerpConn :=
  match nodes with
  | [] => Err last
  | n :: rest =>
      match dial n with
      | Ok _ => Ok (spawn_io region is_home)
      | Err e => try_nodes region rest is_home e
      end
  end.

Definition dial_and_spawn (region : Z) (nodes : list DerpNodeAddr) (is_home : bool) :
    result DerpError DerpConn :=
  match nodes with
  | [] => Err (UnknownRegion region)
  | _ => try_nodes region nodes is_home (UnknownRegion region)
  end.

Definition ensure_region (m : MuxInner) (region : Z) (is_home : bool) :
    result DerpError DerpConn * MuxInner :=
  let dial_into (m' : MuxInner) nodes :=
    match dial_and_spawn region nodes is_home with
    | Err e => (Err e, m')
    | Ok c => (Ok c, set_conns m' (<[region := c]> (conns m')))
    end in
  let slow :=
    match derp_map m !! region with
    | None => (Err (UnknownRegion region), m)
    | Some nodes =>
        let live := filter (fun rc => conn_alive rc.2 = true) (conns m) in
        if decide (mux_cap m <= size live)%nat then
          match evict_target (home m) live with
          | Some r => dial_into (set_conns m (delete r live)) nodes
          | None => (Err (CapExceededHome (mux_cap m) (home m)), set_conns m live)
          end
        else dial_into (set_conns m live) nodes
    end in
  match conns m !! region with
  | Some c => if conn_alive c then (Ok c, m) else slow
  | None => slow
  end.

Definition set_home (m : MuxInner) (region : Z) : result DerpError unit * MuxInner :=
  let prev := home m in
  let m1 := set_home_region m region in
  if prev =? region then (Ok tt, m1)
  else
    match ensure_region m1 region true with
    | (Err e, m2) => (Err e, m2)
    | (Ok _, m2) =>
        let m3 := if prev =? 0 then m2
                  else match conns m2 !! prev with
                       | Some c => set_conns m2 (<[prev := conn_set_home c false]> (conns m2))
                       | None => m2
                       end in
        (Ok tt, m3)
    end.

(** [DerpMux::send]; [died]: the connection's thread ended between the
    aliveness check and the push. *)
Definition mux_send (m : MuxInner) (region : Z) (dst_pubkey wg_bytes : list Z) (died : bool) :
    result DerpError unit * MuxInner :=
  match ensure_region m region (region =? home m) with
  | (Err e, m1) => (Err e, m1)
  | (Ok c, m1) =>
      if died then (Err (ConnDied region), set_conns m1 (delete region (conns m1)))
      else (Ok tt, set_conns m1 (<[region := conn_push c (TxSendPacket dst_pubkey wg_bytes)]> (conns m1)))
  end.

(** [DerpTransport::send] on a DERP address and [DerpTransportCtl::send]:
    dropped until the DERP map is set. *)
Definition derp_send (derp_map_set : bool) (m : MuxInner) (region : Z)
    (peer_pubkey datagram : list Z) (died : bool) : result DerpError unit * MuxInner :=
  if negb derp_map_set then (Ok tt, m) else mux_send m region peer_pubkey datagram died.
End Dial.

Definition alive_regions (m : MuxInner) : list Z :=
  map fst (List.filter (fun rc => conn_alive rc.2) (map_to_list (conns m))).

Definition mux_shutdown (m : MuxInner) : MuxInner := set_conns m ∅.

(** ** probe.rs *)

Definition HOME_PROBE_CACHE : Z := 300 * 10 ^ 9.

Record HomeProbeCache : Type := mkProbeCache {
  pc_region : Z;
  pc_rtt : Z;
  pc_measured_at : Z
}.

(** [mul_duration(d, 0.75)]: [round] of three quarters of the nanoseconds (exact
    in [f64] for every duration below 2^51 ns). *)
Definition three_quarters (d : Z) : Z := (3 * d + 2) / 4.

(** The first of the stably sorted results. *)
Fixpoint fastest (l : list (Z * Z)) : option (Z * Z) :=
  match l with
  | [] => None
  | x :: r => Some (match fastest r with Some y => if y.2 <? x.2 then y else x | None => x end)
  end.

(** [pick_home]: [results] are the [(region, rtt)] pairs the probe threads
    delivered before the deadline, in arrival order. *)
Definition pick_home (cache : option HomeProbeCache) (now : Z)
    (dm : gmap Z (list DerpNodeAddr)) (results : list (Z * Z)) :
    result DerpError Z * option HomeProbeCache :=
  let probe :=
    if decide (size dm = 0%nat) then (Err (NoReachableRegion 0 0), cache)
    else
      match fastest results with
      | None => (Err (NoReachableRegion (size dm) (size dm)), cache)
      | Some (winner, rtt) =>
          let switch := (Ok winner, Some (mkProbeCache winner rtt now)) in
          match cache with
          | Some prev =>
              if negb (pc_region prev =? winner) && (three_quarters (pc_rtt prev) <? rtt)
              then (Ok (pc_region prev), cache)
              else switch
          | None => switch
          end
      end in
  match cache with
  | Some c =>
      if (now - pc_measured_at c <? HOME_PROBE_CACHE) && bool_decide (is_Some (dm !! pc_region c))
      then (Ok (pc_region c), cache) else probe
  | None => probe
  end.

(** * Lemmas *)

Lemma oldest_in l x : oldest l = Some x -> In x l.
Proof.
  revert x. induction l as [|y l IH]; intros x; [done|]. cbn. intros [= <-].
  destruct (oldest l) as [z|]; [|by left]. unfold older.
  destruct (_ <? _); [right; by apply IH|by left].
Qed.

Lemma oldest_min l x y : oldest l = Some x -> In y l -> conn_last_used x.2 <= conn_last_used y.2.
Proof.
  revert x. induction l as [|z l IH]; intros x; [done|]. cbn. intros [= <-] [->|Hy].
  - destruct (oldest l) as [w|]; [|lia]. unfold older. case_match; lia.
  - destruct (oldest l) as [w|] eqn:Ew.
    + pose proof (IH w eq_refl Hy). unfold older. case_match; lia.
    + destruct l; [done|]. simpl in Ew. by destruct (oldest l).
Qed.

Lemma evict_target_spec h cs r :
  evict_target h cs = Some r ->
  r <> h /\ exists c, cs !! r = Some c /\
    forall r' c', cs !! r' = Some c' -> r' <> h -> conn_last_used c <= conn_last_used c'.
Proof.
  unfold evict_target. destruct (oldest _) as [[r0 c0]|] eqn:E; [|done]. intros [= <-].
  pose proof (oldest_in _ _ E) as Hin. apply filter_In in Hin as [Hin Hh]. cbn in Hh.
  apply list_elem_of_In, elem_of_map_to_list in Hin.
  split; [lia|]. exists c0. split; [done|]. intros r' c' Hl Hne.
  apply (oldest_min _ _ (r', c') E). apply filter_In. split; [|cbn; lia].
  by apply list_elem_of_In, elem_of_map_to_list.
Qed.

Lemma fastest_in l x : fastest l = Some x -> In x l.
Proof.
  revert x. induction l as [|y l IH]; intros x; [done|]. cbn. intros [= <-].
  destruct (fastest l) as [z|]; [|by left]. case_match; [right; by apply IH|by left].
Qed.

Lemma fastest_min l x y : fastest l = Some x -> In y l -> x.2 <= y.2.
Proof.
  revert x. induction l as [|z l IH]; intros x; [done|]. cbn. intros [= <-] [->|Hy].
  - destruct (fastest l) as [w|]; [|lia]. case_match; lia.
  - destruct (fastest l) as [w|] eqn:Ew.
    + pose proof (IH w eq_refl Hy). case_match; lia.
    + destruct l; [done|]. simpl in Ew. by destruct (fastest l).
Qed.

Lemma live_lookup (cs : gmap Z DerpConn) (r : Z) (c : DerpConn) :
  filter (fun rc => conn_alive rc.2 = true) cs !! r = Some c <-> cs !! r = Some c /\ conn_alive c = true.
Proof. by rewrite map_lookup_filter_Some. Qed.

Definition mux_inv (m : MuxInner) : Prop :=
  (0 < mux_cap m)%nat /\ (size (conns m) <= mux_cap m)%nat.

Lemma size_live (cs : gmap Z DerpConn) :
  (size (filter (fun rc => conn_alive rc.2 = true) cs) <= size cs)%nat.
Proof. apply map_size_filter. Qed.

Section MuxProperties.
Context (dial : DerpNodeAddr -> result DerpError unit) (now : Z).

(** The pool before dialling: dead connections reaped and, at the cap, one
    victim gone. *)
Lemma ensure_region_shape m region is_home res m' :
  ensure_region dial now m region is_home = (res, m') ->
  (res = Ok (default (mkConn 0 true 0 true []) (conns m !! region)) /\ m' = m /\
     exists c, conns m !! region = Some c /\ conn_alive c = true) \/
  (exists live victim,
     live = filter (fun rc => conn_alive rc.2 = true) (conns m) /\
     derp_map m' = derp_map m /\ home m' = home m /\ mux_cap m' = mux_cap m /\
     (match victim with
      | Some r => (mux_cap m <= size live)%nat /\ evict_target (home m) live = Some r
      | None => True end) /\
     let rest := match victim with Some r => delete r live | None => live end in
     match res with
     | Ok c => c = spawn_io now region is_home /\ conns m' = <[region := c]> rest /\
               (victim = None -> (size live < mux_cap m)%nat)
     | Err _ => conns m' = conns m \/ conns m' = rest
     end).
Proof.
  unfold ensure_region. set (live := filter _ _).
  assert (Hd : forall nodes r, dial_and_spawn dial now region nodes is_home = Ok r ->
            r = spawn_io now region is_home).
  { assert (Ht : forall nodes last r, try_nodes dial now region nodes is_home last = Ok r ->
              r = spawn_io now region is_home).
    { induction nodes as [|n nodes IH]; intros last r; cbn; [done|].
      destruct (dial n); [by intros [= <-]|apply IH]. }
    intros [|n nodes] r; [done|apply Ht]. }
  destruct (conns m !! region) as [c|] eqn:Ec; [destruct (conn_alive c) eqn:Ea|].
  { intros [= <- <-]. left. split_and!; [done|done|by exists c]. }
  all: intros E; right; destruct (derp_map m !! region) as [nodes|];
    [|by simplify_eq; exists live, None; split_and!; auto].
  all: case_decide as Hcap; [destruct (evict_target (home m) live) as [r|] eqn:Et|].
  all: try (destruct (dial_and_spawn dial now region nodes is_home) as [cn|] eqn:Edl; [apply Hd in Edl|]).
  all: simplify_eq; first [exists live, (Some r); by split_and!; auto|exists live, None; split_and!; auto].
  all: intros; lia.
Qed.

(** the connection pool keeps its cap, whatever the dial outcome. *)
Theorem ensure_region_cap m region is_home :
  mux_inv m -> mux_inv (ensure_region dial now m region is_home).2.
Proof.
  intros [Hpos Hcap]. destruct (ensure_region dial now m region is_home) as [res m'] eqn:E.
  cbn. apply ensure_region_shape in E as [(_ & -> & _)|(live & victim & -> & _ & _ & Hc & Hv & E)];
    [done|].
  unfold mux_inv. rewrite Hc. split; [done|].
  pose proof (size_live (conns m)) as Hl. set (live := filter _ _) in *.
  assert (Hrest : (size (match victim with Some r => delete r live | None => live end) <= size live)%nat).
  { destruct victim as [r|]; [apply map_subseteq_size, delete_subseteq|done]. }
  destruct res as [c|e]; [|destruct E as [->| ->]; lia].
  destruct E as (_ & -> & Hsz). rewrite map_size_insert.
  destruct victim as [r|].
  - destruct Hv as [Hge Hev]. apply evict_target_spec in Hev as (_ & c' & Hc' & _).
    pose proof (map_size_delete r live) as Hd. rewrite Hc' in Hd.
    destruct (delete r live !! region); unfold id; lia.
  - specialize (Hsz eq_refl). destruct (live !! region); unfold id; lia.
Qed.

(** eviction never touches the home region and follows
    least-recent use.  A live connection that disappears from the pool was not
    the home region, and no live non-home connection was older. *)
Theorem ensure_region_evicts_lru m region is_home r c :
  conns m !! r = Some c -> conn_alive c = true -> r <> region ->
  conns (ensure_region dial now m region is_home).2 !! r = None ->
  r <> home m /\ (mux_cap m <= size (conns m))%nat /\
  forall r' c', conns m !! r' = Some c' -> conn_alive c' = true -> r' <> home m ->
    conn_last_used c <= conn_last_used c'.
Proof.
  intros Hr Ha Hne. destruct (ensure_region dial now m region is_home) as [res m'] eqn:E. cbn.
  apply ensure_region_shape in E as [(_ & -> & _)|(live & victim & -> & _ & _ & _ & Hv & E)]; [congruence|].
  pose proof (size_live (conns m)) as Hl.
  assert (Hlive : forall r' c', conns m !! r' = Some c' -> conn_alive c' = true ->
            filter (fun rc => conn_alive rc.2 = true) (conns m) !! r' = Some c')
    by (intros; by apply live_lookup).
  set (live := filter _ _) in *. intros Hgone.
  assert (Hrest : match victim with Some v => delete v live | None => live end !! r = None).
  { destruct res as [c'|e]; [destruct E as (_ & E & _)|destruct E as [E|E]]; rewrite E in Hgone.
    - by rewrite lookup_insert_ne in Hgone.
    - congruence.
    - done. }
  destruct victim as [v|]; [|rewrite (Hlive r c) in Hrest; done].
  destruct Hv as [Hge Hev]. apply evict_target_spec in Hev as (Hvh & cv & Hcv & Hmin).
  assert (v = r) as ->.
  { destruct (decide (v = r)); [done|]. by rewrite lookup_delete_ne, (Hlive r c) in Hrest. }
  rewrite (Hlive r c) in Hcv by done. injection Hcv as <-.
  split_and!; [done|lia|]. intros r' c' Hr' Ha' Hh'. apply (Hmin r' c'); [by apply Hlive|done].
Qed.

(** Making a region home when the pool already has a live connection to
    it sends nothing to that relay: the home marker goes out only on a fresh
    dial, although [set_home] means to announce the new home at once. *)
Theorem set_home_existing_conn_silent m region c :
  home m <> region -> conns m !! region = Some c -> conn_alive c = true ->
  let m' := (set_home dial now m region).2 in
  home m' = region /\ conns m' !! region = Some c.
Proof.
  intros Hne Hc Ha. unfold set_home. destruct (Z.eqb_spec (home m) region); [done|].
  unfold ensure_region. cbn. rewrite Hc, Ha. cbn.
  destruct (home m =? 0); [done|]. destruct (conns m !! home m); [|done].
  cbn. by rewrite lookup_insert_ne.
Qed.
End MuxProperties.

Definition refuse (n : DerpNodeAddr) : result DerpError unit := Err (DerpIo OtherIo).
Definition accept (n : DerpNodeAddr) : result DerpError unit := Ok tt.

(** A full pool of two: region 1 (home, oldest) and region 2; region 3 known. *)
Definition demo_mux : MuxInner :=
  mkMux {[1 := mkConn 1 true 10 true []; 2 := mkConn 2 true 20 false []]}
        {[3 := [mkNode 3 [] [] [] [] 0]]} 1 2.

Lemma ensure_region_cap_witness :
  mux_inv demo_mux /\ mux_inv (ensure_region accept 30 demo_mux 3 false).2.
Proof.
  split; [split; vm_compute; lia|].
  apply (ensure_region_cap accept 30 demo_mux 3 false). split; vm_compute; lia.
Defined.

Lemma ensure_region_evicts_lru_witness :
  2 <> home demo_mux /\ (mux_cap demo_mux <= size (conns demo_mux))%nat /\
  forall r' c', conns demo_mux !! r' = Some c' -> conn_alive c' = true -> r' <> home demo_mux ->
    20 <= conn_last_used c'.
Proof.
  apply (ensure_region_evicts_lru accept 30 demo_mux 3 false 2 (mkConn 2 true 20 false []));
    [reflexivity|reflexivity|done|vm_compute; reflexivity].
Defined.

Lemma set_home_existing_conn_silent_witness :
  home (set_home refuse 30 demo_mux 2).2 = 2 /\
  conns (set_home refuse 30 demo_mux 2).2 !! 2 = Some (mkConn 2 true 20 false []).
Proof.
  apply (set_home_existing_conn_silent refuse 30 demo_mux 2 (mkConn 2 true 20 false []));
    [done|reflexivity|reflexivity].
Defined.

(** ** Home-region choice *)

(** outside the cache window the probe chooses a fastest responder, unless
    hysteresis keeps the previous home because the winner is not at least a
    quarter faster; inside the window the cached region is returned and nothing
    changes. *)
Theorem pick_home_spec cache now dm results region cache' :
  pick_home cache now dm results = (Ok region, cache') ->
  (exists c, cache = Some c /\ cache' = cache /\ region = pc_region c /\
     ((now - pc_measured_at c < HOME_PROBE_CACHE /\ is_Some (dm !! region)) \/
      (exists w rtt, In (w, rtt) results /\ (forall y, In y results -> rtt <= y.2) /\ w <> region /\
         three_quarters (pc_rtt c) < rtt))) \/
  (exists rtt, In (region, rtt) results /\ (forall y, In y results -> rtt <= y.2) /\
     cache' = Some (mkProbeCache region rtt now)).
Proof.
  unfold pick_home. intros E.
  assert (Hf : forall w rtt, fastest results = Some (w, rtt) ->
            In (w, rtt) results /\ forall y, In y results -> rtt <= y.2).
  { intros w rtt Ef. split; [by apply fastest_in|]. intros y Hy. apply (fastest_min _ _ _ Ef Hy). }
  destruct cache as [c|].
  - destruct (_ && _) eqn:Ehit in E.
    + injection E as <- <-. left. exists c. split_and!; [done..|]. left.
      apply andb_true_iff in Ehit as [H1 H2]. apply bool_decide_eq_true in H2. split; [lia|done].
    + case_decide; [done|]. destruct (fastest results) as [[w rtt]|]; [|done].
      destruct (Hf w rtt eq_refl) as [Hin Hmin].
      destruct (_ && _) eqn:Ek in E; injection E as <- <-.
      * left. exists c. split_and!; [done..|]. right. exists w, rtt. split_and!; auto; lia.
      * right. exists rtt. done.
  - case_decide; [done|]. destruct (fastest results) as [[w rtt]|]; [|done].
    destruct (Hf w rtt eq_refl) as [Hin Hmin]. injection E as <- <-. right. by exists rtt.
Qed.

Lemma pick_home_spec_witness :
  (exists c, None = Some c /\ Some (mkProbeCache 4 20 7) = None /\ 4 = pc_region c /\
     ((7 - pc_measured_at c < HOME_PROBE_CACHE /\
        is_Some (({[4 := []; 9 := []]} : gmap Z (list DerpNodeAddr)) !! 4)) \/
      (exists w rtt, In (w, rtt) [(9, 30); (4, 20)] /\ (forall y, In y [(9, 30); (4, 20)] -> rtt <= y.2) /\ w <> 4 /\
         three_quarters (pc_rtt c) < rtt))) \/
  (exists rtt, In (4, rtt) [(9, 30); (4, 20)] /\ (forall y, In y [(9, 30); (4, 20)] -> rtt <= y.2) /\
     Some (mkProbeCache 4 20 7) = Some (mkProbeCache 4 rtt 7)).
Proof. apply pick_home_spec. vm_compute. reflexivity. Defined.

(** Hysteresis ignores whether the previous home still exists.  When the
    DERP map no longer has the cached region, a probe whose winner is not a
    quarter faster than the old measurement still returns the vanished region. *)
Theorem pick_home_keeps_vanished_region c now dm results w rtt :
  dm !! pc_region c = None -> size dm <> 0%nat ->
  fastest results = Some (w, rtt) -> w <> pc_region c -> three_quarters (pc_rtt c) < rtt ->
  pick_home (Some c) now dm results = (Ok (pc_region c), Some c).
Proof.
  intros Hd Hs Hf Hw Hr. unfold pick_home. rewrite Hd, Hf.
  rewrite bool_decide_eq_false_2 by (by intros []). rewrite andb_false_r, decide_False by done.
  destruct (Z.eqb_spec (pc_region c) w); [congruence|].
  by destruct (Z.ltb_spec (three_quarters (pc_rtt c)) rtt); [|lia].
Qed.

Lemma pick_home_keeps_vanished_region_witness :
  pick_home (Some (mkProbeCache 5 100 0)) 10 {[4 := []]} [(4, 80)]
  = (Ok 5, Some (mkProbeCache 5 100 0)).
Proof.
  apply (pick_home_keeps_vanished_region (mkProbeCache 5 100 0) 10 {[4 := []]} [(4, 80)] 4 80);
    [reflexivity|vm_compute; lia|reflexivity|done|reflexivity].
Defined.
