(* ===== verification/WgPolicy.v ===== *)
(** The data-plane policy of wg-engine: IPv4 networks ([peer.rs]), the inbound
    packet filter ([policy.rs]), the header parsers the pump bases its
    decisions on ([pump.rs], [dispatch.rs]) and the ICMP packets of the test
    harness ([icmp.rs]).  The parsers index into untrusted packets, so they
    live in the [outcome] monad. *)

From S2P Require Import Prelude NetTypes Text.
#[local] Open Scope Z_scope.

(** ** peer.rs: Ipv4Cidr *)

Record Ipv4Cidr : Type := mkCidr { cidr_addr : Z; cidr_prefix : Z }.

#[global] Instance Ipv4Cidr_eq_dec : EqDecision Ipv4Cidr.
Proof. solve_decision. Defined.

(** [WgError::BadCidr] is the only error [parse] has. *)
Inductive WgError : Type :=
| BadCidr (s : list Z)
| TransportMismatch
| WgTransport.

Definition Ipv4Cidr_parse (s : list Z) : result WgError Ipv4Cidr :=
  '(addr_s, prefix_s) ← ok_or (BadCidr s) (split_once 47 s);
  addr ← ok_or (BadCidr s) (parse_ipv4 addr_s);
  prefix ← ok_or (BadCidr s) (parse_u8 prefix_s);
  if 32 <? prefix then Err (BadCidr s) else Ok (mkCidr addr prefix).

(** The shift is by [32 - prefix <= 31] bits, in range for every prefix that
    [parse] lets through. *)
Definition contains (c : Ipv4Cidr) (ip : Z) : bool :=
  let mask := if cidr_prefix c =? 0 then 0
              else wrap 32 (Z.shiftl (2 ^ 32 - 1) (32 - cidr_prefix c)) in
  let net := Z.land (cidr_addr c) mask in
  Z.land ip mask =? net.

(** ** policy.rs *)

Record NetPortRange : Type := mkRange { range_ip : Ipv4Cidr; port_first : Z; port_last : Z }.

Record FilterRule : Type := mkRule {
  src_ips : list Ipv4Cidr;
  dst_ports : list NetPortRange;
  ip_protocols : list Z
}.

Inductive InboundPolicy : Type :=
| DenyAll
| AllowAll
| Rules (rules : list FilterRule).

Definition is_empty {A} (l : list A) : bool := match l with [] => true | _ => false end.

Definition rule_matches (rule : FilterRule) (src dst protocol : Z) (dst_port : option Z) : bool :=
  if negb (existsb (fun cidr => contains cidr src) (src_ips rule)) then false
  else if negb (is_empty (ip_protocols rule)) && negb (existsb (Z.eqb protocol) (ip_protocols rule))
  then false
  else existsb (fun range =>
         if negb (contains (range_ip range) dst) then false
         else match dst_port with
              | Some port => (port_first range <=? port) && (port <=? port_last range)
              | None => port_first range =? 0
              end) (dst_ports rule).

Definition allows (p : InboundPolicy) (src dst protocol : Z) (dst_port : option Z) : bool :=
  match p with
  | DenyAll => false
  | AllowAll => true
  | Rules rules => existsb (fun rule => rule_matches rule src dst protocol dst_port) rules
  end.

(** ** pump.rs: Ipv4Meta, dispatch.rs: parse_ipv4_dst *)

Record Ipv4Meta : Type := mkMeta {
  meta_src : Z; meta_dst : Z; meta_protocol : Z; meta_dst_port : option Z
}.

Definition ipv4_at (pkt : list Z) (i : nat) : outcome Z :=
  a ← index pkt i; b ← index pkt (i + 1); c ← index pkt (i + 2); d ← index pkt (i + 3);
  Val (ipv4_new a b c d).

Definition parse_ipv4_meta (pkt : list Z) : outcome (option Ipv4Meta) :=
  if decide (length pkt < 20)%nat then Val None else
  b0 ← index pkt 0;
  if negb (Z.shiftr b0 4 =? 4) then Val None else
  let ihl := (Z.to_nat (Z.land b0 0x0f) * 4)%nat in
  if decide (ihl < 20 \/ length pkt < ihl)%nat then Val None else
  protocol ← index pkt 9;
  src ← ipv4_at pkt 12;
  dst ← ipv4_at pkt 16;
  if (protocol =? 6) || (protocol =? 17) then
    if decide (ihl + 4 <= length pkt)%nat then
      hi ← index pkt (ihl + 2);
      lo ← index pkt (ihl + 3);
      Val (Some (mkMeta src dst protocol (Some (from_be [hi; lo]))))
    else Val None
  else Val (Some (mkMeta src dst protocol None)).

Definition parse_ipv4_dst (pkt : list Z) : outcome (option Z) :=
  if decide (length pkt < 20)%nat then Val None else
  b0 ← index pkt 0;
  if negb (Z.shiftr b0 4 =? 4) then Val None else
  dst ← ipv4_at pkt 16;
  Val (Some dst).

(** ** icmp.rs *)

(** The 16-bit words of [data], the last one padded. *)
Fixpoint sum_words (data : list Z) : Z :=
  match data with
  | [] => 0
  | [b] => from_be [b; 0]
  | a :: b :: r => from_be [a; b] + sum_words r
  end.

(** [while (sum >> 16) != 0]. *)
Fixpoint fold_carries (fuel : nat) (sum : Z) : outcome Z :=
  match fuel with
  | O => OutOfFuel
  | S f => if Z.shiftr sum 16 =? 0 then Val sum
           else fold_carries f (Z.land sum 0xFFFF + Z.shiftr sum 16)
  end.

(** The accumulator is a [u32]; an overflowing [+=] panics. *)
Definition internet_checksum (data : list Z) : outcome Z :=
  let sum := sum_words data in
  if 2 ^ 32 <=? sum then Panicked else
  s ← fold_carries 4 sum;
  Val (wrap 16 (Z.lnot (wrap 16 s))).

Definition ip_header (total_len src dst csum : Z) : list Z :=
  [0x45; 0] ++ be_bytes 2 total_len ++ be_bytes 2 0 ++ be_bytes 2 0x4000 ++ [64; 1]
  ++ be_bytes 2 csum ++ ipv4_octets src ++ ipv4_octets dst.

Definition icmp_echo (ty ident seq csum : Z) (payload : list Z) : list Z :=
  [ty; 0] ++ be_bytes 2 csum ++ be_bytes 2 ident ++ be_bytes 2 seq ++ payload.

Definition build_icmp_echo_request (src dst ident seq : Z) (payload : list Z) : outcome (list Z) :=
  let total_len := 20 + 8 + Z.of_nat (length payload) in
  ip_csum ← internet_checksum (ip_header total_len src dst 0);
  icmp_csum ← internet_checksum (icmp_echo 8 ident seq 0 payload);
  Val (ip_header total_len src dst ip_csum ++ icmp_echo 8 ident seq icmp_csum payload).

Record EchoReply : Type := mkReply {
  reply_src : Z; reply_dst : Z; reply_ident : Z; reply_seq : Z; reply_payload : list Z
}.

Definition parse_icmp_echo_reply (pkt : list Z) : outcome (option EchoReply) :=
  if decide (length pkt < 28)%nat then Val None else
  b0 ← index pkt 0;
  if negb (Z.shiftr b0 4 =? 4) then Val None else
  let ihl := (Z.to_nat (Z.land b0 0x0f) * 4)%nat in
  if decide (ihl < 20 \/ length pkt < ihl + 8)%nat then Val None else
  proto ← index pkt 9;
  if negb (proto =? 1) then Val None else
  src ← ipv4_at pkt 12;
  dst ← ipv4_at pkt 16;
  icmp ← slice pkt ihl (length pkt);
  t ← index icmp 0;
  c ← index icmp 1;
  if negb (t =? 0) || negb (c =? 0) then Val None else
  i4 ← index icmp 4; i5 ← index icmp 5; i6 ← index icmp 6; i7 ← index icmp 7;
  payload ← slice icmp 8 (length icmp);
  Val (Some (mkReply src dst (from_be [i4; i5]) (from_be [i6; i7]) payload)).

(** * Specifications *)

(** [ip] lies in the network: its leading [prefix] bits are those of the
    network address. *)
Definition in_net (c : Ipv4Cidr) (ip : Z) : Prop :=
  ip / 2 ^ (32 - cidr_prefix c) = cidr_addr c / 2 ^ (32 - cidr_prefix c).

Definition cidr_wf (c : Ipv4Cidr) : Prop := ipv4 (cidr_addr c) /\ 0 <= cidr_prefix c <= 32.

Definition range_wf (r : NetPortRange) : Prop :=
  cidr_wf (range_ip r) /\ 0 <= port_first r <= port_last r.

Definition rule_wf (r : FilterRule) : Prop :=
  Forall cidr_wf (src_ips r) /\ Forall range_wf (dst_ports r).

(** What a filter rule of the control plane admits; a portless protocol counts
    as port 0. *)
Definition rule_permits (r : FilterRule) (src dst protocol : Z) (dst_port : option Z) : Prop :=
  (exists c, c ∈ src_ips r /\ in_net c src) /\
  (ip_protocols r = [] \/ protocol ∈ ip_protocols r) /\
  (exists d, d ∈ dst_ports r /\ in_net (range_ip d) dst /\
             port_first d <= default 0 dst_port <= port_last d).

(** * Lemmas *)

Lemma land_mask x k : 0 <= x < 2 ^ 32 -> 0 <= k <= 32 ->
  Z.land x (wrap 32 (Z.shiftl (2 ^ 32 - 1) k)) = x / 2 ^ k * 2 ^ k.
Proof.
  intros Hx Hk. rewrite <- Z.shiftr_div_pow2, <- Z.shiftl_mul_pow2 by lia.
  apply Z.bits_inj'. intros n Hn. rewrite Z.land_spec. unfold wrap.
  rewrite Z.shiftl_spec by lia.
  destruct (Z.ltb_spec n 32) as [Hlt|Hge].
  - rewrite Z.mod_pow2_bits_low, Z.shiftl_spec by lia.
    destruct (Z.ltb_spec n k) as [Hnk|Hnk].
    + rewrite !(Z.testbit_neg_r _ (n - k)) by lia. apply andb_false_r.
    + rewrite Z.shiftr_spec by lia. replace (n - k + k) with n by lia.
      change (2 ^ 32 - 1) with (Z.ones 32).
      rewrite Z.ones_spec_low by lia. apply andb_true_r.
  - rewrite Z.mod_pow2_bits_high, andb_false_r by lia.
    rewrite Z.shiftr_spec by lia. replace (n - k + k) with n by lia.
    symmetry. rewrite <- (Z.mod_small x (2 ^ 32)) by lia. apply Z.mod_pow2_bits_high. lia.
Qed.

(** The mask test is membership of the network. *)
Lemma contains_spec c ip : cidr_wf c -> ipv4 ip -> contains c ip = true <-> in_net c ip.
Proof.
  intros [Ha Hp] Hi. unfold ipv4, u32 in *. unfold contains, in_net.
  destruct (Z.eqb_spec (cidr_prefix c) 0) as [->|Hne].
  - rewrite !Z.land_0_r. change (32 - 0) with 32. rewrite !Z.div_small by lia. done.
  - rewrite !land_mask by lia. rewrite Z.eqb_eq.
    split; [|by intros ->]. intros H. apply Z.mul_cancel_r in H; [done|].
    apply Z.pow_nonzero; lia.
Qed.

Lemma contains_false c ip : cidr_wf c -> ipv4 ip -> contains c ip = false <-> ~ in_net c ip.
Proof. intros. rewrite <- contains_spec by done. by destruct (contains c ip). Qed.

Lemma existsb_elem {A} (f : A -> bool) l : existsb f l = true <-> exists x, x ∈ l /\ f x = true.
Proof. rewrite existsb_exists. by setoid_rewrite list_elem_of_In. Qed.

Lemma rule_matches_spec r src dst protocol dst_port :
  rule_wf r -> ipv4 src -> ipv4 dst ->
  rule_matches r src dst protocol dst_port = true <-> rule_permits r src dst protocol dst_port.
Proof.
  intros [Hs Hd] Hsrc Hdst. rewrite list.Forall_forall in Hs. rewrite list.Forall_forall in Hd.
  unfold rule_matches, rule_permits.
  assert (E1 : existsb (fun c => contains c src) (src_ips r) = true
               <-> exists c, c ∈ src_ips r /\ in_net c src).
  { rewrite existsb_elem. split; intros (c & Hc & H); exists c; (split; [done|]);
      by apply contains_spec in H || apply contains_spec; auto. }
  assert (E2 : negb (is_empty (ip_protocols r)) && negb (existsb (Z.eqb protocol) (ip_protocols r)) = false
               <-> ip_protocols r = [] \/ protocol ∈ ip_protocols r).
  { rewrite andb_false_iff, !negb_false_iff, existsb_elem.
    assert (is_empty (ip_protocols r) = true <-> ip_protocols r = []) as -> by by destruct (ip_protocols r).
    setoid_rewrite Z.eqb_eq. split; [intros [?|(x & Hx & ->)]; auto|].
    intros [?|H]; [by left|right; by exists protocol]. }
  rewrite <- E1, <- E2. clear E1 E2.
  destruct (existsb (fun c => contains c src) (src_ips r)); simpl; [|by split; [|intros [? _]]].
  destruct (_ && _); [by split; [|intros (_ & ? & _)]|].
  rewrite existsb_elem. split.
  - intros (d & Hin & H). split; [done|]. split; [done|]. exists d. split; [done|].
    destruct (contains (range_ip d) dst) eqn:Ec; [|done]. simpl in H.
    destruct (Hd _ Hin) as [Hw Hf]. apply contains_spec in Ec; [|done..]. split; [done|].
    destruct dst_port; simpl; lia.
  - intros (_ & _ & d & Hin & Hn & Hr). exists d. split; [done|].
    destruct (Hd _ Hin) as [Hw Hf]. apply contains_spec in Hn as ->; [|done..]. simpl.
    destruct dst_port; simpl in *; lia.
Qed.

(** ** Header parsers *)

Lemma ipv4_at_total pkt i : (i + 4 <= length pkt)%nat -> exists a, ipv4_at pkt i = Val a.
Proof.
  intros H. unfold ipv4_at.
  destruct (index_lt pkt i) as [? ->]; [lia|]. destruct (index_lt pkt (i + 1)) as [? ->]; [lia|].
  destruct (index_lt pkt (i + 2)) as [? ->]; [lia|].
  destruct (index_lt pkt (i + 3)) as [? ->]; [lia|]. simpl. eauto.
Qed.

Lemma ipv4_at_app l ip r i : ipv4 ip -> length l = i -> ipv4_at (l ++ ipv4_octets ip ++ r) i = Val ip.
Proof.
  intros Hip <-.
  assert (Hv : from_be (ipv4_octets ip) = ip) by by apply from_be_be_bytes_small.
  assert (Hl : length (ipv4_octets ip) = 4%nat) by apply length_be_bytes.
  destruct (ipv4_octets ip) as [|a [|b [|c [|d [|]]]]]; try done.
  assert (Hi : forall k x, ([a; b; c; d] ++ r) !! k = Some x ->
                      index (l ++ [a; b; c; d] ++ r) (length l + k) = Val x).
  { intros k x Hx. apply index_val. by rewrite lookup_app_r, Nat.add_comm, Nat.add_sub by lia. }
  unfold ipv4_at. rewrite <- (Nat.add_0_r (length l)) at 1.
  rewrite (Hi 0%nat a), (Hi 1%nat b), (Hi 2%nat c), (Hi 3%nat d) by done. simpl. f_equal. apply Hv.
Qed.

Lemma parse_ipv4_meta_total pkt : exists r, parse_ipv4_meta pkt = Val r.
Proof.
  unfold parse_ipv4_meta. case_decide; [eauto|].
  destruct (index_lt pkt 0) as [b0 ->]; [lia|]. simpl.
  destruct (negb _); [eauto|]. case_decide as Hi; [eauto|].
  destruct (index_lt pkt 9) as [p ->]; [lia|]. simpl.
  destruct (ipv4_at_total pkt 12) as [src ->]; [lia|].
  destruct (ipv4_at_total pkt 16) as [dst ->]; [lia|]. simpl.
  destruct (_ || _); [|eauto]. case_decide; [|eauto].
  destruct (index_lt pkt (Z.to_nat (Z.land b0 15) * 4 + 2)) as [hi ->]; [lia|].
  destruct (index_lt pkt (Z.to_nat (Z.land b0 15) * 4 + 3)) as [lo ->]; [lia|]. simpl. eauto.
Qed.

Lemma parse_ipv4_dst_total pkt : exists r, parse_ipv4_dst pkt = Val r.
Proof.
  unfold parse_ipv4_dst. case_decide; [eauto|].
  destruct (index_lt pkt 0) as [b0 ->]; [lia|]. simpl. destruct (negb _); [eauto|].
  destruct (ipv4_at_total pkt 16) as [dst ->]; [lia|]. simpl. eauto.
Qed.

Lemma parse_icmp_echo_reply_total pkt : exists r, parse_icmp_echo_reply pkt = Val r.
Proof.
  unfold parse_icmp_echo_reply. case_decide; [eauto|].
  destruct (index_lt pkt 0) as [b0 ->]; [lia|]. simpl. destruct (negb _); [eauto|].
  case_decide as Hi; [eauto|]. destruct (index_lt pkt 9) as [p ->]; [lia|]. simpl.
  destruct (negb _); [eauto|].
  destruct (ipv4_at_total pkt 12) as [src ->]; [lia|].
  destruct (ipv4_at_total pkt 16) as [dst ->]; [lia|]. simpl.
  rewrite slice_val by lia. simpl.
  set (icmp := take _ _). assert (8 <= length icmp)%nat.
  { subst icmp. rewrite length_take, length_drop. lia. }
  destruct (index_lt icmp 0) as [? ->]; [lia|]. destruct (index_lt icmp 1) as [? ->]; [lia|].
  simpl. destruct (_ || _); [eauto|].
  destruct (index_lt icmp 4) as [? ->]; [lia|]. destruct (index_lt icmp 5) as [? ->]; [lia|].
  destruct (index_lt icmp 6) as [? ->]; [lia|]. destruct (index_lt icmp 7) as [? ->]; [lia|].
  simpl. rewrite slice_val by lia. simpl. eauto.
Qed.

(** ** Checksum *)

Lemma sum_words_app_even l r :
  (length l mod 2 = 0)%nat -> sum_words (l ++ r) = sum_words l + sum_words r.
Proof.
  induction l as [l IH] using (induction_ltof1 _ (@length Z)). unfold ltof in IH.
  destruct l as [|a [|b l]]; intros H; [done|done|].
  simpl. rewrite IH; [lia|simpl; lia|].
  simpl length in H. replace (S (S (length l))) with (length l + 1 * 2)%nat in H by lia.
  by rewrite Nat.Div0.mod_add in H.
Qed.

Lemma sum_words_bound l : bytes_wf l -> 0 <= sum_words l <= 65535 * Z.of_nat (length l).
Proof.
  induction l as [l IH] using (induction_ltof1 _ (@length Z)). unfold ltof in IH.
  destruct l as [|a [|b l]]; intros H; [simpl; lia| |].
  - apply Forall_cons_1 in H as [Ha _]. unfold u8 in Ha.
    change (sum_words [a]) with (from_be [a; 0]). unfold from_be. simpl length. lia.
  - apply Forall_cons_1 in H as [Ha [Hb H]%Forall_cons_1]. unfold u8 in Ha, Hb.
    change (sum_words (a :: b :: l)) with (from_be [a; b] + sum_words l).
    specialize (IH l ltac:(simpl; lia) H). unfold from_be. simpl length. lia.
Qed.

(** End-around carry terminates, and keeps the sum modulo [0xFFFF]. *)
Lemma fold_carries_spec s :
  0 <= s < 2 ^ 32 ->
  exists r, fold_carries 4 s = Val r /\ 0 <= r < 2 ^ 16 /\ r mod 65535 = s mod 65535 /\
            (0 < s -> 0 < r).
Proof.
  intros Hs.
  assert (step : forall f x, 0 <= x ->
    fold_carries (S f) x = if x / 65536 =? 0 then Val x
                           else fold_carries f (x mod 65536 + x / 65536)).
  { intros f x Hx. cbn [fold_carries]. change 0xFFFF with (Z.ones 16).
    by rewrite Z.land_ones, Z.shiftr_div_pow2 by lia. }
  rewrite step by lia. destruct (Z.eqb_spec (s / 65536) 0); [exists s; split_and!; try done; lia_div|].
  set (t := s mod 65536 + s / 65536). assert (Ht : 0 < t <= 131070 /\ t mod 65535 = s mod 65535) by (subst t; lia_div).
  rewrite step by lia. destruct (Z.eqb_spec (t / 65536) 0); [exists t; split_and!; try done; lia_div|].
  set (u := t mod 65536 + t / 65536). assert (Hu : 0 < u <= 65535 /\ u mod 65535 = s mod 65535) by (subst u; lia_div).
  rewrite step by lia. rewrite Z.div_small by lia. exists u. split_and!; try done; lia_div.
Qed.

Lemma wrap_lnot16 s : 0 <= s < 2 ^ 16 -> wrap 16 (Z.lnot (wrap 16 s)) = 65535 - s.
Proof.
  intros H. unfold wrap. rewrite (Z.mod_small s) by lia. unfold Z.lnot.
  replace (Z.pred (- s)) with (65535 - s + (-1) * 2 ^ 16) by lia.
  rewrite Z.mod_add by lia. apply Z.mod_small. lia.
Qed.

(** The checksum of data of at most 64 KiB, as its defining equation. *)
Lemma internet_checksum_spec data :
  bytes_wf data -> Z.of_nat (length data) <= 65536 ->
  exists c, internet_checksum data = Val c /\ u16 c /\
            (sum_words data + c) mod 65535 = 0 /\ (0 < sum_words data -> c < 65535).
Proof.
  intros Hwf Hl. pose proof (sum_words_bound data Hwf). unfold internet_checksum.
  rewrite (proj2 (Z.leb_gt _ _)) by lia.
  destruct (fold_carries_spec (sum_words data)) as (r & -> & Hr & Hm & Hp); [lia|].
  simpl. rewrite wrap_lnot16 by done. eexists. split; [done|]. unfold u16. split_and!; lia_div.
Qed.

Lemma checksum_zero data :
  bytes_wf data -> Z.of_nat (length data) <= 65536 -> 0 < sum_words data ->
  sum_words data mod 65535 = 0 -> internet_checksum data = Val 0.
Proof.
  intros Hwf Hl Hpos Hz. destruct (internet_checksum_spec data) as (c & -> & Hc & Hm & Hlt); [done..|].
  unfold u16 in *. specialize (Hlt Hpos). f_equal. lia_div.
Qed.

(** ** Reading back the built request *)

Lemma bytes_wf_ip_header tl src dst c : bytes_wf (ip_header tl src dst c).
Proof.
  unfold ip_header, ipv4_octets.
  repeat (apply bytes_wf_app; split); auto with bytes; wf_list; unfold u8; lia.
Qed.

Lemma bytes_wf_icmp_echo ty ident seq c payload :
  u8 ty -> bytes_wf payload -> bytes_wf (icmp_echo ty ident seq c payload).
Proof.
  intros. unfold icmp_echo. repeat (apply bytes_wf_app; split); auto with bytes.
  wf_list; [done|unfold u8; lia].
Qed.

Lemma sum_words_be2 z r : 0 <= z < 2 ^ 16 -> sum_words (be_bytes 2 z ++ r) = z + sum_words r.
Proof.
  intros H. rewrite sum_words_app_even by (by rewrite length_be_bytes). f_equal.
  rewrite <- (from_be_be_bytes_small 2 z H) at 2.
  pose proof (length_be_bytes 2 z). destruct (be_bytes 2 z) as [|a [|b [|]]]; try done.
  simpl. lia.
Qed.

(** Writing a checksum [c] into the zeroed field adds [c] to the sum. *)
Lemma sum_field l c r :
  (length l mod 2 = 0)%nat -> u16 c ->
  sum_words (l ++ be_bytes 2 c ++ r) = sum_words (l ++ be_bytes 2 0 ++ r) + c.
Proof.
  unfold u16. intros Hl Hc. rewrite !(sum_words_app_even l) by done.
  rewrite !sum_words_be2 by lia. lia.
Qed.

Definition ip_header_front (total_len : Z) : list Z :=
  [0x45; 0] ++ be_bytes 2 total_len ++ be_bytes 2 0 ++ be_bytes 2 0x4000 ++ [64; 1].

Lemma ip_header_split tl src dst c :
  ip_header tl src dst c
  = ip_header_front tl ++ be_bytes 2 c ++ ipv4_octets src ++ ipv4_octets dst.
Proof. unfold ip_header, ip_header_front. by rewrite <- !app_assoc. Qed.

(** A block whose checksum field holds the checksum of the block with that
    field zeroed verifies to zero. *)
Lemma checksum_verifies l r c :
  bytes_wf (l ++ be_bytes 2 0 ++ r) -> Z.of_nat (length (l ++ be_bytes 2 0 ++ r)) <= 65536 ->
  (length l mod 2 = 0)%nat -> 0 < sum_words l ->
  internet_checksum (l ++ be_bytes 2 0 ++ r) = Val c ->
  internet_checksum (l ++ be_bytes 2 c ++ r) = Val 0.
Proof.
  intros Hwf Hlen Hl Hpos Hc.
  destruct (internet_checksum_spec _ Hwf Hlen) as (c' & E & Hu & Hm & _).
  rewrite Hc in E. injection E as <-.
  apply checksum_zero.
  - rewrite !bytes_wf_app in *. destruct Hwf as (? & _ & ?).
    split_and!; auto with bytes.
  - simpl_len. lia.
  - rewrite sum_words_app_even by done. rewrite !bytes_wf_app in Hwf.
    pose proof (sum_words_bound (be_bytes 2 c ++ r)). rewrite bytes_wf_app in *.
    enough (0 <= sum_words (be_bytes 2 c ++ r)) by lia. apply sum_words_bound.
    apply bytes_wf_app. split; [auto with bytes|tauto].
  - by rewrite sum_field.
Qed.

Lemma ip_header_reads tl src dst c rest (pkt := ip_header tl src dst c ++ rest) :
  ipv4 src -> ipv4 dst ->
  index pkt 0 = Val 0x45 /\ index pkt 9 = Val 1 /\
  ipv4_at pkt 12 = Val src /\ ipv4_at pkt 16 = Val dst.
Proof.
  intros Hs Hd.
  assert (E12 : pkt = (ip_header_front tl ++ be_bytes 2 c) ++ ipv4_octets src ++ ipv4_octets dst ++ rest).
  { subst pkt. rewrite ip_header_split. by rewrite <- !app_assoc. }
  assert (E16 : pkt = (ip_header_front tl ++ be_bytes 2 c ++ ipv4_octets src) ++ ipv4_octets dst ++ rest).
  { subst pkt. rewrite ip_header_split. by rewrite <- !app_assoc. }
  split_and!; [done|done| |].
  - rewrite E12. by apply ipv4_at_app.
  - rewrite E16. by apply ipv4_at_app.
Qed.

(** * Properties *)

(** the inbound filter admits exactly what the control plane's rules
    permit: some rule has the source in one of its networks, covers the
    protocol, and has a destination network and port range that contain the
    packet's destination, a portless protocol counting as port 0. *)
Theorem policy_allows_spec rules src dst protocol dst_port :
  Forall rule_wf rules -> ipv4 src -> ipv4 dst ->
  allows (Rules rules) src dst protocol dst_port = true <->
  exists r, r ∈ rules /\ rule_permits r src dst protocol dst_port.
Proof.
  intros Hwf Hs Hd. rewrite list.Forall_forall in Hwf. cbn [allows]. rewrite existsb_elem.
  split; intros (r & Hr & H); exists r; (split; [done|]).
  - apply rule_matches_spec in H; auto.
  - apply rule_matches_spec; auto.
Qed.

Lemma policy_allows_spec_witness :
  let ssh := mkRule [mkCidr (ipv4_new 100 64 0 0) 10] [mkRange (mkCidr 0 0) 22 22] [] in
  allows (Rules [ssh]) (ipv4_new 100 100 1 2) (ipv4_new 100 64 0 1) 1 None = false /\
  exists r, r ∈ [ssh] /\ rule_permits r (ipv4_new 100 100 1 2) (ipv4_new 100 64 0 1) 6 (Some 22).
Proof.
  intros ssh. split; [reflexivity|].
  apply (policy_allows_spec [ssh]).
  - repeat constructor; vm_compute; congruence.
  - split; vm_compute; congruence.
  - split; vm_compute; congruence.
  - reflexivity.
Defined.

(** None of the parsers that read a decrypted or outgoing packet can index
    out of range, whatever the packet holds. *)
Theorem packet_parsers_total pkt :
  (exists m, parse_ipv4_meta pkt = Val m) /\ (exists d, parse_ipv4_dst pkt = Val d) /\
  (exists r, parse_icmp_echo_reply pkt = Val r).
Proof.
  split_and!; [apply parse_ipv4_meta_total|apply parse_ipv4_dst_total|
               apply parse_icmp_echo_reply_total].
Qed.

(** The CIDR parser accepts the display form of every network of at most 32
    bits and returns that network; whatever it accepts is a well-formed
    network. *)
Theorem cidr_parse_roundtrip c :
  cidr_wf c ->
  Ipv4Cidr_parse (show_ipv4 (cidr_addr c) ++ 47 :: dec (cidr_prefix c)) = Ok c /\
  (forall s c', Ipv4Cidr_parse s = Ok c' -> cidr_wf c').
Proof.
  intros [Ha Hp]. split.
  - unfold Ipv4Cidr_parse. rewrite split_once_app.
    + simpl. rewrite parse_ipv4_show by done. simpl. unfold parse_u8.
      rewrite from_str_radix_dec by lia. simpl. rewrite (proj2 (Z.ltb_ge _ _)) by lia.
      by destruct c.
    + unfold show_ipv4. pose proof (be_bytes_wf 4 (cidr_addr c)) as Hwf. unfold ipv4_octets.
      destruct (be_bytes 4 _) as [|x [|y [|z [|w [|]]]]]; try apply not_elem_of_nil.
      unfold bytes_wf, u8 in Hwf. rewrite !list.Forall_cons in Hwf.
      rewrite !not_elem_of_app, !list_elem_of_singleton.
      split_and!; try lia; apply dec_no_char; lia.
  - intros s c' H. unfold Ipv4Cidr_parse in H.
    destruct (split_once 47 s) as [[a b]|]; [|done]. simpl in H.
    destruct (parse_ipv4 a) as [ip|] eqn:E1; [|done]. simpl in H.
    destruct (parse_u8 b) as [p|] eqn:E2; [|done]. simpl in H.
    destruct (Z.ltb_spec 32 p); simplify_eq. apply parse_ipv4_wf in E1.
    apply from_str_radix_bound in E2; [|lia..]. split; simpl; [done|lia].
Qed.

Lemma cidr_parse_roundtrip_witness :
  show_ipv4 (ipv4_new 100 64 0 0) ++ 47 :: dec 10 = bs "100.64.0.0/10" /\
  Ipv4Cidr_parse (show_ipv4 (ipv4_new 100 64 0 0) ++ 47 :: dec 10)
  = Ok (mkCidr (ipv4_new 100 64 0 0) 10).
Proof.
  split; [vm_compute; reflexivity|].
  apply (cidr_parse_roundtrip (mkCidr (ipv4_new 100 64 0 0) 10)).
  split; [split; vm_compute; congruence|simpl; lia].
Defined.

(** a built echo request is a valid packet: it is built without overflow,
    both checksums verify, and the engine's own parsers read back the
    addresses and the portless ICMP protocol. *)
Theorem icmp_request_valid src dst ident seq payload :
  ipv4 src -> ipv4 dst -> bytes_wf payload -> Z.of_nat (length payload) <= 65507 ->
  exists pkt, build_icmp_echo_request src dst ident seq payload = Val pkt /\
    internet_checksum (take 20 pkt) = Val 0 /\ internet_checksum (drop 20 pkt) = Val 0 /\
    parse_ipv4_dst pkt = Val (Some dst) /\
    parse_ipv4_meta pkt = Val (Some (mkMeta src dst 1 None)).
Proof.
  intros Hs Hd Hp Hl. unfold build_icmp_echo_request.
  set (tl := 20 + 8 + Z.of_nat (length payload)).
  assert (L1 : forall c, length (ip_header tl src dst c) = 20%nat) by done.
  pose proof (bytes_wf_ip_header tl src dst 0) as W1.
  pose proof (bytes_wf_icmp_echo 8 ident seq 0 payload ltac:(unfold u8; lia) Hp) as W2.
  destruct (internet_checksum_spec _ W1) as (c1 & E1 & _); [rewrite L1; lia|].
  destruct (internet_checksum_spec _ W2) as (c2 & E2 & _).
  { unfold icmp_echo. simpl_len. lia. }
  rewrite E1, E2. unfold mbind, outcome_bind. eexists. split; [done|].
  destruct (ip_header_reads tl src dst c1 (icmp_echo 8 ident seq c2 payload)) as (R0 & R9 & R12 & R16); [done..|].
  assert (Hlen : (20 <= length (ip_header tl src dst c1 ++ icmp_echo 8 ident seq c2 payload))%nat)
    by (rewrite length_app, L1; lia).
  rewrite take_app_len, drop_app_len by done. split_and!.
  - rewrite ip_header_split in *. apply checksum_verifies in E1; [done..|simpl_len; lia|done|].
    unfold ip_header_front. rewrite (sum_words_app_even [69; 0]) by done.
    match goal with |- 0 < _ + sum_words ?x => pose proof (sum_words_bound x) end.
    assert (0 < sum_words [69; 0]) by done.
    enough (0 <= sum_words (be_bytes 2 tl ++ be_bytes 2 0 ++ be_bytes 2 16384 ++ [64; 1])) by lia.
    apply sum_words_bound. repeat (apply bytes_wf_app; split); auto with bytes.
    wf_list; unfold u8; lia.
  - unfold icmp_echo in *. apply checksum_verifies in E2; [done..| |done|done].
    simpl_len. lia.
  - unfold parse_ipv4_dst. rewrite decide_False by lia. rewrite R0, R16. done.
  - unfold parse_ipv4_meta. rewrite decide_False by lia. rewrite R0, R9, R12, R16.
    unfold mbind, outcome_bind. change (negb (Z.shiftr 69 4 =? 4)) with false.
    change (Z.to_nat (Z.land 69 15) * 4)%nat with 20%nat. cbv iota.
    rewrite decide_False by lia. done.
Qed.

Lemma icmp_request_valid_witness :
  exists pkt, build_icmp_echo_request (ipv4_new 10 6 0 2) (ipv4_new 10 6 0 1) 0xBEEF 7 [112; 105; 110; 103] = Val pkt /\
    internet_checksum (take 20 pkt) = Val 0 /\ internet_checksum (drop 20 pkt) = Val 0 /\
    parse_ipv4_dst pkt = Val (Some (ipv4_new 10 6 0 1)) /\
    parse_ipv4_meta pkt = Val (Some (mkMeta (ipv4_new 10 6 0 2) (ipv4_new 10 6 0 1) 1 None)).
Proof.
  apply icmp_request_valid.
  - split; vm_compute; congruence.
  - split; vm_compute; congruence.
  - repeat constructor; vm_compute; congruence.
  - vm_compute. congruence.
Defined.
