(* ===== verification/WgEngine.v ===== *)
(** The WireGuard engine of wg-engine: the three-index peer table
    ([indices.rs]), the engine operations ([lib.rs]), inbound and outbound
    dispatch ([dispatch.rs]) and the pump ([pump.rs]).

    Peers are [Arc<Peer>] objects reachable from three tables and mutated in
    place, so the model keeps a store of peers and lets the tables hold
    pointers into it.  The Noise state machine of a peer (boringtun's [Tunn])
    is the interface [TunnOps]; what the pump relies on is [TunnLaws]. *)

From Stdlib Require Import Sorted.
From S2P Require Import Prelude NetTypes WgPolicy.
#[local] Open Scope Z_scope.

(** ** peer.rs *)

Inductive TransportAddr : Type :=
| Udp (sa : SocketAddr)
| Derp (region : Z) (peer_pubkey : list Z).

#[global] Instance TransportAddr_eq_dec : EqDecision TransportAddr.
Proof. solve_decision. Defined.

Definition is_derp (a : TransportAddr) : bool := match a with Derp _ _ => true | Udp _ => false end.
Definition is_udp (a : TransportAddr) : bool := match a with Udp _ => true | Derp _ _ => false end.

Record PeerStats : Type := mkStats {
  handshakes_started : Z; handshakes_completed : Z; rx_bytes : Z; tx_bytes : Z;
  last_rx : option Z; last_handshake : option Z
}.
Definition stats_default : PeerStats := mkStats 0 0 0 0 None None.

(** What a [Tunn] call hands back. *)
Inductive TunnResult : Type :=
| TDone
| TErr
| WriteToNetwork (b : list Z)
| WriteToTunnelV4 (b : list Z)
| WriteToTunnelV6 (b : list Z).

(** The operations of boringtun's [Tunn] the engine calls; a result of [None]
    is a panic inside the call. *)
Class TunnOps (T : Type) : Type := {
  tunn_new : list Z -> list Z -> option (list Z) -> option Z -> Z -> T;
  decapsulate : T -> list Z -> T * option TunnResult;
  encapsulate : T -> list Z -> T * option TunnResult;
  update_timers : T -> T * option TunnResult
}.

(** What the pump relies on: draining with an empty datagram works off a finite
    queue, and encapsulation never yields plaintext. *)
Class TunnLaws (T : Type) `{TunnOps T} : Type := {
  pending : T -> nat;
  drain_decreases : forall t t' r,
    decapsulate t [] = (t', Some r) -> r <> TDone -> r <> TErr -> (pending t' < pending t)%nat;
  encapsulate_to_network : forall t pkt t' b,
    encapsulate t pkt <> (t', Some (WriteToTunnelV4 b)) /\
    encapsulate t pkt <> (t', Some (WriteToTunnelV6 b))
}.

Record Peer (T : Type) : Type := mkPeer {
  pubkey : list Z;
  our_index : Z;
  allowed_ips : list Ipv4Cidr;
  transport_addr : option TransportAddr;
  auth_src : option (TransportAddr * Z);
  tunn : T;
  stats : PeerStats
}.
Arguments mkPeer {T}. Arguments pubkey {T}. Arguments our_index {T}. Arguments allowed_ips {T}.
Arguments transport_addr {T}. Arguments auth_src {T}. Arguments tunn {T}. Arguments stats {T}.

Definition AUTH_SRC_TRUST : Z := 6500 * 1000000.

Definition set_transport_addr {T} (a : TransportAddr) (p : Peer T) : Peer T :=
  mkPeer (pubkey p) (our_index p) (allowed_ips p) (Some a) (auth_src p) (tunn p) (stats p).
Definition set_auth_src {T} (a : TransportAddr) (now : Z) (p : Peer T) : Peer T :=
  mkPeer (pubkey p) (our_index p) (allowed_ips p) (transport_addr p) (Some (a, now)) (tunn p) (stats p).
Definition set_tunn {T} (t : T) (p : Peer T) : Peer T :=
  mkPeer (pubkey p) (our_index p) (allowed_ips p) (transport_addr p) (auth_src p) t (stats p).
Definition add_rx {T} (n now : Z) (p : Peer T) : Peer T :=
  let s := stats p in
  mkPeer (pubkey p) (our_index p) (allowed_ips p) (transport_addr p) (auth_src p) (tunn p)
    (mkStats (handshakes_started s) (handshakes_completed s) (rx_bytes s + n) (tx_bytes s)
       (Some now) (last_handshake s)).
Definition add_tx {T} (n : Z) (p : Peer T) : Peer T :=
  let s := stats p in
  mkPeer (pubkey p) (our_index p) (allowed_ips p) (transport_addr p) (auth_src p) (tunn p)
    (mkStats (handshakes_started s) (handshakes_completed s) (rx_bytes s) (tx_bytes s + n)
       (last_rx s) (last_handshake s)).

(** [auth_src_fresh]; [duration_since] saturates at zero. *)
Definition auth_src_fresh {T} (p : Peer T) (now : Z) : option TransportAddr :=
  match auth_src p with
  | Some (addr, at_) => if Z.max 0 (now - at_) <? AUTH_SRC_TRUST then Some addr else None
  | None => None
  end.

Record PeerConfig : Type := mkPeerConfig {
  cfg_pubkey : list Z;
  cfg_preshared_key : option (list Z);
  cfg_keepalive : option Z;
  cfg_allowed_ips : list Ipv4Cidr;
  cfg_endpoint : option TransportAddr
}.

(** ** indices.rs and lib.rs: the engine *)

Record Engine (T : Type) : Type := mkEngine {
  store : gmap nat (Peer T);          (** the [Arc<Peer>] objects *)
  next_ptr : nat;
  by_pubkey : gmap (list Z) nat;
  by_idx : gmap Z nat;
  by_ip : list (Ipv4Cidr * nat);
  inbound_policy : InboundPolicy;
  next_idx : Z;
  our_static_secret : list Z
}.
Arguments mkEngine {T}. Arguments store {T}. Arguments next_ptr {T}. Arguments by_pubkey {T}.
Arguments by_idx {T}. Arguments by_ip {T}. Arguments inbound_policy {T}. Arguments next_idx {T}.
Arguments our_static_secret {T}.

Definition with_store {T} (e : Engine T) (s : gmap nat (Peer T)) : Engine T :=
  mkEngine s (next_ptr e) (by_pubkey e) (by_idx e) (by_ip e) (inbound_policy e) (next_idx e)
    (our_static_secret e).

(** A store through a shared [&Peer]. *)
Definition upd {T} (p : nat) (f : Peer T -> Peer T) (e : Engine T) : Engine T :=
  with_store e (alter f p (store e)).
#[global] Arguments upd : simpl never.

(** [sort_by(|a, b| b.0.prefix.cmp(&a.0.prefix))]: stable, longest prefix
    first. *)
Fixpoint insert_desc (x : Ipv4Cidr * nat) (l : list (Ipv4Cidr * nat)) : list (Ipv4Cidr * nat) :=
  match l with
  | [] => [x]
  | y :: r => if cidr_prefix y.1 <=? cidr_prefix x.1 then x :: l else y :: insert_desc x r
  end.
Definition sort_desc (l : list (Ipv4Cidr * nat)) : list (Ipv4Cidr * nat) := foldr insert_desc [] l.

Definition insert_peer (ips : list Ipv4Cidr) (p : nat) (entries : list (Ipv4Cidr * nat)) :=
  sort_desc (entries ++ map (fun c => (c, p)) ips).

(** [retain(|(_, p)| p.pubkey != target)] *)
Definition pubkey_of {T} (s : gmap nat (Peer T)) (p : nat) : option (list Z) := pubkey <$> s !! p.
Definition remove_entries {T} (s : gmap nat (Peer T)) (target : list Z)
    (entries : list (Ipv4Cidr * nat)) : list (Ipv4Cidr * nat) :=
  filter (fun e => pubkey_of s e.2 <> Some target) entries.

Definition allowed_lookup (entries : list (Ipv4Cidr * nat)) (ip : Z) : option nat :=
  snd <$> List.find (fun e => contains e.1 ip) entries.

Definition indices_insert {T} (peer : Peer T) (e : Engine T) : Engine T :=
  let p := next_ptr e in
  mkEngine (<[p := peer]> (store e)) (S p)
    (<[pubkey peer := p]> (by_pubkey e)) (<[our_index peer := p]> (by_idx e))
    (insert_peer (allowed_ips peer) p (by_ip e))
    (inbound_policy e) (next_idx e) (our_static_secret e).

Definition indices_remove {T} (key : list Z) (e : Engine T) : Engine T :=
  match by_pubkey e !! key with
  | None => e
  | Some p =>
      match store e !! p with
      | None => e
      | Some peer =>
          mkEngine (store e) (next_ptr e) (delete key (by_pubkey e))
            (delete (our_index peer) (by_idx e))
            (remove_entries (store e) (pubkey peer) (by_ip e))
            (inbound_policy e) (next_idx e) (our_static_secret e)
      end
  end.

Definition empty_engine {T} (secret : list Z) : Engine T :=
  mkEngine ∅ 0 ∅ ∅ [] DenyAll 1 secret.

Section Ops.
Context {T : Type} `{TunnOps T}.

Definition upsert_peer (cfg : PeerConfig) (e : Engine T) : Engine T :=
  let existing := p ← by_pubkey e !! cfg_pubkey cfg; peer ← store e !! p; Some (p, peer) in
  let rebuild :=
    let e1 := indices_remove (cfg_pubkey cfg) e in
    let idx := next_idx e1 in
    let e2 := mkEngine (store e1) (next_ptr e1) (by_pubkey e1) (by_idx e1) (by_ip e1)
                (inbound_policy e1) (wrap 32 (idx + 1)) (our_static_secret e1) in
    let t := tunn_new (our_static_secret e2) (cfg_pubkey cfg) (cfg_preshared_key cfg)
               (cfg_keepalive cfg) idx in
    indices_insert (mkPeer (cfg_pubkey cfg) idx (cfg_allowed_ips cfg) (cfg_endpoint cfg) None t
                      stats_default) e2 in
  match existing with
  | Some (p, peer) =>
      if decide (allowed_ips peer = cfg_allowed_ips cfg) then
        match cfg_endpoint cfg with
        | Some ep => upd p (set_transport_addr ep) e
        | None => e
        end
      else rebuild
  | None => rebuild
  end.

Definition remove_peer (key : list Z) (e : Engine T) : Engine T := indices_remove key e.

Definition set_inbound_policy (pol : InboundPolicy) (e : Engine T) : Engine T :=
  mkEngine (store e) (next_ptr e) (by_pubkey e) (by_idx e) (by_ip e) pol (next_idx e)
    (our_static_secret e).

Definition set_endpoint (key : list Z) (ep : TransportAddr) (e : Engine T) : Engine T :=
  match by_pubkey e !! key with Some p => upd p (set_transport_addr ep) e | None => e end.

Definition Engine_new (secret : list Z) (peers : list PeerConfig) : Engine T :=
  foldl (fun e cfg => upsert_peer cfg e) (empty_engine secret) peers.

(** ** dispatch.rs *)

Inductive InboundRoute : Type :=
| SinglePeer (p : nat)
| Broadcast
| Junk.

Definition route_inbound (e : Engine T) (datagram : list Z) : outcome InboundRoute :=
  if decide (length datagram < 4)%nat then Val Junk else
  hd4 ← slice datagram 0 4;
  let msg_type := from_le hd4 in
  if msg_type =? 1 then Val Broadcast
  else if (msg_type =? 2) || (msg_type =? 3) || (msg_type =? 4) then
    let off := if msg_type =? 2 then 8%nat else 4%nat in
    if decide (length datagram < off + 4)%nat then Val Junk else
    ix ← slice datagram off (off + 4);
    let peer_idx := Z.shiftr (from_le ix) 8 in
    Val (match by_idx e !! peer_idx with Some p => SinglePeer p | None => Junk end)
  else Val Junk.

Definition peer_for_ip (e : Engine T) (dst : Z) : option nat := allowed_lookup (by_ip e) dst.

(** ** pump.rs *)

Inductive Outcome : Type :=
| ODone
| ONetwork (b : list Z)
| OTunnelV4 (b : list Z)
| OTunnelV6.

(** A line of the path-selection log. *)
Inductive SelLine : Type :=
| SelReply (peer : list Z) (idx : Z) (to_ : TransportAddr) (n : nat)
| SelData (dst : Z) (peer : list Z) (idx : Z) (pick auth : option TransportAddr)
    (hint : option SocketAddr) (ta : option TransportAddr) (n : nat)
| SelTimer (peer : list Z) (idx : Z) (pick : TransportAddr) (auth : option TransportAddr)
    (hint : option SocketAddr) (ta : option TransportAddr) (n : nat).

Definition SEL_CAP : nat := 96.
Definition selection_record (line : SelLine) (log : list SelLine) : list SelLine :=
  let log := if decide (SEL_CAP <= length log)%nat then drop 1 log else log in
  log ++ [line].

(** The state the pump thread works on: the engine, the two packet queues, the
    datagrams handed to the transport, the wake-up flag, the log and the last
    timer tick. *)
Record Pump : Type := mkPump {
  eng : Engine T;
  tun_rx_q : list (list Z);
  tun_tx_q : list (list Z);
  net_sent : list (TransportAddr * list Z);
  rx_notify : bool;
  sel_log : list SelLine;
  last_tick : Z
}.

Definition with_eng (w : Pump) (e : Engine T) : Pump :=
  mkPump e (tun_rx_q w) (tun_tx_q w) (net_sent w) (rx_notify w) (sel_log w) (last_tick w).

(** [send_outbound]: an error of the transport is only logged. *)
Definition send_outbound (addr : TransportAddr) (bytes : list Z) (w : Pump) : Pump :=
  mkPump (eng w) (tun_rx_q w) (tun_tx_q w) (net_sent w ++ [(addr, bytes)]) (rx_notify w)
    (sel_log w) (last_tick w).

Definition log_sel (line : SelLine) (w : Pump) : Pump :=
  mkPump (eng w) (tun_rx_q w) (tun_tx_q w) (net_sent w) (rx_notify w)
    (selection_record line (sel_log w)) (last_tick w).

Definition pick_addr (peer : Peer T) (hint : option (list Z -> option SocketAddr)) (now : Z) :
    option TransportAddr :=
  match auth_src_fresh peer now with
  | Some auth => Some auth
  | None =>
      match hint with
      | Some h => match h (pubkey peer) with
                  | Some udp => Some (Udp udp)
                  | None => transport_addr peer
                  end
      | None => transport_addr peer
      end
  end.

(** [call_tunn]: an error or a caught panic counts as [Done]. *)
Definition call_tunn (p : nat) (op : T -> T * option TunnResult) (e : Engine T) :
    Engine T * Outcome :=
  match store e !! p with
  | None => (e, ODone)
  | Some peer =>
      let r := op (tunn peer) in
      (upd p (set_tunn r.1) e,
       match r.2 with
       | Some (WriteToNetwork b) => ONetwork b
       | Some (WriteToTunnelV4 b) => OTunnelV4 b
       | Some (WriteToTunnelV6 _) => OTunnelV6
       | Some TDone | Some TErr | None => ODone
       end)
  end.

(** [while drain]: empty decapsulations until [Done]. *)
Fixpoint drain_tunn (fuel : nat) (p : nat) (e : Engine T) (net tun : list (list Z)) :
    outcome (Engine T * list (list Z) * list (list Z)) :=
  match fuel with
  | O => OutOfFuel
  | S f =>
      let '(e, o) := call_tunn p (fun t => decapsulate t []) e in
      match o with
      | ODone => Val (e, net, tun)
      | ONetwork b => drain_tunn f p e (net ++ [b]) tun
      | OTunnelV4 b => drain_tunn f p e net (tun ++ [b])
      | OTunnelV6 => drain_tunn f p e net tun
      end
  end.

(** Decapsulation of one datagram for one peer. *)
Definition decap_all (fuel : nat) (p : nat) (datagram : list Z) (e : Engine T) :
    outcome (Engine T * list (list Z) * list (list Z)) :=
  let '(e, first) := call_tunn p (fun t => decapsulate t datagram) e in
  match first with
  | ODone | OTunnelV6 => Val (e, [], [])
  | ONetwork b => drain_tunn fuel p e [b] []
  | OTunnelV4 b => Val (e, [], [b])
  end.

Definition send_replies (p : nat) (src_addr : TransportAddr) (outs : list (list Z)) (w : Pump) : Pump :=
  foldl (fun w bytes =>
    let w := match store (eng w) !! p with
             | Some peer => log_sel (SelReply (pubkey peer) (our_index peer) src_addr (length bytes)) w
             | None => w
             end in
    send_outbound src_addr bytes w) w outs.

(** The ownership and policy checks of one decrypted packet. *)
Definition deliverable (peer : Peer T) (pol : InboundPolicy) (plaintext : list Z) : outcome bool :=
  m ← parse_ipv4_meta plaintext;
  Val (match m with
       | None => false
       | Some meta =>
           existsb (fun cidr => contains cidr (meta_src meta)) (allowed_ips peer) &&
           allows pol (meta_src meta) (meta_dst meta) (meta_protocol meta) (meta_dst_port meta)
       end).

Definition deliver (p : nat) (now : Z) (plaintext : list Z) (w : Pump) : Pump :=
  mkPump (upd p (add_rx (Z.of_nat (length plaintext)) now) (eng w))
    (tun_rx_q w ++ [plaintext]) (tun_tx_q w) (net_sent w) (rx_notify w) (sel_log w) (last_tick w).

Definition notify (w : Pump) : Pump :=
  mkPump (eng w) (tun_rx_q w) (tun_tx_q w) (net_sent w) true (sel_log w) (last_tick w).

Fixpoint deliver_all (p : nat) (now : Z) (outs : list (list Z)) (any : bool) (w : Pump) :
    outcome Pump :=
  match outs with
  | [] => Val (if any then notify w else w)
  | plaintext :: rest =>
      match store (eng w) !! p with
      | None => Val w
      | Some peer =>
          ok ← deliverable peer (inbound_policy (eng w)) plaintext;
          if ok : bool then deliver_all p now rest true (deliver p now plaintext w)
          else deliver_all p now rest any w
      end
  end.

(** The body of the [for peer in peers] loop. *)
Definition handle_peer (fuel : nat) (src_addr : TransportAddr) (datagram : list Z) (now : Z)
    (p : nat) (w : Pump) : outcome Pump :=
  let w := if is_derp src_addr then with_eng w (upd p (set_transport_addr src_addr) (eng w)) else w in
  r ← decap_all fuel p datagram (eng w);
  let '(e, net, tun) := r in
  let w := with_eng w e in
  let w := if (negb (is_empty net) || negb (is_empty tun)) && is_udp src_addr
           then with_eng w (upd p (set_auth_src src_addr now) (eng w)) else w in
  deliver_all p now tun false (send_replies p src_addr net w).

Fixpoint handle_peers (fuel : nat) (src_addr : TransportAddr) (datagram : list Z) (now : Z)
    (ps : list nat) (w : Pump) : outcome Pump :=
  match ps with
  | [] => Val w
  | p :: rest => w ← handle_peer fuel src_addr datagram now p w;
                 handle_peers fuel src_addr datagram now rest w
  end.

(** [HashMap::values]: every value once, in an unspecified order. *)
Context (values : gmap (list Z) nat -> list nat).

Definition handle_inbound (fuel : nat) (src_addr : TransportAddr) (datagram : list Z) (now : Z)
    (w : Pump) : outcome Pump :=
  route ← route_inbound (eng w) datagram;
  match route with
  | SinglePeer p => handle_peers fuel src_addr datagram now [p] w
  | Broadcast => handle_peers fuel src_addr datagram now (values (by_pubkey (eng w))) w
  | Junk => Val w
  end.

Definition handle_outbound (hint : option (list Z -> option SocketAddr)) (plaintext : list Z)
    (now : Z) (w : Pump) : outcome Pump :=
  d ← parse_ipv4_dst plaintext;
  match d with
  | None => Val w
  | Some dst =>
      match (p ← peer_for_ip (eng w) dst; peer ← store (eng w) !! p; Some (p, peer)) with
      | None => Val w
      | Some (p, peer) =>
          let picked := pick_addr peer hint now in
          let w := log_sel (SelData dst (pubkey peer) (our_index peer) picked (fst <$> auth_src peer)
                              (h ← hint; h (pubkey peer)) (transport_addr peer) (length plaintext)) w in
          match picked with
          | None => Val w
          | Some addr =>
              let '(e, o) := call_tunn p (fun t => encapsulate t plaintext) (eng w) in
              match o with
              | ONetwork bytes =>
                  Val (send_outbound addr bytes
                         (with_eng w (upd p (add_tx (Z.of_nat (length plaintext))) e)))
              | ODone => Val (with_eng w e)
              | OTunnelV4 _ | OTunnelV6 => Panicked
              end
          end
      end
  end.

Definition tick_peer (hint : option (list Z -> option SocketAddr)) (now : Z) (w : Pump) (p : nat) : Pump :=
  match store (eng w) !! p with
  | None => w
  | Some peer =>
      match last_rx (stats peer) with
      | None => w
      | Some _ =>
          match pick_addr peer hint now with
          | None => w
          | Some addr =>
              let '(e, o) := call_tunn p update_timers (eng w) in
              let w := with_eng w e in
              match o with
              | ONetwork bytes =>
                  send_outbound addr bytes
                    (log_sel (SelTimer (pubkey peer) (our_index peer) addr (fst <$> auth_src peer)
                                (h ← hint; h (pubkey peer)) (transport_addr peer) (length bytes)) w)
              | _ => w
              end
          end
      end
  end.

Definition tick_timers (hint : option (list Z -> option SocketAddr)) (now : Z) (w : Pump) : Pump :=
  foldl (tick_peer hint now) w (values (by_pubkey (eng w))).

Definition with_tx (w : Pump) (q : list (list Z)) : Pump :=
  mkPump (eng w) (tun_rx_q w) q (net_sent w) (rx_notify w) (sel_log w) (last_tick w).

(** Draining [tun_tx_q], one packet per locked pop.  Other threads go on pushing:
    [feed k] is what they add before the [k]-th pop. *)
Fixpoint drain_tx (fuel : nat) (hint : option (list Z -> option SocketAddr)) (now : Z)
    (feed : nat -> list (list Z)) (k : nat) (w : Pump) : outcome Pump :=
  match fuel with
  | O => OutOfFuel
  | S f =>
      match tun_tx_q w ++ feed k with
      | [] => Val w
      | pkt :: rest => w ← handle_outbound hint pkt now (with_tx w rest); drain_tx f hint now feed (S k) w
      end
  end.

Definition TIMER_TICK : Z := 250 * 1000000.

(** One turn of [run]'s loop: the received datagram if any (a timeout and a
    receive error are both no datagram), the queued packets, the timers. *)
Definition pump_step (fuel : nat) (hint : option (list Z -> option SocketAddr))
    (feed : nat -> list (list Z)) (rx : option (TransportAddr * list Z)) (now : Z) (w : Pump) : outcome Pump :=
  w ← match rx with
      | Some (src_addr, datagram) => handle_inbound fuel src_addr datagram now w
      | None => Val w
      end;
  w ← drain_tx fuel hint now feed 0 w;
  if TIMER_TICK <=? now - last_tick w then
    let w := tick_timers hint now w in
    Val (mkPump (eng w) (tun_rx_q w) (tun_tx_q w) (net_sent w) (rx_notify w) (sel_log w) now)
  else Val w.

End Ops.
Arguments Pump T : clear implicits.
Arguments mkPump {T}. 

(** * Specifications *)

(** What never changes in a peer object: its key, its index, its routes. *)
Definition static {T} (p : Peer T) : list Z * Z * list Ipv4Cidr := (pubkey p, our_index p, allowed_ips p).
Definition info {T} (e : Engine T) : gmap nat (list Z * Z * list Ipv4Cidr) := static <$> store e.

(** Two engines that differ only in the mutable cells of their peers. *)
Definition same_tables {T} (e e' : Engine T) : Prop :=
  info e = info e' /\ next_ptr e = next_ptr e' /\ by_pubkey e = by_pubkey e' /\
  by_idx e = by_idx e' /\ by_ip e = by_ip e' /\ inbound_policy e = inbound_policy e' /\
  next_idx e = next_idx e'.

(** The three tables describe one set of peers. *)
Record wf_engine {T} (e : Engine T) : Prop := {
  wf_pub : forall k p, by_pubkey e !! k = Some p ->
    exists i ips, info e !! p = Some (k, i, ips) /\ by_idx e !! i = Some p /\
                  forall c, c ∈ ips -> (c, p) ∈ by_ip e;
  wf_idx : forall i p, by_idx e !! i = Some p ->
    exists k ips, info e !! p = Some (k, i, ips) /\ by_pubkey e !! k = Some p /\
                  0 < i < next_idx e;
  wf_ip : forall c p, (c, p) ∈ by_ip e ->
    exists k i ips, info e !! p = Some (k, i, ips) /\ by_pubkey e !! k = Some p /\ c ∈ ips;
  wf_sorted : StronglySorted (fun x y => cidr_prefix y.1 <= cidr_prefix x.1) (by_ip e);
  wf_ptr : forall p, is_Some (info e !! p) -> (p < next_ptr e)%nat;
  wf_next : 1 <= next_idx e < 2 ^ 32
}.

(** * Lemmas *)

#[global] Instance same_tables_equiv {T} : Equivalence (@same_tables T).
Proof.
  unfold same_tables. split; [by intros ?|by intros ? ? (->&->&->&->&->&->&->)|].
  intros ???. intros (->&->&->&->&->&->&->). done.
Qed.

#[global] Instance wf_engine_proper {T} : Proper (same_tables ==> iff) (@wf_engine T).
Proof.
  assert (forall e e' : Engine T, same_tables e e' -> wf_engine e -> wf_engine e').
  { intros e e' (E1 & E2 & E3 & E4 & E5 & E6 & E7) [].
    rewrite E1, E2, E3, E4, E5, E7 in *. by split. }
  intros e e' He. split; [by apply H|apply H; by symmetry].
Qed.

Lemma info_upd {T} p (f : Peer T -> Peer T) e :
  (forall x, static (f x) = static x) -> info (upd p f e) = info e.
Proof.
  intros Hf. unfold info, upd, with_store. simpl. apply map_eq. intros q.
  rewrite !lookup_fmap. destruct (decide (p = q)) as [->|Hne].
  - rewrite lookup_alter_eq. destruct (store e !! q); simpl; [by rewrite Hf|done].
  - by rewrite lookup_alter_ne.
Qed.

Lemma upd_same_tables {T} p (f : Peer T -> Peer T) e :
  (forall x, static (f x) = static x) -> same_tables (upd p f e) e.
Proof. intros Hf. split; [by apply info_upd|done]. Qed.

(** ** Sorting and lookup *)

Lemma elem_of_insert_desc x y l : y ∈ insert_desc x l <-> y = x \/ y ∈ l.
Proof.
  induction l as [|z l IH]; simpl; [by rewrite list_elem_of_singleton, elem_of_nil; tauto|].
  case_match; rewrite !elem_of_cons; [done|]. rewrite IH. tauto.
Qed.

Lemma elem_of_sort_desc y l : y ∈ sort_desc l <-> y ∈ l.
Proof.
  induction l as [|x l IH]; simpl; [done|]. by rewrite elem_of_insert_desc, IH, elem_of_cons.
Qed.

Lemma insert_desc_sorted x l :
  StronglySorted (fun x y : Ipv4Cidr * nat => cidr_prefix y.1 <= cidr_prefix x.1) l ->
  StronglySorted (fun x y => cidr_prefix y.1 <= cidr_prefix x.1) (insert_desc x l).
Proof.
  induction 1 as [|y l Hs IH Hy]; simpl; [repeat constructor|].
  rewrite list.Forall_forall in Hy. destruct (Z.leb_spec (cidr_prefix y.1) (cidr_prefix x.1)).
  - constructor; [constructor; [done|]; by apply list.Forall_forall|].
    apply list.Forall_forall. intros z [->|Hz]%elem_of_cons; [lia|].
    specialize (Hy z Hz). simpl in *. lia.
  - constructor; [done|]. apply list.Forall_forall.
    intros z [->|Hz]%elem_of_insert_desc; [lia|auto].
Qed.

Lemma sort_desc_sorted l :
  StronglySorted (fun x y => cidr_prefix y.1 <= cidr_prefix x.1) (sort_desc l).
Proof. induction l; simpl; [constructor|]. by apply insert_desc_sorted. Qed.

Lemma filter_sorted {A} (R : A -> A -> Prop) (P : A -> Prop) `{!forall x, Decision (P x)} l :
  StronglySorted R l -> StronglySorted R (filter P l).
Proof.
  induction 1 as [|x l Hs IH Hx]; [constructor|]. rewrite filter_cons. case_decide; [|done].
  constructor; [done|]. rewrite list.Forall_forall in *. intros y [_ Hy]%list_elem_of_filter. auto.
Qed.

(** The first hit of a list sorted by falling prefix length is a longest one. *)
Lemma find_longest l ip e :
  StronglySorted (fun x y : Ipv4Cidr * nat => cidr_prefix y.1 <= cidr_prefix x.1) l ->
  List.find (fun e => contains e.1 ip) l = Some e ->
  e ∈ l /\ contains e.1 ip = true /\
  forall e', e' ∈ l -> contains e'.1 ip = true -> cidr_prefix e'.1 <= cidr_prefix e.1.
Proof.
  induction 1 as [|x l Hs IH Hx]; simpl; [done|]. destruct (contains x.1 ip) eqn:Ec.
  - intros [= <-]. rewrite list.Forall_forall in Hx. split_and!; [left|done|].
    intros e' [->|He']%elem_of_cons Hc; [lia|]. by apply Hx.
  - intros (H1 & H2 & H3)%IH. split_and!; [by right|done|].
    intros e' [->|He']%elem_of_cons Hc; [congruence|]. auto.
Qed.

(** ** The tables under the engine operations *)

Lemma info_lookup {T} (e : Engine T) p k i ips :
  info e !! p = Some (k, i, ips) <->
  exists peer, store e !! p = Some peer /\ pubkey peer = k /\ our_index peer = i /\ allowed_ips peer = ips.
Proof.
  unfold info. rewrite lookup_fmap. destruct (store e !! p) as [peer|]; simpl.
  - unfold static. split; [intros [= <- <- <-]; eauto|]. intros (? & [= <-] & <- & <- & <-). done.
  - split; [done|]. by intros (? & ? & _).
Qed.

Lemma remove_entries_spec {T} (e : Engine T) key c p :
  wf_engine e -> (c, p) ∈ remove_entries (store e) key (by_ip e) <->
  (c, p) ∈ by_ip e /\ by_pubkey e !! key <> Some p.
Proof.
  intros Hwf. unfold remove_entries. rewrite list_elem_of_filter. simpl.
  assert (Hkey : (c, p) ∈ by_ip e -> pubkey_of (store e) p = Some key <-> by_pubkey e !! key = Some p).
  { intros Hin. destruct (wf_ip _ Hwf _ _ Hin) as (k & i & ips & Hi & Hk & _).
    apply info_lookup in Hi as (peer & Hs & <- & _). unfold pubkey_of. rewrite Hs. simpl.
    split; [by intros [= <-]|]. intros Hkey.
    destruct (wf_pub _ Hwf _ _ Hkey) as (i' & ips' & Hi' & _).
    apply info_lookup in Hi' as (peer' & Hs' & <- & _). congruence. }
  tauto.
Qed.

Lemma indices_remove_unfold {T} (e : Engine T) key p :
  wf_engine e -> by_pubkey e !! key = Some p ->
  exists i, by_idx e !! i = Some p /\
  indices_remove key e =
    mkEngine (store e) (next_ptr e) (delete key (by_pubkey e)) (delete i (by_idx e))
      (remove_entries (store e) key (by_ip e)) (inbound_policy e) (next_idx e) (our_static_secret e).
Proof.
  intros Hwf Hk. destruct (wf_pub _ Hwf _ _ Hk) as (i & ips & Hi & Hidx & _).
  apply info_lookup in Hi as (peer & Hs & Hp & Hpi & _).
  exists i. split; [done|]. unfold indices_remove. rewrite Hk, Hs, Hp, Hpi. done.
Qed.

Lemma indices_remove_wf {T} (e : Engine T) key :
  wf_engine e -> wf_engine (indices_remove key e) /\ by_pubkey (indices_remove key e) !! key = None.
Proof.
  intros Hwf. destruct (by_pubkey e !! key) as [p|] eqn:Hk.
  2: { unfold indices_remove. rewrite Hk. done. }
  destruct (indices_remove_unfold e key p Hwf Hk) as (i & Hi & ->). split; [|apply lookup_delete_eq].
  destruct (wf_idx _ Hwf _ _ Hi) as (k0 & ips0 & Hinfo & Hk0 & _).
  destruct (wf_pub _ Hwf _ _ Hk) as (i1 & ips1 & Hinfo1 & _). rewrite Hinfo in Hinfo1. simplify_eq.
  split; simpl.
  - intros k q [Hne Hq]%lookup_delete_Some.
    destruct (wf_pub _ Hwf _ _ Hq) as (j & ips & Hj & Hidx & Hall). exists j, ips.
    change (info e !! q = Some (k, j, ips)) in Hj. split; [exact Hj|].
    assert (q <> p) by (intros ->; congruence). split.
    + rewrite lookup_delete_ne; [done|]. intros ->. congruence.
    + intros c Hc. apply remove_entries_spec; [done|]. split; [auto|]. congruence.
  - intros j q [Hne Hq]%lookup_delete_Some.
    destruct (wf_idx _ Hwf _ _ Hq) as (k & ips & Hj & Hpk & Hb). exists k, ips.
    split; [exact Hj|]. split; [|done]. rewrite lookup_delete_ne; [done|].
    intros ->. rewrite Hk in Hpk. simplify_eq.
  - intros c q [Hin Hne]%remove_entries_spec; [|done].
    destruct (wf_ip _ Hwf _ _ Hin) as (k & j & ips & Hj & Hpk & Hc). exists k, j, ips.
    split; [exact Hj|]. split; [|done]. rewrite lookup_delete_ne; [done|]. congruence.
  - apply filter_sorted, Hwf.
  - apply Hwf.
  - apply Hwf.
Qed.

Lemma indices_insert_wf {T} (e : Engine T) peer :
  wf_engine e -> by_pubkey e !! pubkey peer = None -> 0 < our_index peer < next_idx e ->
  by_idx e !! our_index peer = None -> wf_engine (indices_insert peer e).
Proof.
  intros Hwf Hk Hi Hnone. set (p := next_ptr e).
  assert (Hfresh : info e !! p = None).
  { destruct (info e !! p) eqn:E; [|done].
    assert (p < next_ptr e)%nat by (apply (wf_ptr _ Hwf); eauto). lia. }
  assert (Hinfo : info (indices_insert peer e) = <[p := static peer]> (info e)).
  { unfold info, indices_insert. simpl. by rewrite fmap_insert. }
  assert (Hip : forall c q, (c, q) ∈ by_ip (indices_insert peer e) <->
                  (c, q) ∈ by_ip e \/ (q = p /\ c ∈ allowed_ips peer)).
  { intros c q. unfold indices_insert, insert_peer. simpl.
    rewrite elem_of_sort_desc, elem_of_app. apply or_iff_compat_l.
    rewrite list_elem_of_fmap. split; [intros (x & [= -> ->] & Hx); done|].
    intros [-> Hc]. by exists c. }
  split.
  - intros k q. rewrite Hinfo. simpl by_pubkey. rewrite lookup_insert_Some.
    intros [[<- <-]|[Hne Hq]].
    + exists (our_index peer), (allowed_ips peer). rewrite lookup_insert_eq. split; [done|].
      simpl. rewrite lookup_insert_eq. split; [done|]. intros c Hc. apply Hip. auto.
    + destruct (wf_pub _ Hwf _ _ Hq) as (j & ips & Hj & Hidx & Hall). exists j, ips.
      rewrite lookup_insert_ne by congruence. split; [done|]. simpl.
      rewrite lookup_insert_ne by congruence. split; [done|]. intros c Hc. apply Hip. auto.
  - intros j q. rewrite Hinfo. simpl by_idx. rewrite lookup_insert_Some.
    intros [[<- <-]|[Hne Hq]].
    + exists (pubkey peer), (allowed_ips peer). rewrite lookup_insert_eq. split; [done|].
      simpl. by rewrite lookup_insert_eq.
    + destruct (wf_idx _ Hwf _ _ Hq) as (k & ips & Hj & Hpk & Hb). exists k, ips.
      rewrite lookup_insert_ne by congruence. split; [done|]. simpl.
      by rewrite lookup_insert_ne by congruence.
  - intros c q Hin. rewrite Hinfo. apply Hip in Hin as [Hin|[-> Hc]].
    + destruct (wf_ip _ Hwf _ _ Hin) as (k & j & ips & Hj & Hpk & Hc). exists k, j, ips.
      rewrite lookup_insert_ne by congruence. split; [done|]. simpl.
      by rewrite lookup_insert_ne by congruence.
    + exists (pubkey peer), (our_index peer), (allowed_ips peer).
      rewrite lookup_insert_eq. split; [done|]. simpl. by rewrite lookup_insert_eq.
  - apply sort_desc_sorted.
  - intros q. rewrite Hinfo. intros [x Hx]. simpl.
    apply lookup_insert_Some in Hx as [[<- _]|[_ Hx]]; [lia|].
    assert (q < next_ptr e)%nat by (apply (wf_ptr _ Hwf); eauto). lia.
  - apply Hwf.
Qed.

(** ** Frame of the pump's stores *)

(** [e'] is [e] after stores into the session and statistics cells of [p]. *)
Definition quiet {T} (p : nat) (e e' : Engine T) : Prop :=
  same_tables e e' /\ (forall q, q <> p -> store e' !! q = store e !! q) /\
  (forall peer, store e !! p = Some peer -> exists peer', store e' !! p = Some peer' /\
     transport_addr peer' = transport_addr peer /\ auth_src peer' = auth_src peer).

#[global] Instance quiet_preorder {T} p : PreOrder (@quiet T p).
Proof.
  split.
  - intros e. split; [done|]. split; [done|]. eauto.
  - intros e1 e2 e3 (S1 & F1 & P1) (S2 & F2 & P2). split; [by transitivity e2|]. split.
    + intros q Hq. by rewrite F2, F1.
    + intros peer Hp. destruct (P1 _ Hp) as (peer2 & H2 & E1 & E2).
      destruct (P2 _ H2) as (peer3 & H3 & E3 & E4). exists peer3. split; [done|].
      by rewrite E3, E4, E1, E2.
Qed.

Lemma upd_store {T} p (f : Peer T -> Peer T) e q :
  store (upd p f e) !! q = if decide (q = p) then f <$> store e !! q else store e !! q.
Proof.
  unfold upd, with_store. simpl. case_decide as E; [subst; by rewrite lookup_alter_eq|].
  by rewrite lookup_alter_ne.
Qed.

Lemma upd_quiet {T} p (f : Peer T -> Peer T) e :
  (forall x, static (f x) = static x) -> (forall x, transport_addr (f x) = transport_addr x) ->
  (forall x, auth_src (f x) = auth_src x) -> quiet p e (upd p f e).
Proof.
  intros Hs Ht Ha. split; [symmetry; by apply upd_same_tables|]. split.
  - intros q Hq. rewrite upd_store. by rewrite decide_False.
  - intros peer Hp. rewrite upd_store, decide_True, Hp by done. simpl. eauto.
Qed.

Lemma Forall2_impl_elem {A B} (P Q : A -> B -> Prop) l k :
  Forall2 P l k -> (forall x y, x ∈ l -> P x y -> Q x y) -> Forall2 Q l k.
Proof. induction 1; intros Hi; constructor; [apply Hi; [left|done]|]. apply IHForall2. intros. apply Hi; [by right|done]. Qed.

Create HintDb wg discriminated.
#[export] Hint Resolve upd_quiet upd_same_tables : wg.

Section PumpLemmas.
Context {T : Type} `{TunnOps T}.
Implicit Types (e : Engine T) (w : Pump T).

Lemma call_tunn_quiet p op e e' o : call_tunn p op e = (e', o) -> quiet p e e'.
Proof.
  unfold call_tunn. destruct (store e !! p); intros [= <- <-]; [|done]. by apply upd_quiet.
Qed.

Lemma drain_quiet fuel p : forall e net tun e' net' tun',
  drain_tunn fuel p e net tun = Val (e', net', tun') -> quiet p e e'.
Proof.
  induction fuel as [|fuel IH]; intros e net tun e' net' tun' E; simpl in E; [done|].
  destruct (call_tunn _ _ _) as [e1 o] eqn:Ec. apply call_tunn_quiet in Ec.
  destruct o; [by simplify_eq|..]; apply IH in E; by transitivity e1.
Qed.

(** The peer's session accepted the datagram: it answered with output. *)
Definition produced (t : T) (datagram : list Z) : Prop :=
  exists t' b, decapsulate t datagram = (t', Some (WriteToNetwork b)) \/
               decapsulate t datagram = (t', Some (WriteToTunnelV4 b)).

(** What a session hands out when it is asked again with an empty datagram, until it
    has nothing more, and what it hands out for a datagram: the packet in it, or, when
    the answer goes to the network first, the packets drained after it. *)
Inductive drained : T -> list (list Z) -> Prop :=
| drained_end t t' r : decapsulate t [] = (t', r) -> r = Some TDone \/ r = Some TErr \/ r = None -> drained t []
| drained_packet t t' b l : decapsulate t [] = (t', Some (WriteToTunnelV4 b)) -> drained t' l -> drained t (b :: l)
| drained_other t t' b l :
    decapsulate t [] = (t', Some (WriteToNetwork b)) \/ decapsulate t [] = (t', Some (WriteToTunnelV6 b)) ->
    drained t' l -> drained t l.
Inductive session_output (t : T) (datagram : list Z) : list (list Z) -> Prop :=
| output_packet t' b : decapsulate t datagram = (t', Some (WriteToTunnelV4 b)) -> session_output t datagram [b]
| output_drained t' b l : decapsulate t datagram = (t', Some (WriteToNetwork b)) -> drained t' l -> session_output t datagram l
| output_none t' r : decapsulate t datagram = (t', r) ->
    r = Some TDone \/ r = Some TErr \/ r = None \/ (exists b, r = Some (WriteToTunnelV6 b)) -> session_output t datagram [].

Lemma drain_output fuel p : forall e peer net tun e' net' tun', store e !! p = Some peer ->
  drain_tunn fuel p e net tun = Val (e', net', tun') -> exists l, tun' = tun ++ l /\ drained (tunn peer) l.
Proof.
  induction fuel as [|fuel IH]; intros e peer net tun e' net' tun' Hp E; cbn [drain_tunn] in E; [done|].
  unfold call_tunn in E. rewrite Hp in E. destruct (decapsulate (tunn peer) []) as [t' r] eqn:Ed.
  assert (Hp' : store (upd p (set_tunn t') e) !! p = Some (set_tunn t' peer)) by (rewrite upd_store, decide_True, Hp; done).
  destruct r as [[| |b|b|b]|]; cbn [fst snd] in E; try (injection E as <- <- <-; exists []; rewrite app_nil_r; split; [done|]; econstructor; eauto; done).
  - destruct (IH _ _ _ _ _ _ _ Hp' E) as (l & -> & Hd). exists l. split; [done|]. eapply drained_other; eauto.
  - destruct (IH _ _ _ _ _ _ _ Hp' E) as (l & -> & Hd). exists (b :: l). rewrite <- app_assoc. split; [done|]. eapply drained_packet; eauto.
  - destruct (IH _ _ _ _ _ _ _ Hp' E) as (l & -> & Hd). exists l. split; [done|]. eapply drained_other; eauto.
Qed.

Lemma decap_all_output fuel p datagram e peer e' net tun :
  store e !! p = Some peer -> decap_all fuel p datagram e = Val (e', net, tun) -> session_output (tunn peer) datagram tun.
Proof.
  intros Hp E. unfold decap_all, call_tunn in E. rewrite Hp in E. destruct (decapsulate (tunn peer) datagram) as [t' r] eqn:Ed.
  assert (Hp' : store (upd p (set_tunn t') e) !! p = Some (set_tunn t' peer)) by (rewrite upd_store, decide_True, Hp; done).
  destruct r as [[| |b|b|b]|]; cbn [fst snd] in E; try (injection E as <- <- <-; eapply output_none; eauto; done).
  - destruct (drain_output _ _ _ _ _ _ _ _ _ Hp' E) as (l & -> & Hd). by eapply output_drained.
  - injection E as <- <- <-. by eapply output_packet.
Qed.

Lemma decap_all_spec fuel p datagram e peer e' net tun :
  store e !! p = Some peer -> decap_all fuel p datagram e = Val (e', net, tun) ->
  quiet p e e' /\ (net <> [] \/ tun <> [] -> produced (tunn peer) datagram).
Proof.
  intros Hp E. unfold decap_all in E. destruct (call_tunn _ _ _) as [e1 o] eqn:Ec.
  pose proof (call_tunn_quiet _ _ _ _ _ Ec) as Hq.
  unfold call_tunn in Ec. rewrite Hp in Ec. unfold produced.
  destruct (decapsulate (tunn peer) datagram) as [t' [[| |b|b|b]|]]; simplify_eq/=; try naive_solver.
  split; [|eauto]. apply drain_quiet in E. by etransitivity.
Qed.

Lemma send_replies_eng p src outs w :
  eng (send_replies p src outs w) = eng w /\ tun_rx_q (send_replies p src outs w) = tun_rx_q w.
Proof.
  revert w. induction outs as [|b outs IH]; intros w; [done|]. unfold send_replies in *. simpl.
  destruct (IH (send_outbound src b
     match store (eng w) !! p with
     | Some peer => log_sel (SelReply (pubkey peer) (our_index peer) src (length b)) w
     | None => w end)) as [-> ->].
  by destruct (store (eng w) !! p).
Qed.

(** A plaintext packet of peer [p] the engine may hand to the local stack: its source
    lies in a network that peer owns, and the current policy admits it. *)
Definition admissible (e : Engine T) (p : nat) (pkt : list Z) : Prop :=
  exists k i ips m, info e !! p = Some (k, i, ips) /\ parse_ipv4_meta pkt = Val (Some m) /\
    existsb (fun c => contains c (meta_src m)) ips = true /\
    allows (inbound_policy e) (meta_src m) (meta_dst m) (meta_protocol m) (meta_dst_port m) = true.

#[global] Instance admissible_proper : Proper (same_tables ==> eq ==> eq ==> iff) admissible.
Proof.
  intros e e' (E1 & _ & _ & _ & _ & E2 & _) p ? <- pkt ? <-. unfold admissible. by rewrite E1, E2.
Qed.

#[global] Instance admissible_dec e p pkt : Decision (admissible e p pkt).
Proof.
  destruct (info e !! p) as [[[k i] ips]|] eqn:Hi; [|right; intros (? & ? & ? & ? & ? & _); congruence].
  destruct (parse_ipv4_meta pkt) as [[m|]| |] eqn:Hm; try (right; intros (? & ? & ? & ? & ? & ? & _); congruence).
  destruct (existsb (fun c => contains c (meta_src m)) ips &&
            allows (inbound_policy e) (meta_src m) (meta_dst m) (meta_protocol m) (meta_dst_port m)) eqn:E.
  - left. apply andb_true_iff in E as [? ?]. by exists k, i, ips, m.
  - right. intros (k' & i' & ips' & m' & Hi' & Hm' & H1 & H2). rewrite Hm in Hm'. rewrite Hi in Hi'. injection Hm' as <-. injection Hi' as <- <- <-.
    by rewrite H1, H2 in E.
Defined.

Lemma deliverable_admissible e p peer pkt b :
  store e !! p = Some peer -> deliverable peer (inbound_policy e) pkt = Val b -> b = true <-> admissible e p pkt.
Proof.
  intros Hp Hd. assert (Hi : info e !! p = Some (pubkey peer, our_index peer, allowed_ips peer)) by (apply info_lookup; eauto).
  unfold deliverable in Hd. destruct (parse_ipv4_meta pkt) as [[m|]| |] eqn:E; try done; cbn in Hd; injection Hd as <-.
  - rewrite andb_true_iff. split.
    + intros [H1 H2]. by exists (pubkey peer), (our_index peer), (allowed_ips peer), m.
    + intros (k' & i' & ips' & m' & Hi' & Hm' & H1 & H2). rewrite E in Hm'. rewrite Hi in Hi'. injection Hm' as <-. by injection Hi' as <- <- <-.
  - split; [done|]. intros (? & ? & ? & ? & ? & ? & _). congruence.
Qed.

Lemma admissible_filter e e' p (l : list (list Z)) : same_tables e e' -> filter (admissible e p) l = filter (admissible e' p) l.
Proof. intros Hs. apply list_filter_iff. intros x. by rewrite Hs. Qed.

Lemma deliver_all_spec p now outs : forall any w w', is_Some (store (eng w) !! p) ->
  deliver_all p now outs any w = Val w' ->
  quiet p (eng w) (eng w') /\ tun_rx_q w' = tun_rx_q w ++ filter (admissible (eng w) p) outs.
Proof.
  induction outs as [|pkt outs IH]; intros any w w' [peer Hp] E; cbn [deliver_all] in E.
  - injection E as <-. destruct any; (split; [done|]; by rewrite app_nil_r).
  - rewrite Hp in E. destruct (deliverable _ _ pkt) as [ok| |] eqn:Ed; [|done|done]. cbn in E.
    pose proof (deliverable_admissible _ _ _ _ _ Hp Ed) as Ha. rewrite filter_cons. destruct ok.
    + rewrite decide_True by by apply Ha.
      assert (Hq1 : quiet p (eng w) (upd p (add_rx (Z.of_nat (length pkt)) now) (eng w))) by by apply upd_quiet.
      apply IH in E as (Hq & Hrx); cbn [deliver eng tun_rx_q] in *; [|rewrite upd_store, decide_True, Hp; done].
      split; [by etransitivity|]. rewrite Hrx, <- app_assoc. by rewrite (admissible_filter _ _ _ _ (proj1 Hq1)).
    + rewrite decide_False by (rewrite <- Ha; done). apply IH in E as (Hq & Hrx); [|by eexists]. done.
Qed.

(** Everything one peer's turn does to the engine and to the receive queue. *)
Lemma handle_peer_spec fuel src datagram now p w w' peer :
  store (eng w) !! p = Some peer -> handle_peer fuel src datagram now p w = Val w' ->
  same_tables (eng w) (eng w') /\
  (forall q, q <> p -> store (eng w') !! q = store (eng w) !! q) /\
  (exists peer', store (eng w') !! p = Some peer' /\
     transport_addr peer' = (if is_derp src then Some src else transport_addr peer) /\
     (auth_src peer' = auth_src peer \/
      (auth_src peer' = Some (src, now) /\ is_udp src = true /\ produced (tunn peer) datagram))) /\
  exists out, session_output (tunn peer) datagram out /\ tun_rx_q w' = tun_rx_q w ++ filter (admissible (eng w) p) out.
Proof.
  intros Hp E. unfold handle_peer in E.
  set (w1 := if is_derp src then with_eng w (upd p (set_transport_addr src) (eng w)) else w) in *.
  assert (H1 : same_tables (eng w) (eng w1) /\ tun_rx_q w1 = tun_rx_q w /\
    (forall q, q <> p -> store (eng w1) !! q = store (eng w) !! q) /\
    exists peer1, store (eng w1) !! p = Some peer1 /\ tunn peer1 = tunn peer /\
      auth_src peer1 = auth_src peer /\
      transport_addr peer1 = (if is_derp src then Some src else transport_addr peer)).
  { subst w1. destruct (is_derp src); cbn [with_eng eng tun_rx_q]; [|naive_solver].
    split; [symmetry; by apply upd_same_tables|]. split; [done|]. split.
    - intros q Hq. rewrite upd_store. by rewrite decide_False.
    - rewrite upd_store, decide_True, Hp by done. simpl. eauto. }
  destruct H1 as (S1 & R1 & F1 & peer1 & P1 & T1 & A1 & TA1). clearbody w1.
  destruct (decap_all _ _ _ _) as [[[e2 net] tun]| |] eqn:Ed; try done. simpl in E.
  destruct (decap_all_spec _ _ _ _ _ _ _ _ P1 Ed) as [(S2 & F2 & P2) Hprod]. rewrite T1 in Hprod.
  pose proof (decap_all_output _ _ _ _ _ _ _ _ P1 Ed) as Hout. rewrite T1 in Hout.
  destruct (P2 _ P1) as (peer2 & P2' & TA2 & A2).
  set (w3 := if _ && is_udp src then _ else _) in E.
  assert (H3 : same_tables e2 (eng w3) /\ tun_rx_q w3 = tun_rx_q w1 /\
    (forall q, q <> p -> store (eng w3) !! q = store e2 !! q) /\
    exists peer3, store (eng w3) !! p = Some peer3 /\
      transport_addr peer3 = transport_addr peer2 /\
      (auth_src peer3 = auth_src peer2 \/
       (auth_src peer3 = Some (src, now) /\ is_udp src = true /\ produced (tunn peer) datagram))).
  { subst w3. destruct ((negb (is_empty net) || negb (is_empty tun)) && is_udp src) eqn:Ec; cbn [with_eng eng tun_rx_q].
    2: { naive_solver. }
    apply andb_true_iff in Ec as [Hne Hudp].
    split; [symmetry; by apply upd_same_tables|]. split; [done|]. split.
    - intros q Hq. rewrite upd_store. by rewrite decide_False.
    - rewrite upd_store, decide_True, P2' by done. simpl. eexists. split; [done|]. split; [done|].
      right. split; [done|]. split; [done|]. apply Hprod.
      apply orb_true_iff in Hne as [Hne|Hne]; [left|right]; by intros ->. }
  destruct H3 as (S3 & R3 & F3 & peer3 & P3 & TA3 & A3). clearbody w3.
  destruct (send_replies_eng p src net w3) as [Ee Er].
  apply deliver_all_spec in E as ((S4 & F4 & P4) & Hrx); [|rewrite Ee; by eexists]. rewrite Ee in *. rewrite Er in *.
  destruct (P4 _ P3) as (peer4 & P4' & TA4 & A4).
  assert (S14 : same_tables (eng w) (eng w3)) by (etransitivity; [exact S1|]; by etransitivity).
  split; [by etransitivity|]. split.
  { intros q Hq. by rewrite F4, F3, F2, F1. } split.
  - exists peer4. split; [done|]. split; [congruence|]. destruct A3 as [A3|(A3 & Hu & Hpr)].
    + left. congruence.
    + right. split; [congruence|]. done.
  - exists tun. rewrite Hrx, R3, R1. split; [done|]. by rewrite (admissible_filter _ _ _ _ S14).
Qed.

(** The turns of several peers compose: each one keeps the tables, touches only
    its own object and sees that object as it was at the start. *)
Lemma handle_peers_spec fuel src datagram now ps : forall w w',
  NoDup ps -> (forall p, p ∈ ps -> is_Some (store (eng w) !! p)) ->
  handle_peers fuel src datagram now ps w = Val w' ->
  same_tables (eng w) (eng w') /\
  (forall q, q ∉ ps -> store (eng w') !! q = store (eng w) !! q) /\
  (forall q peer, q ∈ ps -> store (eng w) !! q = Some peer ->
     exists peer', store (eng w') !! q = Some peer' /\
       transport_addr peer' = (if is_derp src then Some src else transport_addr peer) /\
       (auth_src peer' = auth_src peer \/
        (auth_src peer' = Some (src, now) /\ is_udp src = true /\ produced (tunn peer) datagram))) /\
  exists outs, Forall2 (fun p out => exists peer, store (eng w) !! p = Some peer /\ session_output (tunn peer) datagram out) ps outs /\
    tun_rx_q w' = tun_rx_q w ++ concat (zip_with (fun p out => filter (admissible (eng w) p) out) ps outs).
Proof.
  induction ps as [|p ps IH]; intros w w' Hnd Hin E; cbn [handle_peers] in E.
  - simplify_eq. split; [done|]. split; [done|]. split; [by intros ? ? ?%elem_of_nil|].
    exists []. split; [constructor|]. by rewrite app_nil_r.
  - apply list.NoDup_cons in Hnd as [Hp Hnd].
    destruct (Hin p) as [peer Hpeer]; [left|].
    destruct (handle_peer _ _ _ _ p w) as [w1| |] eqn:E1; [|done|done]. simpl in E.
    destruct (handle_peer_spec _ _ _ _ _ _ _ _ Hpeer E1) as (S1 & F1 & P1 & out1 & O1 & R1).
    destruct (IH w1 w' Hnd) as (S2 & F2 & P2 & outs2 & O2 & R2); [|done|].
    { intros q Hq. rewrite F1 by set_solver. apply Hin. by right. }
    split; [by etransitivity|]. split; [|split].
    + intros q [Hq1 Hq2]%not_elem_of_cons. by rewrite F2, F1.
    + intros q pq [->|Hq]%elem_of_cons Hs.
      * rewrite F2 by done. simplify_eq. done.
      * apply (P2 q); [done|]. rewrite F1; [done|]. intros ->. done.
    + exists (out1 :: outs2). split.
      * constructor; [by exists peer|]. eapply Forall2_impl_elem; [exact O2|]. intros q out Hq (pq & Hs & Ho).
        exists pq. split; [|done]. rewrite <- F1; [done|]. intros ->. done.
      * rewrite R2, R1, <- app_assoc. cbn [zip_with concat]. do 3 f_equal. clear -S1. revert outs2.
        induction ps as [|q ps IH]; intros [|o outs]; cbn; [done..|]. f_equal; [by apply admissible_filter|apply IH].
Qed.

(** ** Termination of the drain loop *)

Context `{!TunnLaws T}.

Definition pend e p : nat := match store e !! p with Some peer => pending (tunn peer) | None => 0 end.

Lemma drain_total n : forall p e net tun,
  (pend e p <= n)%nat ->
  exists r, forall fuel, (n < fuel)%nat -> drain_tunn fuel p e net tun = Val r.
Proof.
  induction n as [|n IH]; intros p e net tun Hn.
  - unfold pend in Hn. exists (let '(e', _) := call_tunn p (fun t => decapsulate t []) e in (e', net, tun)).
    intros [|fuel] Hf; [lia|]. simpl. unfold call_tunn.
    destruct (store e !! p) as [peer|]; [|done].
    destruct (decapsulate (tunn peer) []) as [t' [r|]] eqn:E; simpl; [|done].
    destruct r as [| |b|b|b]; try done;
      (eapply drain_decreases in E; [|done|done]; lia).
  - destruct (call_tunn p (fun t => decapsulate t []) e) as [e' o] eqn:Ec.
    assert (Hdec : o <> ODone -> (pend e' p <= n)%nat).
    { unfold call_tunn in Ec. unfold pend in *. destruct (store e !! p) as [peer|] eqn:Ep.
      2: { by simplify_eq. }
      destruct (decapsulate (tunn peer) []) as [t' [r|]] eqn:E; simplify_eq/=; [|done].
      intros Ho. rewrite lookup_alter_eq, Ep. simpl.
      destruct r as [| |b|b|b]; try done; (eapply drain_decreases in E; [|done|done]; lia). }
    assert (Hstep : forall fuel, drain_tunn (S fuel) p e net tun =
      match o with ODone => Val (e', net, tun) | ONetwork b => drain_tunn fuel p e' (net ++ [b]) tun
      | OTunnelV4 b => drain_tunn fuel p e' net (tun ++ [b]) | OTunnelV6 => drain_tunn fuel p e' net tun end).
    { intros fuel. cbn [drain_tunn]. by rewrite Ec. }
    destruct o as [|b|b|].
    + exists (e', net, tun). intros [|fuel] Hf; [lia|]. apply Hstep.
    + destruct (IH p e' (net ++ [b]) tun) as [r Hr]; [by apply Hdec|].
      exists r. intros [|fuel] Hf; [lia|]. rewrite Hstep. apply Hr. lia.
    + destruct (IH p e' net (tun ++ [b])) as [r Hr]; [by apply Hdec|].
      exists r. intros [|fuel] Hf; [lia|]. rewrite Hstep. apply Hr. lia.
    + destruct (IH p e' net tun) as [r Hr]; [by apply Hdec|].
      exists r. intros [|fuel] Hf; [lia|]. rewrite Hstep. apply Hr. lia.
Qed.

Lemma deliver_all_total p now outs : forall any w, exists w', deliver_all p now outs any w = Val w'.
Proof.
  induction outs as [|pkt outs IH]; intros any w; simpl; [eauto|].
  destruct (store (eng w) !! p); [|eauto]. unfold deliverable.
  destruct (parse_ipv4_meta_total pkt) as [m ->]. simpl. case_match; apply IH.
Qed.

Lemma handle_peer_total src datagram now p w :
  exists w' n, forall fuel, (n < fuel)%nat -> handle_peer fuel src datagram now p w = Val w'.
Proof.
  unfold handle_peer. set (w1 := if is_derp src then _ else w). clearbody w1.
  assert (Hd : exists r n, forall fuel, (n < fuel)%nat -> decap_all fuel p datagram (eng w1) = Val r).
  { unfold decap_all. destruct (call_tunn _ _ _) as [e o].
    destruct o as [|b|b|]; [by eexists _, 0%nat| |by eexists _, 0%nat|by eexists _, 0%nat].
    destruct (drain_total _ p e [b] [] (Nat.le_refl _)) as [r Hr]. eauto. }
  destruct Hd as ([[e net] tun] & n & Hr).
  set (w2 := with_eng w1 e).
  set (w3 := if (negb (is_empty net) || negb (is_empty tun)) && is_udp src
             then with_eng w2 (upd p (set_auth_src src now) (eng w2)) else w2).
  destruct (deliver_all_total p now tun false (send_replies p src net w3)) as [w' Hw'].
  exists w', n. intros fuel Hf. by rewrite Hr.
Qed.

Lemma handle_peers_total src datagram now ps : forall w,
  exists w' n, forall fuel, (n < fuel)%nat -> handle_peers fuel src datagram now ps w = Val w'.
Proof.
  induction ps as [|p ps IH]; intros w; simpl; [by exists w, 0%nat|].
  destruct (handle_peer_total src datagram now p w) as (w1 & n1 & H1).
  destruct (IH w1) as (w2 & n2 & H2). exists w2, (n1 + n2)%nat. intros fuel Hf.
  rewrite H1 by lia. simpl. apply H2. lia.
Qed.

Lemma route_inbound_total e datagram : exists r, route_inbound e datagram = Val r.
Proof.
  unfold route_inbound. destruct (decide _); [eauto|]. rewrite slice_val by lia.
  unfold mbind, outcome_bind. destruct (_ =? 1); [eauto|]. destruct (_ || _); [|eauto].
  set (off := if _ =? 2 then 8%nat else 4%nat). destruct (decide (length datagram < off + 4)%nat); [eauto|].
  rewrite slice_val by lia. eauto.
Qed.

Lemma handle_outbound_total hint pkt now w : exists w', handle_outbound hint pkt now w = Val w'.
Proof.
  unfold handle_outbound. destruct (parse_ipv4_dst_total pkt) as [d ->]. simpl.
  destruct d as [dst|]; [|eauto]. destruct (peer_for_ip (eng w) dst) as [p|]; simpl; [|eauto].
  destruct (store (eng w) !! p) as [peer|] eqn:Hp; simpl; [|eauto].
  destruct (pick_addr peer hint now) as [addr|]; [|eauto]. unfold call_tunn. rewrite Hp.
  pose proof (encapsulate_to_network (tunn peer) pkt) as Hl.
  destruct (encapsulate (tunn peer) pkt) as [t' [[| |b|b|b]|]]; simpl; eauto;
    destruct (Hl t' b); congruence.
Qed.

Lemma handle_outbound_queue hint pkt now w w' : handle_outbound hint pkt now w = Val w' -> tun_tx_q w' = tun_tx_q w.
Proof.
  unfold handle_outbound. destruct (parse_ipv4_dst pkt) as [[dst|]| |]; cbn; [|by intros [= <-]|done|done].
  destruct (peer_for_ip (eng w) dst) as [p|]; cbn; [|by intros [= <-]].
  destruct (store (eng w) !! p) as [peer|]; cbn; [|by intros [= <-]].
  destruct (pick_addr peer hint now); [|by intros [= <-]]. destruct (call_tunn _ _ _) as [e [| | |]]; by intros [= <-].
Qed.

(** The packets a drain handles: those queued and those that keep coming, in order. *)
Fixpoint fed (feed : nat -> list (list Z)) (k n : nat) : list (list Z) :=
  match n with O => [] | S n => feed k ++ fed feed (S k) n end.

Lemma drain_tx_total hint now feed n : forall k w,
  (forall j, (k + n <= j)%nat -> feed j = []) ->
  exists w', forall fuel, (n + length (tun_tx_q w ++ fed feed k n) < fuel)%nat -> drain_tx fuel hint now feed k w = Val w'.
Proof.
  intros k w Hf. remember (n + length (tun_tx_q w ++ fed feed k n))%nat as m eqn:Em.
  assert (Hm : (n + length (tun_tx_q w ++ fed feed k n) <= m)%nat) by lia. clear Em. revert n k w Hf Hm.
  induction m as [|m IH]; intros n k w Hf Hm.
  - assert (n = 0%nat) as -> by lia. cbn [fed] in Hm. rewrite app_nil_r in Hm. destruct (tun_tx_q w) as [|] eqn:Eq; [|cbn in Hm; lia].
    exists w. intros [|fuel] Hfu; [lia|]. cbn [drain_tx]. rewrite Eq, Hf by lia. done.
  - destruct (tun_tx_q w ++ feed k) as [|pkt rest] eqn:Eq.
    + exists w. intros [|fuel] Hfu; [lia|]. cbn [drain_tx]. by rewrite Eq.
    + destruct (handle_outbound_total hint pkt now (with_tx w rest)) as [w1 E1].
      pose proof (handle_outbound_queue _ _ _ _ _ E1) as Hq. cbn [with_tx tun_tx_q] in Hq.
      destruct (IH (n - 1)%nat (S k) w1) as [w' Hw'].
      * intros j Hj. apply Hf. lia.
      * rewrite Hq. destruct n as [|n]; cbn [fed] in *.
        -- rewrite Hf in Eq by lia. rewrite app_nil_r in Hm, Eq. rewrite Eq in Hm. rewrite app_nil_r. cbn in *. lia.
        -- rewrite app_assoc, Eq in Hm. cbn in Hm. replace (S n - 1)%nat with n by lia. lia.
      * exists w'. intros [|fuel] Hfu; [lia|]. cbn [drain_tx]. rewrite Eq, E1. cbn. apply Hw'. lia.
Qed.

End PumpLemmas.

(** * Engine operations keep the tables consistent *)

Section EngineProperties.
Context {T : Type} `{TunnOps T}.
Implicit Types (e : Engine T) (w : Pump T).

Lemma empty_engine_wf secret : wf_engine (@empty_engine T secret).
Proof.
  split; simpl; try done.
  - intros c p Hin. by apply elem_of_nil in Hin.
  - constructor.
  - intros p [x Hx]. unfold info in Hx. simpl in Hx. by rewrite fmap_empty, lookup_empty in Hx.
Qed.

Lemma upsert_fast e cfg p peer :
  by_pubkey e !! cfg_pubkey cfg = Some p -> store e !! p = Some peer ->
  allowed_ips peer = cfg_allowed_ips cfg ->
  upsert_peer cfg e = match cfg_endpoint cfg with
                      | Some ep => upd p (set_transport_addr ep) e | None => e end.
Proof.
  intros Hk Hp Hips. unfold upsert_peer. rewrite Hk. simpl. rewrite Hp. simpl.
  by rewrite decide_True.
Qed.

(** The engine with a fresh object for [cfg], the old one unregistered. *)
Definition rebuild_peer (cfg : PeerConfig) e : Engine T :=
  let e1 := indices_remove (cfg_pubkey cfg) e in
  let idx := next_idx e1 in
  indices_insert
    (mkPeer (cfg_pubkey cfg) idx (cfg_allowed_ips cfg) (cfg_endpoint cfg) None
       (tunn_new (our_static_secret e1) (cfg_pubkey cfg) (cfg_preshared_key cfg) (cfg_keepalive cfg) idx)
       stats_default)
    (mkEngine (store e1) (next_ptr e1) (by_pubkey e1) (by_idx e1) (by_ip e1)
       (inbound_policy e1) (wrap 32 (idx + 1)) (our_static_secret e1)).

Lemma upsert_rebuild e cfg :
  (forall p peer, by_pubkey e !! cfg_pubkey cfg = Some p -> store e !! p = Some peer ->
                  allowed_ips peer <> cfg_allowed_ips cfg) ->
  upsert_peer cfg e = rebuild_peer cfg e.
Proof.
  intros Hne. unfold upsert_peer. destruct (by_pubkey e !! cfg_pubkey cfg) as [p|] eqn:Hk; [|done].
  simpl. destruct (store e !! p) as [peer|] eqn:Hp; [|done]. simpl.
  rewrite decide_False; [done|]. by eapply Hne.
Qed.

Lemma indices_remove_next e k : next_idx (indices_remove k e) = next_idx e.
Proof. unfold indices_remove. by repeat case_match. Qed.

Lemma rebuild_wf e cfg : wf_engine e -> next_idx e + 1 < 2 ^ 32 -> wf_engine (rebuild_peer cfg e).
Proof.
  intros Hwf Hn. destruct (indices_remove_wf e (cfg_pubkey cfg) Hwf) as [Hwf1 Hk1].
  unfold rebuild_peer. set (e1 := indices_remove (cfg_pubkey cfg) e) in *.
  pose proof (indices_remove_next e (cfg_pubkey cfg)) as Hni. fold e1 in Hni.
  pose proof (wf_next _ Hwf1) as Hb.
  assert (Hw : wrap 32 (next_idx e1 + 1) = next_idx e1 + 1) by (apply Z.mod_small; lia).
  rewrite Hw. apply indices_insert_wf; simpl.
  - destruct Hwf1 as [H1 H2 H3 H4 H5 H6]. split; simpl; try done; [|lia].
    intros i p Hi. destruct (H2 i p Hi) as (k & ips & ? & ? & ?). exists k, ips.
    split; [done|]. split; [done|]. lia.
  - done.
  - lia.
  - destruct (by_idx e1 !! next_idx e1) eqn:E; [|done].
    destruct (wf_idx _ Hwf1 _ _ E) as (? & ? & _ & _ & ?). lia.
Qed.

Lemma upsert_wf e cfg : wf_engine e -> next_idx e + 1 < 2 ^ 32 -> wf_engine (upsert_peer cfg e).
Proof.
  intros Hwf Hn. destruct (by_pubkey e !! cfg_pubkey cfg) as [p|] eqn:Hk.
  - destruct (wf_pub _ Hwf _ _ Hk) as (i & ips & Hi & _).
    apply info_lookup in Hi as (peer & Hp & _).
    destruct (decide (allowed_ips peer = cfg_allowed_ips cfg)) as [Heq|Hne].
    + rewrite (upsert_fast e cfg p peer) by done. case_match; [|done]. by rewrite upd_same_tables.
    + rewrite upsert_rebuild; [by apply rebuild_wf|]. intros q peer' Hq Hpeer'. congruence.
  - rewrite upsert_rebuild; [by apply rebuild_wf|]. congruence.
Qed.

Lemma set_endpoint_tables e k ep : same_tables (set_endpoint k ep e) e.
Proof. unfold set_endpoint. case_match; [|done]. by apply upd_same_tables. Qed.

Lemma set_policy_wf e pol : wf_engine e -> wf_engine (set_inbound_policy pol e).
Proof. intros []. by split. Qed.

Lemma handle_outbound_tables hint pkt now w w' :
  handle_outbound hint pkt now w = Val w' -> same_tables (eng w) (eng w') /\ tun_rx_q w' = tun_rx_q w.
Proof.
  unfold handle_outbound. destruct (parse_ipv4_dst pkt) as [d| |]; [|done|done]. simpl.
  destruct d as [dst|]; [|by intros [= <-]].
  destruct (peer_for_ip (eng w) dst) as [p|]; simpl; [|by intros [= <-]].
  destruct (store (eng w) !! p) as [peer|]; simpl; [|by intros [= <-]].
  destruct (pick_addr peer hint now) as [addr|]; [|by intros [= <-]].
  destruct (call_tunn _ _ _) as [e1 o] eqn:Ec. apply call_tunn_quiet in Ec as (S1 & _).
  destruct o; intros [= <-]; [done|]. simpl. split; [|done].
  etransitivity; [exact S1|]. symmetry. by apply upd_same_tables.
Qed.

Lemma drain_tx_tables hint now feed fuel : forall k w w',
  drain_tx fuel hint now feed k w = Val w' -> same_tables (eng w) (eng w') /\ tun_rx_q w' = tun_rx_q w.
Proof.
  induction fuel as [|fuel IH]; intros k w w' E; cbn [drain_tx] in E; [done|].
  destruct (tun_tx_q w ++ feed k) as [|pkt rest]; [by simplify_eq|].
  destruct (handle_outbound hint pkt now (with_tx w rest)) as [w1| |] eqn:E1; [|done|done]. cbn in E.
  apply handle_outbound_tables in E1 as [S1 R1]. apply IH in E as [S2 R2].
  split; [by etransitivity|by rewrite R2, R1].
Qed.

Lemma tick_peer_tables hint now w p :
  same_tables (eng w) (eng (tick_peer hint now w p)) /\ tun_rx_q (tick_peer hint now w p) = tun_rx_q w.
Proof.
  unfold tick_peer. destruct (store (eng w) !! p) as [peer|]; [|done].
  destruct (last_rx (stats peer)); [|done]. destruct (pick_addr peer hint now); [|done].
  destruct (call_tunn _ _ _) as [e1 o] eqn:Ec. apply call_tunn_quiet in Ec as (S1 & _).
  by destruct o.
Qed.

Lemma tick_peers_tables hint now ps : forall w,
  same_tables (eng w) (eng (foldl (tick_peer hint now) w ps)) /\
  tun_rx_q (foldl (tick_peer hint now) w ps) = tun_rx_q w.
Proof.
  induction ps as [|p ps IH]; intros w; [done|]. simpl.
  destruct (tick_peer_tables hint now w p) as [S1 R1]. destruct (IH (tick_peer hint now w p)) as [S2 R2].
  split; [by etransitivity|congruence].
Qed.

Context (values : gmap (list Z) nat -> list nat)
        (values_perm : forall m, values m ≡ₚ (map_to_list m).*2).

(** The peers a datagram is offered to. *)
Definition offered e (datagram : list Z) : list nat :=
  match route_inbound e datagram with
  | Val (SinglePeer p) => [p]
  | Val Broadcast => values (by_pubkey e)
  | _ => []
  end.

Lemma values_elem e p : p ∈ values (by_pubkey e) <-> exists k, by_pubkey e !! k = Some p.
Proof.
  rewrite values_perm, list_elem_of_fmap. split.
  - intros ([k q] & -> & Hin). exists k. by apply elem_of_map_to_list.
  - intros [k Hk]. exists (k, p). split; [done|]. by apply elem_of_map_to_list.
Qed.

Lemma values_nodup e : wf_engine e -> NoDup (values (by_pubkey e)).
Proof.
  intros Hwf. rewrite values_perm. apply NoDup_fmap_2_strong; [|apply NoDup_map_to_list].
  intros [k1 p1] [k2 p2] H1%elem_of_map_to_list H2%elem_of_map_to_list E. simpl in E. subst p2.
  destruct (wf_pub _ Hwf _ _ H1) as (i1 & ips1 & Hi1 & _).
  destruct (wf_pub _ Hwf _ _ H2) as (i2 & ips2 & Hi2 & _). congruence.
Qed.

Lemma offered_wf e datagram :
  wf_engine e -> NoDup (offered e datagram) /\
  forall p, p ∈ offered e datagram -> is_Some (store e !! p) /\ exists k, by_pubkey e !! k = Some p.
Proof.
  intros Hwf.
  assert (Hreg : forall k p, by_pubkey e !! k = Some p -> is_Some (store e !! p) /\ exists k, by_pubkey e !! k = Some p).
  { intros k p Hk. destruct (wf_pub _ Hwf _ _ Hk) as (i & ips & Hi & _).
    apply info_lookup in Hi as (peer & Hp & _). eauto. }
  unfold offered. destruct (route_inbound_total e datagram) as [r E]. rewrite E.
  destruct r as [p| |].
  - split; [apply NoDup_singleton|]. intros q ->%list_elem_of_singleton.
    assert (exists i, by_idx e !! i = Some p) as [i Hi].
    { unfold route_inbound in E. destruct (decide _); [done|]. rewrite slice_val in E by lia.
      unfold mbind, outcome_bind in E. destruct (_ =? 1); [done|]. destruct (_ || _); [|done].
      destruct (decide _); [done|]. destruct (slice _ _ _) as [x| |]; [|done|done].
      destruct (by_idx e !! _) eqn:Hb; [|done]. simplify_eq. eauto. }
    destruct (wf_idx _ Hwf _ _ Hi) as (k & ips & _ & Hk & _). eauto.
  - split; [by apply values_nodup|]. intros p [k Hk]%values_elem. eauto.
  - split; [apply NoDup_nil_2|]. intros p Hp. by apply elem_of_nil in Hp.
Qed.

Lemma handle_inbound_offered fuel src datagram now w :
  handle_inbound values fuel src datagram now w
  = handle_peers fuel src datagram now (offered (eng w) datagram) w.
Proof.
  unfold handle_inbound, offered. destruct (route_inbound_total (eng w) datagram) as [r ->]. simpl.
  by destruct r.
Qed.

Lemma pump_step_tables fuel hint feed rx now w w' :
  wf_engine (eng w) -> pump_step values fuel hint feed rx now w = Val w' -> same_tables (eng w) (eng w').
Proof.
  intros Hwf E. unfold pump_step in E.
  destruct (match rx with Some (src, d) => handle_inbound values fuel src d now w | None => Val w end)
    as [w1| |] eqn:E1; [|done|done].
  assert (S1 : same_tables (eng w) (eng w1)).
  { destruct rx as [[src d]|]; [|by simplify_eq]. rewrite handle_inbound_offered in E1.
    destruct (offered_wf (eng w) d Hwf) as [Hnd Hin].
    apply handle_peers_spec in E1 as [S1 _]; [done|done|]. intros p Hp. by apply Hin. }
  simpl in E. destruct (drain_tx _ _ _ _ _ _) as [w2| |] eqn:E2; [|done|done]. simpl in E.
  apply drain_tx_tables in E2 as [S2 _].
  destruct (TIMER_TICK <=? _); simplify_eq; simpl; [|by etransitivity].
  etransitivity; [exact S1|]. etransitivity; [exact S2|]. apply tick_peers_tables.
Qed.

(** Everything that happens to an engine: control-plane updates (fewer than
    2^32 - 1 of which build a peer) and turns of the pump. *)
Inductive engine_step : Engine T -> Engine T -> Prop :=
| StepUpsert e cfg : next_idx e + 1 < 2 ^ 32 -> engine_step e (upsert_peer cfg e)
| StepRemove e k : engine_step e (remove_peer k e)
| StepEndpoint e k ep : engine_step e (set_endpoint k ep e)
| StepPolicy e pol : engine_step e (set_inbound_policy pol e)
| StepPump fuel hint feed rx now w w' :
    pump_step values fuel hint feed rx now w = Val w' -> engine_step (eng w) (eng w').

Inductive reachable (secret : list Z) : Engine T -> Prop :=
| ReachInit : reachable secret (empty_engine secret)
| ReachStep e e' : reachable secret e -> engine_step e e' -> reachable secret e'.

Lemma engine_step_wf e e' : engine_step e e' -> wf_engine e -> wf_engine e'.
Proof.
  intros Hs Hwf. destruct Hs.
  - by apply upsert_wf.
  - by apply indices_remove_wf.
  - by rewrite set_endpoint_tables.
  - by apply set_policy_wf.
  - by rewrite <- pump_step_tables.
Qed.

End EngineProperties.

(** * A concrete session, for the witnesses

    It accepts handshake initiations that carry its peer's first key byte,
    answers them with two datagrams and passes data through. *)
Definition Toy : Type := (Z * nat)%type.

#[global] Instance Toy_ops : TunnOps Toy := {|
  tunn_new := fun _ pk _ _ _ => (default 0 (head pk), 0%nat);
  decapsulate := fun t d =>
    match d with
    | [] => match t.2 with O => (t, Some TDone) | S n => ((t.1, n), Some (WriteToNetwork [9])) end
    | 1 :: r => if default 0 (r !! 3%nat) =? t.1 then ((t.1, 1%nat), Some (WriteToNetwork [2]))
                else (t, Some TErr)
    | 4 :: r => (t, Some (WriteToTunnelV4 (drop 7 r)))
    | _ => (t, None)
    end;
  encapsulate := fun t pkt => (t, Some (WriteToNetwork (4 :: pkt)));
  update_timers := fun t => (t, Some TDone)
|}.

#[global] Program Instance Toy_laws : TunnLaws Toy := {| pending := snd |}.
Next Obligation.
  intros [k n] [k' n'] r. simpl. destruct n; intros [= <- <- <-] H1 H2; [done|lia].
Qed.
Next Obligation. done. Qed.

Definition toy_values (m : gmap (list Z) nat) : list nat := (map_to_list m).*2.

Definition toy_cfgs : list PeerConfig :=
  [mkPeerConfig [11] None None [mkCidr (ipv4_new 100 64 0 2) 32] (Some (Derp 1 [11]));
   mkPeerConfig [22] None None [mkCidr (ipv4_new 100 64 0 3) 32; mkCidr 0 0] (Some (Derp 2 [22]))].

Definition toy_engine : Engine Toy := Engine_new [1] toy_cfgs.

Definition toy_pump (pol : InboundPolicy) : Pump Toy :=
  mkPump (set_inbound_policy pol toy_engine) [] [] [] false [] 0.

Lemma toy_reachable : reachable toy_values [1] toy_engine.
Proof.
  unfold toy_engine, Engine_new. simpl.
  eapply ReachStep; [eapply ReachStep; [apply ReachInit|]|]; apply StepUpsert; vm_compute; reflexivity.
Qed.

Lemma reachable_wf {T} `{TunnOps T} values secret (e : Engine T) :
  (forall m, values m ≡ₚ (map_to_list m).*2) -> reachable values secret e -> wf_engine e.
Proof.
  intros Hv. induction 1 as [|e e' _ IH Hs]; [apply empty_engine_wf|].
  by eapply engine_step_wf.
Qed.

Lemma toy_wf pol : wf_engine (eng (toy_pump pol)).
Proof.
  apply set_policy_wf. eapply reachable_wf; [|apply toy_reachable]. done.
Qed.

(** A 20-byte UDP packet header from 100.64.0.2 to 100.64.0.9, port 53. *)
Definition toy_packet : list Z :=
  [0x45; 0; 0; 24; 0; 0; 0; 0; 64; 17; 0; 0; 100; 64; 0; 2; 100; 64; 0; 9; 0; 7; 0; 53].

(** * Properties *)

(** C8: in every engine reachable by control-plane updates and pump turns the
    key, index and route tables describe the same set of peers, the routes are
    sorted by falling prefix length, and every index is fresh. *)
Theorem engine_tables_consistent {T} `{TunnOps T} values secret (e : Engine T) :
  (forall m, values m ≡ₚ (map_to_list m).*2) -> reachable values secret e -> wf_engine e.
Proof. apply reachable_wf. Qed.

Lemma engine_tables_consistent_witness : wf_engine toy_engine /\ by_idx toy_engine !! 2 = Some 1%nat.
Proof.
  split; [|vm_compute; reflexivity].
  apply (engine_tables_consistent toy_values [1]); [done|apply toy_reachable].
Defined.

(** C1: plaintext reaches the local stack only out of a session and after both
    checks.  What an inbound datagram adds to the receive queue is, for each peer it
    is offered to in turn, exactly what that peer's own session hands out for the
    datagram, in order, less the packets whose source address is in no network of
    that very peer or which the current packet filter does not admit.  Nothing
    already queued is lost or reordered. *)
Theorem inbound_delivery_safe {T} `{TunnOps T} values fuel src datagram now (w w' : Pump T) :
  (forall m, values m ≡ₚ (map_to_list m).*2) -> wf_engine (eng w) ->
  handle_inbound values fuel src datagram now w = Val w' ->
  exists outs,
    Forall2 (fun p out => exists peer, store (eng w) !! p = Some peer /\ session_output (tunn peer) datagram out)
      (offered values (eng w) datagram) outs /\
    tun_rx_q w' = tun_rx_q w ++
      concat (zip_with (fun p out => filter (admissible (eng w) p) out) (offered values (eng w) datagram) outs).
Proof.
  intros Hv Hwf E. rewrite handle_inbound_offered in E.
  destruct (offered_wf values Hv (eng w) datagram Hwf) as [Hnd Hin].
  apply handle_peers_spec in E as (_ & _ & _ & Hnew); [done|done|].
  intros p Hp. by apply Hin.
Qed.

Lemma inbound_delivery_safe_witness :
  exists w', handle_inbound toy_values 5 (Udp (SAV4 7 7)) ([4; 0; 0; 0; 0; 1; 0; 0] ++ toy_packet) 3
               (toy_pump AllowAll) = Val w' /\
  tun_rx_q w' = [toy_packet] /\
  exists outs, length outs = 1%nat /\ tun_rx_q w' = concat (zip_with (fun p out => filter (admissible (eng (toy_pump AllowAll)) p) out)
    (offered toy_values (eng (toy_pump AllowAll)) ([4; 0; 0; 0; 0; 1; 0; 0] ++ toy_packet)) outs).
Proof.
  eexists. split; [vm_compute; reflexivity|]. split; [vm_compute; reflexivity|].
  edestruct (inbound_delivery_safe toy_values 5 (Udp (SAV4 7 7))
            ([4; 0; 0; 0; 0; 1; 0; 0] ++ toy_packet) 3 (toy_pump AllowAll)) as (outs & Hf & Hq);
    [done|apply toy_wf|vm_compute; reflexivity|].
  exists outs. split; [|exact Hq]. apply Forall2_length in Hf. rewrite <- Hf. vm_compute. reflexivity.
Defined.

(** the reply address of a peer moves only on authenticated traffic: if an
    inbound datagram changes a peer's [auth_src], the datagram came over UDP,
    the new value is its source with the current time, and that peer's session
    accepted the datagram. *)
Theorem auth_src_only_authenticated {T} `{TunnOps T} values fuel src datagram now (w w' : Pump T) q peer peer' :
  (forall m, values m ≡ₚ (map_to_list m).*2) -> wf_engine (eng w) ->
  handle_inbound values fuel src datagram now w = Val w' ->
  store (eng w) !! q = Some peer -> store (eng w') !! q = Some peer' ->
  auth_src peer' <> auth_src peer ->
  auth_src peer' = Some (src, now) /\ is_udp src = true /\ produced (tunn peer) datagram.
Proof.
  intros Hv Hwf E Hq Hq' Hne. rewrite handle_inbound_offered in E.
  destruct (offered_wf values Hv (eng w) datagram Hwf) as [Hnd Hin].
  apply handle_peers_spec in E as (_ & F & P & _); [|done|intros p Hp; by apply Hin].
  destruct (decide (q ∈ offered values (eng w) datagram)) as [Ho|Ho].
  - destruct (P q peer Ho Hq) as (p2 & Hp2 & _ & [Ha|Ha]); simplify_eq; done.
  - rewrite F in Hq' by done. simplify_eq.
Qed.

Lemma auth_src_only_authenticated_witness :
  exists w', handle_inbound toy_values 5 (Udp (SAV4 7 7)) [1; 0; 0; 0; 22] 3 (toy_pump AllowAll) = Val w' /\
  exists peer peer', store (eng (toy_pump AllowAll)) !! 1%nat = Some peer /\
    store (eng w') !! 1%nat = Some peer' /\
    auth_src peer' = Some (Udp (SAV4 7 7), 3) /\ is_udp (Udp (SAV4 7 7)) = true /\
    produced (tunn peer) [1; 0; 0; 0; 22].
Proof.
  eexists. split; [vm_compute; reflexivity|]. eexists _, _.
  split; [vm_compute; reflexivity|]. split; [vm_compute; reflexivity|].
  eapply (auth_src_only_authenticated toy_values 5 (Udp (SAV4 7 7)) [1; 0; 0; 0; 22] 3
            (toy_pump AllowAll) _ 1).
  - done.
  - apply toy_wf.
  - vm_compute. reflexivity.
  - vm_compute. reflexivity.
  - vm_compute. reflexivity.
  - vm_compute. congruence.
Defined.

(** a datagram with a receiver index is handled inside one peer: no other
    peer object changes in any way. *)
Theorem inbound_single_peer_frame {T} `{TunnOps T} values fuel src datagram now (w w' : Pump T) p q :
  (forall m, values m ≡ₚ (map_to_list m).*2) -> wf_engine (eng w) ->
  route_inbound (eng w) datagram = Val (SinglePeer p) -> q <> p ->
  handle_inbound values fuel src datagram now w = Val w' ->
  store (eng w') !! q = store (eng w) !! q.
Proof.
  intros Hv Hwf Hr Hq E. rewrite handle_inbound_offered in E.
  destruct (offered_wf values Hv (eng w) datagram Hwf) as [Hnd Hin].
  apply handle_peers_spec in E as (_ & F & _); [|done|intros r Hr'; by apply Hin].
  apply F. unfold offered. rewrite Hr. by rewrite list_elem_of_singleton.
Qed.

Lemma inbound_single_peer_frame_witness :
  exists w', handle_inbound toy_values 5 (Derp 3 [5]) ([4; 0; 0; 0; 0; 1; 0; 0] ++ toy_packet) 3
               (toy_pump AllowAll) = Val w' /\
  store (eng w') !! 1%nat = store (eng (toy_pump AllowAll)) !! 1%nat.
Proof.
  eexists. split; [vm_compute; reflexivity|].
  eapply (inbound_single_peer_frame toy_values 5 (Derp 3 [5])
            ([4; 0; 0; 0; 0; 1; 0; 0] ++ toy_packet) 3 (toy_pump AllowAll) _ 0 1).
  - done.
  - apply toy_wf.
  - vm_compute. reflexivity.
  - done.
  - vm_compute. reflexivity.
Defined.

(** a handshake initiation that arrives over DERP rewrites the relay
    fallback of every registered peer to the datagram's sender, whether or not
    any session accepts it. *)
Theorem derp_init_rewrites_every_fallback {T} `{TunnOps T} values fuel region sender datagram now
    (w w' : Pump T) k p :
  (forall m, values m ≡ₚ (map_to_list m).*2) -> wf_engine (eng w) ->
  route_inbound (eng w) datagram = Val Broadcast ->
  by_pubkey (eng w) !! k = Some p ->
  handle_inbound values fuel (Derp region sender) datagram now w = Val w' ->
  exists peer', store (eng w') !! p = Some peer' /\ transport_addr peer' = Some (Derp region sender).
Proof.
  intros Hv Hwf Hr Hk E. rewrite handle_inbound_offered in E.
  destruct (offered_wf values Hv (eng w) datagram Hwf) as [Hnd Hin].
  assert (Ho : p ∈ offered values (eng w) datagram).
  { unfold offered. rewrite Hr. apply values_elem; eauto. }
  destruct (Hin p Ho) as [[peer Hp] _].
  apply handle_peers_spec in E as (_ & _ & P & _); [|done|intros r Hr'; by apply Hin].
  destruct (P p peer Ho Hp) as (peer' & Hp' & Ht & _). eauto.
Qed.

Lemma derp_init_rewrites_every_fallback_witness :
  exists w', handle_inbound toy_values 5 (Derp 9 [99]) [1; 0; 0; 0; 77] 3 (toy_pump DenyAll) = Val w' /\
  exists peer', store (eng w') !! 0%nat = Some peer' /\ transport_addr peer' = Some (Derp 9 [99]).
Proof.
  eexists. split; [vm_compute; reflexivity|].
  eapply (derp_init_rewrites_every_fallback toy_values 5 9 [99] [1; 0; 0; 0; 77] 3 (toy_pump DenyAll) _ [11] 0).
  - done.
  - apply toy_wf.
  - vm_compute. reflexivity.
  - vm_compute. reflexivity.
  - vm_compute. reflexivity.
Defined.

(** C33: outbound routing is longest-prefix match over the routes of the
    registered peers: the chosen peer has a route containing the destination,
    no registered route containing it is longer, and there is no choice only
    if no registered route contains it. *)
Theorem peer_for_ip_longest_prefix {T} `{TunnOps T} (e : Engine T) dst :
  wf_engine e ->
  match peer_for_ip e dst with
  | Some p => exists k i ips c, by_pubkey e !! k = Some p /\ info e !! p = Some (k, i, ips) /\
      c ∈ ips /\ contains c dst = true /\
      forall k' q i' ips' c', by_pubkey e !! k' = Some q -> info e !! q = Some (k', i', ips') ->
        c' ∈ ips' -> contains c' dst = true -> cidr_prefix c' <= cidr_prefix c
  | None => forall k q i ips c, by_pubkey e !! k = Some q -> info e !! q = Some (k, i, ips) ->
        c ∈ ips -> contains c dst = false
  end.
Proof.
  intros Hwf. unfold peer_for_ip, allowed_lookup.
  assert (Hin : forall k q i ips c, by_pubkey e !! k = Some q -> info e !! q = Some (k, i, ips) ->
                  c ∈ ips -> (c, q) ∈ by_ip e).
  { intros k q i ips c Hk Hi Hc. destruct (wf_pub _ Hwf _ _ Hk) as (i' & ips' & Hi' & _ & Hall).
    rewrite Hi in Hi'. simplify_eq. auto. }
  destruct (List.find _ (by_ip e)) as [[c p]|] eqn:E; simpl.
  - apply find_longest in E as (He & Hc & Hmax); [|apply Hwf]. simpl in *.
    destruct (wf_ip _ Hwf _ _ He) as (k & i & ips & Hi & Hk & Hci).
    exists k, i, ips, c. split_and!; try done.
    intros k' q i' ips' c' Hk' Hi' Hc' Hcon. apply (Hmax (c', q)); [eauto|done].
  - intros k q i ips c Hk Hi Hc. eapply (List.find_none _ _ E (c, q)).
    apply list_elem_of_In. eauto.
Qed.

Lemma peer_for_ip_longest_prefix_witness :
  peer_for_ip toy_engine (ipv4_new 100 64 0 2) = Some 0%nat /\
  peer_for_ip toy_engine (ipv4_new 8 8 8 8) = Some 1%nat /\
  match peer_for_ip toy_engine (ipv4_new 8 8 8 8) with
  | Some p => exists k i ips c, by_pubkey toy_engine !! k = Some p /\
      info toy_engine !! p = Some (k, i, ips) /\ c ∈ ips /\ contains c (ipv4_new 8 8 8 8) = true /\
      forall k' q i' ips' c', by_pubkey toy_engine !! k' = Some q ->
        info toy_engine !! q = Some (k', i', ips') -> c' ∈ ips' ->
        contains c' (ipv4_new 8 8 8 8) = true -> cidr_prefix c' <= cidr_prefix c
  | None => forall k q i ips c, by_pubkey toy_engine !! k = Some q ->
      info toy_engine !! q = Some (k, i, ips) -> c ∈ ips -> contains c (ipv4_new 8 8 8 8) = false
  end.
Proof.
  split; [vm_compute; reflexivity|]. split; [vm_compute; reflexivity|].
  apply peer_for_ip_longest_prefix. eapply reachable_wf; [|apply toy_reachable]. done.
Defined.

(** a control-plane update that keeps a peer's routes keeps its session: the
    object, its index, its Noise state and its reply address stay, only the
    fallback endpoint is refreshed.  An update with new routes registers a
    fresh object under a fresh index and makes the old index unroutable. *)
Theorem upsert_preserves_session {T} `{TunnOps T} (e : Engine T) cfg p peer :
  wf_engine e -> next_idx e + 1 < 2 ^ 32 ->
  by_pubkey e !! cfg_pubkey cfg = Some p -> store e !! p = Some peer ->
  let e' := upsert_peer cfg e in
  if decide (allowed_ips peer = cfg_allowed_ips cfg) then
    same_tables e e' /\
    store e' !! p = Some (match cfg_endpoint cfg with Some ep => set_transport_addr ep peer | None => peer end)
  else
    by_idx e' !! our_index peer = None /\
    exists q, by_pubkey e' !! cfg_pubkey cfg = Some q /\ q <> p /\
      info e' !! q = Some (cfg_pubkey cfg, next_idx e, cfg_allowed_ips cfg).
Proof.
  intros Hwf Hn Hk Hp. simpl. case_decide as Hips.
  - rewrite (upsert_fast e cfg p peer) by done. destruct (cfg_endpoint cfg) as [ep|]; [|done].
    split; [symmetry; by apply upd_same_tables|]. by rewrite upd_store, decide_True, Hp.
  - rewrite upsert_rebuild by congruence. unfold rebuild_peer.
    destruct (indices_remove_unfold e _ p Hwf Hk) as (i & Hi & ->). simpl.
    destruct (wf_idx _ Hwf _ _ Hi) as (k & ips & Hinf & Hk' & Hb).
    apply info_lookup in Hinf as (peer' & Hp' & _ & Hidx & _). simplify_eq. split.
    + rewrite lookup_insert_ne by lia. apply lookup_delete_eq.
    + exists (next_ptr e). rewrite lookup_insert_eq. split; [done|].
      assert (p < next_ptr e)%nat.
      { apply (wf_ptr _ Hwf). unfold info. rewrite lookup_fmap, Hp. eauto. }
      split; [lia|]. apply info_lookup. simpl. rewrite lookup_insert_eq. eauto.
Qed.

Lemma upsert_preserves_session_witness :
  exists peer, store toy_engine !! 0%nat = Some peer /\
  store (upsert_peer (mkPeerConfig [11] None None [mkCidr (ipv4_new 100 64 0 2) 32] (Some (Derp 5 [11])))
           toy_engine) !! 0%nat = Some (set_transport_addr (Derp 5 [11]) peer).
Proof.
  destruct (store toy_engine !! 0%nat) as [peer|] eqn:Hp; [|by vm_compute in Hp].
  exists peer. split; [done|].
  pose proof (upsert_preserves_session toy_engine
    (mkPeerConfig [11] None None [mkCidr (ipv4_new 100 64 0 2) 32] (Some (Derp 5 [11]))) 0 peer) as Hs.
  cbv zeta in Hs. rewrite decide_True in Hs by (vm_compute in Hp; injection Hp as <-; reflexivity).
  apply Hs; [|vm_compute; reflexivity|vm_compute; reflexivity|exact Hp].
  eapply reachable_wf; [|apply toy_reachable]. done.
Defined.

(** A turn of the pump completes, for a session whose queue drains, once the other
    threads have stopped adding packets: from then on the drain of the queue is
    finite.  The result does not depend on the fuel. *)
Lemma pump_step_total {T} `{TunnOps T} `{!TunnLaws T} values hint feed n rx now (w : Pump T) :
  (forall j, (n <= j)%nat -> feed j = []) ->
  exists w' m, forall fuel, (m < fuel)%nat -> pump_step values fuel hint feed rx now w = Val w'.
Proof.
  intros Hn. unfold pump_step.
  assert (H1 : exists w1 n, forall fuel, (n < fuel)%nat ->
    match rx with Some (src, d) => handle_inbound values fuel src d now w | None => Val w end = Val w1).
  { destruct rx as [[src d]|]; [|by exists w, 0%nat].
    setoid_rewrite handle_inbound_offered. apply handle_peers_total. }
  destruct H1 as (w1 & n1 & H1). destruct (drain_tx_total hint now feed n 0 w1 Hn) as [w2 H2].
  destruct (TIMER_TICK <=? now - last_tick w2) eqn:Et;
    eexists _, (n1 + (n + length (tun_tx_q w1 ++ fed feed 0 n)))%nat; intros fuel Hf;
    rewrite H1 by lia; unfold mbind at 1, outcome_bind at 1; rewrite H2 by lia; simpl; rewrite Et; reflexivity.
Qed.

(** The send address of a peer follows a strict order: an authenticated
    source at most 6.5 s old, else a direct path the oracle vouches for, else
    the relay fallback; a stale authenticated source is never used. *)
Theorem pick_addr_order {T} (peer : Peer T) hint now addr :
  pick_addr peer hint now = Some addr <->
  (exists at_, auth_src peer = Some (addr, at_) /\ now - at_ < AUTH_SRC_TRUST) \/
  ((forall a at_, auth_src peer = Some (a, at_) -> AUTH_SRC_TRUST <= now - at_) /\
   ((exists h sa, hint = Some h /\ h (pubkey peer) = Some sa /\ addr = Udp sa) \/
    ((forall h, hint = Some h -> h (pubkey peer) = None) /\ transport_addr peer = Some addr))).
Proof.
  unfold pick_addr, auth_src_fresh.
  destruct (auth_src peer) as [[a at_]|].
  - destruct (Z.ltb_spec (Z.max 0 (now - at_)) AUTH_SRC_TRUST) as [Hlt|Hge].
    + split; [intros [= <-]; left; exists at_; split; [done|lia]|].
      intros [(at' & [= -> ->] & _)|[Hst _]]; [done|]. specialize (Hst a at_ eq_refl). lia.
    + assert (AUTH_SRC_TRUST <= now - at_) by (unfold AUTH_SRC_TRUST in *; lia).
      destruct hint as [h|]; [destruct (h (pubkey peer)) eqn:Eh|]; naive_solver lia.
  - destruct hint as [h|]; [destruct (h (pubkey peer)) eqn:Eh|]; naive_solver.
Qed.
