(* ===== verification/Boringtun.v ===== *)
(** The packet queue of the vendored boringtun (vendor/boringtun/src/noise/mod.rs):
    encapsulation with and without a session, the queue of packets that wait for one,
    and the repeated call with an empty datagram that works it off.  It is what makes
    the drain loop of the engine's pump end.

    The handshake, the cipher and the timers are parameters: [seal] is
    [format_packet_data] with the current session ([None] is its panic), [initiate] the
    handshake's [format_handshake_initiation], [accept] the handling of a datagram that
    is not empty. *)

From S2P Require Import Prelude NetTypes WgPolicy WgEngine.
#[local] Open Scope Z_scope.

Definition MAX_QUEUE_DEPTH : nat := 256.

(** [session] says whether the current slot of the ring holds a session, [in_progress]
    is [handshake.is_in_progress()]; [inner] is the rest. *)
Record Tunn (R : Type) : Type := mkTunn { packet_queue : list (list Z); session : bool; in_progress : bool; inner : R }.
Arguments mkTunn {R} _ _ _ _.
Arguments packet_queue {R} _.
Arguments session {R} _.
Arguments in_progress {R} _.
Arguments inner {R} _.

Class Noise (R : Type) : Type := {
  seal : R -> list Z -> R * option (list Z);
  initiate : R -> R * option (list Z);
  accept : Tunn R -> list Z -> Tunn R * option TunnResult;
  timers : Tunn R -> Tunn R * option TunnResult;
  fresh : list Z -> list Z -> option (list Z) -> option Z -> Z -> R
}.

Section Tunn.
Context {R : Type} `{Noise R}.

Definition queue_packet (p : list Z) (t : Tunn R) : Tunn R :=
  if decide (length (packet_queue t) < MAX_QUEUE_DEPTH)%nat
  then mkTunn (packet_queue t ++ [p]) (session t) (in_progress t) (inner t) else t.
Definition requeue_packet (p : list Z) (t : Tunn R) : Tunn R :=
  if decide (length (packet_queue t) < MAX_QUEUE_DEPTH)%nat
  then mkTunn (p :: packet_queue t) (session t) (in_progress t) (inner t) else t.
Definition dequeue_packet (t : Tunn R) : option (list Z * Tunn R) :=
  match packet_queue t with [] => None | p :: q => Some (p, mkTunn q (session t) (in_progress t) (inner t)) end.

(** [force_resend] is false in every call made here.  A handshake that was sent is in
    progress. *)
Definition format_handshake_initiation (t : Tunn R) : Tunn R * TunnResult :=
  if in_progress t then (t, TDone)
  else
    let '(r, sent) := initiate (inner t) in
    match sent with
    | Some packet => (mkTunn (packet_queue t) (session t) true r, WriteToNetwork packet)
    | None => (mkTunn (packet_queue t) (session t) false r, TErr)
    end.

Definition tunn_encapsulate (t : Tunn R) (src : list Z) : Tunn R * option TunnResult :=
  if session t then
    let '(r, packet) := seal (inner t) src in
    (mkTunn (packet_queue t) true (in_progress t) r, WriteToNetwork <$> packet)
  else let '(t, r) := format_handshake_initiation (queue_packet src t) in (t, Some r).

Definition send_queued_packet (t : Tunn R) : Tunn R * option TunnResult :=
  match dequeue_packet t with
  | Some (packet, t) =>
      match tunn_encapsulate t packet with
      | (t, Some TErr) => (requeue_packet packet t, Some TDone)
      | r => r
      end
  | None => (t, Some TDone)
  end.

Definition tunn_decapsulate (t : Tunn R) (datagram : list Z) : Tunn R * option TunnResult :=
  match datagram with [] => send_queued_packet t | _ => accept t datagram end.

#[global] Instance tunn_ops : TunnOps (Tunn R) := {|
  tunn_new a b c d e := mkTunn [] false false (fresh a b c d e);
  decapsulate := tunn_decapsulate;
  encapsulate := tunn_encapsulate;
  update_timers := timers
|}.

(** What a repeated call can still produce: a datagram for each queued packet, or one
    handshake. *)
Definition to_send (t : Tunn R) : nat := (length (packet_queue t) + if in_progress t then 0 else 1)%nat.

Lemma encapsulate_network t src t' r : tunn_encapsulate t src = (t', r) ->
  r = Some TDone \/ r = Some TErr \/ r = None \/ exists b, r = Some (WriteToNetwork b).
Proof.
  unfold tunn_encapsulate, format_handshake_initiation. destruct (session t).
  - destruct (seal (inner t) src) as [x [b|]]; intros [= <- <-]; cbn; eauto 6.
  - destruct (in_progress _); [intros [= <- <-]; auto|]. destruct (initiate _) as [x [b|]]; intros [= <- <-]; eauto 6.
Qed.

(** Asking again gives less to ask for: the law of the drain loop holds of this code. *)
Lemma repeated_call_decreases t t' r : tunn_decapsulate t [] = (t', Some r) -> r <> TDone -> r <> TErr -> (to_send t' < to_send t)%nat.
Proof.
  unfold tunn_decapsulate, send_queued_packet, dequeue_packet, to_send. destruct (packet_queue t) as [|p q] eqn:Eq; [by intros [= <- <-]|].
  destruct (tunn_encapsulate _ p) as [t1 r1] eqn:E. unfold tunn_encapsulate in E. cbn [session inner in_progress packet_queue] in E.
  destruct (session t).
  - destruct (seal (inner t) p) as [x [b|]]; injection E as <- <-; cbn; [|done]. intros [= <- <-] _ _. cbn. destruct (in_progress t); lia.
  - unfold format_handshake_initiation, queue_packet in E. cbn [packet_queue session inner in_progress] in E.
    case_decide; cbn [packet_queue session inner in_progress] in E;
      (destruct (in_progress t); [injection E as <- <-; by intros [= <- <-]|]);
      destruct (initiate (inner t)) as [x [b|]]; injection E as <- <-; intros [= <- <-]; try done; intros _ _; cbn;
      rewrite ?length_app; cbn; lia.
Qed.

#[global, refine] Instance tunn_laws : TunnLaws (Tunn R) := { pending := to_send }.
Proof.
  - intros t t' r. apply repeated_call_decreases.
  - intros t pkt t' b. split; intros E; apply encapsulate_network in E as [?|[?|[?|[? ?]]]]; done.
Defined.
End Tunn.

(** ** The pump over this session *)

(** C37: a turn of the pump completes.  With the packet queue of the vendored boringtun
    and whatever its handshake, cipher and timers do, whatever datagram arrives and
    whatever is queued: once the other threads add nothing more to the outbound queue,
    the turn returns, with one result for every sufficient fuel. *)
Theorem pump_step_terminates {R} `{Noise R} values hint feed n rx now (w : Pump (Tunn R)) :
  (forall j, (n <= j)%nat -> feed j = []) ->
  exists w' m, forall fuel, (m < fuel)%nat -> pump_step values fuel hint feed rx now w = Val w'.
Proof. apply pump_step_total. Qed.

(** That other threads pause is needed: the drain goes on as long as packets come, and
    neither the socket nor the timers have their turn. *)
Theorem drain_starves {T} `{TunnOps T} hint now pkt fuel : forall k (w : Pump T),
  (forall w : Pump T, exists w', handle_outbound hint pkt now w = Val w' /\ tun_tx_q w' = tun_tx_q w) ->
  tun_tx_q w = [] -> drain_tx fuel hint now (fun _ => [pkt]) k w = OutOfFuel.
Proof.
  induction fuel as [|fuel IH]; intros k w Hh Hq; cbn [drain_tx]; [done|]. rewrite Hq. cbn [app].
  destruct (Hh (with_tx w [])) as (w' & -> & Hq'). cbn. by apply IH.
Qed.

(** A cipher that marks what it seals, for the witness. *)
#[global] Instance toy_noise : Noise nat := {|
  seal n p := (S n, Some (4 :: p));
  initiate n := (S n, Some [1]);
  accept t d := match d with 1 :: _ => (mkTunn (packet_queue t) true false (inner t), Some (WriteToNetwork [2])) | _ => (t, Some TErr) end;
  timers t := (t, Some TDone);
  fresh _ _ _ _ _ := 0%nat
|}.

Definition toy_tunn_pump : Pump (Tunn nat) :=
  mkPump (Engine_new [1] toy_cfgs) [] [toy_packet] [] false [] 0.

Lemma pump_step_terminates_witness :
  exists w' m, forall fuel, (m < fuel)%nat ->
    pump_step toy_values fuel None (fun k => if (k <? 3)%nat then [toy_packet] else []) (Some (Udp (SAV4 7 7), [1; 0; 0; 0; 11])) 5 toy_tunn_pump = Val w'.
Proof. apply (pump_step_terminates toy_values None _ 3). intros j Hj. destruct (Nat.ltb_spec j 3); [lia|done]. Defined.
