(* ===== verification/VitaFs.v ===== *)
(** File input and output: what the services rely on (the classes [Fs] and
    [FsLaws]) and the Vita backend of vita-fs ([vita.rs]) that provides it over
    the kernel's sceIo calls.

    The kernel is a parameter: the class [SceIo] has its calls on descriptors
    and paths, [SceIoLaws] what is documented of them.  Loops over a descriptor
    carry fuel; writes need the length of the data, reads and directory walks
    take it as an argument. *)

From S2P Require Import Prelude.
#[local] Open Scope Z_scope.

(** * The interface *)

Record DirEntry : Type := mkEntry { entry_name : list Z; is_dir : bool; entry_size : Z }.

(** [io::ErrorKind], as far as callers look at it. *)
Inductive IoError : Type := NotFound | OtherError.
#[global] Instance io_error_eq_dec : EqDecision IoError.
Proof. solve_decision. Defined.

(** vita_fs: [None] and [false] are errors nobody looks at. *)
Class Fs (W : Type) : Type := {
  fs_read_dir : W -> list Z -> option (list DirEntry);
  fs_read : W -> list Z -> result IoError (list Z);
  fs_write : W -> list Z -> list Z -> W * bool;
  fs_append : W -> list Z -> list Z -> W * bool;
  fs_remove_file : W -> list Z -> W * bool;
  fs_create_dir_all : W -> list Z -> W * bool;
  fs_rename : W -> list Z -> list Z -> W * bool
}.

(** [Path::join] of a directory and a bare name. *)
Definition join (d n : list Z) : list Z :=
  match head (reverse d) with None => n | Some c => if c =? 47 then d ++ n else d ++ 47 :: n end.

(** A bare file name: no separator and no NUL. *)
Definition plain (n : list Z) : Prop := n <> [] /\ (47 ∉ n) /\ (58 ∉ n) /\ 0 ∉ n.

Lemma plain_app a b : plain a -> (47 ∉ b) -> (58 ∉ b) -> 0 ∉ b -> plain (a ++ b).
Proof.
  intros (Hne & H1 & H2 & H3) B1 B2 B3. split_and!; rewrite ?not_elem_of_app; try tauto. by destruct a.
Qed.

(** A name without capitals, in ASCII: one that folding of case leaves alone. *)
Definition lower_name (n : list Z) : bool := forallb (fun b => (0 <=? b) && (b <? 128) && negb ((65 <=? b) && (b <=? 90))) n.
(** The names that the runtime gives its own files. *)
Definition own_name (n : list Z) : Prop := plain n /\ lower_name n = true.

Lemma own_name_app a b : own_name a -> (47 ∉ b) -> (58 ∉ b) -> (0 ∉ b) -> lower_name b = true -> own_name (a ++ b).
Proof. intros [H1 H2] B1 B2 B3 B4. split; [by apply plain_app|]. unfold lower_name in *. by rewrite forallb_app, H2, B4. Qed.

(** What the files of directory [d] hold, and how the operations change it.
    [names p] is the file a path names: paths may have several spellings, and a
    name in the directory is known up to [folded], which may ignore case; a
    listing shows one spelling.  A write that cannot clear an old file adds to
    it. *)
Class FsLaws (W : Type) `{Fs W} (d : list Z) : Type := {
  names : list Z -> list Z;
  content : W -> list Z -> option (list Z);
  folded : list Z -> list Z;
  folded_lower : forall n, lower_name n = true -> folded n = n;
  names_join : forall a b, plain a -> plain b -> names (join d a) = names (join d b) -> folded a = folded b;
  read_law : forall w p,
    (forall b, fs_read w p = Ok b -> content w (names p) = Some b) /\
    (fs_read w p = Err NotFound -> content w (names p) = None);
  write_law : forall w w' ok p b, fs_write w p b = (w', ok) ->
    (ok = true -> content w' (names p) = Some b \/
                  exists c, content w (names p) = Some c /\ content w' (names p) = Some (c ++ b)) /\
    forall q, q <> names p -> content w' q = content w q;
  append_law : forall w w' ok p b, fs_append w p b = (w', ok) ->
    (ok = true -> content w' (names p) = Some (default [] (content w (names p)) ++ b)) /\
    forall q, q <> names p -> content w' q = content w q;
  remove_law : forall w w' ok p, fs_remove_file w p = (w', ok) ->
    (ok = true -> content w' (names p) = None) /\ forall q, q <> names p -> content w' q = content w q;
  mkdir_law : forall w w' ok p q, fs_create_dir_all w p = (w', ok) -> content w' q = content w q;
  rename_law : forall w w' ok p q, fs_rename w p q = (w', ok) -> names p <> names q ->
    (ok = true -> content w' (names q) = content w (names p) /\ is_Some (content w (names p)) /\
                  content w' (names p) = None) /\
    (ok = false -> content w' (names p) = content w (names p) /\
                   (content w' (names q) = content w (names q) \/ content w' (names q) = None)) /\
    forall r, r <> names p -> r <> names q -> content w' r = content w r;
  list_law : forall w es, fs_read_dir w d = Some es ->
    forall n c, plain n -> n <> [46] -> n <> [46; 46] -> content w (names (join d n)) = Some c ->
    exists n', folded n' = folded n /\ mkEntry n' false (Z.of_nat (length c)) ∈ es
}.

(** Names of the runtime's own files are told apart exactly. *)
Lemma own_names_join {W} `{FsLaws W d} a b : own_name a -> own_name b -> names (join d a) = names (join d b) -> a = b.
Proof. intros [Ha La] [Hb Lb] E%names_join; [|done..]. by rewrite !folded_lower in E. Qed.

(** * The kernel *)

Record Dirent : Type := mkDirent { d_name : list Z; st_attr : Z; st_size : Z }.

(** Calls answer a count, a descriptor or a negative error code. *)
Class SceIo (K : Type) : Type := {
  sceIoOpen : K -> list Z -> Z -> K * Z;
  sceIoRead : K -> Z -> Z -> K * Z * list Z;
  sceIoWrite : K -> Z -> list Z -> K * Z;
  sceIoClose : K -> Z -> K;
  sceIoSyncByFd : K -> Z -> K;
  sceIoMkdir : K -> list Z -> K * Z;
  sceIoRemove : K -> list Z -> K * Z;
  sceIoRename : K -> list Z -> list Z -> K * Z;
  sceIoDopen : K -> list Z -> K * Z;
  sceIoDread : K -> Z -> K * Z * Dirent;
  sceIoDclose : K -> Z -> K
}.

Definition SCE_O_RDONLY : Z := 1.
Definition SCE_O_WRONLY : Z := 2.
Definition SCE_O_CREAT : Z := 512.
Definition SCE_O_APPEND : Z := 256.
Definition SCE_SO_IFMT : Z := 56.
Definition SCE_SO_IFDIR : Z := 16.
Definition SCE_ERRNO_ENOENT : Z := 0x80010002 - 2 ^ 32.
Definition SCE_ERRNO_EEXIST : Z := 0x80010011 - 2 ^ 32.
Definition READ_CHUNK : Z := 8192.

(** * The backend *)

(** The slash right after the first colon goes. *)
Fixpoint norm (s : list Z) : list Z :=
  match s with
  | [] => []
  | c :: r =>
      if c =? 58 then c :: match r with x :: t => if x =? 47 then t else r | [] => [] end
      else c :: norm r
  end.

(** [CString::new]. *)
Definition cstr (s : list Z) : option (list Z) := if existsb (Z.eqb 0) s then None else Some s.

Section Backend.
Context {K : Type} `{SceIo K}.

Definition O_WRITE : Z := Z.lor (Z.lor SCE_O_WRONLY SCE_O_CREAT) SCE_O_APPEND.

(** The write loop; each pass hands the kernel [buf.len() as u32] bytes.  A
    count past the buffer would panic in the slice. *)
Fixpoint write_loop (fuel : nat) (fd : Z) (buf : list Z) (k : K) : outcome (K * bool) :=
  match buf with
  | [] => Val (sceIoClose (sceIoSyncByFd k fd) fd, true)
  | _ =>
      match fuel with
      | O => OutOfFuel
      | S f =>
          let '(k, n) := sceIoWrite k fd (take (Z.to_nat (wrap 32 (Z.of_nat (length buf)))) buf) in
          if n <=? 0 then Val (sceIoClose k fd, false)
          else if Z.of_nat (length buf) <? n then Panicked
          else write_loop f fd (drop (Z.to_nat n) buf) k
      end
  end.

Definition open_and_write (cp data : list Z) (k : K) : outcome (K * bool) :=
  let '(k, fd) := sceIoOpen k cp O_WRITE in
  if fd <? 0 then Val (k, false) else write_loop (length data) fd data k.

Definition write (path data : list Z) (k : K) : outcome (K * bool) :=
  match cstr (norm path) with
  | None => Val (k, false)
  | Some cp => let '(k, _) := sceIoRemove k cp in open_and_write cp data k
  end.

Definition append (path data : list Z) (k : K) : outcome (K * bool) :=
  match cstr (norm path) with
  | None => Val (k, false)
  | Some cp => open_and_write cp data k
  end.

(** The whole file, or an error when a call fails. *)
Fixpoint read_loop (fuel : nat) (fd : Z) (out : list Z) (k : K) : outcome (K * result IoError (list Z)) :=
  match fuel with
  | O => OutOfFuel
  | S f =>
      let '(k, n, b) := sceIoRead k fd READ_CHUNK in
      if n <? 0 then Val (sceIoClose k fd, Err OtherError)
      else if n =? 0 then Val (sceIoClose k fd, Ok out)
      else read_loop f fd (out ++ take (Z.to_nat n) b) k
  end.

Definition read (fuel : nat) (path : list Z) (k : K) : outcome (K * result IoError (list Z)) :=
  match cstr (norm path) with
  | None => Val (k, Err OtherError)
  | Some cp =>
      let '(k, fd) := sceIoOpen k cp SCE_O_RDONLY in
      if fd <? 0 then Val (k, Err (if fd =? SCE_ERRNO_ENOENT then NotFound else OtherError))
      else read_loop fuel fd [] k
  end.

(** A mkdir of every prefix that ends before a slash or at the end, past the
    device; answers do not matter. *)
Fixpoint mkdir_from (i : nat) (rest : nat) (s : list Z) (colon : nat) (k : K) : K * bool :=
  let at_sep := (i =? length s)%nat || bool_decide (s !! i = Some 47) in
  let go k := match rest with O => (k, true) | S r => mkdir_from (S i) r s colon k end in
  if at_sep && (colon <? i)%nat then
    match cstr (take i s) with
    | None => (k, false)
    | Some sub => let '(k, _) := sceIoMkdir k sub in go k
    end
  else go k.

Definition after_colon (s : list Z) : nat :=
  match list_find (eq 58) s with Some (i, _) => S i | None => O end.

Definition create_dir_all (path : list Z) (k : K) : K * bool :=
  let s := norm path in
  let colon := after_colon s in
  mkdir_from colon (length s - colon) s colon k.

Definition remove_file (path : list Z) (k : K) : K * bool :=
  match cstr (norm path) with
  | None => (k, false)
  | Some cp => let '(k, rc) := sceIoRemove k cp in (k, negb ((rc <? 0) && negb (rc =? SCE_ERRNO_ENOENT)))
  end.

(** The target is removed first. *)
Definition rename (from to : list Z) (k : K) : K * bool :=
  match cstr (norm from), cstr (norm to) with
  | Some cf, Some ct =>
      let '(k, _) := sceIoRemove k ct in
      let '(k, rc) := sceIoRename k cf ct in (k, negb (rc <? 0))
  | _, _ => (k, false)
  end.

Definition entry_of (e : Dirent) : DirEntry :=
  let dir := Z.land (st_attr e) SCE_SO_IFMT =? SCE_SO_IFDIR in
  mkEntry (d_name e) dir (if dir then 0 else Z.max (st_size e) 0).

Fixpoint dread_loop (fuel : nat) (fd : Z) (out : list DirEntry) (k : K) : outcome (K * option (list DirEntry)) :=
  match fuel with
  | O => OutOfFuel
  | S f =>
      let '(k, rc, e) := sceIoDread k fd in
      if rc <? 0 then Val (sceIoDclose k fd, None)
      else if rc =? 0 then Val (sceIoDclose k fd, Some out)
      else if bool_decide (d_name e = [46] \/ d_name e = [46; 46]) then dread_loop f fd out k
      else dread_loop f fd (out ++ [entry_of e]) k
  end.

Definition read_dir (fuel : nat) (path : list Z) (k : K) : outcome (K * option (list DirEntry)) :=
  match cstr (norm path) with
  | None => Val (k, None)
  | Some cp =>
      let '(k, fd) := sceIoDopen k cp in
      if fd <? 0 then Val (k, None) else dread_loop fuel fd [] k
  end.
End Backend.

(** * What is documented of the kernel *)

(** The kernel's own path of a name in a directory. *)
Definition kjoin (p n : list Z) : list Z :=
  match head (reverse p) with None => n | Some c => if (c =? 47) || (c =? 58) then p ++ n else p ++ 47 :: n end.

(** [kpath p] stands for the file at [p] whatever its spelling, [kname] for a name
    in a directory: the cards ignore case. *)
Class SceIoLaws (K : Type) `{SceIo K} : Type := {
  kpath : list Z -> list Z;
  kname : list Z -> list Z;
  kname_lower : forall n, lower_name n = true -> kname n = n;
  kpath_join : forall p a b, plain a -> plain b -> kpath (kjoin p a) = kpath (kjoin p b) -> kname a = kname b;
  kfile : K -> list Z -> option (list Z);
  (** [fd] appends to the file at a path *)
  appending : K -> Z -> list Z -> Prop;
  (** what [fd] has still to list, or to read *)
  listing : K -> Z -> list Dirent -> Prop;
  reading : K -> Z -> list Z -> Prop;
  open_read_law : forall k k' fd p, sceIoOpen k p SCE_O_RDONLY = (k', fd) ->
    (0 <= fd -> exists c, kfile k (kpath p) = Some c /\ reading k' fd c) /\
    (fd = SCE_ERRNO_ENOENT -> kfile k (kpath p) = None);
  kread_law : forall k k' fd rest len n b, reading k fd rest -> 0 < len -> sceIoRead k fd len = (k', n, b) ->
    (n = 0 -> rest = []) /\
    (0 < n -> n <= Z.of_nat (length rest) /\ take (Z.to_nat n) b = take (Z.to_nat n) rest /\
              reading k' fd (drop (Z.to_nat n) rest));
  open_law : forall k k' fd p, sceIoOpen k p O_WRITE = (k', fd) ->
    (0 <= fd -> appending k' fd p /\ kfile k' (kpath p) = Some (default [] (kfile k (kpath p)))) /\
    (fd < 0 -> kfile k' (kpath p) = kfile k (kpath p)) /\ forall q, q <> kpath p -> kfile k' q = kfile k q;
  kwrite_law : forall k k' fd p b n, appending k fd p -> sceIoWrite k fd b = (k', n) ->
    appending k' fd p /\ n <= Z.of_nat (length b) /\
    (0 < n -> kfile k' (kpath p) = Some (default [] (kfile k (kpath p)) ++ take (Z.to_nat n) b)) /\
    forall q, q <> kpath p -> kfile k' q = kfile k q;
  close_law : forall k fd q, kfile (sceIoClose k fd) q = kfile k q;
  sync_law : forall k fd q, kfile (sceIoSyncByFd k fd) q = kfile k q;
  kremove_law : forall k k' rc p, sceIoRemove k p = (k', rc) ->
    (0 <= rc -> kfile k' (kpath p) = None) /\ (rc < 0 -> kfile k' (kpath p) = kfile k (kpath p)) /\
    (rc = SCE_ERRNO_ENOENT -> kfile k (kpath p) = None) /\ forall q, q <> kpath p -> kfile k' q = kfile k q;
  kmkdir_law : forall k k' rc p q, sceIoMkdir k p = (k', rc) -> kfile k' q = kfile k q;
  krename_law : forall k k' rc p q, sceIoRename k p q = (k', rc) ->
    (rc < 0 -> forall r, kfile k' r = kfile k r) /\
    (0 <= rc -> is_Some (kfile k (kpath p)) /\
       (kpath p <> kpath q -> kfile k' (kpath q) = kfile k (kpath p) /\ kfile k' (kpath p) = None) /\
       forall r, r <> kpath p -> r <> kpath q -> kfile k' r = kfile k r);
  dopen_law : forall k k' fd p, sceIoDopen k p = (k', fd) -> 0 <= fd ->
    exists es, listing k' fd es /\
      forall n c, plain n -> n <> [46] -> n <> [46; 46] -> kfile k (kpath (kjoin p n)) = Some c ->
      exists n' a, kname n' = kname n /\ n' <> [46] /\ n' <> [46; 46] /\ Z.land a SCE_SO_IFMT <> SCE_SO_IFDIR /\
        mkDirent n' a (Z.of_nat (length c)) ∈ es;
  dread_law : forall k k' fd rc e es, listing k fd es -> sceIoDread k fd = (k', rc, e) ->
    (rc = 0 -> es = []) /\ (0 < rc -> exists es', es = e :: es' /\ listing k' fd es')
}.

(** * The backend provides the interface *)

(** A directory on a device: one colon. *)
Definition device_dir (d : list Z) : Prop := exists dev rest, d = dev ++ 58 :: rest /\ (58 ∉ dev) /\ 58 ∉ rest.

Section Provides.
Context {K : Type} `{SceIo K} (fuel : K -> nat).

(** Writes always yield a value ([write_spec], [append_spec]), reads do when the
    fuel exceeds what is there ([read_spec]).  Reads leave the file system
    alone, so their descriptor traffic is dropped. *)
Definition ok_or_keep (k : K) (r : outcome (K * bool)) : K * bool :=
  match r with Val x => x | _ => (k, false) end.
Definition read_only (r : outcome (K * result IoError (list Z))) : result IoError (list Z) :=
  match r with Val x => x.2 | _ => Err OtherError end.
Definition result_only {A} (r : outcome (K * option A)) : option A :=
  match r with Val x => x.2 | _ => None end.

#[export] Instance vita_fs : Fs K := {
  fs_read_dir := fun k p => result_only (read_dir (fuel k) p k);
  fs_read := fun k p => read_only (read (fuel k) p k);
  fs_write := fun k p b => ok_or_keep k (write p b k);
  fs_append := fun k p b => ok_or_keep k (append p b k);
  fs_remove_file := fun k p => remove_file p k;
  fs_create_dir_all := fun k p => create_dir_all p k;
  fs_rename := fun k p q => rename p q k
}.
End Provides.

(** * Lemmas *)

Lemma norm_device dev rest :
  58 ∉ dev ->
  norm (dev ++ 58 :: rest) = dev ++ 58 :: match rest with x :: t => if x =? 47 then t else rest | [] => [] end.
Proof.
  induction dev as [|c dev IH]; intros Hd; [done|]. apply not_elem_of_cons in Hd as [Hc Hd].
  cbn [app norm]. destruct (Z.eqb_spec c 58); [congruence|]. by rewrite IH.
Qed.

Lemma head_reverse_app {A} (l : list A) x r : head (reverse (l ++ x :: r)) = head (reverse (x :: r)).
Proof.
  rewrite reverse_app. destruct (reverse (x :: r)) eqn:E; [|done].
  by apply (f_equal length) in E; rewrite length_reverse in E.
Qed.

Lemma head_reverse_elem {A} (l : list A) x : head (reverse l) = Some x -> x ∈ l.
Proof.
  intros Hx. rewrite <- (reverse_involutive l). apply elem_of_reverse. destruct (reverse l); [done|].
  injection Hx as ->. apply elem_of_cons. by left.
Qed.

Lemma norm_join d n : device_dir d -> n <> [] -> 47 ∉ n -> norm (join d n) = kjoin (norm d) n.
Proof.
  intros (dev & rest & -> & Hdev & Hrest) Hn Hs. unfold join. rewrite head_reverse_app, norm_device by done.
  destruct rest as [|x rest].
  - cbn [reverse]. cbn. rewrite <- app_assoc. cbn [app]. rewrite norm_device by done. cbn.
    unfold kjoin. rewrite head_reverse_app. cbn. by rewrite <- app_assoc.
  - apply not_elem_of_cons in Hrest as [Hx Hrest].
    assert (Hd : forall t, t <> [] -> 58 ∉ t -> kjoin (dev ++ 58 :: t) n =
      if bool_decide (head (reverse t) = Some 47) then (dev ++ 58 :: t) ++ n else (dev ++ 58 :: t) ++ 47 :: n).
    { intros t Ht H58. unfold kjoin. rewrite head_reverse_app. destruct t as [|y t]; [done|].
      change (58 :: y :: t) with ([58] ++ y :: t). rewrite head_reverse_app. destruct (head (reverse (y :: t))) as [c|] eqn:E.
      - pose proof (head_reverse_elem _ _ E) as Hin. destruct (Z.eqb_spec c 58); [by subst|]. rewrite orb_false_r.
        destruct (Z.eqb_spec c 47); [subst; by rewrite bool_decide_eq_true_2|]. rewrite bool_decide_eq_false_2 by congruence. done.
      - destruct (reverse (y :: t)) eqn:E2; [|done].
        by apply (f_equal length) in E2; rewrite length_reverse in E2. }
    change (58 :: x :: rest) with ([58] ++ x :: rest) at 1. rewrite head_reverse_app.
    destruct (head (reverse (x :: rest))) as [c|] eqn:E.
    2:{ destruct (reverse (x :: rest)) eqn:E2; [|done]. by apply (f_equal length) in E2; rewrite length_reverse in E2. }
    assert (Hj : (if c =? 47 then (dev ++ 58 :: x :: rest) ++ n else (dev ++ 58 :: x :: rest) ++ 47 :: n)
      = dev ++ 58 :: x :: rest ++ (if c =? 47 then n else 47 :: n)).
    { destruct (c =? 47); by rewrite <- app_assoc. }
    rewrite Hj, norm_device by done. destruct (Z.eqb_spec x 47) as [->|Hx47].
    + destruct rest as [|y rest].
      * cbn in E. injection E as <-. cbn. unfold kjoin. rewrite head_reverse_app. cbn. by rewrite <- app_assoc.
      * rewrite Hd by done. change (47 :: y :: rest) with ([47] ++ y :: rest) in E. rewrite head_reverse_app in E. rewrite E.
        destruct (Z.eqb_spec c 47); [subst; rewrite bool_decide_eq_true_2 by done|rewrite bool_decide_eq_false_2 by congruence];
          by rewrite <- app_assoc.
    + rewrite Hd by (done || by apply not_elem_of_cons). rewrite E.
      destruct (Z.eqb_spec c 47); [subst; rewrite bool_decide_eq_true_2 by done|rewrite bool_decide_eq_false_2 by congruence];
        by rewrite <- app_assoc.
Qed.

Lemma kjoin_inj p a b : kjoin p a = kjoin p b -> a = b.
Proof.
  unfold kjoin. destruct (head (reverse p)) as [c|]; [|done]. destruct (_ || _); intros E%app_inv_head; congruence.
Qed.

Lemma cstr_some s p : cstr s = Some p -> p = s.
Proof. unfold cstr. destruct (existsb _ _); congruence. Qed.

Section Laws.
Context {K : Type} `{SceIoLaws K} (fuel : nat).

(** The write loop ends, without panicking, and has written everything if it
    succeeds; other files are not touched. *)
Lemma write_loop_spec p fd f : forall buf k,
  (length buf <= f)%nat -> appending k fd p ->
  exists k' ok, write_loop f fd buf k = Val (k', ok) /\
    (ok = true -> is_Some (kfile k (kpath p)) -> kfile k' (kpath p) = Some (default [] (kfile k (kpath p)) ++ buf)) /\
    forall q, q <> kpath p -> kfile k' q = kfile k q.
Proof.
  induction f as [|f IH]; intros buf k Hf Ha; destruct buf as [|b buf]; cbn [length] in Hf; try lia; cbn [write_loop].
  1,2: eexists _, true; split; [done|]; setoid_rewrite close_law; setoid_rewrite sync_law;
       split; [intros _ [x ->]; cbn; by rewrite app_nil_r|done].
  set (l := b :: buf) in *. set (chunk := take _ l). destruct (sceIoWrite k fd chunk) as [k1 n] eqn:Ew.
  destruct (kwrite_law _ _ _ _ _ _ Ha Ew) as (Ha' & Hn & Hw & Ho).
  assert (Hchunk : (length chunk <= length l)%nat) by (unfold chunk; rewrite length_take; lia).
  destruct (Z.leb_spec n 0) as [Hn0|Hn0].
  { eexists _, false. split; [done|]. split; [done|]. intros q Hq. rewrite close_law. auto. }
  destruct (Z.ltb_spec (Z.of_nat (length l)) n); [lia|].
  destruct (IH (drop (Z.to_nat n) l) k1) as (k2 & ok & E & Hok & Hq); [|done|].
  { rewrite length_drop. unfold l in *. cbn [length] in *. lia. }
  exists k2, ok. split; [done|]. split; [|intros q Hne; rewrite Hq; auto].
  intros Htrue _. rewrite (Hok Htrue), (Hw Hn0); [|by rewrite Hw; eauto]. cbn [default option_to_set]. cbn.
  rewrite <- app_assoc. do 2 f_equal. unfold chunk. rewrite take_take.
  replace (Z.to_nat n `min` _)%nat with (Z.to_nat n); [by rewrite take_drop|].
  unfold chunk in Hn. rewrite length_take in Hn. lia.
Qed.

Lemma open_and_write_spec cp data k :
  exists k' ok, open_and_write cp data k = Val (k', ok) /\
    (ok = true -> kfile k' (kpath cp) = Some (default [] (kfile k (kpath cp)) ++ data)) /\
    forall q, q <> kpath cp -> kfile k' q = kfile k q.
Proof.
  unfold open_and_write. destruct (sceIoOpen k cp O_WRITE) as [k1 fd] eqn:Eo.
  destruct (open_law _ _ _ _ Eo) as (H1 & H2 & H3). destruct (Z.ltb_spec fd 0) as [Hfd|Hfd].
  { exists k1, false. by auto. }
  destruct (H1 Hfd) as [Ha Hf]. destruct (write_loop_spec cp fd (length data) data k1) as (k2 & ok & E & Hok & Hq); [lia|done|].
  exists k2, ok. split; [done|]. split; [|intros q Hne; rewrite Hq; auto].
  intros Ht. rewrite Hok; [|done|by rewrite Hf]. by rewrite Hf.
Qed.

Lemma write_spec p data k :
  exists k' ok, write p data k = Val (k', ok) /\
    (ok = true -> kfile k' (kpath (norm p)) = Some data \/
                  exists c, kfile k (kpath (norm p)) = Some c /\ kfile k' (kpath (norm p)) = Some (c ++ data)) /\
    forall q, q <> kpath (norm p) -> kfile k' q = kfile k q.
Proof.
  unfold write. destruct (cstr (norm p)) as [cp|] eqn:Ec; [|by exists k, false]. rewrite <- (cstr_some _ _ Ec).
  destruct (sceIoRemove k cp) as [k1 rc] eqn:Er. destruct (kremove_law _ _ _ _ Er) as (R1 & R2 & R3 & R4).
  destruct (open_and_write_spec cp data k1) as (k2 & ok & E & Hok & Hq). exists k2, ok.
  split; [done|]. split; [|intros q Hne; rewrite Hq; auto].
  intros Ht. specialize (Hok Ht). destruct (Z.ltb_spec rc 0) as [Hrc|Hrc].
  - rewrite R2 in Hok by done. destruct (kfile k (kpath cp)) as [[|b c]|]; cbn in Hok; eauto.
  - rewrite R1 in Hok by done. auto.
Qed.

Lemma append_spec p data k :
  exists k' ok, append p data k = Val (k', ok) /\
    (ok = true -> kfile k' (kpath (norm p)) = Some (default [] (kfile k (kpath (norm p))) ++ data)) /\
    forall q, q <> kpath (norm p) -> kfile k' q = kfile k q.
Proof.
  unfold append. destruct (cstr (norm p)) as [cp|] eqn:Ec; [|by exists k, false]. rewrite <- (cstr_some _ _ Ec).
  apply open_and_write_spec.
Qed.

Lemma remove_file_spec p k k' ok :
  remove_file p k = (k', ok) ->
  (ok = true -> kfile k' (kpath (norm p)) = None) /\ forall q, q <> kpath (norm p) -> kfile k' q = kfile k q.
Proof.
  unfold remove_file. destruct (cstr (norm p)) as [cp|] eqn:Ec; [|by intros [= <- <-]]. rewrite <- (cstr_some _ _ Ec).
  destruct (sceIoRemove k cp) as [k1 rc] eqn:Er. destruct (kremove_law _ _ _ _ Er) as (R1 & R2 & R3 & R4).
  intros [= <- <-]. split; [|done]. destruct (Z.ltb_spec rc 0) as [Hrc|Hrc]; [|auto]. cbn.
  destruct (Z.eqb_spec rc SCE_ERRNO_ENOENT) as [He|He]; [|done]. intros _. rewrite R2; auto.
Qed.

Lemma mkdir_from_spec rest : forall i s colon k k' ok q, mkdir_from i rest s colon k = (k', ok) -> kfile k' q = kfile k q.
Proof.
  induction rest as [|rest IH]; intros i s colon k k' ok q; cbn [mkdir_from];
    (destruct (_ && _); [destruct (cstr (take i s)) as [sub|]; [|by intros [= <- <-]];
       destruct (sceIoMkdir k sub) as [k1 rc] eqn:E; apply (kmkdir_law _ _ _ _ q) in E|]).
  - by intros [= <- <-].
  - by intros [= <- <-].
  - intros H1%(IH _ _ _ _ _ _ q). congruence.
  - apply IH.
Qed.

Lemma rename_spec p q k k' ok :
  rename p q k = (k', ok) -> kpath (norm p) <> kpath (norm q) ->
  (ok = true -> kfile k' (kpath (norm q)) = kfile k (kpath (norm p)) /\ is_Some (kfile k (kpath (norm p))) /\ kfile k' (kpath (norm p)) = None) /\
  (ok = false -> kfile k' (kpath (norm p)) = kfile k (kpath (norm p)) /\
                 (kfile k' (kpath (norm q)) = kfile k (kpath (norm q)) \/ kfile k' (kpath (norm q)) = None)) /\
  forall r, r <> kpath (norm p) -> r <> kpath (norm q) -> kfile k' r = kfile k r.
Proof.
  unfold rename. destruct (cstr (norm p)) as [cf|] eqn:Ec; [|intros [= <- <-]; naive_solver].
  destruct (cstr (norm q)) as [ct|] eqn:Ed; [|intros [= <- <-]; naive_solver].
  rewrite <- (cstr_some _ _ Ec), <- (cstr_some _ _ Ed).
  destruct (sceIoRemove k ct) as [k1 rc1] eqn:Er. destruct (kremove_law _ _ _ _ Er) as (R1 & R2 & R3 & R4).
  destruct (sceIoRename k1 cf ct) as [k2 rc] eqn:En. destruct (krename_law _ _ _ _ _ En) as (N1 & N2).
  intros [= <- <-] Hne. destruct (Z.ltb_spec rc 0) as [Hrc|Hrc]; cbn.
  - split; [done|]. split; [|intros; rewrite N1 by done; auto]. intros _. rewrite !N1 by done. split; [auto|].
    destruct (decide (0 <= rc1)); [right; auto|left; apply R2; lia].
  - destruct (N2 Hrc) as (Hs & Hm & Ho). destruct (Hm Hne) as [M1 M2]. rewrite R4 in M1, Hs by done.
    split_and!; [auto|done|]. intros r Hp Hq. rewrite Ho by done. auto.
Qed.

Lemma read_loop_spec fd f : forall out rest k,
  reading k fd rest -> (length rest < f)%nat ->
  exists k' r, read_loop f fd out k = Val (k', r) /\ (r = Err OtherError \/ r = Ok (out ++ rest)).
Proof.
  induction f as [|f IH]; intros out rest k Hr Hf; [lia|]. cbn [read_loop].
  destruct (sceIoRead k fd READ_CHUNK) as [[k1 n] b] eqn:E.
  destruct (kread_law _ _ _ _ READ_CHUNK _ _ Hr ltac:(unfold READ_CHUNK; lia) E) as [R0 R1].
  destruct (Z.ltb_spec n 0); [by eauto|]. destruct (Z.eqb_spec n 0) as [Hn|Hn].
  { rewrite (R0 Hn), app_nil_r. eauto. }
  destruct R1 as (Hle & Eb & Hr'); [lia|].
  destruct (IH (out ++ take (Z.to_nat n) b) _ _ Hr') as (k' & r & Er & Hres); [rewrite length_drop; lia|].
  exists k', r. split; [done|]. by rewrite <- app_assoc, Eb, take_drop in Hres.
Qed.

(** With any fuel, what the loop returns is the rest of the file. *)
Lemma read_loop_sound fd f : forall out rest k,
  reading k fd rest ->
  match read_loop f fd out k with
  | Val (_, Ok b) => b = out ++ rest
  | Val (_, Err e) => e = OtherError
  | Panicked => False
  | OutOfFuel => True
  end.
Proof.
  induction f as [|f IH]; intros out rest k Hr; [done|]. cbn [read_loop].
  destruct (sceIoRead k fd READ_CHUNK) as [[k1 n] b] eqn:E.
  destruct (kread_law _ _ _ _ READ_CHUNK _ _ Hr ltac:(unfold READ_CHUNK; lia) E) as [R0 R1].
  destruct (Z.ltb_spec n 0); [done|]. destruct (Z.eqb_spec n 0) as [Hn|Hn].
  { by rewrite (R0 Hn), app_nil_r. }
  destruct R1 as (Hle & Eb & Hr'); [lia|]. specialize (IH (out ++ take (Z.to_nat n) b) _ _ Hr').
  assert (Happ : (out ++ take (Z.to_nat n) b) ++ drop (Z.to_nat n) rest = out ++ rest)
    by by rewrite <- app_assoc, Eb, take_drop.
  by rewrite Happ in IH.
Qed.

Lemma read_sound p k :
  (forall b, read_only (read fuel p k) = Ok b -> kfile k (kpath (norm p)) = Some b) /\
  (read_only (read fuel p k) = Err NotFound -> kfile k (kpath (norm p)) = None).
Proof.
  unfold read. destruct (cstr (norm p)) as [cp|] eqn:Ec; [|done]. rewrite <- (cstr_some _ _ Ec) in *.
  destruct (sceIoOpen k cp SCE_O_RDONLY) as [k1 fd] eqn:Eo. destruct (open_read_law _ _ _ _ Eo) as [O1 O2].
  destruct (Z.ltb_spec fd 0); [cbn|].
  { split; [done|]. destruct (Z.eqb_spec fd SCE_ERRNO_ENOENT); [auto|done]. }
  destruct O1 as (c & Hc & Hr); [lia|]. pose proof (read_loop_sound fd fuel [] c k1 Hr) as Hs.
  destruct (read_loop fuel fd [] k1) as [[k2 [b|e]]| |]; cbn in *; [| |done|done].
  - split; [intros b' [= <-]; by subst|done].
  - by subst e.
Qed.

(** [read] returns the file, or an error; it is total once the fuel exceeds the
    file's length. *)
Lemma read_spec p k :
  (forall c, kfile k (kpath (norm p)) = Some c -> (length c < fuel)%nat) ->
  exists k' r, read fuel p k = Val (k', r) /\ (ok r = None \/ ok r = kfile k (kpath (norm p))).
Proof.
  intros Hf. unfold read. destruct (cstr (norm p)) as [cp|] eqn:Ec; [|by eauto]. rewrite <- (cstr_some _ _ Ec) in *.
  destruct (sceIoOpen k cp SCE_O_RDONLY) as [k1 fd] eqn:Eo. destruct (Z.ltb_spec fd 0); [by eauto|].
  destruct (open_read_law _ _ _ _ Eo) as [(c & Hc & Hr) _]; [lia|].
  destruct (read_loop_spec fd fuel [] c k1 Hr (Hf c Hc)) as (k' & r & E & Hres). exists k', r. rewrite Hc.
  split; [done|]. destruct Hres as [-> | ->]; [by left|by right].
Qed.

Lemma dread_loop_spec fd f : forall out es k k' r,
  listing k fd es -> dread_loop f fd out k = Val (k', Some r) ->
  (forall e, e ∈ out -> e ∈ r) /\
  forall e, e ∈ es -> d_name e <> [46] -> d_name e <> [46; 46] -> entry_of e ∈ r.
Proof.
  induction f as [|f IH]; intros out es k k' r Hl; cbn [dread_loop]; [done|].
  destruct (sceIoDread k fd) as [[k1 rc] e] eqn:Ed. destruct (dread_law _ _ _ _ _ _ Hl Ed) as [D0 D1].
  destruct (Z.ltb_spec rc 0); [done|]. destruct (Z.eqb_spec rc 0) as [Hz|Hz].
  { intros [= <- <-]. rewrite (D0 Hz). split; [done|]. intros x Hx. by apply elem_of_nil in Hx. }
  destruct D1 as (es' & -> & Hl'); [lia|]. case_bool_decide as Hdot; intros Hr.
  - destruct (IH _ _ _ _ _ Hl' Hr) as [Ho He]. split; [done|].
    intros x [->|Hx]%elem_of_cons; [tauto|auto].
  - destruct (IH _ _ _ _ _ Hl' Hr) as [Ho He]. split; [intros x Hx; apply Ho, elem_of_app; auto|].
    intros x [->|Hx]%elem_of_cons; [|auto]. intros _ _. apply Ho, elem_of_app. right. by apply list_elem_of_singleton.
Qed.

Lemma read_dir_spec d k es n c :
  device_dir d -> result_only (read_dir fuel d k) = Some es -> plain n -> n <> [46] -> n <> [46; 46] ->
  kfile k (kpath (norm (join d n))) = Some c -> exists n', kname n' = kname n /\ mkEntry n' false (Z.of_nat (length c)) ∈ es.
Proof.
  intros Hd Hr Hn Hdot Hdd Hc. pose proof Hn as (Hne & H47 & _). rewrite norm_join in Hc by done. revert Hr.
  unfold read_dir. destruct (cstr (norm d)) as [cp|] eqn:Ec; [|done]. rewrite <- (cstr_some _ _ Ec) in Hc.
  destruct (sceIoDopen k cp) as [k1 fd] eqn:Eo. destruct (Z.ltb_spec fd 0); [done|].
  destruct (dopen_law _ _ _ _ Eo) as (ds & Hl & Hds); [lia|]. destruct (Hds n c Hn Hdot Hdd Hc) as (n' & a & Hn' & Hdot' & Hdd' & Ha & Hin).
  destruct (dread_loop fuel fd [] k1) as [[k2 r]| |] eqn:Er; [|done..]. cbn. intros ->.
  destruct (dread_loop_spec _ _ _ _ _ _ _ Hl Er) as [_ He]. specialize (He _ Hin Hdot' Hdd'). exists n'. split; [done|].
  unfold entry_of in He. cbn [d_name st_attr st_size] in He.
  destruct (Z.eqb_spec (Z.land a SCE_SO_IFMT) SCE_SO_IFDIR); [done|]. by rewrite Z.max_l in He by lia.
Qed.
End Laws.

(** The backend keeps the promises of the interface for a directory on a
    device. *)
Definition vita_fs_laws {K} `{SceIoLaws K} (fuel : K -> nat) (d : list Z) (Hd : device_dir d) : @FsLaws K (vita_fs fuel) d.
Proof.
  refine {| names := fun p => kpath (norm p); content := kfile; folded := kname; folded_lower := kname_lower |}.
  - intros a b Ha Hb E. pose proof Ha as (? & ? & _). pose proof Hb as (? & ? & _). rewrite !norm_join in E by done. by eapply kpath_join.
  - intros w p. apply read_sound.
  - intros w w' ok p b E. cbn in E. destruct (write_spec p b w) as (k' & ok' & Ew & H1 & H2). rewrite Ew in E.
    injection E as <- <-. auto.
  - intros w w' ok p b E. cbn in E. destruct (append_spec p b w) as (k' & ok' & Ew & H1 & H2). rewrite Ew in E.
    injection E as <- <-. auto.
  - intros w w' ok p E. by apply remove_file_spec.
  - intros w w' ok p q E. exact (mkdir_from_spec _ _ _ _ _ _ _ q E).
  - intros w w' ok p q E. by apply rename_spec.
  - intros w es Hr n c Hn Hd1 Hd2 Hc. exact (read_dir_spec (fuel w) d w es n c Hd Hr Hn Hd1 Hd2 Hc).
Defined.

(** * Properties *)

(** what is written comes back.  On the Vita backend, writing a new file and
    appending to it, when both report success, leaves exactly the bytes of both
    in order: neither write panics or runs out of fuel, a later read either
    fails or returns them, and no other file changes. *)
Theorem vita_fs_roundtrip {K} `{SceIoLaws K} fuel p a b k :
  kfile k (kpath (norm p)) = None -> (length (a ++ b) < fuel)%nat ->
  exists k1 k2 ok1 ok2, write p a k = Val (k1, ok1) /\ append p b k1 = Val (k2, ok2) /\
    (forall q, q <> kpath (norm p) -> kfile k2 q = kfile k q) /\
    (ok1 = true -> ok2 = true ->
     exists k3 r, read fuel p k2 = Val (k3, r) /\ (ok r = None \/ ok r = Some (a ++ b))).
Proof.
  intros Hnew Hf. destruct (write_spec p a k) as (k1 & ok1 & E1 & W1 & W2).
  destruct (append_spec p b k1) as (k2 & ok2 & E2 & A1 & A2).
  exists k1, k2, ok1, ok2. split_and!; [done|done|intros q Hq; rewrite A2; auto|]. intros -> ->.
  assert (Ek : kfile k2 (kpath (norm p)) = Some (a ++ b)).
  { rewrite A1 by done. destruct W1 as [-> |(c & Hc & _)]; [done|done|congruence]. }
  destruct (read_spec fuel p k2) as (k3 & r & E3 & Hr); [by intros c; rewrite Ek; intros [= <-]|].
  exists k3, r. by rewrite Ek in Hr.
Qed.

(** renaming a file to itself deletes it.  The backend removes the target
    before it renames, so with one path for both the kernel finds no source
    left: the file is gone and an error is returned. *)
Theorem vita_rename_self_deletes {K} `{SceIoLaws K} p k k1 rc :
  sceIoRemove k (norm p) = (k1, rc) -> 0 <= rc -> is_Some (cstr (norm p)) ->
  exists k', rename p p k = (k', false) /\ kfile k' (kpath (norm p)) = None.
Proof.
  intros Er Hrc [cp Ec]. unfold rename. rewrite Ec. pose proof (cstr_some _ _ Ec) as ->. rewrite Er.
  destruct (kremove_law _ _ _ _ Er) as (R1 & _). destruct (sceIoRename k1 (norm p) (norm p)) as [k2 rc2] eqn:En.
  destruct (krename_law _ _ _ _ _ En) as (N1 & N2). destruct (Z.ltb_spec rc2 0) as [Hlt|Hge]; cbn.
  - exists k2. split; [done|]. rewrite N1; auto.
  - destruct (N2 Hge) as [Hs _]. rewrite R1 in Hs by done. by destruct Hs.
Qed.

(** * A kernel with files in memory *)

Module Toy.
(** Paths are kept in lower case, with the spelling each file was created under. *)
Definition lower_byte (b : Z) : Z := if (65 <=? b) && (b <=? 90) then b + 32 else b.
Definition lower (n : list Z) : list Z := lower_byte <$> n.

Record Kernel : Type := mkKernelAt {
  files : gmap (list Z) (list Z); locked : list Z;
  fds : list (list Z); reads : gmap nat (list Z); dirs : list (list Dirent);
  spelled : gmap (list Z) (list Z)
}.
Definition mkKernel (f : gmap (list Z) (list Z)) (l : list Z) (fs : list (list Z)) (r : gmap nat (list Z)) (ds : list (list Dirent)) : Kernel :=
  mkKernelAt f l fs r ds ∅.

Definition set_files (f : gmap (list Z) (list Z)) (k : Kernel) : Kernel := mkKernelAt f (locked k) (fds k) (reads k) (dirs k) (spelled k).

Definition open (k : Kernel) (p : list Z) (flags : Z) : Kernel * Z :=
  let fd := Z.of_nat (length (fds k)) in
  if flags =? O_WRITE then
    (mkKernelAt (<[lower p := default [] (files k !! lower p)]> (files k)) (locked k) (fds k ++ [lower p]) (reads k) (dirs k)
       (if bool_decide (is_Some (files k !! lower p)) then spelled k else <[lower p := p]> (spelled k)), fd)
  else match files k !! lower p with
       | Some c => (mkKernelAt (files k) (locked k) (fds k ++ [lower p]) (<[length (fds k) := c]> (reads k)) (dirs k) (spelled k), fd)
       | None => (k, SCE_ERRNO_ENOENT)
       end.

Definition read (k : Kernel) (fd len : Z) : Kernel * Z * list Z :=
  match (if fd <? 0 then None else reads k !! Z.to_nat fd) with
  | None => (k, -1, [])
  | Some c => let b := take (Z.to_nat len) c in
      (mkKernelAt (files k) (locked k) (fds k) (<[Z.to_nat fd := drop (length b) c]> (reads k)) (dirs k) (spelled k), Z.of_nat (length b), b)
  end.

Definition write (k : Kernel) (fd : Z) (b : list Z) : Kernel * Z :=
  match (if fd <? 0 then None else fds k !! Z.to_nat fd) with
  | None => (k, -1)
  | Some p => (set_files (<[p := default [] (files k !! p) ++ b]> (files k)) k, Z.of_nat (length b))
  end.

Definition remove (k : Kernel) (p : list Z) : Kernel * Z :=
  if bool_decide (lower p = locked k) then (k, -1)
  else match files k !! lower p with
       | Some _ => (set_files (delete (lower p) (files k)) k, 0)
       | None => (k, SCE_ERRNO_ENOENT)
       end.

Definition rename (k : Kernel) (p q : list Z) : Kernel * Z :=
  if bool_decide (lower q = locked k) then (k, -1)
  else match files k !! lower p with
       | Some c => (mkKernelAt (<[lower q := c]> (delete (lower p) (files k))) (locked k) (fds k) (reads k) (dirs k) (<[lower q := q]> (spelled k)), 0)
       | None => (k, SCE_ERRNO_ENOENT)
       end.

Definition spelling (k : Kernel) (q : list Z) : list Z :=
  match spelled k !! q with Some s => if decide (lower s = q) then s else q | None => q end.

(** The entries of a directory: the files whose path extends it. *)
Definition entries (k : Kernel) (p : list Z) : list Dirent :=
  omap (fun '(q, c) => if decide (take (length (kjoin p [])) q = lower (kjoin p []))
                       then Some (mkDirent (drop (length (kjoin p [])) (spelling k q)) 0 (Z.of_nat (length c))) else None)
    (map_to_list (files k)).

Definition dopen (k : Kernel) (p : list Z) : Kernel * Z :=
  (mkKernelAt (files k) (locked k) (fds k) (reads k) (dirs k ++ [entries k p]) (spelled k), Z.of_nat (length (dirs k))).

Definition dread (k : Kernel) (fd : Z) : Kernel * Z * Dirent :=
  match (if fd <? 0 then None else dirs k !! Z.to_nat fd) with
  | Some (e :: es) => (mkKernelAt (files k) (locked k) (fds k) (reads k) (<[Z.to_nat fd := es]> (dirs k)) (spelled k), 1, e)
  | Some [] => (k, 0, mkDirent [] 0 0)
  | None => (k, -1, mkDirent [] 0 0)
  end.

#[global] Instance sce : SceIo Kernel := {
  sceIoOpen := open; sceIoRead := read; sceIoWrite := write;
  sceIoClose := fun k _ => k; sceIoSyncByFd := fun k _ => k; sceIoMkdir := fun k _ => (k, 0);
  sceIoRemove := remove; sceIoRename := rename; sceIoDopen := dopen; sceIoDread := dread; sceIoDclose := fun k _ => k
}.

Lemma kjoin_nil p n : kjoin p n = kjoin p [] ++ n.
Proof.
  unfold kjoin. destruct (head (reverse p)); [|done]. destruct (_ || _); rewrite ?app_nil_r; [done|].
  by rewrite <- app_assoc.
Qed.

Lemma lower_idem n : lower (lower n) = lower n.
Proof.
  unfold lower. rewrite <- list_fmap_compose. apply list_fmap_ext. intros _ b _. unfold compose, lower_byte.
  destruct (Z.leb_spec 65 b), (Z.leb_spec b 90); cbn [andb];
    destruct (Z.leb_spec 65 (b + 32)), (Z.leb_spec (b + 32) 90), (Z.leb_spec 65 b), (Z.leb_spec b 90); cbn [andb]; lia.
Qed.

Lemma lower_lower_name n : lower_name n = true -> lower n = n.
Proof.
  unfold lower_name, lower. induction n as [|b n IH]; [done|]. cbn. intros [Hb Hn]%andb_true_iff. rewrite IH by done. f_equal.
  apply andb_true_iff in Hb as [_ Hb%negb_true_iff]. unfold lower_byte. by rewrite Hb.
Qed.

Lemma lower_dots n m : Forall (eq 46) m -> lower n = m -> n = m.
Proof.
  intros Hm <-. unfold lower in *. induction n as [|b n IH]; [done|]. rewrite fmap_cons in Hm |- *. apply Forall_cons_1 in Hm as [Hb Hm]. rewrite <- IH by done.
  f_equal. revert Hb. unfold lower_byte. destruct (Z.leb_spec 65 b), (Z.leb_spec b 90); cbn [andb]; lia.
Qed.

Lemma lower_spelling k q : lower q = q -> lower (spelling k q) = q.
Proof. intros Hq. unfold spelling. destruct (spelled k !! q); [|done]. by case_decide. Qed.

Lemma entries_complete k p n c : n <> [46] -> n <> [46; 46] -> files k !! lower (kjoin p n) = Some c ->
  exists n', lower n' = lower n /\ n' <> [46] /\ n' <> [46; 46] /\ mkDirent n' 0 (Z.of_nat (length c)) ∈ entries k p.
Proof.
  intros H1 H2 Hc. rewrite kjoin_nil in Hc. unfold lower in Hc. rewrite fmap_app in Hc. fold (lower (kjoin p [])) (lower n) in Hc.
  set (q := lower (kjoin p []) ++ lower n) in *.
  assert (Hl : length (lower (kjoin p [])) = length (kjoin p [])) by apply length_fmap.
  assert (Hs : lower (spelling k q) = q).
  { apply lower_spelling. unfold q, lower. rewrite fmap_app. fold (lower (kjoin p [])) (lower n). by rewrite !lower_idem. }
  exists (drop (length (kjoin p [])) (spelling k q)).
  assert (Hn : lower (drop (length (kjoin p [])) (spelling k q)) = lower n).
  { unfold lower at 1. rewrite fmap_drop. fold (lower (spelling k q)). rewrite Hs. unfold q. by rewrite <- Hl, drop_app_length. }
  split; [done|]. split; [intros E; rewrite E in Hn; symmetry in Hn; apply lower_dots in Hn; [done|by repeat constructor]|].
  split; [intros E; rewrite E in Hn; symmetry in Hn; apply lower_dots in Hn; [done|by repeat constructor]|].
  apply list_elem_of_omap. exists (q, c). split; [by apply elem_of_map_to_list|].
  rewrite decide_True; [done|]. unfold q. by rewrite <- Hl, take_app_length.
Qed.

#[global] Instance sce_laws : SceIoLaws Kernel.
Proof.
  refine {| kfile := fun k p => files k !! p; kpath := lower; kname := lower; kname_lower := lower_lower_name;
            appending := fun k fd p => 0 <= fd /\ fds k !! Z.to_nat fd = Some (lower p);
            listing := fun k fd es => 0 <= fd /\ dirs k !! Z.to_nat fd = Some es;
            reading := fun k fd r => 0 <= fd /\ reads k !! Z.to_nat fd = Some r |}.
  - intros p a b _ _. rewrite (kjoin_nil p a), (kjoin_nil p b). unfold lower. rewrite !fmap_app. apply app_inv_head.
  - intros k k' fd p E. cbn in E. unfold open in E. cbn in E. destruct (files k !! lower p) as [c|] eqn:Ep.
    + injection E as <- <-. split; [|unfold SCE_ERRNO_ENOENT; lia]. intros _. exists c. split; [done|]. cbn.
      split; [lia|]. by rewrite Nat2Z.id, lookup_insert_eq.
    + injection E as <- <-. split; [unfold SCE_ERRNO_ENOENT; lia|done].
  - intros k k' fd rest len n b [Hfd Hr] Hlen E. cbn in E. unfold read in E.
    destruct (Z.ltb_spec fd 0); [lia|]. rewrite Hr in E. injection E as <- <- <-. split.
    + intros Hz. destruct rest; [done|]. rewrite length_take in Hz. cbn in Hz. lia.
    + intros _. rewrite Nat2Z.id, length_take. split_and!; [lia| |done|].
      * rewrite take_take. f_equal. lia.
      * cbn. by rewrite lookup_insert_eq, ?length_take, ?Nat2Z.id.
  - intros k k' fd p E. cbn in E. unfold open in E. rewrite Z.eqb_refl in E. injection E as <- <-. cbn. split_and!.
    + intros _. rewrite Nat2Z.id, lookup_app_r, Nat.sub_diag, lookup_insert_eq by lia. split; [|done]. split; [lia|done].
    + lia.
    + intros q Hq. by rewrite lookup_insert_ne.
  - intros k k' fd p b n [Hfd Hp] E. cbn in E. unfold write in E. destruct (Z.ltb_spec fd 0); [lia|].
    rewrite Hp in E. injection E as <- <-. cbn. rewrite lookup_insert_eq, Nat2Z.id, firstn_all.
    split_and!; [lia|done|lia|done|]. intros q Hq. by rewrite lookup_insert_ne.
  - done.
  - done.
  - intros k k' rc p E. cbn in E. unfold remove in E. case_bool_decide; [injection E as <- <-; split_and!; (done || lia)|].
    destruct (files k !! lower p) eqn:Ep; injection E as <- <-; cbn; unfold SCE_ERRNO_ENOENT; split_and!; try (done || lia).
    + intros _. apply lookup_delete_eq.
    + intros q Hq. by rewrite lookup_delete_ne.
  - intros k k' rc p q [= <- <-]. done.
  - intros k k' rc p q E. cbn in E. unfold rename in E. case_bool_decide; [injection E as <- <-; split; [done|lia]|].
    destruct (files k !! lower p) as [c|] eqn:Ep.
    + injection E as <- <-. split; [lia|]. intros _. cbn. rewrite lookup_insert_eq. split_and!; [done| |].
      * intros Hne. by rewrite lookup_insert_ne, lookup_delete_eq.
      * intros r Hp Hq. by rewrite lookup_insert_ne, lookup_delete_ne.
    + injection E as <- <-. split; [done|]. unfold SCE_ERRNO_ENOENT. lia.
  - intros k k' fd p E _. cbn in E. injection E as <- <-. exists (entries k p). cbn.
    rewrite Nat2Z.id, lookup_app_r, Nat.sub_diag by lia. split; [split; [lia|done]|].
    intros n c _ H1 H2 Hc. destruct (entries_complete k p n c H1 H2 Hc) as (n' & N1 & N2 & N3 & N4). exists n', 0. done.
  - intros k k' fd rc e es [Hfd Hes] E. cbn in E. unfold dread in E. destruct (Z.ltb_spec fd 0); [lia|].
    rewrite Hes in E. destruct es as [|e1 es]; injection E as <- <- <-; split; try (done || lia).
    intros _. exists es. split; [done|]. split; [done|]. cbn. apply list_lookup_insert_eq. by eapply lookup_lt_Some.
Defined.

(** Every directory can be listed: the fuel is the number of files and one. *)
Definition fuel (k : Kernel) : nat := S (length (map_to_list (files k))).

Lemma dread_total f : forall out k fd es, listing k fd es -> (length es < f)%nat ->
  is_Some (result_only (dread_loop f fd out k)).
Proof.
  induction f as [|f IH]; intros out k fd es Hl Hf; [lia|]. cbn [dread_loop]. pose proof Hl as [Hfd Hes]. cbn. unfold dread.
  destruct (Z.ltb_spec fd 0); [lia|]. rewrite Hes. destruct es as [|e es]; [by eexists|]. cbn [length] in Hf.
  assert (Hl' : listing (mkKernelAt (files k) (locked k) (fds k) (reads k) (<[Z.to_nat fd := es]> (dirs k)) (spelled k)) fd es).
  { split; [done|]. cbn. apply list_lookup_insert_eq. by eapply lookup_lt_Some. }
  change (1 <? 0) with false. change (1 =? 0) with false. cbn [result_only].
  case_bool_decide; apply (IH _ _ _ es); (done || lia).
Qed.

Lemma read_dir_total p k : is_Some (cstr (norm p)) -> is_Some (result_only (read_dir (fuel k) p k)).
Proof.
  intros [cp Hp]. unfold read_dir. rewrite Hp. cbn [sceIoDopen sce]. unfold dopen. destruct (Z.ltb_spec (Z.of_nat (length (dirs k))) 0); [lia|].
  apply (dread_total _ _ _ _ (entries k cp)).
  - split; [lia|]. cbn. rewrite Nat2Z.id, lookup_app_r, Nat.sub_diag by lia. done.
  - unfold fuel, entries. generalize (map_to_list (files k)). induction l as [|[q c] l IHl]; cbn; [lia|].
    destruct (decide _); cbn in *; lia.
Qed.

#[global] Instance fs : Fs Kernel := vita_fs fuel.

(** A card with two files and, in [stuck], one the kernel will neither remove nor replace. *)
Definition card : Kernel := mkKernel {[ bs "ux0:data/a" := bs "old"; bs "ux0:data/b" := bs "b" ]} [] [] ∅ [].
Definition stuck : Kernel := mkKernel (files card) (bs "ux0:data/a") [] ∅ [].
End Toy.

Lemma vita_fs_roundtrip_witness :
  exists k1 k2 ok1 ok2, write (bs "ux0:/data/new") (bs "ab") Toy.card = Val (k1, ok1) /\
    append (bs "ux0:/data/new") (bs "c") k1 = Val (k2, ok2) /\
    (forall q, q <> kpath (norm (bs "ux0:/data/new")) -> kfile k2 q = kfile Toy.card q) /\
    (ok1 = true -> ok2 = true ->
     exists k3 r, read 10 (bs "ux0:/data/new") k2 = Val (k3, r) /\ (ok r = None \/ ok r = Some (bs "ab" ++ bs "c"))).
Proof. apply (vita_fs_roundtrip 10); [vm_compute; reflexivity|vm_compute; lia]. Defined.

Lemma vita_rename_self_deletes_witness :
  exists k', rename (bs "ux0:/data/a") (bs "ux0:/data/a") Toy.card = (k', false) /\
             kfile k' (kpath (norm (bs "ux0:/data/a"))) = None.
Proof.
  apply (vita_rename_self_deletes _ _ (Toy.remove Toy.card (bs "ux0:data/a")).1 0);
    [vm_compute; reflexivity|lia|vm_compute; eauto].
Defined.

(** a write can keep what it should replace.  The backend ignores a failure
    to remove the old file and then appends: the write reports success and the
    file holds the old bytes followed by the new ones. *)
Theorem vita_write_keeps_old :
  exists k, write (bs "ux0:/data/a") (bs "new") Toy.stuck = Val (k, true) /\
            kfile k (kpath (norm (bs "ux0:/data/a"))) = Some (bs "oldnew").
Proof. eexists. split; vm_compute; reflexivity. Qed.
