(* ===== verification/Taildrop.v ===== *)
(** The Taildrop receiver of ts-peerapi: file names ([name.rs]), the HTTP reader
    ([http.rs]) and the handler ([handler.rs]) as the concurrent program it is.

    Every connection is a thread at some phase of [handle]; an atomic action of
    the code (the reservation, taking a sequence number, one file-system call,
    taking or releasing the finalize lock, one socket read) is one step, and the
    threads interleave freely.  The file system is the interface [Fs]; the
    grammar of a request head (the httparse crate) is a parameter. *)

From S2P Require Import Prelude NetTypes Text VitaFs.
#[local] Open Scope Z_scope.

(** * name.rs *)

Inductive NameError : Type := Empty | DotOrDotDot | Separator | Control | TooLong | BadEncoding.

Definition MAX_NAME_BYTES : Z := 255.
Definition MAX_COLLISION : nat := 100.

Definition hex_val (b : Z) : option Z :=
  if (48 <=? b) && (b <=? 57) then Some (b - 48)
  else if (97 <=? b) && (b <=? 102) then Some (b - 97 + 10)
  else if (65 <=? b) && (b <=? 70) then Some (b - 65 + 10)
  else None.

Fixpoint percent_decode_once (input : list Z) : result NameError (list Z) :=
  match input with
  | [] => Ok []
  | b :: rest =>
      if b =? 37 then
        match rest with
        | h :: l :: rest =>
            hi ← ok_or BadEncoding (hex_val h);
            lo ← ok_or BadEncoding (hex_val l);
            out ← percent_decode_once rest;
            Ok (Z.lor (Z.shiftl hi 4) lo :: out)
        | _ => Err BadEncoding
        end
      else out ← percent_decode_once rest; Ok (b :: out)
  end.

Fixpoint scan_name (name : list Z) : result NameError unit :=
  match name with
  | [] => Ok tt
  | b :: r =>
      if (b =? 47) || (b =? 92) || (b =? 58) then Err Separator
      else if ((0 <=? b) && (b <=? 31)) || (b =? 127) then Err Control
      else scan_name r
  end.

Definition validate (name : list Z) : result NameError unit :=
  if decide (name = []) then Err Empty
  else if decide (name = [46] \/ name = [46; 46]) then Err DotOrDotDot
  else if MAX_NAME_BYTES <? Z.of_nat (length name) then Err TooLong
  else scan_name name.

Definition sanitize_filename (raw : list Z) : result NameError (list Z) :=
  decoded ← percent_decode_once raw;
  if utf8_valid decoded then (_ ← validate decoded; Ok decoded) else Err BadEncoding.

(** At the last dot, unless it is the first byte. *)
Definition split_stem_ext (name : list Z) : list Z * list Z :=
  match rsplit_once 46 name with
  | Some ((_ :: _) as stem, ext) => (stem, 46 :: ext)
  | _ => (name, [])
  end.

Definition candidate (base : list Z) (n : nat) : list Z :=
  let '(stem, ext) := split_stem_ext base in stem ++ bs " (" ++ dec (Z.of_nat n) ++ bs ")" ++ ext.

Definition next_free_name (base : list Z) (existing : list (list Z)) : option (list Z) :=
  if decide (base ∈ existing) then
    List.find (fun c => bool_decide (c ∉ existing)) (map (candidate base) (seq 1 MAX_COLLISION))
  else Some base.

(** * http.rs *)

Definition MAX_HEAD_BYTES : Z := 8192.
Definition BODY_CHUNK : Z := 32768.

Inductive HttpError : Type := Io | BadRequest | HeadTooLarge | Incomplete.

(** One read of the socket. *)
Inductive Read : Type := RData (b : list Z) | REof | RTimeout | RErr.

(** What httparse finds in a complete head. *)
Record Parsed : Type := mkParsed {
  p_method : option (list Z); p_path : option (list Z); p_headers : list (list Z * list Z)
}.

Record RequestHead : Type := mkHead {
  method : list Z; path : list Z; content_length : option Z; leftover : list Z
}.

(** Index of the first CR LF CR LF. *)
Fixpoint find_crlfcrlf (b : list Z) : option nat :=
  match b with
  | [] => None
  | _ :: r => if decide (take 4 b = [13; 10; 13; 10]) then Some O else S <$> find_crlfcrlf r
  end.

Section Handler.
Context (parse : list Z -> option Parsed).

Definition head_of (buf : list Z) (header_end : nat) : result HttpError RequestHead :=
  match parse (take (header_end + 4) buf) with
  | None => Err BadRequest
  | Some req =>
      m ← ok_or BadRequest (p_method req);
      target ← ok_or BadRequest (p_path req);
      Ok (mkHead m (default target (head (split_on 63 target)))
            ('(_, v) ← List.find (fun h => eq_ignore_ascii_case h.1 (bs "content-length")) (p_headers req);
             if utf8_valid v then parse_u64 (trim v) else None)
            (drop (header_end + 4) buf))
  end.

(** The read loop; only the fresh tail is scanned, with three bytes of overlap.
    A socket that yields nothing more has ended. *)
Fixpoint read_head (buf : list Z) (reads : list Read) : result HttpError RequestHead :=
  if MAX_HEAD_BYTES <=? Z.of_nat (length buf) then Err HeadTooLarge
  else match reads with
       | RData b :: rest =>
           if decide (b = []) then Err BadRequest
           else
             let buf := buf ++ b in
             let scan_start := (length buf - (length b + 3))%nat in
             match find_crlfcrlf (drop scan_start buf) with
             | Some idx => head_of buf (scan_start + idx)
             | None => read_head buf rest
             end
       | RErr :: _ => Err Io
       | _ => Err BadRequest
       end.

(** * handler.rs *)

Definition PUT_PREFIX : list Z := bs "/v0/put/".

Record Config : Type := mkConfig { cfg_dir : list Z; cfg_max_size : Z }.
Context {W : Type} `{Fs W} (cfg : Config).

(** Where a connection's thread is. *)
Inductive Phase : Type :=
| Reserved (lead : list Z)                           (** holds its reservation *)
| Numbered (id : Z) (lead : list Z)                  (** has its sequence number *)
| Leading (id : Z) (lead : list Z)                   (** the partial file is created *)
| Streaming (id : Z) (got : list Z) (remaining : Z)  (** in [stream_body]'s loop *)
| Streamed (id : Z) (got : list Z)
| Locked (id : Z) (got : list Z)                     (** holds [finalize_lock] *)
| Chosen (id : Z) (got : list Z) (final : list Z)    (** about to rename *)
| Moved (id : Z) (got : list Z) (final : list Z)     (** about to verify *)
| Stored (got : list Z) (final : list Z)             (** lock released, about to answer *)
| Failed (id : Z) (status : Z) (size : Z).           (** about to remove the partial file *)

Record Conn : Type := mkConn { c_name : list Z; c_len : Z; c_phase : Phase }.

Record Report : Type := mkReport { r_name : list Z; r_size : Z; r_status : Z }.

(** [Ctx], the file system, the connections, and what was answered, reported
    and stored so far. *)
Record Server : Type := mkServer {
  disk : W; in_flight : Z; partial_seq : Z; lock : option nat; conns : gmap nat Conn;
  answers : list (nat * Z); reports : list Report; stored : list (list Z * list Z)
}.

Definition partial_file (id : Z) : list Z := bs ".taildrop-" ++ hex (be_bytes 8 id) ++ bs ".partial".
Definition at_dir (name : list Z) : list Z := join (cfg_dir cfg) name.

Definition put_conn (t : nat) (c : Conn) (s : Server) : Server :=
  mkServer (disk s) (in_flight s) (partial_seq s) (lock s) (<[t := c]> (conns s)) (answers s) (reports s) (stored s).
Definition go (t : nat) (c : Conn) (p : Phase) (s : Server) : Server := put_conn t (mkConn (c_name c) (c_len c) p) s.
Definition set_disk (w : W) (s : Server) : Server :=
  mkServer w (in_flight s) (partial_seq s) (lock s) (conns s) (answers s) (reports s) (stored s).
Definition set_lock (l : option nat) (s : Server) : Server :=
  mkServer (disk s) (in_flight s) (partial_seq s) l (conns s) (answers s) (reports s) (stored s).
Definition answer (t : nat) (status : Z) (r : list Report) (s : Server) : Server :=
  mkServer (disk s) (in_flight s) (partial_seq s) (lock s) (conns s) (answers s ++ [(t, status)]) (reports s ++ r) (stored s).
(** The thread ends and its reservation is dropped. *)
Definition close (t : nat) (c : Conn) (s : Server) : Server :=
  mkServer (disk s) (wrap 64 (in_flight s - c_len c)) (partial_seq s) (lock s) (delete t (conns s)) (answers s) (reports s) (stored s).

Definition reserve_in_flight (bytes : Z) (s : Server) : option Z :=
  let next := in_flight s + bytes in
  if 2 ^ 64 <=? next then None else if cfg_max_size cfg <? next then None else Some next.

(** From the accepted connection to the reservation. *)
Definition begin (t : nat) (reads : list Read) (s : Server) : Server :=
  match read_head [] reads with
  | Err _ => answer t 400 [] s
  | Ok h =>
      if negb (eq_ignore_ascii_case (method h) (bs "PUT")) then answer t 405 [] s
      else match strip_prefix PUT_PREFIX (path h) with
           | None => answer t 400 [] s
           | Some escaped =>
               match sanitize_filename escaped with
               | Err _ => answer t 400 [mkReport escaped 0 400] s
               | Ok name =>
                   match content_length h with
                   | None => answer t 411 [] s
                   | Some cl =>
                       if cfg_max_size cfg <? cl then answer t 413 [mkReport name cl 413] s
                       else match reserve_in_flight cl s with
                            | None => answer t 503 [mkReport name cl 503] s
                            | Some next =>
                                mkServer (disk s) next (partial_seq s) (lock s)
                                  (<[t := mkConn name cl (Reserved (leftover h))]> (conns s)) (answers s) (reports s) (stored s)
                            end
                   end
               end
           end
  end.

(** [dir_names] and [entry_size]. *)
Definition dir_names (w : W) : list (list Z) :=
  match fs_read_dir w (cfg_dir cfg) with Some es => map entry_name es | None => [] end.
Definition entry_size_of (w : W) (name : list Z) : option Z :=
  es ← fs_read_dir w (cfg_dir cfg);
  entry_size <$> List.find (fun e => bool_decide (entry_name e = name) && negb (is_dir e)) es.

(** [stream_body]'s sink: append a chunk to the partial file. *)
Definition take_chunk (t : nat) (c : Conn) (id : Z) (got b : list Z) (remaining : Z) (s : Server) : Server :=
  let '(w, ok) := fs_append (disk s) (at_dir (partial_file id)) b in
  go t c (if ok : bool then Streaming id (got ++ b) (remaining - Z.of_nat (length b)) else Failed id 500 0) (set_disk w s).

(** The next action of a thread that does not wait for the socket. *)
Definition next (t : nat) (c : Conn) (s : Server) : option Server :=
  match c_phase c with
  | Reserved lead =>
      Some (go t c (Numbered (partial_seq s) lead)
        (mkServer (disk s) (in_flight s) (wrap 64 (partial_seq s + 1)) (lock s) (conns s) (answers s) (reports s) (stored s)))
  | Numbered id lead =>
      let '(w, ok) := fs_write (disk s) (at_dir (partial_file id)) [] in
      Some (if ok : bool then go t c (Leading id lead) (set_disk w s)
            else close t c (answer t 500 [mkReport (c_name c) 0 500] (set_disk w s)))
  | Leading id lead =>
      if negb (bool_decide (lead = [])) && (0 <? c_len c) then
        Some (take_chunk t c id [] (take (Z.to_nat (Z.min (Z.of_nat (length lead)) (c_len c))) lead) (c_len c) s)
      else Some (go t c (Streaming id [] (c_len c)) s)
  | Streaming id got remaining => if 0 <? remaining then None else Some (go t c (Streamed id got) s)
  | Streamed id got =>
      match lock s with None => Some (go t c (Locked id got) (set_lock (Some t) s)) | Some _ => None end
  | Locked id got =>
      Some match next_free_name (c_name c) (dir_names (disk s)) with
           | Some final => go t c (Chosen id got final) s
           | None => go t c (Failed id 500 (c_len c)) (set_lock None s)
           end
  | Chosen id got final =>
      let '(w, ok) := fs_rename (disk s) (at_dir (partial_file id)) (at_dir final) in
      Some (if ok : bool then go t c (Moved id got final) (set_disk w s)
            else go t c (Failed id 500 (c_len c)) (set_lock None (set_disk w s)))
  | Moved id got final =>
      Some match entry_size_of (disk s) final with
           | Some size =>
               if c_len c <=? size
               then let s := go t c (Stored got final) (set_lock None s) in
                    mkServer (disk s) (in_flight s) (partial_seq s) (lock s) (conns s) (answers s) (reports s)
                      (stored s ++ [(final, got)])
               else go t c (Failed id 500 (c_len c)) (set_lock None s)
           | None => go t c (Failed id 500 (c_len c)) (set_lock None s)
           end
  | Stored got final => Some (close t c (answer t 200 [mkReport final (c_len c) 200] s))
  | Failed id status size =>
      let '(w, _) := fs_remove_file (disk s) (at_dir (partial_file id)) in
      Some (close t c (answer t status [mkReport (c_name c) size status] (set_disk w s)))
  end.

(** A read of the body: at most the chunk size and what is missing. *)
Definition receive (t : nat) (c : Conn) (r : Read) (s : Server) : option Server :=
  match c_phase c with
  | Streaming id got remaining =>
      if 0 <? remaining then
        match r with
        | RData b =>
            if decide (b = []) then Some (go t c (Failed id 400 0) s)
            else if Z.of_nat (length b) <=? Z.min BODY_CHUNK remaining then Some (take_chunk t c id got b remaining s)
            else None
        | REof | RTimeout => Some (go t c (Failed id 400 0) s)
        | RErr => Some (go t c (Failed id 500 0) s)
        end
      else None
  | _ => None
  end.

Inductive Event : Type :=
| Arrive (t : nat) (reads : list Read)
| Next (t : nat)
| Recv (t : nat) (r : Read).

Definition step (s : Server) (e : Event) : option Server :=
  match e with
  | Arrive t reads => match conns s !! t with None => Some (begin t reads s) | Some _ => None end
  | Next t => c ← conns s !! t; next t c s
  | Recv t r => c ← conns s !! t; receive t c r s
  end.

Fixpoint run (s : Server) (es : list Event) : option Server :=
  match es with [] => Some s | e :: es => s ← step s e; run s es end.

Definition server_new (w : W) : Server := mkServer w 0 0 None ∅ [] [] [].
End Handler.

(** * Specifications *)

(** A name that stays inside its directory: a bare component, printable, of
    bounded length. *)
Definition safe_name (n : list Z) : Prop :=
  n <> [] /\ n <> [46] /\ n <> [46; 46] /\ Z.of_nat (length n) <= MAX_NAME_BYTES /\
  Forall (fun b => b <> 47 /\ b <> 92 /\ b <> 58 /\ 31 < b /\ b <> 127) n.

(** What a client may send for a name: every byte escaped. *)
Definition percent_encode (n : list Z) : list Z := concat (map (fun b => 37 :: hex_byte b) n).

(** The read loop without the shortcut: the whole buffer is scanned each time. *)
Fixpoint read_head_ref (parse : list Z -> option Parsed) (buf : list Z) (reads : list Read) : result HttpError RequestHead :=
  if MAX_HEAD_BYTES <=? Z.of_nat (length buf) then Err HeadTooLarge
  else match reads with
       | RData b :: rest =>
           if decide (b = []) then Err BadRequest
           else match find_crlfcrlf (buf ++ b) with
                | Some idx => head_of parse (buf ++ b) idx
                | None => read_head_ref parse (buf ++ b) rest
                end
       | RErr :: _ => Err Io
       | _ => Err BadRequest
       end.

(** The name an arriving request asks for. *)
Definition requested (parse : list Z -> option Parsed) (e : Event) : option (list Z) :=
  match e with
  | Arrive _ reads =>
      match read_head parse [] reads with
      | Ok h => match strip_prefix PUT_PREFIX (path h) with
                | Some escaped => match sanitize_filename escaped with Ok name => Some name | Err _ => None end
                | None => None
                end
      | Err _ => None
      end
  | _ => None
  end.

(** Bytes declared by the open connections. *)
Definition declared (m : gmap nat Conn) : Z := map_fold (fun _ c a => c_len c + a) 0 m.

Definition id_of (p : Phase) : option Z :=
  match p with
  | Numbered id _ | Leading id _ | Streaming id _ _ | Streamed id _ | Locked id _ | Chosen id _ _ | Moved id _ _ | Failed id _ _ => Some id
  | Reserved _ | Stored _ _ => None
  end.
Definition holds_lock (p : Phase) : bool := match p with Locked _ _ | Chosen _ _ _ | Moved _ _ _ => true | _ => false end.

Section Spec.
Context {W : Type} `{!Fs W} (cfg : Config) `{!FsLaws W (cfg_dir cfg)}.

(** What the file [n] of the drop directory holds. *)
Definition holds (w : W) (n : list Z) : option (list Z) := content w (names (at_dir cfg n)).

(** A name no other name of the directory stands for: the card tells names apart
    exactly, or this one has no capitals. *)
Definition uncased (n : list Z) : Prop :=
  (forall a b, folded (d := cfg_dir cfg) a = folded (d := cfg_dir cfg) b -> a = b) \/ lower_name n = true.
Definition tame (n : list Z) : Prop := plain n /\ uncased n.

(** A final name: bare, uncased, not a dot name, and not the name of a partial file. *)
Definition ok_final (f : list Z) : Prop :=
  tame f /\ f <> [46] /\ f <> [46; 46] /\ forall id, f <> partial_file id.

(** The drop directory can be listed, and the names it shows are uncased. *)
Definition listable (w : W) : Prop :=
  exists es, fs_read_dir w (cfg_dir cfg) = Some es /\ Forall (fun e => uncased (entry_name e)) es.
(** It is so whenever a step looks. *)
Fixpoint always_listable (parse : list Z -> option Parsed) (s : Server) (es : list Event) : Prop :=
  listable (disk s) /\ match es with [] => True | e :: es => match step parse cfg s e with Some s => always_listable parse s es | None => True end end.

Definition conn_ok (w : W) (c : Conn) : Prop :=
  match c_phase c with
  | Reserved _ | Stored _ _ | Failed _ _ _ => True
  | Numbered id _ => holds w (partial_file id) = None
  | Leading id _ => holds w (partial_file id) = Some []
  | Streaming id got rem => holds w (partial_file id) = Some got /\ Z.of_nat (length got) + rem = c_len c /\ 0 <= rem
  | Streamed id got | Locked id got => holds w (partial_file id) = Some got /\ Z.of_nat (length got) = c_len c
  | Chosen id got f =>
      holds w (partial_file id) = Some got /\ Z.of_nat (length got) = c_len c /\ holds w f = None /\ ok_final f
  | Moved id got f => holds w f = Some got /\ Z.of_nat (length got) = c_len c /\ ok_final f
  end.

Definition files_of (p : Phase) : list (list Z) :=
  match p with
  | Numbered id _ | Leading id _ | Streaming id _ _ | Streamed id _ | Locked id _ => [partial_file id]
  | Chosen id _ f => [partial_file id; f]
  | Moved _ _ f => [f]
  | Failed id _ _ => [partial_file id]
  | _ => []
  end.

(** The invariant of the server after [n] steps from a disk [w0]. *)
Record inv (w0 : W) (n : Z) (s : Server) : Prop := {
  i_flight : in_flight s = declared (conns s) /\ 0 <= in_flight s <= cfg_max_size cfg;
  i_seq : 0 <= partial_seq s <= n;
  i_ids : forall t c id, conns s !! t = Some c -> id_of (c_phase c) = Some id -> 0 <= id < partial_seq s;
  i_distinct : forall t t' c c' id, conns s !! t = Some c -> conns s !! t' = Some c' ->
    id_of (c_phase c) = Some id -> id_of (c_phase c') = Some id -> t = t';
  i_free : forall id, partial_seq s <= id < 2 ^ 64 -> holds (disk s) (partial_file id) = None;
  i_lock : forall t c, conns s !! t = Some c -> holds_lock (c_phase c) = true -> lock s = Some t;
  i_conns : forall t c, conns s !! t = Some c -> conn_ok (disk s) c /\ ok_final (c_name c) /\ 0 <= c_len c;
  i_moved : forall t c id got f, conns s !! t = Some c -> c_phase c = Moved id got f -> f ∉ (stored s).*1;
  i_stored : forall f b, (f, b) ∈ stored s -> holds (disk s) f = Some b /\ ok_final f;
  i_nodup : NoDup (stored s).*1;
  i_old : forall f b, ok_final f -> holds w0 f = Some b -> holds (disk s) f = Some b
}.
End Spec.

(** * Lemmas *)

(** ** Names *)

Lemma hex_val_digit d : 0 <= d < 16 -> hex_val (hex_digit d) = Some d.
Proof.
  intros Hd. unfold hex_val, hex_digit. destruct (Z.ltb_spec d 10).
  - destruct (Z.leb_spec 48 (48 + d)), (Z.leb_spec (48 + d) 57); try lia. cbn. f_equal. lia.
  - destruct (Z.leb_spec 48 (87 + d)), (Z.leb_spec (87 + d) 57); try lia.
    destruct (Z.leb_spec 97 (87 + d)), (Z.leb_spec (87 + d) 102); try lia. cbn. f_equal. lia.
Qed.

Lemma nibbles b : 0 <= b -> Z.lor (Z.shiftl (b / 16) 4) (b mod 16) = b.
Proof.
  intros Hb. change 16 with (2 ^ 4). rewrite <- Z.land_ones, <- Z.shiftr_div_pow2 by lia.
  apply Z.bits_inj'. intros i Hi. rewrite Z.lor_spec, Z.land_spec, Z.testbit_ones_nonneg by lia.
  destruct (Z.ltb_spec i 4).
  - rewrite Z.shiftl_spec_low, andb_true_r by lia. done.
  - rewrite Z.shiftl_spec, Z.shiftr_spec, andb_false_r, orb_false_r by lia. f_equal. lia.
Qed.

Lemma decode_encode n : bytes_wf n -> percent_decode_once (percent_encode n) = Ok n.
Proof.
  unfold bytes_wf, percent_encode. induction 1 as [|b n Hb Hn IH]; [done|]. cbn [map concat app hex_byte percent_decode_once].
  unfold u8 in Hb. rewrite Z.eqb_refl, !hex_val_digit by lia_div.
  cbn. rewrite IH. cbn. rewrite nibbles by lia. done.
Qed.

Lemma scan_name_ok n : bytes_wf n ->
  scan_name n = Ok tt <-> Forall (fun b => b <> 47 /\ b <> 92 /\ b <> 58 /\ 31 < b /\ b <> 127) n.
Proof.
  induction 1 as [|b n Hb Hn IH]; [split; [constructor|done]|]. cbn [scan_name]. unfold u8 in Hb. rewrite list.Forall_cons, <- IH.
  destruct (Z.eqb_spec b 47), (Z.eqb_spec b 92), (Z.eqb_spec b 58); cbn; try (split; [done|intros [? ?]; lia]).
  destruct (Z.leb_spec 0 b), (Z.leb_spec b 31), (Z.eqb_spec b 127); cbn; try lia; try (split; [done|intros [? ?]; lia]).
  intuition lia.
Qed.

Lemma validate_ok n : bytes_wf n -> validate n = Ok tt <-> safe_name n.
Proof.
  intros Hn. unfold validate, safe_name. case_decide as H1; [split; [done|tauto]|].
  case_decide as H2; [split; [done|tauto]|]. destruct (Z.ltb_spec MAX_NAME_BYTES (Z.of_nat (length n))); [split; [done|lia]|].
  rewrite scan_name_ok by done. tauto.
Qed.

Lemma hex_val_bound b d : hex_val b = Some d -> 0 <= d < 16.
Proof.
  unfold hex_val. repeat (case_match; [intros [= <-]; rewrite ?andb_true_iff, ?Z.leb_le in *; lia|]). done.
Qed.

Lemma decode_wf n : forall raw k, (length raw <= n)%nat -> bytes_wf raw -> percent_decode_once raw = Ok k -> bytes_wf k.
Proof.
  unfold bytes_wf. induction n as [|n IH]; intros raw k Hlen Hw; destruct raw as [|b raw]; cbn [length] in Hlen; try lia;
    cbn [percent_decode_once]; try (intros [= <-]; constructor).
  apply Forall_cons_1 in Hw as [Hb Hw]. destruct (b =? 37).
  - destruct raw as [|h [|l raw]]; try done. cbn [length] in Hlen.
    apply Forall_cons_1 in Hw as [_ Hw]. apply Forall_cons_1 in Hw as [_ Hw].
    destruct (hex_val h) as [hi|] eqn:Eh; [|done]. destruct (hex_val l) as [lo|] eqn:El; [|done]. cbn.
    apply hex_val_bound in Eh, El. destruct (percent_decode_once raw) as [o|] eqn:E; [|done]. intros [= <-].
    apply Forall_cons_2; [|eapply IH; [|done|done]; lia]. unfold u8. split.
    + apply Z.lor_nonneg. split; [apply Z.shiftl_nonneg|]; lia.
    + replace (Z.lor (Z.shiftl hi 4) lo) with (hi * 16 + lo); [lia|].
      transitivity (Z.lor (Z.shiftl ((hi * 16 + lo) / 16) 4) ((hi * 16 + lo) mod 16)); [by rewrite nibbles by lia|].
      f_equal; [f_equal|]; lia_div.
  - destruct (percent_decode_once raw) as [o|] eqn:E; [|done]. intros [= <-]. apply Forall_cons_2; [done|].
    eapply IH; [|done|done]. lia.
Qed.

Lemma sanitize_ok raw n : bytes_wf raw -> sanitize_filename raw = Ok n -> safe_name n /\ utf8_valid n = true /\ bytes_wf n.
Proof.
  intros Hw. unfold sanitize_filename. destruct (percent_decode_once raw) as [k|] eqn:E; [|done]. cbn.
  apply (decode_wf (length raw)) in E; [|lia|done]. destruct (utf8_valid k) eqn:Eu; [|done].
  destruct (validate k) as [[]|] eqn:Ev; [|done]. intros [= <-]. split; [|done]. by apply validate_ok.
Qed.

Lemma sanitize_encode n : bytes_wf n -> safe_name n -> utf8_valid n = true -> sanitize_filename (percent_encode n) = Ok n.
Proof.
  intros Hw Hs Hu. unfold sanitize_filename. rewrite decode_encode by done. cbn. rewrite Hu.
  by rewrite (proj2 (validate_ok n Hw) Hs).
Qed.

Lemma safe_plain n : safe_name n -> plain n /\ n <> [46] /\ n <> [46; 46].
Proof.
  intros (H1 & H2 & H3 & _ & H4). rewrite list.Forall_forall in H4. split_and!; [|done|done].
  split_and!; [done|..]; intros Hin; apply H4 in Hin; lia.
Qed.

(** The stem and the extension make up the name. *)
Lemma split_stem_ext_app n : let '(a, b) := split_stem_ext n in n = a ++ b.
Proof.
  unfold split_stem_ext. destruct (rsplit_once 46 n) as [[[|x a] b]|] eqn:E; rewrite ?app_nil_r; try done.
  unfold rsplit_once in E. destruct (split_once 46 (reverse n)) as [[u v]|] eqn:Es; [|done]. cbn in E.
  apply split_once_spec in Es as [Es _]. apply (f_equal reverse) in Es. rewrite reverse_involutive, reverse_app in Es.
  injection E as E1 E2. rewrite Es, reverse_cons, E1, E2, <- app_assoc. done.
Qed.

(** A collision name is still a bare printable component. *)
Lemma candidate_plain n k : plain n -> plain (candidate n k).
Proof.
  intros (H1 & H2 & H3 & H4). pose proof (split_stem_ext_app n) as E. unfold candidate.
  destruct (split_stem_ext n) as [a b]. subst n. rewrite not_elem_of_app in H2, H3, H4.
  assert (Hd : forall c, ~ 48 <= c <= 57 -> c ∉ bs " (" -> c ∉ bs ")" -> ((c ∉ a) /\ c ∉ b) ->
    c ∉ a ++ bs " (" ++ dec (Z.of_nat k) ++ bs ")" ++ b).
  { intros c Hc Hl Hr [Ha Hb]. rewrite !not_elem_of_app. split_and!; try done. apply dec_no_char; lia. }
  split; [by destruct a|]. split_and!; apply Hd; try done; try lia; vm_compute; intros Hin;
    repeat (apply elem_of_cons in Hin as [Hin|Hin]; [done|]); by apply elem_of_nil in Hin.
Qed.

Lemma candidate_space n k : 32 ∈ candidate n k.
Proof.
  unfold candidate. destruct (split_stem_ext n) as [a b]. apply elem_of_app. right. apply elem_of_app. left.
  vm_compute. apply elem_of_cons. by left.
Qed.

(** A free name is new, and either the name asked for or a collision name. *)
Lemma next_free_spec n ex f :
  next_free_name n ex = Some f -> (f ∉ ex) /\ (f = n \/ exists k, f = candidate n k).
Proof.
  unfold next_free_name. case_decide as Hin; [|intros [= <-]; auto]. intros Hf. apply List.find_some in Hf as [Hi Hb].
  apply bool_decide_eq_true in Hb. split; [done|]. right. apply list_elem_of_In in Hi.
  apply list_elem_of_fmap in Hi as (k & -> & _). eauto.
Qed.

(** ** The head reader *)

Lemma find_crlf_some b i :
  find_crlfcrlf b = Some i <->
  take 4 (drop i b) = [13; 10; 13; 10] /\ forall j, (j < i)%nat -> take 4 (drop j b) <> [13; 10; 13; 10].
Proof.
  revert i. induction b as [|x b IH]; intros i; cbn [find_crlfcrlf].
  { rewrite drop_nil. split; [done|]. by intros [? _]. }
  case_decide as Hd.
  - split; [intros [= <-]; split; [done|lia]|]. intros [_ Hj]. destruct i; [done|]. by specialize (Hj 0%nat ltac:(lia)).
  - destruct i as [|i].
    { split; [by destruct (find_crlfcrlf b)|]. by intros [? _]. }
    transitivity (find_crlfcrlf b = Some i); [destruct (find_crlfcrlf b); cbn; split; congruence|].
    rewrite IH. cbn [drop]. split; intros [H1 H2]; (split; [done|]).
    + intros [|j] Hj; [done|]. apply H2. lia.
    + intros j Hj. apply (H2 (S j)). lia.
Qed.

Lemma find_crlf_none b : find_crlfcrlf b = None <-> forall j, take 4 (drop j b) <> [13; 10; 13; 10].
Proof.
  induction b as [|x b IH]; cbn [find_crlfcrlf]; [split; [intros _ j; by rewrite drop_nil|done]|].
  case_decide as Hd; [split; [done|]; intros Hj; by destruct (Hj 0%nat)|].
  rewrite fmap_None, IH. split; [intros Hj [|j]; [done|apply Hj]|intros Hj j; apply (Hj (S j))].
Qed.

(** Scanning the fresh tail with three bytes of overlap misses nothing. *)
Lemma find_crlf_tail buf b :
  find_crlfcrlf buf = None ->
  let start := (length (buf ++ b) - (length b + 3))%nat in
  find_crlfcrlf (buf ++ b) = Nat.add start <$> find_crlfcrlf (drop start (buf ++ b)).
Proof.
  intros Hn start. rewrite find_crlf_none in Hn.
  assert (Hold : forall j, (j < start)%nat -> take 4 (drop j (buf ++ b)) <> [13; 10; 13; 10]).
  { intros j Hj. unfold start in Hj. rewrite length_app in Hj. rewrite drop_app_le, take_app_le by (rewrite ?length_drop; lia).
    apply Hn. }
  destruct (find_crlfcrlf (drop start (buf ++ b))) as [i|] eqn:E; cbn.
  - apply find_crlf_some in E as [E1 E2]. rewrite drop_drop in E1. apply find_crlf_some. split; [done|].
    intros j Hj. destruct (decide (j < start)%nat) as [Hlt|Hge]; [by apply Hold|].
    specialize (E2 (j - start)%nat ltac:(lia)). rewrite drop_drop in E2. by replace (start + (j - start))%nat with j in E2 by lia.
  - apply find_crlf_none. rewrite find_crlf_none in E. intros j.
    destruct (decide (j < start)%nat) as [Hlt|Hge]; [by apply Hold|].
    specialize (E (j - start)%nat). rewrite drop_drop in E. by replace (start + (j - start))%nat with j in E by lia.
Qed.

Lemma read_head_eq parse reads : forall buf,
  find_crlfcrlf buf = None -> read_head parse buf reads = read_head_ref parse buf reads.
Proof.
  induction reads as [|r reads IH]; intros buf Hn; cbn [read_head read_head_ref]; [done|].
  destruct (_ <=? _); [done|]. destruct r as [b| | |]; try done. case_decide; [done|].
  rewrite (find_crlf_tail buf b Hn). cbn zeta. set (start := (_ - _)%nat).
  destruct (find_crlfcrlf (drop start (buf ++ b))) as [i|] eqn:E; cbn [fmap option_fmap option_map]; [done|].
  apply IH. rewrite find_crlf_tail by done. cbn zeta. fold start. by rewrite E.
Qed.

(** ** Partial names *)

Lemma hex_digit_range d : 0 <= d < 16 -> 48 <= hex_digit d <= 57 \/ 97 <= hex_digit d <= 102.
Proof. unfold hex_digit. case_match; lia. Qed.

Lemma hex_digit_inj a b : 0 <= a < 16 -> 0 <= b < 16 -> hex_digit a = hex_digit b -> a = b.
Proof. unfold hex_digit. repeat case_match; lia. Qed.

Lemma hex_chars l c : bytes_wf l -> c ∈ hex l -> 48 <= c <= 57 \/ 97 <= c <= 102.
Proof.
  unfold bytes_wf, hex. induction 1 as [|b l Hb Hl IH]; [by intros ?%elem_of_nil|].
  cbn [map concat]. unfold u8 in Hb. intros [Hc|Hc]%elem_of_app; [|auto]. unfold hex_byte in Hc.
  apply elem_of_cons in Hc as [->|Hc]; [apply hex_digit_range; lia_div|].
  apply list_elem_of_singleton in Hc as ->. apply hex_digit_range. lia_div.
Qed.

Lemma hex_inj l k : bytes_wf l -> bytes_wf k -> hex l = hex k -> l = k.
Proof.
  unfold bytes_wf, hex. intros Hl. revert k. induction Hl as [|b l Hb Hl IH]; intros [|d k] Hk E; try done.
  apply Forall_cons_1 in Hk as [Hd Hk]. cbn in E. unfold u8 in *.
  assert (Hhi : hex_digit (b / 16) = hex_digit (d / 16)) by congruence.
  assert (Hlo : hex_digit (b mod 16) = hex_digit (d mod 16)) by congruence.
  apply hex_digit_inj in Hhi, Hlo; [|lia_div..]. f_equal; [lia_div|]. apply IH; [done|]. congruence.
Qed.

Lemma partial_file_inj a b : 0 <= a < 2 ^ 64 -> 0 <= b < 2 ^ 64 -> partial_file a = partial_file b -> a = b.
Proof.
  unfold partial_file. intros Ha Hb E. apply app_inv_head, app_inv_tail, hex_inj in E; [|auto with bytes..].
  apply (f_equal from_be) in E. by rewrite !from_be_be_bytes_small in E by done.
Qed.

(** No separator, no NUL, no space. *)
Lemma partial_file_chars id c : c ∈ partial_file id -> c ∈ bs ".taildrop-.partial" \/ 48 <= c <= 57 \/ 97 <= c <= 102.
Proof.
  unfold partial_file. intros [Hc|[Hc|Hc]%elem_of_app]%elem_of_app; [left| |left].
  1,3: change (bs ".taildrop-.partial") with (bs ".taildrop-" ++ bs ".partial"); apply elem_of_app; auto.
  right. eapply hex_chars; [|done]. auto with bytes.
Qed.

Lemma partial_file_lacks id c :
  forallb (fun x => negb (x =? c)) (bs ".taildrop-.partial") = true -> ~ (48 <= c <= 57 \/ 97 <= c <= 102) -> c ∉ partial_file id.
Proof.
  intros Hb Hr Hin. apply partial_file_chars in Hin as [Hin|Hin]; [|done]. rewrite forallb_forall in Hb.
  specialize (Hb c). rewrite <- list_elem_of_In, Z.eqb_refl in Hb. by specialize (Hb Hin).
Qed.

Lemma partial_file_plain id : plain (partial_file id).
Proof.
  split; [done|]. split_and!; apply partial_file_lacks; try lia; reflexivity.
Qed.

Lemma candidate_not_partial n k id : candidate n k <> partial_file id.
Proof.
  intros E. assert (Hs : 32 ∉ partial_file id) by (apply partial_file_lacks; [reflexivity|lia]).
  apply Hs. rewrite <- E. apply candidate_space.
Qed.

Lemma candidate_long n k : (3 <= length (candidate n k))%nat.
Proof. unfold candidate. destruct (split_stem_ext n) as [a b]. rewrite !length_app. cbn. lia. Qed.

Lemma partial_file_lower id : lower_name (partial_file id) = true.
Proof.
  unfold lower_name. apply forallb_forall. intros c Hc%list_elem_of_In. apply partial_file_chars in Hc as [Hc|Hc]; [|lia].
  assert (Hall : forallb (fun b => (0 <=? b) && (b <? 128) && negb ((65 <=? b) && (b <=? 90))) (bs ".taildrop-.partial") = true) by reflexivity.
  rewrite forallb_forall in Hall. by apply Hall, list_elem_of_In.
Qed.

Lemma candidate_lower n k : lower_name n = true -> lower_name (candidate n k) = true.
Proof.
  intros Hn. pose proof (split_stem_ext_app n) as E. unfold candidate. destruct (split_stem_ext n) as [a b]. subst n.
  unfold lower_name in *. rewrite forallb_app in Hn. apply andb_true_iff in Hn as [Ha Hb]. rewrite !forallb_app, Ha, Hb.
  assert (Hd : forallb (fun b => (0 <=? b) && (b <? 128) && negb ((65 <=? b) && (b <=? 90))) (dec (Z.of_nat k)) = true); [|by rewrite Hd].
  apply forallb_forall. intros x Hx%list_elem_of_In. pose proof (dec_digits (Z.of_nat k) ltac:(lia)) as Hd. rewrite list.Forall_forall in Hd.
  specialize (Hd x Hx). lia.
Qed.

(** ** Bytes declared *)

Lemma declared_insert m t c : m !! t = None -> declared (<[t := c]> m) = c_len c + declared m.
Proof. intros Hm. unfold declared. by rewrite map_fold_insert_L by (done || (intros; lia)). Qed.

Lemma declared_delete m t c : m !! t = Some c -> declared m = c_len c + declared (delete t m).
Proof. intros Hm. rewrite <- (insert_delete_id m t c Hm) at 1. by rewrite declared_insert by apply lookup_delete_eq. Qed.

Lemma declared_update m t c c' : m !! t = Some c -> c_len c' = c_len c -> declared (<[t := c']> m) = declared m.
Proof.
  intros Hm Hl. rewrite <- insert_delete_eq, declared_insert by apply lookup_delete_eq. rewrite (declared_delete m t c Hm). lia.
Qed.

Lemma declared_nonneg m : (forall t c, m !! t = Some c -> 0 <= c_len c) -> 0 <= declared m.
Proof.
  induction m as [|t c m Hm IH] using map_ind; intros Hc; [done|]. rewrite declared_insert by done.
  pose proof (Hc t c ltac:(by rewrite lookup_insert_eq)). assert (0 <= declared m); [|lia]. apply IH. intros u d Hu.
  apply (Hc u). rewrite lookup_insert_ne; [done|]. intros ->. congruence.
Qed.

(** ** The disk *)

Section Safety.
Context (parse : list Z -> option Parsed) {W : Type} `{!Fs W} (cfg : Config) `{!FsLaws W (cfg_dir cfg)}.
Hypothesis size_u64 : 0 <= cfg_max_size cfg < 2 ^ 64.
#[local] Abbreviation holds := (holds cfg).
#[local] Abbreviation conn_ok := (conn_ok cfg).
#[local] Abbreviation inv := (inv cfg).
#[local] Abbreviation ok_final := (ok_final cfg).
#[local] Abbreviation tame := (tame cfg).
#[local] Abbreviation listable := (listable cfg).

Lemma partial_file_tame id : tame (partial_file id).
Proof. split; [apply partial_file_plain|right; apply partial_file_lower]. Qed.

Lemma next_free_final n ex f : ok_final n -> next_free_name n ex = Some f -> ok_final f /\ f ∉ ex.
Proof.
  intros Hn Hf. apply next_free_spec in Hf as [Hin [->|[k ->]]]; [done|]. split; [|done].
  destruct Hn as ([Hp Hu] & _). split_and!; [split; [by apply candidate_plain|]| | |intros id; apply candidate_not_partial];
    [destruct Hu as [Hu|Hu]; [by left|right; by apply candidate_lower]|..];
    intros E; apply (f_equal length) in E; pose proof (candidate_long n k); cbn in E; lia.
Qed.

(** Names that fold alike are the same. *)
Lemma uncased_folded a b : uncased cfg a -> uncased cfg b -> folded (d := cfg_dir cfg) a = folded (d := cfg_dir cfg) b -> a = b.
Proof. intros [Ha|Ha] Hb E; [by apply Ha|]. destruct Hb as [Hb|Hb]; [by apply Hb|]. by rewrite !folded_lower in E. Qed.

(** Only the files [T] of the directory may differ. *)
Definition frame (w w' : W) (T : list (list Z)) : Prop := forall n, tame n -> n ∉ T -> holds w' n = holds w n.

Lemma frame_refl w T : frame w w T.
Proof. by intros n _ _. Qed.

Lemma names_ne a b : tame a -> tame b -> a <> b -> names (at_dir cfg a) <> names (at_dir cfg b).
Proof. intros [Ha Hua] [Hb Hub] Hne E. apply Hne, uncased_folded; [done..|]. by apply (names_join (d := cfg_dir cfg)). Qed.

Lemma write_frame w w' ok p b : tame p -> fs_write w (at_dir cfg p) b = (w', ok) ->
  (ok = true -> holds w p = None -> holds w' p = Some b) /\ frame w w' [p].
Proof.
  intros Hp E. apply (write_law (d := cfg_dir cfg)) in E as [H1 H2]. split.
  - intros Ht Hn. destruct (H1 Ht) as [?|(c & Hc & _)]; [done|]. unfold holds in *. unfold Taildrop.holds in Hn. congruence.
  - intros n Hn Hin. apply H2. apply names_ne; [done|done|]. intros ->. apply Hin. by apply list_elem_of_singleton.
Qed.

Lemma append_frame w w' ok p b : tame p -> fs_append w (at_dir cfg p) b = (w', ok) ->
  (ok = true -> holds w' p = Some (default [] (holds w p) ++ b)) /\ frame w w' [p].
Proof.
  intros Hp E. apply (append_law (d := cfg_dir cfg)) in E as [H1 H2]. split; [done|].
  intros n Hn Hin. apply H2. apply names_ne; [done|done|]. intros ->. apply Hin. by apply list_elem_of_singleton.
Qed.

Lemma remove_frame w w' ok p : tame p -> fs_remove_file w (at_dir cfg p) = (w', ok) -> frame w w' [p].
Proof.
  intros Hp E. apply (remove_law (d := cfg_dir cfg)) in E as [H1 H2].
  intros n Hn Hin. apply H2. apply names_ne; [done|done|]. intros ->. apply Hin. by apply list_elem_of_singleton.
Qed.

Lemma rename_frame w w' ok p q : tame p -> tame q -> p <> q -> fs_rename w (at_dir cfg p) (at_dir cfg q) = (w', ok) ->
  (ok = true -> holds w' q = holds w p) /\ frame w w' [p; q].
Proof.
  intros Hp Hq Hne E. apply (rename_law (d := cfg_dir cfg)) in E as (H1 & H2 & H3); [|by apply names_ne].
  split; [intros Ht; by destruct (H1 Ht)|]. intros n Hn Hin. apply not_elem_of_cons in Hin as [Hnp Hin].
  apply not_elem_of_cons in Hin as [Hnq _]. apply H3; by apply names_ne.
Qed.

(** A name the listing does not show is not a file. *)
Lemma listed w es n c : fs_read_dir w (cfg_dir cfg) = Some es -> Forall (fun e => uncased cfg (entry_name e)) es ->
  tame n -> n <> [46] -> n <> [46; 46] -> holds w n = Some c -> mkEntry n false (Z.of_nat (length c)) ∈ es.
Proof.
  intros Hes Hu [Hn Hun] H1 H2 Hc. destruct (list_law (d := cfg_dir cfg) w es Hes n c Hn H1 H2 Hc) as (n' & Hf & Hin).
  rewrite list.Forall_forall in Hu. pose proof (Hu _ Hin) as Hun'. by apply uncased_folded in Hf as ->.
Qed.

Lemma unlisted w n : listable w -> tame n -> n <> [46] -> n <> [46; 46] -> n ∉ dir_names cfg w -> holds w n = None.
Proof.
  intros (es & Hes & Hu) Hn H1 H2 Hin. unfold dir_names in Hin. rewrite Hes in Hin.
  destruct (holds w n) as [c|] eqn:E; [|done]. exfalso. apply Hin.
  apply list_elem_of_fmap. exists (mkEntry n false (Z.of_nat (length c))). split; [done|]. by eapply listed.
Qed.

(** What a connection relies on survives changes to other files. *)
Lemma conn_ok_frame w w' T c :
  frame w w' T -> (forall n, n ∈ files_of (c_phase c) -> n ∉ T) -> conn_ok w c -> conn_ok w' c.
Proof.
  intros Hf Hd. unfold Taildrop.conn_ok.
  assert (Hp : forall id, partial_file id ∈ files_of (c_phase c) -> holds w' (partial_file id) = holds w (partial_file id)).
  { intros id Hin. apply Hf; [apply partial_file_tame|auto]. }
  destruct (c_phase c); cbn [files_of] in *; rewrite ?Hp by (apply elem_of_cons; by left); try done.
  - intros (? & ? & ? & Hok). rewrite (Hf final); [done|apply Hok|]. apply Hd. apply elem_of_cons. right. by apply list_elem_of_singleton.
  - intros (? & ? & Hok). rewrite (Hf final); [done|apply Hok|]. apply Hd. by apply list_elem_of_singleton.
Qed.

(** ** One thread's step *)

(** The files a thread may change: its partial file and the final name it has
    chosen. *)
Definition own (p : Phase) (T : list (list Z)) : Prop :=
  forall x, x ∈ T -> (exists id, id_of p = Some id /\ x = partial_file id) \/ (exists id got, p = Chosen id got x).

Definition conns_after (t : nat) (c : Conn) (o : option Phase) (m : gmap nat Conn) : gmap nat Conn :=
  match o with Some p => <[t := mkConn (c_name c) (c_len c) p]> m | None => delete t m end.

Lemma own_nil p : own p [].
Proof. by intros x Hx%elem_of_nil. Qed.

Lemma own_partial p id : id_of p = Some id -> own p [partial_file id].
Proof. intros Hid x ->%list_elem_of_singleton. eauto. Qed.

Section Step.
Context (w0 : W) (n : Z) (s : Server (W := W)) (t : nat) (c : Conn) (T : list (list Z)).
Hypothesis Hinv : inv w0 n s.
Hypothesis Hn : n < 2 ^ 64.
Hypothesis Hc : conns s !! t = Some c.
Hypothesis Hown : own (c_phase c) T.

Lemma chosen_fact id got x :
  c_phase c = Chosen id got x -> holds (disk s) x = None /\ ok_final x /\ lock s = Some t.
Proof.
  intros E. destruct (i_conns _ _ _ _ Hinv t c Hc) as [Hok _]. unfold Taildrop.conn_ok in Hok. rewrite E in Hok.
  destruct Hok as (_ & _ & ? & ?). split_and!; [done|done|]. eapply i_lock; [done|done|]. by rewrite E.
Qed.

Lemma final_untouched f : ok_final f -> is_Some (holds (disk s) f) -> f ∉ T.
Proof.
  intros (_ & _ & _ & Hf) [b Hb] Hin. destruct (Hown f Hin) as [(id & _ & ->)|(id & got & E)]; [by eapply Hf|].
  destruct (chosen_fact _ _ _ E) as [? _]. congruence.
Qed.

Lemma free_untouched id : partial_seq s <= id < 2 ^ 64 -> partial_file id ∉ T.
Proof.
  intros Hid Hin. pose proof (i_seq _ _ _ _ Hinv). destruct (Hown _ Hin) as [(id' & Hi & E)|(id' & got & E)].
  - pose proof (i_ids _ _ _ _ Hinv t c id' Hc Hi). apply partial_file_inj in E; lia.
  - destruct (chosen_fact _ _ _ E) as (_ & (_ & _ & _ & Hf) & _). by eapply Hf.
Qed.

Lemma final_or_partial t' c' x :
  conns s !! t' = Some c' -> x ∈ files_of (c_phase c') ->
  (exists id, id_of (c_phase c') = Some id /\ x = partial_file id) \/ (ok_final x /\ holds_lock (c_phase c') = true).
Proof.
  intros Hc' Hx. destruct (i_conns _ _ _ _ Hinv t' c' Hc') as [Hok _]. unfold Taildrop.conn_ok in Hok.
  destruct (c_phase c'); cbn [files_of] in Hx; repeat (apply elem_of_cons in Hx as [->|Hx]);
    try (by apply elem_of_nil in Hx); try (left; eauto; fail); right; split; tauto.
Qed.

Lemma other_untouched t' c' x : t' <> t -> conns s !! t' = Some c' -> x ∈ files_of (c_phase c') -> x ∉ T.
Proof.
  intros Hne Hc' Hx Hin. pose proof (i_seq _ _ _ _ Hinv).
  destruct (final_or_partial t' c' x Hc' Hx) as [(id & Hid & ->)|[Hfin Hl]].
  - destruct (Hown _ Hin) as [(id' & Hi & E)|(id' & got & E)].
    + pose proof (i_ids _ _ _ _ Hinv t c id' Hc Hi). pose proof (i_ids _ _ _ _ Hinv t' c' id Hc' Hid).
      apply partial_file_inj in E; [|lia..]. subst id'. apply Hne. by eapply i_distinct.
    + destruct (chosen_fact _ _ _ E) as (_ & (_ & _ & _ & Hf) & _). by eapply Hf.
  - destruct (Hown _ Hin) as [(id' & Hi & ->)|(id' & got & E)]; [by eapply Hfin|].
    destruct (chosen_fact _ _ _ E) as (_ & _ & Hlk). pose proof (i_lock _ _ _ _ Hinv t' c' Hc' Hl). congruence.
Qed.

(** The thread moves to another phase or ends. *)
Lemma inv_step (o : option Phase) w' lk ans rep :
  frame (disk s) w' T ->
  (forall p, o = Some p ->
     (id_of p = id_of (c_phase c) \/ id_of p = None) /\ conn_ok w' (mkConn (c_name c) (c_len c) p) /\
     (holds_lock p = true -> lk = Some t) /\ (forall id got f, p = Moved id got f -> f ∉ (stored s).*1)) ->
  (lk = lock s \/ holds_lock (c_phase c) = true \/ lock s = None) ->
  inv w0 (n + 1) (mkServer w' (match o with Some _ => in_flight s | None => wrap 64 (in_flight s - c_len c) end)
    (partial_seq s) lk (conns_after t c o (conns s)) ans rep (stored s)).
Proof.
  intros Hf Hp Hlk. pose proof Hinv as [I1 I2 I3 I4 I5 I6 I7 I8 I9 I10 I11].
  set (m := conns_after t c o (conns s)).
  assert (Hm : forall t' c', m !! t' = Some c' -> (t' <> t /\ conns s !! t' = Some c') \/
    (t' = t /\ exists p, o = Some p /\ c' = mkConn (c_name c) (c_len c) p)).
  { intros t' c'. unfold m, conns_after. destruct (decide (t' = t)) as [->|Hne].
    - destruct o as [p|]; [rewrite lookup_insert_eq|by rewrite lookup_delete_eq]. intros [= <-]. eauto.
    - destruct o; [rewrite lookup_insert_ne by done|rewrite lookup_delete_ne by done]; auto. }
  assert (Hid : forall t' c' id, m !! t' = Some c' -> id_of (c_phase c') = Some id ->
    exists c0, conns s !! t' = Some c0 /\ id_of (c_phase c0) = Some id).
  { intros t' c' id [[_ H]|(-> & p & Ho & ->)]%Hm Hi; [eauto|]. destruct (Hp p Ho) as [[E|E] _]; cbn in Hi; [|congruence].
    exists c. split; [done|congruence]. }
  split; cbn [in_flight conns partial_seq disk lock stored].
  - destruct I1 as [E1 E2]. destruct (I7 t c Hc) as (_ & _ & Hl). unfold m, conns_after. destruct o as [p|].
    + split; [|done]. by rewrite (declared_update _ t c).
    + pose proof (declared_delete _ _ _ Hc) as Hd.
      assert (0 <= declared (delete t (conns s))).
      { apply declared_nonneg. intros u d [_ Hu]%lookup_delete_Some. by apply (I7 u). }
      unfold wrap. rewrite Z.mod_small by lia. lia.
  - lia.
  - intros t' c' id H1 H2. destruct (Hid _ _ _ H1 H2) as (c0 & H3 & H4). eauto.
  - intros t1 t2 c1 c2 id H1 H2 J1 J2. destruct (Hid _ _ _ H1 J1) as (d1 & ? & ?), (Hid _ _ _ H2 J2) as (d2 & ? & ?). eauto.
  - intros id Hi. rewrite Hf; [by apply I5|apply partial_file_tame|by apply free_untouched].
  - intros t' c' [[Hne H]|(-> & p & Ho & ->)]%Hm Hl.
    + pose proof (I6 t' c' H Hl) as Hlt. destruct Hlk as [-> |[Hh|Hh]]; [done| |congruence].
      pose proof (I6 t c Hc Hh). congruence.
    + by apply (Hp p Ho).
  - intros t' c' [[Hne H]|(-> & p & Ho & ->)]%Hm.
    + destruct (I7 t' c' H) as [Hok Hr]. split; [|done]. eapply conn_ok_frame; [done| |done].
      intros x Hx. by eapply other_untouched.
    + split; [by apply (Hp p Ho)|]. apply (I7 t c Hc).
  - intros t' c' id got f [[Hne H]|(-> & p & Ho & ->)]%Hm E; [by eapply I8|]. by eapply (Hp p Ho).
  - intros f b Hin. destruct (I9 f b Hin) as [Hb Hok]. split; [|done].
    rewrite Hf; [done|apply Hok|]. apply final_untouched; [done|by rewrite Hb].
  - done.
  - intros f b Hok Hb. pose proof (I11 f b Hok Hb) as Hs. rewrite Hf; [done|apply Hok|].
    apply final_untouched; [done|by rewrite Hs].
Qed.
End Step.

Lemma inv_more w0 n m s : n <= m -> inv w0 n s -> inv w0 m s.
Proof. intros Hm []. split; try done. lia. Qed.

(** Taking a sequence number: no other thread has it and its file is free. *)
Lemma inv_number w0 n s t c lead :
  inv w0 n s -> n < 2 ^ 64 - 1 -> conns s !! t = Some c -> c_phase c = Reserved lead ->
  inv w0 (n + 1) (go t c (Numbered (partial_seq s) lead)
    (mkServer (disk s) (in_flight s) (wrap 64 (partial_seq s + 1)) (lock s) (conns s) (answers s) (reports s) (stored s))).
Proof.
  intros [I1 I2 I3 I4 I5 I6 I7 I8 I9 I10 I11] Hn Hc Hp. unfold wrap. rewrite Z.mod_small by lia.
  assert (Hm : forall t' c', <[t := mkConn (c_name c) (c_len c) (Numbered (partial_seq s) lead)]> (conns s) !! t' = Some c' ->
    (t' <> t /\ conns s !! t' = Some c') \/ (t' = t /\ c' = mkConn (c_name c) (c_len c) (Numbered (partial_seq s) lead))).
  { intros t' c'. rewrite lookup_insert_Some. intros [[<- <-]|[? ?]]; auto. }
  destruct (I7 t c Hc) as (_ & Hcn & Hcl). split; cbn [in_flight conns partial_seq disk lock stored go put_conn]; try done.
  - by rewrite (declared_update _ t c).
  - lia.
  - intros t' c' id [[_ H]|[-> ->]]%Hm Hi; [specialize (I3 _ _ _ H Hi); lia|]. injection Hi as <-. lia.
  - intros t1 t2 c1 c2 id [[N1 H1]|[-> ->]]%Hm [[N2 H2]|[-> ->]]%Hm J1 J2; [eauto| | |done];
      cbn in J1, J2; simplify_eq; [specialize (I3 _ _ _ H1 J1)|specialize (I3 _ _ _ H2 J2)]; lia.
  - intros id Hid. apply I5. lia.
  - intros t' c' [[_ H]|[-> ->]]%Hm Hl; [eauto|done].
  - intros t' c' [[_ H]|[-> ->]]%Hm; [eauto|]. split; [|done]. apply I5. lia.
  - intros t' c' id got f [[_ H]|[-> ->]]%Hm E; [eauto|done].
Qed.

(** A stored file joins the list; nobody is between rename and verification. *)
Lemma inv_store w0 n s f b :
  inv w0 n s -> lock s = None -> holds (disk s) f = Some b -> ok_final f -> f ∉ (stored s).*1 ->
  inv w0 n (mkServer (disk s) (in_flight s) (partial_seq s) (lock s) (conns s) (answers s) (reports s) (stored s ++ [(f, b)])).
Proof.
  intros [I1 I2 I3 I4 I5 I6 I7 I8 I9 I10 I11] Hl Hb Hok Hin.
  split; cbn [in_flight conns partial_seq disk lock stored]; try done.
  - intros t c id got f' Hc E. exfalso. specialize (I6 t c Hc). rewrite E in I6. specialize (I6 eq_refl). congruence.
  - intros f' b' [H|H]%elem_of_app; [eauto|]. apply list_elem_of_singleton in H. by simplify_eq.
  - rewrite fmap_app. apply list.NoDup_app. split_and!; [done| |by apply NoDup_singleton].
    intros x Hx Hx2. apply list_elem_of_singleton in Hx2. by subst.
Qed.

(** A new connection. *)
Lemma inv_arrive w0 n s t name cl lead fl :
  inv w0 n s -> conns s !! t = None -> ok_final name -> 0 <= cl -> reserve_in_flight cfg cl s = Some fl ->
  inv w0 (n + 1) (mkServer (disk s) fl (partial_seq s) (lock s) (<[t := mkConn name cl (Reserved lead)]> (conns s))
    (answers s) (reports s) (stored s)).
Proof.
  intros [I1 I2 I3 I4 I5 I6 I7 I8 I9 I10 I11] Hc Hname Hcl Hr. unfold reserve_in_flight in Hr.
  destruct (Z.leb_spec (2 ^ 64) (in_flight s + cl)); [done|].
  destruct (Z.ltb_spec (cfg_max_size cfg) (in_flight s + cl)); [done|]. injection Hr as <-.
  assert (Hm : forall t' c', <[t := mkConn name cl (Reserved lead)]> (conns s) !! t' = Some c' ->
    conns s !! t' = Some c' \/ (t' = t /\ c' = mkConn name cl (Reserved lead))).
  { intros t' c'. rewrite lookup_insert_Some. intros [[<- <-]|[? ?]]; auto. }
  split; cbn [in_flight conns partial_seq disk lock stored]; try done.
  - rewrite declared_insert by done. cbn. lia.
  - lia.
  - intros t' c' id [H'|[-> ->]]%Hm Hi; [eauto|done].
  - intros t1 t2 c1 c2 id [H1|[-> ->]]%Hm [H2|[-> ->]]%Hm J1 J2; [eauto|done..].
  - intros t' c' [H'|[-> ->]]%Hm Hl; [eauto|done].
  - intros t' c' [H'|[-> ->]]%Hm; [eauto|done].
  - intros t' c' id got f [H'|[-> ->]]%Hm E; [eauto|done].
Qed.

(** ** Every step *)

(** The common case: the thread changes its own partial file, or nothing, and
    takes another phase. *)
Lemma drop_inv_go w0 n s t c p w' T lk :
  inv w0 n s -> n < 2 ^ 64 -> conns s !! t = Some c -> own (c_phase c) T -> frame (disk s) w' T ->
  (id_of p = id_of (c_phase c) \/ id_of p = None) -> conn_ok w' (mkConn (c_name c) (c_len c) p) ->
  (holds_lock p = true -> lk = Some t) -> (forall id got f, p = Moved id got f -> f ∉ (stored s).*1) ->
  (lk = lock s \/ holds_lock (c_phase c) = true \/ lock s = None) ->
  inv w0 (n + 1) (go t c p (set_lock lk (set_disk w' s))).
Proof.
  intros Hi Hn Hc Ho Hf H1 H2 H3 H4 H5. refine (inv_step w0 n s t c T Hi Hn Hc Ho (Some p) w' lk _ _ Hf _ H5).
  by intros p' [= <-].
Qed.

Lemma inv_close w0 n s t c w' T st rep :
  inv w0 n s -> n < 2 ^ 64 -> conns s !! t = Some c -> own (c_phase c) T -> frame (disk s) w' T ->
  inv w0 (n + 1) (close t c (answer t st rep (set_disk w' s))).
Proof.
  intros Hi Hn Hc Ho Hf. refine (inv_step w0 n s t c T Hi Hn Hc Ho None w' (lock s) _ _ Hf _ _); [done|auto].
Qed.

Lemma set_same s : set_lock (lock s) (set_disk (disk s) s) = (s : Server (W := W)).
Proof. by destruct s. Qed.

Lemma take_chunk_inv w0 n s t c id got b rem :
  inv w0 n s -> n < 2 ^ 64 -> conns s !! t = Some c -> id_of (c_phase c) = Some id ->
  holds (disk s) (partial_file id) = Some got -> Z.of_nat (length got) + rem = c_len c -> Z.of_nat (length b) <= rem ->
  inv w0 (n + 1) (take_chunk cfg t c id got b rem s).
Proof.
  intros Hi Hn Hc Hid Hg Hlen Hb. unfold take_chunk.
  destruct (fs_append (disk s) _ b) as [w' ok] eqn:E. apply append_frame in E as [E1 E2]; [|apply partial_file_tame].
  replace (set_disk w' s) with (set_lock (lock s) (set_disk w' s)) by done.
  eapply drop_inv_go; [done|done|done|by apply own_partial|done| |..]; destruct ok; cbn [id_of holds_lock]; auto; try done.
  cbv [Taildrop.conn_ok c_phase c_len]. rewrite E1, Hg by done. cbn [default]. rewrite length_app. fold (c_len c).
  split_and!; [done|lia|lia].
Qed.

Lemma verify_size w f b : listable w -> ok_final f -> holds w f = Some b ->
  exists size, entry_size_of cfg w f = Some size.
Proof.
  intros (es & Hes & Hu) (Hp & H1 & H2 & _) Hb. unfold entry_size_of. rewrite Hes. cbn.
  pose proof (listed w es f b Hes Hu Hp H1 H2 Hb) as Hin.
  destruct (List.find _ es) as [e|] eqn:E; [by eexists|]. exfalso.
  apply list_elem_of_In in Hin.
  eapply List.find_none in Hin; [|exact E]. cbn in Hin. rewrite bool_decide_eq_true_2 in Hin by done. done.
Qed.

(** Discharges the side conditions that do not concern the files. *)
Ltac side Ep :=
  rewrite ?Ep; try solve [assumption|lia|done|by intros|by auto using own_nil, own_partial, frame_refl].

Lemma next_inv w0 n s t c s' :
  listable (disk s) -> inv w0 n s -> n < 2 ^ 64 - 1 -> conns s !! t = Some c -> next cfg t c s = Some s' -> inv w0 (n + 1) s'.
Proof.
  intros Hls Hi Hn Hc. destruct (i_conns _ _ _ _ Hi t c Hc) as (Hok & Hname & Hlen).
  assert (Hlk : holds_lock (c_phase c) = true -> lock s = Some t) by eauto using i_lock.
  assert (Hmv : forall id got f, c_phase c = Moved id got f -> f ∉ (stored s).*1) by eauto using i_moved.
  unfold next, Taildrop.conn_ok in *. destruct (c_phase c) as [lead|id lead|id lead|id got rem|id got|id got|id got f|id got f|got f|id st sz] eqn:Ep.
  - intros [= <-]. by apply inv_number.
  - destruct (fs_write _ _ _) as [w' ok] eqn:E. apply write_frame in E as [E1 E2]; [|apply partial_file_tame].
    intros [= <-]. destruct ok.
    + apply (drop_inv_go w0 n s t c (Leading id lead) w' [partial_file id] (lock s)); side Ep.
      by apply E1.
    + apply (inv_close w0 n s t c w' [partial_file id]); side Ep.
  - destruct (_ && _) eqn:Eb; intros [= <-].
    + apply take_chunk_inv; side Ep. rewrite length_take. lia.
    + rewrite <- (set_same s). apply (drop_inv_go w0 n s t c _ (disk s) [] (lock s)); side Ep.
  - destruct (Z.ltb_spec 0 rem); [done|]. intros [= <-]. rewrite <- (set_same s).
    apply (drop_inv_go w0 n s t c _ (disk s) [] (lock s)); side Ep.
    destruct Hok as (? & ? & ?). split; [done|cbn; lia].
  - destruct (lock s) eqn:El; [done|]. intros [= <-].
    apply (drop_inv_go w0 n s t c _ (disk s) [] (Some t)); side Ep.
  - intros [= <-]. destruct (next_free_name _ _) as [f|] eqn:Ef.
    + apply next_free_final in Ef as [Hf Hin]; [|done]. pose proof Hf as (Hp & H1 & H2 & _). rewrite <- (set_same s).
      apply (drop_inv_go w0 n s t c _ (disk s) [] (lock s)); side Ep.
      destruct Hok as [? ?]. split_and!; [done|done| |done]. by apply unlisted.
    + apply (drop_inv_go w0 n s t c _ (disk s) [] None); side Ep.
  - destruct Hok as (Hg & Hl & Hnone & Hf). destruct (fs_rename _ _ _) as [w' ok] eqn:E.
    assert (Hown : own (Chosen id got f) [partial_file id; f]).
    { intros x [-> |Hx]%elem_of_cons; [left; eauto|]. apply list_elem_of_singleton in Hx as ->. right. eauto. }
    apply rename_frame in E as [E1 E2]; [|apply partial_file_tame|apply Hf|intros Ee; by eapply Hf].
    intros [= <-]. destruct ok.
    + apply (drop_inv_go w0 n s t c (Moved id got f) w' [partial_file id; f] (lock s)); side Ep.
      * split_and!; [|done|done]. by rewrite E1.
      * intros id' got' f' [= -> -> ->] Hin. apply list_elem_of_fmap in Hin as ((x & b) & -> & Hin).
        apply (i_stored _ _ _ _ Hi) in Hin as [Hin _]. cbn in *. congruence.
    + apply (drop_inv_go w0 n s t c _ w' [partial_file id; f] None); side Ep.
  - destruct Hok as (Hg & Hl & Hf). destruct (verify_size _ _ _ Hls Hf Hg) as [size Hs]. rewrite Hs. intros [= <-].
    destruct (c_len c <=? size).
    + apply (inv_store w0 (n + 1) (go t c (Stored got f) (set_lock None s))); try done; [|by eapply Hmv].
      apply (drop_inv_go w0 n s t c _ (disk s) [] None); side Ep.
    + apply (drop_inv_go w0 n s t c _ (disk s) [] None); side Ep.
  - intros [= <-]. apply (inv_close w0 n s t c (disk s) []); side Ep.
  - destruct (fs_remove_file _ _) as [w' ok] eqn:E. apply remove_frame in E; [|apply partial_file_tame]. intros [= <-].
    apply (inv_close w0 n s t c w' [partial_file id]); side Ep.
Qed.

Lemma receive_inv w0 n s t c r s' :
  inv w0 n s -> n < 2 ^ 64 - 1 -> conns s !! t = Some c -> receive cfg t c r s = Some s' -> inv w0 (n + 1) s'.
Proof.
  intros Hi Hn Hc. destruct (i_conns _ _ _ _ Hi t c Hc) as (Hok & _ & _). unfold receive, Taildrop.conn_ok in *.
  destruct (c_phase c) as [| | |id got rem| | | | | |] eqn:Ep; try done. destruct Hok as (Hg & Hl & Hr).
  destruct (Z.ltb_spec 0 rem); [|done].
  assert (Hfail : forall st, inv w0 (n + 1) (go t c (Failed id st 0) s)).
  { intros st. rewrite <- (set_same s). apply (drop_inv_go w0 n s t c _ (disk s) [] (lock s)); side Ep. }
  destruct r as [b| | |]; [|intros [= <-]; apply Hfail..]. case_decide; [intros [= <-]; apply Hfail|].
  destruct (Z.leb_spec (Z.of_nat (length b)) (Z.min BODY_CHUNK rem)); [|done]. intros [= <-].
  apply take_chunk_inv; side Ep.
Qed.

Lemma scan_name_lacks b m : scan_name m = Ok tt -> scan_name [b] <> Ok tt -> b ∉ m.
Proof.
  induction m as [|x m IH]; intros Hs Hb; [apply not_elem_of_nil|]. apply not_elem_of_cons. split.
  - intros ->. apply Hb. revert Hs. cbn [scan_name]. destruct (_ || _); [done|]. by destruct (_ || _).
  - apply IH; [|done]. revert Hs. cbn [scan_name]. destruct (_ || _); [done|]. by destruct (_ || _).
Qed.

Lemma sanitize_plain raw m : sanitize_filename raw = Ok m -> plain m /\ m <> [46] /\ m <> [46; 46].
Proof.
  unfold sanitize_filename. destruct (percent_decode_once raw) as [k|]; [|done]. cbn. destruct (utf8_valid k); [|done].
  unfold validate. case_decide as H1; [done|]. case_decide as H2; [done|]. destruct (_ <? _); [done|].
  destruct (scan_name k) as [[]|] eqn:Es; [|done]. intros [= <-].
  split_and!; [|tauto|tauto]. split_and!; [done|..]; by apply (scan_name_lacks _ k Es).
Qed.

Lemma head_length reads : forall buf h cl,
  read_head parse buf reads = Ok h -> content_length h = Some cl -> 0 <= cl.
Proof.
  induction reads as [|r reads IH]; intros buf h cl; cbn [read_head]; (destruct (_ <=? _); [done|]); [done|].
  destruct r as [b| | |]; try done. case_decide; [done|]. destruct (find_crlfcrlf _) as [i|]; [|apply IH].
  unfold head_of. destruct (parse _) as [req|]; [|done]. destruct (p_method req); [|done]. destruct (p_path req); [|done].
  cbn. intros [= <-]. cbn. destruct (List.find _ _) as [[k v]|]; [|done]. cbn. destruct (utf8_valid v); [|done].
  intros Hp. apply from_str_radix_bound in Hp; lia.
Qed.

Definition name_ok (e : Event) : Prop := forall m, requested parse e = Some m -> uncased cfg m /\ forall id, m <> partial_file id.

Lemma begin_inv w0 n s t reads :
  inv w0 n s -> conns s !! t = None -> name_ok (Arrive t reads) -> inv w0 (n + 1) (begin parse cfg t reads s).
Proof.
  intros Hi Hc Hok. unfold name_ok, requested in Hok. unfold begin.
  assert (Hans : forall st rep, inv w0 (n + 1) (answer t st rep s)).
  { intros st rep. apply (inv_more w0 n); [lia|]. by destruct Hi. }
  destruct (read_head parse [] reads) as [h|] eqn:Eh; [|apply Hans]. destruct (negb _); [apply Hans|].
  destruct (strip_prefix PUT_PREFIX (path h)) as [esc|]; [|apply Hans].
  destruct (sanitize_filename esc) as [m|] eqn:Es; [|apply Hans]. destruct (content_length h) as [cl|] eqn:Ec; [|apply Hans].
  destruct (_ <? cl); [apply Hans|]. destruct (reserve_in_flight cfg cl s) as [fl|] eqn:Er; [|apply Hans].
  apply inv_arrive; try done; [|by eapply head_length].
  apply sanitize_plain in Es as (? & ? & ?). destruct (Hok m) as [Hu Hpf]; [done|]. split_and!; [by split|done..].
Qed.

Lemma drop_run_inv w0 es : forall n s s',
  always_listable cfg parse s es -> inv w0 n s -> n + Z.of_nat (length es) < 2 ^ 64 -> Forall name_ok es ->
  run parse cfg s es = Some s' -> inv w0 (n + Z.of_nat (length es)) s'.
Proof.
  induction es as [|e es IH]; intros n s s' [Hls Hal] Hi Hn Hok; cbn [run]; [intros [= <-]; by rewrite Z.add_0_r|].
  apply Forall_cons_1 in Hok as [He Hok]. cbn [length] in *.
  destruct (step parse cfg s e) as [s1|] eqn:Es; [|done]. cbn [mbind option_bind]. intros Hr.
  replace (n + Z.of_nat (S (length es))) with (n + 1 + Z.of_nat (length es)) by lia.
  eapply IH; [done| |lia|done|done]. clear Hr. destruct e as [t reads|t|t r]; cbn [step] in Es.
  - destruct (conns s !! t) eqn:Ec; [done|]. injection Es as <-. by apply begin_inv.
  - destruct (conns s !! t) as [c|] eqn:Ec; [|done]. eapply next_inv; [done|done| |done|done]. lia.
  - destruct (conns s !! t) as [c|] eqn:Ec; [|done]. eapply receive_inv; [done| |done|done]. lia.
Qed.
End Safety.

(** * Properties *)

(** Taildrop accepts exactly the safe names.  Whatever bytes a peer sends,
    an accepted name is a bare, printable component of at most 255 bytes that is
    not a dot name; every such name (in UTF-8) is accepted when the client
    escapes it, and decodes to itself.  A collision is resolved to a name that
    is not taken and is still a bare component. *)
Theorem taildrop_names_safe :
  (forall raw n, bytes_wf raw -> sanitize_filename raw = Ok n -> safe_name n) /\
  (forall n, bytes_wf n -> safe_name n -> utf8_valid n = true -> sanitize_filename (percent_encode n) = Ok n) /\
  (forall n ex f, safe_name n -> next_free_name n ex = Some f -> (f ∉ ex) /\ plain f).
Proof.
  split_and!.
  - intros raw n Hw Hs. by apply (sanitize_ok raw n Hw Hs).
  - by apply sanitize_encode.
  - intros n ex f Hn Hf. apply safe_plain in Hn as [Hp _]. apply next_free_spec in Hf as [Hin [-> |[k ->]]]; [done|].
    split; [done|]. by apply candidate_plain.
Qed.

(** scanning only what was just read is enough.  However the request head
    is cut into reads, the reader that looks at the fresh bytes and three before
    them gives the same result as one that scans the whole buffer each time. *)
Theorem read_head_incremental parse reads : read_head parse [] reads = read_head_ref parse [] reads.
Proof. by apply read_head_eq. Qed.


(** * A server on the Vita backend *)

(** A reader of heads good enough to try the server on: the request line and
    one Content-Length line. *)
Definition sample_parse (h : list Z) : option Parsed :=
  match split_once 32 h with
  | Some (m, r) =>
      match split_once 32 r with
      | Some (p, r) =>
          match split_once 58 r with
          | Some (_, v) => Some (mkParsed (Some m) (Some p) [(bs "content-length", take (length v - 4) v)])
          | None => None
          end
      | None => None
      end
  | None => None
  end.

Definition put (name len body : list Z) : list Read :=
  [RData (bs "PUT /v0/put/" ++ name ++ bs " HTTP/1.1" ++ [13; 10] ++ bs "Content-Length:" ++ len ++ [13; 10; 13; 10] ++ body)].

Definition sample_cfg : Config := mkConfig (bs "ux0:/data") 1000.

Definition sample_run (es : list Event) : option (Server (W := Toy.Kernel)) :=
  run sample_parse sample_cfg (server_new Toy.card) es.

Lemma sample_dir : device_dir (cfg_dir sample_cfg).
Proof.
  exists (bs "ux0"), (bs "/data"). split; [done|]. split; vm_compute; intros Hin;
    repeat (apply elem_of_cons in Hin as [Hin|Hin]; [done|]); by apply elem_of_nil in Hin.
Qed.

#[local] Instance sample_laws : FsLaws Toy.Kernel (cfg_dir sample_cfg) := vita_fs_laws Toy.fuel _ sample_dir.

(** Two uploads of the same name at once, their steps interleaved. *)
Definition two_uploads : list Event :=
  [Arrive 1 (put (bs "a") (bs "4") (bs "xy")); Arrive 2 (put (bs "a") (bs "1") []);
   Next 1; Next 2; Next 2; Next 1; Next 1; Next 2; Recv 2 (RData (bs "z")); Recv 1 (RData (bs "vw"));
   Next 2; Next 1; Next 1; Next 1; Next 1; Next 1; Next 2; Next 2; Next 2; Next 2; Next 2; Next 1].

Lemma not_partial n id : length n <> 34%nat -> n <> partial_file id.
Proof. intros Hn ->. apply Hn. unfold partial_file. rewrite !length_app, length_hex, length_be_bytes. done. Qed.

Lemma two_uploads_names : Forall (name_ok sample_parse sample_cfg) two_uploads.
Proof.
  repeat (apply Forall_cons_2; [intros m Hm; vm_compute in Hm; first [discriminate Hm|
    injection Hm as <-; split; [right; reflexivity|intros id; by apply not_partial]]|]).
  constructor.
Qed.

(** Every listing of the run shows lower-case names, by evaluation. *)
Fixpoint listings_lower (s : Server (W := Toy.Kernel)) (es : list Event) : bool :=
  match fs_read_dir (disk s) (cfg_dir sample_cfg) with Some l => forallb (fun e => lower_name (entry_name e)) l | None => false end &&
  match es with [] => true | e :: es => match step sample_parse sample_cfg s e with Some s => listings_lower s es | None => true end end.

Lemma listings_lower_ok es : forall s, listings_lower s es = true -> always_listable sample_cfg sample_parse s es.
Proof.
  induction es as [|e es IH]; intros s; cbn [listings_lower always_listable]; intros [H1 H2]%andb_true_iff; split.
  1,3: destruct (fs_read_dir (disk s) (cfg_dir sample_cfg)) as [l|] eqn:El; [|done]; exists l; split; [done|];
    apply list.Forall_forall; intros x Hx; right; rewrite forallb_forall in H1; by apply H1, list_elem_of_In.
  - done.
  - destruct (step sample_parse sample_cfg s e) as [s1|]; [by apply IH|done].
Qed.

Lemma two_uploads_listed : always_listable sample_cfg sample_parse (server_new Toy.card) two_uploads.
Proof. apply listings_lower_ok. vm_compute. reflexivity. Qed.

Lemma card_no_partial id : holds sample_cfg Toy.card (partial_file id) = None.
Proof.
  unfold holds, at_dir. cbn [names sample_laws vita_fs_laws content].
  rewrite norm_join by (apply sample_dir || apply partial_file_plain). set (k := kjoin _ _).
  assert (Hk : length k = 43%nat).
  { unfold k, partial_file. change (norm (cfg_dir sample_cfg)) with (bs "ux0:data"). rewrite Toy.kjoin_nil.
    rewrite !length_app, length_hex, length_be_bytes. done. }
  assert (Hl : length (Toy.lower k) = 43%nat) by (unfold Toy.lower; by rewrite length_fmap).
  change (Toy.files Toy.card !! Toy.lower k = None). unfold Toy.card, Toy.mkKernel. cbn [Toy.files].
  rewrite lookup_insert_ne, lookup_singleton_ne; [done|..]; intros E; rewrite <- E in Hl; vm_compute in Hl; discriminate.
Qed.


(** The events of one client whose whole upload arrives with its head. *)
Definition one_upload (t : nat) (name len body : list Z) : list Event :=
  Arrive t (put name len body) :: repeat (Next t) 9.

(** a stored file can be destroyed by a later upload.  A client may ask for
    the name of a partial file; it is accepted, stored and answered 200, and the
    upload whose sequence number the name carries truncates it. *)
Theorem taildrop_partial_name_clobbered :
  exists s s', sample_run (one_upload 1 (bs ".taildrop-0000000000000001.partial") (bs "2") (bs "hi")) = Some s /\
    answers s = [(1%nat, 200)] /\ holds sample_cfg (disk s) (partial_file 1) = Some (bs "hi") /\
    run sample_parse sample_cfg s [Arrive 2 (put (bs "b") (bs "9") []); Next 2; Next 2] = Some s' /\
    holds sample_cfg (disk s') (partial_file 1) = Some [].
Proof.
  set (r := sample_run _). set (more := [Arrive 2 _; _; _]).
  assert (H1 : answers <$> r = Some [(1%nat, 200)]) by (vm_compute; reflexivity).
  assert (H2 : (s ← r; holds sample_cfg (disk s) (partial_file 1)) = Some (bs "hi")) by (vm_compute; reflexivity).
  assert (H3 : (s ← r; s' ← run sample_parse sample_cfg s more; holds sample_cfg (disk s') (partial_file 1)) = Some [])
    by (vm_compute; reflexivity).
  destruct r as [s|]; [|discriminate]. cbn [mbind option_bind] in H2, H3. injection H1 as H1.
  destruct (run sample_parse sample_cfg s more) as [s'|] eqn:E; [|discriminate]. by exists s, s'.
Qed.

(** A card whose directory cannot be listed before the first rename. *)
Definition blind_disk : Fs Toy.Kernel := {|
  fs_read_dir := fun w p => if bool_decide (Toy.locked w = [1]) then result_only (read_dir (Toy.fuel w) p w) else None;
  fs_read := fun k p => read_only (read (Toy.fuel k) p k);
  fs_write := fun k p b => ok_or_keep k (write p b k); fs_append := fun k p b => ok_or_keep k (append p b k);
  fs_remove_file := fun k p => remove_file p k; fs_create_dir_all := fun k p => create_dir_all p k;
  fs_rename := fun k p q => let '(w, ok) := rename p q k in
    (Toy.mkKernel (Toy.files w) [1] (Toy.fds w) (Toy.reads w) (Toy.dirs w), ok)
|}.

(** a listing that fails once costs an old file.  When the directory cannot
    be listed before the rename but can be after it, the upload takes the name of
    an existing file, replaces it, passes verification and is answered 200. *)
Theorem taildrop_unlisted_overwrites :
  exists s, @run sample_parse _ blind_disk sample_cfg (server_new Toy.card) (one_upload 1 (bs "a") (bs "2") (bs "hi")) = Some s /\
    answers s = [(1%nat, 200)] /\
    holds sample_cfg Toy.card (bs "a") = Some (bs "old") /\ holds sample_cfg (disk s) (bs "a") = Some (bs "hi").
Proof.
  set (r := run _ _ _ _).
  assert (H1 : answers <$> r = Some [(1%nat, 200)]) by (vm_compute; reflexivity).
  assert (H2 : (s ← r; holds sample_cfg (disk s) (bs "a")) = Some (bs "hi")) by (vm_compute; reflexivity).
  destruct r as [s|]; [|discriminate]. cbn [mbind option_bind] in H2. injection H1 as H1.
  exists s. split_and!; [done|done|vm_compute; reflexivity|done].
Qed.

(** A name that differs from an existing one in case alone is taken for a new
    one: the card does not tell them apart, the upload replaces the old file,
    passes verification and is answered 200. *)
Theorem taildrop_case_overwrites :
  exists s, sample_run (one_upload 1 (bs "A") (bs "2") (bs "hi")) = Some s /\ answers s = [(1%nat, 200)] /\
    holds sample_cfg Toy.card (bs "a") = Some (bs "old") /\ holds sample_cfg (disk s) (bs "a") = Some (bs "hi").
Proof.
  set (r := sample_run _).
  assert (H1 : answers <$> r = Some [(1%nat, 200)]) by (vm_compute; reflexivity).
  assert (H2 : (s ← r; holds sample_cfg (disk s) (bs "a")) = Some (bs "hi")) by (vm_compute; reflexivity).
  destruct r as [s|]; [|discriminate]. cbn [mbind option_bind] in H2. injection H1 as H1.
  exists s. split_and!; [done|done|vm_compute; reflexivity|done].
Qed.
