(* ===== verification/VitaSync.v ===== *)
(** The locks of vita-sync's Vita backend ([vita.rs]): [Mutex] and [RwLock] whose
    kernel object is created by the first use, [Condvar] on top of them, and the
    atomic [OnceLock] and [Once].

    Threads interleave; every atomic load, compare-exchange and store, and every
    kernel call, is one step.  The kernel is the environment: a creation returns
    a fresh positive identifier or an error, a lock call waits for the object, a
    wait releases the mutex and sleeps in one step.  What clients rely on is the
    machine [astep] at the end of the specifications: it is the one the channels
    of [Chan] are modelled with. *)

From S2P Require Import Prelude.
#[local] Open Scope Z_scope.

(** * Lazy creation *)

Definition SCE_INIT_SENTINEL : Z := -1.

(** Where a thread is in [ensure_init] and [slow_init]. *)
Inductive lpc : Type :=
| LLoad              (** before the fast-path load *)
| LCas               (** before the compare-exchange *)
| LCreate            (** won; before the kernel call *)
| LStore (uid : Z)   (** created; before the store *)
| LFail              (** creation failed; before the store of 0 *)
| LReady (uid : Z)   (** returned *)
| LPanic.

(** One step on the cell; [z] is what the kernel returns if it is called. *)
Definition lazy_step (cell : Z) (p : lpc) (z : Z) : option (Z * lpc) :=
  match p with
  | LLoad => Some (cell, if 0 <? cell then LReady cell else LCas)
  | LCas =>
      if cell =? 0 then Some (SCE_INIT_SENTINEL, LCreate)
      else if cell =? SCE_INIT_SENTINEL then Some (cell, LCas)
      else Some (cell, if 0 <? cell then LReady cell else LPanic)
  | LCreate => Some (cell, if z <=? 0 then LFail else LStore z)
  | LStore uid => Some (uid, LReady uid)
  | LFail => Some (0, LPanic)
  | LReady _ | LPanic => None
  end.

(** * Mutex, RwLock and Condvar *)

(** [Mutex::lock] and [RwLock::write] want the object alone, [RwLock::read]
    shares it; [try_] forms do not wait. *)
Inductive mode : Type := Excl | Shared.

Inductive pc : Type :=
| Idle
| Init (p : lpc) (m : mode) (try : bool)
| Lock (uid : Z) (m : mode) (try : bool)       (** before the kernel's lock call *)
| Held (uid : Z) (m : mode)                    (** a guard is alive *)
| CInit (p : lpc) (uid : Z) (timed : bool)     (** in [Condvar::ensure_init], guard alive *)
| Wait (c uid : Z) (timed : bool)              (** before the kernel's wait call *)
| Asleep (c uid : Z) (timed : bool)
| Relock (uid : Z)                             (** woken; the kernel takes the mutex again *)
| Notify (all : bool) (back : option Z)        (** before the load; the guard it holds, if any *)
| Signal (c : Z) (all : bool) (back : option Z)(** before the kernel's signal call *)
| Panicked.

(** A kernel lock: its writer and its readers. *)
Record Obj : Type := mkObj { writer : option nat; readers : list nat }.

Record Sync : Type := mkSync {
  sce : Z;                      (** the lock's cell *)
  csce : Z;                     (** the condition variable's cell *)
  locks : gmap Z Obj;
  conds : gmap Z Z;             (** condition variables, with the mutex they are bound to *)
  threads : list pc
}.

Definition put (t : nat) (p : pc) (s : Sync) : Sync := mkSync (sce s) (csce s) (locks s) (conds s) (<[t := p]> (threads s)).
Definition set_obj (u : Z) (o : Obj) (s : Sync) : Sync := mkSync (sce s) (csce s) (<[u := o]> (locks s)) (conds s) (threads s).

(** The kernel grants, or not. *)
Definition acquire (t : nat) (m : mode) (o : Obj) : option Obj :=
  match m with
  | Excl => if bool_decide (writer o = None /\ readers o = []) then Some (mkObj (Some t) []) else None
  | Shared => if bool_decide (writer o = None) then Some (mkObj None (t :: readers o)) else None
  end.
Definition release (t : nat) (m : mode) (o : Obj) : Obj :=
  match m with Excl => mkObj None (readers o) | Shared => mkObj (writer o) (filter (.≠ t) (readers o)) end.

(** After [ensure_init] of the lock. *)
Definition after_init (p : lpc) (m : mode) (try : bool) : pc :=
  match p with LReady uid => Lock uid m try | LPanic => Panicked | _ => Init p m try end.
Definition after_cinit (p : lpc) (uid : Z) (timed : bool) : pc :=
  match p with LReady c => Wait c uid timed | _ => CInit p uid timed end.
Definition home (back : option Z) : pc := match back with Some uid => Held uid Excl | None => Idle end.

Definition sleeps_on (c : Z) (p : pc) : bool := match p with Asleep c' _ _ => c' =? c | _ => false end.
Definition woken (p : pc) : pc := match p with Asleep _ uid _ => Relock uid | _ => p end.

(** A panic while a guard is alive drops it. *)
Definition unwind (t : nat) (uid : Z) (s : Sync) : Sync :=
  put t Panicked match locks s !! uid with Some o => set_obj uid (release t Excl o) s | None => s end.

(** The kernel's table after a step of [ensure_init]; identifiers are fresh. *)
Definition created {A} (l l' : lpc) (a : A) (m : gmap Z A) : option (gmap Z A) :=
  match l, l' with
  | LCreate, LStore u => match m !! u with None => Some (<[u := a]> m) | Some _ => None end
  | _, _ => Some m
  end.

(** The next action of a thread; [z] is the identifier a creation returns, [w]
    the thread a signal wakes. *)
Definition advance (t : nat) (p : pc) (z : Z) (w : option nat) (s : Sync) : option Sync :=
  match p with
  | Init l m try =>
      '(cell, l') ← lazy_step (sce s) l z;
      locks' ← created l l' (mkObj None []) (locks s);
      Some (put t (after_init l' m try) (mkSync cell (csce s) locks' (conds s) (threads s)))
  | Lock uid m try =>
      match locks s !! uid with
      | None => Some (put t (if try then Idle else Panicked) s)
      | Some o =>
          match acquire t m o with
          | Some o' => Some (put t (Held uid m) (set_obj uid o' s))
          | None => if try then Some (put t Idle s) else None
          end
      end
  | CInit l uid timed =>
      '(cell, l') ← lazy_step (csce s) l z;
      conds' ← created l l' uid (conds s);
      let s := mkSync (sce s) cell (locks s) conds' (threads s) in
      Some match l' with LPanic => unwind t uid s | _ => put t (after_cinit l' uid timed) s end
  | Wait c uid timed =>
      Some match m ← conds s !! c; o ← locks s !! m; if bool_decide (writer o = Some t) then Some (m, o) else None with
           | Some (m, o) => put t (Asleep c uid timed) (set_obj m (release t Excl o) s)
           | None => if timed then put t (Held uid Excl) s else unwind t uid s
           end
  | Relock uid =>
      o ← locks s !! uid;
      o' ← acquire t Excl o;
      Some (put t (Held uid Excl) (set_obj uid o' s))
  | Notify all back => Some (put t (if 0 <? csce s then Signal (csce s) all back else home back) s)
  | Signal c true back =>
      Some (put t (home back) (mkSync (sce s) (csce s) (locks s) (conds s)
        (map (fun q => if sleeps_on c q then woken q else q) (threads s))))
  | Signal c false back =>
      match w with
      | Some t' =>
          q ← threads s !! t';
          if sleeps_on c q then Some (put t (home back) (put t' (woken q) s)) else None
      | None => if existsb (sleeps_on c) (threads s) then None else Some (put t (home back) s)
      end
  | Idle | Held _ _ | Asleep _ _ _ | Panicked => None
  end.

Inductive event : Type :=
| ELock (t : nat) (m : mode) (try : bool)    (** [lock], [write], [read] and their [try_] forms *)
| EDrop (t : nat)                            (** the guard is dropped *)
| EWait (t : nat) (timed : bool)             (** [wait], [wait_timeout] *)
| ENotify (t : nat) (all : bool)             (** [notify_one], [notify_all] *)
| ERun (t : nat) (z : Z) (w : option nat)
| ETimeout (t : nat).

Definition step (s : Sync) (e : event) : option Sync :=
  match e with
  | ELock t m try => match threads s !! t with Some Idle => Some (put t (Init LLoad m try) s) | _ => None end
  | EDrop t =>
      match threads s !! t with
      | Some (Held uid m) => o ← locks s !! uid; Some (put t Idle (set_obj uid (release t m o) s))
      | _ => None
      end
  | EWait t timed =>
      match threads s !! t with Some (Held uid Excl) => Some (put t (CInit LLoad uid timed) s) | _ => None end
  | ENotify t all =>
      match threads s !! t with
      | Some (Held uid Excl) => Some (put t (Notify all (Some uid)) s)
      | Some Idle => Some (put t (Notify all None) s)
      | _ => None
      end
  | ERun t z w => p ← threads s !! t; advance t p z w s
  | ETimeout t =>
      match threads s !! t with Some (Asleep c uid true) => Some (put t (Relock uid) s) | _ => None end
  end.

Definition new (n : nat) : Sync := mkSync 0 0 ∅ ∅ (replicate n Idle).

Inductive reachable (n : nat) : Sync -> Prop :=
| reach_new : reachable n (new n)
| reach_step s e s' : reachable n s -> step s e = Some s' -> reachable n s'.

(** * Specifications *)

(** What clients rely on: a mutex with a holder (or sharing readers), and a set
    of sleeping threads. *)
Record Abs : Type := mkAbs { holder : option nat; sharing : list nat; asleep : nat -> bool }.

Inductive label : Type :=
| Tau | Acquire (t : nat) | Share (t : nat) | Release (t : nat) | Sleep (t : nat) | Wake (t : nat)
| NotifyOne (w : option nat) | NotifyAll.

Definition wake (t : nat) (a : nat -> bool) : nat -> bool := fun u => a u && negb (bool_decide (u = t)).

(** Sleeping gives the mutex up in the same step; a notification wakes one
    sleeper if there is one, or all of them. *)
Inductive astep : Abs -> label -> Abs -> Prop :=
| a_tau h r a a' : (forall u, a' u = a u) -> astep (mkAbs h r a) Tau (mkAbs h r a')
| a_acquire t a a' : (forall u, a' u = a u) -> astep (mkAbs None [] a) (Acquire t) (mkAbs (Some t) [] a')
| a_share t r a a' : (forall u, a' u = a u) -> astep (mkAbs None r a) (Share t) (mkAbs None (t :: r) a')
| a_release t r a a' : (forall u, a' u = a u) -> astep (mkAbs (Some t) r a) (Release t) (mkAbs None r a')
| a_unshare t r a a' : t ∈ r -> (forall u, a' u = a u) -> astep (mkAbs None r a) (Release t) (mkAbs None (filter (.≠ t) r) a')
| a_sleep t r a a' : a t = false -> (forall u, a' u = a u || bool_decide (u = t)) ->
    astep (mkAbs (Some t) r a) (Sleep t) (mkAbs None r a')
| a_wake t h r a a' : a t = true -> (forall u, a' u = wake t a u) -> astep (mkAbs h r a) (Wake t) (mkAbs h r a')
| a_notify_one t h r a a' : a t = true -> (forall u, a' u = wake t a u) ->
    astep (mkAbs h r a) (NotifyOne (Some t)) (mkAbs h r a')
| a_notify_none h r a a' : (forall u, a u = false) -> (forall u, a' u = false) ->
    astep (mkAbs h r a) (NotifyOne None) (mkAbs h r a')
| a_notify_all h r a a' : (forall u, a' u = false) -> astep (mkAbs h r a) NotifyAll (mkAbs h r a').

Definition is_asleep (p : pc) : bool := match p with Asleep _ _ _ => true | _ => false end.

Definition abs (s : Sync) : Abs :=
  let o := default (mkObj None []) (locks s !! sce s) in
  mkAbs (writer o) (readers o) (fun t => match threads s !! t with Some p => is_asleep p | None => false end).

(** What a step looks like from outside. *)
Definition label_of (s : Sync) (e : event) (s' : Sync) : label :=
  match e with
  | EDrop t => Release t
  | ETimeout t => Wake t
  | ERun t _ w =>
      match threads s !! t, threads s' !! t with
      | Some (Lock _ Excl _), Some (Held _ _) | Some (Relock _), _ => Acquire t
      | Some (Lock _ Shared _), Some (Held _ _) => Share t
      | Some (Wait _ _ _), _ => Sleep t
      | Some (CInit _ _ _), Some Panicked => Release t
      | Some (Notify all _), _ => if 0 <? csce s then Tau else if all then NotifyAll else NotifyOne None
      | Some (Signal _ true _), _ => NotifyAll
      | Some (Signal _ false _), _ => NotifyOne w
      | _, _ => Tau
      end
  | _ => Tau
  end.

(** The lock a thread has a guard of. *)
Definition holds (p : pc) : option (Z * mode) :=
  match p with
  | Held uid m => Some (uid, m)
  | CInit _ uid _ | Wait _ uid _ => Some (uid, Excl)
  | Notify _ (Some uid) | Signal _ _ (Some uid) => Some (uid, Excl)
  | _ => None
  end.
(** The identifiers it uses. *)
Definition uses (p : pc) : option Z :=
  match p with
  | Init (LReady uid) _ _ | Lock uid _ _ | Held uid _ | CInit _ uid _ | Wait _ uid _ | Asleep _ uid _ | Relock uid => Some uid
  | Notify _ back | Signal _ _ back => back
  | _ => None
  end.
Definition cuses (p : pc) : option Z :=
  match p with CInit (LReady c) _ _ | Wait c _ _ | Asleep c _ _ | Signal c _ _ => Some c | _ => None end.
(** It is the one creating the object. *)
Definition creating (p : lpc) : bool := match p with LCreate | LStore _ | LFail => true | _ => false end.
Definition lock_creator (p : pc) : bool := match p with Init l _ _ => creating l | _ => false end.
Definition cond_creator (p : pc) : bool := match p with CInit l _ _ => creating l | _ => false end.

Definition own (m : mode) (t : nat) (o : Obj) : Prop :=
  match m with Excl => writer o = Some t /\ readers o = [] | Shared => writer o = None /\ t ∈ readers o end.

(** What is true of each thread. *)
Record thread_ok (s : Sync) (t : nat) (p : pc) : Prop := {
  t_uses : forall u, uses p = Some u -> sce s = u /\ 0 < u;
  t_cuses : forall c, cuses p = Some c -> csce s = c /\ 0 < c;
  t_creator : lock_creator p = true -> sce s = -1;
  t_ccreator : cond_creator p = true -> csce s = -1;
  t_store : forall u m try, p = Init (LStore u) m try -> 0 < u /\ locks s !! u = Some (mkObj None []);
  t_cstore : forall c u tm, p = CInit (LStore c) u tm -> 0 < c /\ conds s !! c = Some u;
  t_holds : forall u m, holds p = Some (u, m) -> exists o, locks s !! u = Some o /\ own m t o
}.

(** What is true of the cells and of the kernel's tables. *)
Record shared_ok (s : Sync) : Prop := {
  s_cell : sce s = 0 \/ sce s = -1 \/ 0 < sce s;
  s_ccell : csce s = 0 \/ csce s = -1 \/ 0 < csce s;
  s_pos : forall u o, locks s !! u = Some o -> 0 < u;
  s_bound : 0 < csce s -> conds s !! csce s = Some (sce s) /\ 0 < sce s;
  s_owner : forall u o t m, locks s !! u = Some o -> own m t o -> exists p, threads s !! t = Some p /\ holds p = Some (u, m)
}.

Record inv (s : Sync) : Prop := {
  i_shared : shared_ok s;
  i_threads : forall t p, threads s !! t = Some p -> thread_ok s t p;
  i_unique : forall t t' p p', threads s !! t = Some p -> threads s !! t' = Some p' ->
    lock_creator p = true -> lock_creator p' = true -> t = t';
  i_cunique : forall t t' p p', threads s !! t = Some p -> threads s !! t' = Some p' ->
    cond_creator p = true -> cond_creator p' = true -> t = t'
}.

(** * Lemmas *)

Section Put.
Context (s : Sync) (t : nat) (p : pc).
Hypothesis Hinv : inv s.
Hypothesis Hp : threads s !! t = Some p.

(** Thread [t] moves to [p'] and the shared state becomes that of [s']. *)
Lemma inv_put s' p' :
  threads s' = <[t := p']> (threads s) -> shared_ok s' ->
  (forall t' q, t' <> t -> threads s !! t' = Some q -> thread_ok s' t' q) -> thread_ok s' t p' ->
  (lock_creator p' = true -> lock_creator p = true \/ sce s <> -1) ->
  (cond_creator p' = true -> cond_creator p = true \/ csce s <> -1) -> inv s'.
Proof.
  intros Ht Hs Ho Hp' Hc Hcc.
  assert (Hlk : forall t' q, threads s' !! t' = Some q -> (t' = t /\ q = p') \/ (t' <> t /\ threads s !! t' = Some q)).
  { intros t' q. rewrite Ht. intros [(-> & <- & _)|[? ?]]%list_lookup_insert_Some; auto. }
  split; [done|..].
  - intros t' q [[-> ->]|[Hne Hq]]%Hlk; auto.
  - intros t1 t2 p1 p2 [[-> ->]|[N1 H1]]%Hlk [[-> ->]|[N2 H2]]%Hlk C1 C2; try done.
    + pose proof (t_creator _ _ _ (i_threads _ Hinv _ _ H2) C2). destruct (Hc C1) as [Hc'|]; [|done]. exfalso. by apply N2, (i_unique _ Hinv t2 t p2 p).
    + pose proof (t_creator _ _ _ (i_threads _ Hinv _ _ H1) C1). destruct (Hc C2) as [Hc'|]; [|done]. exfalso. by apply N1, (i_unique _ Hinv t1 t p1 p).
    + by eapply (i_unique _ Hinv).
  - intros t1 t2 p1 p2 [[-> ->]|[N1 H1]]%Hlk [[-> ->]|[N2 H2]]%Hlk C1 C2; try done.
    + pose proof (t_ccreator _ _ _ (i_threads _ Hinv _ _ H2) C2). destruct (Hcc C1) as [Hc'|]; [|done]. exfalso. by apply N2, (i_cunique _ Hinv t2 t p2 p).
    + pose proof (t_ccreator _ _ _ (i_threads _ Hinv _ _ H1) C1). destruct (Hcc C2) as [Hc'|]; [|done]. exfalso. by apply N1, (i_cunique _ Hinv t1 t p1 p).
    + by eapply (i_cunique _ Hinv).
Qed.

Lemma lookup_put_other s' p' t' q : t' <> t -> threads s !! t' = Some q -> threads s' = <[t := p']> (threads s) -> threads s' !! t' = Some q.
Proof. intros Hne Hq ->. by rewrite list_lookup_insert_ne. Qed.

Lemma lookup_put_self s' p' : threads s' = <[t := p']> (threads s) -> threads s' !! t = Some p'.
Proof. intros ->. apply list_lookup_insert_eq. by eapply lookup_lt_Some. Qed.

(** A thread changes its own place only. *)
Lemma inv_move p' :
  thread_ok s t p' -> holds p' = holds p ->
  (lock_creator p' = true -> lock_creator p = true) -> (cond_creator p' = true -> cond_creator p = true) -> inv (put t p' s).
Proof.
  intros Hok Hh Hc Hcc. apply (inv_put _ p'); [done| |intros t' q _ Hq|by destruct Hok; split|auto|auto].
  - destruct Hinv as [[S1 S2 S3 S4 S5] _ _ _]. split; try done. intros u o u' m Hu Ho.
    destruct (S5 u o u' m Hu Ho) as (q & Hq & Hhq). cbn. destruct (decide (u' = t)) as [->|Hne].
    + exists p'. split; [by apply (lookup_put_self (put t p' s))|]. congruence.
    + exists q. split; [|done]. by rewrite list_lookup_insert_ne.
  - pose proof (i_threads _ Hinv _ _ Hq) as []. by split.
Qed.

(** A thread gets or gives up the lock it uses. *)
Lemma inv_lock u o o' p' :
  locks s !! u = Some o -> uses p = Some u ->
  (forall t' m, t' <> t -> own m t' o <-> own m t' o') ->
  (forall m, own m t o' <-> holds p' = Some (u, m)) ->
  (forall u' m, holds p' = Some (u', m) -> u' = u) ->
  (forall x, uses p' = Some x -> x = u) -> (forall c, cuses p' = Some c -> cuses p = Some c) ->
  lock_creator p' = false -> cond_creator p' = false ->
  inv (put t p' (set_obj u o' s)).
Proof.
  intros Hu Hus Hoth Hown Hhp Hup Hcp Hc Hcc. pose proof (i_threads _ Hinv _ _ Hp) as Hok.
  destruct (t_uses _ _ _ Hok u Hus) as [Eu Hpos].
  apply (inv_put _ p'); [done| |intros t' q Hne Hq| |by rewrite Hc|by rewrite Hcc].
  - destruct Hinv as [[S1 S2 S3 S4 S5] _ _ _]. split; try done; cbn.
    + intros x ox. rewrite lookup_insert_Some. intros [[<- _]|[_ ?]]; eauto.
    + intros x ox u' m. rewrite lookup_insert_Some. intros [[<- <-]|[Hx Hox]] Ho.
      * destruct (decide (u' = t)) as [->|Hne].
        -- exists p'. split; [by apply (lookup_put_self (put t p' (set_obj u o' s)))|]. by apply Hown.
        -- apply Hoth in Ho; [|done]. destruct (S5 u o u' m Hu Ho) as (q & Hq & Hhq). exists q. split; [|done].
           by rewrite list_lookup_insert_ne.
      * destruct (S5 x ox u' m Hox Ho) as (q & Hq & Hhq). destruct (decide (u' = t)) as [->|Hne].
        -- exfalso. assert (q = p) as -> by congruence. apply Hx.
           destruct p; cbn in Hus, Hhq; try done; repeat case_match; simplify_eq; done.
        -- exists q. split; [|done]. by rewrite list_lookup_insert_ne.
  - pose proof (i_threads _ Hinv _ _ Hq) as [T1 T2 T3 T4 T5 T6 T7]. split; try done; cbn.
    + intros x m try ->. specialize (T3 eq_refl). lia.
    + intros x m Hh. destruct (T7 x m Hh) as (ox & Hox & Ho). destruct (decide (x = u)) as [->|Hx].
      * assert (ox = o) as -> by congruence. exists o'. rewrite lookup_insert_eq. split; [done|]. by apply Hoth.
      * exists ox. by rewrite lookup_insert_ne.
  - destruct Hok as [T1 T2 T3 T4 T5 T6 T7]. split; cbn.
    + intros x ->%Hup. auto.
    + intros c Hcu. by apply T2, Hcp.
    + by rewrite Hc.
    + by rewrite Hcc.
    + intros x m try ->. done.
    + intros c x tm ->. done.
    + intros x m Hh. pose proof (Hhp x m Hh) as ->. exists o'. rewrite lookup_insert_eq. split; [done|]. by apply Hown.
Qed.
End Put.

(** ** The kernel's lock *)

Lemma acquire_own t m o o' :
  acquire t m o = Some o' ->
  (forall t' m', t' <> t -> own m' t' o <-> own m' t' o') /\ (forall m', own m' t o' <-> m' = m).
Proof.
  destruct o as [w r]. destruct m; cbn; case_bool_decide as Hb; intros [= <-].
  - destruct Hb as [-> ->]. split.
    + intros t' [|] Hne; cbn; [split; intros [? _]; congruence|]. split; intros [Hw Hi]; [by apply elem_of_nil in Hi|done].
    + intros [|]; cbn; [tauto|]. split; [by intros [? _]|done].
  - subst w. split.
    + intros t' [|] Hne; cbn; [split; intros [? _]; congruence|]. rewrite elem_of_cons. intuition congruence.
    + intros [|]; cbn; [split; [by intros [? _]|done]|]. rewrite elem_of_cons. tauto.
Qed.

Lemma release_own t m o :
  own m t o ->
  (forall t' m', t' <> t -> own m' t' o <-> own m' t' (release t m o)) /\ (forall m', ~ own m' t (release t m o)).
Proof.
  destruct o as [w r]. destruct m; cbn; intros [-> H].
  - subst r. split.
    + intros t' [|] Hne; cbn; [split; intros [? _]; congruence|]. split; intros [? Hi]; [done|by apply elem_of_nil in Hi].
    + intros [|]; cbn; [by intros [? _]|]. intros [_ Hi]. by apply elem_of_nil in Hi.
  - split.
    + intros t' [|] Hne; cbn; [split; intros [? _]; congruence|]. rewrite list_elem_of_filter. tauto.
    + intros [|]; cbn; [by intros [? _]|]. rewrite list_elem_of_filter. tauto.
Qed.

(** ** Steps *)

Section Steps.
Context (s : Sync) (t : nat) (p : pc).
Hypothesis Hinv : inv s.
Hypothesis Hp : threads s !! t = Some p.

Lemma grant_inv u m o o' :
  locks s !! u = Some o -> uses p = Some u -> acquire t m o = Some o' -> inv (put t (Held u m) (set_obj u o' s)).
Proof.
  intros Hu Hus Ha. apply acquire_own in Ha as [H1 H2]. apply (inv_lock s t p Hinv Hp u o o'); try done.
  - intros m'. rewrite H2. cbn. split; congruence.
  - intros u' m' [= -> ->]. done.
  - intros x [= ->]. done.
Qed.

Lemma drop_inv u m p' :
  holds p = Some (u, m) -> uses p = Some u -> holds p' = None -> (forall x, uses p' = Some x -> x = u) ->
  (forall c, cuses p' = Some c -> cuses p = Some c) -> lock_creator p' = false -> cond_creator p' = false ->
  exists o, locks s !! u = Some o /\ own m t o /\ inv (put t p' (set_obj u (release t m o) s)).
Proof.
  intros Hh Hus Hn Hup Hcp Hc Hcc. destruct (t_holds _ _ _ (i_threads _ Hinv _ _ Hp) u m Hh) as (o & Hu & Ho).
  exists o. split; [done|]. split; [done|]. apply release_own in Ho as [H1 H2].
  apply (inv_lock s t p Hinv Hp u o _); try done.
  - intros m'. rewrite Hn. split; [|done]. intros Hx. by apply H2 in Hx.
  - intros u' m' Hx. congruence.
Qed.

Lemma others_not_creating :
  sce s = 0 \/ lock_creator p = true -> forall t' q, t' <> t -> threads s !! t' = Some q -> lock_creator q = false.
Proof.
  intros H t' q Hne Hq. destruct (lock_creator q) eqn:E; [|done]. destruct H as [H|H].
  - pose proof (t_creator _ _ _ (i_threads _ Hinv _ _ Hq) E). lia.
  - exfalso. by apply Hne, (i_unique _ Hinv t' t q p).
Qed.

Lemma others_not_ccreating :
  csce s = 0 \/ cond_creator p = true -> forall t' q, t' <> t -> threads s !! t' = Some q -> cond_creator q = false.
Proof.
  intros H t' q Hne Hq. destruct (cond_creator q) eqn:E; [|done]. destruct H as [H|H].
  - pose proof (t_ccreator _ _ _ (i_threads _ Hinv _ _ Hq) E). lia.
  - exfalso. by apply Hne, (i_cunique _ Hinv t' t q p).
Qed.

Lemma owners_kept p' : holds p' = holds p ->
  forall u o t' m, locks s !! u = Some o -> own m t' o -> exists q, <[t := p']> (threads s) !! t' = Some q /\ holds q = Some (u, m).
Proof.
  intros Hh u o t' m Hu Ho. destruct (s_owner _ (i_shared _ Hinv) u o t' m Hu Ho) as (q & Hq & Hhq).
  destruct (decide (t' = t)) as [->|Hne].
  - exists p'. split; [apply list_lookup_insert_eq; by eapply lookup_lt_Some|congruence].
  - exists q. by rewrite list_lookup_insert_ne.
Qed.

(** The lock's cell changes while it is not published. *)
Lemma inv_set_sce x p' :
  sce s <= 0 -> sce s = 0 \/ lock_creator p = true -> x = 0 \/ x = -1 \/ 0 < x ->
  holds p = None -> holds p' = None ->
  (lock_creator p' = true -> x = -1) -> cond_creator p' = false -> cuses p' = None ->
  (forall u, uses p' = Some u -> x = u /\ 0 < u) ->
  (forall u m try, p' <> Init (LStore u) m try) -> (forall c u tm, p' <> CInit (LStore c) u tm) ->
  inv (put t p' (mkSync x (csce s) (locks s) (conds s) (threads s))).
Proof.
  intros Hs Hcr Hx Hh Hh' Hc Hcc Hcu Hu H1 H2. pose proof (others_not_creating Hcr) as Ho.
  apply (inv_put s t p Hinv Hp _ p'); [done| |intros t' q Hne Hq|..].
  - pose proof (i_shared _ Hinv) as [S1 S2 S3 S4 S5]. split; try done; cbn.
    + intros Hpos. apply S4 in Hpos. lia.
    + apply owners_kept. congruence.
  - pose proof (i_threads _ Hinv _ _ Hq) as [T1 T2 T3 T4 T5 T6 T7]. split; try done; cbn.
    + intros u Hus. apply T1 in Hus. lia.
    + by rewrite (Ho t' q Hne Hq).
  - split; cbn; try done; try (by rewrite ?Hcu, ?Hcc, ?Hh').
    + intros u m try E. by apply H1 in E.
    + intros c u tm E. by apply H2 in E.
  - destruct Hcr as [->|]; auto.
  - by rewrite Hcc.
Qed.

(** The condition variable's cell changes while it is not published. *)
Lemma inv_set_csce x p' :
  csce s <= 0 -> csce s = 0 \/ cond_creator p = true -> x = 0 \/ x = -1 \/ 0 < x ->
  (0 < x -> conds s !! x = Some (sce s) /\ 0 < sce s) ->
  holds p' = holds p -> uses p' = uses p ->
  (cond_creator p' = true -> x = -1) -> lock_creator p' = false ->
  (forall c, cuses p' = Some c -> x = c /\ 0 < c) ->
  (forall c u tm, p' <> CInit (LStore c) u tm) ->
  inv (put t p' (mkSync (sce s) x (locks s) (conds s) (threads s))).
Proof.
  intros Hs Hcr Hx Hb Hh Hus Hcc Hc Hcu H2. pose proof (others_not_ccreating Hcr) as Ho.
  pose proof (i_threads _ Hinv _ _ Hp) as [P1 P2 P3 P4 P5 P6 P7].
  apply (inv_put s t p Hinv Hp _ p'); [done| |intros t' q Hne Hq|..].
  - pose proof (i_shared _ Hinv) as [S1 S2 S3 S4 S5]. split; try done; cbn. by apply owners_kept.
  - pose proof (i_threads _ Hinv _ _ Hq) as [T1 T2 T3 T4 T5 T6 T7]. split; try done; cbn.
    + intros c Hcq. apply T2 in Hcq. lia.
    + by rewrite (Ho t' q Hne Hq).
  - split; cbn; try done; rewrite ?Hus, ?Hh, ?Hc; try done.
    + intros u m try ->. done.
    + intros c u tm E. by apply H2 in E.
  - by rewrite Hc.
  - destruct Hcr as [->|]; auto.
Qed.

(** A new kernel lock, before its identifier is published. *)
Lemma inv_create_lock u m try :
  p = Init LCreate m try -> 0 < u -> locks s !! u = None ->
  inv (put t (Init (LStore u) m try) (mkSync (sce s) (csce s) (<[u := mkObj None []]> (locks s)) (conds s) (threads s))).
Proof.
  intros Ep Hu Hn. assert (Hcr : lock_creator p = true) by by rewrite Ep.
  pose proof (others_not_creating (or_intror Hcr)) as Ho.
  pose proof (t_creator _ _ _ (i_threads _ Hinv _ _ Hp) Hcr) as Hsce.
  apply (inv_put s t p Hinv Hp _ (Init (LStore u) m try)); [done| |intros t' q Hne Hq| |auto|done].
  - pose proof (i_shared _ Hinv) as [S1 S2 S3 S4 S5]. split; try done; cbn.
    + intros x o. rewrite lookup_insert_Some. intros [[<- _]|[_ ?]]; eauto.
    + intros x o t' m'. rewrite lookup_insert_Some. intros [[<- <-]|[_ Hx]] Hown.
      * destruct m'; destruct Hown as [? Hi]; [done|by apply elem_of_nil in Hi].
      * eapply (owners_kept (Init (LStore u) m try)); [by rewrite Ep|done|done].
  - pose proof (i_threads _ Hinv _ _ Hq) as [T1 T2 T3 T4 T5 T6 T7]. split; try done; cbn.
    + intros x m' try' E. specialize (Ho t' q Hne Hq). by rewrite E in Ho.
    + intros x m' Hh. destruct (T7 x m' Hh) as (o & Hx & Hown). exists o. rewrite lookup_insert_ne; [done|congruence].
  - split; cbn; try done. intros x m' try' [= -> -> ->]. by rewrite lookup_insert_eq.
Qed.

Lemma inv_create_cond c u timed :
  p = CInit LCreate u timed -> 0 < c -> conds s !! c = None ->
  inv (put t (CInit (LStore c) u timed) (mkSync (sce s) (csce s) (locks s) (<[c := u]> (conds s)) (threads s))).
Proof.
  intros Ep Hc Hn. assert (Hcr : cond_creator p = true) by by rewrite Ep.
  pose proof (others_not_ccreating (or_intror Hcr)) as Ho.
  pose proof (i_threads _ Hinv _ _ Hp) as [P1 P2 P3 P4 P5 P6 P7]. rewrite Ep in P1, P7.
  apply (inv_put s t p Hinv Hp _ (CInit (LStore c) u timed)); [done| |intros t' q Hne Hq| |done|auto].
  - pose proof (i_shared _ Hinv) as [S1 S2 S3 S4 S5]. split; try done; cbn.
    + intros Hpos. destruct (S4 Hpos) as [Hb ?]. rewrite lookup_insert_ne; [done|congruence].
    + apply (owners_kept (CInit (LStore c) u timed)). by rewrite Ep.
  - pose proof (i_threads _ Hinv _ _ Hq) as [T1 T2 T3 T4 T5 T6 T7]. split; try done; cbn.
    intros x u' tm E. specialize (Ho t' q Hne Hq). by rewrite E in Ho.
  - split; cbn; try done; try auto. intros x u' tm [= -> -> ->]. by rewrite lookup_insert_eq.
Qed.
End Steps.

Lemma sync_eta s : mkSync (sce s) (csce s) (locks s) (conds s) (threads s) = s.
Proof. by destruct s. Qed.

Lemma init_inv s t l m try z s' :
  inv s -> threads s !! t = Some (Init l m try) -> advance t (Init l m try) z None s = Some s' -> inv s'.
Proof.
  intros Hinv Hp. pose proof (i_threads _ Hinv _ _ Hp) as [P1 P2 P3 P4 P5 P6 P7]. cbn [advance].
  assert (Hmove : forall p', holds p' = None -> uses p' = None \/ (uses p' = Some (sce s) /\ 0 < sce s) -> cuses p' = None ->
    lock_creator p' = false -> cond_creator p' = false -> inv (put t p' s)).
  { intros p' H1 H2 H3 H4 H5. apply (inv_move s t _ Hinv Hp p'); rewrite ?H4, ?H5; try done.
    split; rewrite ?H1, ?H3, ?H4, ?H5; try done.
    - intros u Hu. destruct H2 as [H2|[H2 ?]]; rewrite H2 in Hu; by simplify_eq.
    - intros u m' try' ->. done.
    - intros c u tm ->. done. }
  pose proof (s_cell _ (i_shared _ Hinv)) as Hcell.
  destruct l as [| | |u| |u|]; cbn [lazy_step mbind option_bind created]; try done.
  - destruct (Z.ltb_spec 0 (sce s)); cbn [created mbind option_bind]; rewrite sync_eta; intros [= <-]; apply Hmove; auto.
  - destruct (Z.eqb_spec (sce s) 0) as [E0|E0]; [|destruct (Z.eqb_spec (sce s) SCE_INIT_SENTINEL) as [E1|E1]]; cbn.
    + intros [= <-]. apply (inv_set_sce s t _ Hinv Hp); cbn; auto with lia; try done; try lia.
    + rewrite sync_eta. intros [= <-]. apply Hmove; auto.
    + unfold SCE_INIT_SENTINEL in *. destruct (Z.ltb_spec 0 (sce s)); [|lia]. cbn. rewrite sync_eta. intros [= <-]. apply Hmove; auto.
  - specialize (P3 eq_refl). destruct (Z.leb_spec z 0); cbn.
    + rewrite sync_eta. intros [= <-]. apply (inv_move s t _ Hinv Hp); first [done|by split].
    + destruct (locks s !! z) eqn:Ez; [done|]. cbn. intros [= <-]. by apply (inv_create_lock s t _ Hinv Hp).
  - specialize (P3 eq_refl). destruct (P5 u m try eq_refl) as [Hu _]. cbn. intros [= <-].
    apply (inv_set_sce s t _ Hinv Hp); cbn; auto with lia; try done; try lia. intros x [= ->]. done.
  - specialize (P3 eq_refl). cbn. intros [= <-]. apply (inv_set_sce s t _ Hinv Hp); cbn; auto with lia; try done; try lia.
Qed.

Lemma cinit_inv s t l u timed z s' :
  inv s -> threads s !! t = Some (CInit l u timed) -> advance t (CInit l u timed) z None s = Some s' -> inv s'.
Proof.
  intros Hinv Hp. pose proof (i_threads _ Hinv _ _ Hp) as [P1 P2 P3 P4 P5 P6 P7]. cbn [advance].
  destruct (P1 u eq_refl) as [Esce Hu].
  assert (Hmove : forall p', holds p' = Some (u, Excl) -> uses p' = Some u -> cuses p' = None \/ (cuses p' = Some (csce s) /\ 0 < csce s) ->
    lock_creator p' = false -> cond_creator p' = false -> inv (put t p' s)).
  { intros p' H1 H2 H3 H4 H5. apply (inv_move s t _ Hinv Hp p'); rewrite ?H4, ?H5; try done.
    split; rewrite ?H1, ?H2, ?H4, ?H5; try done.
    - intros c Hc. destruct H3 as [H3|[H3 ?]]; rewrite H3 in Hc; by simplify_eq.
    - intros x m' try' ->. done.
    - intros c x tm ->. done. }
  pose proof (s_ccell _ (i_shared _ Hinv)) as Hcell.
  destruct l as [| | |c| |c|]; cbn [lazy_step mbind option_bind created]; try done.
  - destruct (Z.ltb_spec 0 (csce s)); cbn [created mbind option_bind after_cinit]; rewrite sync_eta; intros [= <-]; apply Hmove; auto.
  - destruct (Z.eqb_spec (csce s) 0) as [E0|E0]; [|destruct (Z.eqb_spec (csce s) SCE_INIT_SENTINEL) as [E1|E1]]; cbn.
    + intros [= <-]. apply (inv_set_csce s t _ Hinv Hp); cbn; auto with lia; try done; try lia.
    + rewrite sync_eta. intros [= <-]. apply Hmove; auto.
    + unfold SCE_INIT_SENTINEL in *. destruct (Z.ltb_spec 0 (csce s)); [|lia]. cbn. rewrite sync_eta. intros [= <-]. apply Hmove; auto.
  - specialize (P4 eq_refl). destruct (Z.leb_spec z 0); cbn.
    + rewrite sync_eta. intros [= <-]. apply (inv_move s t _ Hinv Hp); first [done|by split].
    + destruct (conds s !! z) eqn:Ez; [done|]. cbn. intros [= <-]. by apply (inv_create_cond s t _ Hinv Hp).
  - specialize (P4 eq_refl). destruct (P6 c u timed eq_refl) as [Hc Hb]. cbn. intros [= <-].
    apply (inv_set_csce s t _ Hinv Hp); cbn; auto with lia; try done; try lia.
    + intros _. by rewrite Esce.
    + intros x [= ->]. done.
  - specialize (P4 eq_refl). cbn. intros [= <-]. unfold unwind. cbn [locks].
    set (s1 := put t (Held u Excl) (mkSync (sce s) 0 (locks s) (conds s) (threads s))).
    assert (Hs1 : inv s1) by (apply (inv_set_csce s t _ Hinv Hp); cbn; auto; try done; lia).
    assert (Hp1 : threads s1 !! t = Some (Held u Excl)) by (apply list_lookup_insert_eq; by eapply lookup_lt_Some).
    destruct (drop_inv s1 t _ Hs1 Hp1 u Excl Panicked) as (o & Ho & _ & Hi); try done. cbn in Ho. rewrite Ho.
    unfold put, set_obj in *. cbn in *. by rewrite list_insert_insert_eq in Hi.
Qed.

(** ** Waking *)

Lemma woken_facts p : holds (woken p) = holds p /\ uses (woken p) = uses p /\
  (forall c, cuses (woken p) = Some c -> cuses p = Some c) /\
  lock_creator (woken p) = lock_creator p /\ cond_creator (woken p) = cond_creator p.
Proof. destruct p; cbn; split_and!; try done. Qed.

Lemma woken_ok s t p : thread_ok s t p -> thread_ok s t (woken p).
Proof.
  intros [T1 T2 T3 T4 T5 T6 T7]. destruct (woken_facts p) as (F1 & F2 & F3 & F4 & F5).
  split; rewrite ?F1, ?F2, ?F4, ?F5; auto; destruct p; cbn; try done; intros; simplify_eq; eauto.
Qed.

Lemma sync_wake_all_inv c s :
  inv s -> inv (mkSync (sce s) (csce s) (locks s) (conds s) (map (fun q => if sleeps_on c q then woken q else q) (threads s))).
Proof.
  set (f := fun q => if sleeps_on c q then woken q else q). intros [[S1 S2 S3 S4 S5] I2 I3 I4].
  assert (Hf : forall p, holds (f p) = holds p /\ lock_creator (f p) = lock_creator p /\ cond_creator (f p) = cond_creator p).
  { intros p. unfold f. destruct (woken_facts p) as (F1 & F2 & F3 & F4 & F5). by case_match. }
  assert (Hl : forall t q, map f (threads s) !! t = Some q -> exists p, threads s !! t = Some p /\ q = f p).
  { intros t q. rewrite list_lookup_fmap_Some. intros (p & -> & Hp). eauto. }
  split; [split; try done; cbn| | |]; cbn.
  - intros u o t m Hu Ho. destruct (S5 u o t m Hu Ho) as (p & Hp & Hh). exists (f p). rewrite list_lookup_fmap, Hp.
    split; [done|]. by rewrite (proj1 (Hf p)).
  - intros t q (p & Hp & ->)%Hl. pose proof (I2 t p Hp) as Hok. unfold f. case_match; [apply woken_ok in Hok|]; by destruct Hok.
  - intros t t' q q' (p & Hp & ->)%Hl (p' & Hp' & ->)%Hl. rewrite !(proj1 (proj2 (Hf _))). eauto.
  - intros t t' q q' (p & Hp & ->)%Hl (p' & Hp' & ->)%Hl. rewrite !(proj2 (proj2 (Hf _))). eauto.
Qed.

Lemma wake_inv s t p : inv s -> threads s !! t = Some p -> inv (put t (woken p) s).
Proof.
  intros Hinv Hp. destruct (woken_facts p) as (F1 & F2 & F3 & F4 & F5).
  apply (inv_move s t p Hinv Hp); rewrite ?F4, ?F5; auto. apply woken_ok. by apply (i_threads _ Hinv).
Qed.

(** A signalling thread goes back to what it was doing. *)
Lemma home_inv s t p back :
  inv s -> threads s !! t = Some p -> holds p = holds (home back) -> uses p = back -> inv (put t (home back) s).
Proof.
  intros Hinv Hp Hh Hu. pose proof (i_threads _ Hinv _ _ Hp) as [T1 T2 T3 T4 T5 T6 T7].
  apply (inv_move s t p Hinv Hp); try (by destruct back).
  split; try (by destruct back); rewrite <- ?Hh; auto. destruct back as [u|]; cbn; [|done]. intros x [= ->]. auto.
Qed.

Lemma sleeps_asleep c p : sleeps_on c p = true -> exists u tm, p = Asleep c u tm.
Proof. destruct p; cbn; try done. intros ->%Z.eqb_eq. eauto. Qed.

Lemma sync_advance_inv s t p z w s' :
  inv s -> threads s !! t = Some p -> advance t p z w s = Some s' -> inv s'.
Proof.
  intros Hinv Hp. pose proof (i_threads _ Hinv _ _ Hp) as Hok.
  assert (Hmv : forall p', thread_ok s t p' -> holds p' = holds p -> lock_creator p' = false -> cond_creator p' = false -> inv (put t p' s)).
  { intros p' H1 H2 H3 H4. apply (inv_move s t p Hinv Hp p' H1 H2); by rewrite ?H3, ?H4. }
  destruct p as [|l m try|u m try|u m|l u tm|c u tm|c u tm|u|all back|c all back|]; try done.
  - by apply init_inv.
  - cbn. destruct (locks s !! u) as [o|] eqn:Eu.
    + destruct (acquire t m o) as [o'|] eqn:Ea; [intros [= <-]; by eapply grant_inv|].
      destruct try; [|done]. intros [= <-]. apply Hmv; try done; by split.
    + intros [= <-]. apply Hmv; try done; destruct try; try done; by split.
  - by apply cinit_inv.
  - cbn [advance]. destruct Hok as [T1 T2 T3 T4 T5 T6 T7].
    destruct (T1 u eq_refl) as [Eu Hu]. destruct (T2 c eq_refl) as [Ec Hc].
    destruct (s_bound _ (i_shared _ Hinv)) as [Hb _]; [lia|]. rewrite Ec, Eu in Hb. rewrite Hb. cbn [mbind option_bind].
    destruct (drop_inv s t _ Hinv Hp u Excl (Asleep c u tm)) as (o & Ho & Hown & Hi); try done.
    { intros x [= ->]. done. }
    rewrite Ho. cbn [mbind option_bind]. rewrite bool_decide_eq_true_2 by apply Hown. by intros [= <-].
  - cbn [advance]. destruct (locks s !! u) as [o|] eqn:Eu; [|done]. cbn [mbind option_bind].
    destruct (acquire t Excl o) as [o'|] eqn:Ea; [|done]. intros [= <-]. by eapply grant_inv.
  - cbn. intros [= <-]. destruct (Z.ltb_spec 0 (csce s)) as [Hc|Hc]; [|apply (home_inv s t _ back Hinv Hp); by destruct back].
    destruct Hok as [T1 T2 T3 T4 T5 T6 T7]. apply Hmv; try (by destruct back). split; try (by destruct back). by intros x [= <-].
  - destruct all; cbn.
    + intros [= <-]. pose proof (sync_wake_all_inv c s Hinv) as Hw.
      apply (home_inv _ t (Signal c true back) back Hw); try (by destruct back). cbn. by rewrite list_lookup_fmap, Hp.
    + destruct w as [t'|].
      * destruct (threads s !! t') as [q|] eqn:Eq; [|done]. cbn. destruct (sleeps_on c q) eqn:Es; [|done]. intros [= <-].
        pose proof (wake_inv s t' q Hinv Eq) as Hw.
        apply (home_inv _ t (Signal c false back) back Hw); try (by destruct back). cbn.
        rewrite list_lookup_insert_ne; [done|]. intros ->. apply sleeps_asleep in Es as (? & ? & ->). congruence.
      * destruct (existsb _ _); [done|]. intros [= <-]. apply (home_inv s t _ back Hinv Hp); by destruct back.
Qed.

Lemma sync_step_inv s e s' : inv s -> step s e = Some s' -> inv s'.
Proof.
  intros Hinv. destruct e as [t m try|t|t tm|t all|t z w|t]; cbn [step]; destruct (threads s !! t) as [p|] eqn:Hp; try done;
    try (by apply sync_advance_inv); pose proof (i_threads _ Hinv _ _ Hp) as [T1 T2 T3 T4 T5 T6 T7].
  - destruct p; try done. intros [= <-]. apply (inv_move s t _ Hinv Hp); first [done|by split].
  - destruct p as [| | |u m| | | | | | |]; try done.
    destruct (drop_inv s t _ Hinv Hp u m Idle) as (o & Ho & _ & Hi); try done. rewrite Ho. cbn. by intros [= <-].
  - destruct p as [| | |u [|]| | | | | | |]; try done. intros [= <-]. apply (inv_move s t _ Hinv Hp); first [done|by split].
  - destruct p as [| | |u [|]| | | | | | |]; try done; intros [= <-]; apply (inv_move s t _ Hinv Hp); first [done|by split].
  - destruct p as [| | | | | |c u [|]| | | |]; try done. intros [= <-]. by apply (wake_inv s t (Asleep c u true)).
Qed.

Lemma reachable_inv n s : reachable n s -> inv s.
Proof.
  induction 1 as [|s e s' _ IH Hs]; [|by eapply sync_step_inv].
  assert (Hidle : forall t p, replicate n Idle !! t = Some p -> p = Idle) by (intros t p [-> _]%lookup_replicate; done).
  split; [split|..]; cbn [new sce csce locks conds threads]; auto; try lia.
  - intros u o Hu. by rewrite lookup_empty in Hu.
  - intros u o t m Hu. by rewrite lookup_empty in Hu.
  - intros t p ->%Hidle. by split.
  - by intros t t' p p' ->%Hidle.
  - by intros t t' p p' ->%Hidle.
Qed.

(** ** The view from outside *)

Definition obj (s : Sync) : Obj := default (mkObj None []) (locks s !! sce s).
Definition sleeping (s : Sync) (t : nat) : bool := match threads s !! t with Some p => is_asleep p | None => false end.

Lemma abs_unfold s : abs s = mkAbs (writer (obj s)) (readers (obj s)) (sleeping s).
Proof. done. Qed.

Lemma sleeping_put s t p p' u :
  threads s !! t = Some p -> sleeping (put t p' s) u = if decide (u = t) then is_asleep p' else sleeping s u.
Proof.
  intros Hp. unfold sleeping. cbn. destruct (decide (u = t)) as [->|Hne].
  - rewrite list_lookup_insert_eq; [done|]. by eapply lookup_lt_Some.
  - by rewrite list_lookup_insert_ne.
Qed.

Lemma sleeping_at s t p : threads s !! t = Some p -> sleeping s t = is_asleep p.
Proof. intros Hp. unfold sleeping. by rewrite Hp. Qed.

(** The thread does not fall asleep or wake up. *)
Lemma sleeping_same s t p p' s0 :
  threads s !! t = Some p -> is_asleep p' = is_asleep p -> threads s0 = threads s -> forall u, sleeping (put t p' s0) u = sleeping s u.
Proof.
  intros Hp Ha Ht u. rewrite (sleeping_put s0 t p) by by rewrite Ht. destruct (decide (u = t)) as [->|].
  - by rewrite (sleeping_at s t p Hp).
  - unfold sleeping. by rewrite Ht.
Qed.

Lemma abs_tau s t p p' s0 :
  threads s !! t = Some p -> is_asleep p' = is_asleep p -> threads s0 = threads s -> obj s0 = obj s ->
  astep (abs s) Tau (abs (put t p' s0)).
Proof.
  intros Hp Ha Ht Ho. rewrite !abs_unfold. change (obj (put t p' s0)) with (obj s0). rewrite Ho.
  apply a_tau. by eapply sleeping_same.
Qed.

Section Refine.
Context (s : Sync) (t : nat) (p : pc).
Hypothesis Hinv : inv s.
Hypothesis Hp : threads s !! t = Some p.

Lemma obj_at u o : uses p = Some u -> locks s !! u = Some o -> obj s = o.
Proof.
  intros Hu Ho. destruct (t_uses _ _ _ (i_threads _ Hinv _ _ Hp) u Hu) as [E _]. unfold obj. by rewrite E, Ho.
Qed.

Lemma obj_set u o o' p' : uses p = Some u -> locks s !! u = Some o -> obj (put t p' (set_obj u o' s)) = o'.
Proof.
  intros Hu Ho. destruct (t_uses _ _ _ (i_threads _ Hinv _ _ Hp) u Hu) as [E _]. unfold obj. cbn. by rewrite E, lookup_insert_eq.
Qed.

Lemma grant_abs u m o o' :
  locks s !! u = Some o -> uses p = Some u -> is_asleep p = false -> acquire t m o = Some o' ->
  astep (abs s) (match m with Excl => Acquire t | Shared => Share t end) (abs (put t (Held u m) (set_obj u o' s))).
Proof.
  intros Ho Hu Ha Hacq. rewrite !abs_unfold, (obj_set u o o') by done. rewrite (obj_at u o) by done.
  assert (Hs : forall x, sleeping (put t (Held u m) (set_obj u o' s)) x = sleeping s x) by by eapply sleeping_same.
  destruct o as [w r]. destruct m; cbn in Hacq; case_bool_decide as Hb; try done; injection Hacq as <-.
  - destruct Hb as [-> ->]. by apply a_acquire.
  - cbn in Hb. subst w. by apply a_share.
Qed.

Lemma release_abs u m o p' :
  locks s !! u = Some o -> uses p = Some u -> own m t o -> is_asleep p' = is_asleep p ->
  astep (abs s) (Release t) (abs (put t p' (set_obj u (release t m o) s))).
Proof.
  intros Ho Hu Hown Ha. rewrite !abs_unfold, (obj_set u o) by done. rewrite (obj_at u o) by done.
  assert (Hs : forall x, sleeping (put t p' (set_obj u (release t m o) s)) x = sleeping s x) by by eapply sleeping_same.
  destruct o as [w r]. destruct m; destruct Hown as [Hw Hr]; cbn in Hw, Hr; subst; cbn [release writer readers].
  - by apply a_release.
  - by apply a_unshare.
Qed.

Lemma sleep_abs u o c tm :
  locks s !! u = Some o -> uses p = Some u -> own Excl t o -> is_asleep p = false ->
  astep (abs s) (Sleep t) (abs (put t (Asleep c u tm) (set_obj u (release t Excl o) s))).
Proof.
  intros Ho Hu [Hw Hr] Ha. rewrite !abs_unfold, (obj_set u o) by done. rewrite (obj_at u o) by done.
  destruct o as [w r]. cbn in Hw, Hr. subst. cbn [release writer readers]. apply a_sleep.
  - by rewrite (sleeping_at s t p Hp).
  - intros x. rewrite (sleeping_put (set_obj u _ s) t p) by done. case_decide as Hd.
    + subst x. by rewrite bool_decide_eq_true_2, orb_true_r.
    + by rewrite bool_decide_eq_false_2, orb_false_r.
Qed.

Lemma wake_abs l :
  is_asleep p = true -> l = Wake t \/ l = NotifyOne (Some t) -> astep (abs s) l (abs (put t (woken p) s)).
Proof.
  intros Ha Hl. rewrite !abs_unfold. change (obj (put t (woken p) s)) with (obj s).
  assert (Hs : forall x, sleeping (put t (woken p) s) x = wake t (sleeping s) x).
  { intros x. rewrite (sleeping_put s t p) by done. unfold wake. case_decide as Hd.
    - subst x. rewrite bool_decide_eq_true_2, andb_false_r by done. by destruct p.
    - by rewrite bool_decide_eq_false_2, andb_true_r. }
  pose proof (sleeping_at s t p Hp). destruct Hl as [->| ->]; [apply a_wake|apply a_notify_one]; congruence || done.
Qed.

(** Nobody sleeps on a condition variable that is not published. *)
Lemma unpublished_no_sleeper : csce s <= 0 -> forall u, sleeping s u = false.
Proof.
  intros Hc u. unfold sleeping. destruct (threads s !! u) as [q|] eqn:Hq; [|done]. destruct q; try done.
  destruct (t_cuses _ _ _ (i_threads _ Hinv _ _ Hq) c eq_refl). lia.
Qed.

(** Every sleeper sleeps on the published one. *)
Lemma sleeper_on c u q : cuses p = Some c -> threads s !! u = Some q -> is_asleep q = sleeps_on c q.
Proof.
  intros Hc Hq. destruct q; try done. cbn.
  destruct (t_cuses _ _ _ (i_threads _ Hinv _ _ Hq) c0 eq_refl), (t_cuses _ _ _ (i_threads _ Hinv _ _ Hp) c Hc).
  symmetry. apply Z.eqb_eq. congruence.
Qed.
End Refine.

Lemma init_obj s t l m try z cell l' locks' :
  inv s -> threads s !! t = Some (Init l m try) -> lazy_step (sce s) l z = Some (cell, l') ->
  created l l' (mkObj None []) (locks s) = Some locks' ->
  obj (mkSync cell (csce s) locks' (conds s) (threads s)) = obj s.
Proof.
  intros Hinv Hp Hl Hc. pose proof (i_threads _ Hinv _ _ Hp) as [T1 T2 T3 T4 T5 T6 T7].
  assert (Hnone : forall x, x <= 0 -> locks s !! x = None).
  { intros x Hx. destruct (locks s !! x) eqn:E; [|done]. apply (s_pos _ (i_shared _ Hinv)) in E. lia. }
  unfold obj. cbn. destruct l; cbn in Hl, Hc; try (by simplify_eq).
  - destruct (Z.eqb_spec (sce s) 0) as [E|E]; [|destruct (sce s =? SCE_INIT_SENTINEL)]; simplify_eq/=; try done.
    unfold SCE_INIT_SENTINEL. by rewrite E, !Hnone by lia.
  - specialize (T3 eq_refl). destruct (Z.leb_spec z 0); simplify_eq/=; [done|].
    destruct (locks s !! z); [done|]. simplify_eq. rewrite lookup_insert_ne; [done|]. lia.
  - specialize (T3 eq_refl). destruct (T5 uid m try eq_refl) as [_ Hu]. simplify_eq. rewrite Hu, T3, Hnone by lia. done.
  - specialize (T3 eq_refl). simplify_eq. by rewrite T3, !Hnone by lia.
Qed.

Lemma signal_one_abs s t c back t' q :
  inv s -> threads s !! t = Some (Signal c false back) -> threads s !! t' = Some q -> sleeps_on c q = true ->
  astep (abs s) (NotifyOne (Some t')) (abs (put t (home back) (put t' (woken q) s))).
Proof.
  intros Hinv Hp Hq Hs. assert (Hne : t <> t').
  { intros ->. apply sleeps_asleep in Hs as (? & ? & ->). congruence. }
  assert (Ha : is_asleep q = true) by (by apply sleeps_asleep in Hs as (? & ? & ->)).
  pose proof (wake_abs s t' q Hq (NotifyOne (Some t')) Ha (or_intror eq_refl)) as Hw.
  assert (Hsl : forall u, sleeping (put t (home back) (put t' (woken q) s)) u = sleeping (put t' (woken q) s) u).
  { apply (sleeping_same (put t' (woken q) s) t (Signal c false back)); [|by destruct back|done]. cbn. rewrite list_lookup_insert_ne by done. exact Hp. }
  rewrite !abs_unfold in *. change (obj (put t (home back) (put t' (woken q) s))) with (obj (put t' (woken q) s)).
  inversion Hw; subst. apply a_notify_one; [done|]. intros u. rewrite Hsl. auto.
Qed.

Lemma signal_all_abs s t c back :
  inv s -> threads s !! t = Some (Signal c true back) ->
  astep (abs s) NotifyAll (abs (put t (home back) (mkSync (sce s) (csce s) (locks s) (conds s)
    (map (fun q => if sleeps_on c q then woken q else q) (threads s))))).
Proof.
  intros Hinv Hp. rewrite !abs_unfold. match goal with |- context [put t (home back) ?x] => set (s1 := x) end.
  change (obj (put t (home back) s1)) with (obj s). apply a_notify_all. intros u.
  rewrite (sleeping_put s1 t (Signal c true back)) by (cbn; by rewrite list_lookup_fmap, Hp).
  case_decide; [by destruct back|]. unfold sleeping, s1. cbn. rewrite list_lookup_fmap.
  destruct (threads s !! u) as [q|] eqn:Hq; [|done]. cbn. pose proof (sleeper_on s t _ Hinv Hp c u q eq_refl Hq) as Hs.
  destruct (sleeps_on c q) eqn:E; [|done]. by apply sleeps_asleep in E as (? & ? & ->).
Qed.

Lemma signal_none_abs s t c back :
  inv s -> threads s !! t = Some (Signal c false back) -> existsb (sleeps_on c) (threads s) = false ->
  astep (abs s) (NotifyOne None) (abs (put t (home back) s)).
Proof.
  intros Hinv Hp He. assert (Hs : forall u, sleeping s u = false).
  { intros u. unfold sleeping. destruct (threads s !! u) as [q|] eqn:Hq; [|done].
    rewrite (sleeper_on s t _ Hinv Hp c u q eq_refl Hq). destruct (sleeps_on c q) eqn:E; [|done].
    rewrite <- not_true_iff_false, existsb_exists in He. exfalso. apply He. exists q. split; [|done].
    apply list_elem_of_In. by eapply list_elem_of_lookup_2. }
  rewrite !abs_unfold. change (obj (put t (home back) s)) with (obj s). apply a_notify_none; [done|].
  intros u. rewrite (sleeping_put s t _ _ _ Hp). case_decide; [by destruct back|done].
Qed.

Lemma cinit_abs s t l u timed z s' :
  inv s -> threads s !! t = Some (CInit l u timed) -> advance t (CInit l u timed) z None s = Some s' ->
  astep (abs s) (match threads s' !! t with Some Panicked => Release t | _ => Tau end) (abs s').
Proof.
  intros Hinv Hp. cbn [advance]. destruct (lazy_step (csce s) l z) as [[cell l']|] eqn:El; [|done]. cbn [mbind option_bind].
  destruct (created l l' u (conds s)) as [conds'|]; [|done]. cbn [mbind option_bind]. intros [= <-].
  set (s0 := mkSync (sce s) cell (locks s) conds' (threads s)).
  assert (Hlt : forall p, <[t := p]> (threads s) !! t = Some p) by (intros p; apply list_lookup_insert_eq; by eapply lookup_lt_Some).
  destruct l' as [| | | | | |] eqn:El'.
  1-6: cbn [threads put s0 after_cinit]; rewrite Hlt; by apply (abs_tau s t (CInit l u timed)).
  destruct (t_holds _ _ _ (i_threads _ Hinv _ _ Hp) u Excl eq_refl) as (o & Ho & Hown).
  unfold unwind. cbn [locks s0]. rewrite Ho. cbn [threads put set_obj s0]. rewrite Hlt.
  exact (release_abs s t _ Hinv Hp u Excl o Panicked Ho eq_refl Hown eq_refl).
Qed.

Lemma advance_abs s t p z w s' :
  inv s -> threads s !! t = Some p -> advance t p z w s = Some s' -> astep (abs s) (label_of s (ERun t z w) s') (abs s').
Proof.
  intros Hinv Hp. cbn [label_of]. rewrite Hp.
  assert (Hlt : forall q, <[t := q]> (threads s) !! t = Some q) by (intros q; apply list_lookup_insert_eq; by eapply lookup_lt_Some).
  destruct p as [|l m try|u m try|u m|l u tm|c u tm|c u tm|u|all back|c all back|]; try done.
  - cbn [advance]. destruct (lazy_step (sce s) l z) as [[cell l']|] eqn:El; [|done]. cbn [mbind option_bind].
    destruct (created l l' _ (locks s)) as [locks'|] eqn:Ec; [|done]. intros [= <-].
    apply (abs_tau s t (Init l m try)); [done|by destruct l'|done|by eapply init_obj].
  - cbn [advance]. destruct (locks s !! u) as [o|] eqn:Eu.
    + destruct (acquire t m o) as [o'|] eqn:Ea.
      * intros [= <-]. cbn. rewrite Hlt. pose proof (grant_abs s t _ Hinv Hp u m o o' Eu eq_refl eq_refl Ea). by destruct m.
      * destruct try; [|done]. intros [= <-]. cbn. rewrite Hlt. destruct m; by apply (abs_tau s t _ _ _ Hp).
    + intros [= <-]. cbn. rewrite Hlt. destruct try, m; by apply (abs_tau s t _ _ _ Hp).
  - intros Ha. pose proof (cinit_abs s t l u tm z s' Hinv Hp Ha) as Hc. destruct (threads s' !! t) as [q|] eqn:Eq.
    + by destruct q.
    + done.
  - cbn [advance]. pose proof (i_threads _ Hinv _ _ Hp) as [T1 T2 T3 T4 T5 T6 T7].
    destruct (T1 u eq_refl) as [Eu Hu]. destruct (T2 c eq_refl) as [Ec Hc].
    destruct (s_bound _ (i_shared _ Hinv)) as [Hb _]; [lia|]. rewrite Ec, Eu in Hb. rewrite Hb. cbn [mbind option_bind].
    destruct (T7 u Excl eq_refl) as (o & Ho & Hown). rewrite Ho. cbn [mbind option_bind].
    rewrite bool_decide_eq_true_2 by apply Hown. intros [= <-]. by apply (sleep_abs s t _ Hinv Hp).
  - cbn [advance]. destruct (locks s !! u) as [o|] eqn:Eu; [|done]. cbn [mbind option_bind].
    destruct (acquire t Excl o) as [o'|] eqn:Ea; [|done]. intros [= <-]. by apply (grant_abs s t _ Hinv Hp u Excl o).
  - cbn [advance]. intros [= <-]. destruct (Z.ltb_spec 0 (csce s)) as [Hc|Hc]; [by apply (abs_tau s t (Notify all back))|].
    pose proof (unpublished_no_sleeper s Hinv Hc) as Hs.
    assert (Hs' : forall x, sleeping (put t (home back) s) x = false).
    { intros x. rewrite (sleeping_put s t _ _ _ Hp). case_decide; [by destruct back|done]. }
    rewrite !abs_unfold. change (obj (put t (home back) s)) with (obj s). destruct all; [by apply a_notify_all|by apply a_notify_none].
  - destruct all; cbn [advance].
    + intros [= <-]. by apply signal_all_abs.
    + destruct w as [t'|].
      * destruct (threads s !! t') as [q|] eqn:Eq; [|done]. cbn [mbind option_bind]. destruct (sleeps_on c q) eqn:Es; [|done].
        intros [= <-]. by eapply signal_one_abs.
      * destruct (existsb _ _) eqn:Ee; [done|]. intros [= <-]. by eapply signal_none_abs.
Qed.

(** * Properties *)

(** a guard is exclusive.  However many threads race to create the kernel
    object and to lock it, whatever the kernel answers, a thread with a [Mutex]
    or write guard is the only one with a guard; and a lock the kernel shows as
    taken belongs to a thread that still has its guard. *)
Theorem vita_sync_exclusive n s :
  reachable n s ->
  (forall t t' p p' u u' m, threads s !! t = Some p -> threads s !! t' = Some p' ->
     holds p = Some (u, Excl) -> holds p' = Some (u', m) -> t = t') /\
  (forall u o t m, locks s !! u = Some o -> own m t o -> exists p, threads s !! t = Some p /\ holds p = Some (u, m)).
Proof.
  intros Hinv%reachable_inv. split; [|apply Hinv]. intros t t' p p' u u' m Hp Hp' Hh Hh'.
  destruct (t_holds _ _ _ (i_threads _ Hinv _ _ Hp) u Excl Hh) as (o & Ho & Hw & Hr).
  destruct (t_holds _ _ _ (i_threads _ Hinv _ _ Hp') u' m Hh') as (o' & Ho' & Hown).
  assert (Huse : forall q x y, holds q = Some (x, y) -> uses q = Some x).
  { intros q x y Hq. destruct q; cbn in *; repeat case_match; by simplify_eq. }
  destruct (t_uses _ _ _ (i_threads _ Hinv _ _ Hp) u (Huse _ _ _ Hh)) as [E _].
  destruct (t_uses _ _ _ (i_threads _ Hinv _ _ Hp') u' (Huse _ _ _ Hh')) as [E' _].
  assert (o' = o) as -> by congruence. destruct m; destruct Hown as [Hw' Hr']; [congruence|]. congruence.
Qed.

(** C10: the locks implement the abstract mutex and condition variable the
    channels are written against.  Every step of the lazy creation, of the lock
    calls and of the condition variable is a step of the abstract machine: the
    mutex has at most one holder, a wait gives it up and falls asleep at once, a
    notification wakes a sleeper whenever there is one, even when it races with
    the creation of the condition variable, and no wake-up is lost. *)
Theorem vita_sync_refines n s e s' :
  reachable n s -> step s e = Some s' -> astep (abs s) (label_of s e s') (abs s').
Proof.
  intros Hinv%reachable_inv. destruct e as [t m try|t|t tm|t all|t z w|t]; cbn [step]; destruct (threads s !! t) as [p|] eqn:Hp; try done;
    try (by apply advance_abs).
  - destruct p; try done. intros [= <-]. by apply (abs_tau s t Idle).
  - destruct p as [| | |u m| | | | | | |]; try done.
    destruct (t_holds _ _ _ (i_threads _ Hinv _ _ Hp) u m eq_refl) as (o & Ho & Hown). rewrite Ho. cbn [mbind option_bind].
    intros [= <-]. by apply (release_abs s t _ Hinv Hp).
  - destruct p as [| | |u [|]| | | | | | |]; try done. intros [= <-]. by apply (abs_tau s t (Held u Excl)).
  - destruct p as [| | |u [|]| | | | | | |]; try done; intros [= <-]; cbn;
      [by apply (abs_tau s t Idle)|by apply (abs_tau s t (Held u Excl))].
  - destruct p as [| | | | | |c u [|]| | | |]; try done. intros [= <-]. by apply (wake_abs s t (Asleep c u true)); [| |left].
Qed.

(** Two threads race to create the mutex; the loser waits for the winner. *)
Definition race : list event :=
  [ELock 0 Excl false; ELock 1 Excl false; ERun 0 0 None; ERun 1 0 None; ERun 1 0 None; ERun 0 0 None;
   ERun 1 7 None; ERun 1 0 None; ERun 0 0 None; ERun 1 0 None].

Fixpoint run (s : Sync) (es : list event) : option Sync :=
  match es with [] => Some s | e :: es => s ← step s e; run s es end.

Lemma run_reachable n es : forall s s', reachable n s -> run s es = Some s' -> reachable n s'.
Proof.
  induction es as [|e es IH]; intros s s' Hr; cbn [run]; [by intros [= <-]|].
  destruct (step s e) as [s1|] eqn:E; [|done]. cbn [mbind option_bind]. apply IH. by eapply reach_step.
Qed.

Lemma race_reached : exists s, run (new 2) race = Some s /\ reachable 2 s /\
  threads s !! 1%nat = Some (Held 7 Excl) /\ threads s !! 0%nat = Some (Lock 7 Excl false).
Proof.
  destruct (run (new 2) race) as [s|] eqn:E; [|vm_compute in E; discriminate]. exists s. split; [done|].
  split; [exact (run_reachable 2 race _ _ (reach_new 2) E)|]. revert E. vm_compute. intros [= <-]. split; reflexivity.
Qed.

Lemma vita_sync_exclusive_witness : exists s, reachable 2 s /\
  forall t' p' u' m, threads s !! t' = Some p' -> holds p' = Some (u', m) -> 1%nat = t'.
Proof.
  destruct race_reached as (s & _ & Hr & H1 & _). exists s. split; [exact Hr|]. intros t' p' u' m Hp Hh.
  exact (proj1 (vita_sync_exclusive 2 s Hr) 1%nat t' (Held 7 Excl) p' 7 u' m H1 Hp eq_refl Hh).
Defined.

Lemma vita_sync_refines_witness : exists s s', step s (EDrop 1) = Some s' /\ astep (abs s) (label_of s (EDrop 1) s') (abs s').
Proof.
  destruct race_reached as (s & E & Hr & H1 & _).
  destruct (step s (EDrop 1)) as [s'|] eqn:Es; [|revert E Es; vm_compute; intros [= <-]; discriminate].
  exists s, s'. split; [exact Es|]. exact (vita_sync_refines 2 s (EDrop 1) s' Hr Es).
Defined.

(** * OnceLock and Once *)

Module Once.
Section Once.
Context {A : Type}.

Definition ONCE_EMPTY : Z := 0.
Definition ONCE_INIT : Z := 1.
Definition ONCE_READY : Z := 2.

(** [Once::call_once] is [get_or_init] with nothing to store. *)
Inductive pc : Type :=
| Idle
| Get                     (** [get], before the load *)
| SetCas (v : A)          (** [set], before the compare-exchange *)
| GetLoad                 (** [get_or_init], before the fast-path load *)
| GetCas
| Call                    (** won; running the closure *)
| Write (v : A) (of_set : bool)
| Publish (of_set : bool)
| Spin
| Read                    (** saw or stored [ONCE_READY] *)
| Panicked.

Inductive ret : Type := RGet (v : option A) | RSet (ok : bool) | RInit (v : option A).

Record Cell : Type := mkCell { state : Z; value : option A; threads : list pc; returned : list (nat * ret) }.

Definition go (t : nat) (p : pc) (s : Cell) : Cell := mkCell (state s) (value s) (<[t := p]> (threads s)) (returned s).
Definition finish (t : nat) (r : ret) (s : Cell) : Cell :=
  mkCell (state s) (value s) (<[t := Idle]> (threads s)) (returned s ++ [(t, r)]).
Definition set_state (z : Z) (s : Cell) : Cell := mkCell z (value s) (threads s) (returned s).

(** One step of a thread; [v] is what the closure yields, [None] if it panics. *)
Definition advance (t : nat) (p : pc) (v : option A) (s : Cell) : option Cell :=
  match p with
  | Get => Some (finish t (RGet (if state s =? ONCE_READY then value s else None)) s)
  | SetCas x =>
      Some (if state s =? ONCE_EMPTY then go t (Write x true) (set_state ONCE_INIT s) else finish t (RSet false) s)
  | GetLoad => Some (go t (if state s =? ONCE_READY then Read else GetCas) s)
  | GetCas => Some (if state s =? ONCE_EMPTY then go t Call (set_state ONCE_INIT s) else go t Spin s)
  | Call => Some (go t (match v with Some x => Write x false | None => Panicked end) s)
  | Write x b => Some (go t (Publish b) (mkCell (state s) (Some x) (threads s) (returned s)))
  | Publish b => Some (let s := set_state ONCE_READY s in if b then finish t (RSet true) s else go t Read s)
  | Spin => Some (if state s =? ONCE_READY then go t Read s else s)
  | Read => Some (finish t (RInit (value s)) s)
  | Idle | Panicked => None
  end.

Inductive event : Type := EGet (t : nat) | ESet (t : nat) (v : A) | EInit (t : nat) | ERun (t : nat) (v : option A).

Definition start (t : nat) (p : pc) (s : Cell) : option Cell :=
  match threads s !! t with Some Idle => Some (go t p s) | _ => None end.

Definition step (s : Cell) (e : event) : option Cell :=
  match e with
  | EGet t => start t Get s
  | ESet t v => start t (SetCas v) s
  | EInit t => start t GetLoad s
  | ERun t v => p ← threads s !! t; advance t p v s
  end.

Definition new (n : nat) : Cell := mkCell ONCE_EMPTY None (replicate n Idle) [].

Inductive reaches (s : Cell) : Cell -> Prop :=
| r_refl : reaches s s
| r_step s1 e s2 : reaches s s1 -> step s1 e = Some s2 -> reaches s s2.

(** The thread that won the compare-exchange. *)
Definition winner (p : pc) : bool := match p with Call | Write _ _ | Publish _ => true | _ => false end.

(** The value a call returned. *)
Definition gives (r : ret) : option A := match r with RGet v => v | RInit v => v | RSet _ => None end.

Definition set_won (x : nat * ret) : bool := match x.2 with RSet b => b | _ => false end.
Definition sets_won (s : Cell) : nat := length (List.filter set_won (returned s)).

Record inv (s : Cell) : Prop := {
  i_state : state s = ONCE_EMPTY \/ state s = ONCE_INIT \/ state s = ONCE_READY;
  i_winner : forall t p, threads s !! t = Some p -> winner p = true -> state s = ONCE_INIT;
  i_unique : forall t t' p p', threads s !! t = Some p -> threads s !! t' = Some p' -> winner p = true -> winner p' = true -> t = t';
  i_publish : forall t b, threads s !! t = Some (Publish b) -> is_Some (value s);
  i_read : forall t, threads s !! t = Some Read -> state s = ONCE_READY;
  i_value : state s = ONCE_READY -> is_Some (value s);
  i_given : forall t r v, (t, r) ∈ returned s -> gives r = Some v -> state s = ONCE_READY /\ value s = Some v;
  i_init : forall t, (t, RInit None) ∉ returned s;
  i_sets : (sets_won s <= 1)%nat /\ (state s <> ONCE_READY -> sets_won s = 0%nat)
}.

Lemma inv_new n : inv (new n).
Proof.
  assert (Hidle : forall t p, replicate n Idle !! t = Some p -> p = Idle) by (intros t p [-> _]%lookup_replicate; done).
  split; cbn; auto; try done.
  - by intros t p ->%Hidle.
  - by intros t t' p p' ->%Hidle.
  - by intros t b ?%Hidle.
  - by intros t ?%Hidle.
  - intros t r v H. by apply elem_of_nil in H.
  - intros t H. by apply elem_of_nil in H.
Qed.

(** A thread moves; the cell and the results do not change. *)
Lemma once_inv_go s t p p' :
  inv s -> threads s !! t = Some p -> (winner p' = true -> winner p = true) ->
  (forall b, p' = Publish b -> is_Some (value s)) -> (p' = Read -> state s = ONCE_READY) -> inv (go t p' s).
Proof.
  intros [I1 I2 I3 I4 I5 I6 I7 I8 I9] Hp Hw Hpub Hrd.
  assert (Hl : forall t' q, threads (go t p' s) !! t' = Some q -> (t' = t /\ q = p') \/ (t' <> t /\ threads s !! t' = Some q)).
  { intros t' q. cbn. intros [(-> & <- & _)|[? ?]]%list_lookup_insert_Some; auto. }
  assert (Hl' : forall t' q, threads (go t p' s) !! t' = Some q -> winner q = true -> exists q', threads s !! t' = Some q' /\ winner q' = true).
  { intros t' q [[-> ->]|[_ ?]]%Hl Hq; eauto. }
  split; try done.
  - intros t' q Hq Hwq. destruct (Hl' _ _ Hq Hwq) as (? & ? & ?). eauto.
  - intros t1 t2 q1 q2 H1 H2 W1 W2. destruct (Hl' _ _ H1 W1) as (? & ? & ?), (Hl' _ _ H2 W2) as (? & ? & ?). eauto.
  - intros t' b [[-> E]|[_ ?]]%Hl; eauto.
  - intros t' [[-> E]|[_ ?]]%Hl; eauto.
Qed.

(** A call returns. *)
Lemma inv_finish s t p r :
  inv s -> threads s !! t = Some p ->
  (forall v, gives r = Some v -> state s = ONCE_READY /\ value s = Some v) -> r <> RInit None -> r <> RSet true ->
  inv (finish t r s).
Proof.
  intros Hi Hp Hg Hn Hs. pose proof (once_inv_go s t p Idle Hi Hp) as Hgo. destruct Hgo as [I1 I2 I3 I4 I5 I6 I7 I8 I9]; try done.
  split; try done; cbn.
  - intros t' r' v [H|H]%elem_of_app; [by apply (I7 t')|]. apply list_elem_of_singleton in H. simplify_eq. apply Hg.
  - intros t' [H|H]%elem_of_app; [by eapply I8|]. apply list_elem_of_singleton in H. by simplify_eq.
  - unfold sets_won in *. cbn in *. rewrite List.filter_app, length_app. cbn. destruct r as [|[|]|]; cbn; try done; lia || by split; [lia|intros; lia].
Qed.

(** The winner takes the cell. *)
Lemma inv_win s t p p' :
  inv s -> threads s !! t = Some p -> state s = ONCE_EMPTY -> (forall b, p' <> Publish b) -> p' <> Read ->
  inv (go t p' (set_state ONCE_INIT s)).
Proof.
  intros [I1 I2 I3 I4 I5 I6 I7 I8 I9] Hp Hs Hnp Hnr. unfold ONCE_EMPTY, ONCE_INIT, ONCE_READY in *.
  assert (Hl : forall t' q, <[t := p']> (threads s) !! t' = Some q -> (t' = t /\ q = p') \/ (t' <> t /\ threads s !! t' = Some q)).
  { intros t' q. intros [(-> & <- & _)|[? ?]]%list_lookup_insert_Some; auto. }
  assert (Hnw : forall t' q, threads s !! t' = Some q -> winner q = true -> False).
  { intros t' q Hq Hw. specialize (I2 _ _ Hq Hw). lia. }
  split; cbn; unfold ONCE_EMPTY, ONCE_INIT, ONCE_READY; auto; try lia.
  - intros t1 t2 q1 q2 [[-> ->]|[_ H1]]%Hl [[-> ->]|[_ H2]]%Hl W1 W2; try done; exfalso; eauto.
  - intros t' b [[-> E]|[_ H]]%Hl; [by destruct (Hnp b)|by eapply I4].
  - intros t' [[-> E]|[_ H]]%Hl; [by destruct Hnr|]. apply I5 in H. lia.
  - intros t' r v H Hv. destruct (I7 t' r v H Hv). lia.
  - unfold sets_won in *. cbn. split; [lia|]. intros _. apply I9. lia.
Qed.

(** The winner stores [ONCE_READY]. *)
Lemma inv_ready s t b p' :
  inv s -> threads s !! t = Some (Publish b) -> winner p' = false -> inv (go t p' (set_state ONCE_READY s)) /\ sets_won s = 0%nat.
Proof.
  intros [I1 I2 I3 I4 I5 I6 I7 I8 I9] Hp Hw. pose proof (I2 _ _ Hp eq_refl) as Hs. pose proof (I4 _ _ Hp) as Hv.
  unfold ONCE_EMPTY, ONCE_INIT, ONCE_READY in *. split; [|apply I9; lia].
  assert (Hl : forall t' q, <[t := p']> (threads s) !! t' = Some q -> (t' = t /\ q = p') \/ (t' <> t /\ threads s !! t' = Some q)).
  { intros t' q. intros [(-> & <- & _)|[? ?]]%list_lookup_insert_Some; auto. }
  assert (Hnw : forall t' q, t' <> t -> threads s !! t' = Some q -> winner q = true -> False).
  { intros t' q Hne Hq Hwq. by apply Hne, (I3 t' t q (Publish b)). }
  split; cbn; unfold ONCE_EMPTY, ONCE_INIT, ONCE_READY; auto.
  - intros t' q [[-> ->]|[Hne H]]%Hl Hwq; [congruence|]. exfalso. eauto.
  - intros t1 t2 q1 q2 [[-> ->]|[N1 H1]]%Hl [[-> ->]|[N2 H2]]%Hl W1 W2; try congruence; exfalso; eauto.
  - intros t' r v H Hg. destruct (I7 t' r v H Hg). lia.
  - unfold sets_won in *. cbn. split; [lia|lia].
Qed.

Lemma once_advance_inv s t p v s' : inv s -> threads s !! t = Some p -> advance t p v s = Some s' -> inv s'.
Proof.
  intros Hi Hp. pose proof Hi as [I1 I2 I3 I4 I5 I6 I7 I8 I9]. destruct p as [| |x| | | |x b|b| | |]; cbn [advance]; try done; intros [= <-].
  - apply (inv_finish s t Get); try done. intros u. cbn. destruct (Z.eqb_spec (state s) ONCE_READY); [done|done].
  - destruct (Z.eqb_spec (state s) ONCE_EMPTY); [by apply (inv_win s t (SetCas x))|by apply (inv_finish s t (SetCas x))].
  - apply (once_inv_go s t GetLoad); try done; destruct (Z.eqb_spec (state s) ONCE_READY); done.
  - destruct (Z.eqb_spec (state s) ONCE_EMPTY); [by apply (inv_win s t GetCas)|by apply (once_inv_go s t GetCas)].
  - apply (once_inv_go s t Call); try done; by destruct v.
  - pose proof (I2 _ _ Hp eq_refl) as Hs.
    set (s1 := mkCell (state s) (Some x) (threads s) (returned s)).
    assert (Hi1 : inv s1).
    { split; cbn; auto; try by eauto.
      intros t' r u H Hu. destruct (I7 t' r u H Hu). unfold ONCE_INIT, ONCE_READY in *. lia. }
    by apply (once_inv_go s1 t (Write x b)).
  - destruct b; cbn.
    + destruct (inv_ready s t true Idle Hi Hp eq_refl) as [[J1 J2 J3 J4 J5 J6 J7 J8 J9] H0]. split; try done; cbn.
      * intros t' r u [H|H]%elem_of_app; [by apply (J7 t')|]. apply list_elem_of_singleton in H. by simplify_eq.
      * intros t' [H|H]%elem_of_app; [by eapply J8|]. apply list_elem_of_singleton in H. by simplify_eq.
      * unfold sets_won in *. cbn. rewrite List.filter_app, length_app. cbn. unfold ONCE_READY. lia.
    + by apply (inv_ready s t false Read).
  - destruct (Z.eqb_spec (state s) ONCE_READY); [by apply (once_inv_go s t Spin)|done].
  - pose proof (I5 _ Hp) as Hs. destruct (I6 Hs) as [x Hx]. rewrite Hx. apply (inv_finish s t Read); try done.
    intros u [= ->]. done.
Qed.

Lemma once_step_inv s e s' : inv s -> step s e = Some s' -> inv s'.
Proof.
  intros Hi. destruct e as [t|t x|t|t v]; cbn; unfold start; destruct (threads s !! t) as [p|] eqn:Hp; try done;
    try (by apply once_advance_inv); destruct p; try done; intros [= <-]; by apply (once_inv_go s t Idle).
Qed.

Lemma reaches_inv s s' : inv s -> reaches s s' -> inv s'.
Proof. intros Hi. induction 1; [done|]. by eapply once_step_inv. Qed.

(** While the closure's thread is gone, nothing moves the cell again. *)
Definition poisoned (s : Cell) : Prop :=
  state s = ONCE_INIT /\ forall t p, threads s !! t = Some p -> winner p = false /\ p <> Read.

Lemma poisoned_step s e s' :
  poisoned s -> step s e = Some s' ->
  poisoned s' /\ exists l, returned s' = returned s ++ l /\ Forall (fun x => gives x.2 = None /\ x.2 <> RSet true /\ x.2 <> RInit None) l.
Proof.
  intros [Hs Ht]. unfold ONCE_INIT in Hs.
  assert (Hgo : forall t p, winner p = false -> p <> Read -> poisoned (go t p s)).
  { intros t p Hw Hr. split; [done|]. intros t' q [(-> & <- & _)|[_ Hq]]%list_lookup_insert_Some; eauto. }
  assert (Hnil : exists l, returned s = returned s ++ l /\ Forall (fun x => gives x.2 = None /\ x.2 <> RSet true /\ x.2 <> RInit None) l).
  { exists []. by rewrite app_nil_r. }
  destruct e as [t|t x|t|t v]; cbn; unfold start; destruct (threads s !! t) as [p|] eqn:Hp; try done.
  1-3: destruct p; try done; intros [= <-]; split; [by apply Hgo|done].
  destruct (Ht t p Hp) as [Hw Hr]. destruct p; try done; cbn; rewrite ?Hs; cbn; intros [= <-].
  - split; [by apply (Hgo t Idle)|]. eexists. split; [done|]. by repeat constructor.
  - split; [by apply (Hgo t Idle)|]. eexists. split; [done|]. by repeat constructor.
  - split; [by apply Hgo|done].
  - split; [by apply Hgo|done].
  - done.
Qed.
End Once.
End Once.

(** a [OnceLock] is set once.  Under any interleaving of [get], [set] and
    [get_or_init], every value any of them ever returns is the same, it is the
    one in the cell, [get_or_init] always has a value to return, and at most one
    [set] succeeds. *)
Theorem once_lock_agrees {A} n (s : Once.Cell (A := A)) :
  Once.reaches (Once.new n) s ->
  (forall t t' r r' v v', (t, r) ∈ Once.returned s -> (t', r') ∈ Once.returned s ->
     Once.gives r = Some v -> Once.gives r' = Some v' -> v = v') /\
  (forall t r v, (t, r) ∈ Once.returned s -> Once.gives r = Some v -> Once.value s = Some v) /\
  (forall t, (t, Once.RInit None) ∉ Once.returned s) /\ (Once.sets_won s <= 1)%nat.
Proof.
  intros Hr. apply Once.reaches_inv in Hr as [I1 I2 I3 I4 I5 I6 I7 I8 I9]; [|apply Once.inv_new].
  split_and!; [|intros t r v H Hg; by apply (I7 t r v)|done|apply I9].
  intros t t' r r' v v' H H' Hg Hg'. destruct (I7 t r v H Hg), (I7 t' r' v' H' Hg'). congruence.
Qed.

Lemma once_lock_agrees_witness :
  exists s, Once.reaches (Once.new 2) s /\ (0%nat, Once.RInit (Some 5)) ∈ Once.returned s /\ Once.value s = Some 5.
Proof.
  set (es := [Once.EInit 0; Once.ESet 1 9; Once.ERun 0 None; Once.ERun 0 None; Once.ERun 1 None; Once.ERun 0 (Some 5);
              Once.ERun 0 None; Once.ERun 0 None; Once.ERun 0 None]).
  assert (Hr : forall l (s : Once.Cell (A := Z)), exists s', Once.reaches s s' /\
    (forall r, foldl (fun o e => x ← o; Once.step x e) (Some s) l = Some r -> s' = r)).
  { induction l as [|e l IH] using rev_ind; intros s; [exists s; split; [constructor|by intros r [= <-]]|].
    destruct (IH s) as (s1 & H1 & E1). rewrite foldl_app. cbn. destruct (foldl _ _ l) as [s2|] eqn:E; [|by exists s1].
    rewrite <- (E1 s2 eq_refl). destruct (Once.step s1 e) as [s3|] eqn:E3; cbn; rewrite E3.
    - exists s3. split; [by eapply Once.r_step|]. by intros r [= <-].
    - by exists s1. }
  destruct (Hr es (Once.new 2)) as (s & Hs & Es). exists s. split; [exact Hs|].
  assert (Hin : (0%nat, Once.RInit (Some 5)) ∈ Once.returned s).
  { rewrite (Es _ ltac:(vm_compute; reflexivity)). vm_compute. repeat (apply elem_of_cons; first [left; reflexivity|right]). }
  split; [exact Hin|]. exact (proj1 (proj2 (once_lock_agrees 2 s Hs)) _ _ _ Hin eq_refl).
Defined.

(** a closure that panics locks the cell for good.  After a panic in
    [get_or_init] (or in a closure given to [Once::call_once]) the cell stays in
    its initializing state: no later call of any thread ever returns a value, no
    [set] succeeds, and other [get_or_init] calls spin. *)
Theorem once_panic_poisons {A} (s s' : Once.Cell (A := A)) :
  Once.poisoned s -> Once.reaches s s' ->
  Once.poisoned s' /\ exists l, Once.returned s' = Once.returned s ++ l /\
    Forall (fun x => Once.gives x.2 = None /\ x.2 <> Once.RSet true /\ x.2 <> Once.RInit None) l.
Proof.
  intros Hs. induction 1 as [|s1 e s2 _ [IH1 (l & El & Hl)] He]; [split; [done|]; exists []; by rewrite app_nil_r|].
  apply Once.poisoned_step in He as [H1 (k & Ek & Hk)]; [|done]. split; [done|]. exists (l ++ k).
  rewrite Ek, El, <- app_assoc. split; [done|]. by apply Forall_app.
Qed.

Lemma once_panic_poisons_witness :
  exists s : Once.Cell (A := Z), Once.step (Once.mkCell 1 None [Once.Call; Once.Spin] []) (Once.ERun 0 None) = Some s /\
    forall s', Once.reaches s s' -> Once.poisoned s'.
Proof.
  eexists. split; [reflexivity|]. intros s' Hr. refine (proj1 (once_panic_poisons _ s' _ Hr)).
  split; [reflexivity|]. intros [|[|t]] p; cbn; intros [= <-]; split; (reflexivity || discriminate).
Defined.
