(* ===== verification/Ftp.v ===== *)
(** The FTP server of ts-ftp: path mapping ([vfs.rs]), command parsing
    ([command.rs]), the data-port cursor ([data.rs]) and the per-connection
    session ([session.rs]).

    A session is a state-monad program over its own state, the counters all
    sessions share, the file system, and the log of what it did: replies on the
    control connection and file-system calls.  The file system is the interface
    [Fs]; what the network does during a command (ports that can be bound, the
    data connection's peer and bytes) is an argument.  A control write that
    fails ends the session there, leaving a prefix of the log of the session
    modelled here.  Text is UTF-8 bytes. *)

From S2P Require Import Prelude NetTypes Text WgPolicy VitaFs.
#[local] Open Scope Z_scope.

(** ** vfs.rs *)

Record Vfs : Type := mkVfs { root : list Z; allow_device_paths : bool }.

Fixpoint trim_start_slash (s : list Z) : list Z :=
  match s with c :: r => if c =? 47 then trim_start_slash r else s | [] => [] end.

Definition Vfs_new (root : list Z) (allow : bool) : Vfs := mkVfs (reverse (trim_start_slash (reverse root))) allow.

(** One segment of the walk; [None] is an escape above the root. *)
Definition resolve_seg (acc : option (list (list Z))) (seg : list Z) : option (list (list Z)) :=
  segs ← acc;
  if decide (seg = [] \/ seg = [46]) then Some segs
  else if decide (seg = [46; 46]) then
    match segs with [] => None | _ => Some (take (length segs - 1) segs) end
  else Some (segs ++ [seg]).

(** [format!("/{}", segs.join("/"))], or the bare root. *)
Definition show_segs (segs : list (list Z)) : list Z :=
  match segs with [] => [47] | _ => concat (map (cons 47) segs) end.

Definition starts_with_slash (s : list Z) : bool := match s with c :: _ => c =? 47 | [] => false end.

Definition resolve (cwd arg : list Z) : option (list Z) :=
  let base := if starts_with_slash arg then [47] else cwd in
  segs ← foldl resolve_seg (Some []) (split_on 47 base ++ split_on 47 arg);
  Some (show_segs segs).

(** Ends in one colon and has no other. *)
Definition is_device (seg : list Z) : bool :=
  (2 <=? length seg)%nat && bool_decide (head (reverse seg) = Some 58) && negb (existsb (Z.eqb 58) (take (length seg - 1) seg)).

Definition to_real (v : Vfs) (vpath : list Z) : list Z :=
  let jailed := if decide (vpath = [47]) then root v else root v ++ vpath in
  match strip_prefix [47] vpath with
  | Some rest => if allow_device_paths v && is_device (default [] (head (split_on 47 rest))) then rest else jailed
  | None => jailed
  end.

Definition split_parent (vpath : list Z) : list Z * list Z :=
  match rsplit_once 47 vpath with
  | Some ([], name) => ([47], name)
  | Some (parent, name) => (parent, name)
  | None => ([47], vpath)
  end.

(** ** command.rs *)

Inductive Command : Type :=
| User (s : list Z) | Pass (s : list Z) | Syst | Feat | Type_ (s : list Z) | Pwd | Cwd (s : list Z) | Cdup | Pasv
| Epsv (s : option (list Z)) | List_ (s : option (list Z)) | Nlst (s : option (list Z))
| Retr (s : list Z) | Stor (s : list Z) | Size (s : list Z) | Dele (s : list Z) | Mkd (s : list Z) | Rmd (s : list Z)
| Rnfr (s : list Z) | Rnto (s : list Z) | Quit | Noop | Unknown (s : list Z).

Definition opt_arg (s : list Z) : option (list Z) := if is_empty s then None else Some s.

Definition parse_command (line : list Z) : Command :=
  let line := trim line in
  let '(verb, arg) := match split_once 32 line with Some (v, a) => (v, trim a) | None => (line, []) end in
  let v := map to_upper verb in
  if decide (v = bs "USER") then User arg
  else if decide (v = bs "PASS") then Pass arg
  else if decide (v = bs "SYST") then Syst
  else if decide (v = bs "FEAT") then Feat
  else if decide (v = bs "TYPE") then Type_ arg
  else if decide (v = bs "PWD" \/ v = bs "XPWD") then Pwd
  else if decide (v = bs "CWD") then Cwd arg
  else if decide (v = bs "CDUP") then Cdup
  else if decide (v = bs "PASV") then Pasv
  else if decide (v = bs "EPSV") then Epsv (opt_arg arg)
  else if decide (v = bs "LIST") then List_ (opt_arg arg)
  else if decide (v = bs "NLST") then Nlst (opt_arg arg)
  else if decide (v = bs "RETR") then Retr arg
  else if decide (v = bs "STOR") then Stor arg
  else if decide (v = bs "SIZE") then Size arg
  else if decide (v = bs "DELE") then Dele arg
  else if decide (v = bs "MKD" \/ v = bs "XMKD") then Mkd arg
  else if decide (v = bs "RMD" \/ v = bs "XRMD") then Rmd arg
  else if decide (v = bs "RNFR") then Rnfr arg
  else if decide (v = bs "RNTO") then Rnto arg
  else if decide (v = bs "QUIT") then Quit
  else if decide (v = bs "NOOP") then Noop
  else Unknown line.

(** ** session.rs *)

Inductive Effect : Type :=
| Reply (code : Z) (text : list Z)
| ReplyLines (code : Z) (head_ : list Z) (lines : list (list Z)) (tail_ : list Z)
| OpReadDir (p : list Z) | OpRead (p : list Z) | OpWrite (p : list Z) | OpAppend (p b : list Z)
| OpRemove (p : list Z) | OpMkdir (p : list Z) | OpRename (p q : list Z)
| SendData (bytes : list Z).

Record FtpConfig : Type := mkFtpConfig {
  cfg_vfs : Vfs; cfg_username : list Z; cfg_password : list Z; cfg_read_only : bool;
  cfg_max_transfer : Z; cfg_port_lo : Z; cfg_port_hi : Z; cfg_control_peer : Z
}.

Record Session : Type := mkSession {
  cwd : list Z; authed : bool; pending_user : option (list Z); pasv : option Z; rename_from : option (list Z)
}.

(** What the network does while one command runs. *)
Record Net : Type := mkNet {
  can_bind : Z -> bool;
  accepted : option Z;                      (** peer address of the data connection *)
  incoming : list (option (list Z));        (** successive reads; [None] is an error *)
  write_error : option nat;                 (** the data write fails after so many bytes *)
  tailnet_ip : option Z
}.

Section Server.
Context {W : Type} `{Fs W} (cfg : FtpConfig).

(** The session with the shared counters, the file system and the log. *)
Record St : Type := mkSt {
  sess : Session; partial_seq : Z; next_port : Z; disk : W; log : list Effect
}.

Definition M (A : Type) : Type := St -> A * St.
#[local] Instance M_ret : MRet M := fun _ a s => (a, s).
#[local] Instance M_bind : MBind M := fun _ _ f m s => let '(a, s') := m s in f a s'.

Definition emit (e : Effect) : M unit := fun s => (tt, mkSt (sess s) (partial_seq s) (next_port s) (disk s) (log s ++ [e])).
Definition reply (code : Z) (text : list Z) : M unit := emit (Reply code text).
Definition get : M Session := fun s => (sess s, s).
Definition put_sess (f : Session -> Session) : M unit :=
  fun s => (tt, mkSt (f (sess s)) (partial_seq s) (next_port s) (disk s) (log s)).
Definition query {A} (f : W -> A) : M A := fun s => (f (disk s), s).
Definition change (f : W -> W * bool) : M bool :=
  fun s => let '(w, ok) := f (disk s) in (ok, mkSt (sess s) (partial_seq s) (next_port s) w (log s)).
Definition fresh_partial : M Z :=
  fun s => (partial_seq s, mkSt (sess s) (wrap 64 (partial_seq s + 1)) (next_port s) (disk s) (log s)).

Definition read_dir (p : list Z) : M (option (list DirEntry)) := emit (OpReadDir p) ;; query (fun w => fs_read_dir w p).
Definition read_file (p : list Z) : M (option (list Z)) := emit (OpRead p) ;; query (fun w => ok (fs_read w p)).
Definition write_file (p b : list Z) : M bool := emit (OpWrite p) ;; change (fun w => fs_write w p b).
Definition append_file (p b : list Z) : M bool := emit (OpAppend p b) ;; change (fun w => fs_append w p b).
Definition remove_file (p : list Z) : M bool := emit (OpRemove p) ;; change (fun w => fs_remove_file w p).
Definition create_dir_all (p : list Z) : M bool := emit (OpMkdir p) ;; change (fun w => fs_create_dir_all w p).
Definition rename_file (p q : list Z) : M bool := emit (OpRename p q) ;; change (fun w => fs_rename w p q).

Definition real (vpath : list Z) : list Z := to_real (cfg_vfs cfg) vpath.
Definition set_cwd (p : list Z) (s : Session) : Session :=
  mkSession p (authed s) (pending_user s) (pasv s) (rename_from s).
Definition set_pasv (p : option Z) (s : Session) : Session :=
  mkSession (cwd s) (authed s) (pending_user s) p (rename_from s).
Definition set_rename (p : option (list Z)) (s : Session) : Session :=
  mkSession (cwd s) (authed s) (pending_user s) (pasv s) p.

(** Resolve an argument against the working directory, or answer 550. *)
Definition with_path (arg : list Z) (k : list Z -> M unit) : M unit :=
  s ← get;
  match resolve (cwd s) arg with Some v => k v | None => reply 550 (bs "invalid path") end.

Definition writable (k : M unit) : M unit :=
  if cfg_read_only cfg then reply 550 (bs "server is read-only") else k.

(** How a command leaves the session; a panic ends its thread. *)
Inductive Flow : Type := Continue | QuitFlow | Panicked.

(** ** data.rs *)

(** The port the shared cursor yields, and the advanced cursor. *)
Definition claim_port (lo hi cur : Z) : Z * Z :=
  let claimed := Z.min (Z.max cur lo) hi in (claimed, if hi <=? claimed then lo else claimed + 1).

Fixpoint try_ports (n : nat) (net : Net) : M (option Z) :=
  match n with
  | O => mret None
  | S m => fun s =>
      let '(port, nxt) := claim_port (cfg_port_lo cfg) (cfg_port_hi cfg) (next_port s) in
      let s := mkSt (sess s) (partial_seq s) nxt (disk s) (log s) in
      if can_bind net port then (Some port, s) else try_ports m net s
  end.

(** The span saturates at 65535; [clamp] panics on an empty range. *)
Definition bind_passive (net : Net) : M (option (option Z)) :=
  let span := Z.max 1 (Z.min 65535 (Z.max 0 (cfg_port_hi cfg - cfg_port_lo cfg) + 1)) in
  if cfg_port_hi cfg <? cfg_port_lo cfg then mret None
  else r ← try_ports (Z.to_nat span) net; mret (Some r).

Definition format_227 (ip port : Z) : list Z :=
  bs "Entering Passive Mode (" ++ concat (map (fun o => dec o ++ [44]) (ipv4_octets ip)) ++
  dec (Z.shiftr port 8) ++ [44] ++ dec (Z.land port 255) ++ bs ").".
Definition format_229 (port : Z) : list Z := bs "Entering Extended Passive Mode (|||" ++ dec port ++ bs "|)".

(** ** The commands *)

Definition dir_reply (dir : list Z) : list Z :=
  [34] ++ concat (map (fun c => if c =? 34 then [34; 34] else [c]) dir) ++ [34].

Definition do_cwd (arg : list Z) : M unit :=
  with_path arg (fun vpath =>
    r ← read_dir (real vpath);
    match r with
    | Some _ => put_sess (set_cwd vpath) ;; reply 250 (bs "directory changed")
    | None => reply 550 (bs "no such directory")
    end).

Definition open_passive (net : Net) (code : Z) (text : Z -> list Z) : M Flow :=
  put_sess (set_pasv None) ;;
  r ← bind_passive net;
  match r with
  | None => mret Panicked
  | Some (Some port) => put_sess (set_pasv (Some port)) ;; reply code (text port) ;; mret Continue
  | Some None => reply 425 (bs "can't open data port") ;; mret Continue
  end.

Definition do_pasv (net : Net) : M Flow :=
  match tailnet_ip net with
  | None => reply 425 (bs "tailnet address not ready") ;; mret Continue
  | Some ip => open_passive net 227 (format_227 ip)
  end.

Definition do_epsv (arg : option (list Z)) (net : Net) : M Flow :=
  if bool_decide (map to_upper <$> arg = Some (bs "ALL")) then reply 200 (bs "EPSV ALL ok") ;; mret Continue
  else open_passive net 229 format_229.

(** [send_data] and [pump_data]. *)
Definition send_data (net : Net) (bytes : list Z) : M unit :=
  s ← get;
  match pasv s with
  | None => reply 425 (bs "use PASV first")
  | Some _ =>
      put_sess (set_pasv None) ;;
      reply 150 (bs "opening data connection") ;;
      match accepted net with
      | Some peer =>
          if peer =? cfg_control_peer cfg then
            match write_error net with
            | None => emit (SendData bytes) ;; reply 226 (bs "transfer complete")
            | Some n => emit (SendData (take n bytes)) ;; reply 426 (bs "transfer failed")
            end
          else reply 425 (bs "data peer mismatch")
      | None => reply 425 (bs "data connection failed")
      end
  end.

Definition pad_left (n : nat) (s : list Z) : list Z := replicate (n - length s) 32 ++ s.
Definition format_list (es : list DirEntry) : list Z :=
  concat (map (fun e => (if is_dir e then bs "drwxr-xr-x" else bs "-rw-r--r--") ++ bs " 1 vita vita " ++
    pad_left 12 (dec (entry_size e)) ++ bs " Jan  1 00:00 " ++ entry_name e ++ [13; 10]) es).
Definition format_nlst (es : list DirEntry) : list Z := concat (map (fun e => entry_name e ++ [13; 10]) es).

Definition list_at (names_only : bool) (net : Net) (vpath : list Z) : M unit :=
  r ← read_dir (real vpath);
  match r with
  | None => reply 550 (bs "no such directory")
  | Some es => send_data net (if names_only then format_nlst es else format_list es)
  end.

(** Flag arguments such as [-la] are ignored. *)
Definition do_list (arg : option (list Z)) (names_only : bool) (net : Net) : M unit :=
  match arg with
  | Some (c :: a) =>
      if c =? 45 then s ← get; list_at names_only net (cwd s) else with_path (c :: a) (list_at names_only net)
  | _ => s ← get; list_at names_only net (cwd s)
  end.

Definition find_file (name : list Z) (es : list DirEntry) : option DirEntry :=
  List.find (fun e => bool_decide (entry_name e = name) && negb (is_dir e)) es.

Definition file_size (vpath : list Z) : M (option Z) :=
  let '(parent, name) := split_parent vpath in
  r ← read_dir (real parent);
  mret (es ← r; entry_size <$> find_file name es).

Definition do_retr (arg : list Z) (net : Net) : M unit :=
  with_path arg (fun vpath =>
    sz ← file_size vpath;
    match sz with
    | None => reply 550 (bs "cannot stat file")
    | Some size =>
        if cfg_max_transfer cfg <? size then reply 552 (bs "file exceeds transfer limit")
        else r ← read_file (real vpath);
             match r with
             | Some bytes => send_data net bytes
             | None => reply 550 (bs "no such file")
             end
    end).

Inductive Recv : Type := RecvOk | RecvTooLarge | RecvErr.

(** [stream_to_file], after the truncating write. *)
Fixpoint stream_chunks (path : list Z) (total : Z) (reads : list (option (list Z))) : M Recv :=
  match reads with
  | [] | Some [] :: _ => mret RecvOk
  | None :: _ => mret RecvErr
  | Some b :: rest =>
      let total := Z.min (2 ^ 64 - 1) (total + Z.of_nat (length b)) in
      if cfg_max_transfer cfg <? total then mret RecvTooLarge
      else ok ← append_file path b;
           if ok : bool then stream_chunks path total rest else mret RecvErr
  end.

Definition stream_to_file (path : list Z) (net : Net) : M Recv :=
  ok ← write_file path [];
  if ok : bool then stream_chunks path 0 (incoming net) else mret RecvErr.

Definition partial_name (target : list Z) (n : Z) : list Z :=
  target ++ [46] ++ hex (be_bytes 8 n) ++ bs ".upload.partial".

Definition do_stor (arg : list Z) (net : Net) : M unit :=
  writable (with_path arg (fun vpath =>
    let target := real vpath in
    s ← get;
    match pasv s with
    | None => reply 425 (bs "use PASV first")
    | Some _ =>
        put_sess (set_pasv None) ;;
        reply 150 (bs "ready to receive") ;;
        match accepted net with
        | Some peer =>
            if peer =? cfg_control_peer cfg then
              n ← fresh_partial;
              let partial := partial_name target n in
              recv ← stream_to_file partial net;
              match recv with
              | RecvOk =>
                  ok ← rename_file partial target;
                  if ok : bool then reply 226 (bs "stored")
                  else remove_file partial ;; reply 550 (bs "write failed")
              | RecvTooLarge => remove_file partial ;; reply 552 (bs "receive failed")
              | RecvErr => remove_file partial ;; reply 426 (bs "receive failed")
              end
            else reply 425 (bs "data peer mismatch")
        | None => reply 425 (bs "data connection failed")
        end
    end)).

Definition do_size (arg : list Z) : M unit :=
  with_path arg (fun vpath =>
    let '(parent, name) := split_parent vpath in
    r ← read_dir (real parent);
    match es ← r; find_file name es with
    | Some e => reply 213 (dec (entry_size e))
    | None => reply 550 (bs "no such file")
    end).

Definition do_dele (arg : list Z) : M unit :=
  writable (with_path arg (fun vpath =>
    ok ← remove_file (real vpath);
    if ok : bool then reply 250 (bs "deleted") else reply 550 (bs "delete failed"))).

Definition do_mkd (arg : list Z) : M unit :=
  writable (with_path arg (fun vpath =>
    ok ← create_dir_all (real vpath);
    if ok : bool then reply 257 (dir_reply vpath ++ bs " created") else reply 550 (bs "mkdir failed"))).

Definition do_rnfr (arg : list Z) : M unit :=
  writable (with_path arg (fun vpath => put_sess (set_rename (Some vpath)) ;; reply 350 (bs "ready for RNTO"))).

Definition do_rnto (arg : list Z) : M unit :=
  s ← get;
  match rename_from s with
  | None => reply 503 (bs "RNFR first")
  | Some from =>
      put_sess (set_rename None) ;;
      with_path arg (fun to =>
        ok ← rename_file (real from) (real to);
        if ok : bool then reply 250 (bs "renamed") else reply 550 (bs "rename failed"))
  end.

Definition credentials_match (user password : list Z) : bool :=
  bool_decide (cfg_username cfg = user) && bool_decide (cfg_password cfg = password).

Definition do_pass (password : list Z) : M unit :=
  s ← get;
  let user := default [] (pending_user s) in
  put_sess (fun s => mkSession (cwd s) (authed s) None (pasv s) (rename_from s)) ;;
  if credentials_match user password then
    put_sess (fun s => mkSession (cwd s) true (pending_user s) (pasv s) (rename_from s)) ;; reply 230 (bs "logged in")
  else reply 530 (bs "login incorrect").

Definition continue (m : M unit) : M Flow := m ;; mret Continue.

(** Commands answered before login. *)
Definition pre_login (cmd : Command) : option (M Flow) :=
  match cmd with
  | User user => Some (continue (put_sess (fun s => mkSession (cwd s) (authed s) (Some user) (pasv s) (rename_from s)) ;;
                                 reply 331 (bs "user ok, send PASS")))
  | Pass password => Some (continue (do_pass password))
  | Quit => Some (reply 221 (bs "goodbye") ;; mret QuitFlow)
  | Syst => Some (continue (reply 215 (bs "UNIX Type: L8")))
  | Feat => Some (continue (emit (ReplyLines 211 (bs "Features") [bs "EPSV"; bs "PASV"; bs "SIZE"; bs "UTF8"] (bs "End"))))
  | Noop => Some (continue (reply 200 (bs "noop ok")))
  | _ => None
  end.

Definition post_login (cmd : Command) (net : Net) : M Flow :=
  match cmd with
  | Type_ _ => continue (reply 200 (bs "type set to I"))
  | Pwd => continue (s ← get; reply 257 (dir_reply (cwd s) ++ bs " is current directory"))
  | Cwd arg => continue (do_cwd arg)
  | Cdup => continue (do_cwd (bs ".."))
  | Pasv => do_pasv net
  | Epsv arg => do_epsv arg net
  | List_ arg => continue (do_list arg false net)
  | Nlst arg => continue (do_list arg true net)
  | Retr arg => continue (do_retr arg net)
  | Stor arg => continue (do_stor arg net)
  | Size arg => continue (do_size arg)
  | Dele arg => continue (do_dele arg)
  | Mkd arg => continue (do_mkd arg)
  | Rnfr arg => continue (do_rnfr arg)
  | Rnto arg => continue (do_rnto arg)
  | Rmd _ => continue (reply 550 (bs "RMD not supported"))
  | _ => continue (reply 502 (bs "command not implemented"))
  end.

Definition dispatch (cmd : Command) (net : Net) : M Flow :=
  match pre_login cmd with
  | Some m => m
  | None => s ← get;
            if authed s then post_login cmd net
            else continue (reply 530 (bs "please login with USER and PASS"))
  end.

(** Command lines until the session ends; empty lines are skipped. *)
Fixpoint run_session (lines : list (list Z * Net)) : M Flow :=
  match lines with
  | [] => mret Continue
  | (line, net) :: rest =>
      if is_empty line then run_session rest
      else f ← dispatch (parse_command line) net;
           match f with Continue => run_session rest | _ => mret f end
  end.

Definition session_new : Session := mkSession [47] false None None None.

(** [handle]: the greeting, then the commands. *)
Definition handle (lines : list (list Z * Net)) : M Flow := reply 220 (bs "ts-ftp ready") ;; run_session lines.
End Server.

(** * Specifications *)

(** A path segment that names something below its directory. *)
Definition good_seg (seg : list Z) : Prop := seg <> [] /\ seg <> [46] /\ seg <> [46; 46] /\ 47 ∉ seg.
Definition good_path (v : list Z) : Prop := exists segs, Forall good_seg segs /\ v = show_segs segs.

(** The root, or something reached from it by good segments. *)
Definition jailed (r p : list Z) : Prop := exists segs, Forall good_seg segs /\ p = r ++ concat (map (cons 47) segs).
(** A path argument that names the root, from some directory. *)
Definition names_root (arg : list Z) : Prop := exists c, good_path c /\ resolve c arg = Some [47].
(** The client has asked to store the root itself. *)
Definition stores_root (cmds : list Command) : Prop := exists arg, Stor arg ∈ cmds /\ names_root arg.
(** The path of a file being stored: jailed, or, if the root may be stored, the
    temporary name made from the root itself. *)
Definition confined (up : Prop) (r p : list Z) : Prop := jailed r p \/ (up /\ exists n, p = partial_name r n).

(** Anything but an answer on the control connection. *)
Definition touches (e : Effect) : bool := match e with Reply _ _ | ReplyLines _ _ _ _ => false | _ => true end.

Definition op_ok (cfg : FtpConfig) (up : Prop) (e : Effect) : Prop :=
  let r := root (cfg_vfs cfg) in
  match e with
  | OpReadDir p | OpRead p => jailed r p
  | OpMkdir p => jailed r p /\ cfg_read_only cfg = false
  | OpWrite p | OpAppend p _ | OpRemove p => confined up r p /\ cfg_read_only cfg = false
  | OpRename p q => confined up r p /\ jailed r q /\ cfg_read_only cfg = false
  | _ => True
  end.

(** The upload the data connection carried up to its end; [None] when a read
    failed. *)
Fixpoint received (reads : list (option (list Z))) : option (list Z) :=
  match reads with
  | [] | Some [] :: _ => Some []
  | None :: _ => None
  | Some b :: rest => app b <$> received rest
  end.

(** * Lemmas *)

Lemma split_on_no_sep c s : Forall (fun seg => c ∉ seg) (split_on c s).
Proof.
  assert (Hnil : Forall (fun seg => c ∉ seg) [[]]) by (apply Forall_cons_2; [apply not_elem_of_nil|constructor]).
  induction s as [|x s IH]; simpl; [done|].
  destruct (split_on c s) as [|p ps]; [done|]. apply Forall_cons_1 in IH as [Hp Hps].
  destruct (Z.eqb_spec x c); repeat apply Forall_cons_2; try done; [apply not_elem_of_nil|].
  by apply not_elem_of_cons.
Qed.

Lemma resolve_segs_good parts : forall acc segs,
  Forall (fun seg => 47 ∉ seg) parts -> (forall l, acc = Some l -> Forall good_seg l) ->
  foldl resolve_seg acc parts = Some segs -> Forall good_seg segs.
Proof.
  induction parts as [|p parts IH]; intros acc segs Hp Ha He; [by apply Ha|].
  apply Forall_cons_1 in Hp as [Hp Hps]. cbn [foldl] in He. eapply IH; [done| |done].
  intros l. unfold resolve_seg. destruct acc as [a|]; [|done]. cbn [mbind option_bind]. specialize (Ha a eq_refl).
  case_decide as Hd; [by intros [= <-]|]. case_decide as Hdd.
  - destruct a; [done|]. intros [= <-]. by apply Forall_take.
  - intros [= <-]. apply Forall_app. split; [done|]. repeat constructor; tauto.
Qed.

Lemma resolve_good cwd arg v : resolve cwd arg = Some v -> good_path v.
Proof.
  unfold resolve. destruct (foldl _ _ _) as [segs|] eqn:E; [|done]. intros [= <-]. exists segs. split; [|done].
  eapply resolve_segs_good; [| |exact E].
  - apply Forall_app. split; apply split_on_no_sep.
  - intros l [= <-]. constructor.
Qed.

Lemma show_segs_real v r segs :
  allow_device_paths v = false -> root v = r -> Forall good_seg segs ->
  to_real v (show_segs segs) = r ++ concat (map (cons 47) segs).
Proof.
  intros Hd <- Hs. unfold to_real. rewrite Hd. cbn [andb].
  assert (E : forall o : option (list Z), match o with Some _ => if decide (show_segs segs = [47]) then root v else root v ++ show_segs segs
     | None => if decide (show_segs segs = [47]) then root v else root v ++ show_segs segs end
     = root v ++ concat (map (cons 47) segs)); [|apply E].
  intros o. assert (E : (if decide (show_segs segs = [47]) then root v else root v ++ show_segs segs)
    = root v ++ concat (map (cons 47) segs)); [|by destruct o].
  destruct segs as [|seg segs]; [rewrite decide_True by done; by rewrite app_nil_r|].
  rewrite decide_False; [done|]. apply Forall_cons_1 in Hs as [(Hne & _) _]. cbn. destruct seg; [done|]. done.
Qed.

Lemma hex_no_slash l : bytes_wf l -> 47 ∉ hex l.
Proof.
  unfold bytes_wf, hex. induction l as [|b l IH]; intros Hl; [apply not_elem_of_nil|].
  apply Forall_cons_1 in Hl as [Hb Hl]. cbn [map concat]. apply not_elem_of_app. split; [|auto].
  unfold u8 in Hb. unfold hex_byte, hex_digit.
  assert (0 <= b / 16 /\ 0 <= b mod 16) by (split; [apply Z.div_pos; lia|apply Z.mod_pos_bound; lia]).
  intros Hin. repeat (apply elem_of_cons in Hin as [Hin|Hin]); [..|by apply elem_of_nil in Hin];
    revert Hin; case_match; lia.
Qed.

Lemma partial_jailed (up : Prop) r segs n : Forall good_seg segs -> (segs = [] -> up) ->
  confined up r (partial_name (r ++ concat (map (cons 47) segs)) n).
Proof.
  intros Hs Hup. destruct segs as [|x segs _] using rev_ind; [right; split; [by apply Hup|]; exists n; by rewrite app_nil_r|].
  left. clear Hup. apply Forall_app in Hs as [Hs Hx]. apply Forall_cons_1 in Hx as [(H1 & H2 & H3 & H4) _].
  exists (segs ++ [partial_name x n]). split.
  - apply Forall_app. split; [done|]. apply Forall_cons_2; [|constructor]. unfold partial_name.
    assert (Hlen : (2 < length (bs ".upload.partial"))%nat) by (vm_compute; lia).
    split_and!; try (intros E; apply (f_equal length) in E; rewrite !length_app in E; cbn [length] in E; lia).
    rewrite !not_elem_of_app. split_and!; [done| | |].
    + intros Hin%list_elem_of_singleton. done.
    + apply hex_no_slash. auto with bytes.
    + vm_compute. intros Hin. repeat (apply elem_of_cons in Hin as [Hin|Hin]; [done|]). by apply elem_of_nil in Hin.
  - unfold partial_name. rewrite !map_app, !concat_app. cbn [map concat]. rewrite !app_nil_r.
    by rewrite <- !app_assoc.
Qed.

Lemma split_parent_good v : good_path v -> good_path (split_parent v).1.
Proof.
  intros (segs & Hs & ->). destruct segs as [|x segs _] using rev_ind; [by exists []|].
  apply Forall_app in Hs as [Hs Hx]. apply Forall_cons_1 in Hx as [(_ & _ & _ & Hx) _].
  assert (E : show_segs (segs ++ [x]) = concat (map (cons 47) segs) ++ 47 :: x).
  { unfold show_segs. destruct (segs ++ [x]) eqn:E; [by destruct segs|]. rewrite <- E, map_app, concat_app.
    cbn. by rewrite app_nil_r. }
  unfold split_parent. rewrite E, rsplit_once_app by done. exists segs. split; [done|].
  destruct segs as [|y segs]; [done|]. done.
Qed.

Section Confinement.
Context {W : Type} `{Fs W} (cfg : FtpConfig).
Hypothesis no_devices : allow_device_paths (cfg_vfs cfg) = false.
(** May the root be stored? *)
Variable up : Prop.

(** What holds of a session after login: the paths it keeps are good, a pending
    rename means it may write, and everything logged is confined. *)
Record logged_in (s : St (W := W)) : Prop := {
  li_authed : authed (sess s) = true;
  li_cwd : good_path (cwd (sess s));
  li_rename : forall v, rename_from (sess s) = Some v -> good_path v /\ cfg_read_only cfg = false;
  li_log : Forall (op_ok cfg up) (log s)
}.

(** [m] keeps it so. *)
Definition keeps {A} (m : M (W := W) A) : Prop := forall s, logged_in s -> logged_in (m s).2.

#[local] Existing Instances M_ret M_bind.

Lemma keeps_ret {A} (a : A) : keeps (mret a).
Proof. by intros s Hs. Qed.

Lemma keeps_bind {A B} (m : M A) (f : A -> M B) : keeps m -> (forall a, keeps (f a)) -> keeps (m ≫= f).
Proof. intros Hm Hf s Hs. cbv [mbind M_bind]. specialize (Hm s Hs). destruct (m s) as [a s']. by apply Hf. Qed.

Lemma keeps_emit e : op_ok cfg up e -> keeps (emit e).
Proof. intros He s []. split; cbn; try done. apply Forall_app. auto. Qed.

Lemma keeps_put f :
  (forall x, authed (f x) = authed x) -> (forall x, cwd (f x) = cwd x) ->
  (forall x, rename_from (f x) = rename_from x \/ rename_from (f x) = None) -> keeps (put_sess f).
Proof.
  intros H1 H2 H3 s [L1 L2 L3 L4]. split; cbn; rewrite ?H1, ?H2; try done.
  intros v. destruct (H3 (sess s)) as [-> | ->]; [apply L3|done].
Qed.

Lemma keeps_query {A} (f : W -> A) : keeps (query f).
Proof. by intros s Hs. Qed.
Lemma keeps_change f : keeps (change f).
Proof. intros s []. unfold change. destruct (f (disk s)). by split. Qed.
Lemma keeps_fresh : keeps fresh_partial.
Proof. intros s []. by split. Qed.

(** Reading the session: its paths are good. *)
Lemma keeps_get {A} (f : Session -> M A) :
  (forall x, good_path (cwd x) -> (forall v, rename_from x = Some v -> good_path v /\ cfg_read_only cfg = false) ->
     keeps (f x)) -> keeps (get ≫= f).
Proof. intros Hf s Hs. cbv [mbind M_bind get]. apply Hf; [apply Hs|apply Hs|done]. Qed.

Lemma keeps_resolved arg k : (forall v, good_path v -> (v = [47] -> names_root arg) -> keeps (k v)) -> keeps (with_path arg k).
Proof.
  intros Hk. apply keeps_get. intros x Hx _. destruct (resolve (cwd x) arg) as [v|] eqn:E; [|by apply keeps_emit].
  apply Hk; [by eapply resolve_good|]. intros ->. by exists (cwd x).
Qed.

Lemma keeps_with_path arg k : (forall v, good_path v -> keeps (k v)) -> keeps (with_path arg k).
Proof. intros Hk. apply keeps_resolved. auto. Qed.

Lemma keeps_writable k : (cfg_read_only cfg = false -> keeps k) -> keeps (writable cfg k).
Proof. unfold writable. destruct (cfg_read_only cfg); [intros _; by apply keeps_emit|auto]. Qed.

Lemma real_jailed v : good_path v -> jailed (root (cfg_vfs cfg)) (real cfg v).
Proof. intros (segs & Hs & ->). exists segs. split; [done|]. unfold real. by apply show_segs_real. Qed.

Lemma real_confined v : good_path v -> confined up (root (cfg_vfs cfg)) (real cfg v).
Proof. left. by apply real_jailed. Qed.

Lemma partial_confined v n : good_path v -> (v = [47] -> up) -> confined up (root (cfg_vfs cfg)) (partial_name (real cfg v) n).
Proof.
  intros (segs & Hs & ->) Hup. unfold real. rewrite (show_segs_real _ (root (cfg_vfs cfg))) by done.
  apply partial_jailed; [done|]. intros ->. by apply Hup.
Qed.

(** Walk through a command: path and session reads bring their facts, each
    logged effect leaves its confinement goal. *)
Ltac keep_step :=
  first
    [ apply keeps_with_path; intros ? ?
    | apply keeps_get; intros ? ? ?
    | apply keeps_writable; intros ?
    | apply keeps_ret | apply keeps_query | apply keeps_change | apply keeps_fresh
    | apply keeps_emit; cbn
    | apply keeps_put; [done|done|by auto]
    | apply keeps_bind; [|intros ?]
    | case_match ].
Ltac keep :=
  repeat (unfold reply, continue, read_dir, read_file, write_file, append_file, remove_file, create_dir_all, rename_file;
          keep_step);
  try done; eauto using real_jailed, real_confined, partial_confined.

Lemma keeps_send_data net bytes : keeps (send_data cfg net bytes).
Proof. unfold send_data. keep. Qed.

Lemma keeps_try_ports n net : keeps (try_ports cfg n net).
Proof.
  induction n as [|n IH]; [keep|]. intros s Hs. cbn [try_ports]. destruct (claim_port _ _ _) as [p nx].
  assert (logged_in (mkSt (sess s) (partial_seq s) nx (disk s) (log s))) by (destruct Hs; by split).
  destruct (can_bind net p); [done|]. by apply IH.
Qed.

Lemma keeps_bind_passive net : keeps (bind_passive cfg net).
Proof. unfold bind_passive. case_match; [keep|]. apply keeps_bind; [apply keeps_try_ports|]. keep. Qed.

Lemma keeps_open_passive net code text : keeps (open_passive cfg net code text).
Proof.
  unfold open_passive. apply keeps_bind; [keep|]. intros _. apply keeps_bind; [apply keeps_bind_passive|]. intros r. keep.
Qed.

Lemma keeps_cwd arg : keeps (do_cwd cfg arg).
Proof.
  apply keeps_with_path. intros v Hv. unfold read_dir. apply keeps_bind; [keep|]. intros [es|]; [|keep].
  apply keeps_bind; [|intros _; keep]. intros s []. by split.
Qed.

Lemma keeps_list arg names net : keeps (do_list cfg arg names net).
Proof.
  assert (Hgo : forall v, good_path v -> keeps (list_at cfg names net v)).
  { intros v Hv. unfold list_at. apply keeps_bind; [keep|]. intros r. case_match; [|keep]. apply keeps_send_data. }
  destruct arg as [[|c a]|]; cbn [do_list]; [|destruct (c =? 45)|];
    first [apply keeps_get; intros; by apply Hgo|apply keeps_with_path; intros; by apply Hgo].
Qed.

Lemma keeps_file_size v : good_path v -> keeps (file_size cfg v).
Proof.
  intros Hv. unfold file_size. pose proof (split_parent_good v Hv) as Hp. destruct (split_parent v) as [par name].
  cbn in Hp. keep.
Qed.

Lemma keeps_retr arg net : keeps (do_retr cfg arg net).
Proof.
  apply keeps_with_path. intros v Hv. apply keeps_bind; [by apply keeps_file_size|]. intros [size|]; [|keep].
  case_match; [keep|]. apply keeps_bind; [keep|]. intros [b|]; [apply keeps_send_data|keep].
Qed.

Lemma keeps_stream v n reads : forall total,
  good_path v -> (v = [47] -> up) -> cfg_read_only cfg = false -> keeps (stream_chunks cfg (partial_name (real cfg v) n) total reads).
Proof.
  induction reads as [|[[|b bs]|] reads IH]; intros total Hv Hup Hr; cbn [stream_chunks]; [keep|keep| |keep].
  case_match; [keep|]. apply keeps_bind; [keep|]. intros [|]; [auto|keep].
Qed.

Lemma keeps_stor arg net : (names_root arg -> up) -> keeps (do_stor cfg arg net).
Proof.
  intros Hup. apply keeps_writable. intros Hr. apply keeps_resolved. intros v Hv Hroot. assert (Hvr : v = [47] -> up) by auto. cbn zeta. apply keeps_get. intros x _ _.
  case_match; [|keep]. apply keeps_bind; [keep|intros _]. apply keeps_bind; [keep|intros _].
  case_match; [|keep]. case_match; [|keep]. apply keeps_bind; [keep|intros n].
  apply keeps_bind.
  - unfold stream_to_file. apply keeps_bind; [keep|]. intros [|]; [by apply keeps_stream|keep].
  - intros [| |]; keep.
Qed.

Lemma keeps_size arg : keeps (do_size cfg arg).
Proof.
  apply keeps_with_path. intros v Hv. pose proof (split_parent_good v Hv) as Hp.
  destruct (split_parent v) as [par name]. cbn in Hp. keep.
Qed.

Lemma keeps_rnfr arg : keeps (do_rnfr cfg arg).
Proof.
  apply keeps_writable. intros Hr. apply keeps_with_path. intros v Hv. apply keeps_bind; [|intros _; keep].
  intros s []. split; cbn; try done. by intros u [= <-].
Qed.

Lemma keeps_rnto arg : keeps (do_rnto cfg arg).
Proof.
  apply keeps_get. intros x Hc Hx. destruct (rename_from x) as [from|]; [|keep].
  destruct (Hx from eq_refl) as [Hf Hr]. keep.
Qed.

Lemma keeps_post_login cmd net : (stores_root [cmd] -> up) -> keeps (post_login cfg cmd net).
Proof.
  intros Hup.
  destruct cmd; cbn [post_login]; unfold continue; try (keep; fail);
    try (apply keeps_bind; [|intros _; apply keeps_ret]);
    eauto using keeps_cwd, keeps_list, keeps_retr, keeps_size, keeps_rnfr, keeps_rnto.
  - unfold do_pasv. case_match; [apply keeps_open_passive|keep].
  - unfold do_epsv. case_match; [keep|apply keeps_open_passive].
  - apply keeps_stor. intros Hn. apply Hup. eexists. split; [by apply list_elem_of_singleton|done].
Qed.

Lemma keeps_pre_login cmd m : pre_login cfg cmd = Some m -> keeps m.
Proof.
  destruct cmd; try done; intros [= <-]; unfold continue; try (keep; fail).
  apply keeps_bind; [|intros _; keep]. unfold do_pass. apply keeps_get. intros x _ _. apply keeps_bind; [keep|intros _].
  case_match; [|keep]. apply keeps_bind; [|intros _; keep]. intros s0 []. by split.
Qed.

(** Before login: only answers so far, and a pending user name was given. *)
Record anonymous (cmds : list Command) (s : St (W := W)) : Prop := {
  an_authed : authed (sess s) = false;
  an_cwd : good_path (cwd (sess s));
  an_rename : rename_from (sess s) = None;
  an_pending : forall u, pending_user (sess s) = Some u -> User u ∈ cmds;
  an_log : Forall (fun e => touches e = false) (log s)
}.

(** The credentials were presented. *)
Definition presented (cmds : list Command) : Prop := User (cfg_username cfg) ∈ cmds /\ Pass (cfg_password cfg) ∈ cmds.

Definition session_inv (cmds : list Command) (s : St (W := W)) : Prop :=
  anonymous cmds s \/ (logged_in s /\ presented cmds).

Lemma replies_ok l : Forall (fun e => touches e = false) l -> Forall (op_ok cfg up) l.
Proof. intros Hl. eapply list.Forall_impl; [exact Hl|]. by intros []. Qed.

Lemma anonymous_mono cmds cmd s : anonymous cmds s -> anonymous (cmds ++ [cmd]) s.
Proof. intros []. split; try done. intros u Hu. apply elem_of_app. auto. Qed.

Lemma anonymous_reply cmds s e : touches e = false -> anonymous cmds s -> anonymous cmds (emit e s).2.
Proof. intros He []. split; try done. cbn. apply Forall_app. auto. Qed.

Hypothesis named : cfg_username cfg <> [].

Lemma pre_login_anonymous cmds cmd m s :
  pre_login cfg cmd = Some m -> anonymous cmds s -> session_inv (cmds ++ [cmd]) (m s).2.
Proof.
  intros Hm Hs. pose proof (anonymous_mono cmds cmd s Hs) as Hs'.
  destruct cmd; try done; injection Hm as <-;
    try (left; first [exact (anonymous_reply _ s (Reply _ _) eq_refl Hs')
                     |exact (anonymous_reply _ s (ReplyLines _ _ _ _) eq_refl Hs')]).
  - left. refine (anonymous_reply _ (put_sess _ s).2 (Reply _ _) eq_refl _). destruct Hs'. split; try done.
    intros u [= <-]. apply elem_of_app. right. by apply list_elem_of_singleton.
  - cbv [continue do_pass mbind M_bind get put_sess]. cbn [sess]. destruct Hs as [A1 A2 A3 A4 A5].
    destruct (credentials_match cfg _ _) eqn:Ec.
    + right. apply andb_true_iff in Ec as [E1%bool_decide_eq_true E2%bool_decide_eq_true]. split.
      * split; cbn; try done; [by rewrite A3|]. apply Forall_app. split; [by apply replies_ok|by repeat constructor].
      * unfold presented. split; apply elem_of_app; [left|right; apply list_elem_of_singleton; congruence].
        destruct (pending_user (sess s)) as [u|]; [|done]. cbn in E1. subst u. by apply A4.
    + left. split; cbn; try done. apply Forall_app. split; [done|]. by repeat constructor.
Qed.

Lemma dispatch_inv cmds cmd net s : (stores_root [cmd] -> up) -> session_inv cmds s -> session_inv (cmds ++ [cmd]) (dispatch cfg cmd net s).2.
Proof.
  intros Hup [Ha|[Hl [P1 P2]]]; unfold dispatch.
  - destruct (pre_login cfg cmd) as [m|] eqn:Em; [by eapply pre_login_anonymous|].
    cbv [mbind M_bind get]. rewrite (an_authed _ _ Ha). left.
    refine (anonymous_reply _ s (Reply _ _) eq_refl _). by apply anonymous_mono.
  - right. split; [|split; apply elem_of_app; auto].
    destruct (pre_login cfg cmd) as [m|] eqn:Em; [by apply (keeps_pre_login cmd)|].
    cbv [mbind M_bind get]. rewrite (li_authed _ Hl). by apply keeps_post_login.
Qed.

Lemma run_session_inv lines : (stores_root (map (fun l => parse_command l.1) lines) -> up) -> forall cmds s,
  session_inv cmds s ->
  exists k, session_inv (cmds ++ k) (run_session cfg lines s).2 /\
            Forall (fun c => c ∈ map (fun l => parse_command l.1) lines) k.
Proof.
  induction lines as [|[line net] lines IH]; intros Hup cmds s Hs; [exists []; by rewrite app_nil_r|].
  cbn [run_session map fst] in *.
  assert (Hup1 : stores_root [parse_command line] -> up).
  { intros (arg & Ha%list_elem_of_singleton & Hn). apply Hup. exists arg. split; [|done]. apply elem_of_cons. by left. }
  assert (Hup2 : stores_root (map (fun l => parse_command l.1) lines) -> up).
  { intros (arg & Ha & Hn). apply Hup. exists arg. split; [|done]. apply elem_of_cons. by right. }
  specialize (IH Hup2).
  assert (Hmono : forall k, Forall (fun c => c ∈ map (fun l => parse_command l.1) lines) k ->
    Forall (fun c => c ∈ parse_command line :: map (fun l => parse_command l.1) lines) k).
  { intros k Hk. eapply list.Forall_impl; [exact Hk|]. intros c Hc. apply elem_of_cons. by right. }
  destruct (is_empty line).
  { destruct (IH cmds s Hs) as (k & Hk & Hin). exists k. auto. }
  cbv [mbind M_bind]. pose proof (dispatch_inv cmds (parse_command line) net s Hup1 Hs) as Hd.
  destruct (dispatch cfg (parse_command line) net s) as [f s1]. cbn [snd] in Hd.
  assert (Hone : Forall (fun c => c ∈ parse_command line :: map (fun l => parse_command l.1) lines) [parse_command line]).
  { apply Forall_cons_2; [|constructor]. apply elem_of_cons. by left. }
  destruct f; [|by exists [parse_command line]..].
  destruct (IH _ s1 Hd) as (k & Hk & Hin). exists (parse_command line :: k). rewrite <- app_assoc in Hk.
  split; [exact Hk|]. apply Forall_cons_2; [|auto]. apply elem_of_cons. by left.
Qed.
End Confinement.

Section Upload.
Context {W : Type} `{Fs W} (cfg : FtpConfig).

(** The transfer loop only appends, stays within the limit, and succeeds on
    exactly the bytes received. *)
Lemma stream_chunks_spec path reads : forall total (s : St (W := W)),
  0 <= total <= cfg_max_transfer cfg -> cfg_max_transfer cfg < 2 ^ 64 - 1 ->
  exists chunks w, (stream_chunks cfg path total reads s).2 =
      mkSt (sess s) (partial_seq s) (next_port s) w (log s ++ map (OpAppend path) chunks) /\
    total + Z.of_nat (length (concat chunks)) <= cfg_max_transfer cfg /\
    ((stream_chunks cfg path total reads s).1 = RecvOk -> received reads = Some (concat chunks)).
Proof.
  induction reads as [|[[|b bs]|] reads IH]; intros total s Ht Hm; cbn [stream_chunks];
    try (exists [], (disk s); destruct s; cbn; rewrite app_nil_r; split_and!; (done || lia)).
  set (t := Z.min _ _). destruct (Z.ltb_spec (cfg_max_transfer cfg) t) as [Hl|Hl].
  { exists [], (disk s); destruct s; cbn; rewrite app_nil_r; split_and!; (done || lia). }
  assert (Et : t = total + Z.of_nat (length (b :: bs))) by (unfold t in *; lia).
  cbv [append_file mbind M_bind emit change]. cbn [sess partial_seq next_port disk log].
  destruct (fs_append (disk s) path (b :: bs)) as [w [|]].
  - destruct (IH t (mkSt (sess s) (partial_seq s) (next_port s) w (log s ++ [OpAppend path (b :: bs)])))
      as (chunks & w' & E & Hlen & Hok); [lia|done|].
    exists ((b :: bs) :: chunks), w'. cbn [sess partial_seq next_port disk log] in E. split_and!.
    + rewrite E. cbn [disk map]. by rewrite <- app_assoc.
    + cbn [concat]. rewrite length_app. lia.
    + intros Hr. cbn [received]. by rewrite (Hok Hr).
  - exists [b :: bs], w. split_and!; [done| |done]. cbn [concat]. rewrite app_nil_r. lia.
Qed.
End Upload.

(** * Properties *)

(** C36: an FTP session cannot leave its jail or act for a stranger.  Whatever the
    client sends and whatever the disk and the network answer, on a server with
    device paths off and a user name that is not empty: every directory listed or
    created, every file read and every target of a rename is the root or below it
    without dot segments; so is every file written, removed or renamed, unless
    the client has sent a STOR for the root itself, when it may also be the
    temporary file of that upload, which is named by the root's path with
    [.<n>.upload.partial] appended and so lies beside it; no call changes
    anything on a read-only server; and the session touches files or sends data
    only if the client has sent the configured user name and password. *)
Theorem ftp_confined {W} `{Fs W} cfg lines w seq port
    (s := (handle cfg lines (mkSt session_new seq port w [])).2)
    (cmds := map (fun l => parse_command l.1) lines) :
  allow_device_paths (cfg_vfs cfg) = false -> cfg_username cfg <> [] ->
  Forall (op_ok cfg (stores_root cmds)) (log s) /\
  ((exists e, e ∈ log s /\ touches e = true) -> User (cfg_username cfg) ∈ cmds /\ Pass (cfg_password cfg) ∈ cmds).
Proof.
  intros Hd Hn. assert (H0 : session_inv cfg (stores_root cmds) [] (emit (Reply 220 (bs "ts-ftp ready")) (mkSt session_new seq port w [])).2).
  { left. split; try done; [by exists []|]. by repeat constructor. }
  destruct (run_session_inv cfg Hd (stores_root cmds) Hn lines id [] _ H0) as (k & Hk & Hin). fold s in Hk. cbn [app] in Hk.
  rewrite list.Forall_forall in Hin. destruct Hk as [[A1 A2 A3 A4 A5]|[Hl [P1 P2]]].
  - split; [by apply replies_ok|]. intros (e & He & Ht). rewrite list.Forall_forall in A5. specialize (A5 e He). congruence.
  - split; [apply Hl|]. intros _. split; by apply Hin.
Qed.

(** A file system that records nothing and answers every request. *)
#[local] Instance open_disk : Fs unit := {
  fs_read_dir := fun _ _ => Some [mkEntry (bs "a") false 3]; fs_read := fun _ _ => Ok (bs "abc");
  fs_write := fun w _ _ => (w, true); fs_append := fun w _ _ => (w, true); fs_remove_file := fun w _ => (w, true);
  fs_create_dir_all := fun w _ => (w, true); fs_rename := fun w _ _ => (w, true)
}.
Definition sample_config : FtpConfig :=
  mkFtpConfig (Vfs_new (bs "ux0:/data/") false) (bs "vita") (bs "pw") false 100 50000 50010 7.
Definition sample_net : Net := mkNet (fun _ => true) (Some 7) [Some (bs "hi"); Some []] None (Some 1681915905).
Definition sample_run (cmds : list (list Z)) : list Effect :=
  log (handle sample_config (map (fun l => (l, sample_net)) cmds) (mkSt session_new 0 50000 tt [])).2.

Definition sample_lines : list (list Z) :=
  [bs "USER vita"; bs "PASS pw"; bs "PASV"; bs "RETR ../a"; bs "RETR x/../a"].

Lemma ftp_confined_witness :
  Forall (op_ok sample_config (stores_root (map parse_command sample_lines))) (sample_run sample_lines) /\
  OpRead (bs "ux0:/data/a") ∈ sample_run sample_lines.
Proof.
  split.
  - exact (proj1 (ftp_confined sample_config (map (fun l => (l, sample_net)) sample_lines) tt 0 50000 eq_refl
      ltac:(vm_compute; discriminate))).
  - vm_compute. repeat (apply elem_of_cons; first [left; reflexivity|right]).
Defined.

(** an upload is atomic and bounded.  When STOR may write, the path resolves,
    a passive listener is pending and the data peer is the control peer, the
    session truncates one temporary file, appends the chunks read to it, never
    more than the transfer limit in all, and then either renames it over the
    target after the whole upload was received (226), or, when anything failed,
    removes the temporary file and answers an error; the target itself is
    touched by that rename alone.  The listener is used up either way. *)
Theorem ftp_stor_atomic {W} `{Fs W} cfg arg net (s : St (W := W)) v l
    (target := real cfg v) (tmp := partial_name target (partial_seq s)) (s' := (do_stor cfg arg net s).2) :
  cfg_read_only cfg = false -> 0 <= cfg_max_transfer cfg < 2 ^ 64 - 1 ->
  resolve (cwd (sess s)) arg = Some v -> pasv (sess s) = Some l -> accepted net = Some (cfg_control_peer cfg) ->
  pasv (sess s') = None /\
  exists chunks tail,
    log s' = log s ++ [Reply 150 (bs "ready to receive"); OpWrite tmp] ++ map (OpAppend tmp) chunks ++ tail /\
    Z.of_nat (length (concat chunks)) <= cfg_max_transfer cfg /\
    ((tail = [OpRename tmp target; Reply 226 (bs "stored")] /\ received (incoming net) = Some (concat chunks)) \/
     (tail = [OpRename tmp target; OpRemove tmp; Reply 550 (bs "write failed")] /\
      received (incoming net) = Some (concat chunks)) \/
     (exists code, tail = [OpRemove tmp; Reply code (bs "receive failed")] /\ (code = 552 \/ code = 426))).
Proof.
  intros Hro Hmax Hres Hpasv Hacc. subst s'.
  unfold do_stor, writable, with_path, reply. rewrite Hro. cbv [mbind M_bind get emit put_sess fresh_partial].
  rewrite Hres. rewrite Hpasv, Hacc, Z.eqb_refl. cbn [sess partial_seq next_port disk log].
  fold target. fold tmp. cbv [stream_to_file write_file mbind M_bind emit change].
  cbn [sess partial_seq next_port disk log]. destruct (fs_write (disk s) tmp []) as [w [|]].
  - match goal with |- context [stream_chunks cfg tmp 0 ?r ?st] =>
      destruct (stream_chunks_spec cfg tmp r 0 st) as (chunks & w' & E & Hlen & Hok); [lia|lia|];
      destruct (stream_chunks cfg tmp 0 r st) as [[| |] s1] end; cbn [fst snd] in E, Hok; subst s1;
      cbv [rename_file remove_file mbind M_bind emit change mret M_ret]; cbn [sess partial_seq next_port disk log].
    + destruct (fs_rename _ _ _) as [w1 [|]]; [|cbn [sess partial_seq next_port disk log]; destruct (fs_remove_file _ _) as [w2 b]];
        (split; [done|]); exists chunks; eexists; cbn [log]; rewrite <- !app_assoc; (split; [done|]); (split; [lia|]); eauto.
    + destruct (fs_remove_file _ _) as [w2 b]. split; [done|]. exists chunks. eexists. cbn [log].
      rewrite <- !app_assoc. split; [done|]. split; [lia|]. eauto 6.
    + destruct (fs_remove_file _ _) as [w2 b]. split; [done|]. exists chunks. eexists. cbn [log].
      rewrite <- !app_assoc. split; [done|]. split; [lia|]. eauto 6.
  - cbv [remove_file mbind M_bind emit change mret M_ret]; cbn [sess partial_seq next_port disk log].
    destruct (fs_remove_file _ _) as [w2 b]. split; [done|]. exists []. eexists. cbn [log].
    rewrite <- !app_assoc. split; [done|]. split; [cbn; lia|]. eauto 6.
Qed.

Definition uploading : St (W := unit) := mkSt (mkSession (bs "/up") true None (Some 50000) None) 5 50001 tt [].

Lemma ftp_stor_atomic_witness :
  pasv (sess (do_stor sample_config (bs "b") sample_net uploading).2) = None /\
  received (incoming sample_net) = Some (bs "hi").
Proof.
  split; [|reflexivity].
  exact (proj1 (ftp_stor_atomic sample_config (bs "b") sample_net uploading (bs "/up/b") 50000 eq_refl
    ltac:(vm_compute; split; [discriminate|reflexivity]) ltac:(vm_compute; reflexivity) eq_refl eq_refl)).
Defined.

(** an upload aimed at the virtual root leaves the jail: its temporary file is
    named by appending to the root's own path, so it is written beside the root
    directory and not below it. *)
Theorem ftp_stor_root_escapes :
  let tmp := bs "ux0:/data.0000000000000000.upload.partial" in
  OpWrite tmp ∈ sample_run [bs "USER vita"; bs "PASS pw"; bs "EPSV"; bs "STOR /"] /\
  ~ jailed (root (cfg_vfs sample_config)) tmp.
Proof.
  split.
  - vm_compute. repeat (apply elem_of_cons; first [left; reflexivity|right]).
  - intros (segs & _ & E). destruct segs as [|x segs]; [by vm_compute in E|].
    assert (E9 : nth_error (bs "ux0:/data.0000000000000000.upload.partial") 9 = Some 47).
    { rewrite E. reflexivity. }
    by vm_compute in E9.
Qed.
