(* ===== verification/Magicsock.v ===== *)
(** The magic socket of ts-magicsock ([lib.rs]): per-peer direct-path state,
    the disco ping/pong/call-me-maybe protocol that validates paths, the STUN
    probes, the three-way receive demultiplexer, and the path oracle wg-engine
    asks ([alive_endpoint]).

    One [Magic] value holds the locked [MagicState] and the effects on the
    outside.  Handlers are functions on it; each takes the clock reading it
    works with.  Randomness, the result of each [sendto] and the order of hash
    map iteration are inputs of the model. *)

From S2P Require Import Prelude NetTypes Disco Stun.
#[local] Open Scope Z_scope.

(** ** Constants (nanoseconds) *)

Definition SEC : Z := 1000000000.
Definition PING_INTERVAL : Z := 5 * SEC.
Definition HEARTBEAT_INTERVAL : Z := 3 * SEC.
Definition ALIVE_TTL : Z := 30 * SEC.
Definition MAX_PEER_PATHS : nat := 24.
Definition LEARNED_SRC_TTL : Z := 10 * 60 * SEC.
Definition SEND_LOG_CAP : nat := 256.
Definition CMM_TRIGGER_AFTER : Z := 10 * SEC.
Definition CMM_RATE_LIMIT : Z := 5 * SEC.
Definition CMM_MAX_ENDPOINTS : nat := 16.

(** ** State *)

Record PathState : Type := mkPath {
  last_ping_at : option Z;
  last_pong_at : option Z;
  outstanding_tx_id : option (list Z);
  rtt : option Z;
  last_src_ping_at : option Z
}.

Definition PathState_new : PathState := mkPath None None None None None.

(** [Instant::duration_since] saturates at zero. *)
Definition since (now t : Z) : Z := Z.max 0 (now - t).

Definition path_alive (now : Z) (p : PathState) : bool :=
  match last_pong_at p with Some t => since now t <? ALIVE_TTL | None => false end.

Record PeerState : Type := mkPeerState {
  disco_pub : list Z;
  endpoints : list SocketAddr;
  paths : gmap SocketAddr PathState
}.

Inductive MagicError : Type :=
| MIo
| MDisco (e : DiscoError)
| MTransportMismatch
| UnknownPeer
| StunParseFailed
| NoEndpoints
| PingTimeout.

Record MagicState : Type := mkMagicState {
  peers : gmap (list Z) PeerState;
  disco_to_node : gmap (list Z) (list Z);
  stun_outstanding : gmap (list Z) Z;
  ping_outstanding : gmap (list Z) (Z * SocketAddr);
  local_endpoints : list SocketAddr;
  last_cmm_sent_at : gmap (list Z) Z;
  cmm_pending : list (list Z * list Z)
}.

Definition MagicState_default : MagicState := mkMagicState ∅ ∅ ∅ ∅ [] ∅ [].

(** One completed [sendto] of the queue drain; [None] is an error. *)
Record SendRecord : Type := mkSendRecord {
  rec_dst : SocketAddr; rec_byte0 : Z; rec_req : nat; rec_ret : option nat
}.

(** What the handlers do to the outside: random draws and [sendto] calls so
    far, the datagrams accepted by the kernel, the results handed to STUN and
    ping callers, the packets forwarded to wg-engine, the outbound queue and
    the send log. *)
Record Io : Type := mkIo {
  draws : nat;
  send_calls : nat;
  wire : list (SocketAddr * list Z);
  stun_results : list (list Z * result MagicError (SocketAddr * Z));
  ping_results : list (list Z * result MagicError (SocketAddr * Z));
  non_disco : list (SocketAddr * list Z);
  tx_queue : list (SocketAddr * list Z);
  send_log : list SendRecord
}.

Record Magic : Type := mkMagic { ms : MagicState; io : Io }.

Definition set_peers (f : gmap (list Z) PeerState -> gmap (list Z) PeerState) (w : Magic) : Magic :=
  let s := ms w in
  mkMagic (mkMagicState (f (peers s)) (disco_to_node s) (stun_outstanding s) (ping_outstanding s)
             (local_endpoints s) (last_cmm_sent_at s) (cmm_pending s)) (io w).
Definition set_disco (f : gmap (list Z) (list Z) -> gmap (list Z) (list Z)) (w : Magic) : Magic :=
  let s := ms w in
  mkMagic (mkMagicState (peers s) (f (disco_to_node s)) (stun_outstanding s) (ping_outstanding s)
             (local_endpoints s) (last_cmm_sent_at s) (cmm_pending s)) (io w).
Definition set_stun (f : gmap (list Z) Z -> gmap (list Z) Z) (w : Magic) : Magic :=
  let s := ms w in
  mkMagic (mkMagicState (peers s) (disco_to_node s) (f (stun_outstanding s)) (ping_outstanding s)
             (local_endpoints s) (last_cmm_sent_at s) (cmm_pending s)) (io w).
Definition set_pings (f : gmap (list Z) (Z * SocketAddr) -> gmap (list Z) (Z * SocketAddr)) (w : Magic) : Magic :=
  let s := ms w in
  mkMagic (mkMagicState (peers s) (disco_to_node s) (stun_outstanding s) (f (ping_outstanding s))
             (local_endpoints s) (last_cmm_sent_at s) (cmm_pending s)) (io w).
Definition queue_cmm (now : Z) (node bytes : list Z) (w : Magic) : Magic :=
  let s := ms w in
  mkMagic (mkMagicState (peers s) (disco_to_node s) (stun_outstanding s) (ping_outstanding s)
             (local_endpoints s) (<[node := now]> (last_cmm_sent_at s))
             (cmm_pending s ++ [(node, bytes)])) (io w).
Definition with_io (w : Magic) (i : Io) : Magic := mkMagic (ms w) i.

Definition give_stun (r : list Z * result MagicError (SocketAddr * Z)) (w : Magic) : Magic :=
  let i := io w in
  with_io w (mkIo (draws i) (send_calls i) (wire i) (stun_results i ++ [r]) (ping_results i)
               (non_disco i) (tx_queue i) (send_log i)).
Definition give_ping (r : list Z * result MagicError (SocketAddr * Z)) (w : Magic) : Magic :=
  let i := io w in
  with_io w (mkIo (draws i) (send_calls i) (wire i) (stun_results i) (ping_results i ++ [r])
               (non_disco i) (tx_queue i) (send_log i)).
(** [non_disco_tx.try_send]: the runtime makes the channel unbounded and keeps its
    receiver in the transport that owns the socket, so it is neither full nor
    disconnected. *)
Definition forward (pkt : SocketAddr * list Z) (w : Magic) : Magic :=
  let i := io w in
  with_io w (mkIo (draws i) (send_calls i) (wire i) (stun_results i) (ping_results i)
               (non_disco i ++ [pkt]) (tx_queue i) (send_log i)).

(** ** Helpers of the standard library *)

(** [min_by_key]: the first of the smallest. *)
Definition min_by {A} (key : A -> Z) (l : list A) : option A :=
  foldl (fun acc x => match acc with
                      | None => Some x
                      | Some y => if key x <? key y then Some x else acc
                      end) None l.

(** [paths.entry(addr).or_insert_with(PathState::new)], then [f] on it. *)
Definition entry_path (addr : SocketAddr) (f : PathState -> PathState)
    (m : gmap SocketAddr PathState) : gmap SocketAddr PathState :=
  <[addr := f (default PathState_new (m !! addr))]> m.

Definition mem_sa (a : SocketAddr) (l : list SocketAddr) : bool := bool_decide (a ∈ l).

Section Socket.
Context `{CryptoBox}.
Context (os_rng : nat -> nat -> list Z)            (** the k-th draw, of n bytes *)
        (udp_ret : nat -> nat -> option nat)       (** the k-th [sendto], of n bytes *)
        (has_v6 : bool)                            (** was the v6 socket bound *)
        (our_disco_priv our_node_pub : list Z)
        (iter_peers : gmap (list Z) PeerState -> list (list Z * PeerState))
        (iter_paths : gmap SocketAddr PathState -> list (SocketAddr * PathState)).

(** [OsRng.fill_bytes] *)
Definition draw (n : nat) (w : Magic) : list Z * Magic :=
  let i := io w in
  (os_rng (draws i) n,
   with_io w (mkIo (S (draws i)) (send_calls i) (wire i) (stun_results i) (ping_results i)
                (non_disco i) (tx_queue i) (send_log i))).

(** [UdpSocket::send_to] *)
Definition udp_send (addr : SocketAddr) (bytes : list Z) (w : Magic) : option nat * Magic :=
  let i := io w in
  let r := udp_ret (send_calls i) (length bytes) in
  (r, with_io w (mkIo (draws i) (S (send_calls i))
                   (match r with Some _ => wire i ++ [(addr, bytes)] | None => wire i end)
                   (stun_results i) (ping_results i) (non_disco i) (tx_queue i) (send_log i))).

(** [Sockets::for_addr], [socket_for]: is there a socket for the family? *)
Definition for_addr (addr : SocketAddr) : bool := is_ipv4 addr || has_v6.

(** ** Building and sending disco messages *)

Definition ping_packet (peer_disco_pub tx_id nonce_ : list Z) : result DiscoError (list Z) :=
  let buf := replicate (size_for_message (ping_size_with_padding 0)) 0 in
  p ← init_from_bytes buf (fun ping => mkPing tx_id our_node_pub (ping_padding ping));
  q ← encrypt_in_place p our_disco_priv peer_disco_pub nonce_;
  Ok (packet_bytes q).

Definition pong_packet (peer_disco_pub : list Z) (src : SocketAddr) (tx_id nonce_ : list Z) :
    result DiscoError (list Z) :=
  let buf := replicate (size_for_message pong_size) 0 in
  p ← init_from_bytes buf (fun _ : Pong => mkPong tx_id (from_socket_addr src));
  q ← encrypt_in_place p our_disco_priv peer_disco_pub nonce_;
  Ok (packet_bytes q).

(** [build_call_me_maybe], the nonce given. *)
Definition build_call_me_maybe (peer_disco_pub : list Z) (eps : list SocketAddr) (nonce_ : list Z) :
    result DiscoError (list Z) :=
  let buf := replicate (size_for_message (cmm_size_for_endpoint_count (length eps))) 0 in
  p ← init_from_bytes buf (fun _ : CallMeMaybe => mkCallMeMaybe (map from_socket_addr eps));
  q ← encrypt_in_place p our_disco_priv peer_disco_pub nonce_;
  Ok (packet_bytes q).

Definition encode_and_send_ping (peer_disco_pub : list Z) (addr : SocketAddr) (tx_id : list Z)
    (w : Magic) : result MagicError (list Z) * Magic :=
  let '(nonce_, w) := draw NONCE_LEN w in
  match ping_packet peer_disco_pub tx_id nonce_ with
  | Err e => (Err (MDisco e), w)
  | Ok buf =>
      let '(r, w) := udp_send addr buf w in
      match r with Some _ => (Ok tx_id, w) | None => (Err MIo, w) end
  end.

Definition send_ping (peer_disco_pub : list Z) (addr : SocketAddr) (w : Magic) :
    result MagicError (list Z) * Magic :=
  let '(tx_id, w) := draw 12 w in
  encode_and_send_ping peer_disco_pub addr tx_id w.

Definition send_pong (peer_disco_pub : list Z) (src : SocketAddr) (tx_id : list Z) (w : Magic) : Magic :=
  let '(nonce_, w) := draw NONCE_LEN w in
  match pong_packet peer_disco_pub src tx_id nonce_ with
  | Err _ => w
  | Ok buf => (udp_send src buf w).2
  end.

(** ** MagicSocketCtl *)

Definition upsert_peer (node_pub disco : list Z) (eps : list SocketAddr) (now : Z) (w : Magic) : Magic :=
  let w := set_disco (fun m => <[disco := node_pub]> (filter (fun kv => kv.2 <> node_pub) m)) w in
  let entry := default (mkPeerState disco [] ∅) (peers (ms w) !! node_pub) in
  let kept := filter (fun kv : SocketAddr * PathState =>
    mem_sa kv.1 eps ||
    match last_src_ping_at kv.2 with Some t => since now t <? LEARNED_SRC_TTL | None => false end = true)
    (paths entry) in
  let preserved := filter (fun a => mem_sa a eps = false) ((iter_paths kept).*1) in
  let ps := foldl (fun m a => entry_path a id m) kept eps in
  set_peers (fun m => <[node_pub := mkPeerState disco (eps ++ preserved) ps]> m) w.

Definition remove_peer (node_pub : list Z) (w : Magic) : Magic :=
  match peers (ms w) !! node_pub with
  | None => w
  | Some p => set_disco (delete (disco_pub p)) (set_peers (delete node_pub) w)
  end.

Definition alive_endpoint (node_pub : list Z) (now : Z) (w : Magic) : option SocketAddr :=
  peer ← peers (ms w) !! node_pub;
  fst <$> min_by (fun kv => default (60 * SEC) (rtt kv.2))
            (filter (fun kv => path_alive now kv.2 = true) (iter_paths (paths peer))).

Definition peer_rtt (node_pub : list Z) (now : Z) (w : Magic) : option Z :=
  peer ← peers (ms w) !! node_pub;
  min_by id (omap (fun kv => rtt kv.2)
               (filter (fun kv => path_alive now kv.2 = true) (iter_paths (paths peer)))).

Definition send_to (addr : SocketAddr) (bytes : list Z) (w : Magic) : result MagicError nat * Magic :=
  if for_addr addr then
    let i := io w in
    (Ok (length bytes),
     with_io w (mkIo (draws i) (send_calls i) (wire i) (stun_results i) (ping_results i) (non_disco i)
                  (tx_queue i ++ [(addr, bytes)]) (send_log i)))
  else (Err MIo, w).

Definition take_send_records (w : Magic) : list SendRecord * Magic :=
  let i := io w in
  (send_log i,
   with_io w (mkIo (draws i) (send_calls i) (wire i) (stun_results i) (ping_results i) (non_disco i)
                (tx_queue i) [])).

Definition send_direct (addr : SocketAddr) (bytes : list Z) (w : Magic) : result MagicError nat * Magic :=
  if for_addr addr then
    let '(r, w) := udp_send addr bytes w in
    (match r with Some n => Ok n | None => Err MIo end, w)
  else (Err MIo, w).

Definition stun_probe (target : SocketAddr) (now : Z) (w : Magic) : result MagicError (list Z) * Magic :=
  let '(tx_id, w) := draw 12 w in
  let req := encode_binding_request tx_id in
  let w := set_stun (fun m => <[tx_id := now]> m) w in
  if for_addr target then
    let '(r, w) := udp_send target req w in
    match r with
    | Some _ => (Ok tx_id, w)
    | None => (Err MIo, set_stun (delete tx_id) w)
    end
  else (Err MIo, set_stun (delete tx_id) w).

(** [ping_now] up to the wait; the result arrives on the channel named by the
    transaction id, or the wait ends in [ping_now_timeout]. *)
Definition ping_now_start (node_pub : list Z) (now : Z) (w : Magic) : result MagicError (list Z) * Magic :=
  match peers (ms w) !! node_pub with
  | None => (Err UnknownPeer, w)
  | Some peer =>
      let alive := fst <$> List.find (fun kv => path_alive now kv.2) (iter_paths (paths peer)) in
      match (match alive with Some a => Some a | None => head (endpoints peer) end) with
      | None => (Err NoEndpoints, w)
      | Some target =>
          let '(tx_id, w) := draw 12 w in
          let w := set_pings (fun m => <[tx_id := (now, target)]> m) w in
          if for_addr target then
            let '(r, w) := encode_and_send_ping (disco_pub peer) target tx_id w in
            match r with
            | Ok _ => (Ok tx_id, w)
            | Err e => (Err e, set_pings (delete tx_id) w)
            end
          else (Err MIo, set_pings (delete tx_id) w)
      end
  end.

Definition ping_now_timeout (tx_id : list Z) (w : Magic) : Magic := set_pings (delete tx_id) w.

Definition set_local_endpoints (eps : list SocketAddr) (w : Magic) : Magic :=
  let s := ms w in
  mkMagic (mkMagicState (peers s) (disco_to_node s) (stun_outstanding s) (ping_outstanding s)
             eps (last_cmm_sent_at s) (cmm_pending s)) (io w).

Definition take_pending_cmm (w : Magic) : list (list Z * list Z) * Magic :=
  let s := ms w in
  (cmm_pending s,
   mkMagic (mkMagicState (peers s) (disco_to_node s) (stun_outstanding s) (ping_outstanding s)
              (local_endpoints s) (last_cmm_sent_at s) []) (io w)).

(** ** Inbound disco *)

(** The ping that was sent is noted on its path. *)
Definition record_ping (now : Z) (node_pub : list Z) (addr : SocketAddr) (tx_id : list Z) (w : Magic) : Magic :=
  set_peers (alter (fun peer =>
    mkPeerState (disco_pub peer) (endpoints peer)
      (entry_path addr (fun p => mkPath (Some now) (last_pong_at p) (Some tx_id) (rtt p) (last_src_ping_at p))
         (paths peer))) node_pub) w.

(** One ping of a burst, skipped when the family has no socket and dropped when
    it cannot be sent. *)
Definition ping_one (now : Z) (node_pub peer_disco : list Z) (w : Magic) (addr : SocketAddr) : Magic :=
  if for_addr addr then
    let '(r, w) := send_ping peer_disco addr w in
    match r with Ok tx_id => record_ping now node_pub addr tx_id w | Err _ => w end
  else w.

(** Candidate merge of [handle_call_me_maybe]. *)
Definition merge_endpoint (peer : PeerState) (ep : SocketAddr) : PeerState :=
  mkPeerState (disco_pub peer)
    (if mem_sa ep (endpoints peer) then endpoints peer else endpoints peer ++ [ep])
    (entry_path ep id (paths peer)).

Definition handle_call_me_maybe (sender_pub : list Z) (cmm : CallMeMaybe) (now : Z) (w : Magic) : Magic :=
  let advertised := map socket_addr (cmm_endpoints cmm) in
  match disco_to_node (ms w) !! sender_pub with
  | None => w
  | Some node_pub =>
      match peers (ms w) !! node_pub with
      | None => w
      | Some peer =>
          let w := set_peers (<[node_pub := foldl merge_endpoint peer advertised]>) w in
          foldl (ping_one now node_pub (disco_pub peer)) w advertised
      end
  end.

(** The source of a ping from a known peer becomes a path candidate. *)
Definition learn_source (now : Z) (src : SocketAddr) (peer : PeerState) : PeerState :=
  match paths peer !! src with
  | Some p =>
      mkPeerState (disco_pub peer) (endpoints peer)
        (<[src := mkPath (last_ping_at p) (last_pong_at p) (outstanding_tx_id p) (rtt p) (Some now)]> (paths peer))
  | None =>
      if decide (size (paths peer) < MAX_PEER_PATHS)%nat then
        mkPeerState (disco_pub peer)
          (if mem_sa src (endpoints peer) then endpoints peer else endpoints peer ++ [src])
          (<[src := mkPath None None None None (Some now)]> (paths peer))
      else peer
  end.

Definition handle_ping (sender_pub : list Z) (src : SocketAddr) (ping : Ping) (now : Z) (w : Magic) : Magic :=
  let w := match disco_to_node (ms w) !! sender_pub with
           | Some node_pub => set_peers (alter (learn_source now src) node_pub) w
           | None => w
           end in
  send_pong sender_pub src (ping_tx_id ping) w.

(** A pong validates the path it came over if it answers the outstanding ping. *)
Definition accept_pong (now : Z) (tx_id : list Z) (p : PathState) : PathState :=
  if decide (outstanding_tx_id p = Some tx_id) then
    let r := match last_ping_at p with Some t => since now t | None => 0 end in
    mkPath (last_ping_at p) (Some now) None (Some r) (last_src_ping_at p)
  else p.

Definition handle_pong (sender_pub : list Z) (src : SocketAddr) (pong : Pong) (now : Z) (w : Magic) : Magic :=
  let tx := pong_tx_id pong in
  let w := match ping_outstanding (ms w) !! tx with
           | Some (sent_at, target) =>
               give_ping (tx, Ok (target, since now sent_at)) (set_pings (delete tx) w)
           | None => w
           end in
  match disco_to_node (ms w) !! sender_pub with
  | None => w
  | Some node_pub =>
      set_peers (alter (fun peer =>
        mkPeerState (disco_pub peer) (endpoints peer) (alter (accept_pong now tx) src (paths peer)))
        node_pub) w
  end.

(** Parse, check the magic, decrypt: the common head of both disco entries. *)
Definition open_disco (bytes : list Z) : option (list Z * Packet) :=
  match from_encrypted_bytes bytes with
  | Err _ => None
  | Ok encrypted =>
      match decrypt_in_place encrypted our_disco_priv with
      | Err _ => None
      | Ok plaintext => Some (sender_pub (pkt_header encrypted), plaintext)
      end
  end.

Definition handle_disco (bytes : list Z) (src : SocketAddr) (now : Z) (w : Magic) : Magic :=
  match open_disco bytes with
  | None => w
  | Some (sender, plaintext) =>
      match packet_ty plaintext with
      | Some MTPing => match as_msg plaintext with Some ping => handle_ping sender src ping now w | None => w end
      | Some MTPong => match as_msg plaintext with Some pong => handle_pong sender src pong now w | None => w end
      | Some MTCallMeMaybe =>
          match as_msg plaintext with Some cmm => handle_call_me_maybe sender cmm now w | None => w end
      | _ => w
      end
  end.

(** A disco frame relayed by DERP: only call-me-maybe is acted on. *)
Definition handle_disco_from_derp (bytes : list Z) (now : Z) (w : Magic) : Magic :=
  match open_disco bytes with
  | None => w
  | Some (sender, plaintext) =>
      match packet_ty plaintext with
      | Some MTCallMeMaybe =>
          match as_msg plaintext with Some cmm => handle_call_me_maybe sender cmm now w | None => w end
      | _ => w
      end
  end.

Definition handle_stun_response (bytes : list Z) (now : Z) (w : Magic) : outcome Magic :=
  t ← tx_id_from bytes;
  match t with
  | None => Val w
  | Some tx_id =>
      match stun_outstanding (ms w) !! tx_id with
      | None => Val w
      | Some sent_at =>
          let w := set_stun (delete tx_id) w in
          parsed ← parse_binding_response bytes;
          Val (match parsed with
               | Some reflected => give_stun (tx_id, Ok (reflected, since now sent_at)) w
               | None => give_stun (tx_id, Err StunParseFailed) w
               end)
      end
  end.

(** The three-way demultiplexer. *)
Definition handle_recv (bytes : list Z) (src : SocketAddr) (now : Z) (w : Magic) : outcome Magic :=
  s ← looks_like_stun bytes;
  if s : bool then handle_stun_response bytes now w
  else if negb (is_disco_message bytes) then Val (forward (src, bytes) w)
  else Val (handle_disco bytes src now w).

(** ** The ping pump *)

Definition path_needs_ping (p : option PathState) (now : Z) : bool :=
  match p with
  | None => true
  | Some p =>
      let interval := if path_alive now p then HEARTBEAT_INTERVAL else PING_INTERVAL in
      match last_ping_at p with Some t => interval <=? since now t | None => true end
  end.

Definition to_ping (now : Z) (s : MagicState) : list (list Z * list Z * SocketAddr) :=
  concat (map (fun '(node_pub, peer) =>
    map (fun a => (node_pub, disco_pub peer, a))
      (filter (fun a => path_needs_ping (paths peer !! a) now = true) (endpoints peer)))
    (iter_peers (peers s))).

Definition wants_cmm (now : Z) (s : MagicState) (node_pub : list Z) (peer : PeerState) : bool :=
  let ps := (iter_paths (paths peer)).*2 in
  if bool_decide (endpoints peer = []) then false
  else if existsb (path_alive now) ps then false
  else
    let earliest := min_by id (omap last_ping_at ps) in
    let stale_long_enough :=
      match earliest with Some t => CMM_TRIGGER_AFTER <=? since now t | None => false end in
    if negb stale_long_enough then false
    else match last_cmm_sent_at s !! node_pub with
         | Some t => negb (since now t <? CMM_RATE_LIMIT)
         | None => true
         end.

Definition cmm_one (now : Z) (eps : list SocketAddr) (w : Magic) (t : list Z * list Z) : Magic :=
  let '(nonce_, w) := draw NONCE_LEN w in
  match build_call_me_maybe t.2 eps nonce_ with
  | Ok bytes => queue_cmm now t.1 bytes w
  | Err _ => w
  end.

Definition cmm_pump (now : Z) (w : Magic) : Magic :=
  let s := ms w in
  match local_endpoints s with
  | [] => w
  | local =>
      let to_cmm := map (fun np => (np.1, disco_pub np.2))
                      (filter (fun np => wants_cmm now s np.1 np.2 = true) (iter_peers (peers s))) in
      let ep_slice := if decide (CMM_MAX_ENDPOINTS < length local)%nat
                      then take CMM_MAX_ENDPOINTS local else local in
      foldl (cmm_one now ep_slice) w to_cmm
  end.

Definition ping_pump (now : Z) (w : Magic) : Magic :=
  let w := foldl (fun w '(node_pub, peer_disco, addr) => ping_one now node_pub peer_disco w addr)
             w (to_ping now (ms w)) in
  cmm_pump now w.

(** ** The worker *)

Definition push_send_record (r : SendRecord) (log : list SendRecord) : list SendRecord :=
  let log := if decide (SEND_LOG_CAP <= length log)%nat then drop 1 log else log in
  log ++ [r].

Definition drain_one (w : Magic) (item : SocketAddr * list Z) : Magic :=
  let '(addr, bytes) := item in
  let '(r, w) := udp_send addr bytes w in
  let i := io w in
  with_io w (mkIo (draws i) (send_calls i) (wire i) (stun_results i) (ping_results i) (non_disco i)
               (tx_queue i)
               (push_send_record (mkSendRecord addr (default 0 (head bytes)) (length bytes) r) (send_log i))).

Definition drain_queue (w : Magic) : Magic :=
  let i := io w in
  foldl drain_one
    (with_io w (mkIo (draws i) (send_calls i) (wire i) (stun_results i) (ping_results i) (non_disco i)
                  [] (send_log i)))
    (tx_queue i).

(** One turn of the v4 worker: the gated ping pump, at most one datagram, the
    outbound queue.  The state is paired with the time of the last pump. *)
Definition worker_step (rx : option (SocketAddr * list Z)) (now : Z) (st : Magic * Z) : outcome (Magic * Z) :=
  let '(w, last_ping_pump) := st in
  let '(w, last_ping_pump) :=
    if HEARTBEAT_INTERVAL <=? since now last_ping_pump then (ping_pump now w, now)
    else (w, last_ping_pump) in
  w ← match rx with Some (src, bytes) => handle_recv bytes src now w | None => Val w end;
  Val (drain_queue w, last_ping_pump).

End Socket.

(** ** Every entry point of the socket, as data *)

Inductive MagicOp : Type :=
| OpUpsert (node disco : list Z) (eps : list SocketAddr) (now : Z)
| OpRemove (node : list Z)
| OpSetLocal (eps : list SocketAddr)
| OpTakeCmm
| OpSendTo (addr : SocketAddr) (bytes : list Z)
| OpSendDirect (addr : SocketAddr) (bytes : list Z)
| OpTakeRecords
| OpStunProbe (target : SocketAddr) (now : Z)
| OpPingNow (node : list Z) (now : Z)
| OpPingTimeout (tx_id : list Z)
| OpDiscoFromDerp (bytes : list Z) (now : Z)
| OpRecv (bytes : list Z) (src : SocketAddr) (now : Z)
| OpPump (now : Z)
| OpDrain.

Section Run.
Context `{CryptoBox}.
Context (os_rng : nat -> nat -> list Z) (udp_ret : nat -> nat -> option nat) (has_v6 : bool)
        (our_disco_priv our_node_pub : list Z)
        (iter_peers : gmap (list Z) PeerState -> list (list Z * PeerState))
        (iter_paths : gmap SocketAddr PathState -> list (SocketAddr * PathState)).

Definition run_op (op : MagicOp) (w : Magic) : outcome Magic :=
  match op with
  | OpUpsert node disco eps now => Val (upsert_peer iter_paths node disco eps now w)
  | OpRemove node => Val (remove_peer node w)
  | OpSetLocal eps => Val (set_local_endpoints eps w)
  | OpTakeCmm => Val (take_pending_cmm w).2
  | OpSendTo addr bytes => Val (send_to has_v6 addr bytes w).2
  | OpSendDirect addr bytes => Val (send_direct udp_ret has_v6 addr bytes w).2
  | OpTakeRecords => Val (take_send_records w).2
  | OpStunProbe target now => Val (stun_probe os_rng udp_ret has_v6 target now w).2
  | OpPingNow node now =>
      Val (ping_now_start os_rng udp_ret has_v6 our_disco_priv our_node_pub iter_paths node now w).2
  | OpPingTimeout tx => Val (ping_now_timeout tx w)
  | OpDiscoFromDerp bytes now =>
      Val (handle_disco_from_derp os_rng udp_ret has_v6 our_disco_priv our_node_pub bytes now w)
  | OpRecv bytes src now =>
      handle_recv os_rng udp_ret has_v6 our_disco_priv our_node_pub bytes src now w
  | OpPump now => Val (ping_pump os_rng udp_ret has_v6 our_disco_priv our_node_pub iter_peers iter_paths now w)
  | OpDrain => Val (drain_queue udp_ret w)
  end.
End Run.

(** * Invariant *)

(** The candidate list and the path table of a peer have the same addresses,
    and only addresses with a socket are ever pinged. *)
Definition peer_inv (has_v6 : bool) (p : PeerState) : Prop :=
  (forall a, a ∈ endpoints p <-> is_Some (paths p !! a)) /\
  (forall a q t, paths p !! a = Some q -> last_ping_at q = Some t -> for_addr has_v6 a = true).

(** The reverse index resolves a disco key only to a present peer that has it. *)
Record magic_inv (has_v6 : bool) (s : MagicState) : Prop := {
  inv_disco : forall d n, disco_to_node s !! d = Some n ->
                exists p, peers s !! n = Some p /\ disco_pub p = d;
  inv_peer : forall n p, peers s !! n = Some p -> peer_inv has_v6 p
}.

(** When was the path last validated? *)
Definition pong_at (s : MagicState) (n : list Z) (a : SocketAddr) : option Z :=
  p ← peers s !! n; q ← paths p !! a; last_pong_at q.

(** * Lemmas *)

(** ** [entry_path] *)

Lemma entry_path_lookup a f m b :
  entry_path a f m !! b = if decide (a = b) then Some (f (default PathState_new (m !! a))) else m !! b.
Proof.
  unfold entry_path. case_decide as E; [subst; apply lookup_insert_eq|by apply lookup_insert_ne].
Qed.

Lemma foldl_entry_path eps : forall m b,
  foldl (fun m a => entry_path a id m) m eps !! b
  = if decide (b ∈ eps) then Some (default PathState_new (m !! b)) else m !! b.
Proof.
  induction eps as [|a eps IH]; intros m b; cbn [foldl];
    [by rewrite decide_False by apply not_elem_of_nil|].
  rewrite IH, entry_path_lookup. destruct (decide (b ∈ eps)) as [Hin|Hin].
  - rewrite (decide_True (P := b ∈ a :: eps)) by (by right). by case_decide; subst.
  - case_decide as E; [subst; by rewrite decide_True by left|].
    rewrite decide_False; [done|]. rewrite elem_of_cons. naive_solver.
Qed.

(** ** Operations that leave the peers alone *)

(** [w'] differs from [w] neither in the peers nor in the reverse index. *)
Definition same_peers (w w' : Magic) : Prop :=
  peers (ms w') = peers (ms w) /\ disco_to_node (ms w') = disco_to_node (ms w).

#[global] Instance same_peers_preorder : PreOrder same_peers.
Proof. split; [done|]. intros x y z [E1 E2] [E3 E4]. split; congruence. Qed.

Lemma same_peers_inv v6 w w' : same_peers w w' -> magic_inv v6 (ms w) -> magic_inv v6 (ms w').
Proof. intros [E1 E2] []. split; by rewrite ?E1, ?E2. Qed.

Lemma same_peers_pong w w' n a : same_peers w w' -> pong_at (ms w') n a = pong_at (ms w) n a.
Proof. intros [E _]. unfold pong_at. by rewrite E. Qed.

Section SocketLemmas.
Context `{CryptoBox}.
Context {os_rng : nat -> nat -> list Z} {udp_ret : nat -> nat -> option nat} {has_v6 : bool}
        {our_disco_priv our_node_pub : list Z}.
#[local] Abbreviation ping_one' := (ping_one os_rng udp_ret has_v6 our_disco_priv our_node_pub).

Lemma encode_and_send_ping_peers d a tx w :
  ms (encode_and_send_ping os_rng udp_ret our_disco_priv our_node_pub d a tx w).2 = ms w.
Proof. unfold encode_and_send_ping. simpl. case_match; [|done]. by case_match. Qed.

Lemma send_ping_ms d a w r w' :
  send_ping os_rng udp_ret our_disco_priv our_node_pub d a w = (r, w') -> ms w' = ms w.
Proof.
  unfold send_ping. cbn [draw]. intros E.
  change w' with ((r, w').2). rewrite <- E. rewrite encode_and_send_ping_peers. done.
Qed.

Lemma send_pong_ms d a tx w : ms (send_pong os_rng udp_ret our_disco_priv d a tx w) = ms w.
Proof. unfold send_pong. simpl. by case_match. Qed.

(** A ping either changes nothing in the state or is recorded on its path. *)
Lemma ping_one_cases now n d w a :
  ms (ping_one' now n d w a) = ms w \/
  (for_addr has_v6 a = true /\ exists tx, ms (ping_one' now n d w a) = ms (record_ping now n a tx w)).
Proof.
  unfold ping_one. destruct (for_addr has_v6 a) eqn:Ef; [|by left].
  destruct (send_ping _ _ _ _ d a w) as [r w1] eqn:E. apply send_ping_ms in E.
  destruct r as [tx|e]; [|by left]. right. split; [done|]. exists tx.
  unfold record_ping, set_peers. cbn [ms]. by rewrite E.
Qed.

(** ** The invariant, operation by operation *)

Lemma inv_alter f n w :
  (forall p, disco_pub (f p) = disco_pub p) ->
  (forall p, peers (ms w) !! n = Some p -> peer_inv has_v6 p -> peer_inv has_v6 (f p)) ->
  magic_inv has_v6 (ms w) -> magic_inv has_v6 (ms (set_peers (alter f n) w)).
Proof.
  intros Hd Hp [I1 I2]. split; simpl.
  - intros d m Hm. destruct (I1 d m Hm) as (p & Hpm & Hdp).
    destruct (decide (m = n)) as [->|Hne].
    + exists (f p). rewrite lookup_alter_eq, Hpm. simpl. by rewrite Hd.
    + exists p. by rewrite lookup_alter_ne.
  - intros m p Hm. destruct (decide (m = n)) as [->|Hne].
    + rewrite lookup_alter_eq in Hm. destruct (peers (ms w) !! n) as [p0|] eqn:E; [|done].
      simpl in Hm. injection Hm as <-. eapply Hp; [done|]. by eapply I2.
    + rewrite lookup_alter_ne in Hm by done. by eapply I2.
Qed.

(** [a] is a candidate of the peer of [n], if there is one. *)
Definition candidate (n : list Z) (a : SocketAddr) (w : Magic) : Prop :=
  forall p, peers (ms w) !! n = Some p -> a ∈ endpoints p.

Lemma record_ping_inv now n a tx w :
  for_addr has_v6 a = true -> candidate n a w -> magic_inv has_v6 (ms w) ->
  magic_inv has_v6 (ms (record_ping now n a tx w)).
Proof.
  intros Hf Hc. apply inv_alter; [done|]. intros p Hp [P1 P2]. split; simpl.
  - intros b. rewrite P1, entry_path_lookup. case_decide as E; [|done]. subst b.
    split; [eauto|]. intros _. apply P1. by apply Hc.
  - intros b q t. rewrite entry_path_lookup. case_decide as E; [by subst b|]. apply P2.
Qed.

Lemma record_ping_candidate now n a tx w m b :
  candidate m b w -> candidate m b (record_ping now n a tx w).
Proof.
  intros Hc p. unfold record_ping, set_peers. cbn [ms peers].
  destruct (decide (m = n)) as [->|Hne].
  - rewrite lookup_alter_eq. destruct (peers (ms w) !! n) eqn:E; [|done]. intros [= <-]. cbn [endpoints]. by apply Hc.
  - rewrite lookup_alter_ne by done. apply Hc.
Qed.

(** A burst of pings to candidates. *)
Lemma ping_burst_inv now l : forall w,
  (forall n d a, (n, d, a) ∈ l -> candidate n a w) -> magic_inv has_v6 (ms w) ->
  magic_inv has_v6 (ms (foldl (fun w '(n, d, a) => ping_one' now n d w a) w l)).
Proof.
  induction l as [|[[n d] a] l IH]; intros w Hc Hi; [done|]. cbn [foldl]. apply IH.
  - intros m e b Hb. assert (Hm : candidate m b w) by (apply (Hc m e b); by apply elem_of_cons; right).
    destruct (ping_one_cases now n d w a) as [E|(_ & tx & E)]; unfold candidate; rewrite E;
      [done|by apply record_ping_candidate].
  - destruct (ping_one_cases now n d w a) as [E|(Hf & tx & E)]; rewrite E; [done|].
    apply record_ping_inv; [done| |done]. apply (Hc n d a). apply elem_of_cons. by left.
Qed.

Lemma merge_endpoint_inv p ep : peer_inv has_v6 p -> peer_inv has_v6 (merge_endpoint p ep).
Proof.
  intros [P1 P2]. split; simpl.
  - intros b. rewrite entry_path_lookup. unfold mem_sa. case_bool_decide as Hm.
    + rewrite P1. case_decide as E; [subst; split; [eauto|intros _; by apply P1]|done].
    + rewrite elem_of_app, list_elem_of_singleton, P1. case_decide as E; [subst; split; eauto|].
      split; [intros [?|?]; [done|congruence]|auto].
  - intros b q t. rewrite entry_path_lookup. case_decide as E; [|apply P2]. subst b.
    intros [= <-]. unfold id. destruct (paths p !! ep) eqn:Ep; simpl; [by eapply P2|done].
Qed.

Lemma merge_all_spec eps : forall p,
  let p' := foldl merge_endpoint p eps in
  disco_pub p' = disco_pub p /\ (peer_inv has_v6 p -> peer_inv has_v6 p') /\
  (forall a, a ∈ eps -> a ∈ endpoints p') /\ (forall a, a ∈ endpoints p -> a ∈ endpoints p') /\
  (forall a, paths p' !! a = if decide (a ∈ eps) then Some (default PathState_new (paths p !! a))
                             else paths p !! a).
Proof.
  induction eps as [|ep eps IH]; intros p; cbn [foldl].
  { split_and!; try done. intros a Ha. by apply elem_of_nil in Ha. }
  destruct (IH (merge_endpoint p ep)) as (D & I & A1 & A2 & P).
  split; [done|]. split; [intros Hp; by apply I, merge_endpoint_inv|]. split_and!.
  - intros a [->|Ha]%elem_of_cons; [|by apply A1]. apply A2. simpl. unfold mem_sa.
    case_bool_decide; [done|]. apply elem_of_app. right. by apply list_elem_of_singleton.
  - intros a Ha. apply A2. simpl. unfold mem_sa. case_bool_decide; [done|]. apply elem_of_app. by left.
  - intros a. rewrite P. cbn [merge_endpoint paths]. rewrite entry_path_lookup.
    destruct (decide (a ∈ eps)) as [Hin|Hin].
    + rewrite (decide_True (P := a ∈ ep :: eps)) by (by right). case_decide; by subst.
    + case_decide as E; [subst; by rewrite decide_True by left|].
      rewrite decide_False; [done|]. rewrite elem_of_cons. naive_solver.
Qed.

(** The pings of a call-me-maybe as a burst. *)
Lemma ping_all_burst now n d l : forall w,
  foldl (ping_one' now n d) w l
  = foldl (fun w '(n, d, a) => ping_one' now n d w a) w (map (fun a => (n, d, a)) l).
Proof. induction l as [|a l IH]; intros w; [done|]. cbn [map foldl]. apply IH. Qed.

Lemma insert_peer_inv n p p' w :
  peers (ms w) !! n = Some p -> disco_pub p' = disco_pub p -> peer_inv has_v6 p' ->
  magic_inv has_v6 (ms w) -> magic_inv has_v6 (ms (set_peers (<[n := p']>) w)).
Proof.
  intros Hn Hd Hp [I1 I2]. split; simpl.
  - intros d m Hm. destruct (I1 d m Hm) as (q & Hq & Hdq). destruct (decide (m = n)) as [->|Hne].
    + exists p'. rewrite lookup_insert_eq. split; [done|]. congruence.
    + exists q. by rewrite lookup_insert_ne.
  - intros m q [[<- <-]|[_ Hq]]%lookup_insert_Some; [done|]. by eapply I2.
Qed.

Lemma handle_cmm_inv sender cmm now w :
  magic_inv has_v6 (ms w) ->
  magic_inv has_v6 (ms (handle_call_me_maybe os_rng udp_ret has_v6 our_disco_priv our_node_pub sender cmm now w)).
Proof.
  intros Hi. unfold handle_call_me_maybe.
  destruct (disco_to_node (ms w) !! sender) as [n|] eqn:Hn; [|done].
  destruct (peers (ms w) !! n) as [p|] eqn:Hp; [|done].
  set (l := map socket_addr _). destruct (merge_all_spec l p) as (D & I & A1 & _ & _).
  rewrite ping_all_burst. apply ping_burst_inv.
  - intros m d a (x & [= -> -> ->] & Ha)%list_elem_of_fmap q.
    cbn [set_peers ms peers]. rewrite lookup_insert_eq. intros [= <-]. by apply A1.
  - eapply insert_peer_inv; [done|done|apply I; by eapply Hi|done].
Qed.

Lemma remove_peer_inv n w : magic_inv has_v6 (ms w) -> magic_inv has_v6 (ms (remove_peer n w)).
Proof.
  intros [I1 I2]. unfold remove_peer. destruct (peers (ms w) !! n) as [p|] eqn:Hn; [|done].
  split; simpl.
  - intros d m [Hd Hm]%lookup_delete_Some. destruct (I1 d m Hm) as (q & Hq & Hdq).
    exists q. split; [|done]. rewrite lookup_delete_ne; [done|]. intros ->. congruence.
  - intros m q [_ Hq]%lookup_delete_Some. by eapply I2.
Qed.

Lemma learn_source_spec now src p :
  disco_pub (learn_source now src p) = disco_pub p /\
  (peer_inv has_v6 p -> peer_inv has_v6 (learn_source now src p)).
Proof.
  unfold learn_source. destruct (paths p !! src) as [q|] eqn:Eq.
  - split; [done|]. intros [P1 P2]. split; simpl.
    + intros b. rewrite P1. destruct (decide (src = b)) as [->|].
      * by rewrite lookup_insert_eq, Eq.
      * by rewrite lookup_insert_ne.
    + intros b r t [[<- <-]|[_ Hr]]%lookup_insert_Some; [|by eapply P2]. by eapply (P2 src q).
  - case_decide; [|done]. split; [done|]. intros [P1 P2]. split; simpl.
    + intros b. unfold mem_sa. rewrite bool_decide_eq_false_2.
      2: { rewrite P1, Eq. by intros []. }
      rewrite elem_of_app, list_elem_of_singleton, P1. destruct (decide (src = b)) as [->|].
      * rewrite lookup_insert_eq. split; eauto.
      * rewrite lookup_insert_ne by done. split; [intros [?|?]; [done|congruence]|auto].
    + intros b r t [[<- <-]|[_ Hr]]%lookup_insert_Some; [done|by eapply P2].
Qed.

Context {iter_peers : gmap (list Z) PeerState -> list (list Z * PeerState)}
        {iter_paths : gmap SocketAddr PathState -> list (SocketAddr * PathState)}
        (iter_peers_perm : forall m, iter_peers m ≡ₚ map_to_list m)
        (iter_paths_perm : forall m, iter_paths m ≡ₚ map_to_list m).

Lemma iter_paths_elem m a q : (a, q) ∈ iter_paths m <-> m !! a = Some q.
Proof. rewrite iter_paths_perm. apply elem_of_map_to_list. Qed.

Lemma iter_peers_elem m n p : (n, p) ∈ iter_peers m <-> m !! n = Some p.
Proof. rewrite iter_peers_perm. apply elem_of_map_to_list. Qed.

Lemma upsert_peer_inv n d eps now w :
  magic_inv has_v6 (ms w) -> magic_inv has_v6 (ms (upsert_peer iter_paths n d eps now w)).
Proof.
  intros [I1 I2]. unfold upsert_peer. cbn [set_disco set_peers ms peers disco_to_node].
  set (entry := default (mkPeerState d [] ∅) (peers (ms w) !! n)).
  assert (He : peer_inv has_v6 entry).
  { subst entry. destruct (peers (ms w) !! n) as [p|] eqn:E; [by eapply I2|]. split; simpl.
    - intros a. rewrite lookup_empty. split; [by intros ?%elem_of_nil|by intros []].
    - intros a q t. by rewrite lookup_empty. }
  set (kept := filter _ (paths entry)).
  split; cbn [peers disco_to_node].
  - intros d' m [[<- <-]|[Hd Hm]]%lookup_insert_Some.
    { eexists. by rewrite lookup_insert_eq. }
    apply map_lookup_filter_Some in Hm as [Hm Hne]. simpl in Hne.
    destruct (I1 d' m Hm) as (p & Hp & Hdp). exists p. by rewrite lookup_insert_ne by done.
  - intros m p [[<- <-]|[_ Hp]]%lookup_insert_Some; [|by eapply I2]. split; cbn [endpoints paths].
    + intros a. rewrite foldl_entry_path, elem_of_app, list_elem_of_filter. unfold mem_sa.
      destruct (decide (a ∈ eps)) as [Ha|Ha]; [split; eauto|].
      rewrite bool_decide_eq_false_2 by done. rewrite list_elem_of_fmap. split.
      * intros [?|(_ & [b q] & -> & Hq%iter_paths_elem)]; [done|]. eauto.
      * intros [q Hq]. right. split; [done|]. exists (a, q). split; [done|]. by apply iter_paths_elem.
    + intros a q t. rewrite foldl_entry_path. intros Hq Ht.
      assert (Hk : forall r, kept !! a = Some r -> paths entry !! a = Some r).
      { intros r Hr. by apply map_lookup_filter_Some in Hr as [Hr _]. }
      case_decide; [|eapply He; eauto]. injection Hq as <-.
      destruct (kept !! a) as [r|] eqn:Er; [|done]. eapply He; eauto.
Qed.

Lemma handle_ping_inv sender src ping now w :
  magic_inv has_v6 (ms w) ->
  magic_inv has_v6 (ms (handle_ping os_rng udp_ret our_disco_priv sender src ping now w)).
Proof.
  intros Hi. unfold handle_ping. rewrite send_pong_ms. case_match; [|done].
  apply inv_alter; [intros p; apply (learn_source_spec now src p)| |done].
  intros p _. apply learn_source_spec.
Qed.

Lemma handle_pong_inv sender src pong now w :
  magic_inv has_v6 (ms w) -> magic_inv has_v6 (ms (handle_pong sender src pong now w)).
Proof.
  intros Hi. unfold handle_pong.
  set (w1 := match ping_outstanding (ms w) !! pong_tx_id pong with Some _ => _ | None => w end).
  assert (Hs : same_peers w w1) by (subst w1; by repeat case_match).
  assert (Hi1 : magic_inv has_v6 (ms w1)) by by eapply same_peers_inv. clearbody w1.
  case_match; [|done]. apply inv_alter; [done| |done]. intros p _ [P1 P2].
  assert (Hacc : forall q, last_ping_at (accept_pong now (pong_tx_id pong) q) = last_ping_at q)
    by (intros q; unfold accept_pong; by case_decide).
  split; simpl.
  - intros a. rewrite P1. destruct (decide (src = a)) as [->|].
    + rewrite lookup_alter_eq. by rewrite fmap_is_Some.
    + by rewrite lookup_alter_ne.
  - intros a q t Hq Ht. destruct (decide (src = a)) as [->|].
    + rewrite lookup_alter_eq in Hq. destruct (paths p !! a) as [r|] eqn:Er; [|done].
      simpl in Hq. injection Hq as <-. rewrite Hacc in Ht. by eapply P2.
    + rewrite lookup_alter_ne in Hq by done. by eapply P2.
Qed.

Lemma cmm_fold_peers now eps l : forall w, same_peers w
  (foldl (cmm_one os_rng our_disco_priv now eps) w l).
Proof.
  induction l as [|t l IH]; intros w; [done|]. cbn [foldl]. etransitivity; [|apply IH].
  unfold cmm_one. simpl. by case_match.
Qed.

Lemma cmm_pump_peers now w :
  same_peers w (cmm_pump os_rng our_disco_priv iter_peers iter_paths now w).
Proof.
  unfold cmm_pump. destruct (local_endpoints (ms w)) as [|e l]; [done|]. apply cmm_fold_peers.
Qed.

Lemma to_ping_elem now s n d a :
  (n, d, a) ∈ to_ping iter_peers now s <->
  exists p, peers s !! n = Some p /\ disco_pub p = d /\ a ∈ endpoints p /\
            path_needs_ping (paths p !! a) now = true.
Proof.
  unfold to_ping. rewrite list_elem_of_In, in_concat. setoid_rewrite <- list_elem_of_In. split.
  - intros (l & ([m p] & -> & Hp%iter_peers_elem)%list_elem_of_fmap & Hl).
    apply list_elem_of_fmap in Hl as (b & [= -> -> ->] & [Hb1 Hb2]%list_elem_of_filter). eauto 10.
  - intros (p & Hp & <- & Ha & Hn). eexists. split.
    { apply list_elem_of_fmap. exists (n, p). split; [done|]. by apply iter_peers_elem. }
    simpl. apply list_elem_of_fmap. exists a. split; [done|]. by apply list_elem_of_filter.
Qed.

Lemma ping_pump_inv now w :
  magic_inv has_v6 (ms w) ->
  magic_inv has_v6 (ms (ping_pump os_rng udp_ret has_v6 our_disco_priv our_node_pub iter_peers iter_paths now w)).
Proof.
  intros Hi. unfold ping_pump. eapply same_peers_inv; [apply cmm_pump_peers|].
  apply ping_burst_inv; [|done]. intros n d a (p & Hp & _ & Ha & _)%to_ping_elem q Hq. congruence.
Qed.

Lemma drain_same l : forall w, same_peers w (foldl (drain_one udp_ret) w l).
Proof.
  induction l as [|[a b] l IH]; intros w; [done|]. cbn [foldl]. etransitivity; [|apply IH]. done.
Qed.

(** ** Validation times only come from pongs *)

Definition pong_le (w w' : Magic) : Prop :=
  forall n a t, pong_at (ms w') n a = Some t -> pong_at (ms w) n a = Some t.

#[local] Instance pong_le_preorder : PreOrder pong_le.
Proof. split; [by intros w n a t|]. intros x y z H1 H2 n a t Ht. auto. Qed.

Lemma same_peers_pong_le w w' : same_peers w w' -> pong_le w w'.
Proof. intros Hs n a t. by rewrite (same_peers_pong _ _ _ _ Hs). Qed.

(** The peer-level condition under which an update adds no validation. *)
Definition no_new_pong (p p' : PeerState) : Prop :=
  forall a t, (paths p' !! a ≫= last_pong_at) = Some t -> (paths p !! a ≫= last_pong_at) = Some t.

Lemma insert_pong_le n p p' w :
  peers (ms w) !! n = Some p -> no_new_pong p p' -> pong_le w (set_peers (<[n := p']>) w).
Proof.
  intros Hp Hn m a t. unfold pong_at. cbn [set_peers ms peers].
  destruct (decide (m = n)) as [->|].
  - rewrite lookup_insert_eq, Hp. apply Hn.
  - by rewrite lookup_insert_ne.
Qed.

Lemma alter_pong_le f n w : (forall p, no_new_pong p (f p)) -> pong_le w (set_peers (alter f n) w).
Proof.
  intros Hf m a t. unfold pong_at. cbn [set_peers ms peers]. destruct (decide (m = n)) as [->|].
  - rewrite lookup_alter_eq. destruct (peers (ms w) !! n) as [p|]; [|done]. apply Hf.
  - by rewrite lookup_alter_ne.
Qed.

Lemma record_ping_pong_le now n a tx w : pong_le w (record_ping now n a tx w).
Proof.
  apply alter_pong_le. intros p b t. cbn [paths]. rewrite entry_path_lookup. case_decide; [|done].
  subst b. simpl. by destruct (paths p !! a).
Qed.

Lemma ping_burst_pong_le now l : forall w,
  pong_le w (foldl (fun w '(n, d, a) => ping_one' now n d w a) w l).
Proof.
  induction l as [|[[n d] a] l IH]; intros w; [done|]. cbn [foldl]. etransitivity; [|apply IH].
  intros m b t. destruct (ping_one_cases now n d w a) as [E|(_ & tx & E)]; rewrite E; [done|].
  apply record_ping_pong_le.
Qed.

Lemma handle_cmm_pong_le sender cmm now w :
  pong_le w (handle_call_me_maybe os_rng udp_ret has_v6 our_disco_priv our_node_pub sender cmm now w).
Proof.
  unfold handle_call_me_maybe. destruct (disco_to_node (ms w) !! sender) as [n|]; [|done].
  destruct (peers (ms w) !! n) as [p|] eqn:Hp; [|done].
  rewrite ping_all_burst. etransitivity; [|apply ping_burst_pong_le].
  eapply insert_pong_le; [done|]. intros a t.
  destruct (merge_all_spec (map socket_addr (cmm_endpoints cmm)) p) as (_ & _ & _ & _ & ->).
  case_decide; [|done]. by destruct (paths p !! a).
Qed.

Lemma handle_ping_pong_le sender src ping now w :
  pong_le w (handle_ping os_rng udp_ret our_disco_priv sender src ping now w).
Proof.
  unfold handle_ping. intros n a t. rewrite send_pong_ms. revert n a t.
  destruct (disco_to_node (ms w) !! sender) as [n|]; [|done].
  apply alter_pong_le. intros p a t. unfold learn_source.
  destruct (paths p !! src) as [q|] eqn:E; [|case_decide; [|done]]; cbn [paths];
    (destruct (decide (a = src)) as [->|];
     [rewrite lookup_insert_eq, E; done|by rewrite lookup_insert_ne]).
Qed.

Lemma remove_peer_pong_le n w : pong_le w (remove_peer n w).
Proof.
  unfold remove_peer. destruct (peers (ms w) !! n) as [p|]; [|done].
  intros m a t. unfold pong_at. cbn [set_disco set_peers ms peers].
  destruct (decide (m = n)) as [->|]; [by rewrite lookup_delete_eq|by rewrite lookup_delete_ne].
Qed.

Lemma upsert_peer_pong_le n d eps now w : pong_le w (upsert_peer iter_paths n d eps now w).
Proof.
  intros m a t. unfold pong_at, upsert_peer. cbn [set_disco set_peers ms peers].
  destruct (decide (m = n)) as [->|]; [|by rewrite lookup_insert_ne].
  rewrite lookup_insert_eq. simpl. rewrite foldl_entry_path. set (kept := filter _ _).
  assert (Hk : forall q, kept !! a = Some q -> last_pong_at q = Some t ->
                    (p ← peers (ms w) !! n; q ← paths p !! a; last_pong_at q) = Some t).
  { intros q Hq Ht. apply map_lookup_filter_Some in Hq as [Hq _].
    destruct (peers (ms w) !! n) as [p|]; simpl in *; [by rewrite Hq|].
    by rewrite lookup_empty in Hq. }
  destruct (kept !! a) as [q|] eqn:Eq; case_decide; simpl; eauto; done.
Qed.

(** [handle_pong] validates only the path the pong came over, and only if it
    carries the transaction id of that path's outstanding ping. *)
Lemma handle_pong_at sender src pong now w n a t :
  pong_at (ms (handle_pong sender src pong now w)) n a = Some t ->
  pong_at (ms w) n a = Some t \/
  (t = now /\ a = src /\ disco_to_node (ms w) !! sender = Some n /\
   exists p q, peers (ms w) !! n = Some p /\ paths p !! a = Some q /\
               outstanding_tx_id q = Some (pong_tx_id pong)).
Proof.
  unfold handle_pong.
  set (w1 := match ping_outstanding (ms w) !! pong_tx_id pong with Some _ => _ | None => w end).
  assert (Hs : same_peers w w1) by (subst w1; by repeat case_match). destruct Hs as [Ep Ed]. clearbody w1.
  rewrite Ed. destruct (disco_to_node (ms w) !! sender) as [m|] eqn:Em.
  2: { unfold pong_at. rewrite Ep. auto. }
  unfold pong_at. cbn [set_peers ms peers]. rewrite Ep.
  destruct (decide (m = n)) as [->|]; [|rewrite lookup_alter_ne by done; auto].
  rewrite lookup_alter_eq. destruct (peers (ms w) !! n) as [p|] eqn:Hp; [|auto]. simpl.
  destruct (decide (src = a)) as [->|]; [|rewrite lookup_alter_ne by done; auto].
  rewrite lookup_alter_eq. destruct (paths p !! a) as [q|] eqn:Eq; [|auto]. simpl.
  unfold accept_pong. case_decide as Htx; [|auto]. simpl. intros [= <-]. right. eauto 10.
Qed.

(** ** The ping pump keeps every pinged path fresh *)

Definition lping (w : Magic) (n : list Z) (a : SocketAddr) : option Z :=
  p ← peers (ms w) !! n; q ← paths p !! a; last_ping_at q.

Definition has_path (w : Magic) (n : list Z) (a : SocketAddr) : Prop :=
  exists p q, peers (ms w) !! n = Some p /\ paths p !! a = Some q.

Lemma record_ping_lping now n a tx w m b :
  has_path w n a ->
  lping (record_ping now n a tx w) m b
  = if decide (m = n /\ b = a) then Some now else lping w m b.
Proof.
  intros (p & q & Hp & Hq). unfold lping, record_ping. cbn [set_peers ms peers].
  destruct (decide (m = n)) as [->|Hne].
  2: { rewrite lookup_alter_ne by done. rewrite decide_False; [done|naive_solver]. }
  rewrite lookup_alter_eq, Hp. simpl. rewrite entry_path_lookup.
  destruct (decide (a = b)) as [->|Hab]; [by rewrite decide_True|].
  rewrite decide_False; [done|]. naive_solver.
Qed.

Lemma record_ping_has_path now n a tx w m b :
  has_path w m b -> has_path (record_ping now n a tx w) m b.
Proof.
  intros (p & q & Hp & Hq). unfold has_path, record_ping. cbn [set_peers ms peers].
  destruct (decide (m = n)) as [->|].
  - rewrite lookup_alter_eq, Hp.
    destruct (decide (a = b)) as [->|Hab]; eexists _, _; (split; [done|]); cbn [paths];
      rewrite entry_path_lookup; [by rewrite decide_True|by rewrite decide_False].
  - rewrite lookup_alter_ne by done. eauto.
Qed.

Lemma ping_burst_has_path now l : forall w m b,
  has_path w m b -> has_path (foldl (fun w '(n, d, a) => ping_one' now n d w a) w l) m b.
Proof.
  induction l as [|[[n d] a] l IH]; intros w m b Hp; [done|]. cbn [foldl]. apply IH.
  destruct (ping_one_cases now n d w a) as [E|(_ & tx & E)]; unfold has_path; rewrite E; [done|].
  by apply record_ping_has_path.
Qed.

End SocketLemmas.

(** * When every send works *)

(** The environment of a healthy socket: draws have the length asked for, the
    box seals, [sendto] accepts every datagram. *)
Class Healthy `{CryptoBox} (os_rng : nat -> nat -> list Z) (udp_ret : nat -> nat -> option nat) : Prop := {
  rng_len : forall k n, length (os_rng k n) = n;
  rng_wf : forall k n, bytes_wf (os_rng k n);
  seals : forall pk sk n m, is_Some (box_seal pk sk n m);
  sendto_accepts : forall k n, is_Some (udp_ret k n)
}.

Section HealthyLemmas.
Context `{CryptoBoxLaws}.
Context {os_rng : nat -> nat -> list Z} {udp_ret : nat -> nat -> option nat} `{!Healthy os_rng udp_ret}.
Context {has_v6 : bool} {our_disco_priv our_node_pub : list Z}.
#[local] Abbreviation ping_one' := (ping_one os_rng udp_ret has_v6 our_disco_priv our_node_pub).

Lemma encrypt_ok p sk pk n :
  length n = NONCE_LEN -> exists q, encrypt_in_place p sk pk n = Ok q.
Proof.
  intros Hn. unfold encrypt_in_place. destruct (seals pk sk n (pkt_payload p)) as [[ct tag] E]. rewrite E.
  destruct (box_seal_sizes _ _ _ _ _ _ E) as [_ Ht]. eexists. apply packet_view_bytes; [|done].
  apply Header_new_wf; [apply box_public_key_len|done].
Qed.

Lemma ping_packet_ok d tx n :
  length n = NONCE_LEN ->
  exists p q, init_from_bytes (replicate (size_for_message (ping_size_with_padding 0)) 0)
                (fun ping => mkPing tx our_node_pub (ping_padding ping)) = Ok p /\
    encrypt_in_place p our_disco_priv d n = Ok q /\
    ping_packet our_disco_priv our_node_pub d tx n = Ok (packet_bytes q).
Proof.
  intros Hn. destruct (init_from_bytes_ok (replicate (size_for_message (ping_size_with_padding 0)) 0)
    (fun ping => mkPing tx our_node_pub (ping_padding ping)) (mkPing (replicate 12 0) (replicate 32 0) [])) as [p E].
  { vm_compute. lia. } { vm_compute. reflexivity. }
  destruct (encrypt_ok p our_disco_priv d n Hn) as [q Hq]. exists p, q. split; [done|]. split; [done|].
  unfold ping_packet. rewrite E. unfold mbind, result_bind. by rewrite Hq.
Qed.

Lemma ping_one_sent now n d w a :
  for_addr has_v6 a = true ->
  exists tx, ms (ping_one' now n d w a) = ms (record_ping now n a tx w).
Proof.
  intros Hf. unfold ping_one. rewrite Hf.
  destruct (send_ping _ _ _ _ d a w) as [r w1] eqn:E. pose proof (send_ping_ms _ _ _ _ _ E) as Hm.
  unfold send_ping, encode_and_send_ping in E. cbn [draw] in E.
  destruct (ping_packet_ok d (os_rng (draws (io w)) 12) (os_rng (S (draws (io w))) NONCE_LEN))
    as (p & q & _ & _ & Hpp); [apply rng_len|].
  cbn [with_io io draws] in E. rewrite Hpp in E. unfold udp_send in E. simpl in E.
  match type of E with context [udp_ret ?k ?l] => destruct (sendto_accepts k l) as [m Em] end.
  rewrite Em in E. injection E as <- <-. eexists. done.
Qed.

Lemma ping_burst_lping now l : forall w,
  (forall n d a, (n, d, a) ∈ l -> has_path w n a) ->
  forall m b, lping (foldl (fun w '(n, d, a) => ping_one' now n d w a) w l) m b =
    if decide (for_addr has_v6 b = true /\ (m, b) ∈ map (fun x => (x.1.1, x.2)) l) then Some now
    else lping w m b.
Proof.
  induction l as [|[[n d] a] l IH]; intros w Hp m b; cbn [foldl map].
  { rewrite decide_False; [done|]. intros [_ ?%elem_of_nil]. done. }
  assert (Hstep : (forall m b, has_path w m b -> has_path (ping_one' now n d w a) m b) /\
                  lping (ping_one' now n d w a) m b =
                  if decide (for_addr has_v6 a = true /\ m = n /\ b = a) then Some now else lping w m b).
  { destruct (for_addr has_v6 a) eqn:Hf.
    - destruct (ping_one_sent now n d w a Hf) as [tx E]. unfold has_path, lping. rewrite E. split.
      + intros m' b'. apply record_ping_has_path.
      + change (lping (record_ping now n a tx w) m b = if decide (true = true /\ m = n /\ b = a) then Some now else lping w m b).
        rewrite record_ping_lping by (apply (Hp n d a); by apply elem_of_cons; left).
        destruct (decide (m = n /\ b = a)) as [?|?]; [by rewrite decide_True|rewrite decide_False; naive_solver].
    - unfold ping_one. rewrite Hf. split; [done|]. rewrite decide_False; [done|naive_solver]. }
  destruct Hstep as [Hhas Hl]. rewrite IH.
  2: { intros n' d' a' Hin. apply Hhas. apply (Hp n' d' a'). apply elem_of_cons. by right. }
  rewrite Hl. cbn [fst snd]. destruct (decide (for_addr has_v6 b = true /\ (m, b) ∈ map _ l)) as [[Hf Hin]|Hn].
  - rewrite decide_True; [done|]. split; [done|]. apply elem_of_cons. by right.
  - destruct (decide (for_addr has_v6 a = true /\ m = n /\ b = a)) as [(Hf & -> & ->)|Hne].
    + rewrite decide_True; [done|]. split; [done|]. apply elem_of_cons. by left.
    + rewrite decide_False; [done|]. intros [Hf [?|?]%elem_of_cons]; naive_solver.
Qed.

Context {iter_peers : gmap (list Z) PeerState -> list (list Z * PeerState)}
        {iter_paths : gmap SocketAddr PathState -> list (SocketAddr * PathState)}
        (iter_peers_perm : forall m, iter_peers m ≡ₚ map_to_list m)
        (iter_paths_perm : forall m, iter_paths m ≡ₚ map_to_list m).

(** After the pings of a pump, no path's latest ping is older than the retry
    interval. *)
Lemma pump_pings_fresh now w m b t :
  magic_inv has_v6 (ms w) ->
  lping (foldl (fun w '(n, d, a) => ping_one' now n d w a) w (to_ping iter_peers now (ms w))) m b = Some t ->
  since now t < PING_INTERVAL.
Proof.
  intros Hi Hl. rewrite ping_burst_lping in Hl.
  2: { intros n d a (p & Hp & _ & Ha & _)%to_ping_elem; [|done].
       apply (inv_peer _ _ Hi _ _ Hp) in Ha as [q Hq]. by exists p, q. }
  case_decide as Hd.
  - injection Hl as <-. unfold since, PING_INTERVAL, SEC. lia.
  - unfold lping in Hl. destruct (peers (ms w) !! m) as [p|] eqn:Hp; [|done]. simpl in Hl.
    destruct (paths p !! b) as [q|] eqn:Hq; [|done]. simpl in Hl.
    destruct (inv_peer _ _ Hi _ _ Hp) as [P1 P2].
    destruct (path_needs_ping (paths p !! b) now) eqn:Hn.
    + exfalso. apply Hd. split; [by eapply P2|]. apply list_elem_of_fmap.
      exists (m, disco_pub p, b). split; [done|]. apply to_ping_elem; [done|].
      exists p. split_and!; [done|done| |done]. apply P1. eauto.
    + rewrite Hq in Hn. unfold path_needs_ping in Hn. rewrite Hl in Hn.
      apply Z.leb_gt in Hn. unfold PING_INTERVAL, HEARTBEAT_INTERVAL, SEC in *.
      destruct (path_alive now q); lia.
Qed.

Lemma min_by_elem {A} (key : A -> Z) l x : min_by key l = Some x -> x ∈ l.
Proof.
  unfold min_by. assert (Hg : forall acc, foldl (fun acc x => match acc with
    | None => Some x | Some y => if key x <? key y then Some x else acc end) acc l = Some x ->
    x ∈ l \/ acc = Some x).
  { induction l as [|y l IH]; intros acc E; cbn [foldl] in E; [auto|].
    apply IH in E as [E|E]; [left; by apply elem_of_cons; right|].
    destruct acc as [z|]; [destruct (key y <? key z)|]; simplify_eq; rewrite elem_of_cons; auto. }
  intros E. by destruct (Hg None E).
Qed.

Lemma min_by_fold_le {A} (key : A -> Z) l : forall acc x y,
  foldl (fun acc x => match acc with
    | None => Some x | Some y => if key x <? key y then Some x else acc end) acc l = Some x ->
  y ∈ l \/ acc = Some y -> key x <= key y.
Proof.
  induction l as [|z l IH]; intros acc x y E Hy; cbn [foldl] in E.
  - destruct Hy as [Hy|Hy]; [by apply elem_of_nil in Hy|]. simplify_eq. lia.
  - destruct Hy as [[->|Hy]%elem_of_cons|Hy].
    + destruct acc as [u|]; [|eapply IH; eauto].
      destruct (Z.ltb_spec (key z) (key u)); [eapply IH; eauto|].
      transitivity (key u); [eapply IH; eauto|lia].
    + eapply IH; eauto.
    + subst acc. destruct (Z.ltb_spec (key z) (key y)); [|eapply IH; eauto].
      transitivity (key z); [eapply IH; eauto|lia].
Qed.

Lemma min_by_le {A} (key : A -> Z) l x y : min_by key l = Some x -> y ∈ l -> key x <= key y.
Proof. intros E Hy. eapply min_by_fold_le; eauto. Qed.

Lemma min_by_none {A} (key : A -> Z) l : min_by key l = None -> l = [].
Proof.
  destruct l as [|x l]; [done|]. unfold min_by. cbn [foldl].
  assert (Hg : forall l (y : A), foldl (fun acc x => match acc with
    | None => Some x | Some y => if key x <? key y then Some x else acc end) (Some y) l <> None).
  { clear. induction l as [|z l IH]; intros y; cbn [foldl]; [done|]. destruct (_ <? _); apply IH. }
  intros E. by apply Hg in E.
Qed.

Lemma ping_burst_cmm now l : forall w,
  cmm_pending (ms (foldl (fun w '(n, d, a) => ping_one' now n d w a) w l)) = cmm_pending (ms w).
Proof.
  induction l as [|[[n d] a] l IH]; intros w; [done|]. cbn [foldl]. rewrite IH.
  by destruct (ping_one_cases (os_rng := os_rng) (udp_ret := udp_ret) (has_v6 := has_v6)
    (our_disco_priv := our_disco_priv) (our_node_pub := our_node_pub) now n d w a) as [->|(_ & tx & ->)].
Qed.

Lemma wants_cmm_fresh now s n p :
  (forall a q t, paths p !! a = Some q -> last_ping_at q = Some t -> since now t < PING_INTERVAL) ->
  wants_cmm iter_paths now s n p = false.
Proof.
  intros Hf. unfold wants_cmm. case_bool_decide; [done|]. destruct (existsb _ _); [done|].
  destruct (min_by id (omap last_ping_at (iter_paths (paths p)).*2)) as [t|] eqn:E; [|done].
  apply min_by_elem in E. apply list_elem_of_omap in E as (q & Hq & Hl).
  apply list_elem_of_fmap in Hq as ([a q'] & -> & Ha). apply iter_paths_elem in Ha; [|done].
  specialize (Hf a q' t Ha Hl). unfold PING_INTERVAL, CMM_TRIGGER_AFTER, SEC in *.
  rewrite (proj2 (Z.leb_gt _ _)) by lia. done.
Qed.

End HealthyLemmas.

(** * Running the socket *)

Section RunLemmas.
Context `{CryptoBox}.
Context (os_rng : nat -> nat -> list Z) (udp_ret : nat -> nat -> option nat) (has_v6 : bool)
        (our_disco_priv our_node_pub : list Z)
        (iter_peers : gmap (list Z) PeerState -> list (list Z * PeerState))
        (iter_paths : gmap SocketAddr PathState -> list (SocketAddr * PathState)).
#[local] Abbreviation run := (run_op os_rng udp_ret has_v6 our_disco_priv our_node_pub iter_peers iter_paths).

Fixpoint run_ops (ops : list MagicOp) (w : Magic) : outcome Magic :=
  match ops with
  | [] => Val w
  | op :: ops => w ← run op w; run_ops ops w
  end.

Lemma tx_id_from_total bytes : exists r, tx_id_from bytes = Val r.
Proof.
  unfold tx_id_from, HEADER_LEN. case_decide; [eauto|]. rewrite slice_val by lia. eauto.
Qed.

Lemma handle_stun_total bytes now w :
  exists w', handle_stun_response bytes now w = Val w' /\ same_peers w w'.
Proof.
  unfold handle_stun_response. destruct (tx_id_from_total bytes) as [[tx|] ->]; simpl; [|by exists w].
  destruct (stun_outstanding (ms w) !! tx); [|by exists w].
  destruct (parse_total bytes) as [[r|] ->]; simpl; eexists; (split; [done|]); done.
Qed.

(** What a received datagram can do, by kind. *)
Lemma handle_recv_cases bytes src now w :
  exists w', handle_recv os_rng udp_ret has_v6 our_disco_priv our_node_pub bytes src now w = Val w' /\
  (same_peers w w' \/
   w' = handle_disco os_rng udp_ret has_v6 our_disco_priv our_node_pub bytes src now w).
Proof.
  unfold handle_recv. destruct (looks_like_stun_spec bytes) as (b & -> & _). simpl.
  destruct b.
  - destruct (handle_stun_total bytes now w) as (w' & E & Hs). eauto.
  - destruct (is_disco_message bytes); simpl; eexists; (split; [done|]); [by right|by left].
Qed.

Lemma handle_disco_cases bytes src now w :
  let w' := handle_disco os_rng udp_ret has_v6 our_disco_priv our_node_pub bytes src now w in
  w' = w \/
  exists sender plaintext, open_disco our_disco_priv bytes = Some (sender, plaintext) /\
   ((exists ping, w' = handle_ping os_rng udp_ret our_disco_priv sender src ping now w) \/
    (exists pong, as_msg plaintext = Some pong /\ w' = handle_pong sender src pong now w) \/
    (exists cmm, w' = handle_call_me_maybe os_rng udp_ret has_v6 our_disco_priv our_node_pub sender cmm now w)).
Proof.
  unfold handle_disco. destruct (open_disco our_disco_priv bytes) as [[sender pt]|]; [|by left].
  destruct (packet_ty pt) as [[]|]; try (by left).
  - destruct (as_msg pt) as [m|]; [|by left]. right. exists sender, pt. eauto.
  - destruct (as_msg pt) as [m|] eqn:E; [|by left]. right. exists sender, pt. eauto 10.
  - destruct (as_msg pt) as [m|]; [|by left]. right. exists sender, pt. eauto 10.
Qed.

Lemma derp_disco_cases bytes now w :
  let w' := handle_disco_from_derp os_rng udp_ret has_v6 our_disco_priv our_node_pub bytes now w in
  w' = w \/ exists sender cmm,
    w' = handle_call_me_maybe os_rng udp_ret has_v6 our_disco_priv our_node_pub sender cmm now w.
Proof.
  unfold handle_disco_from_derp. destruct (open_disco our_disco_priv bytes) as [[sender pt]|]; [|by left].
  destruct (packet_ty pt) as [[]|]; try (by left). destruct (as_msg pt); [|by left]. eauto.
Qed.

(** The operations that cannot touch the peers. *)
Definition peerless (op : MagicOp) : bool :=
  match op with
  | OpSetLocal _ | OpTakeCmm | OpSendTo _ _ | OpSendDirect _ _ | OpTakeRecords | OpStunProbe _ _ | OpPingNow _ _ | OpPingTimeout _ | OpDrain => true
  | _ => false
  end.

Lemma peerless_same op w w' : peerless op = true -> run op w = Val w' -> same_peers w w'.
Proof.
  intros Hp. destruct op; try done; cbn [run_op]; intros [= <-]; try done.
  - unfold send_to. by destruct (for_addr _ _).
  - unfold send_direct. by destruct (for_addr _ _).
  - unfold stun_probe, udp_send. simpl. destruct (for_addr _ _); [|done]. by destruct (udp_ret _ _).
  - unfold ping_now_start. destruct (peers (ms w) !! node) as [p|]; [|done].
    case_match; [|done]. simpl. destruct (for_addr _ _); [|done].
    destruct (encode_and_send_ping _ _ _ _ _ _ _ _) as [r w1] eqn:E.
    assert (Hm : ms w1 = ms (set_pings (fun m => <[os_rng (draws (io w)) 12%nat := (now, s)]> m)
                    (draw os_rng 12 w).2)).
    { change w1 with ((r, w1).2). rewrite <- E. by rewrite encode_and_send_ping_peers. }
    destruct r; unfold same_peers; simpl; by rewrite Hm.
  - unfold drain_queue. etransitivity; [|apply drain_same]. done.
Qed.

Context (iter_peers_perm : forall m, iter_peers m ≡ₚ map_to_list m)
        (iter_paths_perm : forall m, iter_paths m ≡ₚ map_to_list m).

Lemma run_op_inv op w :
  magic_inv has_v6 (ms w) -> exists w', run op w = Val w' /\ magic_inv has_v6 (ms w').
Proof.
  intros Hi. destruct (peerless op) eqn:Hp.
  { destruct (run op w) as [w'| |] eqn:E; [|by destruct op|by destruct op].
    exists w'. split; [done|]. eapply same_peers_inv; [by eapply peerless_same|done]. }
  destruct op; try done; cbn [run_op].
  - eexists. split; [done|]. by apply upsert_peer_inv.
  - eexists. split; [done|]. by apply remove_peer_inv.
  - eexists. split; [done|]. destruct (derp_disco_cases bytes now w) as [->|(sd & cmm & ->)]; [done|].
    by apply handle_cmm_inv.
  - destruct (handle_recv_cases bytes src now w) as (w' & E & [Hs| ->]); (eexists; split; [exact E|]).
    + by eapply same_peers_inv.
    + destruct (handle_disco_cases bytes src now w) as [->|(sd & pt & _ & [(m & ->)|[(m & _ & ->)|(m & ->)]])];
        [done|by apply handle_ping_inv|by apply handle_pong_inv|by apply handle_cmm_inv].
  - eexists. split; [done|]. by apply ping_pump_inv.
Qed.

Lemma run_op_pong op w w' n a t :
  run op w = Val w' -> pong_at (ms w') n a = Some t ->
  pong_at (ms w) n a = Some t \/
  exists bytes now sender plaintext pong p q, op = OpRecv bytes a now /\ t = now /\
    open_disco our_disco_priv bytes = Some (sender, plaintext) /\ as_msg plaintext = Some pong /\
    disco_to_node (ms w) !! sender = Some n /\ peers (ms w) !! n = Some p /\
    paths p !! a = Some q /\ outstanding_tx_id q = Some (pong_tx_id pong).
Proof.
  intros E Ht. destruct (peerless op) eqn:Hp.
  { left. by eapply same_peers_pong_le; [by eapply peerless_same|]. }
  destruct op; try done; cbn [run_op] in E.
  - left. injection E as <-. by eapply upsert_peer_pong_le.
  - left. injection E as <-. by eapply remove_peer_pong_le.
  - left. injection E as <-. destruct (derp_disco_cases bytes now w) as [Ew|(sd & cmm & Ew)]; rewrite Ew in Ht; [done|].
    by eapply handle_cmm_pong_le.
  - destruct (handle_recv_cases bytes src now w) as (w1 & E1 & Hc).
    rewrite E1 in E. injection E as <-. destruct Hc as [Hs| ->].
    { left. by eapply same_peers_pong_le. }
    destruct (handle_disco_cases bytes src now w) as [Ew|(sd & pt & Ho & [(m & Ew)|[(m & Hm & Ew)|(m & Ew)]])];
      rewrite Ew in Ht; [auto|left; by eapply handle_ping_pong_le| |left; by eapply handle_cmm_pong_le].
    apply handle_pong_at in Ht as [?|(-> & -> & Hd & p & q & H1 & H2 & H3)]; [auto|].
    right. exists bytes, now, sd, pt, m, p, q. done.
  - left. injection E as <-. unfold ping_pump in Ht.
    apply (same_peers_pong_le _ _ (cmm_pump_peers _ _)) in Ht. by eapply ping_burst_pong_le.
Qed.

End RunLemmas.

(** * The ping/pong exchange *)

Section Exchange.
Context `{CryptoBoxLaws}.

(** Delivery of an encrypted disco message to the demultiplexer. *)
Lemma recv_disco_message {M} `{MessageLaws M} rng ret v6 me node (buf from n : list Z) (init : M -> M) m0 p q
    src now w :
  length n = NONCE_LEN -> msg_ref_from_bytes (drop 80 buf) = Ok m0 -> msg_wf (init m0) ->
  init_from_bytes buf init = Ok p -> encrypt_in_place p from (box_public_key me) n = Ok q ->
  exists plaintext, open_disco me (packet_bytes q) = Some (box_public_key from, plaintext) /\
    packet_ty plaintext = Some msg_TYPE /\ as_msg plaintext = Some (init m0) /\
    handle_recv rng ret v6 me node (packet_bytes q) src now w
    = Val (handle_disco rng ret v6 me node (packet_bytes q) src now w).
Proof.
  intros Hn Hm Hwf Hi He.
  destruct (message_received buf from me n init m0 p q) as (e & r & R1 & R2 & R3 & _ & R5 & R6 & R7); [done..|].
  exists r. split_and!; [|done|done|].
  - unfold open_disco. rewrite R1, R2. by rewrite R5, R3.
  - destruct (encrypted_layout _ _ _ _ _ Hn He) as [rest Hl].
    assert (Hs : looks_like_stun (packet_bytes q) = Val false).
    { rewrite Hl. apply disco_not_stun; [apply box_public_key_wf|apply box_public_key_len]. }
    assert (Hd : is_disco_message (packet_bytes q) = true).
    { apply is_disco_message_spec. rewrite Hl. split; [|done]. unfold HEADER_SIZE.
      rewrite !length_app, box_public_key_len, Hn. unfold DISCO_KEY_LEN, NONCE_LEN. simpl. lia. }
    unfold handle_recv. rewrite Hs, Hd. done.
Qed.

Context {rng : nat -> nat -> list Z} {ret : nat -> nat -> option nat} `{!Healthy rng ret}
        {v6 : bool} {me node : list Z}.

Lemma udp_send_wire a b w : wire (io (udp_send ret a b w).2) = wire (io w) ++ [(a, b)].
Proof.
  unfold udp_send. destruct (sendto_accepts (send_calls (io w)) (length b)) as [k E]. simpl. by rewrite E.
Qed.

(** What a successful ping puts on the wire and into the state. *)
Lemma ping_one_wire now n d w a :
  for_addr v6 a = true ->
  exists tx nonce_ p q, length tx = 12%nat /\ bytes_wf tx /\ length nonce_ = NONCE_LEN /\
    init_from_bytes (replicate (size_for_message (ping_size_with_padding 0)) 0)
      (fun ping => mkPing tx node (ping_padding ping)) = Ok p /\
    encrypt_in_place p me d nonce_ = Ok q /\
    let w' := ping_one rng ret v6 me node now n d w a in
    ms w' = ms (record_ping now n a tx w) /\ wire (io w') = wire (io w) ++ [(a, packet_bytes q)].
Proof.
  intros Hf. set (tx := rng (draws (io w)) 12%nat).
  destruct (ping_packet_ok (our_disco_priv := me) (our_node_pub := node) d tx
              (rng (S (draws (io w))) NONCE_LEN)) as (p & q & Hp & Hq & Hpp); [apply rng_len|].
  exists tx, (rng (S (draws (io w))) NONCE_LEN), p, q.
  split_and!; [apply rng_len|apply rng_wf|apply rng_len|done|done|].
  unfold ping_one. rewrite Hf. unfold send_ping. cbn [draw]. unfold encode_and_send_ping. cbn [draw with_io io draws].
  fold tx. rewrite Hpp. set (w1 := with_io _ _).
  assert (Hr : exists k, (udp_send ret a (packet_bytes q) w1).1 = Some k).
  { apply (sendto_accepts (udp_ret := ret) (send_calls (io w1)) (length (packet_bytes q))). }
  pose proof (udp_send_wire a (packet_bytes q) w1) as Hw.
  destruct (udp_send ret a (packet_bytes q) w1) as [r w2] eqn:E. destruct Hr as [k Hr]. simpl in Hr, Hw. subst r.
  assert (Hm2 : ms w2 = ms w) by (unfold udp_send in E; injection E as _ <-; done).
  unfold record_ping, set_peers. cbn [ms io]. rewrite Hm2. done.
Qed.

Lemma send_pong_wire d src tx w :
  exists nonce_ p q, length nonce_ = NONCE_LEN /\
    init_from_bytes (replicate (size_for_message pong_size) 0)
      (fun _ : Pong => mkPong tx (from_socket_addr src)) = Ok p /\
    encrypt_in_place p me d nonce_ = Ok q /\
    wire (io (send_pong rng ret me d src tx w)) = wire (io w) ++ [(src, packet_bytes q)].
Proof.
  destruct (init_from_bytes_ok (replicate (size_for_message pong_size) 0)
              (fun _ : Pong => mkPong tx (from_socket_addr src))
              (mkPong (replicate 12 0) (mkEndpoint (replicate 8 0) 0))) as [p E].
  { vm_compute. lia. } { vm_compute. reflexivity. }
  destruct (encrypt_ok p me d (rng (draws (io w)) NONCE_LEN) (rng_len _ _)) as [q Hq].
  exists (rng (draws (io w)) NONCE_LEN), p, q. split_and!; [apply rng_len|done|done|].
  unfold send_pong, pong_packet. cbn [draw]. rewrite E. unfold mbind, result_bind. rewrite Hq.
  by rewrite udp_send_wire.
Qed.

End Exchange.

(** * A concrete environment, for the witnesses *)

Definition toy_key (sk : list Z) : list Z := map (fun b => b mod 256) (take 32 (sk ++ replicate 32 0)).

#[global] Instance toy_box : CryptoBox := {|
  box_public_key := toy_key;
  box_seal _ _ _ m := Some (m, replicate 16 0);
  box_open _ _ _ ct _ := Some ct
|}.

#[global] Instance toy_box_laws : CryptoBoxLaws.
Proof.
  split; simpl; [|intros sk; apply Forall_fmap, Forall_true; intros b; apply Z.mod_pos_bound; lia
                 |intros; by simplify_eq|intros; by simplify_eq].
  intros sk. unfold toy_key. rewrite length_map, length_take, length_app, length_replicate.
  unfold DISCO_KEY_LEN. lia.
Qed.

Definition toy_rng (k n : nat) : list Z := replicate n (Z.of_nat k mod 256).
Definition toy_ret (k n : nat) : option nat := Some n.

#[global] Instance toy_healthy : Healthy toy_rng toy_ret.
Proof.
  split; [intros; apply length_replicate| |by eexists|by eexists].
  intros k n. apply Forall_replicate. apply Z.mod_pos_bound. lia.
Qed.

Definition io_init : Io := mkIo 0 0 [] [] [] [] [] [].
Definition magic_init : Magic := mkMagic MagicState_default io_init.

(** Our node, with peer [22] whose disco key is that of secret [2], reachable
    at one address. *)
Definition addr_b : SocketAddr := SAV4 (ipv4_new 192 0 2 33) 41641.
Definition addr_a : SocketAddr := SAV4 (ipv4_new 198 51 100 7) 41641.
Definition toy_magic : Magic := upsert_peer map_to_list [22] (toy_key [2]) [addr_b] 0 magic_init.

Lemma magic_init_inv v6 : magic_inv v6 (ms magic_init).
Proof.
  split; simpl; [intros d n Hd; by rewrite lookup_empty in Hd|].
  intros n p Hp. by rewrite lookup_empty in Hp.
Qed.

Lemma toy_magic_inv v6 : magic_inv v6 (ms toy_magic).
Proof. apply (upsert_peer_inv (has_v6 := v6)); [done|apply magic_init_inv]. Qed.

(** * Properties *)

(** C2: a direct path is used only if it answered: whatever the socket does, the
    validation time of a path changes only when a datagram arrives from that
    very address that decrypts under our key, comes from the disco key of that
    peer, and is a pong carrying the transaction id of the ping outstanding on
    that path. *)
Theorem path_validated_only_by_pong `{CryptoBox} rng ret v6 me node iter_peers iter_paths op (w w' : Magic) n a t :
  run_op rng ret v6 me node iter_peers iter_paths op w = Val w' ->
  pong_at (ms w') n a = Some t -> pong_at (ms w) n a <> Some t ->
  exists bytes now sender plaintext pong p q, op = OpRecv bytes a now /\ t = now /\
    open_disco me bytes = Some (sender, plaintext) /\ as_msg plaintext = Some pong /\
    disco_to_node (ms w) !! sender = Some n /\ peers (ms w) !! n = Some p /\
    paths p !! a = Some q /\ outstanding_tx_id q = Some (pong_tx_id pong).
Proof.
  intros E Ht Hne. by eapply run_op_pong in E as [?|?]; [..|exact Ht].
Qed.

(** C7: the ping/pong exchange works: with healthy sockets and any lawful box,
    the ping we send to a candidate of a peer makes that peer answer the
    address it sees with a pong, and receiving that pong from the candidate
    validates the path. *)
Theorem ping_pong_validates `{CryptoBoxLaws} rngA retA rngB retB `{!Healthy rngA retA} `{!Healthy rngB retB}
    v6a v6b skA skB nodeA nodeB (wA wB : Magic) n p q from_a at_b t0 t1 t2 :
  length nodeA = 32%nat -> bytes_wf nodeA -> sa_wf from_a -> for_addr v6a at_b = true ->
  disco_to_node (ms wA) !! box_public_key skB = Some n -> peers (ms wA) !! n = Some p ->
  paths p !! at_b = Some q ->
  let wA1 := ping_one rngA retA v6a skA nodeA t0 n (box_public_key skB) wA at_b in
  exists ping pong wB1 wA2,
    wire (io wA1) = wire (io wA) ++ [(at_b, ping)] /\
    handle_recv rngB retB v6b skB nodeB ping from_a t1 wB = Val wB1 /\
    wire (io wB1) = wire (io wB) ++ [(from_a, pong)] /\
    handle_recv rngA retA v6a skA nodeA pong at_b t2 wA1 = Val wA2 /\
    pong_at (ms wA2) n at_b = Some t2.
Proof.
  intros Hnl Hnw Hsa Hf Hd Hp Hq wA1.
  destruct (ping_one_wire (rng := rngA) (ret := retA) (me := skA) (node := nodeA) t0 n (box_public_key skB) wA at_b Hf)
    as (tx & nA & pA & qA & Htl & Htw & HnA & HpA & HqA & Hms & Hwire). fold wA1 in Hms, Hwire.
  destruct (recv_disco_message rngB retB v6b skB nodeB (replicate (size_for_message (ping_size_with_padding 0)) 0) skA nA
      (fun ping => mkPing tx nodeA (ping_padding ping))
      (mkPing (replicate 12 0) (replicate 32 0) []) pA qA from_a t1 wB HnA) as (ptB & HoB & HtyB & HmB & HrB).
  { vm_compute. reflexivity. }
  { simpl. split_and!; try done. constructor. }
  { done. } { done. }
  set (wBl := match disco_to_node (ms wB) !! box_public_key skA with
              | Some m => set_peers (alter (learn_source t1 from_a) m) wB | None => wB end).
  destruct (send_pong_wire (rng := rngB) (ret := retB) (me := skB) (box_public_key skA) from_a tx wBl)
    as (nB & pB & qB & HnB & HpB & HqB & HwireB).
  destruct (recv_disco_message rngA retA v6a skA nodeA (replicate (size_for_message pong_size) 0) skB nB
      (fun _ : Pong => mkPong tx (from_socket_addr from_a))
      (mkPong (replicate 12 0) (mkEndpoint (replicate 8 0) 0)) pB qB at_b t2 wA1 HnB) as (ptA & HoA & HtyA & HmA & HrA).
  { vm_compute. reflexivity. }
  { simpl. split_and!; try done. by apply from_socket_addr_wf. }
  { done. } { done. }
  eexists (packet_bytes qA), (packet_bytes qB), _, _.
  split; [exact Hwire|]. split; [exact HrB|]. split; [|split; [exact HrA|]].
  - unfold handle_disco. rewrite HoB, HtyB. cbn [msg_TYPE Ping_Message]. rewrite HmB.
    unfold handle_ping. cbn [ping_tx_id]. fold wBl. rewrite HwireB. f_equal. subst wBl. by case_match.
  - unfold handle_disco. rewrite HoA, HtyA. cbn [msg_TYPE Pong_Message]. rewrite HmA.
    unfold handle_pong. cbn [pong_tx_id].
    set (w1 := match ping_outstanding (ms wA1) !! tx with Some _ => _ | None => wA1 end).
    assert (Hs : same_peers wA1 w1) by (subst w1; by repeat case_match). destruct Hs as [Ep Ed]. clearbody w1.
    rewrite Ed, Hms. cbn [record_ping set_peers ms disco_to_node]. rewrite Hd.
    unfold pong_at. cbn [set_peers ms peers]. rewrite Ep, Hms. cbn [record_ping set_peers ms peers].
    rewrite !lookup_alter_eq, Hp. simpl. rewrite lookup_alter_eq, entry_path_lookup, decide_True by done. simpl.
    unfold accept_pong. by rewrite decide_True.
Qed.

Lemma ping_pong_validates_witness :
  let wA1 := ping_one toy_rng toy_ret false [1] (replicate 32 11) 5 [22] (box_public_key [2]) toy_magic addr_b in
  exists ping pong wB1 wA2,
    wire (io wA1) = wire (io toy_magic) ++ [(addr_b, ping)] /\
    handle_recv toy_rng toy_ret false [2] [] ping addr_a 6 magic_init = Val wB1 /\
    wire (io wB1) = wire (io magic_init) ++ [(addr_a, pong)] /\
    handle_recv toy_rng toy_ret false [1] (replicate 32 11) pong addr_b 7 wA1 = Val wA2 /\
    pong_at (ms wA2) [22] addr_b = Some 7.
Proof.
  eapply (ping_pong_validates toy_rng toy_ret toy_rng toy_ret false false [1] [2] (replicate 32 11) []
            toy_magic magic_init [22] _ _ addr_a addr_b 5 6 7).
  - reflexivity.
  - wf_list; unfold u8; lia.
  - split; split; vm_compute; congruence.
  - reflexivity.
  - vm_compute. reflexivity.
  - vm_compute. reflexivity.
  - vm_compute. reflexivity.
Defined.

(** The pong of peer [22] to the ping our socket sends it first. *)
Definition toy_pinged : Magic :=
  ping_one toy_rng toy_ret false [1] (replicate 32 11) 5 [22] (box_public_key [2]) toy_magic addr_b.
Definition toy_pong_bytes : list Z :=
  match pong_packet [2] (toy_key [1]) addr_a (toy_rng 0 12) (replicate 24 9) with Ok b => b | Err _ => [] end.

Lemma path_validated_only_by_pong_witness :
  exists w', run_op toy_rng toy_ret false [1] (replicate 32 11) map_to_list map_to_list
               (OpRecv toy_pong_bytes addr_b 7) toy_pinged = Val w' /\
  exists bytes now sender plaintext pong p q, OpRecv toy_pong_bytes addr_b 7 = OpRecv bytes addr_b now /\
    7 = now /\ open_disco [1] bytes = Some (sender, plaintext) /\ as_msg plaintext = Some pong /\
    disco_to_node (ms toy_pinged) !! sender = Some [22] /\ peers (ms toy_pinged) !! [22] = Some p /\
    paths p !! addr_b = Some q /\ outstanding_tx_id q = Some (pong_tx_id pong).
Proof.
  eexists. split; [vm_compute; reflexivity|].
  eapply (path_validated_only_by_pong toy_rng toy_ret false [1] (replicate 32 11) map_to_list map_to_list
            (OpRecv toy_pong_bytes addr_b 7) toy_pinged).
  - vm_compute. reflexivity.
  - vm_compute. reflexivity.
  - vm_compute. congruence.
Defined.

(** the socket is total and consistent: from the empty state, every sequence
    of operations (peer updates, datagrams of any content, DERP frames, probes,
    pumps) completes without a panic, and in the state it reaches each disco
    key resolves only to a present peer with that key, every peer's candidate
    list and path table agree, and only addresses with a socket were pinged. *)
Theorem magic_total_consistent `{CryptoBox} rng ret v6 me node iter_peers iter_paths ops :
  (forall m, iter_peers m ≡ₚ map_to_list m) -> (forall m, iter_paths m ≡ₚ map_to_list m) ->
  exists w, run_ops rng ret v6 me node iter_peers iter_paths ops magic_init = Val w /\ magic_inv v6 (ms w).
Proof.
  intros H1 H2. pose proof (magic_init_inv v6) as Hi. revert Hi. generalize magic_init.
  induction ops as [|op ops IH]; intros w Hi; simpl; [eauto|].
  destruct (run_op_inv rng ret v6 me node iter_peers iter_paths H1 H2 op w Hi) as (w1 & -> & Hi1). simpl.
  by apply IH.
Qed.

Lemma magic_total_consistent_witness :
  exists w, run_ops toy_rng toy_ret false [1] [] map_to_list map_to_list
    [OpUpsert [22] (toy_key [2]) [addr_b] 0; OpPump 1; OpRecv [1; 2; 3] addr_b 2; OpRemove [22]] magic_init
    = Val w /\ magic_inv false (ms w).
Proof. apply magic_total_consistent; done. Defined.

(** the path oracle returns a validated path of the lowest round-trip time:
    the answer is a path of the peer answered within the last 30 s, no other
    such path has a lower measured time, and there is no answer only if no path
    of the peer is alive. *)
Theorem alive_endpoint_lowest_rtt iter_paths node now (w : Magic) p :
  (forall m, iter_paths m ≡ₚ map_to_list m) -> peers (ms w) !! node = Some p ->
  match alive_endpoint iter_paths node now w with
  | Some a => exists q, paths p !! a = Some q /\ path_alive now q = true /\
      forall b r, paths p !! b = Some r -> path_alive now r = true ->
        default (60 * SEC) (rtt q) <= default (60 * SEC) (rtt r)
  | None => forall b r, paths p !! b = Some r -> path_alive now r = false
  end.
Proof.
  intros Hperm Hp. unfold alive_endpoint. rewrite Hp. simpl.
  set (l := filter _ (iter_paths (paths p))).
  assert (Hl : forall b r, (b, r) ∈ l <-> paths p !! b = Some r /\ path_alive now r = true).
  { intros b r. subst l. rewrite list_elem_of_filter, iter_paths_elem by done. simpl. tauto. }
  destruct (min_by (fun kv => default (60 * SEC) (rtt kv.2)) l) as [[a q]|] eqn:E; simpl.
  - pose proof (min_by_elem _ _ _ E) as Hin. apply Hl in Hin as [H1 H2]. exists q. split_and!; [done|done|].
    intros b r Hb Hr. apply (min_by_le (fun kv : SocketAddr * PathState => default (60 * SEC) (rtt kv.2)) l (a, q) (b, r));
      [done|]. by apply Hl.
  - intros b r Hb. destruct (path_alive now r) eqn:Hr; [|done].
    apply min_by_none in E. assert (Hin : (b, r) ∈ l) by by apply Hl.
    rewrite E in Hin. by apply elem_of_nil in Hin.
Qed.

Lemma alive_endpoint_lowest_rtt_witness :
  exists w' p, handle_recv toy_rng toy_ret false [1] (replicate 32 11) toy_pong_bytes addr_b 7 toy_pinged = Val w' /\
  peers (ms w') !! [22] = Some p /\ alive_endpoint map_to_list [22] 8 w' = Some addr_b /\
  match alive_endpoint map_to_list [22] 8 w' with
  | Some a => exists q, paths p !! a = Some q /\ path_alive 8 q = true /\
      forall b r, paths p !! b = Some r -> path_alive 8 r = true ->
        default (60 * SEC) (rtt q) <= default (60 * SEC) (rtt r)
  | None => forall b r, paths p !! b = Some r -> path_alive 8 r = false
  end.
Proof.
  eexists _, _. split; [vm_compute; reflexivity|]. split; [vm_compute; reflexivity|].
  split; [vm_compute; reflexivity|]. apply alive_endpoint_lowest_rtt; [done|]. vm_compute. reflexivity.
Defined.

(** while pings can be sent, no call-me-maybe is ever queued: the trigger
    waits for a path whose latest ping is 10 s old, but the pump has just
    re-pinged every path older than 5 s, so the condition never holds. *)
Theorem cmm_never_triggers `{CryptoBoxLaws} rng ret `{!Healthy rng ret} v6 me node iter_peers iter_paths now (w : Magic) :
  (forall m, iter_peers m ≡ₚ map_to_list m) -> (forall m, iter_paths m ≡ₚ map_to_list m) ->
  magic_inv v6 (ms w) ->
  cmm_pending (ms (ping_pump rng ret v6 me node iter_peers iter_paths now w)) = cmm_pending (ms w).
Proof.
  intros H1' H2' Hi. unfold ping_pump.
  set (w1 := foldl _ w _).
  assert (Hc : cmm_pending (ms w1) = cmm_pending (ms w)) by apply ping_burst_cmm.
  rewrite <- Hc. unfold cmm_pump. destruct (local_endpoints (ms w1)) as [|e l]; [done|].
  assert (Hnil : filter (fun np => wants_cmm iter_paths now (ms w1) np.1 np.2 = true) (iter_peers (peers (ms w1))) = []).
  { destruct (filter _ _) as [|[n p] r] eqn:E; [done|]. exfalso.
    assert (Hin : (n, p) ∈ (n, p) :: r) by (apply elem_of_cons; by left). rewrite <- E in Hin.
    apply list_elem_of_filter in Hin as [Hw Hn%iter_peers_elem]; [|done]. simpl in Hw.
    rewrite wants_cmm_fresh in Hw; [done|done|]. intros a q t Hq Ht.
    apply (pump_pings_fresh (os_rng := rng) (udp_ret := ret) (our_disco_priv := me)
             (our_node_pub := node) H1' now w n a t Hi).
    change (lping w1 n a = Some t). unfold lping. rewrite Hn. simpl. by rewrite Hq. }
  rewrite Hnil. done.
Qed.

Lemma cmm_never_triggers_witness :
  let w := set_local_endpoints [addr_a] toy_magic in
  cmm_pending (ms (ping_pump toy_rng toy_ret false [1] [] map_to_list map_to_list (100 * SEC) w)) = [].
Proof.
  apply (cmm_never_triggers toy_rng toy_ret false [1] [] map_to_list map_to_list (100 * SEC)
           (set_local_endpoints [addr_a] toy_magic)); [done|done|].
  destruct (toy_magic_inv false) as [I1 I2]. by split.
Defined.

(** A call-me-maybe is not bound by the per-peer path cap: after handling
    one from a known peer, every advertised address is a tracked path, so the
    table can have any number of entries, while an address learned from a ping
    is only tracked below the cap. *)
Theorem cmm_exceeds_path_cap `{CryptoBox} rng ret v6 me node sender cmm now (w : Magic) n p :
  disco_to_node (ms w) !! sender = Some n -> peers (ms w) !! n = Some p ->
  let w' := handle_call_me_maybe rng ret v6 me node sender cmm now w in
  (forall a, a ∈ map socket_addr (cmm_endpoints cmm) -> has_path w' n a) /\
  (forall src, size (paths (learn_source now src p)) <= Nat.max MAX_PEER_PATHS (size (paths p)))%nat.
Proof.
  intros Hd Hp. split.
  - intros a Ha. unfold handle_call_me_maybe. rewrite Hd, Hp, ping_all_burst.
    apply ping_burst_has_path. unfold has_path. cbn [set_peers ms peers]. rewrite lookup_insert_eq.
    destruct (merge_all_spec (has_v6 := v6) (map socket_addr (cmm_endpoints cmm)) p) as (_ & _ & _ & _ & Hm).
    eexists _, _. split; [done|]. by rewrite Hm, decide_True.
  - intros src. unfold learn_source, MAX_PEER_PATHS. destruct (paths p !! src) as [q|] eqn:Eq; simpl.
    + rewrite map_size_insert, Eq. simpl. lia.
    + case_decide; [|lia]. simpl. rewrite map_size_insert, Eq. simpl. lia.
Qed.

(** Thirty distinct addresses, six more than the cap. *)
Definition toy_cmm : CallMeMaybe :=
  mkCallMeMaybe (map (fun k => from_socket_addr (SAV4 (ipv4_new 203 0 113 7) (1000 + Z.of_nat k))) (seq 0 30)).

Lemma cmm_exceeds_path_cap_witness :
  exists p', peers (ms (handle_call_me_maybe toy_rng toy_ret false [1] [] (toy_key [2]) toy_cmm 9 toy_magic)) !! [22]
             = Some p' /\ size (paths p') = 31%nat /\
  has_path (handle_call_me_maybe toy_rng toy_ret false [1] [] (toy_key [2]) toy_cmm 9 toy_magic) [22]
    (SAV4 (ipv4_new 203 0 113 7) 1029).
Proof.
  eexists. split; [vm_compute; reflexivity|]. split; [vm_compute; reflexivity|].
  destruct (peers (ms toy_magic) !! [22]) as [p|] eqn:Hp; [|by vm_compute in Hp].
  refine (proj1 (cmm_exceeds_path_cap toy_rng toy_ret false [1] [] (toy_key [2]) toy_cmm 9 toy_magic [22] p _ Hp) _ _).
  - vm_compute. reflexivity.
  - apply list_elem_of_In. vm_compute. tauto.
Defined.
