(* ===== verification/Netmap.v ===== *)
(** The network map of ts-control ([netmap.rs]) and its consumers in the runtime
    ([runtime.rs]): how a map response changes the local map, which delta it
    emits, and how the engine and the magic socket follow that delta.

    Text fields are byte strings.  The JSON layer below the wire records is not
    part of the model; [SocketAddr::from_str] is modelled for IPv4 and a
    parameter for the bracketed IPv6 form. *)

From S2P Require Import Prelude NetTypes Text WgPolicy WgEngine.
From S2P Require Magicsock.
#[local] Open Scope Z_scope.

(** ** Domain types *)

Record AllowedIp : Type := mkAllowedIp { ai_addr : Z; ai_prefix : Z }.

Record NmPortRange : Type := mkNmPortRange { nr_ip : AllowedIp; nr_first : Z; nr_last : Z }.

Record NmFilterRule : Type := mkNmFilterRule {
  nf_src_ips : list AllowedIp; nf_dst_ports : list NmPortRange; nf_ip_protocols : list Z
}.

Inductive PacketFilter : Type := PfRules (rules : list NmFilterRule).

#[global] Instance AllowedIp_eq_dec : EqDecision AllowedIp.
Proof. solve_decision. Defined.
#[global] Instance NmPortRange_eq_dec : EqDecision NmPortRange.
Proof. solve_decision. Defined.
#[global] Instance NmFilterRule_eq_dec : EqDecision NmFilterRule.
Proof. solve_decision. Defined.
#[global] Instance PacketFilter_eq_dec : EqDecision PacketFilter.
Proof. solve_decision. Defined.

Record PeerSnapshot : Type := mkSnapshot {
  node_id : Z; node_key : list Z; disco_key : option (list Z); name : list Z;
  sn_allowed_ips : list AllowedIp; home_derp : Z; online : bool;
  sn_endpoints : list SocketAddr; last_seen : option (list Z); key_expiry : option (list Z)
}.

Record DerpNodeSnapshot : Type := mkDerpNode {
  dn_name : list Z; dn_region_id : Z; dn_hostname : list Z; dn_ipv4 : list Z; dn_ipv6 : list Z;
  dn_derp_port : Z; dn_stun_port : Z
}.

Record DerpRegionSnapshot : Type := mkDerpRegion {
  dr_region_id : Z; dr_code : list Z; dr_name : list Z; dr_nodes : list DerpNodeSnapshot
}.

Record UserProfile : Type := mkUserProfile { up_id : Z; login_name : list Z; display_name : list Z }.

Record NetMap : Type := mkNetMap {
  our_addrs : list AllowedIp;
  packet_filter : option PacketFilter;
  our_tags : list (list Z);
  our_key_expiry : option (list Z);
  nm_peers : gmap (list Z) PeerSnapshot;
  id_to_key : gmap Z (list Z);
  derp_regions : gmap Z DerpRegionSnapshot;
  last_seq : Z;
  session_handle : list Z;
  domain : list Z;
  user_profiles : gmap Z UserProfile;
  our_user_id : option Z
}.

Definition NetMap_default : NetMap := mkNetMap [] None [] None ∅ ∅ ∅ 0 [] [] ∅ None.

Record RekeyedPeer : Type := mkRekeyed { old_key : list Z; rk_snapshot : PeerSnapshot }.

Record NetMapDelta : Type := mkDelta {
  upserted : list PeerSnapshot;
  removed : list (list Z);
  rekeyed : list RekeyedPeer;
  our_addrs_changed : bool;
  packet_filter_changed : bool;
  derp_map_changed : bool;
  patches_applied : nat;
  patches_skipped : nat;
  delta_seq : Z
}.

Definition delta_default : NetMapDelta := mkDelta [] [] [] false false false 0 0 0.

(** ** Wire types, after JSON *)

Record NodeWire : Type := mkNodeWire {
  nw_id : Z; nw_user : Z; nw_name : list Z; nw_key : list Z; nw_disco_key : list Z;
  nw_addresses : list (list Z); nw_allowed_ips : list (list Z); nw_home_derp : Z;
  nw_derp_legacy : list Z; nw_online : option bool; nw_endpoints : list (list Z);
  nw_tags : list (list Z); nw_key_expiry : option (list Z); nw_last_seen : option (list Z)
}.

Record PeerChangeWire : Type := mkPeerChange {
  pc_node_id : Z; pc_key : option (list Z); pc_disco_key : option (list Z);
  pc_home_derp : option Z; pc_derp_region_legacy : option Z;
  pc_endpoints : option (list (list Z)); pc_online : option bool;
  pc_last_seen : option (list Z); pc_key_expiry : option (list Z)
}.

Record NetPortRangeWire : Type := mkRangeWire { rw_ip : list Z; rw_first : Z; rw_last : Z }.
Record FilterRuleWire : Type := mkRuleWire {
  fw_src_ips : list (list Z); fw_dst_ports : list NetPortRangeWire; fw_ip_proto : list Z
}.
Inductive PacketFilterWire : Type := PfMissing | PfWireRules (rules : list FilterRuleWire).

Record UserProfileWire : Type := mkUserWire { uw_id : Z; uw_login_name : list Z; uw_display_name : list Z }.

Record DerpNodeWire : Type := mkDerpNodeWire {
  dw_name : list Z; dw_region_id : Z; dw_hostname : list Z; dw_ipv4 : list Z; dw_ipv6 : list Z;
  dw_derp_port : Z; dw_stun_port : Z
}.

Record DerpRegionWire : Type := mkDerpRegionWire {
  gw_region_id : Z; gw_code : list Z; gw_name : list Z; gw_nodes : list DerpNodeWire
}.

(** The fields [NetMap::apply] reads; [mr_derp_map] lists the values of the
    [Regions] object in the order the hash map yields them. *)
Record MapResponseWire : Type := mkMapResponse {
  mr_handle : list Z; mr_seq : Z; mr_node : option NodeWire;
  mr_derp_map : option (list DerpRegionWire);
  mr_peers : option (list NodeWire); mr_peers_changed : option (list NodeWire);
  mr_peers_removed : option (list Z); mr_patches : option (list PeerChangeWire);
  mr_domain : list Z; mr_user_profiles : list UserProfileWire; mr_packet_filter : PacketFilterWire
}.

(** ** Parsers *)

Fixpoint decode_pairs (n : nat) (hex : list Z) : option (list Z) :=
  match n with
  | O => Some []
  | S m =>
      match hex with
      | a :: b :: r => x ← from_str_radix 16 255 [a; b]; rest ← decode_pairs m r; Some (x :: rest)
      | _ => None
      end
  end.

Definition decode_hex_32 (hex : list Z) : option (list Z) :=
  if decide (length hex = 64%nat) then decode_pairs 32 hex else None.

Definition parse_nodekey_with_prefix (s prefix : list Z) : option (list Z) :=
  decode_hex_32 (default s (strip_prefix prefix s)).

Definition parse_nodekey (s : list Z) : option (list Z) := parse_nodekey_with_prefix s (bs "nodekey:").

Definition parse_ipv4_cidr (s : list Z) : option AllowedIp :=
  '(ip, prefix) ← split_once 47 s;
  addr ← parse_ipv4 ip;
  prefix ← parse_u8 prefix;
  if 32 <? prefix then None else Some (mkAllowedIp addr prefix).

Definition parse_addrs (addrs : list (list Z)) : list AllowedIp := omap parse_ipv4_cidr addrs.

Definition parse_filter_cidr (s : list Z) : option AllowedIp :=
  if decide (s = [42]) then Some (mkAllowedIp 0 0)
  else match parse_ipv4 s with
       | Some addr => Some (mkAllowedIp addr 32)
       | None => parse_ipv4_cidr s
       end.

Definition parse_legacy_derp (s : list Z) : option Z :=
  '(_, port) ← rsplit_once 58 s; parse_u16 port.

Definition range_from_wire (d : NetPortRangeWire) : option NmPortRange :=
  ip ← parse_filter_cidr (rw_ip d);
  if rw_first d <=? rw_last d then Some (mkNmPortRange ip (rw_first d) (rw_last d)) else None.

Definition filter_rule_from_wire (w : FilterRuleWire) : option NmFilterRule :=
  let src := omap parse_filter_cidr (fw_src_ips w) in
  let dst := omap range_from_wire (fw_dst_ports w) in
  if negb (is_empty src) && negb (is_empty dst) then Some (mkNmFilterRule src dst (fw_ip_proto w)) else None.

(** [SocketAddrV4::from_str]: the port is digits only. *)
Definition parse_sockaddr_v4 (s : list Z) : option SocketAddr :=
  '(ip, port) ← split_once 58 s;
  ip ← parse_ipv4 ip;
  port ← (match port with [] => None | _ => parse_digits 10 65535 0 port end);
  Some (SAV4 ip port).

Section Map.
Context (parse_sockaddr_v6 : list Z -> option SocketAddr)
        (keys : gmap (list Z) PeerSnapshot -> list (list Z)).

Definition parse_endpoints (addrs : list (list Z)) : list SocketAddr :=
  omap (fun s => match parse_sockaddr_v4 s with Some a => Some a | None => parse_sockaddr_v6 s end) addrs.

Definition node_to_snapshot (n : NodeWire) : option PeerSnapshot :=
  node_key ← parse_nodekey (nw_key n);
  let disco := if bool_decide (nw_disco_key n = []) then None
               else parse_nodekey_with_prefix (nw_disco_key n) (bs "discokey:") in
  let explicit := parse_addrs (nw_allowed_ips n) in
  let ips := if is_empty explicit then parse_addrs (nw_addresses n) else explicit in
  let home := if negb (nw_home_derp n =? 0) then nw_home_derp n
              else default 0 (parse_legacy_derp (nw_derp_legacy n)) in
  Some (mkSnapshot (nw_id n) node_key disco (nw_name n) ips home (default false (nw_online n))
          (parse_endpoints (nw_endpoints n)) (nw_last_seen n) (nw_key_expiry n)).

Definition or_else {A} (a b : option A) : option A := match a with Some _ => a | None => b end.

Definition apply_patch_fields (p : PeerSnapshot) (c : PeerChangeWire) : PeerSnapshot :=
  mkSnapshot (node_id p) (node_key p)
    (match pc_disco_key c with
     | Some d => or_else (parse_nodekey_with_prefix d (bs "discokey:")) (disco_key p)
     | None => disco_key p
     end)
    (name p) (sn_allowed_ips p)
    (default (home_derp p) (or_else (pc_home_derp c) (pc_derp_region_legacy c)))
    (default (online p) (pc_online c))
    (match pc_endpoints c with Some e => parse_endpoints e | None => sn_endpoints p end)
    (or_else (pc_last_seen c) (last_seen p)) (or_else (pc_key_expiry c) (key_expiry p)).

(** ** [NetMap::apply], section by section *)

(** The peer tables and the peer part of the delta, which is all the peer
    sections of a response touch. *)
Record PeerTables : Type := mkTables {
  t_peers : gmap (list Z) PeerSnapshot; t_ids : gmap Z (list Z);
  t_up : list PeerSnapshot; t_rm : list (list Z); t_rk : list RekeyedPeer;
  t_applied : nat; t_skipped : nat
}.

(** Insert one node: the body of the [Peers] and [PeersChanged] loops. *)
Definition upsert_node (t : PeerTables) (n : NodeWire) : PeerTables :=
  match node_to_snapshot n with
  | None => t
  | Some snap =>
      mkTables (<[node_key snap := snap]> (t_peers t)) (<[node_id snap := node_key snap]> (t_ids t))
        (t_up t ++ [snap]) (t_rm t) (t_rk t) (t_applied t) (t_skipped t)
  end.

(** [Peers]: replace the whole set. *)
Definition apply_full (t : PeerTables) (nodes : list NodeWire) : PeerTables :=
  let new_keys := omap (fun n => parse_nodekey (nw_key n)) nodes in
  let gone := filter (fun k => k ∉ new_keys) (keys (t_peers t)) in
  let t := mkTables (foldl (fun m k => delete k m) (t_peers t) gone) ∅
             (t_up t) (t_rm t ++ gone) (t_rk t) (t_applied t) (t_skipped t) in
  foldl upsert_node t nodes.

(** [PeersRemoved], one id. *)
Definition remove_node (t : PeerTables) (id : Z) : PeerTables :=
  match t_ids t !! id with
  | None => t
  | Some key =>
      mkTables (delete key (t_peers t)) (delete id (t_ids t)) (t_up t) (t_rm t ++ [key]) (t_rk t)
        (t_applied t) (t_skipped t)
  end.

(** [PeersChangedPatch], one patch. *)
Definition apply_patch (t : PeerTables) (c : PeerChangeWire) : PeerTables :=
  let skip := mkTables (t_peers t) (t_ids t) (t_up t) (t_rm t) (t_rk t) (t_applied t) (S (t_skipped t)) in
  match t_ids t !! pc_node_id c with
  | None => skip
  | Some k =>
      match t_peers t !! k with
      | None => skip
      | Some peer =>
          let plain :=
            let p := apply_patch_fields peer c in
            mkTables (<[k := p]> (t_peers t)) (t_ids t) (t_up t ++ [p]) (t_rm t) (t_rk t)
              (S (t_applied t)) (t_skipped t) in
          match pc_key c ≫= parse_nodekey with
          | Some new_key =>
              if decide (new_key = k) then plain
              else
                let p0 := mkSnapshot (node_id peer) new_key (disco_key peer) (name peer)
                            (sn_allowed_ips peer) (home_derp peer) (online peer) (sn_endpoints peer)
                            (last_seen peer) (key_expiry peer) in
                let p := apply_patch_fields p0 c in
                mkTables (<[new_key := p]> (delete k (t_peers t))) (<[node_id p := new_key]> (t_ids t))
                  (t_up t) (t_rm t) (t_rk t ++ [mkRekeyed k p]) (S (t_applied t)) (t_skipped t)
          | None => plain
          end
      end
  end.

Definition opt_list {A} (o : option (list A)) : list A := default [] o.

Definition apply_peers (t : PeerTables) (r : MapResponseWire) : PeerTables :=
  let t := match mr_peers r with Some nodes => apply_full t nodes | None => t end in
  let t := foldl upsert_node t (opt_list (mr_peers_changed r)) in
  let t := foldl remove_node t (opt_list (mr_peers_removed r)) in
  foldl apply_patch t (opt_list (mr_patches r)).

(** Our own node's record. *)
Definition apply_self (nm : NetMap) (node : NodeWire) : NetMap * bool :=
  let new_addrs := parse_addrs (nw_addresses node) in
  let changed := negb (is_empty new_addrs) && negb (bool_decide (new_addrs = our_addrs nm)) in
  (mkNetMap (if changed then new_addrs else our_addrs nm) (packet_filter nm) (nw_tags node)
     (or_else (nw_key_expiry node) (our_key_expiry nm))
     (nm_peers nm) (id_to_key nm) (derp_regions nm) (last_seq nm) (session_handle nm) (domain nm)
     (user_profiles nm)
     (if negb (nw_user node =? 0) then Some (nw_user node) else our_user_id nm),
   changed).

Definition parse_derp_regions (rs : list DerpRegionWire) : gmap Z DerpRegionSnapshot :=
  foldl (fun m r =>
    let nodes := map (fun n => mkDerpNode (dw_name n) (dw_region_id n) (dw_hostname n) (dw_ipv4 n) (dw_ipv6 n)
                                 (dw_derp_port n) (dw_stun_port n)) (gw_nodes r) in
    <[gw_region_id r := mkDerpRegion (gw_region_id r) (gw_code r) (gw_name r) nodes]> m) ∅ rs.

Definition user_profile_from_wire (w : UserProfileWire) : UserProfile :=
  mkUserProfile (uw_id w) (uw_login_name w) (uw_display_name w).

Definition apply (nm : NetMap) (r : MapResponseWire) : NetMap * NetMapDelta :=
  let seq := if last_seq nm <? mr_seq r then mr_seq r else last_seq nm in
  let '(nm, addrs_changed) := match mr_node r with Some n => apply_self nm n | None => (nm, false) end in
  let profiles := foldl (fun m u => <[uw_id u := user_profile_from_wire u]> m) (user_profiles nm) (mr_user_profiles r) in
  let '(regions, derp_changed) :=
    match mr_derp_map r with Some rs => (parse_derp_regions rs, true) | None => (derp_regions nm, false) end in
  let '(pf, pf_changed) :=
    match mr_packet_filter r with
    | PfMissing => (packet_filter nm, false)
    | PfWireRules rules =>
        let next := PfRules (omap filter_rule_from_wire rules) in
        if bool_decide (packet_filter nm = Some next) then (packet_filter nm, false) else (Some next, true)
    end in
  let t := apply_peers (mkTables (nm_peers nm) (id_to_key nm) [] [] [] 0 0) r in
  (mkNetMap (our_addrs nm) pf (our_tags nm) (our_key_expiry nm) (t_peers t) (t_ids t) regions seq
     (if is_empty (mr_handle r) then session_handle nm else mr_handle r)
     (if is_empty (mr_domain r) then domain nm else mr_domain r) profiles (our_user_id nm),
   mkDelta (t_up t) (t_rm t) (t_rk t) addrs_changed pf_changed derp_changed (t_applied t) (t_skipped t) seq).

End Map.

Definition our_login_name (nm : NetMap) : option (list Z) :=
  id ← our_user_id nm;
  profile ← user_profiles nm !! id;
  if is_empty (login_name profile) then None else Some (login_name profile).

(** ** runtime.rs: following the delta *)

Definition engine_allowed_ips (l : list AllowedIp) : list Ipv4Cidr :=
  map (fun a => mkCidr (ai_addr a) (ai_prefix a)) (filter (fun a => 0 < ai_prefix a) l).

Definition engine_cidr (a : AllowedIp) : Ipv4Cidr := mkCidr (ai_addr a) (ai_prefix a).

Definition engine_packet_filter (p : PacketFilter) : InboundPolicy :=
  match p with
  | PfRules rules =>
      Rules (map (fun r => mkRule (map engine_cidr (nf_src_ips r))
               (map (fun d => mkRange (engine_cidr (nr_ip d)) (nr_first d) (nr_last d)) (nf_dst_ports r))
               (nf_ip_protocols r)) rules)
  end.

Definition peer_region (p : PeerSnapshot) (our_home : Z) : Z :=
  if negb (home_derp p =? 0) then home_derp p else our_home.

Definition engine_peer_config (our_home : Z) (p : PeerSnapshot) : PeerConfig :=
  let region := peer_region p our_home in
  mkPeerConfig (node_key p) None (Some 25) (engine_allowed_ips (sn_allowed_ips p))
    (if negb (region =? 0) then Some (Derp region (node_key p)) else None).

Section Consumers.
Context {T : Type} `{TunnOps T}.

Definition push_delta_to_engine (d : NetMapDelta) (pf : option PacketFilter) (our_home : Z) (e : Engine T) :
    Engine T :=
  let e := if packet_filter_changed d then
             match pf with Some p => set_inbound_policy (engine_packet_filter p) e | None => e end
           else e in
  let e := foldl (fun e p => upsert_peer (engine_peer_config our_home p) e) e (upserted d) in
  let e := foldl (fun e k => remove_peer k e) e (removed d) in
  foldl (fun e r => upsert_peer (engine_peer_config our_home (rk_snapshot r)) (remove_peer (old_key r) e))
    e (rekeyed d).
End Consumers.

Definition update_peer_regions (d : NetMapDelta) (our_home : Z) (regions : gmap (list Z) Z) : gmap (list Z) Z :=
  let m := foldl (fun m p => <[node_key p := peer_region p our_home]> m) regions (upserted d) in
  let m := foldl (fun m k => delete k m) m (removed d) in
  foldl (fun m r => <[node_key (rk_snapshot r) := peer_region (rk_snapshot r) our_home]> (delete (old_key r) m))
    m (rekeyed d).

Definition push_one_to_magicsock iter_paths (now : Z) (w : Magicsock.Magic) (p : PeerSnapshot) : Magicsock.Magic :=
  match disco_key p with
  | None => w
  | Some d => if is_empty (sn_endpoints p) then w
              else Magicsock.upsert_peer iter_paths (node_key p) d (sn_endpoints p) now w
  end.

Definition push_delta_to_magicsock iter_paths (d : NetMapDelta) (now : Z) (w : Magicsock.Magic) : Magicsock.Magic :=
  let w := foldl (push_one_to_magicsock iter_paths now) w (upserted d) in
  let w := foldl (fun w k => Magicsock.remove_peer k w) w (removed d) in
  foldl (fun w r => push_one_to_magicsock iter_paths now (Magicsock.remove_peer (old_key r) w) (rk_snapshot r))
    w (rekeyed d).

(** * Specifications *)

(** What a consumer that keeps one value per peer does with a delta: upserts,
    then removals, then rekeyings. *)
Definition follow {V} (f : PeerSnapshot -> V) (up : list PeerSnapshot) (rm : list (list Z))
    (rk : list RekeyedPeer) (m : gmap (list Z) V) : gmap (list Z) V :=
  let m := foldl (fun m p => <[node_key p := f p]> m) m up in
  let m := foldl (fun m k => delete k m) m rm in
  foldl (fun m r => <[node_key (rk_snapshot r) := f (rk_snapshot r)]> (delete (old_key r) m)) m rk.

(** A node key belongs to one node, [owner] says to which: peers are stored under
    their own key, and an id resolves only to a present peer with that id. *)
Record tables_wf (owner : list Z -> Z) (ps : gmap (list Z) PeerSnapshot) (ids : gmap Z (list Z)) : Prop := {
  tw_key : forall k p, ps !! k = Some p -> node_key p = k /\ owner k = node_id p;
  tw_id : forall i k, ids !! i = Some k -> exists p, ps !! k = Some p /\ node_id p = i
}.

Definition t_wf (owner : list Z -> Z) (t : PeerTables) : Prop := tables_wf owner (t_peers t) (t_ids t).

(** The same of the keys a map response names, and at most one patch per node. *)
Record frame_ok (p6 : list Z -> option SocketAddr) (owner : list Z -> Z) (r : MapResponseWire) : Prop := {
  fo_nodes : forall n s, n ∈ opt_list (mr_peers r) ++ opt_list (mr_peers_changed r) ->
    node_to_snapshot p6 n = Some s -> owner (node_key s) = node_id s;
  fo_patch : forall c k, c ∈ opt_list (mr_patches r) -> pc_key c ≫= parse_nodekey = Some k ->
    owner k = pc_node_id c;
  fo_once : NoDup (map pc_node_id (opt_list (mr_patches r)));
  fo_kind : mr_peers r = None \/ mr_peers_changed r = None
}.

(** * Lemmas *)

Abbreviation put f := (foldl (fun m p => <[node_key p := f p]> m)).
Abbreviation del := (foldl (fun m k => delete k m)).
Abbreviation rekey f :=
  (foldl (fun m r => <[node_key (rk_snapshot r) := f (rk_snapshot r)]> (delete (old_key r) m))).

Section Folds.
Context {V : Type} (f : PeerSnapshot -> V).
Implicit Types (m : gmap (list Z) V) (l : list PeerSnapshot) (ks : list (list Z)).

Lemma put_other l : forall m k, k ∉ map node_key l -> put f m l !! k = m !! k.
Proof.
  induction l as [|x l IH]; intros m k Hk; [done|]. cbn [foldl map] in *.
  apply not_elem_of_cons in Hk as [H1 H2]. rewrite IH by done. by apply lookup_insert_ne.
Qed.

Lemma put_insert l m k v : k ∉ map node_key l -> put f (<[k := v]> m) l = <[k := v]> (put f m l).
Proof.
  revert m. induction l as [|x l IH]; intros m Hk; [done|]. cbn [foldl map] in *.
  apply not_elem_of_cons in Hk as [H1 H2]. rewrite <- IH by done. f_equal. by apply insert_insert_ne.
Qed.

Lemma put_delete l m k : k ∉ map node_key l -> put f (delete k m) l = delete k (put f m l).
Proof.
  revert m. induction l as [|x l IH]; intros m Hk; [done|]. cbn [foldl map] in *.
  apply not_elem_of_cons in Hk as [H1 H2]. rewrite <- IH by done. f_equal.
  by rewrite delete_insert_ne.
Qed.

Lemma del_insert ks m k v : k ∉ ks -> del (<[k := v]> m) ks = <[k := v]> (del m ks).
Proof.
  revert m. induction ks as [|x ks IH]; intros m Hk; [done|]. cbn [foldl].
  apply not_elem_of_cons in Hk as [H1 H2]. rewrite <- IH by done. f_equal. by apply delete_insert_ne.
Qed.

Lemma del_put l ks m : (forall x, x ∈ l -> node_key x ∉ ks) -> put f (del m ks) l = del (put f m l) ks.
Proof.
  revert m. induction l as [|x l IH]; intros m Hl; [done|]. cbn [foldl].
  rewrite <- IH by (intros y Hy; apply Hl; by apply elem_of_cons; right). f_equal.
  symmetry. apply del_insert. apply Hl. apply elem_of_cons. by left.
Qed.

Lemma del_lookup ks : forall m k, del m ks !! k = if decide (k ∈ ks) then None else m !! k.
Proof.
  induction ks as [|x ks IH]; intros m k; cbn [foldl].
  { by rewrite decide_False by apply not_elem_of_nil. }
  rewrite IH. rewrite lookup_delete. repeat case_decide; set_solver.
Qed.

Lemma fold_fmap {A} (g : gmap (list Z) V -> A -> gmap (list Z) V)
    (h : gmap (list Z) PeerSnapshot -> A -> gmap (list Z) PeerSnapshot) (l : list A) :
  (forall (m : gmap (list Z) PeerSnapshot) a, g (f <$> m) a = f <$> h m a) ->
  forall m : gmap (list Z) PeerSnapshot, foldl g (f <$> m) l = f <$> foldl h m l.
Proof. intros Hgh. induction l as [|a l IH]; intros m; [done|]. cbn [foldl]. by rewrite Hgh, IH. Qed.

Lemma put_base l : forall m m' k, k ∈ map node_key l -> put f m l !! k = put f m' l !! k.
Proof.
  induction l as [|x l IH]; intros m m' k Hk; [by apply elem_of_nil in Hk|]. cbn [foldl map] in *.
  destruct (decide (k ∈ map node_key l)) as [Hin|Hout]; [auto|].
  apply elem_of_cons in Hk as [->|Hk]; [|done]. by rewrite !put_other, !lookup_insert_eq by done.
Qed.

(** A map of images follows a delta as the map of snapshots does. *)
Lemma follow_fmap (up : list PeerSnapshot) (rm : list (list Z)) (rk : list RekeyedPeer)
    (ps : gmap (list Z) PeerSnapshot) :
  follow f up rm rk (f <$> ps) = f <$> follow id up rm rk ps.
Proof.
  unfold follow. erewrite fold_fmap by (intros; symmetry; apply fmap_insert).
  erewrite fold_fmap by (intros; symmetry; apply fmap_delete).
  apply fold_fmap. intros. by rewrite fmap_insert, fmap_delete.
Qed.

End Folds.

Section MapLemmas.
Context {p6 : list Z -> option SocketAddr} {keys : gmap (list Z) PeerSnapshot -> list (list Z)}
        {owner : list Z -> Z}.
Implicit Types t : PeerTables.

(** ** Upserts *)

Definition snaps (nodes : list NodeWire) : list PeerSnapshot := omap (node_to_snapshot p6) nodes.

Lemma upsert_nodes_spec nodes : forall t,
  let t' := foldl (upsert_node p6) t nodes in
  t_peers t' = put id (t_peers t) (snaps nodes) /\
  t_up t' = t_up t ++ snaps nodes /\ t_rm t' = t_rm t /\ t_rk t' = t_rk t.
Proof.
  induction nodes as [|n nodes IH]; intros t; cbn [foldl]; [simpl; by rewrite app_nil_r|].
  destruct (IH (upsert_node p6 t n)) as (E1 & E2 & E3 & E4). unfold snaps in *. cbn [omap list_omap].
  unfold upsert_node in *. destruct (node_to_snapshot p6 n) as [s|]; cbn [t_peers t_up t_rm t_rk foldl] in *.
  - rewrite E2, <- app_assoc. done.
  - done.
Qed.

Lemma upsert_node_wf n t :
  (forall s, node_to_snapshot p6 n = Some s -> owner (node_key s) = node_id s) ->
  t_wf owner t -> t_wf owner (upsert_node p6 t n).
Proof.
  intros Ho [Hk Hi]. unfold upsert_node. destruct (node_to_snapshot p6 n) as [s|]; [|done].
  specialize (Ho s eq_refl). split; cbn [t_peers t_ids].
  - intros k p [[<- <-]|[_ Hp]]%lookup_insert_Some; [done|auto].
  - intros i k [[<- <-]|[Hne Hl]]%lookup_insert_Some; [rewrite lookup_insert_eq; eauto|].
    destruct (Hi _ _ Hl) as (p & Hp & <-). exists p. split; [|done].
    rewrite lookup_insert_ne; [done|]. intros <-. destruct (Hk _ _ Hp) as [_ Hown]. congruence.
Qed.

Lemma upsert_nodes_wf nodes : forall t,
  (forall n s, n ∈ nodes -> node_to_snapshot p6 n = Some s -> owner (node_key s) = node_id s) ->
  t_wf owner t -> t_wf owner (foldl (upsert_node p6) t nodes).
Proof.
  induction nodes as [|n nodes IH]; intros t Ho Hwf; [done|]. cbn [foldl]. apply IH.
  - intros n' s Hn. apply Ho. by apply elem_of_cons; right.
  - apply upsert_node_wf; [|done]. intros s. apply Ho. by apply elem_of_cons; left.
Qed.

Lemma node_to_snapshot_key n s : node_to_snapshot p6 n = Some s -> parse_nodekey (nw_key n) = Some (node_key s).
Proof. unfold node_to_snapshot. destruct (parse_nodekey (nw_key n)); [|done]. simpl. by intros [= <-]. Qed.

(** What the sections before the patches establish: the map is the follower's,
    the removed keys are gone, nothing is rekeyed yet. *)
Record settled (ps : gmap (list Z) PeerSnapshot) t : Prop := {
  se_peers : t_peers t = del (put id ps (t_up t)) (t_rm t);
  se_gone : forall k, k ∈ t_rm t -> t_peers t !! k = None;
  se_rk : t_rk t = []
}.

Lemma apply_full_settled ps ids nodes :
  settled ps (apply_full p6 keys (mkTables ps ids [] [] [] 0 0) nodes).
Proof.
  unfold apply_full. cbn [t_peers t_up t_rm t_rk t_applied t_skipped]. set (gone := filter _ _).
  destruct (upsert_nodes_spec nodes (mkTables (del ps gone) ∅ [] ([] ++ gone) [] 0 0)) as (E1 & E2 & E3 & E4).
  cbn [t_peers t_up t_rm t_rk] in *. cbn [app] in *.
  assert (E5 : put id (del ps gone) (snaps nodes) = del (put id ps (snaps nodes)) gone).
  { apply del_put. intros s Hs Hg. subst gone. apply list_elem_of_filter in Hg as [Hg _]. apply Hg.
    apply list_elem_of_omap in Hs as (n & Hn & Hs). apply list_elem_of_omap. exists n. split; [done|].
    by apply node_to_snapshot_key. }
  split; [|intros k Hk|done].
  - by rewrite E1, E2, E3, E5.
  - rewrite E3 in Hk. rewrite E1, E5, del_lookup. by rewrite decide_True.
Qed.

(** With [keys] an enumeration of the map, only the response's nodes remain. *)
Lemma apply_full_exact ps ids nodes :
  (forall k, k ∈ keys ps <-> is_Some (ps !! k)) ->
  t_peers (apply_full p6 keys (mkTables ps ids [] [] [] 0 0) nodes) = put id ∅ (snaps nodes).
Proof.
  intros Hkeys. unfold apply_full. cbn [t_peers t_up t_rm t_rk t_applied t_skipped].
  destruct (upsert_nodes_spec nodes (mkTables (del ps (filter
    (fun k => k ∉ omap (fun n => parse_nodekey (nw_key n)) nodes) (keys ps))) ∅ [] ([] ++ filter
    (fun k => k ∉ omap (fun n => parse_nodekey (nw_key n)) nodes) (keys ps)) [] 0 0)) as (E1 & _).
  rewrite E1. cbn [t_peers]. apply map_eq. intros k.
  destruct (decide (k ∈ map node_key (snaps nodes))) as [Hin|Hout]; [by apply put_base|].
  rewrite !put_other, lookup_empty, del_lookup by done. case_decide as Hg; [done|].
  destruct (ps !! k) as [p|] eqn:E; [|done]. exfalso. apply Hg, list_elem_of_filter.
  split; [|apply Hkeys; eauto]. intros (n & Hn & Hk)%list_elem_of_omap. apply Hout.
  assert (exists s, node_to_snapshot p6 n = Some s) as [s Hs] by (unfold node_to_snapshot; rewrite Hk; eauto).
  apply list_elem_of_fmap. exists s. split; [apply node_to_snapshot_key in Hs; congruence|].
  apply list_elem_of_omap. eauto.
Qed.

Lemma apply_full_wf ps ids nodes :
  (forall n s, n ∈ nodes -> node_to_snapshot p6 n = Some s -> owner (node_key s) = node_id s) ->
  tables_wf owner ps ids -> t_wf owner (apply_full p6 keys (mkTables ps ids [] [] [] 0 0) nodes).
Proof.
  intros Ho [Hk Hi]. unfold apply_full. apply upsert_nodes_wf; [done|]. split; cbn [t_peers t_ids].
  - intros k p. rewrite del_lookup. case_decide; [done|]. auto.
  - intros i k. by rewrite lookup_empty.
Qed.

Lemma upsert_settled ps ids nodes : settled ps (foldl (upsert_node p6) (mkTables ps ids [] [] [] 0 0) nodes).
Proof.
  destruct (upsert_nodes_spec nodes (mkTables ps ids [] [] [] 0 0)) as (E1 & E2 & E3 & E4).
  cbn [t_peers t_up t_rm t_rk] in *. split; [by rewrite E1, E2, E3| |done].
  intros k. rewrite E3. intros Hk. by apply elem_of_nil in Hk.
Qed.

(** ** Removals *)

Lemma remove_node_settled ps t i : settled ps t -> settled ps (remove_node t i).
Proof.
  intros [E1 E2 E3]. unfold remove_node. destruct (t_ids t !! i) as [k|]; [|done].
  split; cbn [t_peers t_up t_rm t_rk]; [by rewrite foldl_app, E1| |done].
  intros k' [Hk|Hk%list_elem_of_singleton]%elem_of_app; rewrite lookup_delete; case_decide; auto. congruence.
Qed.

Lemma remove_node_wf t i : t_wf owner t -> t_wf owner (remove_node t i).
Proof.
  intros [Hk Hi]. unfold remove_node. destruct (t_ids t !! i) as [k|] eqn:E; [|done].
  destruct (Hi _ _ E) as (p & Hp & <-). split; cbn [t_peers t_ids].
  - intros k' p' [_ Hp']%lookup_delete_Some. auto.
  - intros j k' [Hne Hj]%lookup_delete_Some. destruct (Hi _ _ Hj) as (p' & Hp' & <-).
    exists p'. split; [|done]. rewrite lookup_delete_ne; [done|]. intros ->. congruence.
Qed.

Lemma remove_nodes_ok ps rids : forall t,
  settled ps t /\ t_wf owner t ->
  settled ps (foldl remove_node t rids) /\ t_wf owner (foldl remove_node t rids).
Proof.
  induction rids as [|i rids IH]; intros t [H1 H2]; [done|]. cbn [foldl]. apply IH.
  split; [by apply remove_node_settled|by apply remove_node_wf].
Qed.

(** ** Patches *)

(** The three outcomes of a patch. *)
Lemma apply_patch_cases t c (t' := apply_patch p6 t c) :
  t_wf owner t ->
  (forall k, pc_key c ≫= parse_nodekey = Some k -> owner k = pc_node_id c) ->
  t_wf owner t' /\ t_rm t' = t_rm t /\
  ((t_peers t' = t_peers t /\ t_up t' = t_up t /\ t_rk t' = t_rk t) \/
   (exists p, owner (node_key p) = pc_node_id c /\ is_Some (t_peers t !! node_key p) /\
      t_peers t' = <[node_key p := p]> (t_peers t) /\ t_up t' = t_up t ++ [p] /\ t_rk t' = t_rk t) \/
   (exists k p, owner k = pc_node_id c /\ owner (node_key p) = pc_node_id c /\
      t_peers t' = <[node_key p := p]> (delete k (t_peers t)) /\ t_up t' = t_up t /\
      t_rk t' = t_rk t ++ [mkRekeyed k p])).
Proof.
  intros Hwf Ho. pose proof Hwf as [Hk Hi]. subst t'. unfold apply_patch.
  destruct (t_ids t !! pc_node_id c) as [k|] eqn:Eid; [|by split; [|split; [|left]]].
  destruct (Hi _ _ Eid) as (p & Hp & Hid). rewrite Hp. destruct (Hk _ _ Hp) as [Hpk Hown].
  assert (Hplain : forall a sk, let q := apply_patch_fields p6 p c in
    t_wf owner (mkTables (<[k := q]> (t_peers t)) (t_ids t) (t_up t ++ [q]) (t_rm t) (t_rk t) a sk)).
  { intros a sk q. split; cbn [t_peers t_ids].
    - intros k' p' [[<- <-]|[_ Hp']]%lookup_insert_Some; [done|auto].
    - intros j k' Hj. destruct (Hi _ _ Hj) as (p' & Hp' & <-). destruct (decide (k = k')) as [<-|Hne].
      + exists q. rewrite lookup_insert_eq. split; [done|]. change (node_id p = node_id p'). congruence.
      + exists p'. by rewrite lookup_insert_ne. }
  assert (Hk' : node_key (apply_patch_fields p6 p c) = k) by done.
  destruct (pc_key c ≫= parse_nodekey) as [nk|] eqn:Enk; [destruct (decide (nk = k)) as [->|Hne]|].
  1,3: split; [apply Hplain|]; split; [done|]; right; left; exists (apply_patch_fields p6 p c); rewrite Hk';
    split_and!; try done; congruence.
  specialize (Ho nk eq_refl). set (q := apply_patch_fields p6 _ c).
  split; [|split; [done|]; right; right; exists k, q; split_and!; try done; congruence].
  split; cbn [t_peers t_ids].
  - intros k' p' [[<- <-]|[_ [_ Hp']%lookup_delete_Some]]%lookup_insert_Some; [|auto].
    split; [done|]. change (owner nk = node_id p). congruence.
  - intros j k'. change (node_id q) with (node_id p). rewrite Hid.
    intros [[<- <-]|[Hj Hl]]%lookup_insert_Some.
    + exists q. rewrite lookup_insert_eq. split; [done|]. exact Hid.
    + destruct (Hi _ _ Hl) as (p' & Hp' & <-). destruct (Hk _ _ Hp') as [_ Hown'].
      exists p'. split; [|done]. rewrite lookup_insert_ne by congruence. rewrite lookup_delete_ne by congruence.
      done.
Qed.

(** A list of patches with distinct nodes: its upserts and its rekeyings can be
    replayed in two phases. *)
Lemma apply_patches_follow cs : forall t (t' := foldl (apply_patch p6) t cs),
  t_wf owner t ->
  (forall c k, c ∈ cs -> pc_key c ≫= parse_nodekey = Some k -> owner k = pc_node_id c) ->
  NoDup (map pc_node_id cs) ->
  t_wf owner t' /\ t_rm t' = t_rm t /\ exists U K,
    t_up t' = t_up t ++ U /\ t_rk t' = t_rk t ++ K /\
    t_peers t' = rekey id (put id (t_peers t) U) K /\
    Forall (fun p => is_Some (t_peers t !! node_key p) /\ owner (node_key p) ∈ map pc_node_id cs) U.
Proof.
  induction cs as [|c cs IH]; intros t t' Hwf Ho Hnd; subst t'; cbn [foldl map] in *.
  { split; [done|]. split; [done|]. exists [], []. by rewrite !app_nil_r. }
  apply list.NoDup_cons in Hnd as [Hc Hnd].
  destruct (apply_patch_cases t c Hwf) as (Hwf1 & Erm & Hcase).
  { intros k. apply Ho. by apply elem_of_cons; left. }
  destruct (IH (apply_patch p6 t c) Hwf1) as (Hwf' & Erm' & U & K & E1 & E2 & E3 & HU); [|done|].
  { intros c' k Hin. apply Ho. by apply elem_of_cons; right. }
  split; [done|]. split; [congruence|]. rewrite E1, E2, E3.
  destruct Hcase as [(P1 & P2 & P3)|[(p & Hp & Hs & P1 & P2 & P3)|(k & p & Hk & Hp & P1 & P2 & P3)]].
  - exists U, K. rewrite P1, P2, P3 in *. split_and!; try done. eapply list.Forall_impl; [exact HU|].
    intros x [? ?]. split; [done|]. by apply elem_of_cons; right.
  - exists (p :: U), K. rewrite P1, P2, P3 in *. split_and!; [by rewrite <- app_assoc|done|done|].
    apply Forall_cons_2; [split; [done|]; by apply elem_of_cons; left|].
    eapply list.Forall_impl; [exact HU|]. intros x [Hx ?]. split; [|by apply elem_of_cons; right].
    rewrite lookup_insert_ne in Hx by (intros Heq; congruence). done.
  - exists U, (mkRekeyed k p :: K). rewrite P1, P2, P3 in *.
    assert (Hne : forall k', owner k' = pc_node_id c -> k' ∉ map node_key U).
    { intros k' Hk' Hin. apply list_elem_of_fmap in Hin as (x & -> & Hx).
      rewrite list.Forall_forall in HU. destruct (HU x Hx) as [_ Hin']. congruence. }
    split_and!; [done|by rewrite <- app_assoc| |].
    + cbn [foldl rk_snapshot old_key]. by rewrite put_insert, put_delete by auto.
    + eapply list.Forall_impl; [exact HU|]. intros x [Hx Hin]. split; [|by apply elem_of_cons; right].
      rewrite lookup_insert_ne in Hx by congruence. rewrite lookup_delete_ne in Hx by congruence. done.
Qed.

Lemma apply_peers_follow ps ids r (t' := apply_peers p6 keys (mkTables ps ids [] [] [] 0 0) r) :
  tables_wf owner ps ids -> frame_ok p6 owner r ->
  t_wf owner t' /\ t_peers t' = follow id (t_up t') (t_rm t') (t_rk t') ps.
Proof.
  intros Hwf [F1 F2 F3 F4]. subst t'. unfold apply_peers.
  set (t1 := foldl (upsert_node p6) _ _).
  assert (H1 : settled ps t1 /\ t_wf owner t1).
  { subst t1. destruct F4 as [E|E]; rewrite E in *; cbn [opt_list default] in *.
    - split; [apply upsert_settled|]. by apply upsert_nodes_wf.
    - destruct (mr_peers r) as [nodes|]; [|by split; [apply (upsert_settled _ _ [])|]].
      cbn [foldl]. split; [apply apply_full_settled|]. apply apply_full_wf; [|done].
      intros n s Hn. apply F1. cbn. rewrite app_nil_r. done. }
  apply (remove_nodes_ok ps (opt_list (mr_peers_removed r))) in H1 as [[E1 E2 E3] Hwf2].
  set (t2 := foldl remove_node t1 _) in *.
  destruct (apply_patches_follow (opt_list (mr_patches r)) t2 Hwf2 F2 F3)
    as (Hwf3 & Erm & U & K & G1 & G2 & G3 & HU).
  split; [done|]. rewrite G1, G2, G3, Erm, E3. unfold follow. cbn [app]. f_equal.
  rewrite foldl_app. rewrite E1. apply del_put. intros x Hx Hin.
  rewrite list.Forall_forall in HU. destruct (HU x Hx) as [[y Hy] _].
  specialize (E2 _ Hin). congruence.
Qed.

End MapLemmas.

(** ** The engine *)

Section EngineFollows.
Context {T : Type} `{TunnOps T}.
Implicit Types e : Engine T.

(** The registered peers and their routes. *)
Definition engine_routes e : gmap (list Z) (list Ipv4Cidr) :=
  omap (fun p => allowed_ips <$> store e !! p) (by_pubkey e).

Lemma routes_lookup e k :
  engine_routes e !! k = p ← by_pubkey e !! k; allowed_ips <$> store e !! p.
Proof. unfold engine_routes. by rewrite lookup_omap. Qed.

Lemma remove_routes e k : wf_engine e -> engine_routes (indices_remove k e) = delete k (engine_routes e).
Proof.
  intros Hwf. apply map_eq. intros k'. rewrite lookup_delete, !routes_lookup.
  destruct (by_pubkey e !! k) as [p|] eqn:Hk.
  - destruct (indices_remove_unfold e k p Hwf Hk) as (i & _ & ->). cbn [by_pubkey store].
    rewrite lookup_delete. by case_decide.
  - unfold indices_remove. rewrite Hk. case_decide; [|done]. subst. by rewrite Hk.
Qed.

Lemma rebuild_routes e cfg :
  wf_engine e -> engine_routes (rebuild_peer cfg e) = <[cfg_pubkey cfg := cfg_allowed_ips cfg]> (engine_routes e).
Proof.
  intros Hwf. apply map_eq. intros k. pose proof (remove_routes e (cfg_pubkey cfg) Hwf) as Hr.
  destruct (indices_remove_wf e (cfg_pubkey cfg) Hwf) as [Hwf1 _].
  unfold rebuild_peer. set (e1 := indices_remove (cfg_pubkey cfg) e) in *.
  assert (Hk : engine_routes e1 !! k = delete (cfg_pubkey cfg) (engine_routes e) !! k) by (by rewrite Hr).
  rewrite routes_lookup in Hk |- *. cbn [indices_insert by_pubkey store pubkey].
  rewrite lookup_insert. rewrite lookup_delete in Hk. rewrite lookup_insert.
  case_decide as Heq; cbn [mbind option_bind]; [by rewrite lookup_insert_eq|].
  rewrite <- Hk. destruct (by_pubkey e1 !! k) as [p|] eqn:Hp; [|done]. cbn [mbind option_bind].
  rewrite lookup_insert_ne; [done|]. intros <-. destruct (wf_pub _ Hwf1 _ _ Hp) as (i & ips & Hi & _).
  assert (next_ptr e1 < next_ptr e1)%nat by (apply (wf_ptr _ Hwf1); eauto). lia.
Qed.

Lemma upsert_routes e cfg :
  wf_engine e -> engine_routes (upsert_peer cfg e) = <[cfg_pubkey cfg := cfg_allowed_ips cfg]> (engine_routes e).
Proof.
  intros Hwf. destruct (by_pubkey e !! cfg_pubkey cfg) as [p|] eqn:Hk.
  - destruct (wf_pub _ Hwf _ _ Hk) as (i & ips & Hi & _).
    apply info_lookup in Hi as (peer & Hp & _).
    destruct (decide (allowed_ips peer = cfg_allowed_ips cfg)) as [Heq|Hne].
    + rewrite (upsert_fast e cfg p peer) by done.
      rewrite insert_id by (rewrite routes_lookup, Hk; cbn [mbind option_bind]; rewrite Hp; cbn; by rewrite Heq).
      destruct (cfg_endpoint cfg) as [ep|]; [|done].
      apply map_eq. intros k. rewrite !routes_lookup. cbn [upd with_store by_pubkey store].
      change (by_pubkey (upd p (set_transport_addr ep) e)) with (by_pubkey e).
      destruct (by_pubkey e !! k) as [q|]; [|done]. cbn [mbind option_bind].
      rewrite upd_store. case_decide; [|done]. subst q. by destruct (store e !! p).
    + rewrite upsert_rebuild; [by apply rebuild_routes|]. intros q peer' Hq Hpeer'. congruence.
  - rewrite upsert_rebuild; [by apply rebuild_routes|]. congruence.
Qed.

Lemma upsert_next e cfg :
  wf_engine e -> next_idx e + 1 < 2 ^ 32 -> next_idx (upsert_peer cfg e) <= next_idx e + 1.
Proof.
  intros Hwf Hn. pose proof (wf_next _ Hwf).
  assert (Hr : next_idx (rebuild_peer cfg e) <= next_idx e + 1).
  { cbn [rebuild_peer indices_insert next_idx]. rewrite indices_remove_next. unfold wrap.
    rewrite Z.mod_small by lia. lia. }
  unfold upsert_peer. fold (rebuild_peer cfg e). destruct (_ ≫= _) as [[p peer]|]; [|exact Hr].
  case_decide; [|exact Hr]. destruct (cfg_endpoint cfg); [change (next_idx e <= next_idx e + 1)|]; lia.
Qed.

(** The engine after a sequence of upserts, with [g] the configuration of each. *)
Lemma upserts_routes {A} (g : A -> PeerConfig) (l : list A) : forall e,
  wf_engine e -> next_idx e + Z.of_nat (length l) < 2 ^ 32 ->
  let e' := foldl (fun e a => upsert_peer (g a) e) e l in
  wf_engine e' /\ next_idx e' <= next_idx e + Z.of_nat (length l) /\
  engine_routes e' = foldl (fun m a => <[cfg_pubkey (g a) := cfg_allowed_ips (g a)]> m) (engine_routes e) l.
Proof.
  induction l as [|a l IH]; intros e Hwf Hn; cbn [foldl length] in *; [split_and!; [done|lia|done]|].
  pose proof (upsert_next e (g a) Hwf ltac:(lia)).
  destruct (IH (upsert_peer (g a) e)) as (H1 & H2 & H3); [apply upsert_wf; [done|lia]|lia|].
  split_and!; [done|lia|]. by rewrite H3, upsert_routes.
Qed.

Lemma removes_routes (ks : list (list Z)) : forall e,
  wf_engine e ->
  let e' := foldl (fun e k => remove_peer k e) e ks in
  wf_engine e' /\ next_idx e' = next_idx e /\ engine_routes e' = del (engine_routes e) ks.
Proof.
  induction ks as [|k ks IH]; intros e Hwf; cbn [foldl]; [done|].
  destruct (indices_remove_wf e k Hwf) as [Hwf1 _].
  destruct (IH (remove_peer k e) Hwf1) as (H1 & H2 & H3). unfold remove_peer in *.
  split_and!; [done|by rewrite H2, indices_remove_next|]. by rewrite H3, remove_routes.
Qed.

Lemma rekeys_routes our_home (l : list RekeyedPeer) : forall e,
  wf_engine e -> next_idx e + Z.of_nat (length l) < 2 ^ 32 ->
  let e' := foldl (fun e r => upsert_peer (engine_peer_config our_home (rk_snapshot r)) (remove_peer (old_key r) e))
              e l in
  wf_engine e' /\
  engine_routes e' = rekey (fun p => engine_allowed_ips (sn_allowed_ips p)) (engine_routes e) l.
Proof.
  induction l as [|r l IH]; intros e Hwf Hn; cbn [foldl length] in *; [done|]. unfold remove_peer in *.
  destruct (indices_remove_wf e (old_key r) Hwf) as [Hwf1 _].
  pose proof (indices_remove_next e (old_key r)) as Hnext. set (e1 := indices_remove (old_key r) e) in *.
  set (cfg := engine_peer_config our_home (rk_snapshot r)).
  pose proof (upsert_next e1 cfg Hwf1 ltac:(lia)).
  destruct (IH (upsert_peer cfg e1)) as (H1 & H2); [apply upsert_wf; [done|lia]|lia|].
  split; [done|]. rewrite H2, upsert_routes by done. subst e1. by rewrite remove_routes.
Qed.

Lemma push_delta_routes d pf our_home e :
  wf_engine e -> next_idx e + Z.of_nat (length (upserted d) + length (rekeyed d)) < 2 ^ 32 ->
  let e' := push_delta_to_engine d pf our_home e in
  wf_engine e' /\
  engine_routes e' = follow (fun p => engine_allowed_ips (sn_allowed_ips p)) (upserted d) (removed d) (rekeyed d)
                       (engine_routes e).
Proof.
  intros Hwf Hn. unfold push_delta_to_engine. set (e0 := if packet_filter_changed d then _ else _).
  assert (H0 : wf_engine e0 /\ next_idx e0 = next_idx e /\ engine_routes e0 = engine_routes e).
  { subst e0. destruct (packet_filter_changed d); [|done]. destruct pf; [|done].
    split; [by apply set_policy_wf|done]. }
  destruct H0 as (Hwf0 & Hn0 & Hr0).
  destruct (upserts_routes (engine_peer_config our_home) (upserted d) e0 Hwf0 ltac:(lia)) as (H1 & H2 & H3).
  destruct (removes_routes (removed d) _ H1) as (H4 & H5 & H6).
  destruct (rekeys_routes our_home (rekeyed d) _ H4 ltac:(lia)) as (H7 & H8).
  split; [done|]. cbn zeta. unfold follow. rewrite H8, H6, H3, Hr0. done.
Qed.

End EngineFollows.

(** [apply] acts on the peers through [apply_peers] alone. *)
Lemma apply_tables p6 keys nm r
    (t := apply_peers p6 keys (mkTables (nm_peers nm) (id_to_key nm) [] [] [] 0 0) r)
    (nm' := (apply p6 keys nm r).1) (d := (apply p6 keys nm r).2) :
  nm_peers nm' = t_peers t /\ id_to_key nm' = t_ids t /\
  upserted d = t_up t /\ removed d = t_rm t /\ rekeyed d = t_rk t /\
  (if packet_filter_changed d then is_Some (packet_filter nm') else packet_filter nm' = packet_filter nm).
Proof.
  subst t nm' d. unfold apply.
  assert (Hself : let '(nm1, _) := match mr_node r with Some n => apply_self nm n | None => (nm, false) end in
    nm_peers nm1 = nm_peers nm /\ id_to_key nm1 = id_to_key nm /\ packet_filter nm1 = packet_filter nm)
    by (by destruct (mr_node r)).
  destruct (match mr_node r with Some n => apply_self nm n | None => (nm, false) end) as [nm1 ch].
  destruct Hself as (-> & -> & ->). destruct (match mr_derp_map r with Some _ => _ | None => _ end).
  destruct (mr_packet_filter r); [done|]. case_bool_decide; cbn; split_and!; eauto.
Qed.

Lemma apply_follow p6 keys owner nm r (nm' := (apply p6 keys nm r).1) (d := (apply p6 keys nm r).2) :
  tables_wf owner (nm_peers nm) (id_to_key nm) -> frame_ok p6 owner r ->
  tables_wf owner (nm_peers nm') (id_to_key nm') /\
  nm_peers nm' = follow id (upserted d) (removed d) (rekeyed d) (nm_peers nm).
Proof.
  intros Hwf Hr. destruct (apply_tables p6 keys nm r) as (E1 & E2 & E3 & E4 & E5 & _). subst nm' d.
  rewrite E1, E2, E3, E4, E5. by apply apply_peers_follow.
Qed.

(** A map session: the responses in order, with the delta of each. *)
Fixpoint map_session p6 keys (nm : NetMap) (rs : list MapResponseWire) : NetMap * list NetMapDelta :=
  match rs with
  | [] => (nm, [])
  | r :: rest =>
      let '(nm1, d) := apply p6 keys nm r in
      let '(nm2, ds) := map_session p6 keys nm1 rest in (nm2, d :: ds)
  end.

(** ** The consumers mirror the map *)

Section Mirror.
Context {T : Type} `{TunnOps T}.

Definition engine_policy (pf : option PacketFilter) : InboundPolicy :=
  match pf with Some p => engine_packet_filter p | None => DenyAll end.

(** The engine and the region table hold what the network map says. *)
Record mirrors (our_home : Z) (e : Engine T) (regions : gmap (list Z) Z) (nm : NetMap) : Prop := {
  mi_wf : wf_engine e;
  mi_routes : engine_routes e = (fun p => engine_allowed_ips (sn_allowed_ips p)) <$> nm_peers nm;
  mi_policy : inbound_policy e = engine_policy (packet_filter nm);
  mi_regions : regions = (fun p => peer_region p our_home) <$> nm_peers nm
}.

Lemma remove_policy k (e : Engine T) : inbound_policy (remove_peer k e) = inbound_policy e.
Proof. unfold remove_peer, indices_remove. by repeat case_match. Qed.

Lemma upsert_policy cfg (e : Engine T) : inbound_policy (upsert_peer cfg e) = inbound_policy e.
Proof.
  assert (Hr : inbound_policy (rebuild_peer cfg e) = inbound_policy e) by apply remove_policy.
  unfold upsert_peer. fold (rebuild_peer cfg e). destruct (_ ≫= _) as [[p peer]|]; [|exact Hr].
  case_decide; [|exact Hr]. by destruct (cfg_endpoint cfg).
Qed.

Lemma foldl_policy {A} (step : Engine T -> A -> Engine T) (l : list A) :
  (forall e a, inbound_policy (step e a) = inbound_policy e) ->
  forall e, inbound_policy (foldl step e l) = inbound_policy e.
Proof. intros Hs. induction l as [|a l IH]; intros e; [done|]. cbn [foldl]. by rewrite IH, Hs. Qed.

Lemma push_delta_policy d pf our_home (e : Engine T) :
  inbound_policy (push_delta_to_engine d pf our_home e) =
  if packet_filter_changed d then match pf with Some p => engine_packet_filter p | None => inbound_policy e end
  else inbound_policy e.
Proof.
  unfold push_delta_to_engine.
  rewrite !foldl_policy by (intros; rewrite ?upsert_policy, ?remove_policy; done).
  by destruct (packet_filter_changed d), pf.
Qed.
End Mirror.

(** ** The packet filter *)

(** What a rule of the control plane permits, read off its text. *)
Definition wire_permits (w : FilterRuleWire) (src dst protocol : Z) (dst_port : option Z) : Prop :=
  (exists s c, s ∈ fw_src_ips w /\ parse_filter_cidr s = Some c /\ in_net (engine_cidr c) src) /\
  (fw_ip_proto w = [] \/ protocol ∈ fw_ip_proto w) /\
  (exists d c, d ∈ fw_dst_ports w /\ parse_filter_cidr (rw_ip d) = Some c /\ in_net (engine_cidr c) dst /\
               rw_first d <= default 0 dst_port <= rw_last d).

Lemma parse_filter_cidr_wf s c : parse_filter_cidr s = Some c -> cidr_wf (engine_cidr c).
Proof.
  unfold parse_filter_cidr. case_decide; [intros [= <-]; vm_compute; intuition congruence|].
  destruct (parse_ipv4 s) as [a|] eqn:Ea.
  { intros [= <-]. split; cbn; [by eapply parse_ipv4_wf|lia]. }
  unfold parse_ipv4_cidr. destruct (split_once 47 s) as [[ip px]|]; [|done]. cbn [mbind option_bind].
  destruct (parse_ipv4 ip) as [a|] eqn:Ei; [|done]. cbn [mbind option_bind].
  destruct (parse_u8 px) as [n|] eqn:En; [|done]. cbn [mbind option_bind].
  destruct (32 <? n) eqn:E32; [done|]. intros [= <-]. apply Z.ltb_ge in E32.
  split; cbn; [by eapply parse_ipv4_wf|]. unfold parse_u8 in En. apply from_str_radix_bound in En; lia.
Qed.

Lemma range_from_wire_spec d r : range_from_wire d = Some r ->
  exists c, parse_filter_cidr (rw_ip d) = Some c /\ rw_first d <= rw_last d /\
            r = mkNmPortRange c (rw_first d) (rw_last d).
Proof.
  unfold range_from_wire. destruct (parse_filter_cidr (rw_ip d)) as [c|]; [|done]. cbn [mbind option_bind].
  destruct (rw_first d <=? rw_last d) eqn:E; [|done]. intros [= <-]. apply Z.leb_le in E. eauto.
Qed.

Definition engine_range (d : NmPortRange) : NetPortRange := mkRange (engine_cidr (nr_ip d)) (nr_first d) (nr_last d).
Definition engine_rule (r : NmFilterRule) : FilterRule :=
  mkRule (map engine_cidr (nf_src_ips r)) (map engine_range (nf_dst_ports r)) (nf_ip_protocols r).

Lemma filter_rule_wf w r :
  Forall (fun d => 0 <= rw_first d) (fw_dst_ports w) ->
  filter_rule_from_wire w = Some r -> rule_wf (engine_rule r).
Proof.
  intros Hw. rewrite list.Forall_forall in Hw. unfold filter_rule_from_wire.
  destruct (_ && _); [|done]. intros [= <-]. split; cbn [engine_rule src_ips dst_ports nf_src_ips nf_dst_ports].
  - apply Forall_fmap, list.Forall_forall. intros c (s & Hs & Hc)%list_elem_of_omap.
    by eapply parse_filter_cidr_wf.
  - apply Forall_fmap, list.Forall_forall. intros x (d & Hd & Hx)%list_elem_of_omap.
    apply range_from_wire_spec in Hx as (c & Hc & Hle & ->). split; [by eapply parse_filter_cidr_wf|].
    specialize (Hw d Hd). cbn. lia.
Qed.

Lemma omap_nonempty {A B} (f : A -> option B) l : negb (is_empty (omap f l)) = true <-> exists x y, x ∈ l /\ f x = Some y.
Proof.
  split.
  - destruct (omap f l) as [|y r] eqn:E; [done|]. intros _.
    assert (Hy : y ∈ omap f l) by (rewrite E; apply elem_of_cons; by left).
    apply list_elem_of_omap in Hy as (x & Hx & Hf). eauto.
  - intros (x & y & Hx & Hf). assert (Hy : y ∈ omap f l) by (apply list_elem_of_omap; eauto).
    destruct (omap f l); [by apply elem_of_nil in Hy|done].
Qed.

Lemma filter_rule_permits w src dst protocol dst_port :
  (exists r, filter_rule_from_wire w = Some r /\ rule_permits (engine_rule r) src dst protocol dst_port) <->
  wire_permits w src dst protocol dst_port.
Proof.
  unfold filter_rule_from_wire, wire_permits, rule_permits. split.
  - intros (r & Hr & (c & Hc & Hs) & Hp & (x & Hx & Hd & Hport)).
    destruct (_ && _); [|done]. injection Hr as <-. cbn [engine_rule src_ips dst_ports ip_protocols] in *.
    apply list_elem_of_fmap in Hc as (a & -> & (s & Hin & Ha)%list_elem_of_omap).
    apply list_elem_of_fmap in Hx as (n & -> & (d & Hin' & Hn)%list_elem_of_omap).
    apply range_from_wire_spec in Hn as (c & Hc & Hle & ->). cbn in *.
    split_and!; [eauto|done|]. exists d, c. done.
  - intros ((s & a & Hs & Ha & Hin) & Hp & (d & c & Hd & Hc & Hin' & Hport)).
    assert (Hrange : range_from_wire d = Some (mkNmPortRange c (rw_first d) (rw_last d))).
    { unfold range_from_wire. rewrite Hc. cbn [mbind option_bind].
      rewrite (proj2 (Z.leb_le _ _)) by lia. done. }
    rewrite (proj2 (omap_nonempty parse_filter_cidr (fw_src_ips w))) by eauto.
    rewrite (proj2 (omap_nonempty range_from_wire (fw_dst_ports w))) by eauto. cbn [andb].
    eexists. split; [done|]. cbn [engine_rule src_ips dst_ports ip_protocols nf_src_ips nf_dst_ports nf_ip_protocols].
    split_and!; [|done|].
    + exists (engine_cidr a). split; [|done]. apply list_elem_of_fmap. exists a. split; [done|].
      apply list_elem_of_omap. eauto.
    + exists (engine_range (mkNmPortRange c (rw_first d) (rw_last d))). split; [|done].
      apply list_elem_of_fmap. eexists. split; [done|]. apply list_elem_of_omap. eauto.
Qed.

(** ** A concrete session, for the witnesses *)

(** A node whose key is 32 bytes of value [17 * d], [d] a digit; its id is that byte. *)
Definition toy_node (d : Z) (addr : list Z) : NodeWire :=
  mkNodeWire (17 * d) 0 [] (bs "nodekey:" ++ repeat (48 + d) 64) [] [addr ++ bs "/32"] [] 1 [] None [] [] None None.
Definition toy_full : MapResponseWire :=
  mkMapResponse [] 1 None None (Some [toy_node 1 (bs "100.64.0.1"); toy_node 2 (bs "100.64.0.2")]) None None None
    [] [] (PfWireRules [mkRuleWire [bs "*"] [mkRangeWire (bs "*") 0 65535] []]).
(** Node 17 goes, node 34 rotates its key to 0x44, ... *)
Definition toy_change : MapResponseWire :=
  mkMapResponse [] 2 None None None None (Some [17])
    (Some [mkPeerChange 34 (Some (bs "nodekey:" ++ repeat 52 64)) None None None None (Some true) None None])
    [] [] PfMissing.
(** Key 0x44 belongs to node 34, any other to the node of its first byte. *)
Definition toy_owner (k : list Z) : Z := if (hd 0 k =? 68) then 34 else hd 0 k.
Definition toy_keys (m : gmap (list Z) PeerSnapshot) : list (list Z) := (map_to_list m).*1.
Definition no_v6 (s : list Z) : option SocketAddr := None.

Lemma toy_full_ok : frame_ok no_v6 toy_owner toy_full.
Proof.
  split; [|intros c k Hc; by apply elem_of_nil in Hc|constructor|by right].
  intros n s Hn. cbn in Hn. repeat (apply elem_of_cons in Hn as [->|Hn]); [..|by apply elem_of_nil in Hn];
    vm_compute; by intros [= <-].
Qed.

Lemma toy_change_ok : frame_ok no_v6 toy_owner toy_change.
Proof.
  split; [intros n s Hn; by apply elem_of_nil in Hn| | |by left].
  - intros c k Hc. cbn in Hc. apply elem_of_cons in Hc as [->|Hc]; [|by apply elem_of_nil in Hc].
    vm_compute. by intros [= <-].
  - repeat constructor. apply not_elem_of_nil.
Qed.

Lemma default_wf owner : tables_wf owner (nm_peers NetMap_default) (id_to_key NetMap_default).
Proof. split; cbn; intros ? ?; by rewrite lookup_empty. Qed.

(** * Properties *)

(** C3: over a whole map session the network map's tables stay consistent (every
    id resolves to a present peer with that id, every peer sits under its own
    key), and the deltas it hands out are faithful: a consumer that replays
    each delta's upserts, then its removals, then its rekeyings on the peer map
    it started from holds the current peer map.  Each response is a full set or
    a set of changes, names a node key for one node only, and patches a node at
    most once. *)
Theorem netmap_delta_refines p6 keys owner rs : forall nm,
  tables_wf owner (nm_peers nm) (id_to_key nm) -> Forall (frame_ok p6 owner) rs ->
  let '(nm', ds) := map_session p6 keys nm rs in
  tables_wf owner (nm_peers nm') (id_to_key nm') /\
  nm_peers nm' = foldl (fun m d => follow id (upserted d) (removed d) (rekeyed d) m) (nm_peers nm) ds.
Proof.
  induction rs as [|r rs IH]; intros nm Hwf Hrs; [done|]. apply Forall_cons_1 in Hrs as [Hr Hrs].
  destruct (apply_follow p6 keys owner nm r Hwf Hr) as [Hwf1 E1]. cbn [map_session].
  destruct (apply p6 keys nm r) as [nm1 d]. cbn [fst snd] in *. specialize (IH nm1 Hwf1 Hrs).
  destruct (map_session p6 keys nm1 rs) as [nm2 ds]. destruct IH as [Hwf2 E2]. split; [done|].
  cbn [foldl]. by rewrite <- E1.
Qed.

Lemma netmap_delta_refines_witness :
  let '(nm', ds) := map_session no_v6 toy_keys NetMap_default [toy_full; toy_change] in
  (map_to_list (nm_peers nm')).*1 = [repeat 68 32] /\
  nm_peers nm' = foldl (fun m d => follow id (upserted d) (removed d) (rekeyed d) m) ∅ ds.
Proof.
  pose proof (netmap_delta_refines no_v6 toy_keys toy_owner [toy_full; toy_change] NetMap_default
    (default_wf _) (Forall_cons_2 _ _ _ toy_full_ok (Forall_cons_2 _ _ _ toy_change_ok (Forall_nil_2 _)))) as Hs.
  assert (Hk : (map_to_list (nm_peers
     (map_session no_v6 toy_keys NetMap_default [toy_full; toy_change]).1)).*1 = [repeat 68 32])
    by (vm_compute; reflexivity).
  destruct (map_session _ _ _ _) as [nm' ds]. split; [exact Hk|apply Hs].
Defined.

(** a response with a full peer set replaces the peers: afterwards the map
    holds exactly the nodes of the response whose key is readable, a later node
    winning over an earlier one with its key, whatever the map held before;
    [keys] lists the keys of a map in any order. *)
Theorem full_response_replaces p6 keys nm r nodes :
  (forall m k, k ∈ keys m <-> is_Some (m !! k)) ->
  mr_peers r = Some nodes -> mr_peers_changed r = None -> mr_peers_removed r = None -> mr_patches r = None ->
  nm_peers (apply p6 keys nm r).1 =
  foldl (fun m s => <[node_key s := s]> m) ∅ (omap (node_to_snapshot p6) nodes).
Proof.
  intros Hkeys H1 H2 H3 H4. rewrite (proj1 (apply_tables p6 keys nm r)). unfold apply_peers.
  rewrite H1, H2, H3, H4. cbn [opt_list from_option foldl]. by apply apply_full_exact.
Qed.

Lemma full_response_replaces_witness :
  let nm := (apply no_v6 toy_keys NetMap_default toy_full).1 in
  let r := mkMapResponse [] 2 None None (Some [toy_node 2 (bs "100.64.0.9")]) None None None [] [] PfMissing in
  size (nm_peers nm) = 2%nat /\ map_to_list (nm_peers (apply no_v6 toy_keys nm r).1) =
  [(repeat 34 32, mkSnapshot 34 (repeat 34 32) None [] [mkAllowedIp (ipv4_new 100 64 0 9) 32] 1 false [] None None)].
Proof.
  intros nm r. split; [vm_compute; reflexivity|].
  rewrite (full_response_replaces no_v6 toy_keys nm r [toy_node 2 (bs "100.64.0.9")]); try reflexivity.
  intros m k. unfold toy_keys. rewrite list_elem_of_fmap. split.
  - intros ([k' p] & -> & Hp%elem_of_map_to_list). eauto.
  - intros [p Hp]. exists (k, p). split; [done|]. by apply elem_of_map_to_list.
Defined.

(** C30: applying a map response and pushing its delta keeps the engine and the
    region table equal to the network map: the engine's peers are the map's
    peers, each with the routes of its snapshot less the default routes, its
    inbound policy is the translation of the current packet filter and is
    deny-all before the first one, and every peer has its relay region. *)
Theorem consumers_mirror_netmap {T} `{TunnOps T} p6 keys owner our_home nm r (e : Engine T) regions
    (nm' := (apply p6 keys nm r).1) (d := (apply p6 keys nm r).2) :
  tables_wf owner (nm_peers nm) (id_to_key nm) -> frame_ok p6 owner r ->
  next_idx e + Z.of_nat (length (upserted d) + length (rekeyed d)) < 2 ^ 32 ->
  mirrors our_home e regions nm ->
  mirrors our_home (push_delta_to_engine d (packet_filter nm') our_home e)
    (update_peer_regions d our_home regions) nm'.
Proof.
  intros Hwf Hr Hn [M1 M2 M3 M4].
  destruct (apply_follow p6 keys owner nm r Hwf Hr) as [_ E]. fold nm' d in E.
  destruct (push_delta_routes d (packet_filter nm') our_home e M1 Hn) as [P1 P2].
  split; [done| | |].
  - by rewrite P2, M2, E, follow_fmap.
  - rewrite push_delta_policy. destruct (apply_tables p6 keys nm r) as (_ & _ & _ & _ & _ & Hp). fold nm' d in Hp.
    destruct (packet_filter_changed d); [|by rewrite M3, Hp]. by destruct Hp as [x ->].
  - change (update_peer_regions d our_home regions)
      with (follow (fun p => peer_region p our_home) (upserted d) (removed d) (rekeyed d) regions).
    by rewrite M4, E, follow_fmap.
Qed.

Lemma consumers_mirror_netmap_witness :
  let d := (apply no_v6 toy_keys NetMap_default toy_full).2 in
  let nm' := (apply no_v6 toy_keys NetMap_default toy_full).1 in
  let e' := push_delta_to_engine (T := Toy) d (packet_filter nm') 7 (empty_engine [1]) in
  engine_routes e' !! repeat 17 32 = Some [mkCidr (ipv4_new 100 64 0 1) 32] /\
  mirrors 7 e' (update_peer_regions d 7 ∅) nm'.
Proof.
  split; [vm_compute; reflexivity|].
  apply (consumers_mirror_netmap no_v6 toy_keys toy_owner 7 NetMap_default toy_full (empty_engine [1]) ∅);
    [apply default_wf|apply toy_full_ok|vm_compute; reflexivity|].
  split; [apply empty_engine_wf| |done|]; cbn [NetMap_default nm_peers]; by rewrite fmap_empty.
Defined.



(** A response that carries only changed nodes and removed ids. *)
Definition change_frame (seq : Z) (changed : list NodeWire) (gone : list Z) : MapResponseWire :=
  mkMapResponse [] seq None None None (Some changed) (Some gone) None [] [] PfMissing.

(** a key rotation that arrives as a changed node, rather than as a patch,
    leaves the node's old key behind: the old peer stays in the map beside the
    new one, the delta names neither a removal nor a rekeying, and removing the
    node later removes the new key only. *)
Theorem peers_changed_keeps_old_key p6 keys nm n s k p seq seq'
    (r1 := apply p6 keys nm (change_frame seq [n] []))
    (r2 := apply p6 keys r1.1 (change_frame seq' [] [nw_id n])) :
  node_to_snapshot p6 n = Some s -> nm_peers nm !! k = Some p -> node_key s <> k ->
  nm_peers r1.1 !! k = Some p /\ nm_peers r1.1 !! node_key s = Some s /\
  removed r1.2 = [] /\ rekeyed r1.2 = [] /\
  nm_peers r2.1 !! node_key s = None /\ removed r2.2 = [node_key s] /\ nm_peers r2.1 !! k = Some p.
Proof.
  intros Hs Hk Hne. subst r1 r2.
  destruct (apply_tables p6 keys nm (change_frame seq [n] [])) as (P1 & P2 & _ & P3 & P4 & _).
  set (q1 := apply p6 keys nm (change_frame seq [n] [])) in *. clearbody q1.
  destruct (apply_tables p6 keys q1.1 (change_frame seq' [] [nw_id n])) as (Q1 & _ & _ & Q3 & _).
  set (q2 := apply p6 keys q1.1 _) in *. clearbody q2. rewrite Q1, Q3, P1, P2, P3, P4.
  unfold apply_peers. cbn [change_frame mr_peers mr_peers_changed mr_peers_removed mr_patches opt_list from_option].
  unfold id. cbn [foldl]. unfold upsert_node. rewrite Hs. cbn [t_peers t_ids t_rm t_rk t_up t_applied t_skipped].
  assert (Hid : node_id s = nw_id n).
  { revert Hs. unfold node_to_snapshot. destruct (parse_nodekey (nw_key n)); [|done]. by intros [= <-]. }
  unfold remove_node. cbn [t_ids]. rewrite Hid, !lookup_insert_eq. cbn [t_peers t_rm app].
  rewrite lookup_delete_eq, lookup_delete_ne by done. by rewrite lookup_insert_ne.
Qed.

Lemma peers_changed_keeps_old_key_witness :
  let nm := (apply no_v6 toy_keys NetMap_default toy_full).1 in
  let n := mkNodeWire 17 0 [] (bs "nodekey:" ++ repeat 53 64) [] [bs "100.64.0.1/32"] [] 1 [] None [] [] None None in
  exists p, nm_peers nm !! repeat 17 32 = Some p /\
  nm_peers (apply no_v6 toy_keys nm (change_frame 2 [n] [])).1 !! repeat 17 32 = Some p.
Proof.
  intros nm n. destruct (nm_peers nm !! repeat 17 32) as [p|] eqn:E; [|vm_compute in E; discriminate].
  exists p. split; [done|].
  destruct (node_to_snapshot no_v6 n) as [s|] eqn:Es; [|vm_compute in Es; discriminate].
  apply (peers_changed_keeps_old_key no_v6 toy_keys nm n s (repeat 17 32) p 2 3 Es E).
  vm_compute in Es. injection Es as <-. vm_compute. congruence.
Defined.
