(* ===== verification/Keys.v ===== *)
(** The identity of the node and its trust in the control server (ts-control:
    types.rs, persist.rs, keystore.rs, server_key.rs, url.rs, error.rs): key
    text, atomic files, the key store, the pinned and the cached server key.

    Files go through the class [Fs]; X25519, the random generator, the process
    id, the clock and the HTTP client are parameters. *)

From S2P Require Import Prelude NetTypes Text VitaFs Netmap.
#[local] Open Scope Z_scope.

(** error.rs.  Texts are kept where a caller looks at them: of a transport error
    the fixed part and what the server supplied; of the others only the data. *)
Inductive ControlError : Type :=
| Io (e : IoError)
| Http (status : Z) (body : list Z)
| Transport (s : list Z)
| Json
| BadServerKey
| ServerKeyChanged
| UnpinnedHttpControl
| Url
| HttpParse
| AuthRejected (auth_url : list Z)
| MapWatchdog (idle_secs : Z)
| MapFrameTooLarge (len cap_ : nat)
| MapDecode
| MapConnectionLost
| Tls.

(** ** Key text *)

Definition MKEY_PREFIX : list Z := bs "mkey:".
Definition NODEKEY_PREFIX : list Z := bs "nodekey:".
Definition DISCOKEY_PREFIX : list Z := bs "discokey:".
Definition NLKEY_PREFIX : list Z := bs "nlpub:".

Definition encode_hex (bytes : list Z) : list Z := hex bytes.

(** [decode_hex] from byte [i] of the output on. *)
Fixpoint decode_hex_from (i n : nat) (hex : list Z) : outcome (result ControlError (list Z)) :=
  match n with
  | O => Val (Ok [])
  | S m =>
      s ← str_slice hex (i * 2) (i * 2 + 2);
      match from_str_radix 16 255 s with
      | None => Val (Err BadServerKey)
      | Some b => r ← decode_hex_from (S i) m hex; Val (cons b <$> r)
      end
  end.

Definition decode_hex (hex : list Z) (len : nat) : outcome (result ControlError (list Z)) :=
  if decide (length hex = len * 2)%nat then decode_hex_from 0 len hex else Val (Err BadServerKey).

(** [MachinePublic::from_mkey_str] and [NodePublic::from_nodekey_str]. *)
Definition from_key_str (prefix s : list Z) : outcome (result ControlError (list Z)) :=
  let s := trim s in
  let h := default s (strip_prefix prefix s) in
  if decide (length h = 64%nat) then decode_hex h 32 else Val (Err BadServerKey).
Definition from_mkey_str : list Z -> outcome (result ControlError (list Z)) := from_key_str MKEY_PREFIX.
Definition from_nodekey_str : list Z -> outcome (result ControlError (list Z)) := from_key_str NODEKEY_PREFIX.

Definition to_mkey_string (k : list Z) : list Z := MKEY_PREFIX ++ encode_hex k.
Definition to_nodekey_string (k : list Z) : list Z := NODEKEY_PREFIX ++ encode_hex k.
Definition to_discokey_string (k : list Z) : list Z := DISCOKEY_PREFIX ++ encode_hex k.
Definition to_nlkey_string (k : list Z) : list Z := NLKEY_PREFIX ++ encode_hex k.

(** ** URLs *)

Record ParsedUrl : Type := mkUrl { scheme : list Z; host : list Z; port : Z; url_path : list Z }.

Definition parse_url (url : list Z) : result ControlError ParsedUrl :=
  match split_str (bs "://") url with
  | None => Err Url
  | Some (sch, rest) =>
      default_port ← (if decide (sch = bs "http") then Ok 80 else if decide (sch = bs "https") then Ok 443 else Err Url);
      let '(authority, path) :=
        match list_find (eq 47) rest with
        | Some (idx, _) => (take idx rest, drop idx rest)
        | None => (rest, bs "/")
        end in
      match rsplit_once 58 authority with
      | Some (h, p) => match parse_u16 p with Some p => Ok (mkUrl sch h p path) | None => Err Url end
      | None => Ok (mkUrl sch authority default_port path)
      end
  end.

(** ** Files *)

(** A small state and error monad over the file system. *)
Definition SE (W A : Type) : Type := W -> W * result ControlError A.
#[global] Instance se_ret {W} : MRet (SE W) := fun A a w => (w, Ok a).
#[global] Instance se_bind {W} : MBind (SE W) := fun A B k m w =>
  match m w with (w, Ok a) => k a w | (w, Err e) => (w, Err e) end.

Section Store.
Context {W : Type} `{Fs W}.

(** An operation whose error is passed on. *)
Definition io (f : W -> W * bool) : SE W unit := fun w =>
  let '(w, done) := f w in (w, if done : bool then Ok tt else Err (Io OtherError)).

(** [Path::parent] and [Path::file_name] of a path that ends in a bare name and
    has no [.] component. *)
Fixpoint skip_slashes (s : list Z) : list Z :=
  match s with c :: r => if c =? 47 then skip_slashes r else s | [] => [] end.
Definition parent (p : list Z) : list Z :=
  match rsplit_once 47 p with
  | None => []
  | Some (a, _) => match reverse (skip_slashes (reverse a)) with [] => [47] | d => d end
  end.
Definition file_name (p : list Z) : list Z :=
  match rsplit_once 47 p with None => p | Some (_, b) => b end.

(** The process id is [pid]. *)
Definition tmp_name (pid : Z) (n : list Z) : list Z := n ++ bs ".tmp." ++ dec pid.
Definition make_tmp_path (pid : Z) (path : list Z) : list Z :=
  join (parent path) (tmp_name pid (file_name path)).

Definition atomic_write (pid : Z) (path bytes : list Z) : SE W unit :=
  io (fun w => fs_create_dir_all w (parent path)) ≫= fun _ =>
  let tmp := make_tmp_path pid path in
  io (fun w => fs_write w tmp bytes) ≫= fun _ =>
  io (fun w => fs_rename w tmp path).

Definition pin_or_load_server_key (pid : Z) (dir seen : list Z) : SE W (list Z) := fun w =>
  let path := join dir (bs "server-key.bin") in
  let pin := (atomic_write pid path seen ≫= fun _ => mret seen) in
  match fs_read w path with
  | Ok bytes =>
      if decide (length bytes = 32%nat) then
        if decide (bytes = seen) then (w, Ok seen) else (w, Err ServerKeyChanged)
      else pin w
  | Err NotFound => pin w
  | Err e => (w, Err (Io e))
  end.
End Store.

(** ** keystore.rs *)

Definition MACHINE_FILE : list Z := bs "machine.priv".
Definition NODE_FILE : list Z := bs "node.priv".
Definition DISCO_FILE : list Z := bs "disco.priv".
Definition NL_FILE : list Z := bs "nl.priv".

(** Private keys; each public key is derived from its private key. *)
Record KeyStore : Type := mkKeyStore {
  machine_priv : list Z; node_priv : list Z; disco_priv : list Z; nl_priv : list Z;
  machine_pub : list Z; node_pub : list Z; disco_pub : list Z; nl_pub : list Z
}.

Section KeyStore.
Context {W : Type} `{Fs W} (pid : Z).
(** [StaticSecret::random_from_rng(OsRng)]: the next secret; and the public key
    of a secret. *)
Context (secret : nat -> list Z) (derive_pub : list Z -> list Z).

(** The file system and how many secrets have been drawn. *)
Definition Disk : Type := (W * nat)%type.

Definition lift {A} (m : SE W A) : SE Disk A := fun '(w, n) => let '(w, r) := m w in ((w, n), r).

Definition generate_and_persist (path : list Z) : SE Disk (list Z) := fun '(w, n) =>
  (lift (atomic_write pid path (secret n)) ≫= fun _ => mret (secret n)) (w, S n).

Definition load_or_generate_priv (dir file : list Z) : SE Disk (list Z) := fun d =>
  let path := join dir file in
  match fs_read d.1 path with
  | Ok bytes => if decide (length bytes = 32%nat) then (d, Ok bytes) else generate_and_persist path d
  | Err NotFound => generate_and_persist path d
  | Err e => (d, Err (Io e))
  end.

Definition load_or_generate (dir : list Z) : SE Disk KeyStore :=
  load_or_generate_priv dir MACHINE_FILE ≫= fun m =>
  load_or_generate_priv dir NODE_FILE ≫= fun n =>
  load_or_generate_priv dir DISCO_FILE ≫= fun x =>
  load_or_generate_priv dir NL_FILE ≫= fun l =>
  mret (mkKeyStore m n x l (derive_pub m) (derive_pub n) (derive_pub x) (derive_pub l)).

Definition regenerate_node_key (dir : list Z) (ks : KeyStore) : SE Disk KeyStore :=
  generate_and_persist (join dir NODE_FILE) ≫= fun b =>
  mret (mkKeyStore (machine_priv ks) b (disco_priv ks) (nl_priv ks)
          (machine_pub ks) (derive_pub b) (disco_pub ks) (nl_pub ks)).
End KeyStore.

(** ** server_key.rs *)

Definition SERVER_KEY_CACHE_TTL : Z := 3600.
Definition KEY_CACHE_FILE : list Z := bs "server.pub".
Definition KEY_CACHE_META_FILE : list Z := bs "server.pub.meta".
Definition META_KEY : list Z := bs "fetched_at_unix=".

Section ServerKey.
Context {W : Type} `{Fs W}.
(** The clock, [None] before 1970; an HTTP GET with status and body; the field
    [publicKey] of a JSON object. *)
Context (now : option Z) (get : list Z -> option (Z * list Z)) (public_key : list Z -> option (list Z)).

(** [read_to_string], errors dropped. *)
Definition read_text (w : W) (p : list Z) : option (list Z) :=
  b ← ok (fs_read w p); if utf8_valid b then Some b else None.

Definition fetched_at (meta : list Z) : option Z :=
  l ← head (omap (strip_prefix META_KEY) (lines meta)); parse_u64 (trim l).

Definition read_cached_key (dir : list Z) (w : W) : outcome (option (list Z)) :=
  match read_text w (join dir KEY_CACHE_FILE), read_text w (join dir KEY_CACHE_META_FILE) ≫= fetched_at, now with
  | Some key_str, Some fetched, Some t =>
      if SERVER_KEY_CACHE_TTL <=? Z.max 0 (t - fetched) then Val None
      else ok <$> from_mkey_str (trim key_str)
  | _, _, _ => Val None
  end.

Definition write_cached_key (dir key : list Z) : SE W unit :=
  io (fun w => fs_create_dir_all w dir) ≫= fun _ =>
  let t := default 0 now in
  let tmp f := join dir (f ++ bs ".tmp") in
  io (fun w => fs_write w (tmp KEY_CACHE_FILE) (to_mkey_string key ++ [10])) ≫= fun _ =>
  io (fun w => fs_write w (tmp KEY_CACHE_META_FILE) (META_KEY ++ dec t ++ [10])) ≫= fun _ =>
  io (fun w => fs_rename w (tmp KEY_CACHE_FILE) (join dir KEY_CACHE_FILE)) ≫= fun _ =>
  io (fun w => fs_rename w (tmp KEY_CACHE_META_FILE) (join dir KEY_CACHE_META_FILE)).

Definition fetch_server_key (server_url : list Z) (capver : Z) : outcome (result ControlError (list Z)) :=
  match parse_url server_url with
  | Err e => Val (Err e)
  | Ok u =>
      match get (scheme u ++ bs "://" ++ host u ++ bs ":" ++ dec (port u) ++ bs "/key?v=" ++ dec capver) with
      | None => Val (Err (Transport (bs "ureq: ")))
      | Some (status, body) =>
          if negb (status =? 200) then Val (Err (Http status body))
          else match public_key body with
               | None => Val (Err Json)
               | Some s => from_mkey_str s
               end
      end
  end.

Definition fetch_server_key_cached (server_url : list Z) (capver : Z) (dir : list Z) (w : W) :
    outcome (W * result ControlError (list Z)) :=
  cached ← read_cached_key dir w;
  match cached with
  | Some k => Val (w, Ok k)
  | None =>
      fresh ← fetch_server_key server_url capver;
      match fresh with
      | Err e => Val (w, Err e)
      | Ok k => Val ((write_cached_key dir k w).1, Ok k)
      end
  end.

Definition invalidate_server_key_cache (dir : list Z) (w : W) : W :=
  let w := (fs_remove_file w (join dir KEY_CACHE_FILE)).1 in
  (fs_remove_file w (join dir KEY_CACHE_META_FILE)).1.
End ServerKey.

(** * Lemmas *)

Lemma atomic_write_error {W} `{Fs W} pid path b (w w' : W) e : atomic_write pid path b w = (w', Err e) -> e = Io OtherError.
Proof.
  unfold atomic_write, io, mbind, se_bind. destruct (fs_create_dir_all w (parent path)) as [w1 []]; [|by intros [= _ <-]].
  destruct (fs_write w1 _ b) as [w2 []]; [|by intros [= _ <-]]. destruct (fs_rename w2 _ path) as [w3 []]; by intros [= _ <-].
Qed.

(** ** Hexadecimal *)

Definition ascii (c : Z) : Prop := 0 <= c < 128.

Lemma is_cont_ascii c : ascii c -> is_cont c = false.
Proof. unfold ascii, is_cont. lia. Qed.

Lemma char_boundary_ascii s i : Forall ascii s -> (i <= length s)%nat -> char_boundary s i = true.
Proof.
  intros Hs Hi. unfold char_boundary. destruct (s !! i) as [b|] eqn:E.
  - eapply Forall_lookup_1 in E; [|done]. rewrite is_cont_ascii by done. apply orb_true_r.
  - apply lookup_ge_None in E. apply Nat.eqb_eq. lia.
Qed.

Lemma str_slice_ascii s a b : Forall ascii s -> (a <= b <= length s)%nat -> str_slice s a b = Val (take (b - a) (drop a s)).
Proof.
  intros Hs Hab. unfold str_slice. rewrite !char_boundary_ascii by (done || lia).
  by rewrite (proj2 (Nat.leb_le a b)) by lia.
Qed.

Lemma to_digit_ascii r c d : to_digit r c = Some d -> ascii c.
Proof.
  unfold to_digit, ascii. intros H.
  destruct ((48 <=? c) && (c <=? 57)) eqn:E1;
    [|destruct ((97 <=? c) && (c <=? 122)) eqn:E2; [|destruct ((65 <=? c) && (c <=? 90)) eqn:E3; [|discriminate H]]]; lia.
Qed.

Lemma radix_ascii a b x : from_str_radix 16 255 [a; b] = Some x -> ascii a /\ ascii b.
Proof.
  unfold from_str_radix. destruct (Z.eqb_spec a 43) as [->|Ha]; cbn [parse_digits].
  - destruct (to_digit 16 b) eqn:E; [|done]. intros _. split; [unfold ascii; lia|by eapply to_digit_ascii].
  - destruct (to_digit 16 a) eqn:E; [|done]. cbn. case_match; [done|]. destruct (to_digit 16 b) eqn:E2; [|done].
    intros _. split; by eapply to_digit_ascii.
Qed.

Lemma decode_pairs_ascii n : forall h k, length h = (2 * n)%nat -> decode_pairs n h = Some k -> Forall ascii h.
Proof.
  induction n as [|n IH]; intros h k Hl; [by destruct h|]. destruct h as [|a [|b h]]; try done. cbn [decode_pairs].
  destruct (from_str_radix 16 255 [a; b]) as [x|] eqn:E; [|done]. apply radix_ascii in E as [Ha Hb].
  cbn [mbind option_bind]. destruct (decode_pairs n h) eqn:Er; [|done]. intros _.
  apply Forall_cons_2; [done|]. apply Forall_cons_2; [done|]. apply (IH h l); [cbn in Hl; lia|done].
Qed.

Lemma drop_two {A} (l : list A) i : (i * 2 + 2 <= length l)%nat ->
  exists a b, drop (i * 2) l = a :: b :: drop (S i * 2) l /\ take 2 (drop (i * 2) l) = [a; b].
Proof.
  intros Hl. assert (Hd : length (drop (i * 2) l) = (length l - i * 2)%nat) by apply length_drop.
  replace (drop (S i * 2) l) with (drop 2 (drop (i * 2) l)) by (rewrite drop_drop; f_equal; lia).
  destruct (drop (i * 2) l) as [|a [|b r]]; [cbn in Hd; lia|cbn in Hd; lia|]. by exists a, b.
Qed.

(** On ASCII text the decoder and that of the network map agree. *)
Lemma decode_from_pairs n : forall i h,
  Forall ascii h -> (i * 2 + n * 2 = length h)%nat ->
  decode_hex_from i n h = Val (match decode_pairs n (drop (i * 2) h) with Some k => Ok k | None => Err BadServerKey end).
Proof.
  induction n as [|n IH]; intros i h Ha Hl; [done|]. cbn [decode_hex_from].
  rewrite str_slice_ascii by (done || lia). replace (i * 2 + 2 - i * 2)%nat with 2%nat by lia.
  destruct (drop_two h i) as (a & b & Ed & Et); [lia|]. rewrite Et, Ed. cbn [mbind outcome_bind decode_pairs].
  destruct (from_str_radix 16 255 [a; b]) as [x|]; [|done]. cbn [mbind option_bind]. rewrite IH by (done || lia).
  by destruct (decode_pairs n (drop (S i * 2) h)).
Qed.

(** What it accepts, the other accepts, whatever the text. *)
Lemma decode_from_sound n : forall i h k,
  (i * 2 + n * 2 = length h)%nat -> decode_hex_from i n h = Val (Ok k) -> decode_pairs n (drop (i * 2) h) = Some k.
Proof.
  induction n as [|n IH]; intros i h k Hl; cbn [decode_hex_from]; [by intros [= <-]|].
  unfold str_slice. destruct (_ && _); [|done]. replace (i * 2 + 2 - i * 2)%nat with 2%nat by lia.
  destruct (drop_two h i) as (a & b & Ed & Et); [lia|]. rewrite Et, Ed. cbn [mbind outcome_bind decode_pairs].
  destruct (from_str_radix 16 255 [a; b]) as [x|]; [|done]. cbn [mbind option_bind].
  destruct (decode_hex_from (S i) n h) as [r| |] eqn:E; [|done..]. destruct r as [l|]; [|done].
  intros [= <-]. rewrite (IH (S i) h l); [done|lia|done].
Qed.

Lemma decode_pairs_wf n : forall h k, decode_pairs n h = Some k -> length k = n /\ bytes_wf k.
Proof.
  induction n as [|n IH]; intros h k; cbn [decode_pairs]; [intros [= <-]; split; [done|constructor]|].
  destruct h as [|a [|b h]]; try done. destruct (from_str_radix 16 255 [a; b]) as [x|] eqn:E; [|done].
  cbn [mbind option_bind]. destruct (decode_pairs n h) as [l|] eqn:Er; [|done]. intros [= <-].
  destruct (IH _ _ Er) as [<- Hw]. split; [done|]. apply Forall_cons_2; [|done].
  apply from_str_radix_bound in E; unfold u8; lia.
Qed.

Lemma hex_digit_solid d : 0 <= d < 16 -> solid (hex_digit d).
Proof. intros H. unfold solid, hex_digit, is_space. destruct (Z.ltb_spec d 10); lia. Qed.

Lemma hex_byte_solid b : u8 b -> Forall solid (hex_byte b).
Proof.
  unfold u8. intros Hb. unfold hex_byte. repeat apply Forall_cons_2; [| |constructor]; apply hex_digit_solid; lia_div.
Qed.

Lemma hex_solid k : bytes_wf k -> Forall solid (hex k).
Proof.
  induction 1 as [|b k Hb Hk IH]; [constructor|]. unfold hex in *. cbn [map concat]. apply Forall_app. split; [by apply hex_byte_solid|done].
Qed.

Lemma decode_pairs_hex k : bytes_wf k -> decode_pairs (length k) (hex k) = Some k.
Proof.
  induction 1 as [|b k Hb Hk IH]; [done|]. change (hex (b :: k)) with (hex_byte b ++ hex k).
  cbn [length decode_pairs hex_byte app].
  change [hex_digit (b / 16); hex_digit (b mod 16)] with (hex_byte b). rewrite (hex_byte_parse b Hb).
  cbn [mbind option_bind]. by rewrite IH.
Qed.

Lemma solid_ascii l : Forall solid l -> Forall ascii l.
Proof. intros Hl. eapply list.Forall_impl; [done|]. by intros c [? _]. Qed.

(** Key text: a prefix and the digits, no space at either end. *)
Lemma key_text_ends p k : Forall solid p -> bytes_wf k -> k <> [] ->
  exists a s b, p ++ hex k = a :: s ++ [b] /\ solid a /\ solid b.
Proof.
  intros Hp Hk Hne. pose proof (hex_solid k Hk) as Hh. assert (Hall : Forall solid (p ++ hex k)) by (apply Forall_app; auto).
  assert (Hlen : (2 <= length (p ++ hex k))%nat).
  { rewrite length_app, length_hex. destruct k; [done|]. cbn. lia. }
  destruct (p ++ hex k) as [|a l]; [cbn in Hlen; lia|]. destruct l as [|b l] using rev_ind; [cbn in Hlen; lia|].
  apply Forall_cons_1 in Hall as [Ha Hl]. apply Forall_app in Hl as [_ Hb]. apply Forall_cons_1 in Hb as [Hb _].
  by exists a, l, b.
Qed.

Lemma decode_hex_hex k : bytes_wf k -> length k = 32%nat -> decode_hex (hex k) 32 = Val (Ok k).
Proof.
  intros Hk Hl. unfold decode_hex. rewrite length_hex, Hl, decide_True by done.
  rewrite decode_from_pairs; [|by apply solid_ascii, hex_solid|rewrite length_hex; lia]. cbn [drop Nat.mul].
  rewrite drop_0 by done. rewrite <- Hl. by rewrite decode_pairs_hex.
Qed.

Lemma from_key_str_hex p k : Forall solid p -> bytes_wf k -> length k = 32%nat ->
  from_key_str p (p ++ hex k) = Val (Ok k) /\ from_key_str p ((p ++ hex k) ++ [10]) = Val (Ok k) /\
  from_key_str p (trim ((p ++ hex k) ++ [10])) = Val (Ok k).
Proof.
  intros Hp Hk Hl. destruct (key_text_ends p k) as (a & s & b & E & Ha & Hb); [done|done|by destruct k|].
  assert (Hmain : forall t, trim t = p ++ hex k -> from_key_str p t = Val (Ok k)).
  { intros t Ht. unfold from_key_str. rewrite Ht, strip_prefix_app. cbn [default]. unfold id.
    rewrite length_hex, Hl, decide_True by done. by apply decode_hex_hex. }
  assert (Ht : trim ((p ++ hex k) ++ [10]) = p ++ hex k) by (rewrite E; by apply trim_solid_line).
  split_and!; apply Hmain; rewrite ?Ht; (done || (rewrite E; by apply trim_solid)).
Qed.

(** ** Names of temporary files *)

Lemma tmp_plain pid n : 0 <= pid -> own_name n -> own_name (tmp_name pid n).
Proof.
  intros Hp Hn. unfold tmp_name. apply own_name_app; [done|(rewrite not_elem_of_app; split; [by apply (bool_decide_unpack _); vm_compute|apply dec_no_char; lia])..|].
  unfold lower_name. rewrite forallb_app. apply andb_true_iff. split; [done|]. apply forallb_forall. intros x Hx%list_elem_of_In.
  pose proof (dec_digits pid Hp) as Hd. rewrite list.Forall_forall in Hd. specialize (Hd x Hx). lia.
Qed.

Lemma dec_last_digit z : 0 <= z -> exists s c, dec z = s ++ [c] /\ 48 <= c <= 57.
Proof.
  intros Hz. pose proof (dec_digits z Hz) as Hd. destruct (dec_nonempty z Hz) as (c & r & E & _).
  destruct (dec z) as [|x l _] using rev_ind; [done|]. exists l, x. split; [done|].
  apply Forall_app in Hd as [_ Hd]. by apply Forall_cons_1 in Hd as [Hd _].
Qed.

(** A name that does not end in a digit is not that of a temporary file. *)
Lemma tmp_name_ne pid m n c : 0 <= pid -> head (reverse n) = Some c -> ~ 48 <= c <= 57 -> tmp_name pid m <> n.
Proof.
  intros Hp Hc Hd E. destruct (dec_last_digit pid Hp) as (s & x & Ex & Hx). subst n. unfold tmp_name in Hc.
  rewrite Ex, !app_assoc, head_reverse_app in Hc. cbn in Hc. congruence.
Qed.

Lemma tmp_name_inj pid a b : tmp_name pid a = tmp_name pid b -> a = b.
Proof. unfold tmp_name. by intros E%app_inv_tail. Qed.

(** A directory written without a slash at its end. *)
Definition tidy (d : list Z) : Prop := exists a c, d = a ++ [c] /\ c <> 47.

Lemma join_tidy d n : tidy d -> join d n = d ++ 47 :: n.
Proof.
  intros (a & c & -> & Hc). unfold join. rewrite head_reverse_app. cbn.
  by rewrite (proj2 (Z.eqb_neq c 47) Hc), <- app_assoc.
Qed.

Lemma parent_join d n : tidy d -> 47 ∉ n -> parent (join d n) = d /\ file_name (join d n) = n.
Proof.
  intros Hd Hn. rewrite join_tidy by done. unfold parent, file_name. rewrite rsplit_once_app by done.
  split; [|done]. destruct Hd as (a & c & -> & Hc). rewrite reverse_app. cbn [reverse rev_append app].
  change (reverse [c]) with [c]. cbn [app skip_slashes]. rewrite (proj2 (Z.eqb_neq c 47) Hc).
  rewrite reverse_cons, reverse_involutive. by destruct a.
Qed.

(** ** Atomic files *)

Section Files.
Context {W : Type} {d : list Z} `{FsLaws W d} (pid : Z) (Hd : tidy d) (Hpid : 0 <= pid).

(** What the file named [n] of the directory holds. *)
Definition holds (w : W) (n : list Z) : option (list Z) := content w (names (join d n)).

Lemma names_apart a b : own_name a -> own_name b -> a <> b -> names (join d a) <> names (join d b).
Proof. intros Ha Hb Hne E. by apply Hne, (own_names_join (d := d)). Qed.

Lemma io_ok (f : W -> W * bool) w w' r : io f w = (w', r) -> exists b, f w = (w', b) /\ (b = true <-> r = Ok tt).
Proof.
  unfold io. destruct (f w) as [w1 b]. intros [= <- <-]. exists b. split; [done|]. by destruct b.
Qed.

(** The target holds the new bytes if the call succeeds; if it fails the target
    holds what it did, or nothing while the temporary file has the new bytes. *)
Lemma atomic_write_spec n b w w' r :
  own_name n -> n <> tmp_name pid n -> holds w (tmp_name pid n) = None ->
  atomic_write pid (join d n) b w = (w', r) ->
  (r = Ok tt -> holds w' n = Some b /\ holds w' (tmp_name pid n) = None) /\
  (r <> Ok tt -> holds w' n = holds w n \/ (holds w' n = None /\ holds w' (tmp_name pid n) = Some b)) /\
  forall m, own_name m -> m <> n -> m <> tmp_name pid n -> holds w' m = holds w m.
Proof.
  intros Hn Hnt Ht. pose proof (tmp_plain pid n Hpid Hn) as Htp. destruct (parent_join d n Hd) as [Epar Efn]; [by destruct Hn as [(_ & ? & _) _]|].
  unfold atomic_write, make_tmp_path. rewrite Epar, Efn. set (t := tmp_name pid n) in *.
  unfold mbind, se_bind. destruct (io _ w) as [w1 r1] eqn:E1. apply io_ok in E1 as (b1 & E1 & _).
  pose proof (fun q => mkdir_law w w1 b1 d q E1) as M1.
  destruct r1 as [[]|e1]; [|intros [= <- <-]; unfold holds; setoid_rewrite M1; naive_solver].
  destruct (io _ w1) as [w2 r2] eqn:E2. apply io_ok in E2 as (b2 & E2 & B2).
  destruct (write_law _ _ _ _ _ E2) as [W1 W2]. pose proof (names_apart n t Hn Htp Hnt) as Hap.
  destruct r2 as [[]|e2].
  2:{ intros [= <- <-]. split; [done|]. split; [left; unfold holds; by rewrite W2, M1|].
      intros m Hm Hmn Hmt. unfold holds. rewrite W2 by (by apply names_apart). apply M1. }
  destruct W1 as [W1|(c & Hc & _)]; [by apply B2| |unfold holds in Ht; rewrite M1 in Hc; congruence].
  destruct (io _ w2) as [w3 r3] eqn:E3. apply io_ok in E3 as (b3 & E3 & B3).
  destruct (rename_law (d := d) _ _ _ _ _ E3) as (R1 & R2 & R3); [by apply not_eq_sym|]. intros [= <- <-]. split_and!.
  - intros Hr. destruct R1 as (R1 & _ & R1'); [by apply B3|]. unfold holds. by rewrite R1, W1.
  - intros Hr. destruct b3; [by destruct Hr; apply B3|]. destruct R2 as [R2 [R2'|R2']]; [done| |].
    + left. unfold holds. by rewrite R2', W2, M1.
    + right. unfold holds. by rewrite R2', R2, W1.
  - intros m Hm Hmn Hmt. unfold holds. rewrite R3, W2, M1 by (by apply names_apart). done.
Qed.
End Files.

(** ** The key store *)

Definition key_files : list (list Z) := [MACHINE_FILE; NODE_FILE; DISCO_FILE; NL_FILE].

Lemma key_file_facts f : f ∈ key_files -> own_name f /\ head (reverse f) = Some 118.
Proof.
  unfold key_files. rewrite !elem_of_cons, elem_of_nil.
  intros [->|[->|[->|[->|[]]]]]; (split; [|done]); apply (bool_decide_unpack _); vm_compute; done.
Qed.

Section Identity.
Context {W : Type} {d : list Z} `{FsLaws W d} (pid : Z) (Hd : tidy d) (Hpid : 0 <= pid).
Context (secret : nat -> list Z) (derive_pub : list Z -> list Z) (Hsecret : forall i, length (secret i) = 32%nat).
#[local] Abbreviation holds := (holds (d := d)).

(** No temporary file of a key is left over. *)
Definition no_leftover (w : W) : Prop := forall f, f ∈ key_files -> holds w (tmp_name pid f) = None.

(** A key file is loaded as it is, and nothing changes. *)
Lemma load_existing f b (x : Disk (W := W)) :
  holds x.1 f = Some b -> length b = 32%nat ->
  load_or_generate_priv pid secret d f x = (x, Ok b) \/ load_or_generate_priv pid secret d f x = (x, Err (Io OtherError)).
Proof.
  intros Hb Hl. unfold load_or_generate_priv. destruct (read_law (d := d) x.1 (join d f)) as [R1 R2]. unfold Keys.holds in Hb.
  destruct (fs_read x.1 (join d f)) as [c|[]]; [|by specialize (R2 eq_refl); congruence|by right].
  left. assert (c = b) as -> by (specialize (R1 c eq_refl); congruence). by rewrite decide_True.
Qed.

Lemma generate_spec f w n w' n' r :
  f ∈ key_files -> no_leftover w ->
  generate_and_persist pid secret (join d f) (w, n) = ((w', n'), r) ->
  (forall b, r = Ok b -> b = secret n /\ holds w' f = Some b /\ no_leftover w') /\
  forall g, g ∈ key_files -> g <> f -> holds w' g = holds w g.
Proof.
  intros Hf Hno. unfold generate_and_persist, lift, mbind, se_bind.
  destruct (atomic_write pid (join d f) (secret n) w) as [w1 r1] eqn:E.
  destruct (key_file_facts f Hf) as [Hp Hl].
  apply (atomic_write_spec (d := d)) in E as (A1 & A2 & A3); [|done|done|done|by apply not_eq_sym; eapply tmp_name_ne; [done|done|lia]|by apply Hno].
  assert (Hother : forall g, g ∈ key_files -> g <> f -> holds w1 g = holds w g).
  { intros g Hg Hne. destruct (key_file_facts g Hg) as [Hgp Hgl]. apply A3; [done|done|].
    apply not_eq_sym. eapply tmp_name_ne; [done|done|lia]. }
  destruct r1 as [[]|e]; intros [= <- <- <-]; (split; [|done]); [|done]. intros b [= <-]. destruct A1 as [A1 A1t]; [done|].
  split_and!; [done|done|]. intros g Hg. destruct (decide (g = f)) as [->|Hne]; [done|].
  destruct (key_file_facts g Hg) as [Hgp Hgl]. rewrite A3; [by apply Hno|by apply tmp_plain| |by intros ?%tmp_name_inj].
  eapply tmp_name_ne; [done|done|lia].
Qed.

Lemma load_priv_spec f w n w' n' r :
  f ∈ key_files -> no_leftover w ->
  load_or_generate_priv pid secret d f (w, n) = ((w', n'), r) ->
  (forall b, r = Ok b -> length b = 32%nat /\ holds w' f = Some b /\ no_leftover w') /\
  (forall b, holds w f = Some b -> length b = 32%nat -> holds w' f = Some b) /\
  forall g, g ∈ key_files -> g <> f -> holds w' g = holds w g.
Proof.
  intros Hf Hno E. pose proof (load_existing f) as Hex. unfold load_or_generate_priv in *. cbn [fst] in *.
  destruct (read_law (d := d) w (join d f)) as [R1 R2].
  assert (Hgen : (forall b, holds w f = Some b -> length b <> 32%nat) ->
    generate_and_persist pid secret (join d f) (w, n) = ((w', n'), r) ->
    (forall b, r = Ok b -> length b = 32%nat /\ holds w' f = Some b /\ no_leftover w') /\
    (forall b, holds w f = Some b -> length b = 32%nat -> holds w' f = Some b) /\
    forall g, g ∈ key_files -> g <> f -> holds w' g = holds w g).
  { intros Hbad G. apply generate_spec in G as [G1 G2]; [|done|done]. split_and!; [|naive_solver|done].
    intros b Hb. destruct (G1 b Hb) as (-> & ? & ?). auto. }
  destruct (fs_read w (join d f)) as [c|[]].
  - case_decide as Hl; [injection E as <- <- <-; specialize (R1 c eq_refl); naive_solver|].
    apply Hgen; [|done]. intros b Hb. specialize (R1 c eq_refl). unfold Keys.holds in Hb. congruence.
  - apply Hgen; [|done]. intros b Hb. specialize (R2 eq_refl). unfold Keys.holds in Hb. congruence.
  - injection E as <- <- <-. naive_solver.
Qed.

(** The four keys are where [ks] says. *)
Definition stored (w : W) (ks : KeyStore) : Prop :=
  ks = mkKeyStore (machine_priv ks) (node_priv ks) (disco_priv ks) (nl_priv ks)
         (derive_pub (machine_priv ks)) (derive_pub (node_priv ks)) (derive_pub (disco_priv ks)) (derive_pub (nl_priv ks)) /\
  forall f b, (f, b) ∈ [(MACHINE_FILE, machine_priv ks); (NODE_FILE, node_priv ks);
                        (DISCO_FILE, disco_priv ks); (NL_FILE, nl_priv ks)] ->
  holds w f = Some b /\ length b = 32%nat.

Lemma load_stored w n ks : stored w ks ->
  exists r, load_or_generate pid secret derive_pub d (w, n) = ((w, n), r) /\ (r = Ok ks \/ r = Err (Io OtherError)).
Proof.
  intros [Eks Hs]. unfold load_or_generate. unfold mbind, se_bind.
  destruct (Hs MACHINE_FILE (machine_priv ks)) as [H1 L1]; [set_solver|].
  destruct (Hs NODE_FILE (node_priv ks)) as [H2 L2]; [set_solver|].
  destruct (Hs DISCO_FILE (disco_priv ks)) as [H3 L3]; [set_solver|].
  destruct (Hs NL_FILE (nl_priv ks)) as [H4 L4]; [set_solver|].
  destruct (load_existing MACHINE_FILE _ (w, n) H1 L1) as [-> | ->]; [|by eauto].
  destruct (load_existing NODE_FILE _ (w, n) H2 L2) as [-> | ->]; [|by eauto].
  destruct (load_existing DISCO_FILE _ (w, n) H3 L3) as [-> | ->]; [|by eauto].
  destruct (load_existing NL_FILE _ (w, n) H4 L4) as [-> | ->]; [|by eauto].
  eexists. split; [done|]. left. by rewrite <- Eks.
Qed.

(** One more file loaded: what earlier files hold does not change. *)
Definition kept (w w' : W) : Prop :=
  forall f b, f ∈ key_files -> holds w f = Some b -> length b = 32%nat -> holds w' f = Some b.

Lemma load_priv_kept f w n w' n' r :
  f ∈ key_files -> no_leftover w -> load_or_generate_priv pid secret d f (w, n) = ((w', n'), r) ->
  kept w w' /\ forall b, r = Ok b -> length b = 32%nat /\ holds w' f = Some b /\ no_leftover w'.
Proof.
  intros Hf Hno E. apply load_priv_spec in E as (E1 & E2 & E3); [|done..]. split; [|done].
  intros g b Hg Hb Hl. destruct (decide (g = f)) as [->|Hne]; [auto|]. by rewrite E3.
Qed.

Lemma kept_trans w1 w2 w3 : kept w1 w2 -> kept w2 w3 -> kept w1 w3.
Proof. intros A B f b Hf Hb Hl. apply B; auto. Qed.

Lemma load_spec w n w' n' r :
  no_leftover w -> load_or_generate pid secret derive_pub d (w, n) = ((w', n'), r) ->
  kept w w' /\ forall ks, r = Ok ks -> stored w' ks /\ no_leftover w'.
Proof.
  intros Hno. unfold load_or_generate, mbind, se_bind.
  destruct (load_or_generate_priv pid secret d MACHINE_FILE (w, n)) as [[w1 n1] r1] eqn:E1.
  apply load_priv_kept in E1 as [K1 O1]; [|set_solver|done]. destruct r1 as [b1|]; [|by intros [= <- <- <-]].
  destruct (O1 b1 eq_refl) as (L1 & S1 & Hno1).
  destruct (load_or_generate_priv pid secret d NODE_FILE (w1, n1)) as [[w2 n2] r2] eqn:E2.
  apply load_priv_kept in E2 as [K2 O2]; [|set_solver|done].
  pose proof (kept_trans _ _ _ K1 K2) as K12. destruct r2 as [b2|]; [|by intros [= <- <- <-]].
  destruct (O2 b2 eq_refl) as (L2 & S2 & Hno2).
  destruct (load_or_generate_priv pid secret d DISCO_FILE (w2, n2)) as [[w3 n3] r3] eqn:E3.
  apply load_priv_kept in E3 as [K3 O3]; [|set_solver|done].
  pose proof (kept_trans _ _ _ K12 K3) as K13. destruct r3 as [b3|]; [|by intros [= <- <- <-]].
  destruct (O3 b3 eq_refl) as (L3 & S3 & Hno3).
  destruct (load_or_generate_priv pid secret d NL_FILE (w3, n3)) as [[w4 n4] r4] eqn:E4.
  apply load_priv_kept in E4 as [K4 O4]; [|set_solver|done].
  pose proof (kept_trans _ _ _ K13 K4) as K14. destruct r4 as [b4|]; [|by intros [= <- <- <-]].
  destruct (O4 b4 eq_refl) as (L4 & S4 & Hno4). intros [= <- <- <-]. split; [done|].
  intros ks [= <-]. split; [|done]. split; [done|]. cbn. intros f b.
  rewrite !elem_of_cons, elem_of_nil. intros [[= -> ->]|[[= -> ->]|[[= -> ->]|[[= -> ->]|[]]]]]; (split; [|done]);
    repeat first [assumption | apply K4; [set_solver| |done] | apply K3; [set_solver| |done] | apply K2; [set_solver| |done]].
Qed.

(** Rotation replaces the node key alone. *)
Lemma regenerate_spec w n ks w' n' r :
  no_leftover w -> stored w ks -> regenerate_node_key pid secret derive_pub d ks (w, n) = ((w', n'), r) ->
  forall ks', r = Ok ks' -> stored w' ks' /\ no_leftover w' /\ node_priv ks' = secret n /\
  machine_priv ks' = machine_priv ks /\ disco_priv ks' = disco_priv ks /\ nl_priv ks' = nl_priv ks.
Proof.
  intros Hno [Eks Hs]. unfold regenerate_node_key, mbind, se_bind.
  destruct (generate_and_persist _ _ _ (w, n)) as [[w1 n1] r1] eqn:E1.
  apply generate_spec in E1 as [G1 G2]; [|set_solver|done]. destruct r1 as [b|]; [|by intros [= <- <- <-]].
  destruct (G1 b eq_refl) as (-> & Hb & Hno'). intros [= <- <- <-] ks' [= <-]. cbn. split_and!; try done.
  pose proof (f_equal machine_pub Eks) as P1. pose proof (f_equal disco_pub Eks) as P3. pose proof (f_equal nl_pub Eks) as P4.
  split; [cbn in *; congruence|]. cbn. intros f b. rewrite !elem_of_cons, elem_of_nil.
  assert (Hne : NODE_FILE ∉ [MACHINE_FILE; DISCO_FILE; NL_FILE]) by (apply (bool_decide_unpack _); vm_compute; done).
  rewrite !not_elem_of_cons in Hne. destruct Hne as (N1 & N3 & N4 & _).
  intros [[= -> ->]|[[= -> ->]|[[= -> ->]|[[= -> ->]|[]]]]]; [|by auto|..];
    (rewrite G2; [apply Hs; set_solver|unfold key_files; set_solver|by apply not_eq_sym]).
Qed.
End Identity.

(** ** The cached server key *)

Lemma trim_all l : Forall solid l -> trim l = l.
Proof.
  intros Hl. destruct l as [|a l]; [done|]. destruct l as [|b l _] using rev_ind.
  - apply Forall_cons_1 in Hl as [Ha _]. unfold trim. rewrite trim_start_solid by done. by apply (trim_end_solid a []).
  - apply Forall_cons_1 in Hl as [Ha Hl]. apply Forall_app in Hl as [_ Hb]. apply Forall_cons_1 in Hb as [Hb _].
    by apply trim_solid.
Qed.

Lemma dec_solid z : 0 <= z -> Forall solid (dec z).
Proof.
  intros Hz. eapply list.Forall_impl; [by apply dec_digits|]. intros c Hc. cbn beta in Hc. unfold solid, is_space. lia.
Qed.

Lemma utf8_ascii l : Forall ascii l -> utf8_valid l = true.
Proof.
  induction 1 as [|c l Hc Hl IH]; [done|]. unfold ascii in Hc. cbn [utf8_valid].
  by rewrite (proj2 (Z.ltb_lt c 128)) by lia.
Qed.

Lemma fetched_at_line t : 0 <= t < 2 ^ 64 -> fetched_at (META_KEY ++ dec t ++ [10]) = Some t.
Proof.
  intros Ht. unfold fetched_at. destruct (dec_last_digit t) as (s & c & E & Hc); [lia|].
  rewrite app_assoc, lines_one.
  - assert (Hcr : strip_cr (META_KEY ++ dec t) = META_KEY ++ dec t).
    { unfold strip_cr. rewrite E, app_assoc, reverse_app. cbn [reverse rev_append app].
      change (reverse [c]) with [c]. cbn [app].
      repeat match goal with |- context [match ?x with _ => _ end] => is_var x; destruct x; try (done || lia) end. }
    rewrite Hcr. cbn [omap list_omap]. rewrite strip_prefix_app. cbn [head mbind option_bind].
    rewrite trim_all by (apply dec_solid; lia). unfold parse_u64. apply from_str_radix_dec. lia.
  - rewrite not_elem_of_app. split; [by apply (bool_decide_unpack _); vm_compute|apply dec_no_char; lia].
Qed.

Definition cache_files : list (list Z) :=
  [KEY_CACHE_FILE; KEY_CACHE_META_FILE; KEY_CACHE_FILE ++ bs ".tmp"; KEY_CACHE_META_FILE ++ bs ".tmp"].

Lemma cache_files_facts : Forall own_name cache_files /\ NoDup cache_files.
Proof. split; apply (bool_decide_unpack _); vm_compute; done. Qed.

Section Cache.
Context {W : Type} {d : list Z} `{FsLaws W d}.
#[local] Abbreviation holds := (holds (d := d)).

Lemma write_fresh n b w w' : own_name n -> holds w n = None -> io (fun w => fs_write w (join d n) b) w = (w', Ok tt) ->
  holds w' n = Some b /\ forall m, own_name m -> m <> n -> holds w' m = holds w m.
Proof.
  intros Hn Hno (b1 & E & B)%io_ok. destruct (write_law (d := d) _ _ _ _ _ E) as [W1 W2]. split.
  - destruct W1 as [W1|(c & Hc & _)]; [by apply B|done|unfold Keys.holds in Hno; congruence].
  - intros m Hm Hne. apply W2. by apply names_apart.
Qed.

Lemma rename_file a b w w' : own_name a -> own_name b -> a <> b ->
  io (fun w => fs_rename w (join d a) (join d b)) w = (w', Ok tt) ->
  holds w' b = holds w a /\ holds w' a = None /\ forall m, own_name m -> m <> a -> m <> b -> holds w' m = holds w m.
Proof.
  intros Ha Hb Hne (b1 & E & B)%io_ok.
  destruct (rename_law (d := d) _ _ _ _ _ E) as (R1 & _ & R3); [by apply names_apart|].
  destruct R1 as (R1 & _ & R1'); [by apply B|]. split_and!; [done|done|].
  intros m Hm Hma Hmb. apply R3; by apply names_apart.
Qed.

Lemma write_cached_spec t key w w' :
  holds w (KEY_CACHE_FILE ++ bs ".tmp") = None -> holds w (KEY_CACHE_META_FILE ++ bs ".tmp") = None ->
  write_cached_key (Some t) d key w = (w', Ok tt) ->
  holds w' KEY_CACHE_FILE = Some (to_mkey_string key ++ [10]) /\
  holds w' KEY_CACHE_META_FILE = Some (META_KEY ++ dec t ++ [10]).
Proof.
  intros H1 H2. destruct cache_files_facts as [Hp Hnd]. unfold cache_files in *.
  rewrite !list.Forall_cons in Hp. destruct Hp as (P1 & P2 & P3 & P4 & _).
  rewrite !list.NoDup_cons, !not_elem_of_cons in Hnd. destruct Hnd as ((N12 & N13 & N14 & _) & (N23 & N24 & _) & (N34 & _) & _).
  unfold write_cached_key, mbind, se_bind. cbn [default]. unfold id.
  set (kt := KEY_CACHE_FILE ++ bs ".tmp") in *. set (mt := KEY_CACHE_META_FILE ++ bs ".tmp") in *.
  destruct (io _ w) as [w1 r1] eqn:E1. destruct r1 as [[]|]; [|done]. apply io_ok in E1 as (b1 & E1 & _).
  assert (M1 : forall n, holds w1 n = holds w n) by (intros n; eapply mkdir_law; exact E1).
  destruct (io _ w1) as [w2 r2] eqn:E2. destruct r2 as [[]|]; [|done].
  apply write_fresh in E2 as [F2 O2]; [|done|by rewrite M1].
  destruct (io _ w2) as [w3 r3] eqn:E3. destruct r3 as [[]|]; [|done].
  apply write_fresh in E3 as [F3 O3]; [|done|by rewrite O2, M1 by (done || by apply not_eq_sym)].
  destruct (io _ w3) as [w4 r4] eqn:E4. destruct r4 as [[]|]; [|done].
  apply rename_file in E4 as (F4 & F4' & O4); [|done|done|by apply not_eq_sym].
  intros E5. apply rename_file in E5 as (F5 & _ & O5); [|done|done|by apply not_eq_sym].
  split.
  - rewrite O5, F4, O3, F2 by done. done.
  - rewrite F5, O4, F3 by (done || by apply not_eq_sym). done.
Qed.

(** The cache touches its own files only. *)
Lemma cache_write_other now key w m : own_name m -> m ∉ cache_files -> holds (write_cached_key now d key w).1 m = holds w m.
Proof.
  intros Hm Hn. destruct cache_files_facts as [Hp Hnd]. unfold cache_files in *. rewrite !list.Forall_cons in Hp. destruct Hp as (P1 & P2 & P3 & P4 & _).
  rewrite !list.NoDup_cons, !not_elem_of_cons in Hnd. destruct Hnd as ((N1 & N2 & N3 & _) & (N4 & N5 & _) & _).
  rewrite !not_elem_of_cons in Hn. destruct Hn as (M1 & M2 & M3 & M4 & _).
  unfold write_cached_key, io, mbind, se_bind, Keys.holds. cbv zeta.
  destruct (fs_create_dir_all w d) as [w0 b0] eqn:E0. rewrite <- (mkdir_law (d := d) _ _ _ _ _ E0). destruct b0; [|done].
  destruct (fs_write w0 _ _) as [w1 b1] eqn:E1. destruct (write_law (d := d) _ _ _ _ _ E1) as [_ W1].
  rewrite <- W1 by (by apply names_apart). destruct b1; [|done].
  destruct (fs_write w1 _ _) as [w2 b2] eqn:E2. destruct (write_law (d := d) _ _ _ _ _ E2) as [_ W2].
  rewrite <- W2 by (by apply names_apart). destruct b2; [|done].
  destruct (fs_rename w2 _ _) as [w3 b3] eqn:E3. destruct (rename_law (d := d) _ _ _ _ _ E3) as (_ & _ & R3); [apply names_apart; auto|].
  rewrite <- R3 by (by apply names_apart). destruct b3; [|done].
  destruct (fs_rename w3 _ _) as [w4 b4] eqn:E4. destruct (rename_law (d := d) _ _ _ _ _ E4) as (_ & _ & R4); [apply names_apart; auto|].
  rewrite <- R4 by (by apply names_apart). by destruct b4.
Qed.

Lemma cache_invalidate_other w m : own_name m -> m ∉ cache_files -> holds (invalidate_server_key_cache d w) m = holds w m.
Proof.
  intros Hm Hn. destruct cache_files_facts as [Hp _]. unfold cache_files in *. rewrite !list.Forall_cons in Hp. destruct Hp as (P1 & P2 & _).
  rewrite !not_elem_of_cons in Hn. destruct Hn as (M1 & M2 & _). unfold invalidate_server_key_cache, Keys.holds. cbv zeta.
  destruct (fs_remove_file w (join d KEY_CACHE_FILE)) as [w1 b1] eqn:E1. cbn [fst].
  destruct (fs_remove_file w1 (join d KEY_CACHE_META_FILE)) as [w2 b2] eqn:E2. cbn [fst].
  destruct (remove_law (d := d) _ _ _ _ E1) as [_ L1]. destruct (remove_law (d := d) _ _ _ _ E2) as [_ L2].
  rewrite L2, L1 by (by apply names_apart). done.
Qed.

Lemma read_text_holds w n b : holds w n = Some b -> Forall ascii b -> is_ok (fs_read w (join d n)) = true ->
  read_text w (join d n) = Some b.
Proof.
  intros Hb Ha Hr. unfold read_text. destruct (read_law (d := d) w (join d n)) as [R1 _].
  destruct (fs_read w (join d n)) as [c|]; [|done]. cbn [ok mbind option_bind].
  assert (c = b) as -> by (specialize (R1 c eq_refl); unfold Keys.holds in Hb; congruence). by rewrite utf8_ascii.
Qed.

Lemma read_cached_spec t t' key w :
  bytes_wf key -> length key = 32%nat -> 0 <= t < 2 ^ 64 ->
  holds w KEY_CACHE_FILE = Some (to_mkey_string key ++ [10]) ->
  holds w KEY_CACHE_META_FILE = Some (META_KEY ++ dec t ++ [10]) ->
  is_ok (fs_read w (join d KEY_CACHE_FILE)) = true -> is_ok (fs_read w (join d KEY_CACHE_META_FILE)) = true ->
  read_cached_key (Some t') d w = Val (if SERVER_KEY_CACHE_TTL <=? t' - t then None else Some key).
Proof.
  intros Hk Hl Ht H1 H2 R1 R2. unfold read_cached_key.
  assert (Ha : forall l, bytes_wf l -> Forall ascii (hex l)) by (intros; by apply solid_ascii, hex_solid).
  rewrite (read_text_holds _ _ _ H1), (read_text_holds _ _ _ H2); [| |done| |done]; cycle 1.
  { unfold META_KEY. rewrite !Forall_app. split_and!; [apply (bool_decide_unpack _); vm_compute; done| |by repeat constructor].
    apply solid_ascii, dec_solid. lia. }
  { unfold to_mkey_string, MKEY_PREFIX. rewrite !Forall_app. split_and!; [apply (bool_decide_unpack _); vm_compute; done|by apply Ha|by repeat constructor]. }
  cbn [mbind option_bind]. rewrite fetched_at_line by done. unfold SERVER_KEY_CACHE_TTL.
  destruct (Z.leb_spec 3600 (t' - t)); [by rewrite (proj2 (Z.leb_le _ _)) by lia|].
  rewrite (proj2 (Z.leb_gt _ _)) by lia. unfold from_mkey_str, to_mkey_string.
  destruct (from_key_str_hex MKEY_PREFIX key) as (_ & _ & E); [apply (bool_decide_unpack _); vm_compute; done|done|done|].
  unfold encode_hex. by rewrite E.
Qed.
End Cache.

(** * Properties *)

(** The two characters of a byte: hexadecimal digits of either case, or a plus sign and
    a digit. *)
Definition digit_pair (a b x : Z) : Prop :=
  (exists d e, to_digit 16 a = Some d /\ to_digit 16 b = Some e /\ x = 16 * d + e) \/ (a = 43 /\ to_digit 16 b = Some x).
Inductive spells : list Z -> list Z -> Prop :=
| spells_nil : spells [] []
| spells_pair a b x h k : digit_pair a b x -> spells h k -> spells (a :: b :: h) (x :: k).

Lemma digit_pair_radix a b x : from_str_radix 16 255 [a; b] = Some x <-> digit_pair a b x.
Proof.
  pose proof (to_digit_bound 16) as Hr.
  unfold from_str_radix, digit_pair. destruct (Z.eqb_spec a 43) as [->|Ha]; cbn [parse_digits].
  - change (to_digit 16 43) with (@None Z). destruct (to_digit 16 b) as [e|] eqn:Eb; cbn.
    + specialize (Hr _ _ Eb). change (0 * 16 + e) with e. destruct (Z.ltb_spec 255 e); [lia|]. split; [intros ?; by right|]. by intros [(? & ? & ? & _)|[_ ?]].
    + split; [done|]. by intros [(? & ? & ? & _)|[_ ?]].
  - destruct (to_digit 16 a) as [d|] eqn:Ea; cbn; [|split; [done|]; by intros [(? & ? & ? & _)|[? _]]]. pose proof (Hr _ _ Ea). change (0 * 16 + d) with d. destruct (Z.ltb_spec 255 d); [lia|].
    destruct (to_digit 16 b) as [e|] eqn:Eb; cbn; [|split; [done|]; by intros [(? & ? & ? & ? & _)|[? _]]]. pose proof (Hr _ _ Eb). destruct (Z.ltb_spec 255 (d * 16 + e)); [lia|].
    split; [intros [= <-]; left; exists d, e; split_and!; [done..|lia]|]. intros [(d' & e' & [= <-] & [= <-] & ->)|[? _]]; [f_equal; lia|done].
Qed.

Lemma decode_pairs_spells n : forall h k, (length h = 2 * n)%nat -> decode_pairs n h = Some k <-> length k = n /\ spells h k.
Proof.
  induction n as [|n IH]; intros h k Hl.
  - destruct h; [|done]. cbn. split; [intros [= <-]; split; [done|constructor]|]. by intros [Hk%nil_length_inv _]; subst.
  - destruct h as [|a [|b h]]; [done|cbn in Hl; lia|]. cbn [decode_pairs].
    assert (Hh : (length h = 2 * n)%nat) by (cbn in Hl; lia). split.
    + destruct (from_str_radix 16 255 [a; b]) as [x|] eqn:Ex; [|done]. cbn. destruct (decode_pairs n h) as [r|] eqn:Er; [|done]. intros [= <-].
      apply IH in Er as [Hr Hs]; [|done]. split; [cbn; lia|]. constructor; [by apply digit_pair_radix|done].
    + intros [Hk Hs]. inversion Hs as [|? ? x ? k' Hp Hs' E1 E2]; subst. apply digit_pair_radix in Hp as ->. cbn.
      cbn in Hk. by rewrite (proj2 (IH h k' Hh)) by (split; [lia|done]).
Qed.

Lemma spells_length h k : spells h k -> length h = (2 * length k)%nat.
Proof. induction 1; cbn; lia. Qed.

Lemma decode_hex_32_spells h k : decode_hex_32 h = Some k <-> length k = 32%nat /\ spells h k.
Proof.
  unfold decode_hex_32. case_decide as Hl; [apply decode_pairs_spells; lia|]. split; [done|]. intros [Hk Hs%spells_length]. lia.
Qed.

Lemma decode_hex_both h k : decode_hex h 32 = Val (Ok k) <-> decode_hex_32 h = Some k.
Proof.
  unfold decode_hex, decode_hex_32. change (32 * 2)%nat with 64%nat. case_decide as Hl; [|done]. split.
  - intros E%decode_from_sound; [by rewrite drop_0 in E|lia].
  - intros E. rewrite decode_from_pairs; [by rewrite drop_0, E| |lia]. apply (decode_pairs_ascii 32 h k); [lia|done].
Qed.

(** C40: key text.  The text of a 32-byte key is read back as that key, with or
    without a line feed after it, by the parser of its kind and by the decoder of the
    network map.  The parsers of server and node keys accept exactly the text that,
    trimmed and without its prefix if it has one, is 32 pairs of hexadecimal digits of
    either case, where a plus sign may stand for a leading zero, and read it as those
    bytes; so does the network map's decoder, without the trimming.  ASCII text never
    panics. *)
Theorem key_text_roundtrip :
  (forall k, bytes_wf k -> length k = 32%nat ->
     from_mkey_str (to_mkey_string k) = Val (Ok k) /\ from_mkey_str (to_mkey_string k ++ [10]) = Val (Ok k) /\
     from_nodekey_str (to_nodekey_string k) = Val (Ok k) /\ parse_nodekey (to_nodekey_string k) = Some k /\
     parse_nodekey_with_prefix (to_discokey_string k) DISCOKEY_PREFIX = Some k) /\
  (forall prefix s k, from_key_str prefix s = Val (Ok k) <->
     length k = 32%nat /\ spells (default (trim s) (strip_prefix prefix (trim s))) k) /\
  (forall s prefix k, parse_nodekey_with_prefix s prefix = Some k <-> length k = 32%nat /\ spells (default s (strip_prefix prefix s)) k) /\
  (forall h, Forall ascii h -> decode_hex h 32 <> Panicked).
Proof.
  assert (Hsolid : Forall solid MKEY_PREFIX /\ Forall solid NODEKEY_PREFIX)
    by (split; apply (bool_decide_unpack _); vm_compute; done).
  destruct Hsolid as [Hm Hn]. split_and!.
  - intros k Hk Hl. destruct (from_key_str_hex _ k Hm Hk Hl) as (E1 & E2 & _).
    destruct (from_key_str_hex _ k Hn Hk Hl) as (E3 & _).
    assert (Ep : forall p, parse_nodekey_with_prefix (p ++ hex k) p = Some k).
    { intros p. unfold parse_nodekey_with_prefix. rewrite strip_prefix_app. cbn [default]. by apply decode_hex_both, decode_hex_hex. }
    split_and!; [done|done|done|apply Ep|apply Ep].
  - intros prefix s k. unfold from_key_str. rewrite <- decode_hex_32_spells, <- decode_hex_both. case_decide as Hl; [done|].
    unfold decode_hex. rewrite decide_False by lia. done.
  - intros s prefix k. apply decode_hex_32_spells.
  - intros h Ha. unfold decode_hex. case_decide as Hl; [|discriminate]. rewrite decode_from_pairs; [discriminate|done|lia].
Qed.

(** C28: the identity is kept.  Loading the key store never replaces a stored key
    of the right size, whatever fails on the way; once it has succeeded, every
    later load from the same files gives the same keys, or reports a read error,
    and writes nothing; and after a rotation of the node key a load gives the new
    node key and the other three unchanged. *)
Theorem keystore_persists {W} {d : list Z} `{FsLaws W d} (pid : Z) (secret : nat -> list Z) (derive_pub : list Z -> list Z)
    (w : W) (n : nat) w1 n1 r :
  tidy d -> 0 <= pid -> (forall i, length (secret i) = 32%nat) ->
  (forall f, f ∈ key_files -> holds (d := d) w (tmp_name pid f) = None) ->
  load_or_generate pid secret derive_pub d (w, n) = ((w1, n1), r) ->
  (forall f b, f ∈ key_files -> holds (d := d) w f = Some b -> length b = 32%nat -> holds (d := d) w1 f = Some b) /\
  forall ks, r = Ok ks ->
    (forall w2 n2, (forall f, f ∈ key_files -> holds (d := d) w2 f = holds (d := d) w1 f) ->
       exists r2, load_or_generate pid secret derive_pub d (w2, n2) = ((w2, n2), r2) /\
                  (r2 = Ok ks \/ r2 = Err (Io OtherError))) /\
    (forall n2 w3 n3 ks', regenerate_node_key pid secret derive_pub d ks (w1, n2) = ((w3, n3), Ok ks') ->
       (node_priv ks', machine_priv ks', disco_priv ks', nl_priv ks') =
         (secret n2, machine_priv ks, disco_priv ks, nl_priv ks) /\
       exists r3, load_or_generate pid secret derive_pub d (w3, n3) = ((w3, n3), r3) /\
                  (r3 = Ok ks' \/ r3 = Err (Io OtherError))).
Proof.
  intros Hd Hpid Hs Hno E. apply (load_spec pid) in E as [K O]; [|done..]. split; [done|]. intros ks Hr.
  destruct (O ks Hr) as [Hst Hno1]. split.
  - intros w2 n2 Hsame. apply load_stored; [done..|]. destruct Hst as [Eks Hst]. split; [done|].
    intros f b Hf. rewrite Hsame; [by apply Hst|]. revert Hf. unfold key_files. rewrite !elem_of_cons, !elem_of_nil.
    intros [[= -> ->]|[[= -> ->]|[[= -> ->]|[[= -> ->]|[]]]]]; auto.
  - intros n2 w3 n3 ks' Er. eapply (regenerate_spec pid) in Er; [|done..].
    destruct Er as (Hst3 & _ & -> & -> & -> & ->). split; [done|]. by apply load_stored.
Qed.

(** the cached server key.  A key written to the cache is returned, without
    contacting the server, exactly while it is younger than an hour by the clock
    (also when the clock has gone back), and no more once the cache has been
    invalidated. *)
Theorem server_key_cache_ttl {W} {d : list Z} `{FsLaws W d} (w w' : W) key t t' :
  bytes_wf key -> length key = 32%nat -> 0 <= t < 2 ^ 64 ->
  holds (d := d) w (KEY_CACHE_FILE ++ bs ".tmp") = None -> holds (d := d) w (KEY_CACHE_META_FILE ++ bs ".tmp") = None ->
  write_cached_key (Some t) d key w = (w', Ok tt) ->
  is_ok (fs_read w' (join d KEY_CACHE_FILE)) = true -> is_ok (fs_read w' (join d KEY_CACHE_META_FILE)) = true ->
  read_cached_key (Some t') d w' = Val (if SERVER_KEY_CACHE_TTL <=? t' - t then None else Some key) /\
  (t' < t + 3600 -> forall get pk url v, fetch_server_key_cached (Some t') get pk url v d w' = Val (w', Ok key)) /\
  ((fs_remove_file w' (join d KEY_CACHE_FILE)).2 = true ->
     read_cached_key (Some t') d (invalidate_server_key_cache d w') = Val None).
Proof.
  intros Hk Hl Ht H1 H2 E R1 R2. apply write_cached_spec in E as [E1 E2]; [|done..].
  pose proof (read_cached_spec t t' key w' Hk Hl Ht E1 E2 R1 R2) as Hr. split_and!; [done| |].
  - intros Hage get pk url v. unfold fetch_server_key_cached. rewrite Hr. cbn [mbind outcome_bind].
    unfold SERVER_KEY_CACHE_TTL. by rewrite (proj2 (Z.leb_gt _ _)) by lia.
  - intros Hrm. unfold invalidate_server_key_cache. destruct (fs_remove_file w' _) as [w1 b1] eqn:Er1. cbn in Hrm. subst b1.
    destruct (fs_remove_file w1 (join d KEY_CACHE_META_FILE)) as [w2 b2] eqn:Er2. destruct (remove_law (d := d) _ _ _ _ Er1) as [L1 _].
    destruct (remove_law (d := d) _ _ _ _ Er2) as [_ L2]. cbn [fst].
    destruct cache_files_facts as [Hp Hnd]. unfold cache_files in *.
    rewrite !list.Forall_cons in Hp. destruct Hp as (P1 & P2 & _). apply list.NoDup_cons in Hnd as [Hn _].
    apply not_elem_of_cons in Hn as [N12 _]. cbv zeta. rewrite Er2. cbn [fst]. unfold read_cached_key, read_text.
    destruct (read_law (d := d) w2 (join d KEY_CACHE_FILE)) as [R _].
    destruct (fs_read w2 (join d KEY_CACHE_FILE)) as [c|]; [|done]. specialize (R c eq_refl).
    rewrite L2, L1 in R by (done || by apply names_apart). done.
Qed.

(** A pinned server key is not replaced by another: when the file holds a key,
    another key is refused and nothing is written; the answer is always the key
    asked about, which is then on disk. *)
Theorem pinned_key_kept {W} {d : list Z} `{FsLaws W d} (pid : Z) (seen : list Z) (w w' : W) r :
  tidy d -> 0 <= pid -> holds (d := d) w (tmp_name pid (bs "server-key.bin")) = None ->
  pin_or_load_server_key pid d seen w = (w', r) ->
  (forall b, holds (d := d) w (bs "server-key.bin") = Some b -> length b = 32%nat -> b <> seen ->
     w' = w /\ (r = Err ServerKeyChanged \/ r = Err (Io OtherError))) /\
  (forall k, r = Ok k -> k = seen /\ holds (d := d) w' (bs "server-key.bin") = Some seen).
Proof.
  intros Hd Hpid Hno. set (f := bs "server-key.bin") in *. assert (Hf : own_name f) by (apply (bool_decide_unpack _); vm_compute; done).
  unfold pin_or_load_server_key. fold f. cbv zeta. destruct (read_law (d := d) w (join d f)) as [R1 R2].
  assert (Hpin : forall w' r, (atomic_write pid (join d f) seen ≫= fun _ => mret seen) w = (w', r) ->
                 forall k, r = Ok k -> k = seen /\ holds (d := d) w' f = Some seen).
  { intros w1 r1. unfold mbind, se_bind. destruct (atomic_write _ _ _ w) as [w2 r2] eqn:E.
    apply (atomic_write_spec (d := d)) in E as (A1 & _); [|done|done|done| |done].
    2:{ apply not_eq_sym. eapply tmp_name_ne; [done|vm_compute; done|lia]. }
    destruct r2 as [[]|]; intros [= <- <-] k; [|done]. intros [= <-]. split; [done|]. by apply A1. }
  destruct (fs_read w (join d f)) as [c|[]].
  - specialize (R1 c eq_refl). destruct (decide (length c = 32%nat)) as [Hl|Hl]; [destruct (decide (c = seen)) as [Hc|Hc]|].
    + intros [= <- <-]. subst c. split; [intros b Hb; unfold holds in Hb; congruence|]. intros k [= <-]. auto.
    + intros [= <- <-]. split; [auto|done].
    + intros E. split; [|by eapply Hpin]. intros b Hb. unfold holds in Hb. congruence.
  - intros E. split; [|by eapply Hpin]. intros b Hb. unfold holds in Hb. specialize (R2 eq_refl). congruence.
  - intros [= <- <-]. split; [auto|done].
Qed.

(** The decoder of key text slices the text as characters: a key text of the
    right length with a two-byte character across a pair panics; and a sign is
    accepted where a digit should be. *)
Theorem key_text_pitfalls :
  from_mkey_str (bs "mkey:0" ++ [195; 169] ++ repeat 48 61) = Panicked /\
  from_mkey_str (bs "mkey:+f" ++ repeat 48 62) = Val (Ok (15 :: repeat 0 31)).
Proof. split; vm_compute; reflexivity. Qed.

(** ** Samples *)

Definition toy_dir : list Z := bs "ux0:data/ts".

Lemma toy_device : device_dir toy_dir.
Proof. exists (bs "ux0"), (bs "data/ts"). split; [done|]. split; apply (bool_decide_unpack _); vm_compute; done. Qed.

#[global] Instance toy_laws : FsLaws Toy.Kernel toy_dir := vita_fs_laws Toy.fuel toy_dir toy_device.

Lemma toy_tidy : tidy toy_dir.
Proof. exists (bs "ux0:data/t"), 115. split; [reflexivity|lia]. Qed.

(** A card that has the machine key and a node key of the wrong size. *)
Definition toy_card : Toy.Kernel :=
  Toy.mkKernel {[ bs "ux0:data/ts/machine.priv" := repeat 7 32; bs "ux0:data/ts/node.priv" := [1] ]} [] [] ∅ [].
Definition toy_secret (i : nat) : list Z := repeat (Z.of_nat i) 32.
Definition toy_load (x : Toy.Kernel * nat) : Toy.Kernel * nat * result ControlError KeyStore :=
  load_or_generate 9 toy_secret (fun k => k) toy_dir x.

Lemma keystore_persists_witness :
  exists x ks, toy_load (toy_card, 0%nat) = (x, Ok ks) /\ machine_priv ks = repeat 7 32 /\ node_priv ks = repeat 0 32 /\
    holds (d := toy_dir) x.1 MACHINE_FILE = Some (repeat 7 32) /\
    exists r2, toy_load x = (x, r2) /\ (r2 = Ok ks \/ r2 = Err (Io OtherError)).
Proof.
  destruct (toy_load (toy_card, 0%nat)) as [[w1 n1] r] eqn:E.
  assert (Er : (fun ks => (machine_priv ks, node_priv ks)) <$> ok r = Some (repeat 7 32, repeat 0 32)).
  { replace r with (toy_load (toy_card, 0%nat)).2 by (rewrite E; reflexivity). vm_compute. reflexivity. }
  destruct r as [ks|]; [|discriminate Er]. injection Er as E1 E2. exists (w1, n1), ks.
  destruct (keystore_persists 9 toy_secret (fun k => k) toy_card 0 w1 n1 (Ok ks)) as [K L].
  - apply toy_tidy.
  - lia.
  - intros i. apply repeat_length.
  - intros f. unfold key_files. rewrite !elem_of_cons, elem_of_nil.
    intros [->|[->|[->|[->|[]]]]]; vm_compute; reflexivity.
  - exact E.
  - split; [reflexivity|]. split; [exact E1|]. split; [exact E2|]. split.
    + apply K; [apply elem_of_cons; by left|vm_compute; reflexivity|apply repeat_length].
    + destruct (L ks eq_refl) as [L1 _]. apply L1. done.
Defined.

Definition toy_cached : Toy.Kernel := (write_cached_key (Some 100) toy_dir (repeat 171 32) toy_card).1.

Lemma server_key_cache_ttl_witness :
  read_cached_key (Some 3699) toy_dir toy_cached = Val (Some (repeat 171 32)) /\
  read_cached_key (Some 3700) toy_dir toy_cached = Val None.
Proof.
  split; refine (proj1 (server_key_cache_ttl toy_card toy_cached (repeat 171 32) 100 _ _ _ _ _ _ _ _ _));
    try (vm_compute; reflexivity); try lia;
    apply (bool_decide_unpack _); vm_compute; exact I.
Defined.

Lemma pinned_key_kept_witness :
  let k := (pin_or_load_server_key 9 toy_dir (repeat 3 32) toy_card).1 in
  (pin_or_load_server_key 9 toy_dir (repeat 4 32) k).1 = k.
Proof.
  refine (proj1 (proj1 (pinned_key_kept (d := toy_dir) 9 (repeat 4 32) _ _ _ toy_tidy ltac:(lia) _ (surjective_pairing _)) (repeat 3 32) _ _ _));
    vm_compute; (reflexivity || discriminate).
Defined.
