(* ===== verification/Noise.v ===== *)
(** The encrypted channel to the control server: the Noise envelope and record
    layer (ts-control: noise.rs, record.rs), the HTTP upgrade that opens it
    (upgrade.rs) and the bytes between the two (tailscale-vita: proto.rs).

    The cipher states of the snow crate are a parameter: the class [NoiseOps] has
    the calls, [NoiseLaws] what the Noise protocol promises of a sender and a
    receiver in step.  A TCP stream is the sequence of what becomes readable;
    [tcp_read] is one call of [read] with a buffer of a given size. *)

From S2P Require Import Prelude Text VitaFs Keys.
#[local] Open Scope Z_scope.

(** ** Sockets *)

(** What becomes readable: bytes, a read timeout, the end of the stream (for
    good) or a failure. *)
Inductive Readable : Type :=
| Data (c : list Z)
| Quiet
| Closed
| Broken.

Inductive NetErr : Type := WouldBlock | UnexpectedEof | OtherIo.

(** [read(&mut tmp[..n])]: [Ok []] is the end of the stream.  Bytes that do not
    fit stay readable; with nothing left to come the call times out. *)
Definition tcp_read (n : nat) (src : list Readable) : result NetErr (list Z) * list Readable :=
  match src with
  | [] => (Err WouldBlock, [])
  | Quiet :: r => (Err WouldBlock, r)
  | Broken :: r => (Err OtherIo, r)
  | Closed :: _ => (Ok [], src)
  | Data c :: r => if decide (length c <= n)%nat then (Ok c, r) else (Ok (take n c), Data (drop n c) :: r)
  end.

(** ** noise.rs *)

Definition CAPVER : Z := 130.
Definition PROTOCOL_VERSION : Z := CAPVER.
Definition MSG_TYPE_INIT : Z := 0x01.
Definition MSG_TYPE_RESP : Z := 0x02.
Definition MSG_TYPE_RECORD : Z := 0x04.
Definition NOISE_INIT_LEN : nat := 96.
Definition NOISE_RESP_LEN : nat := 48.
Definition SERVER_RESP_TOTAL_LEN : nat := (1 + 2 + NOISE_RESP_LEN)%nat.
Definition NOISE_MAX_RECORD_PAYLOAD : nat := Z.to_nat (65535 - 16).
Definition HEADER_LEN : nat := 3.

Definition prologue : list Z := bs "Tailscale Control Protocol v" ++ dec PROTOCOL_VERSION.

(** snow's transport state and handshake state. *)
Class NoiseOps (St Hs : Type) : Type := {
  write_message : St -> list Z -> option (St * list Z);
  read_message : St -> list Z -> option (St * list Z);
  hs_write : Hs -> option (Hs * list Z);
  hs_read : Hs -> list Z -> option Hs;
  into_transport : Hs -> option St
}.

(** [in_step s r]: what [s] encrypts next is what [r] decrypts next. *)
Class NoiseLaws (St Hs : Type) `{NoiseOps St Hs} : Type := {
  in_step : St -> St -> Prop;
  write_len : forall s p s' c, write_message s p = Some (s', c) -> length c = (length p + 16)%nat;
  read_law : forall s r p s' c, in_step s r -> write_message s p = Some (s', c) ->
    exists r', read_message r c = Some (r', p) /\ in_step s' r'
}.

Section Noise.
Context {St Hs : Type} `{NoiseOps St Hs}.

(** The envelope of [build_init_header], before its base64 text. *)
Definition build_init_envelope (h : Hs) : result ControlError (Hs * list Z) :=
  match hs_write h with
  | None => Err (Transport (bs "snow write_message init"))
  | Some (h, init) =>
      if decide (length init = NOISE_INIT_LEN) then
        Ok (h, be_bytes 2 PROTOCOL_VERSION ++ [MSG_TYPE_INIT] ++ be_bytes 2 (Z.of_nat NOISE_INIT_LEN) ++ init)
      else Err (Transport (bs "snow init unexpected length"))
  end.

(** [NoiseHandshaker::finalize]. *)
Definition finalize (h : Hs) (server_response : list Z) : result ControlError St :=
  if decide (length server_response = SERVER_RESP_TOTAL_LEN) then
    match server_response with
    | ty :: l1 :: l2 :: payload =>
        if negb (ty =? MSG_TYPE_RESP) then Err (Transport (bs "noise: server response msg type"))
        else if negb (from_be [l1; l2] =? Z.of_nat NOISE_RESP_LEN) then Err (Transport (bs "noise: server response inner len"))
        else match hs_read h payload ≫= into_transport with
             | Some s => Ok s | None => Err (Transport (bs "snow read_message resp")) end
    | _ => Err (Transport (bs "noise: server response wrong length"))
    end
  else Err (Transport (bs "noise: server response wrong length")).

(** [NoiseTransport::write_record] and [decrypt_record]. *)
Definition write_record (s : St) (plaintext : list Z) : result ControlError (St * list Z) :=
  if decide (NOISE_MAX_RECORD_PAYLOAD < length plaintext)%nat then Err (Transport (bs "noise: plaintext > max"))
  else match write_message s plaintext with
       | None => Err (Transport (bs "snow write transport"))
       | Some (s, ct) => Ok (s, MSG_TYPE_RECORD :: be_bytes 2 (wrap 16 (Z.of_nat (length ct))) ++ ct)
       end.

Definition decrypt_record (s : St) (payload : list Z) : result ControlError (St * list Z) :=
  match read_message s payload with Some x => Ok x | None => Err (Transport (bs "snow read transport")) end.

(** ** record.rs *)

Record NoiseStream : Type := mkStream {
  inner : list Readable; noise : St; rx_plain : list Z; rx_buf : list Z; eof : bool
}.

Definition stream_new (inner : list Readable) (noise : St) (leftover : list Z) : NoiseStream :=
  mkStream inner noise [] leftover false.

(** The loop of [fill_until]: every pass but the last adds a byte, so the fuel is
    the number of bytes missing. *)
Fixpoint fill_loop (fuel required : nat) (st : NoiseStream) : NoiseStream * result NetErr unit :=
  if decide (required <= length (rx_buf st))%nat then (st, Ok tt)
  else if eof st then (st, Err UnexpectedEof)
  else match fuel with
       | O => (st, Err OtherIo)
       | S f =>
           match tcp_read 4096 (inner st) with
           | (Ok [], src) => (mkStream src (noise st) (rx_plain st) (rx_buf st) true, Err UnexpectedEof)
           | (Ok c, src) => fill_loop f required (mkStream src (noise st) (rx_plain st) (rx_buf st ++ c) false)
           | (Err e, src) => (mkStream src (noise st) (rx_plain st) (rx_buf st) false, Err e)
           end
       end.
Definition fill_until (required : nat) (st : NoiseStream) : NoiseStream * result NetErr unit :=
  fill_loop (S (required - length (rx_buf st))) required st.

Definition drain_one_record (st : NoiseStream) : NoiseStream * result NetErr unit :=
  let '(st, r) := if decide (length (rx_buf st) < HEADER_LEN)%nat then fill_until HEADER_LEN st else (st, Ok tt) in
  match r, rx_buf st with
  | Err e, _ => (st, Err e)
  | Ok _, ty :: l1 :: l2 :: _ =>
      if negb (ty =? MSG_TYPE_RECORD) then (st, Err OtherIo)
      else let total := (HEADER_LEN + Z.to_nat (from_be [l1; l2]))%nat in
           let '(st, r) := fill_until total st in
           match r with
           | Err e => (st, Err e)
           | Ok _ =>
               match decrypt_record (noise st) (drop HEADER_LEN (take total (rx_buf st))) with
               | Err _ => (st, Err OtherIo)
               | Ok (s, out) =>
                   (mkStream (inner st) s (rx_plain st ++ out) (drop total (rx_buf st)) (eof st), Ok tt)
               end
           end
  | Ok _, _ => (st, Err OtherIo)
  end.

(** [Read::read] with a buffer of [n] bytes. *)
Definition stream_read (n : nat) (st : NoiseStream) : NoiseStream * result NetErr (list Z) :=
  let '(st, r) := match rx_plain st with [] => drain_one_record st | _ => (st, Ok tt) end in
  match r with
  | Err e => (st, Err e)
  | Ok _ => (mkStream (inner st) (noise st) (drop n (rx_plain st)) (rx_buf st) (eof st), Ok (take n (rx_plain st)))
  end.

(** [Write::write]: one record per chunk of the buffer; the records that are
    handed to the socket, in order, and whether encryption failed. *)
Fixpoint write_chunks (s : St) (chunks : list (list Z)) : St * list (list Z) * bool :=
  match chunks with
  | [] => (s, [], true)
  | c :: r =>
      match write_record s c with
      | Err _ => (s, [], false)
      | Ok (s, rec) => let '(s, recs, done) := write_chunks s r in (s, rec :: recs, done)
      end
  end.

(** [chunks(n)]. *)
Fixpoint chunks_fuel (fuel n : nat) (l : list Z) : list (list Z) :=
  match fuel, l with
  | S f, _ :: _ => take n l :: chunks_fuel f n (drop n l)
  | _, _ => []
  end.
Definition chunks (n : nat) (l : list Z) : list (list Z) := chunks_fuel (length l) n l.

Definition stream_write (buf : list Z) (s : St) : St * list (list Z) * bool :=
  write_chunks s (chunks NOISE_MAX_RECORD_PAYLOAD buf).

(** [Read::read_exact]: an end of stream or an error fails it; every pass but the
    last yields a byte. *)
Fixpoint read_exact_loop (fuel n : nat) (out : list Z) (st : NoiseStream) : NoiseStream * result NetErr (list Z) :=
  match n with
  | O => (st, Ok out)
  | S _ =>
      match fuel with
      | O => (st, Err OtherIo)
      | S f =>
          match stream_read n st with
          | (st, Err e) => (st, Err e)
          | (st, Ok []) => (st, Err UnexpectedEof)
          | (st, Ok c) => read_exact_loop f (n - length c) (out ++ c) st
          end
      end
  end.
Definition read_exact (n : nat) (st : NoiseStream) : NoiseStream * result NetErr (list Z) := read_exact_loop n n [] st.

(** ** upgrade.rs and proto.rs *)

(** The response head by the httparse crate: an error, a head that is not
    complete or has no status code, or the code. *)
Context (parse_response : list Z -> option (option Z)).

Definition find_header_terminator (buf : list Z) : option nat :=
  (fun x => length x.1) <$> split_str [13; 10; 13; 10] buf.

Fixpoint read_head_loop (fuel : nat) (buf : list Z) (src : list Readable) : result ControlError (nat * list Z) * list Readable :=
  if 16 * 1024 <? Z.of_nat (length buf) then (Err (Transport (bs "upgrade response > 16 KiB without complete headers")), src)
  else match fuel with
       | O => (Err (Transport []), src)
       | S f =>
           match tcp_read 1024 src with
           | (Err _, src) => (Err (Io OtherError), src)
           | (Ok [], src) => (Err (Transport (bs "upgrade response closed before complete headers")), src)
           | (Ok c, src) =>
               let buf := buf ++ c in
               match find_header_terminator buf with
               | Some pos => (Ok ((pos + 4)%nat, buf), src)
               | None => read_head_loop f buf src
               end
           end
       end.

(** [read_101]: the bytes read past the head.  A pass adds a byte and the buffer
    is bounded. *)
Definition read_101 (src : list Readable) : result ControlError (list Z) * list Readable :=
  match read_head_loop (Z.to_nat (16 * 1024 + 2)) [] src with
  | (Err e, src) => (Err e, src)
  | (Ok (header_end, buf), src) =>
      match parse_response (take header_end buf) with
      | None => (Err HttpParse, src)
      | Some None => (Err (Transport (bs "upgrade: ")), src)
      | Some (Some status) => if negb (status =? 101) then (Err (Http status []), src) else (Ok (drop header_end buf), src)
      end
  end.

Definition SERVER_RESP_LEN : nat := 51.

(** [read_server_response]: the response and what is left over. *)
Fixpoint response_loop (fuel : nat) (out : list Z) (src : list Readable) : result ControlError (list Z * list Z) * list Readable :=
  if decide (SERVER_RESP_LEN <= length out)%nat then (Ok (take SERVER_RESP_LEN out, drop SERVER_RESP_LEN out), src)
  else match fuel with
       | O => (Err (Transport []), src)
       | S f =>
           match tcp_read (Nat.min (SERVER_RESP_LEN - length out) 64) src with
           | (Err _, src) => (Err (Io OtherError), src)
           | (Ok [], src) => (Err (Transport (bs "noise: server closed before sending 51 bytes")), src)
           | (Ok c, src) => response_loop f (out ++ c) src
           end
       end.
Definition read_server_response (leftover : list Z) (src : list Readable) :
    result ControlError (list Z * list Z) * list Readable :=
  response_loop (S SERVER_RESP_LEN) leftover src.

Definition EARLY_PAYLOAD_MAGIC : list Z := [255; 255; 255] ++ bs "TS".

Definition consume_early_payload (st : NoiseStream) : NoiseStream * result ControlError unit :=
  match read_exact 9 st with
  | (st, Err _) => (st, Err (Transport (bs "early payload header")))
  | (st, Ok hdr) =>
      if negb (bool_decide (take 5 hdr = EARLY_PAYLOAD_MAGIC)) then (st, Err (Transport (bs "early payload missing magic")))
      else let len := from_be (drop 5 hdr) in
           if 64 * 1024 <? len then (st, Err (Transport (bs "early payload length absurd")))
           else match read_exact (Z.to_nat len) st with
                | (st, Err _) => (st, Err (Transport (bs "early payload body")))
                | (st, Ok _) => (st, Ok tt)
                end
  end.

(** From the socket to the stream handed to HTTP/2, once the request is sent. *)
Definition open_stream (h : Hs) (src : list Readable) : result ControlError NoiseStream :=
  match read_101 src with
  | (Err e, _) => Err e
  | (Ok leftover, src) =>
      match read_server_response leftover src with
      | (Err e, _) => Err e
      | (Ok (response, leftover), src) =>
          match finalize h response with
          | Err e => Err e
          | Ok s =>
              match consume_early_payload (stream_new src s leftover) with
              | (_, Err e) => Err e
              | (st, Ok _) => Ok st
              end
          end
      end
  end.
End Noise.
Arguments NoiseStream St : clear implicits.

(** The reading side of the pump thread (async_io.rs): [k] reads of [n] bytes;
    a timeout is tried again, an end of stream or an error ends it. *)
Fixpoint pump_reads {St Hs} `{NoiseOps St Hs} (k n : nat) (st : NoiseStream St) : list Z :=
  match k with
  | O => []
  | S k =>
      match stream_read n st with
      | (st, Ok []) => []
      | (st, Ok c) => c ++ pump_reads k n st
      | (st, Err WouldBlock) => pump_reads k n st
      | (_, Err _) => []
      end
  end.

(** * Lemmas *)

Definition data (src : list Readable) : list Z :=
  concat (map (fun e => match e with Data c => c | _ => [] end) src).
Definition quiets (src : list Readable) : nat :=
  length (List.filter (fun e => match e with Quiet => true | _ => false end) src).

(** A stream that is open and only has bytes and pauses. *)
Definition live (src : list Readable) : Prop :=
  Forall (fun e => match e with Data c => c <> [] | Quiet => True | _ => False end) src.

Lemma tcp_read_live n src :
  (0 < n)%nat -> live src ->
  match tcp_read n src with
  | (Ok c, src') => c <> [] /\ (length c <= n)%nat /\ data src = c ++ data src' /\ live src' /\ quiets src' = quiets src
  | (Err e, src') => e = WouldBlock /\ data src' = data src /\ live src' /\ (src = [] /\ src' = [] \/ quiets src = S (quiets src'))
  end.
Proof.
  intros Hn Hl. destruct src as [|[c| | |] src]; cbn [tcp_read]; try by (apply Forall_cons_1 in Hl as [[] _]).
  - split_and!; auto.
  - apply Forall_cons_1 in Hl as [Hc Hl]. case_decide as Hlen; [done|]. split_and!.
    + destruct c; [done|]. by destruct n; [lia|].
    + rewrite length_take. lia.
    + unfold data. cbn [map concat]. by rewrite app_assoc, take_drop.
    + apply Forall_cons_2; [|done]. intros E. apply (f_equal length) in E. rewrite length_drop in E. cbn in E. lia.
    + done.
  - apply Forall_cons_1 in Hl as [_ Hl]. split_and!; auto.
Qed.

Lemma max_payload_val : Z.of_nat NOISE_MAX_RECORD_PAYLOAD = 65519.
Proof. unfold NOISE_MAX_RECORD_PAYLOAD. lia. Qed.

#[global] Opaque NOISE_MAX_RECORD_PAYLOAD.

(** ** Filling the buffer *)

Section Stream.
Context {St Hs : Type} `{NoiseLaws St Hs}.

Lemma fill_loop_spec req fuel : forall (st st' : NoiseStream St) r,
  eof st = false -> live (inner st) -> (req - length (rx_buf st) < fuel)%nat -> fill_loop fuel req st = (st', r) ->
  eof st' = false /\ live (inner st') /\ rx_buf st' ++ data (inner st') = rx_buf st ++ data (inner st) /\
  noise st' = noise st /\ rx_plain st' = rx_plain st /\ (length (rx_buf st) <= length (rx_buf st'))%nat /\
  (quiets (inner st') <= quiets (inner st))%nat /\
  match r with
  | Ok _ => (req <= length (rx_buf st'))%nat
  | Err e => e = WouldBlock /\ (length (rx_buf st') < req)%nat /\
             (data (inner st') = [] \/ (quiets (inner st') < quiets (inner st))%nat)
  end.
Proof.
  induction fuel as [|f IH]; intros st st' r He Hl Hf; [lia|]. cbn [fill_loop]. case_decide as Hreq.
  { intros [= <- <-]. split_and!; done || lia. }
  rewrite He. pose proof (tcp_read_live 4096 (inner st) ltac:(lia) Hl) as Ht.
  destruct (tcp_read 4096 (inner st)) as [[c|e] src].
  - destruct Ht as (Hc & _ & Hd & Hl' & Hq). destruct c as [|x c]; [done|]. intros E.
    apply IH in E; [|done|done|cbn; rewrite length_app; cbn; lia].
    cbn [inner rx_buf noise rx_plain eof] in E. rewrite length_app, Hq in E.
    destruct E as (E1 & E2 & E3 & E4 & E5 & E6 & E7 & E8). split_and!; try done || lia.
    rewrite E3, Hd. by rewrite <- app_assoc.
  - destruct Ht as (-> & Hd & Hl' & Hq). intros [= <- <-]. cbn [inner rx_buf noise rx_plain eof]. rewrite Hd. split_and!; try done || lia.
    + destruct Hq as [[E ->]|Hq]; [cbn; lia|lia].
    + destruct Hq as [[E _]|Hq]; [left; by rewrite E|right; lia].
Qed.

(** The bytes of a sequence of records, written from cipher state [s]. *)
Fixpoint wire (s : St) (ps : list (list Z)) : option (list Z) :=
  match ps with
  | [] => Some []
  | p :: ps => match write_record s p with Ok (s, rec) => app rec <$> wire s ps | Err _ => None end
  end.

Lemma wire_cons s p ps w : wire s (p :: ps) = Some w ->
  exists s' l1 l2 c w', write_message s p = Some (s', c) /\ wire s' ps = Some w' /\
    w = MSG_TYPE_RECORD :: l1 :: l2 :: c ++ w' /\ from_be [l1; l2] = Z.of_nat (length c) /\ (0 < length c)%nat.
Proof.
  cbn [wire]. unfold write_record. case_decide as Hm; [done|]. destruct (write_message s p) as [[s' c]|] eqn:E; [|done].
  destruct (wire s' ps) as [w'|] eqn:Ew; [|done]. cbn [fmap option_fmap]. pose proof (write_len _ _ _ _ E) as Hlen.
  pose proof max_payload_val. assert (Hb : from_be (be_bytes 2 (wrap 16 (Z.of_nat (length c)))) = Z.of_nat (length c)).
  { unfold wrap. rewrite Z.mod_small by lia. apply from_be_be_bytes_small. lia. }
  pose proof (length_be_bytes 2 (wrap 16 (Z.of_nat (length c)))) as Hl.
  destruct (be_bytes 2 _) as [|l1 [|l2 [|]]]; try discriminate. intros [= <-]. exists s', l1, l2, c, w'.
  split; [reflexivity|]. split; [first [exact Ew|reflexivity]|]. split; [reflexivity|]. split; [exact Hb|lia].
Qed.

(** The stream will yield [plain]: what is decrypted already, then the records
    of which the buffer and the socket hold a prefix; [tail] has not come yet. *)
Definition carries (st : NoiseStream St) (plain tail : list Z) : Prop :=
  eof st = false /\ live (inner st) /\
  exists s ps, in_step s (noise st) /\ Forall (fun p => p <> []) ps /\
    wire s ps = Some (rx_buf st ++ data (inner st) ++ tail) /\ plain = rx_plain st ++ concat ps.

(** Between two records. *)
Lemma drain_header st st1 r1 plain tail :
  rx_plain st = [] -> carries st plain tail ->
  (if decide (length (rx_buf st) < HEADER_LEN)%nat then fill_until HEADER_LEN st else (st, Ok tt)) = (st1, r1) ->
  carries st1 plain tail /\ rx_plain st1 = [] /\ (quiets (inner st1) <= quiets (inner st))%nat /\
  match r1 with
  | Ok _ => (HEADER_LEN <= length (rx_buf st1))%nat
  | Err e => e = WouldBlock /\ (length (rx_buf st1) < HEADER_LEN)%nat /\
             (data (inner st1) = [] \/ (quiets (inner st1) < quiets (inner st))%nat)
  end.
Proof.
  intros Hp (He & Hl & s & ps & Hstep & Hne & Hw & ->). case_decide as Hh; [|intros [= <- <-]; split_and!; [|done|lia|lia]].
  - intros E. unfold fill_until in E. apply fill_loop_spec in E as (F1 & F2 & F3 & F4 & F5 & _ & F7 & F8); [|done|done|lia].
    split_and!; [|congruence|done|done]. split_and!; [done|done|]. exists s, ps. rewrite F4, F5, app_assoc, F3.
    split_and!; try done. by rewrite <- app_assoc.
  - split_and!; [done|done|]. by exists s, ps.
Qed.

Lemma drain_spec st st' r plain tail :
  rx_plain st = [] -> carries st plain tail -> drain_one_record st = (st', r) ->
  carries st' plain tail /\ (quiets (inner st') <= quiets (inner st))%nat /\
  match r with
  | Ok _ => rx_plain st' <> []
  | Err e => e = WouldBlock /\ rx_plain st' = [] /\
             (tail = [] -> plain <> [] -> (quiets (inner st') < quiets (inner st))%nat)
  end.
Proof.
  intros Hp Hc. unfold drain_one_record. destruct (if decide _ then _ else _) as [st1 r1] eqn:E1.
  apply (drain_header _ _ _ _ _ Hp Hc) in E1 as (Hc1 & Hp1 & Hq1 & Hr1).
  destruct Hc1 as (He1 & Hl1 & s & ps & Hstep & Hne & Hw & Epl).
  destruct r1 as [[]|e].
  2:{ destruct Hr1 as (-> & Hlt & Hstall). intros [= <- <-]. split_and!; [|done|done|done|].
      { split_and!; [done|done|]. by exists s, ps. }
      intros -> Hpl. destruct Hstall as [Hd|Hd]; [|done]. exfalso. rewrite Hd, !app_nil_r in Hw.
      destruct ps as [|p ps]; [by rewrite Epl, Hp1 in Hpl|].
      apply wire_cons in Hw as (? & ? & ? & c & ? & _ & _ & E & _). rewrite E in Hlt. cbn in Hlt. unfold HEADER_LEN in Hlt. lia. }
  destruct ps as [|p ps].
  { cbn in Hw. injection Hw as Hw. symmetry in Hw. apply app_eq_nil in Hw as [Hw _]. rewrite Hw in Hr1. cbn in Hr1. unfold HEADER_LEN in Hr1. lia. }
  pose proof Hw as (s' & l1 & l2 & c & w' & Ewm & Ew' & Ew & Elen & Hcpos)%wire_cons.
  destruct (rx_buf st1) as [|b0 [|b1 [|b2 buf]]] eqn:Eb; try (cbn in Hr1; unfold HEADER_LEN in Hr1; lia).
  cbn [app] in Ew. injection Ew as -> -> -> Ew. change (negb (MSG_TYPE_RECORD =? MSG_TYPE_RECORD)) with false. cbv iota.
  rewrite Elen, Nat2Z.id. destruct (fill_until (HEADER_LEN + length c) st1) as [st2 r2] eqn:E2.
  unfold fill_until in E2. apply fill_loop_spec in E2 as (F1 & F2 & F3 & F4 & F5 & F6 & F7 & F8); [|done|done|lia].
  rewrite Eb in F3. cbn [app] in F3.
  assert (Hbuf : forall b d, b ++ d = MSG_TYPE_RECORD :: l1 :: l2 :: buf ++ data (inner st1) -> b ++ d ++ tail = MSG_TYPE_RECORD :: l1 :: l2 :: c ++ w').
  { intros b x E. rewrite app_assoc, E. cbn. by rewrite <- app_assoc, Ew. }
  specialize (Hbuf _ _ F3). destruct r2 as [[]|e].
  - (* a whole record *)
    destruct (rx_buf st2) as [|x0 [|x1 [|x2 buf2]]] eqn:Eb2; try (cbn in F8; unfold HEADER_LEN in F8; lia).
    cbn [app] in Hbuf. injection Hbuf as -> -> -> Hbuf. cbn in F8. unfold HEADER_LEN in *.
    assert (Etake : drop 3 (take (3 + length c) (MSG_TYPE_RECORD :: l1 :: l2 :: buf2)) = c).
    { cbn. apply (f_equal (take (length c))) in Hbuf. rewrite take_app_length in Hbuf.
      by rewrite take_app_le in Hbuf by (cbn in F8; lia). }
    rewrite Etake. unfold decrypt_record. rewrite F4. destruct (read_law _ _ _ _ _ Hstep Ewm) as (rs & -> & Hstep').
    intros [= <- <-]. apply Forall_cons_1 in Hne as [Hpne Hne]. rewrite F5, Hp1. cbn [app rx_plain inner].
    split_and!; [|lia|done]. split_and!; [done|done|]. exists s', ps. cbn [noise rx_buf rx_plain inner].
    split_and!; try done.
    + rewrite Ew'. f_equal. cbn [drop Nat.add]. apply (f_equal (drop (length c))) in Hbuf. rewrite drop_app_length in Hbuf.
      rewrite drop_app_le in Hbuf by (cbn in F8; lia). congruence.
    + by rewrite Epl, Hp1.
  - destruct F8 as (-> & Hlt & Hstall). intros [= <- <-]. split_and!; [|lia|done|congruence|].
    + split_and!; [done|done|]. exists s, (p :: ps). rewrite F4, F5. split_and!; try done. rewrite Hw. f_equal. cbn [app].
      by rewrite Ew, Hbuf.
    + intros -> _. destruct Hstall as [Hd|Hd]; [|lia]. exfalso. rewrite Hd, !app_nil_r in Hbuf.
      rewrite Hbuf in Hlt. cbn in Hlt. rewrite length_app in Hlt. unfold HEADER_LEN in Hlt. lia.
Qed.

(** One read: bytes in order, or a timeout that loses nothing. *)
Lemma stream_read_spec n st st' r plain tail :
  (0 < n)%nat -> carries st plain tail -> stream_read n st = (st', r) ->
  (quiets (inner st') <= quiets (inner st))%nat /\
  match r with
  | Ok c => c <> [] /\ exists plain', plain = c ++ plain' /\ carries st' plain' tail
  | Err e => e = WouldBlock /\ carries st' plain tail /\
             (tail = [] -> plain <> [] -> (quiets (inner st') < quiets (inner st))%nat)
  end.
Proof.
  intros Hn Hc. unfold stream_read.
  assert (Htake : forall st1, carries st1 plain tail -> rx_plain st1 <> [] -> (quiets (inner st1) <= quiets (inner st))%nat ->
    (mkStream (inner st1) (noise st1) (drop n (rx_plain st1)) (rx_buf st1) (eof st1), Ok (take n (rx_plain st1))) = (st', r) ->
    (quiets (inner st') <= quiets (inner st))%nat /\
    match r with
    | Ok c => c <> [] /\ exists plain', plain = c ++ plain' /\ carries st' plain' tail
    | Err e => e = WouldBlock /\ carries st' plain tail /\
               (tail = [] -> plain <> [] -> (quiets (inner st') < quiets (inner st))%nat)
    end).
  { intros st1 (He & Hl & s & ps & Hstep & Hne & Hw & ->) Hp Hq [= <- <-]. cbn [inner]. split; [done|]. split.
    - destruct (rx_plain st1); [done|]. by destruct n; [lia|].
    - exists (drop n (rx_plain st1) ++ concat ps). split; [by rewrite app_assoc, take_drop|].
      split_and!; [done|done|]. by exists s, ps. }
  destruct (rx_plain st) as [|x l] eqn:Ep.
  - destruct (drain_one_record st) as [st1 r1] eqn:Ed. apply (drain_spec _ _ _ plain tail) in Ed as (Hc1 & Hq & Hr); [|done|done].
    destruct r1 as [[]|e]; [by apply Htake|]. destruct Hr as (-> & _ & Hprog). intros [= <- <-]. auto.
  - apply Htake; [done|by rewrite Ep|done].
Qed.

(** However often it reads, the pump passes on a prefix of the plaintext. *)
Lemma pump_reads_prefix n k : forall st plain tail, (0 < n)%nat -> carries st plain tail -> pump_reads k n st `prefix_of` plain.
Proof.
  induction k as [|k IH]; intros st plain tail Hn Hc; cbn [pump_reads]; [apply prefix_nil|].
  destruct (stream_read n st) as [st' r] eqn:E. apply (stream_read_spec _ _ _ _ plain tail) in E as [_ Hr]; [|done|done].
  destruct r as [c|e].
  - destruct Hr as (Hne & plain' & -> & Hc'). destruct c as [|x c]; [done|]. apply prefix_app. by eapply IH.
  - destruct Hr as (-> & Hc' & _). by eapply IH.
Qed.

(** Once everything has arrived, a read per byte and per pause is enough. *)
Lemma pump_reads_all n k : forall st plain, (0 < n)%nat -> carries st plain [] ->
  (length plain + quiets (inner st) <= k)%nat -> pump_reads k n st = plain.
Proof.
  induction k as [|k IH]; intros st plain Hn Hc Hk.
  { destruct plain; [done|cbn in Hk; lia]. }
  cbn [pump_reads]. destruct (stream_read n st) as [st' r] eqn:E.
  apply (stream_read_spec _ _ _ _ plain []) in E as [Hq Hr]; [|done|done]. destruct r as [c|e].
  - destruct Hr as (Hne & plain' & -> & Hc'). destruct c as [|x c]; [done|]. f_equal. apply IH; [done|done|].
    rewrite length_app in Hk. cbn in Hk. lia.
  - destruct Hr as (-> & Hc' & Hprog). destruct plain as [|x plain].
    + destruct (pump_reads_prefix n k st' [] [] Hn Hc') as [t Ht]. symmetry in Ht. by apply app_eq_nil in Ht as [-> _].
    + specialize (Hprog eq_refl ltac:(done)). apply IH; [done|done|lia].
Qed.

(** ** Writing *)

Lemma chunks_concat n f : forall l, (0 < n)%nat -> (length l <= f)%nat -> concat (chunks_fuel f n l) = l /\ Forall (fun p => p <> []) (chunks_fuel f n l).
Proof.
  induction f as [|f IH]; intros l Hn Hl; [by destruct l; [|cbn in Hl; lia]|]. destruct l as [|x l]; [done|]. cbn [chunks_fuel concat].
  destruct (IH (drop n (x :: l))) as [E1 E2]; [done|rewrite length_drop; cbn in *; lia|]. rewrite E1, take_drop. split; [done|].
  apply Forall_cons_2; [|done]. by destruct n; [lia|].
Qed.

(** What a successful write puts on the wire. *)
Lemma write_chunks_wire : forall ps s s' recs, write_chunks s ps = (s', recs, true) -> wire s ps = Some (concat recs).
Proof.
  induction ps as [|p ps IH]; intros s s' recs; cbn [write_chunks wire]; [by intros [= <- <-]|].
  destruct (write_record s p) as [[s1 rec]|]; [|done]. destruct (write_chunks s1 ps) as [[s2 recs'] d] eqn:E.
  intros [= <- <- ->]. by rewrite (IH _ _ _ E).
Qed.
End Stream.

(** ** Opening the stream *)

Lemma split_str_spec p s a b : split_str p s = Some (a, b) -> s = a ++ p ++ b.
Proof.
  revert a b. induction s as [|x s IH]; intros a b; cbn [split_str].
  - case_decide as E; [|done]. intros [= <- <-]. rewrite take_nil in E. subst p. done.
  - case_decide as E; [intros [= <- <-]; cbn [app]; by rewrite <- E at 1; rewrite take_drop|].
    destruct (split_str p s) as [[a' b']|]; [|done]. cbn. intros [= <- <-]. cbn. f_equal. by apply IH.
Qed.

Lemma split_str_app p s a b t : split_str p s = Some (a, b) -> split_str p (s ++ t) = Some (a, b ++ t).
Proof.
  revert a b. induction s as [|x s IH]; intros a b; cbn [split_str].
  - case_decide as E; [|done]. intros [= <- <-]. rewrite take_nil in E. subst p. destruct t; cbn; by case_decide.
  - case_decide as E.
    + intros [= <- <-]. assert (Hl : (length p <= length (x :: s))%nat).
      { apply (f_equal length) in E. rewrite length_take in E. lia. }
      cbn [app split_str]. change (x :: s ++ t) with ((x :: s) ++ t).
      rewrite take_app_le, decide_True, drop_app_le by done. done.
    + destruct (split_str p s) as [[a' b']|] eqn:Es; [|done]. cbn. intros [= <- <-]. specialize (IH _ _ eq_refl).
      cbn [app split_str]. case_decide as E2; [|by rewrite IH]. exfalso.
      apply split_str_spec in Es. apply E. subst s.
      change (x :: (a' ++ p ++ b') ++ t) with ((x :: a' ++ p ++ b') ++ t) in E2.
      rewrite take_app_le in E2; [done|]. cbn. rewrite !length_app. lia.
Qed.

(** All there is to read is bytes. *)
Definition ready (src : list Readable) : Prop := live src /\ quiets src = 0%nat.

Lemma tcp_read_ready n src : (0 < n)%nat -> ready src -> data src <> [] ->
  exists c src', tcp_read n src = (Ok c, src') /\ c <> [] /\ (length c <= n)%nat /\ data src = c ++ data src' /\ ready src'.
Proof.
  intros Hn [Hl Hq] Hd. pose proof (tcp_read_live n src Hn Hl) as Ht. destruct (tcp_read n src) as [[c|e] src'].
  - destruct Ht as (H1 & H2 & H3 & H4 & H5). exists c, src'. rewrite Hq in H5. done.
  - destruct Ht as (_ & _ & _ & [[-> _]|Hq']); [done|lia].
Qed.

Lemma app_prefix {A} (a b c d : list A) : a ++ b = c ++ d -> (length a <= length c)%nat -> exists t, c = a ++ t /\ b = t ++ d.
Proof.
  intros E Hl. exists (drop (length a) c). assert (Ea : take (length a) c = a).
  { apply (f_equal (take (length a))) in E. rewrite take_app_length, take_app_le in E by done. done. }
  split; [rewrite <- Ea at 1; by rewrite take_drop|].
  apply (f_equal (drop (length a))) in E. rewrite drop_app_length, drop_app_le in E by done. done.
Qed.

(** The end of a head is found as soon as it has arrived, and not before. *)
Lemma head_found head h0 rest buf more : split_str [13; 10; 13; 10] head = Some (h0, []) -> buf ++ more = head ++ rest ->
  find_header_terminator buf = if decide (length head <= length buf)%nat then Some (length head - 4)%nat else None.
Proof.
  intros Hh Hd. pose proof (split_str_spec _ _ _ _ Hh) as Ehead. unfold find_header_terminator. case_decide as Hge.
  - destruct (app_prefix _ _ _ _ (eq_sym Hd) Hge) as (t' & Eb & _). rewrite Eb, (split_str_app _ _ _ _ t' Hh). cbn [fmap option_fmap option_map fst].
    f_equal. rewrite Ehead, !length_app. cbn [length]. lia.
  - destruct (split_str [13; 10; 13; 10] buf) as [[a b]|] eqn:Es; [|done].
    exfalso. destruct (app_prefix _ _ _ _ Hd ltac:(lia)) as (t' & Eb & _).
    pose proof (split_str_app _ _ _ _ t' Es) as E2. rewrite <- Eb, Hh in E2. injection E2 as _ E2.
    symmetry in E2. apply app_eq_nil in E2 as [_ ->]. rewrite Eb, app_nil_r in Hge. lia.
Qed.

Lemma terminated_head_length head h0 : split_str [13; 10; 13; 10] head = Some (h0, []) -> (4 <= length head)%nat.
Proof. intros Hh. rewrite (split_str_spec _ _ _ _ Hh), !length_app. cbn [length]. lia. Qed.

Lemma read_head_loop_spec head h0 rest f : forall buf src,
  split_str [13; 10; 13; 10] head = Some (h0, []) -> Z.of_nat (length head) <= 16 * 1024 ->
  buf ++ data src = head ++ rest -> (length buf < length head)%nat -> (16 * 1024 - length buf < f)%nat -> ready src ->
  exists buf' src', read_head_loop f buf src = (Ok (length head, buf'), src') /\
    buf' ++ data src' = head ++ rest /\ (length head <= length buf')%nat /\ ready src'.
Proof.
  induction f as [|f IH]; intros buf src Hh Hmax Hd Hlt Hf Hr; [lia|]. cbn [read_head_loop].
  rewrite (proj2 (Z.ltb_ge _ _)) by lia. destruct (app_prefix _ _ _ _ Hd ltac:(lia)) as (t & Eh & Et).
  destruct (tcp_read_ready 1024 src) as (c & src' & -> & Hc & _ & Hdata & Hr'); [lia|done| |].
  { rewrite Et. destruct t; [|done]. rewrite app_nil_r in Eh. subst. lia. }
  destruct c as [|x c]; [done|]. set (cc := x :: c) in *. assert (Hd' : (buf ++ cc) ++ data src' = head ++ rest) by (by rewrite <- app_assoc, <- Hdata).
  rewrite (head_found head h0 rest (buf ++ cc) (data src') Hh Hd'). pose proof (terminated_head_length _ _ Hh). case_decide as Hge.
  - exists (buf ++ cc), src'. split_and!; [|done|done|done]. do 2 f_equal. f_equal. lia.
  - apply IH; try done; [lia|]. rewrite length_app in *. unfold cc in *. cbn [length] in *. lia.
Qed.

Lemma response_loop_spec resp rest f : forall out src,
  length resp = SERVER_RESP_LEN -> out ++ data src = resp ++ rest -> (SERVER_RESP_LEN - length out < f)%nat -> ready src ->
  exists left src', response_loop f out src = (Ok (resp, left), src') /\ left ++ data src' = rest /\ ready src'.
Proof.
  induction f as [|f IH]; intros out src Hl Hd Hf Hr; [lia|]. cbn [response_loop]. case_decide as Hge.
  - destruct (app_prefix _ _ _ _ (eq_sym Hd) ltac:(lia)) as (t & -> & ->). exists t, src.
    rewrite take_app_len, drop_app_len by done. done.
  - destruct (app_prefix _ _ _ _ Hd ltac:(lia)) as (t & Eo & Et).
    destruct (tcp_read_ready (Nat.min (SERVER_RESP_LEN - length out) 64) src) as (c & src' & -> & Hc & _ & Hdata & Hr'); [lia|done| |].
    { rewrite Et. destruct t; [|done]. rewrite app_nil_r in Eo. subst. lia. }
    destruct c as [|x c]; [done|]. apply IH; try done; [by rewrite <- app_assoc, <- Hdata|].
    rewrite length_app. cbn [length]. lia.
Qed.

Section Opening.
Context {St Hs : Type} `{NoiseLaws St Hs}.

Lemma stream_read_len n (st st' : NoiseStream St) c : stream_read n st = (st', Ok c) -> (length c <= n)%nat.
Proof.
  unfold stream_read. destruct (match rx_plain st with [] => _ | _ => _ end) as [st1 [[]|]]; intros [= <- <-].
  rewrite length_take. lia.
Qed.

Lemma read_exact_spec f : forall n out (st : NoiseStream St) pre rest,
  length pre = n -> (n <= f)%nat -> carries st (pre ++ rest) [] -> quiets (inner st) = 0%nat ->
  exists st', read_exact_loop f n out st = (st', Ok (out ++ pre)) /\ carries st' rest [] /\ quiets (inner st') = 0%nat.
Proof.
  induction f as [|f IH]; intros n out st pre rest Hl Hf Hc Hq; destruct n as [|n]; try lia.
  1,2: destruct pre; [|done]; exists st; rewrite app_nil_r; done.
  cbn [read_exact_loop]. destruct (stream_read (S n) st) as [st' r] eqn:E. pose proof E as E0.
  apply (stream_read_spec _ _ _ _ (pre ++ rest) []) in E as [Hq' Hr]; [|lia|done]. destruct r as [c|e].
  - destruct Hr as (Hne & plain' & Epl & Hc'). apply stream_read_len in E0.
    destruct (app_prefix _ _ _ _ (eq_sym Epl) ltac:(lia)) as (t & -> & ->). destruct c as [|x c]; [done|].
    destruct (IH (S n - length (x :: c))%nat (out ++ x :: c) st' t rest) as (st2 & E2 & Hc2 & Hq2); [|cbn; lia|done|lia|].
    { rewrite length_app in Hl. lia. }
    exists st2. rewrite E2, <- app_assoc. done.
  - destruct Hr as (-> & _ & Hp). assert ((quiets (inner st') < quiets (inner st))%nat); [|lia].
    apply Hp; [done|]. destruct pre; [cbn in Hl; lia|done].
Qed.

Lemma early_payload_spec (st : NoiseStream St) body rest :
  Z.of_nat (length body) <= 64 * 1024 ->
  carries st (EARLY_PAYLOAD_MAGIC ++ be_bytes 4 (Z.of_nat (length body)) ++ body ++ rest) [] -> quiets (inner st) = 0%nat ->
  exists st', consume_early_payload st = (st', Ok tt) /\ carries st' rest [] /\ quiets (inner st') = 0%nat.
Proof.
  intros Hb Hc Hq. unfold consume_early_payload, read_exact. rewrite !app_assoc in Hc. rewrite <- app_assoc in Hc.
  set (hdr := EARLY_PAYLOAD_MAGIC ++ be_bytes 4 (Z.of_nat (length body))) in *.
  destruct (read_exact_spec 9 9 [] st hdr (body ++ rest)) as (st1 & -> & Hc1 & Hq1); [|lia|done|done|].
  { unfold hdr. rewrite length_app, length_be_bytes. done. }
  cbn [app]. assert (E5 : take 5 hdr = EARLY_PAYLOAD_MAGIC /\ drop 5 hdr = be_bytes 4 (Z.of_nat (length body))).
  { unfold hdr. by rewrite take_app_len, drop_app_len. }
  destruct E5 as [-> ->]. rewrite bool_decide_eq_true_2 by done. cbn [negb].
  rewrite from_be_be_bytes_small by lia. rewrite (proj2 (Z.ltb_ge _ _)) by lia. rewrite Nat2Z.id.
  destruct (read_exact_spec (length body) (length body) [] st1 body rest) as (st2 & -> & Hc2 & Hq2); [done|lia|done|done|].
  by exists st2.
Qed.
End Opening.

(** * Properties *)

(** A sequence of writes: the state after them and all bytes sent. *)
Fixpoint stream_writes {St Hs} `{NoiseOps St Hs} (bufs : list (list Z)) (s : St) : option (St * list Z) :=
  match bufs with
  | [] => Some (s, [])
  | b :: r =>
      match stream_write b s with
      | (s, recs, true) => '(s, out) ← stream_writes r s; Some (s, concat recs ++ out)
      | _ => None
      end
  end.

Section Delivery.
Context {St Hs : Type} `{NoiseLaws St Hs}.

Lemma wire_app : forall ps s s' recs qs, write_chunks s ps = (s', recs, true) ->
  wire s (ps ++ qs) = app (concat recs) <$> wire s' qs.
Proof.
  induction ps as [|p ps IH]; intros s s' recs qs; cbn [write_chunks wire app].
  - intros [= <- <-]. by destruct (wire s qs).
  - destruct (write_record s p) as [[s1 rec]|]; [|done]. destruct (write_chunks s1 ps) as [[s2 recs'] d] eqn:E.
    intros [= <- <- ->]. rewrite (IH _ _ _ _ E). destruct (wire s2 qs); [|done]. cbn. by rewrite app_assoc.
Qed.

Lemma stream_writes_wire : forall bufs s s' out, stream_writes bufs s = Some (s', out) ->
  exists ps, wire s ps = Some out /\ concat ps = concat bufs /\ Forall (fun p => p <> []) ps.
Proof.
  induction bufs as [|b bufs IH]; intros s s' out; cbn [stream_writes]; [intros [= <- <-]; by exists []|].
  unfold stream_write. destruct (write_chunks s _) as [[s1 recs] d] eqn:E. destruct d; [|done].
  destruct (stream_writes bufs s1) as [[s2 out']|] eqn:E2; [|done]. cbn [mbind option_bind]. intros [= <- <-].
  destruct (IH _ _ _ E2) as (qs & Hw & Hc & Hne). exists (chunks NOISE_MAX_RECORD_PAYLOAD b ++ qs).
  rewrite (wire_app _ _ _ _ _ E), Hw. unfold chunks.
  destruct (chunks_concat NOISE_MAX_RECORD_PAYLOAD (length b) b) as [C1 C2]; [pose proof max_payload_val; lia|lia|].
  split_and!; [done|cbn; by rewrite concat_app, C1, Hc|by apply Forall_app].
Qed.
End Delivery.

(** C16: the record layer is a reliable byte stream.  Whatever buffers one end
    writes, however the bytes arrive, in what pieces and with what pauses, and
    whatever part of them was read ahead during the handshake, the other end
    reads a prefix of exactly those bytes, never fails and never reports the end
    of the stream; once all have arrived it has read them all after one read per
    byte and per pause. *)
Theorem noise_stream_delivers {St Hs} `{NoiseLaws St Hs} (s s' r : St) bufs out src leftover n :
  in_step s r -> stream_writes bufs s = Some (s', out) -> live src -> (0 < n)%nat ->
  let st := stream_new src r leftover in
  (leftover ++ data src `prefix_of` out -> forall k, pump_reads k n st `prefix_of` concat bufs) /\
  (leftover ++ data src = out -> forall k, (length (concat bufs) + quiets src <= k)%nat -> pump_reads k n st = concat bufs).
Proof.
  intros Hstep (ps & Hw & Hc & Hne)%stream_writes_wire Hl Hn st.
  assert (Hcarry : forall tail, out = (leftover ++ data src) ++ tail -> carries st (concat bufs) tail).
  { intros tail ->. split_and!; [done|done|]. exists s, ps. split_and!; [done|done| |by rewrite Hc].
    by rewrite app_assoc. }
  split.
  - intros [tail E] k. by eapply pump_reads_prefix, Hcarry.
  - intros E k Hk. apply pump_reads_all; [done| |done]. apply Hcarry. by rewrite app_nil_r.
Qed.

(** C15: the channel opens without losing a byte.  When the server answers with a
    head of at most 16 KiB that says 101, the 51 bytes of the handshake response
    and then records that carry the early payload and the bytes of HTTP/2, in
    pieces of any size, the stream handed to HTTP/2 is opened and yields exactly
    the bytes of HTTP/2: what was read past the head, past the response and past
    the early payload is neither lost nor repeated. *)
Theorem control_stream_opens {St Hs} `{NoiseLaws St Hs} parse_response (h : Hs) (s r : St)
    (head h0 resp body h2 w : list Z) ps src :
  split_str [13; 10; 13; 10] head = Some (h0, []) -> Z.of_nat (length head) <= 16 * 1024 ->
  parse_response head = Some (Some 101) ->
  length resp = SERVER_RESP_LEN -> finalize h resp = Ok r -> in_step s r ->
  wire s ps = Some w -> Forall (fun p => p <> []) ps -> Z.of_nat (length body) <= 64 * 1024 ->
  concat ps = EARLY_PAYLOAD_MAGIC ++ be_bytes 4 (Z.of_nat (length body)) ++ body ++ h2 ->
  live src -> quiets src = 0%nat -> data src = head ++ resp ++ w ->
  exists st, open_stream parse_response h src = Ok st /\
             forall n k, (0 < n)%nat -> (length h2 <= k)%nat -> pump_reads k n st = h2.
Proof.
  intros Hh Hmax Hparse Hresp Hfin Hstep Hw Hne Hb Hps Hlive Hq Hd. unfold open_stream, read_101.
  pose proof (split_str_spec _ _ _ _ Hh) as Ehead.
  destruct (read_head_loop_spec head h0 (resp ++ w) (Z.to_nat (16 * 1024 + 2)) [] src) as (buf & src1 & -> & Hd1 & Hl1 & Hr1);
    [done|done|done| |cbn [length]; lia|done|].
  { rewrite Ehead, !length_app. cbn. lia. }
  destruct (app_prefix _ _ _ _ (eq_sym Hd1) Hl1) as (t & -> & Et).
  rewrite take_app_len, drop_app_len by done. rewrite Hparse. change (negb (101 =? 101)) with false. cbv iota.
  destruct (response_loop_spec resp w (S SERVER_RESP_LEN) t src1) as (left & src2 & E & Hd2 & Hr2); [done|done|lia|done|].
  unfold read_server_response. rewrite E, Hfin.
  destruct (early_payload_spec (stream_new src2 r left) body h2) as (st & -> & Hc & Hq2); [done| |by destruct Hr2|].
  { destruct Hr2 as [Hl2 _]. split_and!; [done|done|]. exists s, ps. cbn [rx_buf inner stream_new noise rx_plain app].
    rewrite app_nil_r, Hd2. done. }
  exists st. split; [done|]. intros n k Hn Hk. apply pump_reads_all; [done|done|lia].
Qed.

(** A record without plaintext reads as the end of the stream, and the pump
    stops: what comes after it is not delivered. *)
Theorem empty_record_ends_stream {St Hs} `{NoiseLaws St Hs} (s s' r : St) c rest src n k :
  in_step s r -> write_message s [] = Some (s', c) ->
  pump_reads k n (stream_new src r (MSG_TYPE_RECORD :: be_bytes 2 16 ++ c ++ rest)) = [].
Proof.
  intros Hstep E. pose proof (write_len _ _ _ _ E) as Hl. cbn [length Nat.add] in Hl.
  destruct (read_law _ _ _ _ _ Hstep E) as (r' & Er & _). destruct k as [|k]; [done|]. cbn [pump_reads].
  change (be_bytes 2 16) with [0; 16]. set (buf := MSG_TYPE_RECORD :: 0 :: 16 :: c ++ rest).
  assert (Hlen : (19 <= length buf)%nat) by (unfold buf; cbn [length]; rewrite length_app; lia).
  assert (Ec : drop HEADER_LEN (take (HEADER_LEN + 16) buf) = c).
  { unfold buf, HEADER_LEN. cbn [Nat.add take drop]. by apply take_app_len. }
  assert (Ef : forall req (st : NoiseStream St), (req <= length (rx_buf st))%nat -> fill_until req st = (st, Ok tt)).
  { intros req st Hreq. unfold fill_until. cbn [fill_loop]. by rewrite decide_True. }
  assert (Ed : drain_one_record (stream_new src r buf) = (mkStream src r' [] (drop (HEADER_LEN + 16) buf) false, Ok tt)).
  { unfold drain_one_record, stream_new. cbn [rx_buf]. rewrite decide_False by (unfold HEADER_LEN; lia).
    unfold buf at 1. cbn beta iota zeta. cbn [rx_buf]. cbv iota beta. change (negb (MSG_TYPE_RECORD =? MSG_TYPE_RECORD)) with false. cbv iota.
    change (Z.to_nat (from_be [0; 16])) with 16%nat. rewrite Ef by (cbn [rx_buf]; unfold HEADER_LEN; lia).
    cbn [rx_buf noise inner rx_plain eof]. rewrite Ec. unfold decrypt_record. by rewrite Er. }
  assert (Es : exists st, stream_read n (stream_new src r buf) = (st, Ok [])).
  { unfold stream_read. change (rx_plain (stream_new src r buf)) with (@nil Z). cbv iota. rewrite Ed.
    eexists. cbn [rx_plain]. by destruct n. }
  destruct Es as [st Es]. change (MSG_TYPE_RECORD :: [0; 16] ++ c ++ rest) with buf. by rewrite Es.
Qed.

(** ** Samples *)

(** A cipher that only checks the order of records. *)
#[global] Instance toy_noise : NoiseOps nat unit := {
  write_message := fun s p => Some (S s, repeat (Z.of_nat s) 16 ++ p);
  read_message := fun r c => if decide (take 16 c = repeat (Z.of_nat r) 16) then Some (S r, drop 16 c) else None;
  hs_write := fun _ => Some (tt, repeat 1 96);
  hs_read := fun _ _ => Some tt;
  into_transport := fun _ => Some 0%nat
}.
#[global] Instance toy_noise_laws : NoiseLaws nat unit.
Proof.
  refine {| in_step := @eq nat |}.
  - intros s p s' c [= <- <-]. cbn. lia.
  - intros s r p s' c -> [= <- <-]. exists (S r). cbn [read_message toy_noise].
    by rewrite decide_True.
Defined.

Lemma noise_stream_delivers_witness :
  exists out, stream_writes [bs "hello "; bs "vita"] 0%nat = Some (2%nat, out) /\
    pump_reads 12 4 (stream_new [Data (take 20 (drop 3 out)); Quiet; Data (drop 23 out)] 0%nat (take 3 out)) = bs "hello vita".
Proof.
  eexists. split; [vm_compute; reflexivity|].
  refine (proj2 (noise_stream_delivers 0%nat 2%nat 0%nat [bs "hello "; bs "vita"] _ _ _ 4 eq_refl _ _ ltac:(lia)) _ 12%nat _).
  - vm_compute. reflexivity.
  - repeat constructor; discriminate.
  - vm_compute. reflexivity.
  - vm_compute. lia.
Defined.

(** A whole answer of the server, in three pieces. *)
Definition toy_head : list Z := bs "HTTP/1.1 101 Switching Protocols" ++ [13; 10; 13; 10].
Definition toy_records : list (list Z) := [EARLY_PAYLOAD_MAGIC ++ [0; 0]; [0; 2] ++ bs "{}" ++ bs "PRI"; bs " * HTTP/2"].
Definition toy_answer : list Z :=
  toy_head ++ ([2; 0; 48] ++ repeat 9 48) ++ default [] (wire 0%nat toy_records).

Lemma control_stream_opens_witness :
  exists st, open_stream (fun _ => Some (Some 101)) tt [Data (take 70 toy_answer); Data (drop 70 toy_answer)] = Ok st /\
             forall n k, (0 < n)%nat -> (12 <= k)%nat -> pump_reads k n st = bs "PRI * HTTP/2".
Proof.
  apply (control_stream_opens (fun _ => Some (Some 101)) tt 0%nat 0%nat toy_head (take 32 toy_head)
    ([2; 0; 48] ++ repeat 9 48) (bs "{}") (bs "PRI * HTTP/2") (default [] (wire 0%nat toy_records)) toy_records);
    try (vm_compute; (reflexivity || lia || discriminate)).
  - repeat constructor; discriminate.
  - repeat constructor; vm_compute; discriminate.
Defined.
