(* ===== verification/NoisePump.v ===== *)
(** The bridge between the blocking Noise stream and the asynchronous HTTP/2
    client (ts-control: async_io.rs): the pump thread and the polls of the
    HTTP/2 task over the shared [IoCore].

    Each thread runs in steps as coarse as its locks and atomic accesses allow;
    a run is any interleaving of them.  What [noise.read] and [noise.write_all]
    answer is part of the event (their meaning is in Noise.v). *)

From S2P Require Import Prelude Noise.
#[local] Open Scope Z_scope.

Definition TX_DRAIN_MAX : nat := Z.to_nat (16 * 1024).

(** Where the pump thread is; [PFail] is [IoCore::fail], step by step. *)
Inductive PumpPc : Type :=
| PTop | PDrain | PWrite (chunk : list Z) | PWakeTx | PRead | PPush (c : list Z) | PWakeRx
| PFailErr (e : NetErr) | PFailClosed | PFailRx | PFailTx | PExit.

(** Where the task is in [poll_read] of [n] bytes, [poll_write], [poll_flush],
    [poll_shutdown]. *)
Inductive TaskPc : Type :=
| TIdle
| TRead (n : nat) | TReadClosed (n : nat) | TReadErr | TReadStore (n : nat) | TReadAgain (n : nat)
| TWrite (b : list Z) | TWriteErr | TWriteAppend (b : list Z)
| TFlush | TFlushErr | TFlushCheck | TFlushStore | TFlushAgain
| TShut | TShutRx | TShutTx.

(** What a poll answered. *)
Inductive Poll : Type :=
| ReadReady (c : list Z) | ReadEof | ReadError (e : NetErr) | ReadPending
| WriteReady (n : nat) | WriteError | FlushReady | FlushError | FlushPending | ShutReady.

(** [rx_woken], [tx_woken]: the waker stored by the last pending poll has been
    called since that poll began.  [got] are the bytes [noise.read] returned,
    [passed] those handed to the task, [asked] those it wrote, [sent] those given
    to [noise.write_all] with success. *)
Record Core : Type := mkCore {
  rx_buf : list Z; tx_buf : list Z; rx_waker : bool; tx_waker : bool; closed : bool; err : option NetErr;
  pump : PumpPc; task : TaskPc; rx_woken : bool; tx_woken : bool;
  read_pending : bool; flush_pending : bool; answer : option Poll;
  got : list Z; passed : list Z; asked : list Z; sent : list Z
}.

Definition core_new : Core :=
  mkCore [] [] false false false None PTop TIdle false false false false None [] [] [] [].

Definition set_pump (p : PumpPc) (c : Core) : Core :=
  mkCore (rx_buf c) (tx_buf c) (rx_waker c) (tx_waker c) (closed c) (err c) p (task c) (rx_woken c) (tx_woken c)
    (read_pending c) (flush_pending c) (answer c) (got c) (passed c) (asked c) (sent c).
Definition set_task (t : TaskPc) (c : Core) : Core :=
  mkCore (rx_buf c) (tx_buf c) (rx_waker c) (tx_waker c) (closed c) (err c) (pump c) t (rx_woken c) (tx_woken c)
    (read_pending c) (flush_pending c) (answer c) (got c) (passed c) (asked c) (sent c).
Definition set_closed (c : Core) : Core :=
  mkCore (rx_buf c) (tx_buf c) (rx_waker c) (tx_waker c) true (err c) (pump c) (task c) (rx_woken c) (tx_woken c)
    (read_pending c) (flush_pending c) (answer c) (got c) (passed c) (asked c) (sent c).
Definition set_err (e : NetErr) (c : Core) : Core :=
  mkCore (rx_buf c) (tx_buf c) (rx_waker c) (tx_waker c) (closed c) (Some (default e (err c))) (pump c) (task c)
    (rx_woken c) (tx_woken c) (read_pending c) (flush_pending c) (answer c) (got c) (passed c) (asked c) (sent c).

(** The task gets its answer and is idle again. *)
Definition reply (a : Poll) (c : Core) : Core :=
  mkCore (rx_buf c) (tx_buf c) (rx_waker c) (tx_waker c) (closed c) (err c) (pump c) TIdle (rx_woken c) (tx_woken c)
    (match a with ReadPending => true | _ => read_pending c end)
    (match a with FlushPending => true | _ => flush_pending c end)
    (Some a) (got c) (passed c) (asked c) (sent c).

Definition wake_rx (c : Core) : Core :=
  mkCore (rx_buf c) (tx_buf c) false (tx_waker c) (closed c) (err c) (pump c) (task c) (rx_woken c || rx_waker c) (tx_woken c)
    (read_pending c) (flush_pending c) (answer c) (got c) (passed c) (asked c) (sent c).
Definition wake_tx (c : Core) : Core :=
  mkCore (rx_buf c) (tx_buf c) (rx_waker c) false (closed c) (err c) (pump c) (task c) (rx_woken c) (tx_woken c || tx_waker c)
    (read_pending c) (flush_pending c) (answer c) (got c) (passed c) (asked c) (sent c).

(** [drain_into_readbuf]. *)
Definition drain_rx (n : nat) (c : Core) : Core :=
  reply (ReadReady (take n (rx_buf c)))
    (mkCore (drop n (rx_buf c)) (tx_buf c) (rx_waker c) (tx_waker c) (closed c) (err c) (pump c) (task c) (rx_woken c) (tx_woken c)
       (read_pending c) (flush_pending c) (answer c) (got c) (passed c ++ take n (rx_buf c)) (asked c) (sent c)).

(** What the Noise stream answers, when the pump is at a read or a write. *)
Inductive Net : Type := NetRead (r : result NetErr (list Z)) | NetWrite (r : result NetErr unit) | NetNone.

Definition pump_step (a : Net) (c : Core) : option Core :=
  match pump c, a with
  | PTop, NetNone => Some (set_pump (if closed c then PExit else PDrain) c)
  | PDrain, NetNone =>
      let take_n := Nat.min (length (tx_buf c)) TX_DRAIN_MAX in
      let chunk := take take_n (tx_buf c) in
      Some (mkCore (rx_buf c) (drop take_n (tx_buf c)) (rx_waker c) (tx_waker c) (closed c) (err c)
              (match chunk with [] => PRead | _ => PWrite chunk end) (task c) (rx_woken c) (tx_woken c)
              (read_pending c) (flush_pending c) (answer c) (got c) (passed c) (asked c) (sent c))
  | PWrite chunk, NetWrite (Ok _) =>
      Some (mkCore (rx_buf c) (tx_buf c) (rx_waker c) (tx_waker c) (closed c) (err c) PWakeTx (task c) (rx_woken c) (tx_woken c)
              (read_pending c) (flush_pending c) (answer c) (got c) (passed c) (asked c) (sent c ++ chunk))
  | PWrite _, NetWrite (Err e) => Some (set_pump (PFailErr e) c)
  | PWakeTx, NetNone => Some (set_pump PRead (wake_tx c))
  | PRead, NetRead (Ok []) => Some (set_pump (PFailErr UnexpectedEof) c)
  | PRead, NetRead (Ok b) =>
      Some (mkCore (rx_buf c) (tx_buf c) (rx_waker c) (tx_waker c) (closed c) (err c) (PPush b) (task c) (rx_woken c) (tx_woken c)
              (read_pending c) (flush_pending c) (answer c) (got c ++ b) (passed c) (asked c) (sent c))
  | PRead, NetRead (Err WouldBlock) => Some (set_pump PTop c)
  | PRead, NetRead (Err e) => Some (set_pump (PFailErr e) c)
  | PPush b, NetNone =>
      Some (mkCore (rx_buf c ++ b) (tx_buf c) (rx_waker c) (tx_waker c) (closed c) (err c) PWakeRx (task c) (rx_woken c) (tx_woken c)
              (read_pending c) (flush_pending c) (answer c) (got c) (passed c) (asked c) (sent c))
  | PWakeRx, NetNone => Some (set_pump PTop (wake_rx c))
  | PFailErr e, NetNone => Some (set_pump PFailClosed (set_err e c))
  | PFailClosed, NetNone => Some (set_pump PFailRx (set_closed c))
  | PFailRx, NetNone => Some (set_pump PFailTx (wake_rx c))
  | PFailTx, NetNone => Some (set_pump PExit (wake_tx c))
  | _, _ => None
  end.

(** A step of the task that is inside a poll. *)
Definition task_step (c : Core) : option Core :=
  match task c with
  | TIdle => None
  | TRead n => Some (match rx_buf c with [] => set_task (TReadClosed n) c | _ => drain_rx n c end)
  | TReadClosed n => Some (set_task (if closed c then TReadErr else TReadStore n) c)
  | TReadErr =>
      Some (reply (match err c with Some OtherIo => ReadError OtherIo | Some WouldBlock => ReadError WouldBlock | _ => ReadEof end) c)
  | TReadStore n =>
      Some (mkCore (rx_buf c) (tx_buf c) true (tx_waker c) (closed c) (err c) (pump c) (TReadAgain n) (rx_woken c) (tx_woken c)
              (read_pending c) (flush_pending c) (answer c) (got c) (passed c) (asked c) (sent c))
  | TReadAgain n => Some (match rx_buf c with [] => reply ReadPending c | _ => drain_rx n c end)
  | TWrite b => Some (set_task (if closed c then TWriteErr else TWriteAppend b) c)
  | TWriteErr => Some (reply WriteError c)
  | TWriteAppend b =>
      Some (reply (WriteReady (length b))
        (mkCore (rx_buf c) (tx_buf c ++ b) (rx_waker c) (tx_waker c) (closed c) (err c) (pump c) (task c) (rx_woken c) (tx_woken c)
           (read_pending c) (flush_pending c) (answer c) (got c) (passed c) (asked c ++ b) (sent c)))
  | TFlush => Some (set_task (if closed c then TFlushErr else TFlushCheck) c)
  | TFlushErr => Some (reply FlushError c)
  | TFlushCheck => Some (match tx_buf c with [] => reply FlushReady c | _ => set_task TFlushStore c end)
  | TFlushStore =>
      Some (mkCore (rx_buf c) (tx_buf c) (rx_waker c) true (closed c) (err c) (pump c) TFlushAgain (rx_woken c) (tx_woken c)
              (read_pending c) (flush_pending c) (answer c) (got c) (passed c) (asked c) (sent c))
  | TFlushAgain => Some (match tx_buf c with [] => reply FlushReady c | _ => reply FlushPending c end)
  | TShut => Some (set_task TShutRx (set_closed c))
  | TShutRx => Some (set_task TShutTx (wake_rx c))
  | TShutTx => Some (reply ShutReady (wake_tx c))
  end.

(** The task begins a poll; a new poll of a kind replaces a pending one. *)
Inductive Call : Type := PollRead (n : nat) | PollWrite (b : list Z) | PollFlush | PollShutdown.

Definition begin_poll (k : Call) (c : Core) : option Core :=
  match task c, k with
  | TIdle, PollRead n =>
      Some (mkCore (rx_buf c) (tx_buf c) (rx_waker c) (tx_waker c) (closed c) (err c) (pump c) (TRead n) false (tx_woken c)
              false (flush_pending c) (answer c) (got c) (passed c) (asked c) (sent c))
  | TIdle, PollWrite b => Some (set_task (TWrite b) c)
  | TIdle, PollFlush =>
      Some (mkCore (rx_buf c) (tx_buf c) (rx_waker c) (tx_waker c) (closed c) (err c) (pump c) TFlush (rx_woken c) false
              (read_pending c) false (answer c) (got c) (passed c) (asked c) (sent c))
  | TIdle, PollShutdown => Some (set_task TShut c)
  | _, _ => None
  end.

Inductive Event : Type := Pump (a : Net) | Task | Begin (k : Call).

Definition step (c : Core) (e : Event) : option Core :=
  match e with Pump a => pump_step a c | Task => task_step c | Begin k => begin_poll k c end.

Fixpoint run (c : Core) (es : list Event) : option Core :=
  match es with [] => Some c | e :: r => c ← step c e; run c r end.

(** * Invariant *)

Definition pushing (p : PumpPc) : list Z := match p with PPush b => b | _ => [] end.
Definition writing (p : PumpPc) : list Z := match p with PWrite b => b | _ => [] end.
Definition failing (p : PumpPc) : Prop :=
  match p with PFailErr _ | PFailClosed | PFailRx | PFailTx | PExit => True | _ => False end.

(** The pump will call the waker of a pending flush. *)
Definition will_wake_tx (p : PumpPc) : Prop :=
  match p with PWrite _ | PWakeTx | PFailErr _ | PFailClosed | PFailRx | PFailTx => True | _ => False end.

(** The poll was refused because the stream is closed. *)
Definition refused (a : option Poll) : Prop :=
  match a with Some ReadEof | Some (ReadError _) | Some WriteError | Some FlushError => True | _ => False end.

Record inv (c : Core) : Prop := mkInv {
  inv_rx : got c = passed c ++ rx_buf c ++ pushing (pump c);
  inv_tx : sent c ++ writing (pump c) `prefix_of` asked c;
  inv_tx_all : failing (pump c) \/ asked c = sent c ++ writing (pump c) ++ tx_buf c;
  inv_read : read_pending c = true -> rx_woken c = false -> rx_waker c = true /\ (rx_buf c = [] \/ pump c = PWakeRx);
  inv_again : forall n, task c = TReadAgain n -> rx_waker c = true \/ rx_woken c = true;
  inv_flush : flush_pending c = true -> tx_woken c = false ->
              tx_waker c = true /\ (tx_buf c <> [] \/ will_wake_tx (pump c));
  inv_flush_again : task c = TFlushAgain -> tx_waker c = true \/ tx_woken c = true;
  inv_task : match task c with TReadErr | TWriteErr | TFlushErr | TShutRx | TShutTx => closed c = true | _ => True end;
  inv_answer : refused (answer c) -> closed c = true
}.

Lemma pump_inv_new : inv core_new.
Proof. constructor; try done. by right. Qed.

Lemma take_min_drop (l : list Z) n : take (Nat.min (length l) n) l ++ drop (Nat.min (length l) n) l = l.
Proof. apply take_drop. Qed.

Ltac pump_fields :=
  cbn [rx_buf tx_buf rx_waker tx_waker closed err pump task rx_woken tx_woken read_pending flush_pending answer
       got passed asked sent set_pump set_task set_closed set_err wake_rx wake_tx reply drain_rx].

(** The pump moves on without touching the buffers. *)
Lemma pump_inv_move q c :
  inv c -> pushing (pump c) = pushing q -> writing q `prefix_of` writing (pump c) ->
  failing q \/ (writing (pump c) = writing q /\ ~ failing (pump c)) -> pump c <> PWakeRx ->
  (will_wake_tx (pump c) -> will_wake_tx q) -> inv (set_pump q c).
Proof.
  intros [I1 I2 I3 I4 I5 I6 I7 I8 I9] Hp Hw Hf Hr Ht. constructor; pump_fields; try assumption.
  - by rewrite <- Hp.
  - etrans; [|exact I2]. by apply prefix_app.
  - destruct Hf as [Hf|[<- Hf]]; [by left|]. destruct I3; [done|]. by right.
  - intros A B. destruct (I4 A B) as [C [D|D]]; auto. done.
  - intros A B. destruct (I6 A B) as [C [D|D]]; auto.
Qed.

(** Calling a waker loses nothing. *)
Lemma inv_wake_rx q c :
  inv c -> pushing (pump c) = pushing q -> writing q = writing (pump c) -> (failing (pump c) -> failing q) ->
  (will_wake_tx (pump c) -> will_wake_tx q) -> inv (set_pump q (wake_rx c)).
Proof.
  intros [I1 I2 I3 I4 I5 I6 I7 I8 I9] Hp Hw Hf Ht. constructor; pump_fields; try assumption.
  - by rewrite <- Hp.
  - by rewrite Hw.
  - rewrite Hw. tauto.
  - intros A B. apply orb_false_iff in B as [B1 B2]. destruct (I4 A B1) as [C _]. congruence.
  - intros n A. right. destruct (I5 n A) as [-> | ->]; [apply orb_true_r|done].
  - intros A B. destruct (I6 A B) as [C [D|D]]; auto.
Qed.

Lemma inv_wake_tx q c :
  inv c -> pushing (pump c) = pushing q -> writing q = writing (pump c) -> (failing (pump c) -> failing q) ->
  pump c <> PWakeRx -> inv (set_pump q (wake_tx c)).
Proof.
  intros [I1 I2 I3 I4 I5 I6 I7 I8 I9] Hp Hw Hf Hr. constructor; pump_fields; try assumption.
  - by rewrite <- Hp.
  - by rewrite Hw.
  - rewrite Hw. tauto.
  - intros A B. destruct (I4 A B) as [C [D|D]]; auto. done.
  - intros A B. apply orb_false_iff in B as [B1 B2]. destruct (I6 A B1) as [C _]. congruence.
  - intros A. right. destruct (I7 A) as [-> | ->]; [apply orb_true_r|done].
Qed.

Lemma pump_inv_close c : inv c -> inv (set_closed c).
Proof. intros [I1 I2 I3 I4 I5 I6 I7 I8 I9]. constructor; pump_fields; try assumption; [|done]. by destruct (task c). Qed.

Lemma inv_set_err e c : inv c -> inv (set_err e c).
Proof. intros [I1 I2 I3 I4 I5 I6 I7 I8 I9]. by constructor. Qed.

Lemma inv_drain c :
  inv c -> pump c = PDrain ->
  inv (mkCore (rx_buf c) (drop (Nat.min (length (tx_buf c)) TX_DRAIN_MAX) (tx_buf c)) (rx_waker c) (tx_waker c) (closed c) (err c)
         (match take (Nat.min (length (tx_buf c)) TX_DRAIN_MAX) (tx_buf c) with
          | [] => PRead | _ => PWrite (take (Nat.min (length (tx_buf c)) TX_DRAIN_MAX) (tx_buf c)) end)
         (task c) (rx_woken c) (tx_woken c) (read_pending c) (flush_pending c) (answer c) (got c) (passed c) (asked c) (sent c)).
Proof.
  intros [I1 I2 I3 I4 I5 I6 I7 I8 I9] Ep. rewrite Ep in *. set (n := Nat.min _ _) in *.
  pose proof (take_drop n (tx_buf c)) as Etd. destruct I3 as [[]|I3]. cbn [pushing writing app] in *.
  destruct (take n (tx_buf c)) as [|x l] eqn:Et; constructor; pump_fields; cbn [pushing writing]; try assumption.
  - right. rewrite I3. f_equal. symmetry. exact Etd.
  - intros A B. destruct (I4 A B) as [C [D|D]]; auto. done.
  - intros A B. destruct (I6 A B) as [C [D|[]]]. split; [done|]. left. intros Hd. apply D. rewrite <- Etd. exact Hd.
  - rewrite I3. exists (drop n (tx_buf c)). rewrite <- app_assoc. f_equal. symmetry. exact Etd.
  - right. rewrite I3. f_equal. symmetry. exact Etd.
  - intros A B. destruct (I4 A B) as [C [D|D]]; auto. done.
  - intros A B. destruct (I6 A B) as [C _]. split; [done|]. by right.
Qed.

Lemma pump_step_inv a c c' : inv c -> pump_step a c = Some c' -> inv c'.
Proof.
  intros I. unfold pump_step.
  destruct (pump c) as [| |chunk| | |b| |e| | | |] eqn:Ep, a as [[r|k]|[[]|k]|]; try discriminate.
  - destruct (closed c); intros [= <-]; apply pump_inv_move; rewrite ?Ep; cbn; auto; done.
  - intros [= <-]. by apply inv_drain.
  - intros [= <-]. destruct I as [I1 I2 I3 I4 I5 I6 I7 I8 I9]. rewrite Ep in *. destruct I3 as [[]|I3].
    constructor; pump_fields; cbn [pushing writing app] in *; try assumption.
    all: try (by rewrite app_nil_r). all: try (right; by rewrite I3, app_assoc).
    all: intros A B; first [destruct (I4 A B) as [C [D|D]]; first [by auto|discriminate D] | destruct (I6 A B) as [C _]; by auto].
  - intros [= <-]. apply pump_inv_move; rewrite ?Ep; cbn; auto; first [apply prefix_nil|done].
  - intros [= <-]. apply inv_wake_tx; rewrite ?Ep; cbn; auto; done.
  - destruct r as [|x r]; intros [= <-]; [apply pump_inv_move; rewrite ?Ep; cbn; auto; done|].
    destruct I as [I1 I2 I3 I4 I5 I6 I7 I8 I9]. rewrite Ep in *. destruct I3 as [[]|I3].
    constructor; pump_fields; cbn [pushing writing app] in *; try assumption.
    all: try (rewrite I1, app_nil_r; by rewrite <- app_assoc). all: try (by right).
    all: intros A B; destruct (I4 A B) as [C [D|D]]; first [by auto|discriminate D].
  - destruct k; intros [= <-]; apply pump_inv_move; rewrite ?Ep; cbn; auto; done.
  - intros [= <-]. destruct I as [I1 I2 I3 I4 I5 I6 I7 I8 I9]. rewrite Ep in *. destruct I3 as [[]|I3].
    constructor; pump_fields; cbn [pushing writing app] in *; try assumption.
    all: try (by rewrite app_nil_r). all: try (by right).
    all: intros A B; destruct (I4 A B) as [C _]; auto.
  - intros [= <-]. apply inv_wake_rx; rewrite ?Ep; cbn; auto.
  - intros [= <-]. apply (pump_inv_move PFailClosed (set_err e c)); cbn; rewrite ?Ep; cbn; auto; first [by apply inv_set_err|done].
  - intros [= <-]. apply (pump_inv_move PFailRx (set_closed c)); cbn; rewrite ?Ep; cbn; auto; first [by apply pump_inv_close|done].
  - intros [= <-]. apply inv_wake_rx; rewrite ?Ep; cbn; auto.
  - intros [= <-]. apply inv_wake_tx; rewrite ?Ep; cbn; auto; done.
Qed.

(** The task moves on, or gets an answer that does not wait. *)
Lemma inv_task_move t c :
  inv c -> (forall n, t <> TReadAgain n) -> t <> TFlushAgain ->
  match t with TReadErr | TWriteErr | TFlushErr | TShutRx | TShutTx => closed c = true | _ => True end ->
  inv (set_task t c).
Proof. intros [I1 I2 I3 I4 I5 I6 I7 I8 I9] H1 H2 H3. constructor; pump_fields; try assumption; [intros n ->; by destruct (H1 n)|done]. Qed.

Lemma inv_reply a c :
  inv c -> (refused (Some a) -> closed c = true) ->
  (a = ReadPending -> rx_woken c = false -> rx_waker c = true /\ (rx_buf c = [] \/ pump c = PWakeRx)) ->
  (a = FlushPending -> tx_woken c = false -> tx_waker c = true /\ (tx_buf c <> [] \/ will_wake_tx (pump c))) ->
  inv (reply a c).
Proof.
  intros [I1 I2 I3 I4 I5 I6 I7 I8 I9] H1 H2 H3. constructor; pump_fields; try assumption; try done.
  - destruct a; auto.
  - destruct a; auto.
Qed.

Lemma inv_drain_rx n c : inv c -> inv (drain_rx n c).
Proof.
  intros I. unfold drain_rx. apply inv_reply; [|done..]. destruct I as [I1 I2 I3 I4 I5 I6 I7 I8 I9].
  constructor; pump_fields; try assumption.
  - rewrite I1, <- !app_assoc. f_equal. by rewrite (app_assoc (take n _)), take_drop.
  - intros A B. destruct (I4 A B) as [C [D|D]]; split; auto. left. by rewrite D, drop_nil.
Qed.

Lemma task_step_inv c c' : inv c -> task_step c = Some c' -> inv c'.
Proof.
  intros I. unfold task_step. destruct (task c) as [|n|n| |n|n|b| |b| | | | | | | |] eqn:Et; intros [= <-].
  - destruct (rx_buf c); [by apply inv_task_move|by apply inv_drain_rx].
  - destruct (closed c) eqn:Ec; by apply inv_task_move.
  - apply inv_reply; [done|..|by destruct (err c) as [[]|]|by destruct (err c) as [[]|]].
    intros _. pose proof (inv_task c I) as Ht. by rewrite Et in Ht.
  - destruct I as [I1 I2 I3 I4 I5 I6 I7 I8 I9]. constructor; pump_fields; try assumption; try done; [|by left].
    intros A B. destruct (I4 A B); auto.
  - destruct (rx_buf c) eqn:Er; [|by apply inv_drain_rx]. apply inv_reply; [done|done| |done].
    intros _ Hw. destruct (inv_again c I n Et); [by auto|congruence].
  - destruct (closed c) eqn:Ec; by apply inv_task_move.
  - apply inv_reply; try done. intros _. pose proof (inv_task c I) as Ht. by rewrite Et in Ht.
  - apply inv_reply; try done. destruct I as [I1 I2 I3 I4 I5 I6 I7 I8 I9]. constructor; pump_fields; try assumption; try done.
    + etrans; [exact I2|]. by eexists.
    + destruct I3 as [I3|I3]; [by left|]. right. rewrite I3, <- !app_assoc. done.
    + intros A B. destruct (I6 A B) as [C [D|D]]; split; auto. left. intros E. by apply app_eq_nil in E as [E _].
  - destruct (closed c) eqn:Ec; by apply inv_task_move.
  - apply inv_reply; try done. intros _. pose proof (inv_task c I) as Ht. by rewrite Et in Ht.
  - destruct (tx_buf c) eqn:Ex; [by apply inv_reply|by apply inv_task_move].
  - destruct I as [I1 I2 I3 I4 I5 I6 I7 I8 I9]. constructor; pump_fields; try assumption; try done; [|by left].
    intros A B. destruct (I6 A B); auto.
  - destruct (tx_buf c) eqn:Ex; [by apply inv_reply|]. apply inv_reply; [done|done|done|].
    intros _ Hw. destruct (inv_flush_again c I Et); [|congruence]. split; [done|left]. by rewrite Ex.
  - apply inv_task_move; [by apply pump_inv_close|done..].
  - pose proof (inv_task c I) as Ht. rewrite Et in Ht. apply inv_task_move; [|done..].
    apply (inv_wake_rx (pump c) c); auto.
  - pose proof (inv_task c I) as Ht. rewrite Et in Ht. apply inv_reply; [|done..].
    destruct I as [I1 I2 I3 I4 I5 I6 I7 I8 I9]. constructor; pump_fields; try assumption; try done.
    + intros A B. apply orb_false_iff in B as [B1 B2]. destruct (I6 A B1) as [C _]. congruence.
    + by rewrite Et.
Qed.

Lemma begin_poll_inv k c c' : inv c -> begin_poll k c = Some c' -> inv c'.
Proof.
  intros I. unfold begin_poll. destruct (task c) eqn:Et, k; try discriminate; intros [= <-]; try by apply inv_task_move.
  all: destruct I as [I1 I2 I3 I4 I5 I6 I7 I8 I9]; by constructor; pump_fields.
Qed.

Lemma pump_run_inv es : forall c c', inv c -> run c es = Some c' -> inv c'.
Proof.
  induction es as [|e es IH]; intros c c' I; cbn [run]; [by intros [= <-]|].
  destruct (step c e) as [c1|] eqn:E; [|done]. cbn [mbind option_bind]. apply IH.
  destruct e; [by eapply pump_step_inv|by eapply task_step_inv|by eapply begin_poll_inv].
Qed.

(** * Properties *)

(** the bridge passes bytes in order and loses no wake-up while the stream is
    open.  In any interleaving, what the task has read, what waits for it and
    what the pump is about to add are together the bytes the Noise stream
    returned; the bytes written to the Noise stream are a prefix of those the
    task wrote, and the rest waits as long as the pump runs; a poll that waits
    for bytes has its waker stored and there are none, or is being or has been
    woken; a flush that waits has its waker stored and bytes to wait for, or the
    pump is on its way to wake it; and polls are refused only once the stream is
    closed. *)
Theorem noise_pump_in_order es c :
  run core_new es = Some c ->
  got c = passed c ++ rx_buf c ++ pushing (pump c) /\
  sent c ++ writing (pump c) `prefix_of` asked c /\
  (failing (pump c) \/ asked c = sent c ++ writing (pump c) ++ tx_buf c) /\
  (read_pending c = true -> rx_woken c = false -> rx_waker c = true /\ (rx_buf c = [] \/ pump c = PWakeRx)) /\
  (flush_pending c = true -> tx_woken c = false ->
     tx_waker c = true /\ (tx_buf c <> [] \/ will_wake_tx (pump c))) /\
  (refused (answer c) -> closed c = true).
Proof. intros [I1 I2 I3 I4 _ I6 _ _ I9]%pump_run_inv; [auto 7|apply pump_inv_new]. Qed.

(** A poll that has read the flag before the pump closes the stream and stores
    its waker after the pump has called it. *)
Definition close_between : list Event :=
  [Begin (PollRead 8); Task; Task; Pump NetNone; Pump NetNone; Pump (NetRead (Ok []));
   Pump NetNone; Pump NetNone; Pump NetNone; Pump NetNone; Task; Task].
(** The pump adds bytes and closes between the first look at the buffer and the
    look at the flag. *)
Definition data_then_close : list Event :=
  [Begin (PollRead 8); Task; Pump NetNone; Pump NetNone; Pump (NetRead (Ok (bs "GOAWAY"))); Pump NetNone; Pump NetNone;
   Pump NetNone; Pump NetNone; Pump (NetRead (Ok [])); Pump NetNone; Pump NetNone; Pump NetNone; Pump NetNone; Task; Task].
(** The pump has taken the bytes and not yet written them. *)
Definition flush_early : list Event :=
  [Begin (PollWrite (bs "x")); Task; Task; Pump NetNone; Pump NetNone; Begin PollFlush; Task; Task].

(** closing races with polling.  A read may wait with its waker stored although
    the stream is closed and the pump has gone, so nobody is left to wake it; a
    read may report the end of the stream while bytes that arrived before it wait
    unread; and a flush may report success while the bytes are still to be
    written. *)
Theorem close_races :
  (exists c, run core_new close_between = Some c /\ answer c = Some ReadPending /\ read_pending c = true /\
     rx_woken c = false /\ closed c = true /\ pump c = PExit /\ forall a, pump_step a c = None) /\
  (exists c, run core_new data_then_close = Some c /\ answer c = Some ReadEof /\ rx_buf c = bs "GOAWAY") /\
  (exists c, run core_new flush_early = Some c /\ answer c = Some FlushReady /\ asked c = bs "x" /\ sent c = []).
Proof.
  split_and!; eexists; (split; [vm_compute; reflexivity|]); split_and!; reflexivity.
Qed.

Lemma noise_pump_in_order_witness :
  exists c, run core_new data_then_close = Some c /\ got c = passed c ++ rx_buf c ++ pushing (pump c) /\
            (refused (answer c) -> closed c = true).
Proof.
  destruct (run core_new data_then_close) as [c|] eqn:E; [|vm_compute in E; discriminate].
  exists c. split; [reflexivity|]. destruct (noise_pump_in_order data_then_close c E) as (H1 & _ & _ & _ & _ & H6). auto.
Defined.
