(* ===== verification/MapStream.v ===== *)
(** The map long-poll (ts-control: map.rs): the frame reader over the response
    body, the watchdog, the request that is sent and the session state kept on
    disk.

    JSON, zstd and gzip decoding are parameters, as are the answers of the HTTP/2
    connection and the clock; the gzip worker thread is the queue of what it has
    produced. *)

From S2P Require Import Prelude NetTypes Text WgPolicy Netmap VitaFs Keys.
#[local] Open Scope Z_scope.

(** ** The request *)

Definition MAP_VERSION : Z := 130.
Definition REQUESTED_COMPRESS : list Z := bs "zstd".
Definition IPN_VERSION : list Z := bs "tailscale-vita/0.1.0".
Definition APP_NAME : list Z := bs "tailscale-vita/0.1.0".
Definition PEERAPI4_PROTO : list Z := bs "peerapi4".

Record ServiceWire : Type := mkService { sv_proto : list Z; sv_port : Z; sv_description : list Z }.

Record NetInfoWire : Type := mkNetInfo {
  ni_preferred_derp : Z; link_type : list Z; working_udp : option bool; working_ipv6 : option bool; have_port_map : bool
}.

Record MapHostinfoWire : Type := mkHostinfo {
  ipn_version : option (list Z); hi_app : option (list Z); hi_backend_log_id : option (list Z); hi_hostname : list Z;
  os : option (list Z); os_version : option (list Z); net_info : option NetInfoWire; services : option (list ServiceWire)
}.

Record MapRequestWire : Type := mkMapRequest {
  version : Z; compress : list Z; keep_alive : bool; rq_node_key : list Z; rq_disco_key : list Z; stream : bool;
  hostinfo : MapHostinfoWire; omit_peers : bool; read_only : bool;
  rq_endpoints : list (list Z); rq_endpoint_types : list Z; map_session_handle : list Z; map_session_seq : Z
}.

Definition service_wire (port : Z) : ServiceWire := mkService PEERAPI4_PROTO port (bs "peerapi").

Definition build_map_request (node_pub disco_pub hostname backend_log_id : list Z) (last_seq : Z) (session_handle : list Z)
    (endpoints : list (list Z)) (endpoint_types : list Z) (peerapi_port : option Z) : MapRequestWire :=
  mkMapRequest MAP_VERSION REQUESTED_COMPRESS true (to_nodekey_string node_pub) (to_discokey_string disco_pub) true
    (mkHostinfo (Some IPN_VERSION) (Some APP_NAME) (Some backend_log_id) hostname None None None
       ((fun port => [service_wire port]) <$> peerapi_port))
    false false endpoints endpoint_types session_handle last_seq.

(** The endpoints of [send_netinfo_update]: reflected addresses are added with
    type 2 unless they are there. *)
Definition merge_endpoints (local : list (list Z)) (types : list Z) (extra : list (list Z)) : list (list Z) * list Z :=
  foldl (fun '(eps, tys) ep => if decide (ep ∈ eps) then (eps, tys) else (eps ++ [ep], tys ++ [2])) (local, types) extra.

(** The body of the lite request of [send_netinfo_update], with [F] for the
    latencies' floats; [nq_endpoints] has both parallel lists. *)
Record NetinfoRequest (F : Type) : Type := mkNetinfoRequest {
  nq_version : Z; nq_node_key : list Z; nq_disco_key : list Z; nq_hostname : list Z;
  nq_preferred_derp : Z; nq_derp_latency : gmap (list Z) F; nq_services : option (list ServiceWire);
  nq_endpoints : option (list (list Z) * list Z); nq_omit_peers : bool
}.
Arguments mkNetinfoRequest {F}.
Arguments nq_version {F}.
Arguments nq_node_key {F}.
Arguments nq_disco_key {F}.
Arguments nq_hostname {F}.
Arguments nq_preferred_derp {F}.
Arguments nq_derp_latency {F}.
Arguments nq_services {F}.
Arguments nq_endpoints {F}.
Arguments nq_omit_peers {F}.

(** ** Frames *)

Inductive Compression : Type := Plain | Gzip | Zstd.
#[global] Instance compression_eq_dec : EqDecision Compression.
Proof. solve_decision. Defined.

Definition pick_compression (headers : list (list Z * list Z)) (requested : list Z) : Compression :=
  if existsb (fun '(k, v) => eq_ignore_ascii_case k (bs "content-encoding") && bool_decide (is_Some (split_str (bs "gzip") v))) headers
  then Gzip
  else if decide (requested = bs "zstd") then Zstd else Plain.

Definition MAX_FRAME_SIZE : nat := Z.to_nat (4 * 1024 * 1024).

(** A step of the gzip thread: its decoder reads up to [n] bytes through the
    [ChannelReader], returns some text, fails, or finds the end. *)
Inductive GzStep : Type := GzRead (n : nat) | GzOut (out : list Z) | GzErr | GzEnd.

(** What [next_chunk_timeout] answers, and what else happens while a call is
    under way: the gzip thread takes a step, the deadline passes. *)
Inductive Wake : Type :=
| Chunk (c : list Z) | ChunkEof | ChunkTimeout | ChunkErr
| Gz (s : GzStep)
| Late.

(** The gzip thread: whether its sender is there, the chunks on its channel, the
    rest of the chunk it reads, all that its decoder has read and returned so
    far, its output not yet drained, with [None] for an error, and whether it has
    returned. *)
Record GzipWorker : Type := mkWorker {
  sender : bool; channel : list (list Z); leftover : list Z; taken : list Z; handed : list Z;
  decompressed : list (option (list Z)); ended : bool
}.
Definition gz_new : GzipWorker := mkWorker true [] [] [] [] [] false.

(** [GzipWorker::feed] *)
Definition gz_feed (c : list Z) (g : GzipWorker) : GzipWorker * result ControlError unit :=
  if negb (sender g) || ended g then (g, Err MapDecode)
  else (mkWorker (sender g) (channel g ++ [c]) (leftover g) (taken g) (handed g) (decompressed g) (ended g), Ok tt).

(** [GzipWorker::close_input] *)
Definition close_input (g : GzipWorker) : GzipWorker :=
  mkWorker false (channel g) (leftover g) (taken g) (handed g) (decompressed g) (ended g).

(** [ChannelReader::read]; on an empty channel it waits, or returns nothing once
    the sender is gone. *)
Fixpoint refill (buf : list Z) (ch : list (list Z)) : list Z * list (list Z) :=
  match buf, ch with
  | [], c :: ch => refill c ch
  | _, _ => (buf, ch)
  end.
Definition channel_read (n : nat) (g : GzipWorker) : GzipWorker :=
  let '(buf, ch) := refill (leftover g) (channel g) in
  mkWorker (sender g) ch (drop n buf) (taken g ++ take n buf) (handed g) (decompressed g) (ended g).

(** [run_gzip_worker] *)
Definition run_gzip_worker (s : GzStep) (g : GzipWorker) : GzipWorker :=
  if ended g then g
  else match s with
       | GzRead n => channel_read n g
       | GzOut out => mkWorker (sender g) (channel g) (leftover g) (taken g) (handed g ++ out) (decompressed g ++ [Some out]) false
       | GzErr => mkWorker (sender g) (channel g) (leftover g) (taken g) (handed g) (decompressed g ++ [None]) true
       | GzEnd => mkWorker (sender g) (channel g) (leftover g) (taken g) (handed g) (decompressed g) true
       end.

Record Framer : Type := mkFramer {
  compression : Compression; worker : option GzipWorker; plain_buf : list Z; gzip_buf : list Z
}.

Definition framer_new (c : Compression) : Framer :=
  mkFramer c (if decide (c = Gzip) then Some gz_new else None) [] [].

Inductive FrameOutcome (R : Type) : Type := Frame (r : R) | Eof | Timeout.
Arguments Frame {R} r.
Arguments Eof {R}.
Arguments Timeout {R}.

Section Framer.
Context {R : Type}.
(** [serde_json::from_slice] into a response; one zstd frame. *)
Context (json : list Z -> option R) (unzstd : list Z -> option (list Z)).

(** [GzipWorker::drain_into]. *)
Fixpoint drain_into (q : list (option (list Z))) (out : list Z) : list (option (list Z)) * list Z * bool :=
  match q with
  | [] => ([], out, true)
  | Some c :: q => drain_into q (out ++ c)
  | None :: q => (q, out, false)
  end.

Definition drain_decompressor (f : Framer) : Framer * result ControlError unit :=
  match worker f with
  | None => (f, Ok tt)
  | Some g =>
      let '(q, out, fine) := drain_into (decompressed g) (gzip_buf f) in
      (mkFramer (compression f) (Some (mkWorker (sender g) (channel g) (leftover g) (taken g) (handed g) q (ended g))) (plain_buf f) out, if fine : bool then Ok tt else Err MapDecode)
  end.

(** Compressed bytes go to the gzip thread. *)
Definition feed (c : list Z) (f : Framer) : Framer * result ControlError unit :=
  match worker f with
  | Some g => let '(g, r) := gz_feed c g in (mkFramer (compression f) (Some g) (plain_buf f) (gzip_buf f), r)
  | None => (mkFramer (compression f) None (plain_buf f ++ c) (gzip_buf f), Ok tt)
  end.

Definition work (h : GzipWorker -> GzipWorker) (f : Framer) : Framer :=
  mkFramer (compression f) (h <$> worker f) (plain_buf f) (gzip_buf f).

Definition buffer (f : Framer) : list Z := match worker f with Some _ => gzip_buf f | None => plain_buf f end.
Definition set_buffer (b : list Z) (f : Framer) : Framer :=
  match worker f with
  | Some g => mkFramer (compression f) (Some g) (plain_buf f) b
  | None => mkFramer (compression f) None b (gzip_buf f)
  end.

Definition decode_body (c : Compression) (body : list Z) : option R :=
  match c with Zstd => unzstd body ≫= json | Plain | Gzip => json body end.

Definition try_extract (f : Framer) : Framer * result ControlError (option R) :=
  match buffer f with
  | b0 :: b1 :: b2 :: b3 :: rest =>
      let len := Z.to_nat (from_le [b0; b1; b2; b3]) in
      if decide (MAX_FRAME_SIZE < len)%nat then (f, Err (MapFrameTooLarge len MAX_FRAME_SIZE))
      else if decide (length rest < len)%nat then (f, Ok None)
      else match decode_body (compression f) (take len rest) with
           | None => (f, Err MapDecode)
           | Some r => (set_buffer (drop len rest) f, Ok (Some r))
           end
  | _ => (f, Ok None)
  end.

(** [Framer::next_frame]: the events of the call are consumed from the front. *)
Fixpoint next_frame (es : list Wake) (f : Framer) : Framer * result ControlError (FrameOutcome R) * list Wake :=
  let '(f, r) := drain_decompressor f in
  match r with
  | Err e => (f, Err e, es)
  | Ok _ =>
      let '(f, r) := try_extract f in
      match r with
      | Err e => (f, Err e, es)
      | Ok (Some x) => (f, Ok (Frame x), es)
      | Ok None =>
          match es with
          | [] | Late :: _ => (f, Ok Timeout, tail es)
          | Gz s :: es => next_frame es (work (run_gzip_worker s) f)
          | Chunk c :: es =>
              match feed c f with (f, Ok _) => next_frame es f | (f, Err e) => (f, Err e, es) end
          | ChunkTimeout :: es => (f, Ok Timeout, es)
          | ChunkErr :: es => (f, Err (Transport (bs "h2 body chunk")), es)
          | ChunkEof :: es =>
              let '(f, r) := drain_decompressor (work close_input f) in
              match r with
              | Err e => (f, Err e, es)
              | Ok _ =>
                  let '(f, r) := try_extract f in
                  match r with
                  | Err e => (f, Err e, es)
                  | Ok (Some x) => (f, Ok (Frame x), es)
                  | Ok None => (f, Ok Eof, es)
                  end
              end
          end
      end
  end.
End Framer.

(** ** Session state *)

Definition LAST_SEQ_FILE : list Z := bs "last_seq".
Definition SESSION_HANDLE_FILE : list Z := bs "session_handle".

(** An [i64] as eight little-endian bytes, and back. *)
Definition i64_bytes (z : Z) : list Z := le_bytes 8 (wrap 64 z).
Definition i64_of (b : list Z) : Z := let u := from_le b in if u <? 2 ^ 63 then u else u - 2 ^ 64.

(** [format!("{}…", &s[..8])] for the log; its slice can panic. *)
Definition short_handle (s : list Z) : outcome (list Z) :=
  if decide (length s <= 8)%nat then Val s else p ← str_slice s 0 8; Val (p ++ [226; 128; 166]).

Section Session.
Context {W : Type} `{Fs W} (pid : Z).

Definition load_session_state (dir : list Z) (w : W) : result ControlError (Z * list Z) :=
  let seq := match fs_read w (join dir LAST_SEQ_FILE) with
             | Ok b => if decide (length b = 8%nat) then i64_of b else 0
             | Err _ => 0
             end in
  match fs_read w (join dir SESSION_HANDLE_FILE) with
  | Ok b => Ok (seq, if utf8_valid b then trim b else [])
  | Err NotFound => Ok (seq, [])
  | Err e => Err (Io e)
  end.

Definition persist_last_seq (dir : list Z) (seq : Z) : SE W unit := atomic_write pid (join dir LAST_SEQ_FILE) (i64_bytes seq).
Definition persist_session_handle (dir handle : list Z) : SE W unit := atomic_write pid (join dir SESSION_HANDLE_FILE) handle.

(** ** MapClient *)

(** [last_frame_at] is in nanoseconds. *)
Record MapClient : Type := mkClient {
  node_pub : list Z; disco_pub : list Z; hostname : list Z; backend_log_id : list Z; state_dir : list Z;
  netmap : NetMap; framer : Framer; last_frame_at : Z;
  local_endpoints : list (list Z); local_endpoint_types : list Z; peerapi_port : option Z
}.

Definition WATCHDOG : Z := 60 * 10 ^ 9.

Inductive MapEvent : Type :=
| Snapshot (seq : Z) (addrs : list AllowedIp) (peer_count derp_region_count : nat) (pf : option PacketFilter) (delta : NetMapDelta)
| KeepAlive (seq : Z)
| Idle.

(** A response with its [KeepAlive] flag. *)
Definition Response : Type := (bool * MapResponseWire)%type.

Context (json : list Z -> option Response) (unzstd : list Z -> option (list Z)).
Context (p6 : list Z -> option SocketAddr) (keys : gmap (list Z) PeerSnapshot -> list (list Z)).

Definition set_netmap (nm : NetMap) (c : MapClient) : MapClient :=
  mkClient (node_pub c) (disco_pub c) (hostname c) (backend_log_id c) (state_dir c) nm (framer c) (last_frame_at c)
    (local_endpoints c) (local_endpoint_types c) (peerapi_port c).
Definition set_framer (f : Framer) (at_ : Z) (c : MapClient) : MapClient :=
  mkClient (node_pub c) (disco_pub c) (hostname c) (backend_log_id c) (state_dir c) (netmap c) f at_
    (local_endpoints c) (local_endpoint_types c) (peerapi_port c).
Definition set_local_endpoints (eps : list (list Z)) (tys : list Z) (c : MapClient) : MapClient :=
  mkClient (node_pub c) (disco_pub c) (hostname c) (backend_log_id c) (state_dir c) (netmap c) (framer c) (last_frame_at c)
    eps tys (peerapi_port c).

Definition handle_frame (resp : Response) (c : MapClient) : W -> W * (MapClient * result ControlError MapEvent) := fun w =>
  let '(ka, resp) := resp in
  if ka : bool then (w, (c, Ok (KeepAlive (mr_seq resp))))
  else
    let prev := session_handle (netmap c) in
    let '(nm, delta) := apply p6 keys (netmap c) resp in
    let c := set_netmap nm c in
    let '(w, r) := if 0 <? delta_seq delta then persist_last_seq (state_dir c) (delta_seq delta) w else (w, Ok tt) in
    match r with
    | Err e => (w, (c, Err e))
    | Ok _ =>
        let changed := negb (bool_decide (session_handle nm = [])) && negb (bool_decide (session_handle nm = prev)) in
        let '(w, r) := if changed then persist_session_handle (state_dir c) (session_handle nm) w else (w, Ok tt) in
        match r with
        | Err e => (w, (c, Err e))
        | Ok _ => (w, (c, Ok (Snapshot (delta_seq delta) (our_addrs nm) (size (nm_peers nm)) (size (derp_regions nm))
                                (packet_filter nm) delta)))
        end
    end.

(** [next_event] called at [now]; [after] is the clock when a frame came. *)
Definition next_event (now after : Z) (es : list Wake) (c : MapClient) (w : W) :
    W * (MapClient * result ControlError MapEvent) * list Wake :=
  if last_frame_at c + WATCHDOG <=? now then (w, (c, Err (MapWatchdog 60)), es)
  else
    let '(f, r, es) := next_frame json unzstd es (framer c) in
    let c := set_framer f (last_frame_at c) c in
    match r with
    | Err e => (w, (c, Err e), es)
    | Ok (Frame resp) => (handle_frame resp (set_framer f after c) w, es)
    | Ok Timeout => (w, (c, Ok Idle), es)
    | Ok Eof => (w, (c, Err MapConnectionLost), es)
    end.

(** How long the call may block. *)
Definition effective_timeout (now timeout : Z) (c : MapClient) : Z := Z.min timeout (last_frame_at c + WATCHDOG - now).

(** The head of the response to the streaming request: status and headers. *)
Definition Head : Type := result ControlError (Z * list (list Z * list Z)).

(** [MapClient::start]: the request sent, and the client. *)
Definition start (head : Head) (now : Z) (node disco host log_id dir : list Z) (eps : list (list Z)) (tys : list Z)
    (port : option Z) (w : W) : outcome (option MapRequestWire * result ControlError MapClient) :=
  match load_session_state dir w with
  | Err e => Val (None, Err e)
  | Ok (seq, handle) =>
      _ ← short_handle handle;
      let request := build_map_request node disco host log_id seq handle eps tys port in
      Val (Some request,
        match head with
        | Err e => Err e
        | Ok (status, headers) =>
            if negb (status =? 200) then Err (Http status (bs "/machine/map non-200 head"))
            else
              let nm := NetMap_default in
              let nm := mkNetMap (our_addrs nm) (packet_filter nm) (our_tags nm) (our_key_expiry nm) (nm_peers nm) (id_to_key nm)
                          (derp_regions nm) seq handle (domain nm) (user_profiles nm) (our_user_id nm) in
              Ok (mkClient node disco host log_id dir nm (framer_new (pick_compression headers REQUESTED_COMPRESS)) now eps tys port)
        end)
  end.

(** [send_netinfo_update]: the body sent, and the result when the connection
    answers [resp] (a status). *)
Definition send_netinfo_update {F : Type} (resp : result ControlError Z) (preferred_derp : Z) (derp_latency : list (list Z * F))
    (extra_endpoints : list (list Z)) (c : MapClient) : NetinfoRequest F * result ControlError unit :=
  let latencies := foldl (fun m '(region, l) => <[region := l]> m) ∅ derp_latency in
  let '(all_endpoints, all_endpoint_types) := merge_endpoints (local_endpoints c) (local_endpoint_types c) extra_endpoints in
  (mkNetinfoRequest MAP_VERSION (to_nodekey_string (node_pub c)) (to_discokey_string (disco_pub c)) (hostname c) preferred_derp latencies
     ((fun port => [service_wire port]) <$> peerapi_port c)
     (if is_empty all_endpoints then None else Some (all_endpoints, all_endpoint_types)) true,
   match resp with
   | Err e => Err e
   | Ok status => if negb (status =? 200) then Err (Http status (bs "/machine/map netinfo update non-200")) else Ok tt
   end).

(** [reissue] over the same connection. *)
Definition reissue (head : Head) (now : Z) (c : MapClient) : outcome (MapRequestWire * (MapClient * result ControlError unit)) :=
  _ ← short_handle (session_handle (netmap c));
  let request := build_map_request (node_pub c) (disco_pub c) (hostname c) (backend_log_id c) (last_seq (netmap c))
                   (session_handle (netmap c)) (local_endpoints c) (local_endpoint_types c) (peerapi_port c) in
  let c := set_framer (framer_new Plain) (last_frame_at c) c in
  Val (request,
    match head with
    | Err e => (c, Err e)
    | Ok (status, headers) =>
        if negb (status =? 200) then (c, Err (Http status (bs "reissue /machine/map non-200")))
        else (set_framer (framer_new (pick_compression headers REQUESTED_COMPRESS)) now c, Ok tt)
    end).
End Session.

(** * Lemmas *)

(** ** Framing *)

Definition frame_wire (body : list Z) : list Z := le_bytes 4 (Z.of_nat (length body)) ++ body.
Definition frames_wire (bodies : list (list Z)) : list Z := concat (map frame_wire bodies).

Lemma max_frame_val : Z.of_nat MAX_FRAME_SIZE = 4194304.
Proof. unfold MAX_FRAME_SIZE. lia. Qed.

#[global] Opaque MAX_FRAME_SIZE.

Lemma le_bytes_roundtrip n z : 0 <= z < 2 ^ (8 * Z.of_nat n) -> from_le (le_bytes n z) = z.
Proof. intros H. unfold from_le, le_bytes. rewrite reverse_involutive. by apply from_be_be_bytes_small. Qed.

Lemma le_bytes_4 z : exists a b c d, le_bytes 4 z = [a; b; c; d].
Proof.
  assert (Hl : length (le_bytes 4 z) = 4%nat) by (unfold le_bytes; rewrite length_reverse; apply length_be_bytes).
  destruct (le_bytes 4 z) as [|a [|b [|c [|d [|]]]]]; try discriminate. by exists a, b, c, d.
Qed.

(** The header of a frame: four bytes that give its length. *)
Lemma frame_header body : (length body <= MAX_FRAME_SIZE)%nat ->
  exists a b c d, frame_wire body = a :: b :: c :: d :: body /\ Z.to_nat (from_le [a; b; c; d]) = length body.
Proof.
  intros Hl. pose proof max_frame_val. destruct (le_bytes_4 (Z.of_nat (length body))) as (a & b & c & d & E).
  exists a, b, c, d. unfold frame_wire. split; [by rewrite E|]. rewrite <- E, le_bytes_roundtrip by lia. lia.
Qed.

Section Reader.
Context {R : Type} (json : list Z -> option R) (unzstd : list Z -> option (list Z)).
#[local] Abbreviation decode := (decode_body json unzstd).
#[local] Abbreviation extract := (try_extract json unzstd).
#[local] Abbreviation next := (next_frame json unzstd).

Lemma buffer_set b f : buffer (set_buffer b f) = b /\ compression (set_buffer b f) = compression f /\
  (decompressed <$> worker (set_buffer b f)) = (decompressed <$> worker f).
Proof. unfold buffer, set_buffer. by destruct (worker f) eqn:E; cbn; rewrite ?E. Qed.

Lemma extract_whole f body r rest :
  (length body <= MAX_FRAME_SIZE)%nat -> decode (compression f) body = Some r -> buffer f = frame_wire body ++ rest ->
  extract f = (set_buffer rest f, Ok (Some r)).
Proof.
  intros Hl Hd Hb. destruct (frame_header body Hl) as (a & b & c & d & E & El). unfold try_extract. rewrite Hb, E. cbn [app].
  rewrite El, decide_False by lia. rewrite decide_False by (rewrite length_app; lia).
  by rewrite take_app_length, Hd, drop_app_length.
Qed.

Lemma extract_partial f body b rest :
  (length body <= MAX_FRAME_SIZE)%nat -> rest <> [] -> b ++ rest = frame_wire body -> buffer f = b -> extract f = (f, Ok None).
Proof.
  intros Hl Hr E Hb. destruct (frame_header body Hl) as (x0 & x1 & x2 & x3 & Ew & El). unfold try_extract. rewrite Hb.
  rewrite Ew in E. destruct b as [|y0 [|y1 [|y2 [|y3 b]]]]; try done. cbn [app] in E. injection E as -> -> -> -> E.
  rewrite El, decide_False by lia. rewrite decide_True; [done|]. rewrite <- E, length_app. destruct rest; [done|]. cbn. lia.
Qed.

(** What is queued at the worker, and what the events bring. *)
Definition queued (f : Framer) : list Z := match worker f with Some g => concat (omap id (decompressed g)) | None => [] end.
Definition brings (gz : bool) (e : Wake) : list Z :=
  match e with Chunk c => if gz then [] else c | Gz (GzOut out) => if gz then out else [] | _ => [] end.
Definition drained (f : Framer) : Prop := match worker f with Some g => decompressed g = [] | None => True end.
Definition is_gzip (f : Framer) : bool := bool_decide (is_Some (worker f)).
(** What has come through to the framer. *)
Definition arrived (c : Compression) (es : list Wake) : list Z := concat (map (brings (bool_decide (c = Gzip))) es).

(** Nothing fails and the body goes on. *)
Definition benign (e : Wake) : Prop :=
  match e with Chunk _ | ChunkTimeout | Late | Gz (GzRead _) | Gz (GzOut _) => True | _ => False end.
Definition pauses (es : list Wake) : nat :=
  length (List.filter (fun e => match e with ChunkTimeout | Late => true | _ => false end) es).

(** The beginning of a frame, without its last byte at least. *)
Definition torn (part : list Z) : Prop :=
  exists body rest, (length body <= MAX_FRAME_SIZE)%nat /\ rest <> [] /\ part ++ rest = frame_wire body.

(** The frames with responses [rs], and a torn one, are in the buffer, at the
    worker and in the events to come, after which the body ends if [m] is not 0. *)
Definition feeds (m : nat) (f : Framer) (es : list Wake) (rs : list R) (part : list Z) : Prop :=
  match worker f with Some g => (None ∉ decompressed g) /\ ended g = false /\ sender g = true | None => True end /\
  (exists es1, es = es1 ++ repeat ChunkEof m /\ Forall benign es1) /\ torn part /\
  exists bodies, Forall (fun b => (length b <= MAX_FRAME_SIZE)%nat) bodies /\
    map (decode (compression f)) bodies = map Some rs /\
    buffer f ++ queued f ++ concat (map (brings (is_gzip f)) es) = frames_wire bodies ++ part.

Lemma drain_into_ok q : forall out, None ∉ q -> drain_into q out = ([], out ++ concat (omap id q), true).
Proof.
  induction q as [|[c|] q IH]; intros out Hq; cbn [drain_into omap list_omap concat]; [by rewrite app_nil_r| |].
  - apply not_elem_of_cons in Hq as [_ Hq]. rewrite IH by done. cbn. by rewrite app_assoc.
  - by apply not_elem_of_cons in Hq as [Hq _].
Qed.

(** Draining moves the worker's output into the buffer. *)
Lemma drain_feeds m f es rs part : feeds m f es rs part ->
  exists f', drain_decompressor f = (f', Ok tt) /\ feeds m f' es rs part /\ drained f'.
Proof.
  intros (Hw & He & Hp & bodies & Hb & Hd & E). unfold drain_decompressor, feeds, drained, queued, is_gzip, buffer in *.
  destruct (worker f) as [g|] eqn:Eg.
  - destruct Hw as [Hq Hend]. rewrite drain_into_ok by done. eexists. split; [done|]. cbn [worker decompressed ended sender compression gzip_buf].
    split; [|done]. split; [split; [apply not_elem_of_nil|done]|]. split; [done|]. split; [done|]. exists bodies.
    split_and!; [done|done|]. cbn [omap list_omap concat app]. by rewrite <- app_assoc.
  - exists f. rewrite Eg. split_and!; try done. by exists bodies.
Qed.

Lemma drained_queue f : drained f -> queued f = [].
Proof. unfold drained, queued. destruct (worker f); [by intros ->|done]. Qed.

(** With nothing to drain and nothing to extract, closing the input changes
    neither. *)
Lemma close_nothing f : drained f -> extract f = (f, Ok None) ->
  drain_decompressor (work close_input f) = (work close_input f, Ok tt) /\ extract (work close_input f) = (work close_input f, Ok None).
Proof.
  unfold drained, drain_decompressor, try_extract, work, buffer. cbn [worker compression plain_buf gzip_buf].
  destruct (worker f) as [[]|]; cbn; [intros -> Hx|intros _ Hx].
  - split; [done|]. revert Hx.
    destruct (gzip_buf f) as [|b0 [|b1 [|b2 [|b3 rest]]]]; try done. do 2 (case_decide; [done|]). by destruct (decode_body _ _ _ _).
  - split; [done|]. revert Hx. destruct (plain_buf f) as [|b0 [|b1 [|b2 [|b3 rest]]]]; try done. do 2 (case_decide; [done|]). by destruct (decode_body _ _ _ _).
Qed.

Lemma extract_feeds m f es rs part : feeds m f es rs part -> queued f = [] ->
  (exists r rs' f', extract f = (f', Ok (Some r)) /\ rs = r :: rs' /\ feeds m f' es rs' part) \/
  (extract f = (f, Ok None) /\ (rs = [] \/ concat (map (brings (is_gzip f)) es) <> [])).
Proof.
  intros (Hw & He & Hp & bodies & Hb & Hd & E) Hq. rewrite Hq in E. cbn [app] in E.
  destruct bodies as [|body bodies].
  { destruct rs; [|done]. right. unfold frames_wire in E. cbn in E. split; [|by left]. destruct Hp as (body & rest & Hl & Hr & Hw2).
    apply (extract_partial f body (buffer f) (concat (map (brings (is_gzip f)) es) ++ rest)); [done| | |done].
    - intros [_ ->]%app_eq_nil. done.
    - by rewrite app_assoc, E. }
  destruct rs as [|r rs]; [done|]. cbn [map] in Hd. injection Hd as Hdr Hd. apply Forall_cons_1 in Hb as [Hlen Hb].
  unfold frames_wire in E. cbn [map concat] in E. fold (frames_wire bodies) in E. rewrite <- app_assoc in E.
  destruct (decide (length (frame_wire body) <= length (buffer f))%nat) as [Hge|Hlt].
  - left. apply (f_equal (take (length (frame_wire body)))) in E as Et. rewrite take_app_length, take_app_le in Et by done.
    assert (Ebuf : buffer f = frame_wire body ++ drop (length (frame_wire body)) (buffer f)) by (by rewrite <- Et at 1; rewrite take_drop).
    exists r, rs, (set_buffer (drop (length (frame_wire body)) (buffer f)) f). split; [by apply (extract_whole f body)|]. split; [done|].
    destruct (buffer_set (drop (length (frame_wire body)) (buffer f)) f) as (B1 & B2 & B3).
    unfold feeds, queued, is_gzip in *. rewrite B1, B2.
    assert (Hgz : bool_decide (is_Some (worker (set_buffer (drop (length (frame_wire body)) (buffer f)) f))) = bool_decide (is_Some (worker f))).
    { unfold set_buffer. by destruct (worker f). }
    split_and!; [unfold set_buffer; by destruct (worker f)|done|done|]. exists bodies. split_and!; [done|done|]. rewrite Hgz.
    replace (match worker (set_buffer _ f) with Some g => concat (omap id (decompressed g)) | None => [] end) with (@nil Z).
    + cbn [app]. rewrite Ebuf, <- app_assoc in E. by apply app_inv_head in E.
    + rewrite <- Hq. unfold set_buffer. by destruct (worker f).
  - right. apply not_le in Hlt.
    apply (f_equal (take (length (buffer f)))) in E as Et. rewrite take_app_length, take_app_le in Et by lia.
    assert (Eb : buffer f ++ drop (length (buffer f)) (frame_wire body) = frame_wire body) by (rewrite Et at 1; apply take_drop).
    split.
    + apply (extract_partial f body (buffer f) (drop (length (buffer f)) (frame_wire body))); [done| |done|done].
      intros Ed. apply (f_equal length) in Ed. rewrite length_drop in Ed. cbn in Ed. lia.
    + right. intros Ee. rewrite Ee, app_nil_r in E. apply (f_equal length) in E. rewrite length_app in E. lia.
Qed.

(** The first of the events. *)
Lemma feeds_uncons m f e es rs part : feeds m f (e :: es) rs part ->
  (benign e \/ (e = ChunkEof /\ concat (map (brings (is_gzip f)) es) = [] /\ exists n, m = S n)) /\
  (benign e -> exists es1, es = es1 ++ repeat ChunkEof m /\ Forall benign es1).
Proof.
  intros (_ & (es1 & E & He) & _). destruct es1 as [|e1 es1]; cbn [app] in E.
  - destruct m as [|m]; [done|]. cbn [repeat] in E. injection E as -> ->. split; [|done]. right. split; [done|]. split; [|by exists m].
    clear. induction m; done.
  - injection E as <- ->. apply Forall_cons_1 in He as [Hb He]. split; [by left|]. intros _. by exists es1.
Qed.

Lemma feeds_step m f e es rs part : feeds m f (e :: es) rs part -> queued f = [] -> benign e ->
  match e with
  | Chunk c => exists f', feed c f = (f', Ok tt) /\ feeds m f' es rs part
  | Gz s => feeds m (work (run_gzip_worker s) f) es rs part
  | ChunkErr | ChunkEof => False
  | ChunkTimeout | Late => feeds m f es rs part
  end.
Proof.
  intros Hf Hq Hbe. destruct (feeds_uncons _ _ _ _ _ _ Hf) as [_ He]. specialize (He Hbe). destruct Hf as (Hw & _ & Hp & bodies & Hb & Hd & E).
  rewrite Hq in E. cbn [map concat app] in E.
  destruct e as [c| | | |[n|out| |]|]; try done.
  - unfold feed, feeds, is_gzip, buffer, queued in *. destruct (worker f) as [g|] eqn:Eg.
    + destruct Hw as (Hw1 & Hw2 & Hw3). unfold gz_feed. rewrite Hw2, Hw3. cbn [negb orb]. eexists. split; [done|]. cbn [worker decompressed ended sender compression gzip_buf].
      split_and!; try done. exists bodies. cbn [brings] in E. rewrite Hq. split_and!; done.
    + eexists. split; [done|]. cbn [worker compression plain_buf]. split_and!; try done. exists bodies.
      split_and!; try done. cbn [app]. by rewrite <- app_assoc.
  - split_and!; try done. exists bodies. rewrite Hq. done.
  - unfold work, feeds, is_gzip, buffer, queued in *. cbn [worker compression gzip_buf plain_buf]. destruct (worker f) as [g|] eqn:Eg; cbn [fmap option_fmap option_map] in *.
    + destruct Hw as (Hw1 & Hw2 & Hw3). unfold run_gzip_worker, channel_read. rewrite Hw2. destruct (refill _ _). cbn [decompressed ended sender].
      split_and!; try done. exists bodies. split_and!; try done. by rewrite Hq.
    + split_and!; try done. by exists bodies.
  - unfold work, feeds, is_gzip, buffer, queued in *. cbn [worker compression gzip_buf plain_buf]. destruct (worker f) as [g|] eqn:Eg; cbn [fmap option_fmap option_map] in *.
    + destruct Hw as (Hw1 & Hw2 & Hw3). unfold run_gzip_worker. rewrite Hw2. cbn [decompressed ended sender]. split_and!; try done.
      * rewrite not_elem_of_app. split; [done|]. by rewrite list_elem_of_singleton.
      * exists bodies. split_and!; try done. rewrite omap_app, concat_app, Hq. cbn in *. by rewrite app_nil_r.
    + split_and!; try done. by exists bodies.
  - split_and!; try done. exists bodies. rewrite Hq. done.
Qed.

Lemma next_frame_feeds m es : forall f rs part f' r es', feeds m f es rs part -> next es f = (f', r, es') ->
  (pauses es' <= pauses es)%nat /\
  match r with
  | Ok (Frame x) => exists rs', rs = x :: rs' /\ feeds m f' es' rs' part
  | Ok Timeout => feeds m f' es' rs part /\ ((pauses es' < pauses es)%nat \/ (rs = [] /\ m = 0%nat))
  | Ok Eof => rs = [] /\ m <> 0%nat
  | Err _ => False
  end.
Proof.
  induction es as [|e es IH]; intros f rs part f' r es' Hf; cbn [next_frame];
    destruct (drain_feeds _ _ _ _ _ Hf) as (f1 & -> & Hf1 & Hdr); pose proof (drained_queue _ Hdr) as Hq1;
    (destruct (extract_feeds _ _ _ _ _ Hf1 Hq1) as [(x & rs' & f2 & -> & -> & Hf2)|(Hx & Hmore)];
      [intros [= <- <- <-]; split; [lia|by exists rs']|]); rewrite Hx.
  - intros [= <- <- <-]. split; [lia|]. split; [done|]. right. destruct Hmore as [->|[]]; [|done]. split; [done|].
    destruct Hf1 as (_ & (es1 & E & _) & _). symmetry in E. apply app_eq_nil in E as [_ E]. by destruct m.
  - destruct (feeds_uncons _ _ _ _ _ _ Hf1) as [[Hbe|(-> & Hno & n & ->)] _].
    + pose proof (feeds_step _ _ _ _ _ _ Hf1 Hq1 Hbe) as Hs. destruct e as [c| | | |s|]; try done.
      * destruct Hs as (f2 & -> & Hf2). apply IH. done.
      * intros [= <- <- <-]. unfold pauses. cbn [List.filter length]. split; [lia|]. split; [done|]. left. lia.
      * apply IH. done.
      * intros [= <- <- <-]. unfold pauses. cbn [List.tl List.filter length]. split; [lia|]. split; [done|]. left. lia.
    + destruct (close_nothing f1 Hdr Hx) as [-> ->]. intros [= <- <- <-]. split; [unfold pauses; cbn [List.filter]; lia|]. split; [|done].
      destruct Hmore as [->|Hne]; [done|]. by destruct Hne.
Qed.

(** The frames [k] calls return, timeouts aside, and whether the last one reports
    the end of the body. *)
Fixpoint frames_of (k : nat) (es : list Wake) (f : Framer) : list R * bool :=
  match k with
  | O => ([], false)
  | S k =>
      match next es f with
      | (f, Ok (Frame x), es) => let '(xs, b) := frames_of k es f in (x :: xs, b)
      | (f, Ok Timeout, es) => frames_of k es f
      | (_, Ok Eof, _) => ([], true)
      | _ => ([], false)
      end
  end.

Lemma frames_prefix m k : forall es f rs part, feeds m f es rs part -> (frames_of k es f).1 `prefix_of` rs.
Proof.
  induction k as [|k IH]; intros es f rs part Hf; cbn [frames_of]; [apply prefix_nil|].
  destruct (next es f) as [[f' r] es'] eqn:E. apply (next_frame_feeds _ _ _ _ _ _ _ _ Hf) in E as [_ Hr].
  destruct r as [[x| |]|]; try done; [|by destruct Hr as [-> _]|].
  - destruct Hr as (rs' & -> & Hf'). specialize (IH es' f' rs' part Hf'). destruct (frames_of k es' f') as [xs b]. by apply prefix_cons.
  - destruct Hr as [Hf' _]. by eapply IH.
Qed.

Lemma frames_all m k : forall es f rs part, feeds m f es rs part -> (length rs + pauses es + m <= k + pred m)%nat ->
  frames_of k es f = (rs, bool_decide (m <> 0%nat)).
Proof.
  induction k as [|k IH]; intros es f rs part Hf Hk.
  { destruct m; [|cbn in Hk; lia]. destruct rs; [done|cbn in Hk; lia]. }
  cbn [frames_of]. destruct (next es f) as [[f' r] es'] eqn:E. apply (next_frame_feeds _ _ _ _ _ _ _ _ Hf) in E as [Hp Hr].
  destruct r as [[x| |]|]; try done.
  - destruct Hr as (rs' & -> & Hf'). rewrite (IH es' f' rs' part); [done|done|]. cbn in Hk. lia.
  - destruct Hr as [-> Hm]. by rewrite bool_decide_true.
  - destruct Hr as [Hf' [Hlt|[-> ->]]]; [eapply IH; [done|lia]|]. cbn [length] in Hk.
    clear IH Hp Hk. revert es' f' Hf'. induction k as [|k IH]; intros es1 f1 Hf1; [done|]. cbn [frames_of].
    destruct (next es1 f1) as [[f2 r] es2] eqn:E. apply (next_frame_feeds _ _ _ _ _ _ _ _ Hf1) in E as [_ Hr].
    destruct r as [[x| |]|]; try done; [by destruct Hr as (rs' & ? & _)|by destruct Hr|]. destruct Hr as [Hr _]. by apply IH.
Qed.
End Reader.

(** A part of the frames is whole frames and a torn one. *)
Lemma split_frames bodies : Forall (fun b => (length b <= MAX_FRAME_SIZE)%nat) bodies -> forall p, p `prefix_of` frames_wire bodies ->
  exists n part, (n <= length bodies)%nat /\ p = frames_wire (take n bodies) ++ part /\ torn part.
Proof.
  induction 1 as [|body bodies Hl Hb IH]; intros p Hp.
  - apply prefix_nil_inv in Hp as ->. exists 0%nat, []. split_and!; [done|done|]. exists [], (frame_wire []). cbn. split_and!; [lia|done|done].
  - unfold frames_wire in Hp. cbn [map concat] in Hp. fold (frames_wire bodies) in Hp.
    destruct (decide (length (frame_wire body) <= length p)%nat) as [Hge|Hlt].
    + destruct Hp as [t E]. assert (E1 : p = frame_wire body ++ drop (length (frame_wire body)) p).
      { apply (f_equal (take (length (frame_wire body)))) in E as Et. rewrite take_app_length, take_app_le in Et by done.
        by rewrite Et at 1; rewrite take_drop. }
      rewrite E1, <- app_assoc in E. apply app_inv_head in E. destruct (IH (drop (length (frame_wire body)) p)) as (n & part & Hn & E2 & Ht).
      { exists t. done. }
      exists (S n), part. split_and!; [cbn; lia| |done]. rewrite E1, E2. unfold frames_wire. cbn [take map concat]. by rewrite <- app_assoc.
    + exists 0%nat, p. split_and!; [cbn; lia|done|]. destruct Hp as [t E].
      exists body, (drop (length p) (frame_wire body)). split_and!; [done| |].
      * intros Ed. apply (f_equal length) in Ed. rewrite length_drop in Ed. cbn in Ed. lia.
      * apply (f_equal (take (length p))) in E as Et. rewrite take_app_le, take_app_length in Et by lia. rewrite <- Et at 1. apply take_drop.
Qed.

(** *** The gzip thread *)

(** What the server sent, and what it means. *)
Definition sent (es : list Wake) : list Z := concat (omap (fun e => match e with Chunk c => Some c | _ => None end) es).
Definition text (gunzip : list Z -> list Z) (c : Compression) (b : list Z) : list Z := if decide (c = Gzip) then gunzip b else b.

Definition worker_step (e : Wake) (g : GzipWorker) : GzipWorker :=
  match e with Chunk c => (gz_feed c g).1 | Gz s => run_gzip_worker s g | _ => g end.
(** The decoder returns what [gunzip] makes of the bytes it has read. *)
Fixpoint decodes (gunzip : list Z -> list Z) (es : list Wake) (g : GzipWorker) : Prop :=
  match es with
  | [] => True
  | e :: es =>
      match e with Gz (GzOut out) => (handed g ++ out) `prefix_of` gunzip (taken g) | _ => True end /\
      decodes gunzip es (worker_step e g)
  end.

Definition pending (g : GzipWorker) : list Z := taken g ++ leftover g ++ concat (channel g).
Definition live (g : GzipWorker) : Prop := sender g = true /\ ended g = false.

Lemma refill_spec ch : forall buf, let '(l, c) := refill buf ch in l ++ concat c = buf ++ concat ch /\ (length c <= length ch)%nat /\ (l = [] -> c = []).
Proof.
  induction ch as [|c ch IH]; intros [|x buf]; cbn [refill]; try done. specialize (IH c). destruct (refill c ch) as [l c']. destruct IH as (-> & IH & IH2).
  cbn. split_and!; [done|lia|done].
Qed.

Lemma worker_step_spec e g : benign e -> live g ->
  live (worker_step e g) /\ pending (worker_step e g) = pending g ++ sent [e] /\
  handed (worker_step e g) = handed g ++ brings true e /\ taken g `prefix_of` taken (worker_step e g).
Proof.
  intros Hb [H1 H2]. unfold live, pending, sent. destruct e as [c| | | |[n|out| |]|]; try done; cbn [worker_step omap list_omap concat brings].
  - unfold gz_feed. rewrite H1, H2. cbn. rewrite concat_app, !app_nil_r, <- !app_assoc. cbn. by rewrite app_nil_r.
  - by rewrite !app_nil_r.
  - unfold run_gzip_worker, channel_read. rewrite H2. pose proof (refill_spec (channel g) (leftover g)) as Hr. destruct (refill (leftover g) (channel g)) as [l ch].
    destruct Hr as (Hr & _). cbn. rewrite !app_nil_r. split_and!; try done; [|by eexists]. rewrite <- app_assoc, (app_assoc (take n l)), take_drop. by rewrite Hr.
  - unfold run_gzip_worker. rewrite H2. cbn. by rewrite app_nil_r.
  - by rewrite !app_nil_r.
Qed.

Lemma sent_cons e es : sent (e :: es) = sent [e] ++ sent es.
Proof. unfold sent. cbn. destruct e; cbn; by rewrite ?app_nil_r. Qed.

(** The thread over a whole run: nothing of what was sent is lost, and what it
    handed over is what the part it read means. *)
Lemma worker_run gunzip es : (forall a b, gunzip a `prefix_of` gunzip (a ++ b)) -> forall g, Forall benign es -> live g ->
  handed g `prefix_of` gunzip (taken g) -> decodes gunzip es g ->
  let g' := foldl (fun g e => worker_step e g) g es in
  live g' /\ pending g' = pending g ++ sent es /\ handed g' = handed g ++ arrived Gzip es /\ handed g' `prefix_of` gunzip (taken g').
Proof.
  intros Hg. unfold arrived. rewrite bool_decide_true by done. induction es as [|e es IH]; intros g Hb Hl Hh Hd; cbn [foldl].
  - unfold sent. cbn. by rewrite !app_nil_r.
  - apply Forall_cons_1 in Hb as [He Hb]. destruct Hd as [Hd1 Hd2]. destruct (worker_step_spec e g He Hl) as (W1 & W2 & W3 & [t W4]).
    destruct (IH (worker_step e g) Hb W1) as (I1 & I2 & I3 & I4); [|done|].
    + rewrite W3, W4. transitivity (gunzip (taken g)); [|apply Hg]. destruct e as [c| | | |[n|out| |]|]; cbn [brings]; rewrite ?app_nil_r; done.
    + split_and!; [done| | |done].
      * rewrite I2, W2, <- app_assoc, <- sent_cons. done.
      * rewrite I3, W3, <- app_assoc. done.
Qed.

Lemma decodes_app gunzip es1 es2 : forall g, decodes gunzip (es1 ++ es2) g <-> decodes gunzip es1 g /\ decodes gunzip es2 (foldl (fun g e => worker_step e g) g es1).
Proof. induction es1 as [|e es1 IH]; intros g; cbn [app decodes foldl]; [naive_solver|]. rewrite IH. naive_solver. Qed.

(** Enough reads of enough bytes take everything. *)
Lemma reads_all n : forall g, live g -> (length (channel g) + (if is_empty (leftover g) then 0 else 1) < n)%nat ->
  exists steps, Forall (fun e => exists k, e = Gz (GzRead k)) steps /\
    let g' := foldl (fun g e => worker_step e g) g steps in live g' /\ taken g' = pending g /\ handed g' = handed g.
Proof.
  induction n as [|n IH]; intros g Hl Hn; [lia|]. pose proof (refill_spec (channel g) (leftover g)) as Hr.
  destruct (refill (leftover g) (channel g)) as [l ch] eqn:Er. destruct Hr as (Hr1 & Hr2 & Hr3).
  set (e := Gz (GzRead (length l))). destruct (worker_step_spec e g I Hl) as (W1 & W2 & W3 & _).
  assert (Ew : worker_step e g = mkWorker (sender g) ch [] (taken g ++ l) (handed g) (decompressed g) (ended g)).
  { unfold e, worker_step, run_gzip_worker, channel_read. destruct Hl as [_ ->]. by rewrite Er, drop_ge, take_ge by lia. }
  destruct ch as [|c ch].
  - exists [e]. split; [repeat constructor; by eexists|]. cbn [foldl]. split_and!; [done| |by rewrite Ew].
    rewrite Ew. cbn. unfold pending. rewrite <- Hr1. cbn. by rewrite app_nil_r.
  - destruct (IH (worker_step e g) W1) as (steps & S1 & S2 & S3 & S4).
    { rewrite Ew. cbn [channel leftover is_empty]. destruct (leftover g) as [|x buf] eqn:El; cbn [is_empty] in Hn.
      - destruct (channel g) as [|c0 ch0] eqn:Ec; [done|]. cbn [refill] in Er. pose proof (refill_spec ch0 c0) as Hs. rewrite Er in Hs. cbn [length] in *. lia.
      - destruct (channel g) eqn:Ec; cbn in Er; injection Er as <- <-; cbn [length] in *; lia. }
    exists (e :: steps). split; [apply Forall_cons_2; [by eexists|done]|]. cbn [foldl]. split_and!; [done| |].
    + rewrite S3, W2. unfold sent. cbn. by rewrite app_nil_r.
    + rewrite S4, W3. cbn. by rewrite app_nil_r.
Qed.

(** The thread can always catch up. *)
Lemma worker_catches_up gunzip es : (forall a b, gunzip a `prefix_of` gunzip (a ++ b)) -> Forall benign es -> decodes gunzip es gz_new ->
  exists more, Forall (fun e => exists s, e = Gz s) more /\ Forall benign more /\ decodes gunzip (es ++ more) gz_new /\
    arrived Gzip (es ++ more) = gunzip (sent es).
Proof.
  intros Hg Hb Hd. destruct (worker_run gunzip es Hg gz_new Hb) as (R1 & R2 & R3 & R4); [done|cbn; apply prefix_nil|done|].
  set (g := foldl (fun g e => worker_step e g) gz_new es) in *. cbn [gz_new pending taken leftover channel concat handed app] in R2, R3.
  destruct (reads_all (S (S (length (channel g)))) g R1) as (steps & S1 & S2 & S3 & S4); [destruct (is_empty _); lia|].
  set (g2 := foldl (fun g e => worker_step e g) g steps) in *.
  assert (Hp : handed g `prefix_of` gunzip (sent es)).
  { rewrite <- R2. etransitivity; [exact R4|]. unfold pending. apply Hg. }
  destruct Hp as [out Ho]. exists (steps ++ [Gz (GzOut out)]).
  assert (Hst : Forall benign steps) by (eapply list.Forall_impl; [exact S1|]; by intros e [k ->]).
  assert (Hds : forall l, Forall (fun e => exists k, e = Gz (GzRead k)) l -> forall g, decodes gunzip l g).
  { induction 1 as [|e l [k ->] _ IH]; intros g0; cbn [decodes]; [done|]. split; [done|apply IH]. }
  assert (Har : forall l, Forall (fun e => exists k, e = Gz (GzRead k)) l -> arrived Gzip l = []).
  { unfold arrived. rewrite bool_decide_true by done. induction 1 as [|e l [k ->] _ IH]; [done|]. cbn. exact IH. }
  split_and!.
  - apply Forall_app. split; [eapply list.Forall_impl; [exact S1|]; intros e [k ->]; by eexists|repeat constructor; by eexists].
  - apply Forall_app. split; [done|by repeat constructor].
  - apply decodes_app. split; [done|]. fold g. apply decodes_app. split; [by apply Hds|]. fold g2. cbn [decodes]. split; [|done].
    rewrite S4, S3, R2, <- Ho. done.
  - unfold arrived in *. rewrite !map_app, !concat_app. rewrite (Har steps S1). cbn [map concat app]. rewrite bool_decide_true in R3 |- * by done.
    cbn [brings]. rewrite app_nil_r, <- R3, Ho. done.
Qed.

(** ** Session state *)

Lemma i64_roundtrip z : - 2 ^ 63 <= z < 2 ^ 63 -> i64_of (i64_bytes z) = z /\ length (i64_bytes z) = 8%nat.
Proof.
  intros Hz. unfold i64_of, i64_bytes. pose proof (Z.mod_pos_bound z (2 ^ 64) ltac:(lia)) as Hm.
  rewrite le_bytes_roundtrip by (unfold wrap; lia).
  split; [|unfold le_bytes; rewrite length_reverse; apply length_be_bytes]. unfold wrap.
  destruct (decide (0 <= z)).
  - rewrite Z.mod_small by lia. by rewrite (proj2 (Z.ltb_lt _ _)) by lia.
  - assert (E : z mod 2 ^ 64 = z + 2 ^ 64) by (symmetry; apply Z.mod_unique with (-1); lia).
    rewrite E, (proj2 (Z.ltb_ge _ _)) by lia. lia.
Qed.

Lemma apply_session p6 keys nm r :
  last_seq (apply p6 keys nm r).1 = (if last_seq nm <? mr_seq r then mr_seq r else last_seq nm) /\
  delta_seq (apply p6 keys nm r).2 = last_seq (apply p6 keys nm r).1 /\
  session_handle (apply p6 keys nm r).1 = (if is_empty (mr_handle r) then session_handle nm else mr_handle r).
Proof.
  unfold apply. destruct (match mr_node r with Some n => apply_self nm n | None => (nm, false) end) as [nm1 ch] eqn:E1.
  assert (E : last_seq nm1 = last_seq nm /\ session_handle nm1 = session_handle nm).
  { destruct (mr_node r); injection E1 as <- <-; done. }
  destruct E as [_ ->]. destruct (match mr_derp_map r with Some _ => _ | None => _ end) as [regions dc].
  destruct (match mr_packet_filter r with PfMissing => _ | PfWireRules _ => _ end) as [pf pfc]. done.
Qed.

(** A frame that is returned was decoded by the JSON parser. *)
Lemma try_extract_json {R} (json : list Z -> option R) unzstd f f' r :
  try_extract json unzstd f = (f', Ok (Some r)) -> exists b, json b = Some r.
Proof.
  unfold try_extract. destruct (buffer f) as [|? [|? [|? [|? rest]]]]; try done. do 2 (case_decide; [done|]).
  destruct (decode_body json unzstd (compression f) _) as [x|] eqn:E; [|done]. intros [= _ <-].
  unfold decode_body in E. destruct (compression f); [by eexists..|]. destruct (unzstd _) as [b|]; [|done]. by exists b.
Qed.

Lemma next_frame_json {R} (json : list Z -> option R) unzstd es : forall f f' r es',
  next_frame json unzstd es f = (f', Ok (Frame r), es') -> exists b, json b = Some r.
Proof.
  induction es as [|e es IH]; intros f f' r es'; cbn [next_frame];
    destruct (drain_decompressor f) as [f1 [[]|]]; try done;
    destruct (try_extract json unzstd f1) as [f2 [[x|]|]] eqn:Ex; try done;
    try (intros [= <- <- <-]; by eapply try_extract_json).
  destruct e as [c| | | |g|]; try done; try apply IH.
  - destruct (feed c f2) as [f3 [[]|]]; [apply IH|done].
  - destruct (drain_decompressor (work close_input f2)) as [f3 [[]|]]; [|done].
    destruct (try_extract json unzstd f3) as [f4 [[x|]|]] eqn:Ex2; try done. intros [= <- <- <-]. by eapply try_extract_json.
Qed.

(** Calls of [next_event] as long as none fails: what happens in each, and the
    clock before and after. *)
Fixpoint drive {W} `{Fs W} (pid : Z) (json : list Z -> option Response) (unzstd : list Z -> option (list Z))
    (p6 : list Z -> option SocketAddr) (keys : gmap (list Z) PeerSnapshot -> list (list Z))
    (calls : list (Z * Z * list Wake)) (c : MapClient) (w : W) : option (W * MapClient) :=
  match calls with
  | [] => Some (w, c)
  | (now, after, es) :: calls =>
      match next_event pid json unzstd p6 keys now after es c w with
      | (w, (c, Ok _), _) => drive pid json unzstd p6 keys calls c w
      | _ => None
      end
  end.

(** Text a file keeps: valid UTF-8 without space at either end. *)
Definition clean (h : list Z) : Prop := utf8_valid h = true /\ trim h = h.

Section Resume.
Context {W : Type} {d : list Z} `{FsLaws W d} (pid : Z) (Hd : tidy d) (Hpid : 0 <= pid).
Context (p6 : list Z -> option SocketAddr) (keys : gmap (list Z) PeerSnapshot -> list (list Z)).
#[local] Abbreviation holds := (Keys.holds (d := d)).

Definition session_files : list (list Z) := [LAST_SEQ_FILE; SESSION_HANDLE_FILE].

Definition seq_of (w : W) : Z :=
  match holds w LAST_SEQ_FILE with Some b => if decide (length b = 8%nat) then i64_of b else 0 | None => 0 end.
Definition handle_of (w : W) : list Z :=
  match holds w SESSION_HANDLE_FILE with Some b => if utf8_valid b then trim b else [] | None => [] end.
Definition tidy_state (w : W) : Prop := forall f, f ∈ session_files -> holds w (tmp_name pid f) = None.

(** Reading never fails for a reason other than a missing file. *)
Definition readable (w : W) : Prop := forall f, f ∈ session_files -> fs_read w (join d f) <> Err OtherError.

Lemma load_session w : readable w -> load_session_state d w = Ok (seq_of w, handle_of w).
Proof.
  intros Hr. unfold load_session_state, seq_of, handle_of, Keys.holds.
  destruct (read_law (d := d) w (join d LAST_SEQ_FILE)) as [R1 R2]. destruct (read_law (d := d) w (join d SESSION_HANDLE_FILE)) as [S1 S2].
  assert (H1 := Hr LAST_SEQ_FILE (list_elem_of_here _ _)). assert (H2 := Hr SESSION_HANDLE_FILE (list_elem_of_further _ _ _ (list_elem_of_here _ _))).
  destruct (fs_read w (join d LAST_SEQ_FILE)) as [b|[]]; [rewrite (R1 b eq_refl)|rewrite (R2 eq_refl)|done];
    (destruct (fs_read w (join d SESSION_HANDLE_FILE)) as [h|[]]; [rewrite (S1 h eq_refl)|rewrite (S2 eq_refl)|done]); done.
Qed.

Lemma session_file_facts f : f ∈ session_files -> own_name f /\ exists c, head (reverse f) = Some c /\ ~ 48 <= c <= 57.
Proof.
  unfold session_files. rewrite !elem_of_cons, elem_of_nil. intros [->|[->|[]]];
    (split; [apply (bool_decide_unpack _); vm_compute; done|eexists; split; [vm_compute; reflexivity|lia]]).
Qed.

(** A state file that is written holds the bytes, the other is as before. *)
Lemma persist_spec f b w w' : f ∈ session_files -> tidy_state w -> atomic_write pid (join d f) b w = (w', Ok tt) ->
  holds w' f = Some b /\ tidy_state w' /\ forall g, g ∈ session_files -> g <> f -> holds w' g = holds w g.
Proof.
  intros Hf Ht E. destruct (session_file_facts f Hf) as [Hp (c & Hc & Hdig)].
  apply (atomic_write_spec (d := d)) in E as (A1 & _ & A3); [|done|done|done|by apply not_eq_sym; eapply tmp_name_ne|by apply Ht].
  destruct A1 as [A1 A1t]; [done|]. split_and!; [done| |].
  - intros g Hg. destruct (decide (g = f)) as [->|Hne]; [done|]. destruct (session_file_facts g Hg) as [Hgp _].
    rewrite A3; [by apply Ht|by apply tmp_plain|by eapply tmp_name_ne|by intros ?%tmp_name_inj].
  - intros g Hg Hne. destruct (session_file_facts g Hg) as [Hgp (x & Hx & Hxd)]. apply A3; [done|done|].
    apply not_eq_sym. by eapply tmp_name_ne.
Qed.

(** What is on disk is the client's session. *)
Definition persisted (w : W) (c : MapClient) : Prop :=
  state_dir c = d /\ tidy_state w /\ seq_of w = last_seq (netmap c) /\ handle_of w = session_handle (netmap c).

Lemma seq_handle_apart : LAST_SEQ_FILE <> SESSION_HANDLE_FILE.
Proof. discriminate. Qed.

Lemma handle_frame_persisted ka r c w w' c' ev :
  persisted w c -> clean (mr_handle r) -> mr_seq r < 2 ^ 63 -> 0 <= last_seq (netmap c) < 2 ^ 63 ->
  handle_frame pid p6 keys (ka, r) c w = (w', (c', Ok ev)) ->
  persisted w' c' /\ last_seq (netmap c) <= last_seq (netmap c') < 2 ^ 63.
Proof.
  intros (Hdir & Ht & Hs & Hh) [Hu Htr] Hseq Hold. unfold handle_frame. destruct ka; [intros [= <- <- <-]; split; [done|lia]|].
  destruct (apply_session p6 keys (netmap c) r) as (A1 & A2 & A3).
  destruct (apply p6 keys (netmap c) r) as [nm delta]. cbn [fst snd] in A1, A2, A3. cbn [set_netmap state_dir]. rewrite Hdir, A2.
  assert (Hrange : last_seq (netmap c) <= last_seq nm < 2 ^ 63).
  { rewrite A1. destruct (Z.ltb_spec (last_seq (netmap c)) (mr_seq r)); lia. }
  destruct (if 0 <? last_seq nm then persist_last_seq pid d (last_seq nm) w else (w, Ok tt)) as [w1 r1] eqn:E1.
  destruct r1 as [[]|]; [|done].
  assert (H1 : tidy_state w1 /\ seq_of w1 = last_seq nm /\ handle_of w1 = handle_of w).
  { destruct (Z.ltb_spec 0 (last_seq nm)) as [Hpos|Hpos].
    - apply persist_spec in E1 as (P1 & P2 & P3); [|set_solver|done]. split_and!; [done| |].
      + unfold seq_of. rewrite P1. destruct (i64_roundtrip (last_seq nm)) as [-> ->]; [clear -Hpos Hrange; lia|]. done.
      + unfold handle_of. rewrite P3; [done|set_solver|discriminate].
    - injection E1 as <-. split_and!; [done|lia|done]. }
  destruct H1 as (Ht1 & Hs1 & Hh1).
  destruct (if negb _ && negb _ then persist_session_handle pid d (session_handle nm) w1 else (w1, Ok tt)) as [w2 r2] eqn:E2.
  destruct r2 as [[]|]; [|done]. intros [= <- <- <-]. cbn [set_netmap netmap state_dir]. split; [|done]. unfold persisted. cbn [set_netmap netmap state_dir].
  split; [done|]. destruct (negb (bool_decide (session_handle nm = [])) && negb (bool_decide (session_handle nm = session_handle (netmap c)))) eqn:Ec.
  - apply andb_true_iff in Ec as [_ Ec]. apply negb_true_iff, bool_decide_eq_false in Ec.
    apply persist_spec in E2 as (P1 & P2 & P3); [|set_solver|done]. split_and!; [done| |].
    + rewrite <- Hs1. unfold seq_of. rewrite P3; [done|set_solver|discriminate].
    + unfold handle_of. rewrite P1. destruct (is_empty (mr_handle r)); [congruence|]. by rewrite A3, Hu, Htr.
  - injection E2 as <-. split_and!; [done|done|]. rewrite Hh1, Hh. apply andb_false_iff in Ec as [Ec|Ec]; apply negb_false_iff, bool_decide_eq_true in Ec; [|done].
    rewrite Ec in A3 |- *. destruct (mr_handle r); cbn [is_empty] in A3; congruence.
Qed.

(** [next_event] keeps it too, whatever comes, as long as it does not fail. *)
Lemma next_event_persisted json unzstd now after es c w w' c' ev es' :
  (forall b ka r, json b = Some (ka, r) -> clean (mr_handle r) /\ mr_seq r < 2 ^ 63) ->
  persisted w c -> 0 <= last_seq (netmap c) < 2 ^ 63 ->
  next_event pid json unzstd p6 keys now after es c w = (w', (c', Ok ev), es') ->
  persisted w' c' /\ last_seq (netmap c) <= last_seq (netmap c') < 2 ^ 63.
Proof.
  intros Hj Hp Hl. unfold next_event. destruct (_ <=? now); [done|].
  destruct (next_frame (R := Response) json unzstd es (framer c)) as [[f r] es1] eqn:En. destruct r as [[[ka resp]| |]|]; try done.
  - intros [E _]%pair_equal_spec. apply next_frame_json in En as [b Hb]. destruct (Hj _ _ _ Hb) as [Hc Hs].
    by eapply (handle_frame_persisted ka resp (set_framer f after c)) in E.
  - intros [= <- <- <- <-]. split; [exact Hp|]. cbn [set_framer netmap]. lia.
Qed.

Lemma drive_persisted json unzstd calls :
  (forall b ka r, json b = Some (ka, r) -> clean (mr_handle r) /\ mr_seq r < 2 ^ 63) -> forall c w w' c',
  persisted w c -> 0 <= last_seq (netmap c) < 2 ^ 63 -> drive pid json unzstd p6 keys calls c w = Some (w', c') ->
  persisted w' c' /\ last_seq (netmap c) <= last_seq (netmap c') < 2 ^ 63.
Proof.
  intros Hj. induction calls as [|[[now after] es] calls IH]; intros c w w' c' Hp Hl; cbn [drive].
  - intros [= <- <-]. split; [done|lia].
  - destruct (next_event pid json unzstd p6 keys now after es c w) as [[w1 [c1 r]] es1] eqn:E. destruct r as [ev|]; [|done].
    apply next_event_persisted in E as [Hp1 Hl1]; [|done..]. intros E. destruct (IH c1 w1 w' c' Hp1 ltac:(lia) E) as [Hp2 Hl2].
    split; [done|lia].
Qed.
End Resume.

(** ** The watchdog *)

Lemma handle_frame_error {W} `{Fs W} pid p6 keys resp c (w w' : W) c' e :
  handle_frame pid p6 keys resp c w = (w', (c', Err e)) -> e = Io OtherError.
Proof.
  destruct resp as [[] r]; unfold handle_frame; [done|]. destruct (apply p6 keys (netmap c) r) as [nm delta].
  destruct (0 <? delta_seq delta).
  - destruct (persist_last_seq _ _ _ w) as [w1 [[]|e1]] eqn:E1; [|apply atomic_write_error in E1; intros [= _ _ <-]; exact E1].
    destruct (negb _ && negb _); [|done].
    destruct (persist_session_handle _ _ _ w1) as [w2 [[]|e2]] eqn:E2; [done|]. apply atomic_write_error in E2. intros [= _ _ <-]. exact E2.
  - destruct (negb _ && negb _); [|done].
    destruct (persist_session_handle _ _ _ w) as [w2 [[]|e2]] eqn:E2; [done|]. apply atomic_write_error in E2. intros [= _ _ <-]. exact E2.
Qed.

Lemma handle_frame_at {W} `{Fs W} pid p6 keys resp c (w : W) : last_frame_at (handle_frame pid p6 keys resp c w).2.1 = last_frame_at c.
Proof.
  destruct resp as [[] r]; unfold handle_frame; [done|]. destruct (apply p6 keys (netmap c) r) as [nm delta].
  destruct (if 0 <? delta_seq delta then _ else _) as [w1 [[]|]]; [|done]. by destruct (if negb _ && negb _ then _ else _) as [w2 [[]|]].
Qed.

(** The reader never reports the watchdog. *)
Definition not_watchdog {A} (r : result ControlError A) : Prop := forall s, r <> Err (MapWatchdog s).

Lemma drain_not_watchdog f : not_watchdog (drain_decompressor f).2.
Proof. unfold drain_decompressor. destruct (worker f); [|done]. by destruct (drain_into _ _) as [[q out] []]. Qed.

Lemma extract_not_watchdog {R} (json : list Z -> option R) unzstd f : not_watchdog (try_extract json unzstd f).2.
Proof.
  unfold try_extract. destruct (buffer f) as [|? [|? [|? [|? rest]]]]; try done. do 2 (case_decide; [done|]). by destruct (decode_body _ _ _ _).
Qed.

Lemma next_frame_not_watchdog {R} (json : list Z -> option R) unzstd es : forall f, not_watchdog (next_frame json unzstd es f).1.2.
Proof.
  assert (Hx : forall g, not_watchdog (drain_decompressor g).2) by apply drain_not_watchdog.
  assert (Hy : forall g, not_watchdog (try_extract json unzstd g).2) by (intros g; apply extract_not_watchdog).
  assert (Hstep : forall A B (p : A) e (q : B), (forall s, e <> MapWatchdog s) -> not_watchdog ((p, Err e : result ControlError (FrameOutcome R), q).1.2)).
  { intros A B p e q He s [= ->]. by apply (He s). }
  induction es as [|e es IH]; intros f; cbn [next_frame]; pose proof (Hx f) as H1;
    destruct (drain_decompressor f) as [f1 [[]|e1]]; try (apply Hstep; intros s ->; by apply (H1 s));
    pose proof (Hy f1) as H2; destruct (try_extract json unzstd f1) as [f2 [[x|]|e2]]; try (apply Hstep; intros s ->; by apply (H2 s)); try done.
  destruct e as [c| | | |g|]; try done; try apply IH.
  - unfold feed, gz_feed. destruct (worker f2) as [g|]; [destruct (negb (sender g) || ended g)|]; [done|apply IH..].
  - pose proof (Hx (work close_input f2)) as H3. destruct (drain_decompressor (work close_input f2)) as [f3 [[]|e3]]; [|apply Hstep; intros s ->; by apply (H3 s)].
    pose proof (Hy f3) as H4. destruct (try_extract json unzstd f3) as [f4 [[x|]|e4]]; [done|done|]. apply Hstep. intros s ->. by apply (H4 s).
Qed.

(** Calls of [next_event] that all answer [Idle]. *)
Fixpoint idle_calls {W} `{Fs W} (pid : Z) (json : list Z -> option Response) (unzstd : list Z -> option (list Z))
    (p6 : list Z -> option SocketAddr) (keys : gmap (list Z) PeerSnapshot -> list (list Z))
    (calls : list (Z * Z * list Wake)) (c : MapClient) (w : W) : option (W * MapClient) :=
  match calls with
  | [] => Some (w, c)
  | (now, after, es) :: calls =>
      match next_event pid json unzstd p6 keys now after es c w with
      | (w, (c, Ok Idle), _) => idle_calls pid json unzstd p6 keys calls c w
      | _ => None
      end
  end.

Lemma next_event_idle {W} `{Fs W} pid json unzstd p6 keys now after es c (w w' : W) c' es' :
  next_event pid json unzstd p6 keys now after es c w = (w', (c', Ok Idle), es') -> last_frame_at c' = last_frame_at c.
Proof.
  unfold next_event. destruct (_ <=? now); [done|]. destruct (next_frame (R := Response) json unzstd es (framer c)) as [[f r] es1].
  destruct r as [[[ka resp]| |]|]; try done; [|by intros [= _ <- _]].
  intros [E _]%pair_equal_spec. exfalso. revert E. destruct ka; cbn [handle_frame]; [done|].
  destruct (apply p6 keys _ resp) as [nm delta]. destruct (if 0 <? delta_seq delta then _ else _) as [w1 [[]|]]; [|done].
  by destruct (if negb _ && negb _ then _ else _) as [w2 [[]|]].
Qed.

Lemma idle_calls_at {W} `{Fs W} pid json unzstd p6 keys calls : forall c (w w' : W) c',
  idle_calls pid json unzstd p6 keys calls c w = Some (w', c') -> last_frame_at c' = last_frame_at c.
Proof.
  induction calls as [|[[now after] es] calls IH]; intros c w w' c'; cbn [idle_calls]; [by intros [= _ <-]|].
  destruct (next_event pid json unzstd p6 keys now after es c w) as [[w1 [c1 [[| |]|]]] es1] eqn:E; try done.
  intros E2. rewrite (IH _ _ _ _ E2). by eapply next_event_idle.
Qed.

(** ** Endpoints *)

Lemma merge_spec extra : forall eps tys, length eps = length tys -> NoDup eps ->
  let '(eps', tys') := merge_endpoints eps tys extra in
  length eps' = length tys' /\ NoDup eps' /\ eps `prefix_of` eps' /\ tys `prefix_of` tys' /\
  (forall e, e ∈ eps' <-> e ∈ eps \/ e ∈ extra) /\ tys' = tys ++ repeat 2 (length eps' - length eps).
Proof.
  unfold merge_endpoints. induction extra as [|x extra IH]; intros eps tys Hl Hn; cbn [foldl].
  { split_and!; try done; [set_solver|]. rewrite Nat.sub_diag. cbn [repeat]. by rewrite app_nil_r. }
  case_decide as Hx.
  - specialize (IH eps tys Hl Hn). destruct (foldl _ _ extra) as [eps' tys']. destruct IH as (I1 & I2 & I3 & I4 & I5 & I6).
    split_and!; try done. intros e. rewrite I5. set_solver.
  - specialize (IH (eps ++ [x]) (tys ++ [2])). destruct (foldl _ _ extra) as [eps' tys'].
    destruct IH as (I1 & I2 & I3 & I4 & I5 & I6); [rewrite !length_app; cbn; lia|apply list.NoDup_app; split_and!; [done|set_solver|apply NoDup_singleton]|].
    split_and!; try done; [by eapply prefix_app_l|by eapply prefix_app_l|intros e; rewrite I5; set_solver|].
    rewrite I6, <- app_assoc. f_equal. apply prefix_length in I3. rewrite length_app in *. cbn [length] in *.
    replace (length eps' - length eps)%nat with (S (length eps' - (length eps + 1)))%nat by lia. done.
Qed.

(** * Theorems *)

(** C27: framing.  Whatever way the response body arrives — in chunks cut anywhere,
    with timeouts in between, and in gzip mode through the channel of the gzip
    thread, which reads what it likes of it and hands over any part of what the
    bytes it has read mean to [gunzip] (a function whose result only grows with
    its input) — as long as no call fails and the server wrote whole frames that
    can be decoded: what has come through to the framer is the first [n] frames
    and the beginning of another; the calls return responses of the frames the
    server wrote, in order, none twice and none invented, and enough calls (one
    per frame and per timeout) return exactly those [n]; if the body ends then,
    they return the same and then report the end; without gzip everything that
    was sent has come through, and with it the thread can always catch up, to
    the same effect — but what it has not handed over when the body ends is not
    among the [n]. *)
Theorem map_frames_in_order {R : Type} (json : list Z -> option R) (unzstd : list Z -> option (list Z)) (gunzip : list Z -> list Z)
    (c : Compression) (es : list Wake) (bodies : list (list Z)) (rs : list R) (rest : list Z) :
  (forall a b, gunzip a `prefix_of` gunzip (a ++ b)) ->
  Forall (fun b => (length b <= MAX_FRAME_SIZE)%nat) bodies -> map (decode_body json unzstd c) bodies = map Some rs ->
  Forall benign es -> decodes gunzip es gz_new ->
  text gunzip c (sent es ++ rest) = frames_wire bodies ->
  (exists n part, (n <= length bodies)%nat /\ arrived c es = frames_wire (take n bodies) ++ part /\ torn part /\
     (forall k, (frames_of json unzstd k es (framer_new c)).1 `prefix_of` take n rs) /\
     (forall k, (n + pauses es <= k)%nat -> frames_of json unzstd k es (framer_new c) = (take n rs, false)) /\
     (forall k m, (n + pauses es < k)%nat -> (0 < m)%nat ->
        frames_of json unzstd k (es ++ repeat ChunkEof m) (framer_new c) = (take n rs, true))) /\
  (c <> Gzip -> arrived c es = sent es) /\
  (c = Gzip -> exists more, Forall (fun e => exists s, e = Gz s) more /\ Forall benign more /\ decodes gunzip (es ++ more) gz_new /\
     arrived c (es ++ more) = gunzip (sent es)).
Proof.
  intros Hg Hb Hd He Hdec E.
  assert (Hplain : c <> Gzip -> arrived c es = sent es).
  { intros Hc. unfold arrived, sent. rewrite bool_decide_false by done. clear. induction es as [|[] es IH]; cbn; rewrite ?IH; try done.
    by destruct s. }
  split; [|split; [done|intros ->; by apply worker_catches_up]].
  assert (Hpre : arrived c es `prefix_of` frames_wire bodies).
  { rewrite <- E. unfold text. case_decide as Hc; [subst c|by rewrite Hplain; [eexists|]].
    destruct (worker_run gunzip es Hg gz_new He) as (_ & R2 & R3 & R4); [done|cbn; apply prefix_nil|done|]. cbn [handed gz_new app] in R3.
    rewrite <- R3. etransitivity; [exact R4|]. cbn in R2. rewrite <- R2. unfold pending. rewrite <- app_assoc. apply Hg. }
  destruct (split_frames bodies Hb _ Hpre) as (n & part & Hn & Ea & Ht). exists n, part.
  assert (Hlen : length rs = length bodies) by (apply (f_equal length) in Hd; by rewrite !length_map in Hd).
  assert (Hf : forall m, feeds json unzstd m (framer_new c) (es ++ repeat ChunkEof m) (take n rs) part).
  { intros m. assert (Hz : forall b, concat (map (brings b) (repeat ChunkEof m)) = []) by (intros b; clear; by induction m).
    split; [destruct c; [done|split; [apply not_elem_of_nil|done]|done]|]. split; [by exists es|]. split; [done|].
    exists (take n bodies). split_and!; [by apply Forall_take| |].
    - destruct c; cbn [compression framer_new]; rewrite <- !firstn_map; by rewrite Hd.
    - rewrite <- Ea, map_app, concat_app, Hz, app_nil_r. by destruct c. }
  assert (Hp : forall m, pauses (es ++ repeat ChunkEof m) = pauses es).
  { intros m. unfold pauses. rewrite List.filter_app, length_app. assert (Hz : List.filter (fun e => match e with ChunkTimeout | Late => true | _ => false end) (repeat ChunkEof m) = []) by (clear; by induction m). rewrite Hz. cbn. lia. }
  assert (Hl : length (take n rs) = n) by (rewrite length_take; lia).
  split_and!; try done.
  - intros k. specialize (Hf 0%nat). cbn [repeat] in Hf. rewrite app_nil_r in Hf. by eapply frames_prefix.
  - intros k Hk. specialize (Hf 0%nat). cbn [repeat] in Hf. rewrite app_nil_r in Hf. rewrite (frames_all _ _ 0 k _ _ _ _ Hf); [done|]. rewrite Hl. lia.
  - intros k m Hk Hm. rewrite (frames_all _ _ m k _ _ _ _ (Hf m)); [by rewrite bool_decide_true by lia|]. rewrite Hl, Hp. lia.
Qed.

(** the watchdog.  After any number of calls that found nothing, the next call
    fails with the watchdog error exactly when 60 seconds have passed since the last
    frame, leaving the client as it was; before that no error is the watchdog's, and
    the call waits no longer than asked and not past the 60 seconds. *)
Theorem map_watchdog_bound {W} `{Fs W} (pid : Z) json unzstd p6 keys calls (c c1 : MapClient) (w w1 : W) (now after : Z) (es : list Wake) :
  idle_calls pid json unzstd p6 keys calls c w = Some (w1, c1) ->
  (last_frame_at c + WATCHDOG <= now -> next_event pid json unzstd p6 keys now after es c1 w1 = (w1, (c1, Err (MapWatchdog 60)), es)) /\
  (now < last_frame_at c + WATCHDOG ->
     not_watchdog (next_event pid json unzstd p6 keys now after es c1 w1).1.2.2 /\
     forall timeout, 0 < timeout -> 0 < effective_timeout now timeout c1 <= timeout /\
                     now + effective_timeout now timeout c1 <= last_frame_at c + WATCHDOG).
Proof.
  intros Hi. apply idle_calls_at in Hi. split.
  - intros Hlate. unfold next_event. by rewrite Hi, (proj2 (Z.leb_le _ _)).
  - intros Hin. split; [|intros t Ht; unfold effective_timeout; rewrite Hi; lia].
    unfold next_event. rewrite Hi, (proj2 (Z.leb_gt _ _)) by done.
    pose proof (next_frame_not_watchdog (R := Response) json unzstd es (framer c1)) as Hn.
    destruct (next_frame (R := Response) json unzstd es (framer c1)) as [[f r] es1]. destruct r as [[resp| |]|e]; [|done..|].
    + cbn [fst snd]. destruct (handle_frame _ _ _ resp _ w1) as [w2 [c2 [ev|e]]] eqn:E; [done|].
      apply handle_frame_error in E as ->. done.
    + cbn [fst snd] in Hn |- *. intros s [= ->]. by apply (Hn s).
Qed.

(** resuming.  A client that starts from a state directory and handles events
    without an error keeps the sequence number and the session handle on disk: a
    later start sends exactly what this client would send in a reissue, and the
    sequence number never goes back. *)
Theorem map_session_resumes {W} {d : list Z} `{FsLaws W d} (pid : Z) json unzstd p6 keys
    head now node disco host log_id eps tys port (w w' : W) rq (c c' : MapClient) calls :
  tidy d -> 0 <= pid ->
  (forall b ka r, json b = Some (ka, r) -> clean (mr_handle r) /\ mr_seq r < 2 ^ 63) ->
  tidy_state (d := d) pid w -> readable (d := d) w -> 0 <= seq_of (d := d) w < 2 ^ 63 ->
  start head now node disco host log_id d eps tys port w = Val (rq, Ok c) ->
  drive pid json unzstd p6 keys calls c w = Some (w', c') ->
  readable (d := d) w' ->
  last_seq (netmap c) <= last_seq (netmap c') /\
  (forall head2 now2 node2 disco2 host2 log2 eps2 tys2 port2 rq2 r2,
     start head2 now2 node2 disco2 host2 log2 d eps2 tys2 port2 w' = Val (rq2, r2) ->
     exists q, rq2 = Some q /\ map_session_seq q = last_seq (netmap c') /\ map_session_handle q = session_handle (netmap c')) /\
  (forall head3 now3 q r3, reissue head3 now3 c' = Val (q, r3) ->
     map_session_seq q = last_seq (netmap c') /\ map_session_handle q = session_handle (netmap c')).
Proof.
  intros Hd Hpid Hj Ht Hr Hseq Hstart Hdrive Hr'.
  assert (Hp : persisted (d := d) pid w c /\ last_seq (netmap c) = seq_of (d := d) w).
  { revert Hstart. unfold start. rewrite load_session by done. destruct (short_handle _); try done. cbn [mbind outcome_bind].
    intros [= _ E]. destruct head as [[status headers]|]; [|done]. destruct (negb _); [done|]. injection E as <-. done. }
  destruct Hp as [Hp El]. eapply drive_persisted in Hdrive as [(_ & _ & Hs & Hh) Hl]; [|done..|lia].
  split_and!; [lia| |].
  - intros head2 now2 node2 disco2 host2 log2 eps2 tys2 port2 rq2 r2. unfold start. rewrite load_session, Hs, Hh by done.
    destruct (short_handle _); try done. cbn [mbind outcome_bind]. intros [= <- _]. by eexists.
  - intros head3 now3 q r3. unfold reissue. destruct (short_handle _); try done. cbn [mbind outcome_bind]. by intros [= <- _].
Qed.

(** endpoints and their types stay paired.  The lite update sends the client's
    endpoints followed by the new reflected ones, once each, with one type per
    endpoint, those added having the type of a reflected address; the list is left
    out only when there is none. *)
Theorem endpoints_stay_paired {F : Type} (resp : result ControlError Z) (derp : Z) (lat : list (list Z * F)) (extra : list (list Z)) (c : MapClient) :
  length (local_endpoints c) = length (local_endpoint_types c) -> NoDup (local_endpoints c) ->
  match nq_endpoints (send_netinfo_update resp derp lat extra c).1 with
  | Some (eps, tys) =>
      length eps = length tys /\ NoDup eps /\ eps <> [] /\
      local_endpoints c `prefix_of` eps /\ tys = local_endpoint_types c ++ repeat 2 (length eps - length (local_endpoints c)) /\
      forall e, e ∈ eps <-> e ∈ local_endpoints c \/ e ∈ extra
  | None => local_endpoints c = [] /\ extra = []
  end.
Proof.
  intros Hl Hn. unfold send_netinfo_update. pose proof (merge_spec extra _ _ Hl Hn) as Hm.
  destruct (merge_endpoints _ _ extra) as [eps tys]. destruct Hm as (M1 & M2 & M3 & M4 & M5 & M6). cbn [fst nq_endpoints].
  destruct eps as [|e0 eps]; cbn [is_empty].
  - split; [destruct M3 as [t Ht]; by destruct (local_endpoints c)|]. destruct extra as [|x extra]; [done|].
    exfalso. apply (not_elem_of_nil x), M5. right. apply elem_of_cons. by left.
  - split_and!; done.
Qed.

(** A handle whose eighth byte falls inside a character stops the client from
    starting, on every later start too; and a frame the gzip worker has still to
    hand over when the body ends is lost. *)
Theorem map_client_pitfalls :
  short_handle (bs "1234567" ++ [195; 169]) = Panicked /\
  (forall (json : list Z -> option nat) unzstd body,
     (next_frame json unzstd [ChunkEof; Gz (GzOut (frame_wire body)); Gz GzEnd] (framer_new Gzip)).1.2 = Ok Eof).
Proof. split; [vm_compute; reflexivity|done]. Qed.

(** ** Samples *)

(** A parser that reads a response of one byte: its sequence number. *)
Definition toy_json (b : list Z) : option Response :=
  match b with
  | [z] => Some (false, mkMapResponse (bs "h-1") (Z.min (Z.abs z) 255) None None None None None None [] [] PfMissing)
  | _ => None
  end.

Definition toy_response (z : Z) : Response := (false, mkMapResponse (bs "h-1") z None None None None None None [] [] PfMissing).
(** A format with one byte before the text. *)
Definition toy_gunzip (b : list Z) : list Z := tail b.
Lemma toy_gunzip_grows a b : toy_gunzip a `prefix_of` toy_gunzip (a ++ b).
Proof. destruct a as [|x a]; [apply prefix_nil|]. cbn. by exists b. Qed.

(** Two frames in two chunks of a gzip stream; the thread reads across them and
    has handed over the first frame when the body ends. *)
Definition toy_gzip_run : list Wake :=
  [Chunk [31; 1; 0; 0]; ChunkTimeout; Gz (GzRead 3); Gz (GzOut [1; 0]); Chunk [0; 5; 1; 0; 0; 0; 6]; Gz (GzRead 9); Gz (GzRead 9); Late; Gz (GzOut [0; 0; 5; 1])].

Lemma map_frames_in_order_witness :
  frames_of toy_json Some 2 [Chunk [1; 0; 0]; ChunkTimeout; Chunk [0; 5; 1; 0]] (framer_new Zstd) = ([toy_response 5], false) /\
  frames_of toy_json Some 5 (toy_gzip_run ++ repeat ChunkEof 1) (framer_new Gzip) = ([toy_response 5], true).
Proof.
  assert (Hlen : forall b : list Z, (length b <= 1)%nat -> (length b <= MAX_FRAME_SIZE)%nat) by (pose proof max_frame_val; lia).
  assert (Hb : Forall (fun b : list Z => (length b <= MAX_FRAME_SIZE)%nat) [[5]; [6]]) by (repeat constructor; apply Hlen; done).
  assert (Hn : forall n part, (n <= 2)%nat -> torn part -> [1; 0; 0; 0; 5; 1; 0] = frames_wire (take n [[5]; [6]]) ++ part \/ [1; 0; 0; 0; 5; 1] = frames_wire (take n [[5]; [6]]) ++ part -> n = 1%nat).
  { intros n part Hle (body & rest & Hl & Hr & Ht) Hp. destruct n as [|[|[|n]]]; [|done| |lia]; exfalso.
    - assert (Hp5 : exists t, part = 1 :: 0 :: 0 :: 0 :: 5 :: t) by (destruct Hp as [Hp|Hp]; cbn in Hp; subst part; eauto). destruct Hp5 as [t ->].
      destruct (frame_header body Hl) as (a & b & c & d & E & El). rewrite E in Ht. cbn [app] in Ht. injection Ht as <- <- <- <- Ht.
      assert (E1 : length body = 1%nat) by (rewrite <- El; reflexivity). rewrite <- Ht in E1. cbn [length] in E1. rewrite length_app in E1. destruct rest; [done|cbn in E1; lia].
    - destruct Hp as [Hp|Hp]; vm_compute in Hp; discriminate Hp. }
  split.
  - destruct (map_frames_in_order toy_json Some toy_gunzip Zstd [Chunk [1; 0; 0]; ChunkTimeout; Chunk [0; 5; 1; 0]] [[5]; [6]] [toy_response 5; toy_response 6] [0; 0; 6])
      as [(n & part & Hle & Ea & Ht & _ & H2 & _) _]; [apply toy_gunzip_grows|exact Hb|reflexivity|repeat constructor|cbn; done|vm_compute; reflexivity|].
    assert (n = 1%nat) as -> by (apply (Hn n part Hle Ht); left; exact Ea). apply H2. vm_compute. lia.
  - destruct (map_frames_in_order toy_json Some toy_gunzip Gzip toy_gzip_run [[5]; [6]] [toy_response 5; toy_response 6] [])
      as [(n & part & Hle & Ea & Ht & _ & _ & H3) _]; [apply toy_gunzip_grows|exact Hb|reflexivity|repeat constructor| |vm_compute; reflexivity|].
    + cbn. split_and!; try exact I; [exists []; reflexivity|exists [0; 0; 0; 6]; reflexivity].
    + assert (n = 1%nat) as -> by (apply (Hn n part Hle Ht); right; exact Ea). apply H3; vm_compute; lia.
Defined.

(** A client started on a blank card at time 0. *)
Definition blank_card : Toy.Kernel := Toy.mkKernel ∅ [] [] ∅ [].
Definition no_p6 (_ : list Z) : option SocketAddr := None.
Definition no_keys (_ : gmap (list Z) PeerSnapshot) : list (list Z) := [].
Definition toy_start (k : Toy.Kernel) : outcome (option MapRequestWire * result ControlError MapClient) :=
  start (Ok (200, [])) 0 (repeat 1 32) (repeat 2 32) (bs "vita") (bs "log") toy_dir [] [] None k.
Definition toy_client : MapClient :=
  mkClient (repeat 1 32) (repeat 2 32) (bs "vita") (bs "log") toy_dir NetMap_default (framer_new Zstd) 0 [] [] None.

Lemma map_watchdog_bound_witness :
  (next_event 9 toy_json Some no_p6 no_keys (60 * 10 ^ 9) 0 [Chunk [1]] toy_client blank_card).1.2.2 = Err (MapWatchdog 60) /\
  not_watchdog (next_event 9 toy_json Some no_p6 no_keys (60 * 10 ^ 9 - 1) 0 [ChunkErr] toy_client blank_card).1.2.2.
Proof.
  destruct (map_watchdog_bound 9 toy_json Some no_p6 no_keys [(0, 0, [ChunkTimeout]); (5, 5, [])] toy_client toy_client blank_card blank_card
              (60 * 10 ^ 9) 0 [Chunk [1]]) as [E _]; [reflexivity|].
  destruct (map_watchdog_bound 9 toy_json Some no_p6 no_keys [] toy_client toy_client blank_card blank_card
              (60 * 10 ^ 9 - 1) 0 [ChunkErr]) as [_ F]; [reflexivity|].
  split; [rewrite E; [reflexivity|unfold WATCHDOG, toy_client; cbn; lia]|apply F; unfold WATCHDOG, toy_client; cbn; lia].
Defined.

Definition toy_calls : list (Z * Z * list Wake) := [(1, 1, [Chunk [1; 0; 0; 0; 77]])].

Lemma map_session_resumes_witness :
  exists w' c', drive 9 toy_json Some no_p6 no_keys toy_calls toy_client blank_card = Some (w', c') /\
    last_seq (netmap c') = 77 /\
    forall rq2 r2, toy_start w' = Val (rq2, r2) ->
      exists q, rq2 = Some q /\ map_session_seq q = last_seq (netmap c') /\ map_session_handle q = session_handle (netmap c').
Proof.
  destruct (drive 9 toy_json Some no_p6 no_keys toy_calls toy_client blank_card) as [[w' c']|] eqn:E.
  2:{ exfalso. assert (Hn : is_Some (drive 9 toy_json Some no_p6 no_keys toy_calls toy_client blank_card)) by (apply (bool_decide_unpack _); vm_compute; exact I).
      rewrite E in Hn. destruct Hn as [x Hx]. discriminate Hx. }
  assert (Ex : (fun x : Toy.Kernel * MapClient => (last_seq (netmap x.2), map (fs_read x.1) (map (join toy_dir) session_files))) <$>
                 drive 9 toy_json Some no_p6 no_keys toy_calls toy_client blank_card =
               Some (77, [Ok (i64_bytes 77); Ok (bs "h-1")])) by (vm_compute; reflexivity).
  rewrite E in Ex. cbn [fmap option_fmap option_map fst snd map] in Ex. injection Ex as E1 E2 E3.
  exists w', c'. split; [reflexivity|]. split; [exact E1|]. intros rq2 r2.
  refine (proj1 (proj2 (map_session_resumes (d := toy_dir) 9 toy_json Some no_p6 no_keys (Ok (200, [])) 0 (repeat 1 32) (repeat 2 32)
            (bs "vita") (bs "log") [] [] None blank_card w' (Some (build_map_request (repeat 1 32) (repeat 2 32) (bs "vita") (bs "log") 0 [] [] [] None))
            toy_client c' toy_calls _ _ _ _ _ _ _ _ _)) _ _ _ _ _ _ _ _ _ rq2 r2).
  - apply toy_tidy.
  - lia.
  - intros b ka r. unfold toy_json. destruct b as [|z [|]]; [intros E0; discriminate E0| |intros E0; discriminate E0]. intros E0; injection E0 as <- <-. cbn [mr_handle mr_seq].
    split; [split; vm_compute; reflexivity|lia].
  - intros f. unfold session_files. rewrite !elem_of_cons, elem_of_nil. intros [->|[->|[]]]; vm_compute; reflexivity.
  - intros f. unfold session_files. rewrite !elem_of_cons, elem_of_nil. intros [->|[->|[]]]; vm_compute; discriminate.
  - replace (seq_of (d := toy_dir) blank_card) with 0 by (vm_compute; reflexivity). lia.
  - vm_compute. reflexivity.
  - exact E.
  - intros f. unfold session_files. rewrite !elem_of_cons, elem_of_nil.
    intros [->|[->|[]]] Hx; [discriminate (eq_trans (eq_sym E2) Hx)|discriminate (eq_trans (eq_sym E3) Hx)].
Defined.

Lemma endpoints_stay_paired_witness :
  let c := set_local_endpoints [bs "192.168.1.2:41641"] [1] toy_client in
  match nq_endpoints (send_netinfo_update (Ok 200) 3 [(bs "3-v4", tt)] [bs "1.2.3.4:5"; bs "192.168.1.2:41641"] c).1 with
  | Some (eps, tys) => length eps = length tys /\ NoDup eps
  | None => False
  end.
Proof.
  pose proof (endpoints_stay_paired (Ok 200) 3 [(bs "3-v4", tt)] [bs "1.2.3.4:5"; bs "192.168.1.2:41641"]
                (set_local_endpoints [bs "192.168.1.2:41641"] [1] toy_client) eq_refl (NoDup_singleton _)) as P.
  cbv zeta. destruct (nq_endpoints _) as [[eps tys]|]; [split; apply P|destruct P as [_ P]; discriminate P].
Defined.
