(* ===== verification/Chan.v ===== *)
(** The channels of vita-chan ([lib.rs]): a mutex-protected queue, two condition
    variables, two atomic handle counters, used by several threads at once.

    A thread is a program counter inside one of the channel's functions and the
    handles it owns; every atomic action of the code (taking the lock, an atomic
    load, the critical section's update and unlock, the atomic unlock-and-sleep
    of a condition variable, a notification) is one step.  [Mutex] and [Condvar]
    are those of vita-sync: a wake-up may be spurious, [notify_one] wakes one
    waiter if there is one.  Clock time is abstracted to the question whether a
    timed wait's budget is used up. *)

From S2P Require Import Prelude.

(** [send]/[recv] block, [try_*] never sleep, [*_timeout] have a budget;
    [MTimed true] when nothing of it remains. *)
Inductive mode : Type := MBlock | MTry | MTimed (zero : bool).

Section Chan.
Context {A : Type}.

Inductive pc : Type :=
| Idle
| SLock (m : mode) (v : A)       (** before [queue.lock()] *)
| STop (m : mode) (v : A)        (** top of the loop, lock held *)
| SRoom (m : mode) (v : A)       (** a receiver was alive, lock held *)
| SWait (m : mode) (v : A)       (** asleep on [not_full] *)
| SRelock (m : mode) (v : A)     (** woken, before the lock is taken again *)
| SNotify                        (** pushed and unlocked, before [not_empty.notify_one()] *)
| RLock (m : mode)
| RTop (m : mode)                (** before [pop_front], lock held *)
| REmpty (m : mode)              (** the queue was empty, lock held *)
| RSleep (m : mode)              (** a sender was alive, lock held *)
| RWait (m : mode)               (** asleep on [not_empty] *)
| RRelock (m : mode)
| RNotify (v : A)                (** popped [v] and unlocked, before [not_full.notify_one()] *)
| DropS                          (** last sender counted out, before [not_empty.notify_all()] *)
| DropR.

Record Thread : Type := mkThread { at_ : pc; my_senders : nat; my_receivers : nat }.

(** [Shared], with the lock's holder, the threads, and the values that went
    through the queue so far. *)
Record Chan : Type := mkChan {
  cap : option nat;
  queue : list A;
  sender_count : nat;
  receiver_count : nat;
  holder : option nat;
  threads : list Thread;
  pushed : list A;
  popped : list A
}.

(** What a call returns: [SendError], [TrySendError], [TryRecvError],
    [RecvTimeoutError] and the successes. *)
Inductive outcome_of : Type :=
| SentOk | SendDisconnected (v : A) | SendFull (v : A)
| Received (v : A) | RecvEmpty | RecvDisconnected | RecvTimeout.

Definition is_full (s : Chan) : bool :=
  match cap s with Some c => (c <=? length (queue s))%nat | None => false end.

(** [bounded] and [unbounded]; thread 0 holds both ends. *)
Definition new (c : option nat) (n : nat) : Chan :=
  mkChan c [] 1 1 None (mkThread Idle 1 1 :: replicate n (mkThread Idle 0 0)) [] [].
Definition bounded (c : nat) (n : nat) : Chan := new (Some (Nat.max c 1)) n.
Definition unbounded (n : nat) : Chan := new None n.

Inductive event : Type :=
| EStartSend (t : nat) (m : mode) (v : A)
| EStartRecv (t : nat) (m : mode)
| EStep (t : nat) (used_up : bool)
| EWake (t : nat) (w : option nat)
| EWakeAll (t : nat)
| ETimeout (w : nat)
| ESpurious (w : nat)
| ECloneS (t : nat) | ECloneR (t : nat)
| EDropS (t : nat) | EDropR (t : nat)
| EMoveS (t t' : nat) | EMoveR (t t' : nat).

(** ** Updates *)

Definition go (p : pc) (th : Thread) : Thread := mkThread p (my_senders th) (my_receivers th).
Definition put_thread (t : nat) (th : Thread) (s : Chan) : Chan :=
  mkChan (cap s) (queue s) (sender_count s) (receiver_count s) (holder s) (<[t := th]> (threads s)) (pushed s) (popped s).
Definition set_holder (h : option nat) (s : Chan) : Chan :=
  mkChan (cap s) (queue s) (sender_count s) (receiver_count s) h (threads s) (pushed s) (popped s).
Definition set_counts (ns nr : nat) (s : Chan) : Chan :=
  mkChan (cap s) (queue s) ns nr (holder s) (threads s) (pushed s) (popped s).
Definition push_back (v : A) (s : Chan) : Chan :=
  mkChan (cap s) (queue s ++ [v]) (sender_count s) (receiver_count s) (holder s) (threads s) (pushed s ++ [v]) (popped s).
Definition pop_front (v : A) (q : list A) (s : Chan) : Chan :=
  mkChan (cap s) q (sender_count s) (receiver_count s) (holder s) (threads s) (pushed s) (popped s ++ [v]).

Definition budget (used_up : bool) (m : mode) : mode :=
  match m with MTimed z => MTimed (z || used_up) | _ => m end.

Definition waits_recv (p : pc) : bool := match p with RWait _ => true | _ => false end.
Definition waits_send (p : pc) : bool := match p with SWait _ _ => true | _ => false end.

(** A woken thread contends for the lock. *)
Definition woken (p : pc) : pc :=
  match p with RWait m => RRelock m | SWait m v => SRelock m v | _ => p end.
Definition wake_all (waits : pc -> bool) (s : Chan) : Chan :=
  mkChan (cap s) (queue s) (sender_count s) (receiver_count s) (holder s)
    (map (fun th => if waits (at_ th) then go (woken (at_ th)) th else th) (threads s)) (pushed s) (popped s).

(** [notify_one]: the event names the thread it wakes, none only if none waits. *)
Definition wake_one (waits : pc -> bool) (w : option nat) (s : Chan) : option Chan :=
  match w with
  | Some w => th ← threads s !! w;
              if waits (at_ th) then Some (put_thread w (go (woken (at_ th)) th) s) else None
  | None => if existsb (fun th => waits (at_ th)) (threads s) then None else Some s
  end.

(** One action of a thread inside a call: next state and the call's result. *)
Definition advance (t : nat) (th : Thread) (used_up : bool) (s : Chan) : option (Chan * option outcome_of) :=
  let stay p s := put_thread t (go p th) s in
  let lock p := match holder s with None => Some (stay p (set_holder (Some t) s), None) | Some _ => None end in
  let unlock p s := stay p (set_holder None s) in
  match at_ th with
  | SLock m v => lock (STop m v)
  | SRelock m v => lock (STop (budget used_up m) v)
  | STop m v =>
      if (receiver_count s =? 0)%nat then Some (unlock Idle s, Some (SendDisconnected v))
      else Some (stay (SRoom m v) s, None)
  | SRoom m v =>
      if negb (is_full s) then Some (unlock SNotify (push_back v s), None)
      else match m with
           | MTry | MTimed true => Some (unlock Idle s, Some (SendFull v))
           | _ => Some (unlock (SWait m v) s, None)
           end
  | RLock m => lock (RTop m)
  | RRelock m => lock (RTop (budget used_up m))
  | RTop m =>
      match queue s with
      | v :: q => Some (unlock (RNotify v) (pop_front v q s), None)
      | [] => Some (stay (REmpty m) s, None)
      end
  | REmpty m =>
      if (sender_count s =? 0)%nat then Some (unlock Idle s, Some RecvDisconnected)
      else match m with
           | MTry => Some (unlock Idle s, Some RecvEmpty)
           | MTimed true => Some (unlock Idle s, Some RecvTimeout)
           | _ => Some (stay (RSleep m) s, None)
           end
  | RSleep m => Some (unlock (RWait m) s, None)
  | _ => None
  end.

Definition step (e : event) (s : Chan) : option (Chan * option outcome_of) :=
  match e with
  | EStartSend t m v =>
      th ← threads s !! t;
      match at_ th, my_senders th with
      | Idle, S _ => Some (put_thread t (go (SLock m v) th) s, None)
      | _, _ => None
      end
  | EStartRecv t m =>
      th ← threads s !! t;
      match at_ th, my_receivers th with
      | Idle, S _ => Some (put_thread t (go (RLock m) th) s, None)
      | _, _ => None
      end
  | EStep t b => th ← threads s !! t; advance t th b s
  | EWake t w =>
      th ← threads s !! t;
      match at_ th with
      | SNotify => s' ← wake_one waits_recv w (put_thread t (go Idle th) s); Some (s', Some SentOk)
      | RNotify v => s' ← wake_one waits_send w (put_thread t (go Idle th) s); Some (s', Some (Received v))
      | _ => None
      end
  | EWakeAll t =>
      th ← threads s !! t;
      match at_ th with
      | DropS => Some (wake_all waits_recv (put_thread t (go Idle th) s), None)
      | DropR => Some (wake_all waits_send (put_thread t (go Idle th) s), None)
      | _ => None
      end
  | ETimeout w =>
      th ← threads s !! w;
      match at_ th with
      | RWait (MTimed _) => Some (put_thread w (go (RRelock (MTimed true)) th) s, None)
      | SWait (MTimed _) v => Some (put_thread w (go (SRelock (MTimed true) v) th) s, None)
      | _ => None
      end
  | ESpurious w =>
      th ← threads s !! w;
      if waits_recv (at_ th) || waits_send (at_ th) then Some (put_thread w (go (woken (at_ th)) th) s, None)
      else None
  | ECloneS t =>
      th ← threads s !! t;
      match at_ th, my_senders th with
      | Idle, S n => Some (put_thread t (mkThread Idle (S (S n)) (my_receivers th))
                             (set_counts (S (sender_count s)) (receiver_count s) s), None)
      | _, _ => None
      end
  | ECloneR t =>
      th ← threads s !! t;
      match at_ th, my_receivers th with
      | Idle, S n => Some (put_thread t (mkThread Idle (my_senders th) (S (S n)))
                             (set_counts (sender_count s) (S (receiver_count s)) s), None)
      | _, _ => None
      end
  | EDropS t =>
      th ← threads s !! t;
      match at_ th, my_senders th with
      | Idle, S n => Some (put_thread t (mkThread (if (sender_count s =? 1)%nat then DropS else Idle) n (my_receivers th))
                             (set_counts (sender_count s - 1) (receiver_count s) s), None)
      | _, _ => None
      end
  | EDropR t =>
      th ← threads s !! t;
      match at_ th, my_receivers th with
      | Idle, S n => Some (put_thread t (mkThread (if (receiver_count s =? 1)%nat then DropR else Idle) (my_senders th) n)
                             (set_counts (sender_count s) (receiver_count s - 1) s), None)
      | _, _ => None
      end
  | EMoveS t t' =>
      th ← threads s !! t; th' ← threads s !! t';
      match at_ th, my_senders th with
      | Idle, S n =>
          if decide (t = t') then None
          else Some (put_thread t' (mkThread (at_ th') (S (my_senders th')) (my_receivers th'))
                       (put_thread t (mkThread Idle n (my_receivers th)) s), None)
      | _, _ => None
      end
  | EMoveR t t' =>
      th ← threads s !! t; th' ← threads s !! t';
      match at_ th, my_receivers th with
      | Idle, S n =>
          if decide (t = t') then None
          else Some (put_thread t' (mkThread (at_ th') (my_senders th') (S (my_receivers th')))
                       (put_thread t (mkThread Idle (my_senders th) n) s), None)
      | _, _ => None
      end
  end.

(** A run of the channel: any interleaving. *)
Inductive run : Chan -> list event -> Chan -> Prop :=
| run_nil s : run s [] s
| run_cons s e s1 o es s2 : step e s = Some (s1, o) -> run s1 es s2 -> run s (e :: es) s2.

Fixpoint exec (s : Chan) (es : list event) : option Chan :=
  match es with
  | [] => Some s
  | e :: es => '(s1, _) ← step e s; exec s1 es
  end.
End Chan.
#[global] Arguments pc : clear implicits.
#[global] Arguments Thread : clear implicits.
#[global] Arguments Chan : clear implicits.
#[global] Arguments event : clear implicits.

(** * Invariants *)

Section Invariants.
Context {A : Type}.
Implicit Types (s : Chan A) (th : Thread A) (p : pc A).

Definition holding p : bool :=
  match p with STop _ _ | SRoom _ _ | RTop _ | REmpty _ | RSleep _ => true | _ => false end.
Definition sending p : bool :=
  match p with SLock _ _ | STop _ _ | SRoom _ _ | SWait _ _ | SRelock _ _ | SNotify => true | _ => false end.
Definition receiving p : bool :=
  match p with RLock _ | RTop _ | REmpty _ | RSleep _ | RWait _ | RRelock _ | RNotify _ => true | _ => false end.
Definition saw_empty p : bool := match p with REmpty _ | RSleep _ => true | _ => false end.

Record thread_ok (h : option nat) (q : list A) (t : nat) th : Prop := {
  ok_lock : holding (at_ th) = true <-> h = Some t;
  ok_send : sending (at_ th) = true -> my_senders th <> 0%nat;
  ok_recv : receiving (at_ th) = true -> my_receivers th <> 0%nat;
  ok_empty : saw_empty (at_ th) = true -> q = []
}.

(** The lock has at most one holder, the counters count the handles, calls run on
    live handles, the queue is the unread part of what was sent and fits. *)
Record base_inv s : Prop := {
  bi_threads : forall t th, threads s !! t = Some th -> thread_ok (holder s) (queue s) t th;
  bi_senders : sender_count s = sum_list_with my_senders (threads s);
  bi_receivers : receiver_count s = sum_list_with my_receivers (threads s);
  bi_fifo : pushed s = popped s ++ queue s;
  bi_cap : forall c, cap s = Some c -> (length (queue s) <= c)%nat
}.

(** Threads that will try to take an item, or wake a receiver that does. *)
Definition will_take th : nat := match at_ th with SNotify | RRelock _ | RTop _ => 1 | _ => 0 end.
(** Threads that will try to use a free place, or wake a sender that does. *)
Definition will_fill th : nat :=
  match at_ th with RNotify _ | SRelock _ _ | STop _ _ | SRoom _ _ => 1 | _ => 0 end.

Definition some_waits (w : pc A -> bool) s : Prop := exists t th, threads s !! t = Some th /\ w (at_ th) = true.

(** With slack [k]: while a receiver sleeps, every queued item is spoken for. *)
Definition items_inv (k : nat) s : Prop :=
  some_waits waits_recv s -> (length (queue s) + k <= sum_list_with will_take (threads s))%nat.
(** While a sender sleeps and a receiver lives, every free place is spoken for. *)
Definition room_inv (k : nat) s : Prop :=
  forall c, cap s = Some c -> receiver_count s <> 0%nat -> some_waits waits_send s ->
  (c + k <= length (queue s) + sum_list_with will_fill (threads s))%nat.

Record chan_inv s : Prop := { ci_base : base_inv s; ci_items : items_inv 0 s; ci_room : room_inv 0 s }.

(** ** One thread changes *)

Lemma sum_insert {B} (f : B -> nat) (l : list B) i x y :
  l !! i = Some x -> (sum_list_with f (<[i := y]> l) + f x = sum_list_with f l + f y)%nat.
Proof.
  revert i. induction l as [|z l IH]; intros [|i] Hi; simplify_eq/=; [lia|]. specialize (IH i Hi). lia.
Qed.

Lemma sum_lookup {B} (f : B -> nat) (l : list B) i x : l !! i = Some x -> (f x <= sum_list_with f l)%nat.
Proof. revert i. induction l as [|z l IH]; intros [|i] Hi; simplify_eq/=; [lia|]. specialize (IH i Hi). lia. Qed.

(** [s'] differs from [s] in thread [t] and possibly in the shared fields. *)
Record changes s (t : nat) th th' s' : Prop := {
  ch_old : threads s !! t = Some th;
  ch_new : threads s' = <[t := th']> (threads s);
  ch_cap : cap s' = cap s
}.

Lemma changes_lookup s t th th' s' i x :
  changes s t th th' s' -> threads s' !! i = Some x -> (i = t /\ x = th') \/ (i <> t /\ threads s !! i = Some x).
Proof.
  intros [Ho Hn _]. rewrite Hn. intros [(-> & -> & _)|[Hne Hl]]%list_lookup_insert_Some; auto.
Qed.

Lemma base_change s t th th' s' :
  base_inv s -> changes s t th th' s' ->
  thread_ok (holder s') (queue s') t th' ->
  (holder s' = holder s \/ (holder s = None /\ holder s' = Some t) \/ (holder s = Some t /\ holder s' = None)) ->
  (queue s' = queue s \/ holder s = Some t) ->
  (sender_count s' + my_senders th = sender_count s + my_senders th')%nat ->
  (receiver_count s' + my_receivers th = receiver_count s + my_receivers th')%nat ->
  pushed s' = popped s' ++ queue s' ->
  (forall c, cap s' = Some c -> (length (queue s') <= c)%nat) ->
  base_inv s'.
Proof.
  intros [B1 B2 B3 B4 B5] Hch Hth Hh Hq Hs Hr Hf Hc. split; try done.
  - intros i x Hx. destruct (changes_lookup _ _ _ _ _ _ _ Hch Hx) as [[-> ->]|[Hne Hi]]; [done|].
    destruct (B1 _ _ Hi) as [O1 O2 O3 O4]. split; try done.
    + rewrite O1. destruct Hh as [->|[[-> ->]|[-> ->]]]; split; congruence.
    + intros He. destruct Hq as [->|Hq]; [auto|]. exfalso.
      assert (holding (at_ x) = true) by (by destruct (at_ x)). apply O1 in H. congruence.
  - destruct Hch as [Ho Hn _]. pose proof (sum_insert my_senders _ _ _ th' Ho). rewrite Hn. lia.
  - destruct Hch as [Ho Hn _]. pose proof (sum_insert my_receivers _ _ _ th' Ho). rewrite Hn. lia.
Qed.

Lemma waits_change w s t th th' s' :
  changes s t th th' s' -> some_waits w s' -> w (at_ th') = true \/ some_waits w s.
Proof.
  intros Hch (i & x & Hx & Hw). destruct (changes_lookup _ _ _ _ _ _ _ Hch Hx) as [[-> ->]|[_ Hi]]; [auto|].
  right. by exists i, x.
Qed.

Lemma items_change k k' s t th th' s' :
  items_inv k s -> changes s t th th' s' ->
  (queue s' = [] /\ k' = 0%nat) \/
  (waits_recv (at_ th') = false /\
   (length (queue s') + k' + will_take th <= length (queue s) + k + will_take th')%nat) ->
  items_inv k' s'.
Proof.
  intros Hi Hch Hc Hw. destruct Hc as [[-> ->]|[Hn Hl]]; [simpl; lia|].
  destruct (waits_change _ _ _ _ _ _ Hch Hw) as [Hx|Hx]; [congruence|].
  specialize (Hi Hx). destruct Hch as [Ho Hnew _]. rewrite Hnew.
  pose proof (sum_insert will_take _ _ _ th' Ho). lia.
Qed.

Lemma room_change k k' s t th th' s' :
  room_inv k s -> changes s t th th' s' -> (receiver_count s = 0%nat -> receiver_count s' = 0%nat) ->
  (receiver_count s' = 0%nat \/
   (k' = 0%nat /\ forall c, cap s' = Some c -> (c <= length (queue s'))%nat) \/
   (waits_send (at_ th') = false /\
    (length (queue s) + k' + will_fill th <= length (queue s') + k + will_fill th')%nat)) ->
  room_inv k' s'.
Proof.
  intros Hi Hch Hz Hc c Hcap Hr Hw. destruct Hc as [?|[[-> Hf]|[Hn Hl]]]; [done|specialize (Hf c Hcap); lia|].
  destruct (waits_change _ _ _ _ _ _ Hch Hw) as [Hx|Hx]; [congruence|].
  destruct Hch as [Ho Hnew Hcap']. rewrite Hcap' in Hcap.
  specialize (Hi c Hcap ltac:(lia) Hx). rewrite Hnew. pose proof (sum_insert will_fill _ _ _ th' Ho). lia.
Qed.

(** ** Every step preserves the invariant *)

Lemma changes_put s t th th' s0 :
  threads s !! t = Some th -> threads s0 = threads s -> cap s0 = cap s -> changes s t th th' (put_thread t th' s0).
Proof. intros H1 H2 H3. split; simpl; congruence. Qed.

Lemma inv_change s t th th' s' :
  chan_inv s -> changes s t th th' s' ->
  thread_ok (holder s') (queue s') t th' ->
  (holder s' = holder s \/ (holder s = None /\ holder s' = Some t) \/ (holder s = Some t /\ holder s' = None)) ->
  (queue s' = queue s \/ holder s = Some t) ->
  (sender_count s' + my_senders th = sender_count s + my_senders th')%nat ->
  (receiver_count s' + my_receivers th = receiver_count s + my_receivers th')%nat ->
  pushed s' = popped s' ++ queue s' ->
  (forall c, cap s' = Some c -> (length (queue s') <= c)%nat) ->
  (queue s' = [] \/
   (waits_recv (at_ th') = false /\ (length (queue s') + will_take th <= length (queue s) + will_take th')%nat)) ->
  (receiver_count s = 0%nat -> receiver_count s' = 0%nat) ->
  (receiver_count s' = 0%nat \/ (forall c, cap s' = Some c -> (c <= length (queue s'))%nat) \/
   (waits_send (at_ th') = false /\ (length (queue s) + will_fill th <= length (queue s') + will_fill th')%nat)) ->
  chan_inv s'.
Proof.
  intros [Hb Hi Hr] Hch ? ? ? ? ? ? ? Hitems Hz Hroom. split.
  - by eapply base_change.
  - eapply items_change; [done|done|]. destruct Hitems as [?|[? ?]]; [by left|right; split; [done|lia]].
  - eapply room_change; [done|done|done|]. destruct Hroom as [?|[?|[? ?]]]; [by left|by right; left|].
    right; right. split; [done|lia].
Qed.

(** A receiver alive in a call keeps the count above zero. *)
Lemma receiving_counted s t th :
  base_inv s -> threads s !! t = Some th -> my_receivers th <> 0%nat -> receiver_count s <> 0%nat.
Proof. intros Hb Ht Hn. pose proof (sum_lookup my_receivers _ _ _ Ht). rewrite (bi_receivers _ Hb). lia. Qed.
Lemma sending_counted s t th :
  base_inv s -> threads s !! t = Some th -> my_senders th <> 0%nat -> sender_count s <> 0%nat.
Proof. intros Hb Ht Hn. pose proof (sum_lookup my_senders _ _ _ Ht). rewrite (bi_senders _ Hb). lia. Qed.

(** A thread outside the critical sections does not hold the lock. *)
Lemma not_holding s t th : base_inv s -> threads s !! t = Some th -> holding (at_ th) = false -> holder s <> Some t.
Proof. intros Hb Ht Hh Heq. apply (ok_lock _ _ _ _ (bi_threads _ Hb _ _ Ht)) in Heq. congruence. Qed.

Lemma is_full_spec s : is_full s = true <-> exists c, cap s = Some c /\ (c <= length (queue s))%nat.
Proof.
  unfold is_full. destruct (cap s) as [c|]; [rewrite Nat.leb_le|]; split; try done; [eauto|by intros (? & [= <-] & ?)|].
  by intros (? & ? & _).
Qed.

Ltac inv_fields :=
  cbn [put_thread set_holder set_counts push_back pop_front go holder queue sender_count receiver_count
       cap threads pushed popped at_ my_senders my_receivers] in *.

Ltac inv_solve :=
  inv_fields; cbn [holding sending receiving saw_empty waits_recv waits_send] in *;
  try (split; cbn; intuition (congruence || lia || eauto));
  try (unfold will_take, will_fill; cbn); intuition (congruence || lia || eauto).

Lemma advance_inv s t th b s' o :
  chan_inv s -> threads s !! t = Some th -> advance t th b s = Some (s', o) -> chan_inv s'.
Proof.
  intros Hinv Ht. pose proof (ci_base _ Hinv) as Hb. destruct (bi_threads _ Hb _ _ Ht) as [O1 O2 O3 O4].
  pose proof (bi_fifo _ Hb) as Hf. pose proof (bi_cap _ Hb) as Hc. unfold advance.
  destruct th as [p ns nr]. inv_fields.
  destruct p as [|m v|m v|m v|m v|m v| |m|m|m|m|m|m|v| |]; try done; cbn [holding sending receiving saw_empty] in *.
  - destruct (holder s) eqn:Eh; [done|]. intros [= <- _].
    eapply inv_change; [done|by apply changes_put|..]; inv_solve.
  - destruct (Nat.eqb_spec (receiver_count s) 0); intros [= <- _];
      (eapply inv_change; [done|by apply changes_put|..]; inv_solve).
  - destruct (is_full s) eqn:Ef; cbn [negb].
    + apply is_full_spec in Ef as (c & Ec & Hl).
      assert (forall c', cap s = Some c' -> (c' <= length (queue s))%nat) by (intros c' Hc'; congruence).
      destruct m as [| |[]]; intros [= <- _]; (eapply inv_change; [done|by apply changes_put|..]; inv_solve).
    + assert (Hroom : forall c, cap s = Some c -> (length (queue s ++ [v]) <= c)%nat).
      { intros c Ec. rewrite length_app. unfold is_full in Ef. rewrite Ec in Ef. apply Nat.leb_gt in Ef. cbn. lia. }
      assert (length (queue s ++ [v]) = S (length (queue s))) by (rewrite length_app; cbn; lia).
      intros [= <- _]. (eapply inv_change; [done|by apply changes_put|..]; inv_solve).
      by rewrite Hf, app_assoc.
  - destruct (holder s) eqn:Eh; [done|]. intros [= <- _].
    eapply inv_change; [done|by apply changes_put|..]; inv_solve.
  - destruct (holder s) eqn:Eh; [done|]. intros [= <- _].
    eapply inv_change; [done|by apply changes_put|..]; inv_solve.
  - destruct (queue s) as [|v q] eqn:Eq; intros [= <- _];
      (eapply inv_change; [done|by apply changes_put|..]; rewrite ?Eq; inv_solve).
    + rewrite Eq. cbn. lia.
    + rewrite Hf. by rewrite <- app_assoc.
    + etransitivity; [|eapply Hc; eassumption]. cbn. lia.
  - destruct (Nat.eqb_spec (sender_count s) 0); [intros [= <- _]|destruct m as [| |[]]; intros [= <- _]];
      (eapply inv_change; [done|by apply changes_put|..]; inv_solve).
  - intros [= <- _]. eapply inv_change; [done|by apply changes_put|..]; inv_solve.
  - destruct (holder s) eqn:Eh; [done|]. intros [= <- _].
    eapply inv_change; [done|by apply changes_put|..]; inv_solve.
Qed.

(** Waking a sleeping thread: an item or a free place gains a taker. *)
Lemma woken_inv s w th p :
  chan_inv s -> threads s !! w = Some th ->
  (exists m m', at_ th = RWait m /\ p = RRelock m') \/ (exists m m' v, at_ th = SWait m v /\ p = SRelock m' v) ->
  let s' := put_thread w (go p th) s in
  base_inv s' /\ items_inv (if waits_recv (at_ th) then 1 else 0) s' /\
  room_inv (if waits_send (at_ th) then 1 else 0) s'.
Proof.
  intros [Hb Hi Hr] Hw Hp s'.
  assert (Hch : changes s w th (go p th) s') by (by apply changes_put).
  destruct (bi_threads _ Hb _ _ Hw) as [O1 O2 O3 O4]. destruct th as [q ns nr]. subst s'.
  pose proof (bi_fifo _ Hb). pose proof (bi_cap _ Hb).
  destruct Hp as [(m & m' & Hm & ->)|(m & m' & v & Hm & ->)]; cbn in Hm; subst q; inv_fields;
    (split_and!; [eapply base_change|eapply items_change|eapply room_change]; try done; inv_solve).
Qed.

Lemma inv_weaken k k' s : base_inv s -> items_inv k s -> room_inv k' s -> chan_inv s.
Proof.
  intros Hb Hi Hr. split; [done| |].
  - intros Hw. specialize (Hi Hw). lia.
  - intros c Hc Hz Hw. specialize (Hr c Hc Hz Hw). lia.
Qed.

Lemma woken_shape p :
  waits_recv p || waits_send p = true ->
  (exists m m', p = RWait m /\ woken p = RRelock m') \/ (exists m m' v, p = SWait m v /\ woken p = SRelock m' v).
Proof. destruct p; try done; intros _; eauto 10. Qed.

(** [notify_one] after a completed push or pop. *)
Lemma wake_one_inv s t th waits w s' :
  chan_inv s -> threads s !! t = Some th ->
  (at_ th = SNotify /\ waits = waits_recv) \/ (exists v, at_ th = RNotify v /\ waits = waits_send) ->
  wake_one waits w (put_thread t (go Idle th) s) = Some s' -> chan_inv s'.
Proof.
  intros Hinv Ht Hth Hw. set (s1 := put_thread t (go Idle th) s) in *.
  assert (Hholding : holding (at_ th) = false) by (destruct Hth as [[-> _]|(v & -> & _)]; done).
  pose proof (ci_base _ Hinv) as Hb. pose proof (not_holding _ _ _ Hb Ht Hholding) as Hh.
  assert (Hidle : forall s0 l (s0' := mkChan (cap s0) (queue s0) (sender_count s0) (receiver_count s0) (holder s0) l
       (pushed s0) (popped s0)),
     base_inv s0 -> changes s0 t th (go Idle th) s0' -> holder s0 <> Some t -> base_inv s0').
  { intros s0 l s0' Hb0 Hch0 Hh0. pose proof (bi_fifo _ Hb0). pose proof (bi_cap _ Hb0). subst s0'.
    eapply base_change; [done|done|..]; inv_solve. }
  assert (Hch1 : changes s t th (go Idle th) s1) by (by apply changes_put).
  destruct w as [w|]; cbn [wake_one] in Hw.
  - destruct (threads s1 !! w) as [x|] eqn:Ex; [|done]. cbn [mbind option_bind] in Hw.
    destruct (waits (at_ x)) eqn:Ewx; [|done]. injection Hw as <-.
    destruct (changes_lookup _ _ _ _ _ _ _ Hch1 Ex) as [[-> ->]|[Hne Exs]].
    { by destruct Hth as [[_ ->]|(v & _ & ->)]. }
    assert (Hsh : waits_recv (at_ x) || waits_send (at_ x) = true).
    { destruct Hth as [[_ ->]|(v & _ & ->)]; rewrite Ewx; [done|apply orb_true_r]. }
    destruct (woken_inv s w x (woken (at_ x)) Hinv Exs (woken_shape _ Hsh)) as (B2 & I2 & R2).
    set (s2 := put_thread w (go (woken (at_ x)) x) s) in *.
    assert (Hch2 : changes s2 t th (go Idle th) (put_thread w (go (woken (at_ x)) x) s1)).
    { split; [|subst s1 s2; cbn; by apply list_insert_insert_ne|done].
      subst s2. cbn. by rewrite list_lookup_insert_ne. }
    apply (inv_weaken 0 0).
    + apply (Hidle s2); [exact B2|exact Hch2|done].
    + eapply items_change; [exact I2|exact Hch2|].
      destruct Hth as [[E ->]|(v & E & ->)]; right; split; try done; unfold will_take; rewrite E; cbn;
        rewrite ?Ewx; lia.
    + eapply room_change; [exact R2|exact Hch2|done|]. right; right.
      destruct Hth as [[E ->]|(v & E & ->)]; split; try done; unfold will_fill; rewrite E; cbn;
        rewrite ?Ewx; lia.
  - destruct (existsb _ (threads s1)) eqn:Ex; [done|]. injection Hw as <-.
    assert (Hno : ~ some_waits waits s1).
    { intros (i & x & Hx & Hwx). apply Bool.not_true_iff_false in Ex. apply Ex. apply existsb_exists.
      exists x. split; [by apply list_elem_of_In, list_elem_of_lookup_2 with i|done]. }
    apply (inv_weaken 0 0).
    + by apply (Hidle s).
    + destruct Hth as [[E ->]|(v & E & ->)]; [by intros ?|].
      eapply items_change; [apply Hinv|exact Hch1|]. right. split; [done|]. unfold will_take. rewrite E. cbn. lia.
    + destruct Hth as [[E ->]|(v & E & ->)]; [|by intros c _ _ ?].
      eapply room_change; [apply Hinv|exact Hch1|done|]. right; right. split; [done|].
      unfold will_fill. rewrite E. cbn. lia.
Qed.

Lemma sum_map {B} (f : B -> nat) (g : B -> B) (l : list B) :
  (forall x, f (g x) = f x) -> sum_list_with f (map g l) = sum_list_with f l.
Proof. intros Hf. induction l as [|x l IH]; [done|]. simpl. by rewrite Hf, IH. Qed.

Lemma sum_map_le {B} (f : B -> nat) (g : B -> B) (l : list B) :
  (forall x, f x <= f (g x))%nat -> (sum_list_with f l <= sum_list_with f (map g l))%nat.
Proof. intros Hf. induction l as [|x l IH]; [done|]. simpl. specialize (Hf x). lia. Qed.

(** [notify_all]: nobody sleeps on that condition afterwards. *)
Lemma wake_all_inv s waits :
  waits = waits_recv \/ waits = waits_send -> chan_inv s -> chan_inv (wake_all waits s).
Proof.
  intros Hwaits [[B1 B2 B3 B4 B5] Hi Hr]. set (g := fun th => if waits (at_ th) then go (woken (at_ th)) th else th).
  assert (Hg : forall th, my_senders (g th) = my_senders th /\ my_receivers (g th) = my_receivers th /\
    holding (at_ (g th)) = holding (at_ th) /\ sending (at_ (g th)) = sending (at_ th) /\
    receiving (at_ (g th)) = receiving (at_ th) /\ saw_empty (at_ (g th)) = saw_empty (at_ th) /\
    (will_take th <= will_take (g th))%nat /\ (will_fill th <= will_fill (g th))%nat /\
    waits (at_ (g th)) = false /\ (waits_recv (at_ (g th)) = true -> waits_recv (at_ th) = true) /\
    (waits_send (at_ (g th)) = true -> waits_send (at_ th) = true)).
  { intros [p ns nr]. unfold g. destruct Hwaits as [-> | ->]; destruct p; cbn; unfold will_take, will_fill; cbn;
      split_and!; try done; lia. }
  assert (Hl : forall t x, threads (wake_all waits s) !! t = Some x -> exists th, threads s !! t = Some th /\ x = g th).
  { intros t x. cbn. rewrite list_lookup_fmap. destruct (threads s !! t) as [th|]; [|done]. intros [= <-]. eauto. }
  assert (Hnone : forall w, (w = waits_recv \/ w = waits_send) -> some_waits w (wake_all waits s) -> w <> waits /\ some_waits w s).
  { intros w Hw (t & x & Hx & Hwx). destruct (Hl _ _ Hx) as (th & Ht & ->).
    destruct (Hg th) as (_ & _ & _ & _ & _ & _ & _ & _ & G & G1 & G2).
    split; [intros ->; congruence|]. exists t, th. split; [done|]. destruct Hw as [-> | ->]; auto. }
  split; [split|..]; cbn [wake_all threads sender_count receiver_count pushed popped queue cap]; try done.
  - intros t x Hx. destruct (Hl _ _ Hx) as (th & Ht & ->). destruct (B1 _ _ Ht) as [O1 O2 O3 O4].
    destruct (Hg th) as (G1 & G2 & G3 & G4 & G5 & G6 & _). by split; rewrite ?G1, ?G2, ?G3, ?G4, ?G5, ?G6.
  - rewrite B2. symmetry. apply sum_map. apply Hg.
  - rewrite B3. symmetry. apply sum_map. apply Hg.
  - intros Hw. destruct (Hnone waits_recv (or_introl eq_refl) Hw) as [_ Hw'].
    etransitivity; [apply (Hi Hw')|]. apply sum_map_le. apply Hg.
  - intros c Hc Hz Hw. destruct (Hnone waits_send (or_intror eq_refl) Hw) as [_ Hw'].
    specialize (Hr c Hc Hz Hw').
    assert (sum_list_with will_fill (threads s) <= sum_list_with will_fill (map g (threads s)))%nat
      by (apply sum_map_le; apply Hg).
    cbn [wake_all threads queue]. fold g. lia.
Qed.

(** Calls begin, handles are cloned, moved and dropped by threads outside any call. *)
Lemma idle_inv s t th th' s' :
  chan_inv s -> threads s !! t = Some th -> at_ th = Idle -> changes s t th th' s' ->
  holder s' = holder s -> queue s' = queue s -> pushed s' = pushed s -> popped s' = popped s ->
  (sender_count s' + my_senders th = sender_count s + my_senders th')%nat ->
  (receiver_count s' + my_receivers th = receiver_count s + my_receivers th')%nat ->
  (receiver_count s = 0%nat -> receiver_count s' = 0%nat) ->
  holding (at_ th') = false -> waits_recv (at_ th') = false -> waits_send (at_ th') = false ->
  saw_empty (at_ th') = false ->
  (sending (at_ th') = true -> my_senders th' <> 0%nat) ->
  (receiving (at_ th') = true -> my_receivers th' <> 0%nat) ->
  chan_inv s'.
Proof.
  intros Hinv Ht Hidle Hch E1 E2 E3 E4 Hs Hr Hz H1 H2 H3 H4 H5 H6.
  pose proof (ci_base _ Hinv) as Hb.
  assert (Hh : holder s <> Some t) by (eapply not_holding; [done|done|by rewrite Hidle]).
  eapply inv_change; [done|done|..]; rewrite ?E1, ?E2, ?E3, ?E4; auto.
  - split; try done; [|congruence]. split; [congruence|done].
  - apply Hb.
  - destruct Hch as [_ _ ->]. apply Hb.
  - right. split; [done|]. unfold will_take. rewrite Hidle. lia.
  - right; right. split; [done|]. unfold will_fill. rewrite Hidle. lia.
Qed.

(** Handles change hands and nothing else happens. *)
Lemma handles_inv s l (s' := mkChan (cap s) (queue s) (sender_count s) (receiver_count s) (holder s) l (pushed s) (popped s)) :
  chan_inv s -> map at_ l = map at_ (threads s) ->
  sum_list_with my_senders l = sum_list_with my_senders (threads s) ->
  sum_list_with my_receivers l = sum_list_with my_receivers (threads s) ->
  (forall t th', l !! t = Some th' ->
     (sending (at_ th') = true -> my_senders th' <> 0%nat) /\ (receiving (at_ th') = true -> my_receivers th' <> 0%nat)) ->
  chan_inv s'.
Proof.
  intros [[B1 B2 B3 B4 B5] Hi Hr] Hat Hs Hv Hown.
  assert (Hl : forall t th', l !! t = Some th' -> exists th, threads s !! t = Some th /\ at_ th' = at_ th).
  { intros t th' Ht. assert (E : map at_ l !! t = Some (at_ th')) by (by rewrite list_lookup_fmap, Ht).
    rewrite Hat, list_lookup_fmap in E. destruct (threads s !! t); [|done]. injection E as E. eauto. }
  assert (Hsum : forall f : pc A -> nat, sum_list_with (fun th => f (at_ th)) l = sum_list_with (fun th => f (at_ th)) (threads s)).
  { intros f. assert (Hm : forall k, sum_list_with (fun th => f (at_ th)) k = sum_list_with f (map at_ k)).
    { induction k as [|x k IH]; [done|]. simpl. by rewrite IH. }
    by rewrite !Hm, Hat. }
  assert (Hw : forall w, some_waits w s' -> some_waits w s).
  { intros w (t & x & Hx & Hwx). destruct (Hl _ _ Hx) as (th & Ht & E). exists t, th. by rewrite <- E. }
  split; [split|..]; cbn; try done; [|by rewrite Hs|by rewrite Hv|..].
  - intros t th' Ht. destruct (Hl _ _ Ht) as (th & Hth & E). destruct (B1 _ _ Hth) as [O1 O2 O3 O4].
    destruct (Hown _ _ Ht). split; rewrite ?E in *; done.
  - intros Hww. etransitivity; [apply (Hi (Hw _ Hww))|].
    apply Nat.eq_le_incl. symmetry.
    exact (Hsum (fun p => match p with SNotify | RRelock _ | RTop _ => 1 | _ => 0 end)%nat).
  - intros c Hc Hz Hww. specialize (Hr c Hc Hz (Hw _ Hww)).
    pose proof (Hsum (fun p => match p with RNotify _ | SRelock _ _ | STop _ _ | SRoom _ _ => 1 | _ => 0 end)%nat) as E.
    change (sum_list_with will_fill l = sum_list_with will_fill (threads s)) in E. cbn in *. lia.
Qed.

Lemma move_inv s t t' th th' x x' :
  chan_inv s -> threads s !! t = Some th -> threads s !! t' = Some th' -> t <> t' ->
  at_ th = Idle -> at_ x = Idle -> at_ x' = at_ th' ->
  (my_senders x + my_senders x' = my_senders th + my_senders th')%nat ->
  (my_receivers x + my_receivers x' = my_receivers th + my_receivers th')%nat ->
  (my_senders th' <= my_senders x')%nat -> (my_receivers th' <= my_receivers x')%nat ->
  chan_inv (put_thread t' x' (put_thread t x s)).
Proof.
  intros Hinv Ht Ht' Hne Hi Hx Hx' Hs Hr Hs' Hr'. apply (handles_inv s (<[t' := x']> (<[t := x]> (threads s)))); [done|..].
  - change (at_ <$> <[t' := x']> (<[t := x]> (threads s)) = at_ <$> threads s). rewrite !list_fmap_insert.
    rewrite (list_insert_id (at_ <$> threads s) t (at_ x)) by (rewrite list_lookup_fmap, Ht; cbn; congruence).
    apply list_insert_id. rewrite list_lookup_fmap, Ht'. cbn. congruence.
  - pose proof (sum_insert my_senders _ _ _ x Ht).
    pose proof (sum_insert my_senders (<[t := x]> (threads s)) t' th' x'
      ltac:(by rewrite list_lookup_insert_ne)). lia.
  - pose proof (sum_insert my_receivers _ _ _ x Ht).
    pose proof (sum_insert my_receivers (<[t := x]> (threads s)) t' th' x'
      ltac:(by rewrite list_lookup_insert_ne)). lia.
  - intros i y. pose proof (bi_threads _ (ci_base _ Hinv)) as Hb.
    intros [(-> & -> & _)|[Hni [(-> & -> & _)|[Hnt Hy]]%list_lookup_insert_Some]]%list_lookup_insert_Some.
    + destruct (Hb _ _ Ht') as [_ O2 O3 _]. rewrite Hx'. split; intros Hp; [specialize (O2 Hp)|specialize (O3 Hp)]; lia.
    + by rewrite Hx.
    + destruct (Hb _ _ Hy) as [_ O2 O3 _]. done.
Qed.

Lemma step_inv e s s' o : chan_inv s -> step e s = Some (s', o) -> chan_inv s'.
Proof.
  intros Hinv. pose proof (ci_base _ Hinv) as Hb. destruct e as [t m v|t m|t b|t w|t|w|w|t|t|t|t|t t'|t t']; cbn [step];
    (match goal with |- threads s !! ?i ≫= _ = _ -> _ => destruct (threads s !! i) as [th|] eqn:Ht end);
    cbn [mbind option_bind]; try done.
  - destruct (at_ th) eqn:Ea; try done. destruct (my_senders th) eqn:En; [done|]. intros [= <- _].
    eapply (idle_inv s t th _ _ Hinv Ht Ea); [by apply changes_put|..]; cbn; rewrite ?En; done || lia.
  - destruct (at_ th) eqn:Ea; try done. destruct (my_receivers th) eqn:En; [done|]. intros [= <- _].
    eapply (idle_inv s t th _ _ Hinv Ht Ea); [by apply changes_put|..]; cbn; rewrite ?En; done || lia.
  - by apply advance_inv.
  - destruct (at_ th) eqn:Ea; try done.
    + destruct (wake_one _ _ _) as [s1|] eqn:Ew; cbn [mbind option_bind]; [|done]. intros [= <- _]. eapply wake_one_inv; eauto.
    + destruct (wake_one _ _ _) as [s1|] eqn:Ew; cbn [mbind option_bind]; [|done]. intros [= <- _]. eapply wake_one_inv; eauto.
  - assert (Hidle : at_ th = DropS \/ at_ th = DropR -> chan_inv (put_thread t (go Idle th) s)).
    { intros Hd. destruct (bi_threads _ Hb _ _ Ht) as [O1 O2 O3 O4].
      eapply inv_change; [done|by apply changes_put|..]; destruct Hd as [E|E]; rewrite E in *; inv_solve;
        try apply Hb; eauto; unfold will_take, will_fill; rewrite E; lia. }
    destruct (at_ th) eqn:Ea; try done; intros [= <- _]; apply wake_all_inv; auto.
  - assert (Hgo : forall p, (exists m m', at_ th = RWait m /\ p = RRelock m') \/
      (exists m m' v, at_ th = SWait m v /\ p = SRelock m' v) -> chan_inv (put_thread w (go p th) s)).
    { intros p Hp. destruct (woken_inv s w th p Hinv Ht Hp) as (? & ? & ?). by eapply inv_weaken. }
    destruct (at_ th) as [| | | |[] ?| | | | | | |[]| | | |] eqn:Ea; try done; intros [= <- _]; apply Hgo; eauto 10.
  - destruct (_ || _) eqn:Ew; [|done]. intros [= <- _].
    destruct (woken_inv s w th _ Hinv Ht (woken_shape _ Ew)) as (? & ? & ?). by eapply inv_weaken.
  - destruct (at_ th) eqn:Ea; try done. destruct (my_senders th) eqn:En; [done|]. intros [= <- _].
    eapply (idle_inv s t th _ _ Hinv Ht Ea); [by apply changes_put|..]; cbn; rewrite ?En; done || lia.
  - destruct (at_ th) eqn:Ea; try done. destruct (my_receivers th) eqn:En; [done|]. intros [= <- _].
    pose proof (receiving_counted s t th Hb Ht ltac:(lia)).
    eapply (idle_inv s t th _ _ Hinv Ht Ea); [by apply changes_put|..]; cbn; rewrite ?En; done || lia.
  - destruct (at_ th) eqn:Ea; try done. destruct (my_senders th) eqn:En; [done|]. intros [= <- _].
    pose proof (sending_counted s t th Hb Ht ltac:(lia)).
    eapply (idle_inv s t th _ _ Hinv Ht Ea); [by apply changes_put|..]; cbn; rewrite ?En;
      try (by destruct (_ =? 1)%nat); try done; lia.
  - destruct (at_ th) eqn:Ea; try done. destruct (my_receivers th) eqn:En; [done|]. intros [= <- _].
    pose proof (receiving_counted s t th Hb Ht ltac:(lia)).
    eapply (idle_inv s t th _ _ Hinv Ht Ea); [by apply changes_put|..]; cbn; rewrite ?En;
      try (by destruct (_ =? 1)%nat); try done; lia.
  - destruct (threads s !! t') as [th'|] eqn:Ht'; cbn [mbind option_bind]; [|done].
    destruct (at_ th) eqn:Ea; try done. destruct (my_senders th) eqn:En; [done|]. case_decide; [done|]. intros [= <- _].
    eapply move_inv; eauto; cbn; lia.
  - destruct (threads s !! t') as [th'|] eqn:Ht'; cbn [mbind option_bind]; [|done].
    destruct (at_ th) eqn:Ea; try done. destruct (my_receivers th) eqn:En; [done|]. case_decide; [done|]. intros [= <- _].
    eapply move_inv; eauto; cbn; lia.
Qed.

Lemma new_inv c n : chan_inv (@new A c n).
Proof.
  assert (Hz : forall f : Thread A -> nat, f (mkThread Idle 0 0) = 0%nat ->
     sum_list_with f (replicate n (mkThread Idle 0 0)) = 0%nat).
  { intros f Hf. induction n as [|k IH]; [done|]. simpl. lia. }
  assert (Hidle : forall t th, threads (@new A c n) !! t = Some th -> at_ th = Idle).
  { intros [|t] th Ht; cbn in Ht; [by injection Ht as <-|]. by apply lookup_replicate in Ht as [-> _]. }
  split; [split; cbn; rewrite ?Hz; try done|..].
  - intros t th Ht. specialize (Hidle t th Ht). by split; rewrite Hidle.
  - intros. lia.
  - intros (t & th & Ht & Hw). by rewrite (Hidle t th Ht) in Hw.
  - intros k _ _ (t & th & Ht & Hw). by rewrite (Hidle t th Ht) in Hw.
Qed.

Lemma run_inv s es s' : run s es s' -> chan_inv s -> chan_inv s'.
Proof. induction 1; eauto using step_inv. Qed.

Lemma exec_run es : forall s s', exec s es = Some s' -> run s es s'.
Proof.
  induction es as [|e es IH]; intros s s' He; cbn in He; [injection He as <-; constructor|].
  destruct (step e s) as [[s1 o]|] eqn:Es; [|done]. econstructor; [done|]. by apply IH.
Qed.

(** Once the last sender is gone, nothing is pushed any more. *)
Lemma closed_step e s s' o :
  base_inv s -> sender_count s = 0%nat -> step e s = Some (s', o) -> sender_count s' = 0%nat /\ pushed s' = pushed s.
Proof.
  intros Hb Hz.
  assert (Hno : forall t th, threads s !! t = Some th -> my_senders th = 0%nat).
  { intros t th Ht. destruct (my_senders th) eqn:E; [done|]. exfalso.
    by apply (sending_counted s t th Hb Ht); [lia|]. }
  destruct e as [t m v|t m|t b|t w|t|w|w|t|t|t|t|t t'|t t']; cbn [step];
    (match goal with |- threads s !! ?i ≫= _ = _ -> _ => destruct (threads s !! i) as [th|] eqn:Ht end);
    cbn [mbind option_bind]; try done; pose proof (Hno _ _ Ht) as Hn; rewrite ?Hn.
  3: { pose proof (ok_send _ _ _ _ (bi_threads _ Hb _ _ Ht)) as Hsend. unfold advance.
       destruct (at_ th) as [|m v|m v|m v|m v|m v| |m|m|m|m|m|m|v| |]; try done;
         try (cbn in Hsend; specialize (Hsend eq_refl); done).
       all: repeat case_match; intros; simplify_eq; cbn; done. }
  2: { destruct (at_ th); try done. destruct (my_receivers th); [done|]. intros [= <- _]. done. }
  2: { destruct (at_ th); try done; unfold wake_one; repeat case_match; cbn; try done;
         try (destruct (<[_ := _]> (threads s) !! _); cbn; [|done]; case_match; cbn; [|done]);
         intros; simplify_eq; done. }
  9,10: destruct (threads s !! t'); cbn [mbind option_bind]; [|done].
  all: repeat case_match; intros; simplify_eq; cbn; done.
Qed.

Lemma closed_run s es s' :
  run s es s' -> chan_inv s -> sender_count s = 0%nat -> pushed s' = pushed s.
Proof.
  induction 1 as [|s e s1 o es s2 Hstep Hrun IH]; intros Hinv Hz; [done|].
  destruct (closed_step _ _ _ _ (ci_base _ Hinv) Hz Hstep) as [Hz1 <-]. apply IH; [by eapply step_inv|done].
Qed.

(** Only [recv] on an empty queue with no sender left reports a disconnection. *)
Lemma disconnected_step e s s' :
  step e s = Some (s', Some RecvDisconnected) ->
  exists t th m, threads s !! t = Some th /\ at_ th = REmpty m /\ sender_count s = 0%nat /\
    sender_count s' = 0%nat /\ queue s' = queue s /\ pushed s' = pushed s /\ popped s' = popped s.
Proof.
  destruct e as [t m v|t m|t b|t w|t|w|w|t|t|t|t|t t'|t t']; cbn [step];
    (match goal with |- threads s !! ?i ≫= _ = _ -> _ => destruct (threads s !! i) as [th|] eqn:Ht end);
    cbn [mbind option_bind]; try done.
  3: { unfold advance. destruct (at_ th) as [|m v|m v|m v|m v|m v| |m|m|m|m|m|m|v| |] eqn:Ea; try done;
         repeat case_match; intros; simplify_eq. exists t, th, m. rewrite Nat.eqb_eq in *. done. }
  11,12: destruct (threads s !! t'); cbn [mbind option_bind]; [|done].
  all: repeat case_match; try done.
  all: destruct (wake_one _ _ _); done.
Qed.
End Invariants.

(** One thread without handles, the other asleep in a blocking call. *)
Lemma only_sleeper {A} c (q : list A) ns nr h k r pu po w :
  match w with RWait MBlock | SWait MBlock _ => True | _ => False end ->
  forall e s' o, step e (mkChan c q ns nr h [mkThread Idle 0 0; mkThread w k r] pu po) = Some (s', o) ->
  e = ESpurious 1.
Proof.
  intros Hw e s' o. destruct e as [t m x|t m|t b|t x|t|x|x|t|t|t|t|t t'|t t']; cbn [step threads];
    match goal with |- _ !! ?i ≫= _ = _ -> _ => destruct i as [|[|i]] end; cbn; try done;
    destruct w as [| | | |[] ?| | | | | | |[]| | | |]; try done.
  all: destruct t' as [|[|]]; done.
Qed.

(** * Properties *)

(** C31: under any interleaving of any number of threads the channel is a FIFO
    queue: what has been received, in order, is a prefix of what has been sent,
    nothing lost or duplicated; a bounded channel never holds more than its
    capacity; at most one thread is inside a critical section. *)
Theorem chan_fifo_bounded {A} c n es (s : Chan A) :
  run (new c n) es s ->
  pushed s = popped s ++ queue s /\
  (forall k, cap s = Some k -> (length (queue s) <= k)%nat) /\
  (forall t t' th th', threads s !! t = Some th -> threads s !! t' = Some th' ->
     holding (at_ th) = true -> holding (at_ th') = true -> t = t').
Proof.
  intros Hrun. pose proof (ci_base _ (run_inv _ _ _ Hrun (new_inv c n))) as Hb.
  split_and!; [apply Hb|apply Hb|]. intros t t' th th' Ht Ht' Hh Hh'.
  apply (ok_lock _ _ _ _ (bi_threads _ Hb _ _ Ht)) in Hh.
  apply (ok_lock _ _ _ _ (bi_threads _ Hb _ _ Ht')) in Hh'. congruence.
Qed.

Lemma chan_fifo_bounded_witness :
  let es := [EMoveR 0 1; EStartSend 0 MBlock 7; EStep 0 false; EStep 0 false; EStep 0 false; EWake 0 None;
             EStartSend 0 MTry 8; EStep 0 false; EStep 0 false; EStep 0 false;
             EStartRecv 1 MBlock; EStep 1 false; EStep 1 false; EWake 1 None] in
  exists s : Chan nat, exec (bounded 1 1) es = Some s /\ popped s = [7] /\ pushed s = popped s ++ queue s.
Proof.
  intros es. destruct (exec (bounded 1 1) es) as [s|] eqn:E; [|vm_compute in E; discriminate].
  exists s. split; [done|]. split; [vm_compute in E; by injection E as <-|].
  apply (chan_fifo_bounded (Some 1%nat) 1 es s). by apply exec_run.
Defined.

(** C32: no wake-up is lost on data or on room.  Whenever a receiver sleeps while
    items are queued, some thread is about to take one or to wake a receiver;
    whenever a sender sleeps while there is room and a receiver lives, some
    thread is about to fill it or to wake a sender. *)
Theorem chan_no_lost_item {A} c n es (s : Chan A) :
  run (new c n) es s ->
  (some_waits waits_recv s -> queue s <> [] ->
   exists t th, threads s !! t = Some th /\ match at_ th with SNotify | RRelock _ | RTop _ => True | _ => False end) /\
  (some_waits waits_send s -> is_full s = false -> receiver_count s <> 0%nat -> cap s <> None ->
   exists t th, threads s !! t = Some th /\
     match at_ th with RNotify _ | SRelock _ _ | STop _ _ | SRoom _ _ => True | _ => False end).
Proof.
  intros Hrun. destruct (run_inv _ _ _ Hrun (new_inv c n)) as [Hb Hi Hr].
  assert (Hpos : forall f : Thread A -> nat, (0 < sum_list_with f (threads s))%nat ->
     exists t th, threads s !! t = Some th /\ f th <> 0%nat).
  { intros f. induction (threads s) as [|x l IH]; simpl; [lia|]. intros Hs. destruct (f x) eqn:E.
    - destruct IH as (t & th & Ht & Hf); [lia|]. by exists (S t), th.
    - exists 0%nat, x. split; [done|lia]. }
  split.
  - intros Hw Hq. specialize (Hi Hw). destruct (Hpos will_take) as (t & th & Ht & Hf).
    { destruct (queue s); [done|]. cbn in Hi. lia. }
    exists t, th. split; [done|]. unfold will_take in Hf. by destruct (at_ th).
  - intros Hw Hfull Hz Hcap. destruct (cap s) as [k|] eqn:Ek; [|done]. specialize (Hr k Ek Hz Hw).
    destruct (Hpos will_fill) as (t & th & Ht & Hf).
    { unfold is_full in Hfull. rewrite Ek in Hfull. apply Nat.leb_gt in Hfull. lia. }
    exists t, th. split; [done|]. unfold will_fill in Hf. by destruct (at_ th).
Qed.

Lemma chan_no_lost_item_witness :
  let es := [EMoveR 0 1; EStartRecv 1 MBlock; EStep 1 false; EStep 1 false; EStep 1 false; EStep 1 false;
             EStartSend 0 MBlock 7; EStep 0 false; EStep 0 false; EStep 0 false] in
  exists s : Chan nat, exec (unbounded 1) es = Some s /\ queue s = [7] /\
  exists t th, threads s !! t = Some th /\ match at_ th with SNotify | RRelock _ | RTop _ => True | _ => False end.
Proof.
  intros es. destruct (exec (unbounded 1) es) as [s|] eqn:E; [|vm_compute in E; discriminate].
  exists s. split; [done|]. assert (Hs := E). vm_compute in Hs. injection Hs as Hs.
  split; [by rewrite <- Hs|].
  apply (proj1 (chan_no_lost_item None 1 es s (exec_run _ _ _ E))).
  - exists 1%nat, (mkThread (RWait MBlock) 0 1). by rewrite <- Hs.
  - by rewrite <- Hs.
Defined.

(** [RecvError] means the stream is over: when a receive reports that the
    senders are gone, everything ever sent has been received, and nothing will
    be sent in any continuation. *)
Theorem recv_disconnected_complete {A} c n es (s : Chan A) e s' :
  run (new c n) es s -> step e s = Some (s', Some RecvDisconnected) ->
  queue s' = [] /\ pushed s' = popped s' /\
  forall es' s'', run s' es' s'' -> pushed s'' = pushed s'.
Proof.
  intros Hrun Hstep. pose proof (run_inv _ _ _ Hrun (new_inv c n)) as Hinv.
  pose proof (step_inv _ _ _ _ Hinv Hstep) as Hinv'.
  destruct (disconnected_step _ _ _ Hstep) as (t & th & m & Ht & Ea & Hz & Hz' & Eq & Ep & Eo).
  pose proof (ok_empty _ _ _ _ (bi_threads _ (ci_base _ Hinv) _ _ Ht)) as He. rewrite Ea in He. specialize (He eq_refl).
  rewrite Eq, He. split; [done|]. split.
  - rewrite (bi_fifo _ (ci_base _ Hinv')), Eq, He. apply app_nil_r.
  - intros es' s'' Hrun'. by eapply closed_run.
Qed.

Lemma recv_disconnected_complete_witness :
  let es := [EMoveR 0 1; EDropS 0; EWakeAll 0; EStartRecv 1 MBlock; EStep 1 false; EStep 1 false] in
  exists s s' : Chan nat, exec (unbounded 1) es = Some s /\
  step (EStep 1 false) s = Some (s', Some RecvDisconnected) /\ pushed s' = popped s'.
Proof.
  intros es. destruct (exec (unbounded 1) es) as [s|] eqn:E; [|vm_compute in E; discriminate].
  exists s. assert (Hs := E). vm_compute in Hs. injection Hs as Hs.
  destruct (step (EStep 1 false) s) as [[s' o]|] eqn:Es; [|rewrite <- Hs in Es; vm_compute in Es; discriminate].
  assert (o = Some RecvDisconnected) as -> by (rewrite <- Hs in Es; vm_compute in Es; congruence).
  exists s'. split; [done|]. split; [done|].
  apply (recv_disconnected_complete None 1 es s (EStep 1 false) s' (exec_run _ _ _ E) Es).
Defined.

(** dropping the last handle can miss a sleeper.  The drop counts down and
    notifies without taking the queue's lock, so a receiver that has just read a
    non-zero sender count, and holds the lock on its way to sleep, is not woken:
    it then sleeps in [recv] with no sender left, and no thread can do anything
    any more, short of a spurious wake-up.  The same happens to a blocked
    [send] and the last receiver. *)
Theorem drop_misses_sleeper {A} (v : A) :
  (exists es (s : Chan A), run (unbounded 1) es s /\ sender_count s = 0%nat /\
     threads s !! 1%nat = Some (mkThread (RWait MBlock) 0 1) /\
     forall e s' o, step e s = Some (s', o) -> e = ESpurious 1) /\
  (exists es (s : Chan A), run (bounded 1 1) es s /\ receiver_count s = 0%nat /\
     threads s !! 1%nat = Some (mkThread (SWait MBlock v) 1 0) /\
     forall e s' o, step e s = Some (s', o) -> e = ESpurious 1).
Proof.
  split.
  - exists [EMoveR 0 1; EStartRecv 1 MBlock; EStep 1 false; EStep 1 false; EStep 1 false; EDropS 0; EWakeAll 0; EStep 1 false],
      (mkChan None [] 0 1 None [mkThread Idle 0 0; mkThread (RWait MBlock) 0 1] [] []).
    split; [apply exec_run; vm_compute; reflexivity|]. split; [done|]. split; [done|]. by apply only_sleeper.
  - exists [EMoveS 0 1; EStartSend 1 MTry v; EStep 1 false; EStep 1 false; EStep 1 false; EWake 1 None;
            EStartSend 1 MBlock v; EStep 1 false; EStep 1 false; EDropR 0; EWakeAll 0; EStep 1 false],
      (mkChan (Some 1%nat) [v] 1 0 None [mkThread Idle 0 0; mkThread (SWait MBlock v) 1 0] [v] []).
    split; [apply exec_run; vm_compute; reflexivity|]. split; [done|]. split; [done|]. by apply only_sleeper.
Qed.
