(* ===== verification/Runtime.v ===== *)
(** What the event loop of tailscale-vita is made of: the connection-state tracker
    ([lifecycle.rs]) and, of [runtime.rs], the classes of control errors, the
    back-off schedule, the signals, the clearing of the engine and the map a
    session starts from.  Instants are nanoseconds; log lines are left out. *)

From S2P Require Import Prelude NetTypes Text WgPolicy WgEngine Netmap VitaFs Keys.
#[local] Open Scope Z_scope.

(** * lifecycle.rs *)

Definition NS : Z := 1000000000.
Definition DEGRADED_AFTER : Z := 60 * NS.
Definition HEARTBEAT_INTERVAL : Z := 60 * NS.
Definition OFFLINE_RECONNECT_THRESHOLD : nat := 5.
Definition OFFLINE_DIAG_AFTER : Z := 600 * NS.

Inductive FatalKind : Type := FatalAuth | FatalSecurity.

Inductive OnlineState : Type :=
| Connecting | Online | Degraded | Offline | NeedsLogin | AuthFailed | SecurityFailed | Stopped.

#[global] Instance OnlineState_eq_dec : EqDecision OnlineState.
Proof. solve_decision. Defined.

Record LifecycleTracker : Type := mkTracker {
  state : OnlineState;
  first_map_event : option Z;
  first_derp_rx : option Z;
  last_map_event : option Z;
  last_derp_rx : option Z;
  control_reconnects : nat;
  derp_reconnects : nat;
  last_heartbeat : option Z;
  offline_since : option Z;
  offline_diag_fired : bool;
  fatal_reason : option (list Z)
}.

Definition tracker_new : LifecycleTracker :=
  mkTracker Connecting None None None None 0 0 None None false None.

Definition set_state (st : OnlineState) (t : LifecycleTracker) : LifecycleTracker :=
  mkTracker st (first_map_event t) (first_derp_rx t) (last_map_event t) (last_derp_rx t) (control_reconnects t)
    (derp_reconnects t) (last_heartbeat t) (offline_since t) (offline_diag_fired t) (fatal_reason t).

Definition mark_fatal (kind : FatalKind) (reason : list Z) (t : LifecycleTracker) : LifecycleTracker :=
  let new := match kind with FatalAuth => AuthFailed | FatalSecurity => SecurityFailed end in
  mkTracker new (first_map_event t) (first_derp_rx t) (last_map_event t) (last_derp_rx t) (control_reconnects t)
    (derp_reconnects t) (last_heartbeat t) (offline_since t) (offline_diag_fired t) (Some reason).

Definition set_needs_login (t : LifecycleTracker) : LifecycleTracker :=
  if decide (state t = NeedsLogin) then t else set_state NeedsLogin t.
Definition clear_needs_login (t : LifecycleTracker) : LifecycleTracker :=
  if decide (state t = NeedsLogin) then set_state Connecting t else t.
Definition set_stopped (t : LifecycleTracker) : LifecycleTracker :=
  if decide (state t = Stopped) then t else set_state Stopped t.
Definition clear_stopped (t : LifecycleTracker) : LifecycleTracker :=
  if decide (state t = Stopped) then set_state Connecting t else t.

Definition record_map_event (now : Z) (t : LifecycleTracker) : LifecycleTracker :=
  mkTracker (state t) (match first_map_event t with None => Some now | f => f end) (first_derp_rx t) (Some now)
    (last_derp_rx t) 0 (derp_reconnects t) (last_heartbeat t) (offline_since t) (offline_diag_fired t) (fatal_reason t).
Definition record_derp_rx (now : Z) (t : LifecycleTracker) : LifecycleTracker :=
  mkTracker (state t) (first_map_event t) (match first_derp_rx t with None => Some now | f => f end) (last_map_event t)
    (Some now) (control_reconnects t) 0 (last_heartbeat t) (offline_since t) (offline_diag_fired t) (fatal_reason t).
Definition record_control_reconnect (t : LifecycleTracker) : LifecycleTracker :=
  mkTracker (state t) (first_map_event t) (first_derp_rx t) (last_map_event t) (last_derp_rx t)
    (S (control_reconnects t)) (derp_reconnects t) (last_heartbeat t) (offline_since t) (offline_diag_fired t)
    (fatal_reason t).
Definition record_derp_reconnect (t : LifecycleTracker) : LifecycleTracker :=
  mkTracker (state t) (first_map_event t) (first_derp_rx t) (last_map_event t) (last_derp_rx t)
    (control_reconnects t) (S (derp_reconnects t)) (last_heartbeat t) (offline_since t) (offline_diag_fired t)
    (fatal_reason t).

(** [saturating_duration_since]. *)
Definition elapsed (now at_ : Z) : Z := Z.max 0 (now - at_).

Definition is_fatal (st : OnlineState) : bool :=
  match st with AuthFailed | SecurityFailed => true | _ => false end.

Definition compute_next_state (now : Z) (t : LifecycleTracker) : OnlineState :=
  if is_fatal (state t) then state t
  else if decide (state t = Stopped) then state t
  else if (OFFLINE_RECONNECT_THRESHOLD <=? control_reconnects t)%nat
          || (OFFLINE_RECONNECT_THRESHOLD <=? derp_reconnects t)%nat then Offline
  else match first_map_event t, first_derp_rx t with
       | Some _, Some _ =>
           let most_recent := match last_map_event t, last_derp_rx t with
                              | Some m, Some d => Some (Z.max m d)
                              | Some m, None => Some m
                              | None, Some d => Some d
                              | None, None => None
                              end in
           match most_recent with
           | None => Connecting
           | Some r => if DEGRADED_AFTER <? elapsed now r then Degraded else Online
           end
       | _, _ => Connecting
       end.

Definition tick (now : Z) (t : LifecycleTracker) : LifecycleTracker :=
  let new := compute_next_state now t in
  let t := if decide (new = state t) then t
           else mkTracker new (first_map_event t) (first_derp_rx t) (last_map_event t) (last_derp_rx t)
                  (control_reconnects t) (derp_reconnects t) (last_heartbeat t)
                  (match new with Offline => Some now | _ => None end)
                  (match new with Offline => false | _ => offline_diag_fired t end) (fatal_reason t) in
  let due := match last_heartbeat t with Some h => HEARTBEAT_INTERVAL <=? elapsed now h | None => true end in
  let heartbeat := if due then Some now else last_heartbeat t in
  let diag := match offline_since t with
              | Some off => offline_diag_fired t || (OFFLINE_DIAG_AFTER <=? elapsed now off)
              | None => offline_diag_fired t
              end in
  mkTracker (state t) (first_map_event t) (first_derp_rx t) (last_map_event t) (last_derp_rx t)
    (control_reconnects t) (derp_reconnects t) heartbeat (offline_since t) diag (fatal_reason t).

(** * runtime.rs: triage and backoff *)

Inductive ErrorClass : Type := Transient | AuthFatal | SecurityFatal.

(** [str::contains]. *)
Fixpoint contains_str (needle s : list Z) : bool :=
  bool_decide (needle `prefix_of` s) || match s with [] => false | _ :: r => contains_str needle r end.

Definition classify_control_error (e : ControlError) : ErrorClass :=
  match e with
  | AuthRejected _ => AuthFatal
  | Http status _ => if (status =? 401) || (status =? 403) || (status =? 410) then AuthFatal else Transient
  | Transport s => if contains_str (bs "MachineAuthorized=false") s then AuthFatal else Transient
  | BadServerKey | ServerKeyChanged | UnpinnedHttpControl => SecurityFatal
  | _ => Transient
  end.

Definition RECONNECT_BACKOFF_CAP : Z := 60.

(** Seconds before jitter; [checked_shl] fails at a shift of 64. *)
Definition backoff_base (attempt : nat) : Z :=
  match attempt with
  | O => 0
  | S n => Z.min (if (n <? 64)%nat then 2 ^ Z.of_nat n else 2 ^ 64 - 1) RECONNECT_BACKOFF_CAP
  end.

(** * runtime.rs: the event loop *)

Inductive ControlSignal : Type := ForceReconnect | SetWantRunning (desired : bool) | Logout | LoginInteractive.

Section Loop.
Context {T : Type} `{TunnOps T} (region_keys : gmap (list Z) Z -> list (list Z)).

Definition clear_engine_peers (e : Engine T) (regions : gmap (list Z) Z) : Engine T :=
  foldl (fun e k => remove_peer k e) e (region_keys regions).
End Loop.

(** [MapClient::start]: a fresh map that resumes the persisted session. *)
Definition start_netmap (sv : Z * list Z) : NetMap :=
  mkNetMap [] None [] None ∅ ∅ ∅ sv.1 sv.2 [] ∅ None.

(** * Lemmas *)

(** What happens to a tracker. *)
Inductive LcEvent : Type :=
| LcMap (now : Z) | LcDerp (now : Z) | LcControlReconnect | LcDerpReconnect | LcTick (now : Z)
| LcFatal (kind : FatalKind) (reason : list Z) | LcNeedsLogin | LcClearLogin | LcStop | LcClearStop.

Definition lc_apply (t : LifecycleTracker) (e : LcEvent) : LifecycleTracker :=
  match e with
  | LcMap n => record_map_event n t
  | LcDerp n => record_derp_rx n t
  | LcControlReconnect => record_control_reconnect t
  | LcDerpReconnect => record_derp_reconnect t
  | LcTick n => tick n t
  | LcFatal k r => mark_fatal k r t
  | LcNeedsLogin => set_needs_login t
  | LcClearLogin => clear_needs_login t
  | LcStop => set_stopped t
  | LcClearStop => clear_stopped t
  end.

(** A first event was seen exactly when a last one was. *)
Definition signals_ok (t : LifecycleTracker) : Prop :=
  (is_Some (first_map_event t) <-> is_Some (last_map_event t)) /\
  (is_Some (first_derp_rx t) <-> is_Some (last_derp_rx t)).

Lemma tick_signals n t :
  first_map_event (tick n t) = first_map_event t /\ last_map_event (tick n t) = last_map_event t /\
  first_derp_rx (tick n t) = first_derp_rx t /\ last_derp_rx (tick n t) = last_derp_rx t /\
  state (tick n t) = compute_next_state n t.
Proof. unfold tick. by case_decide; cbn. Qed.

Lemma lc_apply_signals t e : signals_ok t -> signals_ok (lc_apply t e).
Proof.
  unfold signals_ok. intros [H1 H2].
  destruct e as [n|n| | |n|k r| | | |]; cbn [lc_apply].
  5: { by destruct (tick_signals n t) as (-> & -> & -> & -> & _). }
  all: unfold set_needs_login, clear_needs_login, set_stopped, clear_stopped;
    try case_decide; cbn; try done.
  - split; [|done]. destruct (first_map_event t); split; eauto.
  - split; [done|]. destruct (first_derp_rx t); split; eauto.
Qed.

Lemma lc_run_signals es : signals_ok (foldl lc_apply tracker_new es).
Proof.
  assert (Hg : forall t, signals_ok t -> signals_ok (foldl lc_apply t es)).
  { induction es as [|e es IH]; intros t Ht; [done|]. cbn [foldl]. by apply IH, lc_apply_signals. }
  apply Hg. split; cbn; split; intros [? ?]; done.
Qed.

Section LoopLemmas.
Context {T : Type} `{TunnOps T} {region_keys : gmap (list Z) Z -> list (list Z)}.

(** Removing every key of a table that lists the engine's peers empties it. *)
Lemma clear_engine_routes (e : Engine T) (regions : gmap (list Z) Z) :
  wf_engine e -> (forall k, k ∈ region_keys regions <-> is_Some (regions !! k)) ->
  (forall k, is_Some (engine_routes e !! k) -> is_Some (regions !! k)) ->
  engine_routes (clear_engine_peers region_keys e regions) = ∅.
Proof.
  intros Hwf Hk Hdom. unfold clear_engine_peers.
  destruct (removes_routes (region_keys regions) e Hwf) as (_ & _ & ->).
  apply map_eq. intros k. rewrite del_lookup, lookup_empty. case_decide as Hin; [done|].
  destruct (engine_routes e !! k) eqn:E; [|done]. exfalso. apply Hin, Hk, Hdom. by rewrite E.
Qed.
End LoopLemmas.

(** ** Samples *)

Definition toy_region_keys (m : gmap (list Z) Z) : list (list Z) := (map_to_list m).*1.

Lemma toy_region_keys_ok m k : k ∈ toy_region_keys m <-> is_Some (m !! k).
Proof.
  unfold toy_region_keys. rewrite list_elem_of_fmap. split.
  - intros ([k' p] & -> & Hp%elem_of_map_to_list). eauto.
  - intros [p Hp]. exists (k, p). split; [done|]. by apply elem_of_map_to_list.
Qed.

(** * Properties *)

(** the tracker reports Online exactly when it should: after any history, a
    tick of a runtime that is neither parked nor failed yields Online if and only
    if a map event and relay traffic have both been seen, fewer than five
    reconnects of either kind are outstanding, and the newer of the two signals is
    at most a minute old; parked and failed states are left alone by ticks. *)
Theorem lifecycle_online_iff es now (t := foldl lc_apply tracker_new es) :
  if is_fatal (state t) || bool_decide (state t = Stopped) then state (tick now t) = state t
  else state (tick now t) = Online <->
    exists m d, last_map_event t = Some m /\ last_derp_rx t = Some d /\
      (control_reconnects t < 5)%nat /\ (derp_reconnects t < 5)%nat /\ elapsed now (Z.max m d) <= DEGRADED_AFTER.
Proof.
  destruct (tick_signals now t) as (_ & _ & _ & _ & E). rewrite E. unfold compute_next_state.
  destruct (lc_run_signals es) as [S1 S2]. fold t in S1, S2.
  destruct (is_fatal (state t)) eqn:Ef; cbn [orb]; [done|].
  case_bool_decide as Hst; [by rewrite decide_True|]. rewrite decide_False by done.
  unfold OFFLINE_RECONNECT_THRESHOLD.
  destruct (Nat.leb_spec 5 (control_reconnects t)); cbn [orb];
    [split; [done|]; intros (? & ? & _ & _ & ? & _); lia|].
  destruct (Nat.leb_spec 5 (derp_reconnects t)); cbn [orb];
    [split; [done|]; intros (? & ? & _ & _ & _ & ? & _); lia|].
  destruct (last_map_event t) as [m|] eqn:Em.
  2: { destruct (first_map_event t) as [fm|]; [|split; [done|by intros (? & ? & ? & _)]].
       destruct (proj1 S1 (mk_is_Some _ _ eq_refl)) as [? [=]]. }
  destruct (proj2 S1 (mk_is_Some _ _ eq_refl)) as [fm ->].
  destruct (last_derp_rx t) as [d|] eqn:Ed.
  2: { destruct (first_derp_rx t) as [fd|]; [|split; [done|by intros (? & ? & _ & ? & _)]].
       destruct (proj1 S2 (mk_is_Some _ _ eq_refl)) as [? [=]]. }
  destruct (proj2 S2 (mk_is_Some _ _ eq_refl)) as [fd ->].
  destruct (Z.ltb_spec DEGRADED_AFTER (elapsed now (Z.max m d))).
  - split; [done|]. intros (? & ? & [= <-] & [= <-] & _ & _ & ?). lia.
  - split; [intros _; by exists m, d|done].
Qed.
