(* ===== verification/Login.v ===== *)
(** Connecting and logging in: the choice of the server key and the connection
    (tailscale-vita: runtime.rs, establish_control_conn), registration and logout
    (ts-control: register.rs) and the interactive login loop (interactive_login).

    The HTTP clients, JSON, base64, the clock and the dialled socket are inputs;
    one pass of the login loop has the answers it gets. *)

From S2P Require Import Prelude Text VitaFs Keys Noise Runtime.
#[local] Open Scope Z_scope.

(** ** Configuration *)

Record Config : Type := mkConfig {
  control_url : list Z; control_server_key : option (list Z); insecure_allow_http_control : bool;
  auth_key : list Z; cfg_hostname : list Z; capver : Z
}.

(** [trim_end_matches('/')]. *)
Definition trim_slashes (s : list Z) : list Z := reverse (skip_slashes (reverse s)).

(** [host:port] of the control URL. *)
Definition host_authority (cfg : Config) : list Z :=
  let s := control_url cfg in
  match strip_prefix (bs "https://") s with
  | Some rest => trim_slashes rest
  | None => match strip_prefix (bs "http://") s with Some rest => trim_slashes rest | None => trim_slashes s end
  end.

(** ** register.rs *)

Definition REGISTER_VERSION : Z := CAPVER.
Definition REGISTER_APP : list Z := bs "tailscale-vita/0.1.0".
Definition LOGOUT_EXPIRY : list Z := bs "1970-01-01T00:02:03Z".

Record HostinfoWire : Type := mkHostinfoWire {
  h_hostname : list Z; h_app : list Z; h_ipn_version : list Z; h_os : list Z; h_os_version : list Z; h_backend_log_id : list Z
}.

Record RegisterRequestWire : Type := mkRegister {
  rr_version : Z; rr_node_key : list Z; rr_nl_key : list Z; rr_auth : option (list Z); rr_followup : option (list Z);
  rr_hostinfo : HostinfoWire; rr_timestamp : list Z; rr_expiry : option (list Z); rr_ephemeral : bool
}.

Record RegisterResponseWire : Type := mkRegisterResponse {
  machine_authorized : bool; auth_url : list Z; node_key_expired : bool; rp_error : list Z
}.

Record RegistrationOutcome : Type := mkOutcome {
  o_machine_authorized : bool; o_node_key_expired : bool; pending_auth_url : option (list Z)
}.

Definition auth_field (key : list Z) : option (list Z) := match key with [] => None | _ => Some key end.

(** [timestamp] is [now_rfc3339()]. *)
Definition build_request (timestamp : result ControlError (list Z)) (auth : option (list Z)) (node_pub nl_pub backend_log_id hostname : list Z)
    (followup expiry : option (list Z)) : result ControlError RegisterRequestWire :=
  t ← timestamp;
  Ok (mkRegister REGISTER_VERSION (to_nodekey_string node_pub) (to_nlkey_string nl_pub) auth followup
        (mkHostinfoWire hostname REGISTER_APP REGISTER_APP [] [] backend_log_id) t expiry false).

Definition interpret_register_response (parsed : RegisterResponseWire) (auth_key_supplied : bool) :
    result ControlError RegistrationOutcome :=
  if negb (bool_decide (rp_error parsed = [])) then Err (Transport (bs "register: server Error=" ++ rp_error parsed))
  else if negb (bool_decide (auth_url parsed = [])) && negb (machine_authorized parsed) then
    if auth_key_supplied then Err (AuthRejected (auth_url parsed))
    else Ok (mkOutcome false (node_key_expired parsed) (Some (auth_url parsed)))
  else if negb (machine_authorized parsed) then
    if node_key_expired parsed then Ok (mkOutcome false true None)
    else Err (Transport (bs "register: MachineAuthorized=false (no AuthURL)"))
  else Ok (mkOutcome (machine_authorized parsed) (node_key_expired parsed) None).

Definition interpret_logout_response (parsed : RegisterResponseWire) : result ControlError bool :=
  if negb (bool_decide (rp_error parsed = [])) then Err (Transport (bs "logout: server Error=" ++ rp_error parsed))
  else Ok (node_key_expired parsed).

Section Register.
(** The answer of the HTTP/2 connection to a request: status and body; JSON. *)
Context (conn : RegisterRequestWire -> result ControlError (Z * list Z)) (json : list Z -> option RegisterResponseWire).

(** The exchange both share. *)
Definition post_register (req : RegisterRequestWire) : result ControlError RegisterResponseWire :=
  match conn req with
  | Err e => Err e
  | Ok (status, body) =>
      if negb (status =? 200) then Err (Http status (from_utf8_lossy body))
      else match json body with Some r => Ok r | None => Err Json end
  end.

(** [register] and [logout]: the request sent, if any, and the result. *)
Definition register (timestamp : result ControlError (list Z)) (key node_pub nl_pub log_id hostname : list Z) (followup : option (list Z)) :
    option RegisterRequestWire * result ControlError RegistrationOutcome :=
  match build_request timestamp (auth_field key) node_pub nl_pub log_id hostname followup None with
  | Err e => (None, Err e)
  | Ok req => (Some req, r ← post_register req; interpret_register_response r (negb (bool_decide (key = []))))
  end.

Definition logout (timestamp : result ControlError (list Z)) (node_pub nl_pub log_id hostname : list Z) :
    option RegisterRequestWire * result ControlError bool :=
  match build_request timestamp None node_pub nl_pub log_id hostname None (Some LOGOUT_EXPIRY) with
  | Err e => (None, Err e)
  | Ok req => (Some req, r ← post_register req; interpret_logout_response r)
  end.
End Register.

(** ** The connection *)

(** The upgrade request of [dial_and_upgrade]. *)
Definition upgrade_request (host handshake_b64 : list Z) : list Z :=
  let crlf := [13; 10] in
  bs "POST /ts2021 HTTP/1.1" ++ crlf ++ bs "Host: " ++ host ++ crlf ++ bs "User-Agent: tailscale-vita/0.1.0" ++ crlf ++
  bs "Connection: Upgrade" ++ crlf ++ bs "Upgrade: tailscale-control-protocol" ++ crlf ++
  bs "X-Tailscale-Handshake: " ++ handshake_b64 ++ crlf ++ bs "Content-Length: 0" ++ crlf ++ crlf.

(** A socket is dialled: TLS or not, host, port and the bytes sent. *)
Record Dial : Type := mkDial { d_tls : bool; d_host : list Z; d_port : Z; d_request : list Z }.

Section Connect.
Context {W : Type} `{Fs W} {St Hs : Type} `{NoiseOps St Hs}.
(** httparse; the JSON field of the key response; base64; snow's handshake from
    our private key and the server's key; and the HTTP/2 preface. *)
Context (parse_response : list Z -> option (option Z)) (public_key : list Z -> option (list Z)) (base64 : list Z -> list Z).
Context (hs_new : list Z -> list Z -> result ControlError Hs) (h2_open : NoiseStream St -> result ControlError unit).

(** What one attempt meets: the clock, the key server and the control server. *)
Record ConnEnv : Type := mkConnEnv {
  e_now : option Z; e_get : list Z -> option (Z * list Z); e_dial : Dial -> result ControlError (list Readable)
}.

(** Where the server's key comes from. *)
Definition server_key_for (env : ConnEnv) (cfg : Config) (dir : list Z) (w : W) : outcome (W * result ControlError (list Z)) :=
  let cached := fetch_server_key_cached (e_now env) (e_get env) public_key (control_url cfg) (capver cfg) dir w in
  if bool_decide (is_Some (strip_prefix (bs "http://") (control_url cfg))) then
    match control_server_key cfg with
    | Some pin => r ← from_mkey_str pin; Val (w, r)
    | None => if insecure_allow_http_control cfg then cached else Val (w, Err UnpinnedHttpControl)
    end
  else cached.

(** [dial_and_upgrade]: the bytes that follow the head of the answer. *)
Definition dial_and_upgrade (env : ConnEnv) (url handshake_b64 : list Z) : result ControlError (list Z * list Readable) :=
  u ← parse_url url;
  src ← e_dial env (mkDial (bool_decide (scheme u = bs "https")) (host u) (port u) (upgrade_request (host u) handshake_b64));
  match read_101 parse_response src with (Err e, _) => Err e | (Ok leftover, src) => Ok (leftover, src) end.

(** [establish_control_conn]: a failed handshake forgets the cached key. *)
Definition establish_control_conn (env : ConnEnv) (cfg : Config) (ks : KeyStore) (dir : list Z) (w : W) :
    outcome (W * result ControlError (NoiseStream St)) :=
  '(w, key) ← server_key_for env cfg dir w;
  match key with
  | Err e => Val (w, Err e)
  | Ok server_pub =>
      match hs_new (machine_priv ks) server_pub with
      | Err e => Val (invalidate_server_key_cache dir w, Err e)
      | Ok hs =>
          match build_init_envelope hs with
          | Err e => Val (w, Err e)
          | Ok (hs, envelope) =>
              match dial_and_upgrade env (control_url cfg) (base64 envelope) with
              | Err e => Val (w, Err e)
              | Ok (leftover, src) =>
                  match read_server_response leftover src with
                  | (Err e, _) => Val (w, Err e)
                  | (Ok (response, leftover), src) =>
                      match finalize hs response with
                      | Err e => Val (invalidate_server_key_cache dir w, Err e)
                      | Ok nt =>
                          match consume_early_payload (stream_new src nt leftover) with
                          | (_, Err e) => Val (w, Err e)
                          | (st, Ok _) => Val (w, _ ← h2_open st; Ok st)
                          end
                      end
                  end
              end
          end
      end
  end.

(** ** The login loop *)

Inductive LoginAbort : Type := Parked | LoggedOut | Shutdown.

(** [peek_login_abort]: what stops a login, and the signals left in the queue. *)
Fixpoint peek_signals (signals : list ControlSignal) : option LoginAbort * list ControlSignal :=
  match signals with
  | [] => (None, [])
  | SetWantRunning false :: r => (Some Parked, r)
  | Logout :: r => (Some LoggedOut, r)
  | _ :: r => peek_signals r
  end.
Definition peek_login_abort (should_stop : bool) (signals : list ControlSignal) : option LoginAbort * list ControlSignal :=
  if should_stop then (Some Shutdown, signals) else peek_signals signals.

(** The fields of the published snapshot that a login writes. *)
Record LoginView : Type := mkView { v_lifecycle : OnlineState; v_auth_url : option (list Z); v_login_in_progress : bool }.

Inductive LoginEnd : Type := Authorized (conn : NoiseStream St) | Aborted (reason : LoginAbort) | LoginErr (e : ControlError).

(** What one pass meets. *)
Record Pass : Type := mkPass {
  p_abort : option LoginAbort; p_env : ConnEnv; p_timestamp : result ControlError (list Z);
  p_conn : RegisterRequestWire -> result ControlError (Z * list Z)
}.

(** The loop's variables, and the exchanges so far. *)
Record LoginState : Type := mkLogin {
  l_disk : W * nat; l_ks : KeyStore; l_followup : option (list Z); l_tracker : LifecycleTracker; l_view : LoginView;
  l_exchanges : list (RegisterRequestWire * result ControlError RegistrationOutcome)
}.

Definition publish_login_state (t : LifecycleTracker) (url : option (list Z)) (in_progress : bool) : LoginView :=
  mkView (state t) url in_progress.

Context (json : list Z -> option RegisterResponseWire).
Context (pid : Z) (secret : nat -> list Z) (derive_pub : list Z -> list Z).
Context (cfg : Config) (dir log_id : list Z).

Definition login_key : list Z := trim (auth_key cfg).
Definition key_supplied : bool := negb (bool_decide (login_key = [])).

Definition set_disk (w : W) (s : LoginState) : LoginState :=
  mkLogin (w, (l_disk s).2) (l_ks s) (l_followup s) (l_tracker s) (l_view s) (l_exchanges s).
Definition record_exchange (req : option RegisterRequestWire) (r : result ControlError RegistrationOutcome) (s : LoginState) : LoginState :=
  match req with
  | Some req => mkLogin (l_disk s) (l_ks s) (l_followup s) (l_tracker s) (l_view s) (l_exchanges s ++ [(req, r)])
  | None => s
  end.

(** After an answer of the server that is not an error. *)
Definition on_outcome (conn : NoiseStream St) (o : RegistrationOutcome) (s : LoginState) : LoginState * option LoginEnd :=
  if o_node_key_expired o && negb (o_machine_authorized o) then
    let '(disk, r) := regenerate_node_key pid secret derive_pub dir (l_ks s) (l_disk s) in
    match r with
    | Err e => (mkLogin disk (l_ks s) (l_followup s) (l_tracker s) (l_view s) (l_exchanges s), Some (LoginErr e))
    | Ok ks => (mkLogin disk ks None (l_tracker s) (l_view s) (l_exchanges s), None)
    end
  else if o_machine_authorized o then
    let t := clear_needs_login (l_tracker s) in
    (mkLogin (l_disk s) (l_ks s) (l_followup s) t (publish_login_state t None false) (l_exchanges s), Some (Authorized conn))
  else
    match pending_auth_url o with
    | Some url =>
        let t := set_needs_login (l_tracker s) in
        (mkLogin (l_disk s) (l_ks s) (Some url) t (publish_login_state t (Some url) true) (l_exchanges s), None)
    | None =>
        (s, if key_supplied then Some (LoginErr (Transport (bs "register: not authorized and no AuthURL"))) else None)
    end.

(** One pass of the loop: [None] is another pass. *)
Definition login_pass (p : Pass) (s : LoginState) : outcome (LoginState * option LoginEnd) :=
  match p_abort p with
  | Some reason =>
      Val (mkLogin (l_disk s) (l_ks s) (l_followup s) (l_tracker s) (publish_login_state (l_tracker s) None false) (l_exchanges s),
           Some (Aborted reason))
  | None =>
      '(w, c) ← establish_control_conn (p_env p) cfg (l_ks s) dir (l_disk s).1;
      let s := set_disk w s in
      match c with
      | Err e => Val (s, if key_supplied then Some (LoginErr e) else None)
      | Ok conn =>
          let '(req, r) := register (p_conn p) json (p_timestamp p) login_key (node_pub (l_ks s)) (nl_pub (l_ks s)) log_id (cfg_hostname cfg) (l_followup s) in
          let s := record_exchange req r s in
          match r with
          | Err (AuthRejected u) => Val (s, Some (LoginErr (AuthRejected u)))
          | Err e => Val (s, if key_supplied then Some (LoginErr e) else None)
          | Ok o => Val (on_outcome conn o s)
          end
      end
  end.

Fixpoint login_loop (ps : list Pass) (s : LoginState) : outcome (LoginState * option LoginEnd) :=
  match ps with
  | [] => Val (s, None)
  | p :: ps =>
      '(s, e) ← login_pass p s;
      match e with Some e => Val (s, Some e) | None => login_loop ps s end
  end.

(** [interactive_login]; [None] at the end: it is still waiting. *)
Definition interactive_login (ps : list Pass) (disk : W * nat) (ks : KeyStore) (t : LifecycleTracker) : outcome (LoginState * option LoginEnd) :=
  let t := if key_supplied then t else set_needs_login t in
  login_loop ps (mkLogin disk ks None t (publish_login_state t None true) []).
End Connect.
Arguments LoginState W : clear implicits.

(** * Lemmas *)

(** ** Trust *)

(** Two environments that answer alike where nothing goes in clear. *)
Definition same_tls (a b : ConnEnv) : Prop :=
  e_now a = e_now b /\
  (forall u, is_Some (strip_prefix (bs "https://") u) -> e_get a u = e_get b u) /\
  (forall x, d_tls x = true -> e_dial a x = e_dial b x).

(** A URL that parses and does not start with [http://] has the other scheme. *)
Lemma parse_https url u : strip_prefix (bs "http://") url = None -> parse_url url = Ok u -> scheme u = bs "https".
Proof.
  intros Hn. unfold parse_url. destruct (split_str (bs "://") url) as [[sch rest]|] eqn:E; [|done]. apply split_str_spec in E.
  case_decide as Hs; [subst sch url; exfalso; rewrite app_assoc in Hn; change (bs "http" ++ bs "://") with (bs "http://") in Hn;
                      by rewrite strip_prefix_app in Hn|].
  case_decide as Hs2; [|done]. cbn [mbind result_bind].
  destruct (match list_find (eq 47) rest with Some (idx, _) => (take idx rest, drop idx rest) | None => (rest, bs "/") end) as [authority path].
  destruct (rsplit_once 58 authority) as [[h p]|]; [destruct (parse_u16 p); [|done]|]; by intros [= <-].
Qed.

Lemma is_some_none {A} (x : option A) : bool_decide (is_Some x) = false -> x = None.
Proof. intros H%bool_decide_eq_false. destruct x; [|done]. by destruct H. Qed.

Section Trust.
Context {W : Type} `{Fs W} {St Hs : Type} `{NoiseOps St Hs}.
Context (parse_response : list Z -> option (option Z)) (public_key : list Z -> option (list Z)) (base64 : list Z -> list Z).
Context (hs_new : list Z -> list Z -> result ControlError Hs) (h2_open : NoiseStream St -> result ControlError unit).
#[local] Abbreviation establish := (establish_control_conn (W := W) parse_response public_key base64 hs_new h2_open).

Lemma fetch_same_tls a b url v : same_tls a b -> strip_prefix (bs "http://") url = None ->
  fetch_server_key (e_get a) public_key url v = fetch_server_key (e_get b) public_key url v.
Proof.
  intros (_ & Hg & _) Hn. unfold fetch_server_key. destruct (parse_url url) as [u|] eqn:E; [|done].
  rewrite (parse_https _ _ Hn E). rewrite Hg; [done|]. rewrite app_assoc. change (bs "https" ++ bs "://") with (bs "https://").
  rewrite strip_prefix_app. done.
Qed.

Lemma dial_same_tls a b url h : same_tls a b -> strip_prefix (bs "http://") url = None ->
  dial_and_upgrade parse_response a url h = dial_and_upgrade parse_response b url h.
Proof.
  intros (_ & _ & Hd) Hn. unfold dial_and_upgrade. destruct (parse_url url) as [u|] eqn:E; [|done]. cbn [mbind result_bind].
  rewrite Hd; [done|]. cbn [d_tls]. by rewrite (parse_https _ _ Hn E), bool_decide_true.
Qed.

(** What happens once the key is known. *)
Lemma establish_dial a b cfg ks dir w : server_key_for public_key a cfg dir w = server_key_for public_key b cfg dir w ->
  (forall h, dial_and_upgrade parse_response a (control_url cfg) h = dial_and_upgrade parse_response b (control_url cfg) h) ->
  establish a cfg ks dir w = establish b cfg ks dir w.
Proof.
  intros Hk Hd. unfold establish_control_conn. rewrite Hk. destruct (server_key_for public_key b cfg dir w) as [[w1 [k|e]]| |]; [|done..].
  cbn [mbind outcome_bind]. destruct (hs_new (machine_priv ks) k) as [hs|]; [|done]. destruct (build_init_envelope hs) as [[hs' env]|]; [|done].
  by rewrite Hd.
Qed.

Lemma establish_same_tls a b cfg ks dir w : same_tls a b -> strip_prefix (bs "http://") (control_url cfg) = None ->
  establish a cfg ks dir w = establish b cfg ks dir w.
Proof.
  intros Hab Hn. apply establish_dial; [|by intros h; apply dial_same_tls]. unfold server_key_for, fetch_server_key_cached.
  rewrite Hn, (fetch_same_tls a b) by done. by destruct Hab as [-> _].
Qed.

(** The result of a connection, without the files. *)
Definition conn_result {A} (x : outcome (W * result ControlError A)) : outcome (result ControlError A) := snd <$> x.

Lemma establish_pinned a b cfg ks dir w w' pin rest :
  strip_prefix (bs "http://") (control_url cfg) = Some rest -> control_server_key cfg = Some pin -> e_dial a = e_dial b ->
  conn_result (establish a cfg ks dir w) = conn_result (establish b cfg ks dir w').
Proof.
  intros Hu Hp Hd. unfold establish_control_conn, server_key_for. rewrite Hu, Hp, bool_decide_true by done.
  destruct (from_mkey_str pin) as [[k|e]| |]; cbn [mbind outcome_bind]; [|done..].
  destruct (hs_new (machine_priv ks) k) as [hs|]; [|done]. destruct (build_init_envelope hs) as [[hs' env]|]; [|done].
  unfold dial_and_upgrade. rewrite Hd. destruct (u ← parse_url (control_url cfg); _) as [[l src]|]; [|done].
  destruct (read_server_response l src) as [[[resp l2]|] src2]; [|done]. destruct (finalize hs' resp) as [nt|]; [|done].
  destruct (consume_early_payload _) as [st [[]|]]; done.
Qed.

(** Where the server key of an attempt comes from: the pin, the cached file, or
    the answer of the key server to the request for the control URL. *)
Definition asks_server (cfg : Config) : Prop :=
  is_Some (strip_prefix (bs "http://") (control_url cfg)) -> control_server_key cfg = None /\ insecure_allow_http_control cfg = true.

Inductive key_origin (env : ConnEnv) (cfg : Config) (dir : list Z) (w : W) (key : list Z) : Prop :=
| origin_pinned pin : is_Some (strip_prefix (bs "http://") (control_url cfg)) -> control_server_key cfg = Some pin ->
    from_mkey_str pin = Val (Ok key) -> key_origin env cfg dir w key
| origin_cached : asks_server cfg -> read_cached_key (e_now env) dir w = Val (Some key) -> key_origin env cfg dir w key
| origin_fetched u body text : asks_server cfg -> read_cached_key (e_now env) dir w = Val None -> parse_url (control_url cfg) = Ok u ->
    e_get env (scheme u ++ bs "://" ++ host u ++ bs ":" ++ dec (port u) ++ bs "/key?v=" ++ dec (capver cfg)) = Some (200, body) ->
    public_key body = Some text -> from_mkey_str text = Val (Ok key) -> key_origin env cfg dir w key.

Lemma cached_origin env cfg dir w w' key : asks_server cfg ->
  fetch_server_key_cached (e_now env) (e_get env) public_key (control_url cfg) (capver cfg) dir w = Val (w', Ok key) -> key_origin env cfg dir w key.
Proof.
  intros Ha. unfold fetch_server_key_cached. destruct (read_cached_key (e_now env) dir w) as [[k|]| |] eqn:Er; cbn [mbind outcome_bind]; [|..|done|done].
  - intros E. injection E as _ ->. by apply origin_cached.
  - unfold fetch_server_key. destruct (parse_url (control_url cfg)) as [u|] eqn:Eu; cbn [mbind outcome_bind]; [|done].
    destruct (e_get env _) as [[status body]|] eqn:Eg; cbn [mbind outcome_bind]; [|done].
    destruct (Z.eqb_spec status 200) as [->|]; cbn [negb]; [|done]. destruct (public_key body) as [text|] eqn:Ep; cbn [mbind outcome_bind]; [|done].
    destruct (from_mkey_str text) as [[k|]| |] eqn:Ek; cbn [mbind outcome_bind]; [|done..]. intros E. injection E as _ ->.
    by eapply origin_fetched.
Qed.

Lemma server_key_origin env cfg dir w w' key : server_key_for public_key env cfg dir w = Val (w', Ok key) -> key_origin env cfg dir w key.
Proof.
  unfold server_key_for. destruct (bool_decide_reflect (is_Some (strip_prefix (bs "http://") (control_url cfg)))) as [Hh|Hh].
  - destruct (control_server_key cfg) as [pin|] eqn:Ep.
    + destruct (from_mkey_str pin) as [r| |] eqn:Ek; cbn [mbind outcome_bind]; [|done..]. intros E. injection E as _ ->. by eapply origin_pinned.
    + destruct (insecure_allow_http_control cfg) eqn:Ei; [|done]. apply cached_origin. by intros _.
  - apply cached_origin. by intros ?.
Qed.

(** The handshake behind a connection: made with our machine key and [key], sent
    to the control URL, answered by the response [finalize] accepts. *)
Definition keyed_with (env : ConnEnv) (cfg : Config) (ks : KeyStore) (key : list Z) (st : NoiseStream St) : Prop :=
  exists hs hs' envelope leftover src response rest src' nt,
    hs_new (machine_priv ks) key = Ok hs /\ build_init_envelope hs = Ok (hs', envelope) /\
    dial_and_upgrade parse_response env (control_url cfg) (base64 envelope) = Ok (leftover, src) /\
    read_server_response leftover src = (Ok (response, rest), src') /\ finalize hs' response = Ok nt /\
    consume_early_payload (stream_new src' nt rest) = (st, Ok tt).

Lemma establish_keyed env cfg ks dir w w' st : establish env cfg ks dir w = Val (w', Ok st) ->
  exists key, key_origin env cfg dir w key /\ keyed_with env cfg ks key st.
Proof.
  unfold establish_control_conn. destruct (server_key_for public_key env cfg dir w) as [[w1 [key|]]| |] eqn:Ek; cbn [mbind outcome_bind]; [|done..].
  destruct (hs_new (machine_priv ks) key) as [hs|] eqn:Eh; [|done]. destruct (build_init_envelope hs) as [[hs' envelope]|] eqn:Eb; [|done].
  destruct (dial_and_upgrade _ _ _ _) as [[leftover src]|] eqn:Ed; [|done].
  destruct (read_server_response leftover src) as [[[response rest]|] src'] eqn:Er; [|done].
  destruct (finalize hs' response) as [nt|] eqn:Ef; [|done]. destruct (consume_early_payload _) as [st' [[]|]] eqn:Ec; [|done].
  destruct (h2_open st') as [[]|]; cbn [mbind result_bind]; intros E; [|done]. injection E as _ ->.
  exists key. split; [by eapply server_key_origin|]. unfold keyed_with. repeat eexists; done.
Qed.
End Trust.

(** ** Files *)

Section Disk.
Context {W : Type} {d : list Z} `{FsLaws W d} (pid : Z) (Hpid : 0 <= pid).
#[local] Abbreviation holds := (Keys.holds (d := d)).

(** The key files and their temporary files are not the cache's. *)
Definition apart (m : list Z) : Prop := own_name m /\ m ∉ cache_files.

Lemma key_file_apart f : f ∈ key_files -> apart f /\ apart (tmp_name pid f).
Proof.
  intros Hf. destruct (key_file_facts f Hf) as [Hp _]. split; (split; [done || by apply tmp_plain|]).
  - revert Hf. unfold key_files. rewrite !elem_of_cons, elem_of_nil.
    intros [->|[->|[->|[->|[]]]]]; apply (bool_decide_unpack _); vm_compute; done.
  - unfold cache_files. rewrite !not_elem_of_cons. split_and!; [..|apply not_elem_of_nil];
      (eapply tmp_name_ne; [done|vm_compute; reflexivity|lia]).
Qed.

(** The files that are not the cache's hold what they did. *)
Definition others_kept (w w' : W) : Prop := forall m, apart m -> holds w' m = holds w m.

Lemma fetch_others now get pk url v w w' r : fetch_server_key_cached now get pk url v d w = Val (w', r) -> others_kept w w'.
Proof.
  unfold fetch_server_key_cached. destruct (read_cached_key now d w) as [[k|]| |]; cbn [mbind outcome_bind]; try done; [by intros [= <- _]|].
  destruct (fetch_server_key get pk url v) as [[k|]| |]; cbn [mbind outcome_bind]; try done; [|by intros [= <- _]].
  intros [= <- _] m [Hm Hc]. by apply cache_write_other.
Qed.

Lemma stored_kept derive_pub w w' ks : others_kept w w' -> stored (d := d) derive_pub w ks -> stored (d := d) derive_pub w' ks.
Proof.
  intros Hk [E Hs]. split; [done|]. intros f b Hf. rewrite Hk; [by apply Hs|].
  apply key_file_apart. revert Hf. unfold key_files. rewrite !elem_of_cons, !elem_of_nil.
  intros [[= -> _]|[[= -> _]|[[= -> _]|[[= -> _]|[]]]]]; auto.
Qed.

Lemma leftover_kept w w' : others_kept w w' -> no_leftover (d := d) pid w -> no_leftover (d := d) pid w'.
Proof. intros Hk Hn f Hf. rewrite Hk; [by apply Hn|]. by apply key_file_apart. Qed.
End Disk.

Section Establish.
Context {W : Type} {d : list Z} `{FsLaws W d} {St Hs : Type} `{NoiseOps St Hs}.
Context (parse_response : list Z -> option (option Z)) (public_key : list Z -> option (list Z)) (base64 : list Z -> list Z).
Context (hs_new : list Z -> list Z -> result ControlError Hs) (h2_open : NoiseStream St -> result ControlError unit).

Lemma establish_others env cfg ks w w' r :
  establish_control_conn parse_response public_key base64 hs_new h2_open env cfg ks d w = Val (w', r) -> others_kept (d := d) w w'.
Proof.
  unfold establish_control_conn. destruct (server_key_for public_key env cfg d w) as [[w1 key]| |] eqn:E; cbn [mbind outcome_bind]; try done.
  assert (K1 : others_kept (d := d) w w1).
  { revert E. unfold server_key_for. destruct (bool_decide _); [|apply fetch_others].
    destruct (control_server_key cfg) as [pin|].
    - destruct (from_mkey_str pin) as [x| |]; cbn [mbind outcome_bind]; try done. by intros [= <- _].
    - destruct (insecure_allow_http_control cfg); [apply fetch_others|]. by intros [= <- _]. }
  assert (K2 : others_kept (d := d) w (invalidate_server_key_cache d w1)).
  { intros m Hm. rewrite <- K1 by done. destruct Hm. by apply cache_invalidate_other. }
  destruct key as [k|]; [|by intros [= <- _]]. destruct (hs_new (machine_priv ks) k) as [hs|]; [|by intros [= <- _]].
  destruct (build_init_envelope hs) as [[hs' e]|]; [|by intros [= <- _]].
  destruct (dial_and_upgrade parse_response env _ _) as [[l src]|]; [|by intros [= <- _]].
  destruct (read_server_response l src) as [[[resp l2]|] src2]; [|by intros [= <- _]]. destruct (finalize hs' resp) as [nt|]; [|by intros [= <- _]].
  by destruct (consume_early_payload _) as [st [[]|]]; intros [= <- _].
Qed.
End Establish.

(** ** Answers *)

(** What an answer that is not an error came from. *)
Lemma register_ok conn json ts key np nl log host fu req o :
  register conn json ts key np nl log host fu = (req, Ok o) ->
  exists rq body resp, req = Some rq /\ conn rq = Ok (200, body) /\ json body = Some resp /\ rp_error resp = [] /\
    o_machine_authorized o = machine_authorized resp /\
    (key <> [] -> pending_auth_url o = None) /\
    (o_machine_authorized o = false -> o_node_key_expired o = false -> is_Some (pending_auth_url o)) /\
    o_node_key_expired o = node_key_expired resp.
Proof.
  unfold register. destruct (build_request _ _ _ _ _ _ _ _) as [rq|]; [|done]. intros [= <- E]. revert E. unfold post_register.
  destruct (conn rq) as [[status body]|] eqn:Ec; [|done]. destruct (Z.eqb_spec status 200) as [->|]; cbn [negb]; [|done].
  destruct (json body) as [resp|] eqn:Ej; [|done]. cbn [mbind result_bind]. unfold interpret_register_response. intros E.
  exists rq, body, resp. split; [done|]. split; [done|]. split; [done|].
  destruct (bool_decide_reflect (rp_error resp = [])) as [->|]; cbn [negb] in E; [|done]. split; [done|].
  destruct (bool_decide_reflect (auth_url resp = [])), (machine_authorized resp), (node_key_expired resp),
    (bool_decide_reflect (key = [])); cbn in E; try discriminate; injection E as <-; cbn; split_and!; try done; eauto.
Qed.

Lemma register_request conn json ts key np nl log host fu req r :
  register conn json ts key np nl log host fu = (Some req, r) ->
  rr_node_key req = to_nodekey_string np /\ rr_auth req = auth_field key /\ rr_followup req = fu /\ rr_expiry req = None /\ rr_ephemeral req = false.
Proof. unfold register, build_request. destruct ts; cbn [mbind result_bind]; [|done]. by intros [= <- _]. Qed.

(** With a key, a refusal is the only kind of [AuthRejected]; without one there is
    none, unless the connection invents it. *)
Lemma register_interactive conn json ts np nl log host fu req u :
  register conn json ts [] np nl log host fu = (req, Err (AuthRejected u)) ->
  ts = Err (AuthRejected u) \/ exists rq, conn rq = Err (AuthRejected u).
Proof.
  unfold register, build_request. destruct ts as [t|e]; cbn [mbind result_bind]; [|intros [= _ ->]; by left].
  intros [= _ E]. right. revert E. unfold post_register. set (rq := mkRegister _ _ _ _ _ _ _ _ _).
  destruct (conn rq) as [[status body]|e] eqn:Ec; [|cbn; intros [= ->]; eauto]. destruct (negb (status =? 200)); [done|].
  destruct (json body) as [resp|]; [|done]. cbn [mbind result_bind]. unfold interpret_register_response.
  destruct (negb (bool_decide (rp_error resp = []))); [done|]. destruct (negb (bool_decide (auth_url resp = [])) && _); [done|].
  destruct (negb (machine_authorized resp)); [destruct (node_key_expired resp)|]; done.
Qed.

(** ** The loop *)

(** An exchange without an auth key follows up a URL only when an earlier answer
    to the same node key gave it. *)
Definition backed (l : list (RegisterRequestWire * result ControlError RegistrationOutcome)) (node_key url : list Z) : Prop :=
  exists req o, (req, Ok o) ∈ l /\ rr_node_key req = node_key /\ pending_auth_url o = Some url /\ o_machine_authorized o = false.

Inductive exchanges_ok (key : list Z) : list (RegisterRequestWire * result ControlError RegistrationOutcome) -> Prop :=
| exchanges_nil : exchanges_ok key []
| exchanges_snoc l req r : exchanges_ok key l ->
    rr_auth req = auth_field key -> rr_expiry req = None -> rr_ephemeral req = false ->
    (forall url, rr_followup req = Some url -> backed l (rr_node_key req) url) ->
    exchanges_ok key (l ++ [(req, r)]).

(** The server says that the node key has expired. *)
Definition retried (x : RegisterRequestWire * result ControlError RegistrationOutcome) : Prop :=
  exists o, x.2 = Ok o /\ o_node_key_expired o = true /\ o_machine_authorized o = false.

(** [key_history new k0 l k]: starting with the node key [k0], every request of [l]
    carried the node key of its time; the key became another, one of [new], right
    after the answers that say it has expired and at no other time, and is [k] now. *)
Inductive key_history (new : list Z -> Prop) (k0 : list Z) :
    list (RegisterRequestWire * result ControlError RegistrationOutcome) -> list Z -> Prop :=
| history_start : key_history new k0 [] k0
| history_kept l k x : key_history new k0 l k -> rr_node_key x.1 = to_nodekey_string k -> ~ retried x -> key_history new k0 (l ++ [x]) k
| history_new l k k' x : key_history new k0 l k -> rr_node_key x.1 = to_nodekey_string k -> retried x -> new k' -> key_history new k0 (l ++ [x]) k'.

(** The answer an exchange rests on, when it is not an error. *)
Definition answered (json : list Z -> option RegisterResponseWire) (p : Pass) (x : RegisterRequestWire * result ControlError RegistrationOutcome) : Prop :=
  match x.2 with
  | Err _ => True
  | Ok o => exists body resp, p_conn p x.1 = Ok (200, body) /\ json body = Some resp /\ rp_error resp = [] /\
      o_machine_authorized o = machine_authorized resp /\ o_node_key_expired o = node_key_expired resp
  end.

Lemma backed_snoc l x nk url : backed l nk url -> backed (l ++ [x]) nk url.
Proof. intros (req & o & Hin & H). exists req, o. split; [|done]. apply elem_of_app. by left. Qed.

Section Loop.
Context {W : Type} {d : list Z} `{FsLaws W d} {St Hs : Type} `{NoiseOps St Hs}.
Context (parse_response : list Z -> option (option Z)) (public_key : list Z -> option (list Z)) (base64 : list Z -> list Z).
Context (hs_new : list Z -> list Z -> result ControlError Hs) (h2_open : NoiseStream St -> result ControlError unit).
Context (json : list Z -> option RegisterResponseWire).
Context (pid : Z) (secret : nat -> list Z) (derive_pub : list Z -> list Z) (cfg : Config) (log_id : list Z).
Context (Hd : tidy d) (Hpid : 0 <= pid) (Hsecret : forall i, length (secret i) = 32%nat).
#[local] Abbreviation pass := (login_pass (W := W) parse_response public_key base64 hs_new h2_open json pid secret derive_pub cfg d log_id).
#[local] Abbreviation loop := (login_loop (W := W) parse_response public_key base64 hs_new h2_open json pid secret derive_pub cfg d log_id).
#[local] Abbreviation key := (login_key cfg).
#[local] Abbreviation history := (key_history (fun k => exists i, k = derive_pub (secret i))).

(** The identity of [ks0] but for the node key, on disk as in memory; the
    exchanges in order, the last URL answered for the key in use. *)
Record login_inv (ks0 : KeyStore) (s : LoginState W) : Prop := {
  li_stored : stored (d := d) derive_pub (l_disk s).1 (l_ks s);
  li_clean : no_leftover (d := d) pid (l_disk s).1;
  li_same : machine_priv (l_ks s) = machine_priv ks0 /\ disco_priv (l_ks s) = disco_priv ks0 /\ nl_priv (l_ks s) = nl_priv ks0;
  li_exchanges : exchanges_ok key (l_exchanges s);
  li_followup : forall url, l_followup s = Some url -> backed (l_exchanges s) (to_nodekey_string (node_pub (l_ks s))) url;
  li_history : history (node_pub ks0) (l_exchanges s) (node_pub (l_ks s))
}.

(** The last exchange was answered, in a pass of [ps], with the authorization of
    the node key on disk. *)
Definition authorized_by_server (ps : list Pass) (s : LoginState W) : Prop :=
  exists l req o p body resp, l_exchanges s = l ++ [(req, Ok o)] /\ p ∈ ps /\ p_conn p req = Ok (200, body) /\
    json body = Some resp /\ machine_authorized resp = true /\ rp_error resp = [] /\
    rr_node_key req = to_nodekey_string (derive_pub (node_priv (l_ks s))).

Definition end_ok (ps : list Pass) (s : LoginState W) (e : option (LoginEnd (St := St))) : Prop :=
  match e with Some (Authorized _) => authorized_by_server ps s | _ => True end.

Lemma stored_pub w ks : stored (d := d) derive_pub w ks -> node_pub ks = derive_pub (node_priv ks).
Proof. intros [E _]. by rewrite E at 1. Qed.

(** Before the answer is acted on: all but the last exchange is accounted for. *)
Record exchanged (ks0 : KeyStore) (l : list (RegisterRequestWire * result ControlError RegistrationOutcome)) (s : LoginState W) : Prop := {
  xi_stored : stored (d := d) derive_pub (l_disk s).1 (l_ks s);
  xi_clean : no_leftover (d := d) pid (l_disk s).1;
  xi_same : machine_priv (l_ks s) = machine_priv ks0 /\ disco_priv (l_ks s) = disco_priv ks0 /\ nl_priv (l_ks s) = nl_priv ks0;
  xi_exchanges : exchanges_ok key (l_exchanges s);
  xi_followup : forall url, l_followup s = Some url -> backed (l_exchanges s) (to_nodekey_string (node_pub (l_ks s))) url;
  xi_history : history (node_pub ks0) l (node_pub (l_ks s))
}.

Lemma on_outcome_inv ks0 p conn o s s' e l req :
  exchanged ks0 l s -> l_exchanges s = l ++ [(req, Ok o)] -> rr_node_key req = to_nodekey_string (node_pub (l_ks s)) ->
  answered json p (req, Ok o) ->
  on_outcome pid secret derive_pub cfg d conn o s = (s', e) ->
  e = Some (LoginErr (Io OtherError)) \/ (login_inv ks0 s' /\ end_ok [p] s' e).
Proof.
  intros [I1 I2 I3 I4 I5 I6] Hl Hk (body & resp & Ha1 & Ha2 & Ha3 & Ha4 & Ha5). unfold on_outcome.
  destruct (o_node_key_expired o && negb (o_machine_authorized o)) eqn:Ex.
  - destruct (l_disk s) as [w n] eqn:Ed. cbn [fst] in *.
    destruct (regenerate_node_key pid secret derive_pub d (l_ks s) (w, n)) as [[w' n'] r] eqn:Er. destruct r as [ks|er]; intros [= <- <-].
    + right. split; [|done]. destruct (regenerate_spec pid Hd Hpid secret derive_pub Hsecret w n (l_ks s) w' n' (Ok ks) I2 I1 Er ks eq_refl) as (R1 & R2 & R0 & R3 & R4 & R5).
      split; cbn [l_disk l_ks l_followup l_exchanges fst]; [done|done| |done|done|]; [destruct I3 as (J1 & J2 & J3); split_and!; congruence|].
      rewrite Hl. apply andb_true_iff in Ex as [X1 X2%negb_true_iff]. eapply history_new; [exact I6|done|by exists o|].
      exists n. by rewrite (stored_pub _ _ R1), R0.
    + left. revert Er. unfold regenerate_node_key, generate_and_persist, lift, mbind, se_bind.
      destruct (atomic_write pid _ _ w) as [w1 [[]|ea]] eqn:Ea; [done|]. apply atomic_write_error in Ea as ->. by intros [= _ _ <-].
  - assert (I7 : history (node_pub ks0) (l_exchanges s) (node_pub (l_ks s))).
    { rewrite Hl. eapply history_kept; [exact I6|done|]. intros (o' & [= <-] & X1 & X2). by rewrite X1, X2 in Ex. }
    destruct (o_machine_authorized o) eqn:Eau.
    + intros [= <- <-]. right. split; [by split|].
      exists l, req, o, p, body, resp. cbn [l_exchanges l_ks]. split_and!; try done; [apply elem_of_cons; by left|].
      by rewrite <- (stored_pub _ _ I1).
    + destruct (pending_auth_url o) as [url|] eqn:Ep; intros [= <- <-]; right; (split; [|by destruct (key_supplied cfg)]); [|by split].
      split; cbn [l_disk l_ks l_followup l_exchanges]; try done. intros u [= <-]. exists req, o. rewrite Hl. split_and!; try done.
      apply elem_of_app. right. by apply list_elem_of_singleton.
Qed.

Lemma exchange_inv ks0 s p w req r :
  login_inv ks0 s -> others_kept (d := d) (l_disk s).1 w ->
  register (p_conn p) json (p_timestamp p) key (node_pub (l_ks s)) (nl_pub (l_ks s)) log_id (cfg_hostname cfg) (l_followup s) = (req, r) ->
  exchanged ks0 (l_exchanges s) (record_exchange req r (set_disk w s)).
Proof.
  intros [I1 I2 I3 I4 I5 I6] Hk E. assert (J1 := stored_kept pid Hpid derive_pub _ _ _ Hk I1). assert (J2 := leftover_kept pid Hpid _ _ Hk I2).
  destruct req as [req|]; cbn [record_exchange set_disk]; [|by split]. apply register_request in E as (R1 & R2 & R3 & R4 & R5).
  split; cbn [l_disk l_ks l_followup l_exchanges fst]; try done.
  - constructor; try done. intros url Hu. rewrite R1. apply I5. congruence.
  - intros url Hu. by apply backed_snoc, I5.
Qed.

(** An exchange that failed changes nothing. *)
Lemma failed_inv ks0 s p w req er :
  login_inv ks0 s -> others_kept (d := d) (l_disk s).1 w ->
  register (p_conn p) json (p_timestamp p) key (node_pub (l_ks s)) (nl_pub (l_ks s)) log_id (cfg_hostname cfg) (l_followup s) = (req, Err er) ->
  login_inv ks0 (record_exchange req (Err er) (set_disk w s)).
Proof.
  intros Hi Hk E. destruct (exchange_inv ks0 s p w req (Err er) Hi Hk E) as [X1 X2 X3 X4 X5 X6]. split; try done.
  destruct req as [req|]; cbn [record_exchange set_disk l_exchanges l_ks] in *; [|exact X6].
  apply register_request in E as (R1 & _). eapply history_kept; [exact X6|done|]. by intros (o & Ho & _).
Qed.

Lemma login_pass_inv ks0 p s s' e : login_inv ks0 s -> pass p s = Val (s', e) ->
  e = Some (LoginErr (Io OtherError)) \/ (login_inv ks0 s' /\ end_ok [p] s' e).
Proof.
  intros Hi. unfold login_pass. destruct (p_abort p); [intros [= <- <-]; right; split; [|done]; by destruct Hi|].
  destruct (establish_control_conn _ _ _ _ _ _ cfg _ d _) as [[w c]| |] eqn:Ee; cbn [mbind outcome_bind]; try done.
  apply establish_others in Ee. cbn [set_disk l_ks l_followup].
  destruct c as [conn|e0].
  2:{ intros [= <- <-]. right. split; [|by destruct (key_supplied cfg)]. destruct Hi as [I1 I2 I3 I4 I5 I6].
      split; cbn [set_disk l_disk l_ks l_followup l_exchanges fst]; try done; [by eapply stored_kept|by eapply leftover_kept]. }
  destruct (register _ _ _ _ _ _ _ _ _) as [req r] eqn:Er.
  destruct r as [o|er].
  - pose proof (exchange_inv ks0 s p w req (Ok o) Hi Ee Er) as Hx.
    intros [= E]. destruct (register_ok _ _ _ _ _ _ _ _ _ _ _ Er) as (rq & body & resp & -> & Hc & Hj & Hz & Ha & _ & _ & Hn).
    destruct (register_request _ _ _ _ _ _ _ _ _ _ _ Er) as (R1 & _).
    eapply (on_outcome_inv ks0 p conn o _ s' e (l_exchanges s) rq Hx); [done|done| |done]. by exists body, resp.
  - pose proof (failed_inv ks0 s p w req er Hi Ee Er) as Hx.
    intros E. right. destruct er; injection E as <- <-; (split; [done|]); try done; by destruct (key_supplied cfg).
Qed.

Lemma end_ok_mono ps ps' s e : ps ⊆ ps' -> end_ok ps s e -> end_ok ps' s e.
Proof.
  intros Hsub. destruct e as [[]|]; try done. intros (l & req & o & p & body & resp & A1 & A2 & A3). exists l, req, o, p, body, resp. split; [done|].
  split; [by apply Hsub|done].
Qed.

Lemma login_loop_inv ks0 ps : forall s s' e, login_inv ks0 s -> loop ps s = Val (s', e) ->
  e = Some (LoginErr (Io OtherError)) \/ (login_inv ks0 s' /\ end_ok ps s' e).
Proof.
  induction ps as [|p ps IH]; intros s s' e Hi; cbn [login_loop]; [intros [= <- <-]; by right|].
  destruct (pass p s) as [[s1 e1]| |] eqn:E; cbn [mbind outcome_bind]; try done.
  destruct (login_pass_inv _ _ _ _ _ Hi E) as [->|[Hi1 He]]; [intros [= <- <-]; by left|].
  destruct e1 as [e1|]; [intros [= <- <-]; right; split; [done|]; eapply end_ok_mono, He; set_solver|].
  intros E2. destruct (IH _ _ _ Hi1 E2) as [->|[J1 J2]]; [by left|]. right. split; [done|]. eapply end_ok_mono, J2. set_solver.
Qed.

(** Each exchange is that of one pass, in their order, with its answer. *)
Lemma login_pass_answered p s s' e : pass p s = Val (s', e) ->
  l_exchanges s' = l_exchanges s \/ exists x, l_exchanges s' = l_exchanges s ++ [x] /\ answered json p x.
Proof.
  unfold login_pass. destruct (p_abort p); [intros [= <- _]; by left|].
  destruct (establish_control_conn _ _ _ _ _ _ cfg _ d _) as [[w c]| |]; cbn [mbind outcome_bind]; try done.
  destruct c as [conn|e0]; [|intros [= <- _]; by left]. destruct (register _ _ _ _ _ _ _ _ _) as [req r] eqn:Er.
  assert (Hx : l_exchanges (record_exchange req r (set_disk w s)) = l_exchanges s \/
    exists x, l_exchanges (record_exchange req r (set_disk w s)) = l_exchanges s ++ [x] /\ answered json p x).
  { destruct req as [rq|]; cbn [record_exchange set_disk l_exchanges]; [|by left]. right. exists (rq, r). split; [done|].
    destruct r as [o|]; [|done]. destruct (register_ok _ _ _ _ _ _ _ _ _ _ _ Er) as (rq' & body & resp & [= <-] & Hc & Hj & Hz & Ha & _ & _ & Hn).
    by exists body, resp. }
  destruct r as [o|er]; [|intros E; destruct er; injection E as <- _; exact Hx].
  intros [= E]. revert E. unfold on_outcome. destruct (_ && negb _); [destruct (regenerate_node_key _ _ _ _ _ _) as [disk [ks|]]; by intros [= <- _]|].
  destruct (o_machine_authorized o); [by intros [= <- _]|]. destruct (pending_auth_url o); by intros [= <- _].
Qed.

Lemma login_loop_answered ps : forall s s' e, loop ps s = Val (s', e) ->
  exists qs xs, l_exchanges s' = l_exchanges s ++ xs /\ qs `sublist_of` ps /\ Forall2 (answered json) qs xs.
Proof.
  induction ps as [|p ps IH]; intros s s' e; cbn [login_loop]; [intros [= <- _]; exists [], []; by rewrite app_nil_r|].
  destruct (pass p s) as [[s1 e1]| |] eqn:E; cbn [mbind outcome_bind]; try done.
  assert (Hx : exists qs xs, l_exchanges s1 = l_exchanges s ++ xs /\ qs `sublist_of` [p] /\ Forall2 (answered json) qs xs).
  { destruct (login_pass_answered p s s1 e1 E) as [->|(x & -> & Hx)].
    - exists [], []. rewrite app_nil_r. split_and!; [done|by apply sublist_nil_l|done].
    - exists [p], [x]. split_and!; [done..|by constructor]. }
  destruct Hx as (qs & xs & Hx & Hq & Hf). destruct e1 as [e1|].
  - intros [= <- _]. exists qs, xs. split_and!; [done| |done]. etrans; [exact Hq|]. apply sublist_skip, sublist_nil_l.
  - intros E2. destruct (IH _ _ _ E2) as (qs2 & xs2 & Hx2 & Hq2 & Hf2). exists (qs ++ qs2), (xs ++ xs2). split_and!; [by rewrite Hx2, Hx, app_assoc| |by apply Forall2_app].
    change (p :: ps) with ([p] ++ ps). by apply sublist_app.
Qed.

(** Without a key: the wait is shown, and only the disk ends it with an error. *)
Definition waiting (s : LoginState W) : Prop := v_lifecycle (l_view s) = NeedsLogin /\ v_login_in_progress (l_view s) = true /\ state (l_tracker s) = NeedsLogin.

Lemma set_needs_login_state t : state (set_needs_login t) = NeedsLogin.
Proof. unfold set_needs_login. case_decide; done. Qed.

(** The connection does not invent a refusal. *)
Definition honest (p : Pass) : Prop :=
  (forall u, p_timestamp p <> Err (AuthRejected u)) /\ forall rq u, p_conn p rq <> Err (AuthRejected u).

Lemma regenerate_error disk ks r : (regenerate_node_key pid secret derive_pub d ks disk).2 = Err r -> r = Io OtherError.
Proof.
  destruct disk as [w n]. unfold regenerate_node_key, generate_and_persist, lift, mbind, se_bind.
  destruct (atomic_write pid _ _ w) as [w1 [[]|ea]] eqn:Ea; [done|]. apply atomic_write_error in Ea as ->. by intros [= <-].
Qed.

Lemma pass_interactive p s s' e : key = [] -> honest p -> waiting s -> pass p s = Val (s', e) ->
  match e with None => waiting s' | Some (LoginErr x) => x = Io OtherError | _ => True end.
Proof.
  intros Hkey [Ht Hc] Hw. assert (Hks : key_supplied cfg = false) by (unfold key_supplied; by rewrite Hkey).
  unfold login_pass. destruct (p_abort p); [by intros [= <- <-]|].
  destruct (establish_control_conn _ _ _ _ _ _ cfg _ d _) as [[w c]| |]; cbn [mbind outcome_bind]; try done. rewrite Hks.
  destruct c as [conn|e0]; [|by intros [= <- <-]]. destruct (register _ _ _ _ _ _ _ _ _) as [req r] eqn:Er.
  assert (Hw1 : waiting (record_exchange req r (set_disk w s))) by (by destruct req).
  destruct r as [o|er].
  - intros E. injection E as E. revert E. unfold on_outcome.
    destruct (o_node_key_expired o && negb (o_machine_authorized o)).
    + pose proof (regenerate_error (l_disk (record_exchange req (Ok o) (set_disk w s))) (l_ks (record_exchange req (Ok o) (set_disk w s)))) as Hr.
      destruct (regenerate_node_key _ _ _ _ _ _) as [disk [ks|er]]; intros [= <- <-]; [done|by apply Hr].
    + destruct (o_machine_authorized o); [by intros [= <- <-]|]. destruct (pending_auth_url o) as [url|]; intros [= <- <-]; [|by rewrite Hks].
      split_and!; cbn; rewrite ?set_needs_login_state; done.
  - destruct er; intros [= <- <-]; try done. exfalso. rewrite Hkey in Er. apply register_interactive in Er as [Er|[rq Er]]; [by eapply Ht|by eapply Hc].
Qed.

(** With a key: only an expired node key makes the loop go round. *)
Lemma pass_supplied p s s' : key <> [] -> pass p s = Val (s', None) ->
  l_view s' = l_view s /\ l_tracker s' = l_tracker s /\ exists x, l_exchanges s' = l_exchanges s ++ [x] /\ retried x.
Proof.
  intros Hkey. assert (Hks : key_supplied cfg = true) by (unfold key_supplied; by rewrite bool_decide_false).
  unfold login_pass. destruct (p_abort p); [done|].
  destruct (establish_control_conn _ _ _ _ _ _ cfg _ d _) as [[w c]| |]; cbn [mbind outcome_bind]; try done. rewrite Hks.
  destruct c as [conn|e0]; [|done]. destruct (register _ _ _ _ _ _ _ _ _) as [req r] eqn:Er.
  destruct r as [o|er]; [|by destruct er]. destruct (register_ok _ _ _ _ _ _ _ _ _ _ _ Er) as (rq & body & resp & -> & _ & _ & _ & _ & Hp & _).
  specialize (Hp Hkey). intros E. injection E as E. revert E. unfold on_outcome.
  destruct (o_node_key_expired o && negb (o_machine_authorized o)) eqn:Ex.
  - destruct (regenerate_node_key _ _ _ _ _ _) as [disk [ks|]]; intros [= <-]. cbn. split_and!; [done..|]. eexists. split; [done|].
    apply andb_true_iff in Ex as [X1 X2]. apply negb_true_iff in X2. by exists o.
  - destruct (o_machine_authorized o); [done|]. rewrite Hp, Hks. done.
Qed.
End Loop.

(** * Theorems *)

(** C17: what a connection trusts.  Over [http://] without a pinned key nothing is
    asked, sent or written unless the configuration allows it explicitly; with a
    pinned key the result does not depend on the key server, the clock or any
    file; for every other URL the whole attempt, files included, depends only
    on answers to [https://] requests and to connections over TLS; and a
    connection that succeeds runs the transport of a handshake begun with our
    machine key and one server key: over [http://] with a pin the pinned key,
    otherwise the key in the unexpired cache, or, when there is none, the key
    the key server answered for the control URL. *)
Theorem control_conn_trust {W} `{Fs W} {St Hs} `{NoiseOps St Hs} parse_response public_key base64
    (hs_new : list Z -> list Z -> result ControlError Hs) (h2_open : NoiseStream St -> result ControlError unit)
    (env env' : ConnEnv) (cfg : Config) (ks : KeyStore) (dir : list Z) (w w' : W) :
  let establish := establish_control_conn parse_response public_key base64 hs_new h2_open in
  (is_Some (strip_prefix (bs "http://") (control_url cfg)) -> control_server_key cfg = None -> insecure_allow_http_control cfg = false ->
     establish env cfg ks dir w = Val (w, Err UnpinnedHttpControl)) /\
  (is_Some (strip_prefix (bs "http://") (control_url cfg)) -> is_Some (control_server_key cfg) -> e_dial env = e_dial env' ->
     conn_result (establish env cfg ks dir w) = conn_result (establish env' cfg ks dir w')) /\
  (strip_prefix (bs "http://") (control_url cfg) = None -> same_tls env env' -> establish env cfg ks dir w = establish env' cfg ks dir w) /\
  (forall w1 st, establish env cfg ks dir w = Val (w1, Ok st) ->
     exists key, key_origin public_key env cfg dir w key /\ keyed_with parse_response base64 hs_new env cfg ks key st).
Proof.
  split_and!.
  - intros [rest Hu] Hp Hi. unfold establish_control_conn, server_key_for. by rewrite Hu, Hp, Hi, bool_decide_true by done.
  - intros [rest Hu] [pin Hp] Hdial. by eapply establish_pinned.
  - intros Hu Hsame. by apply establish_same_tls.
  - intros w1 st E. by eapply establish_keyed.
Qed.

(** C18: a login keeps the node's identity.  From keys that are on disk, however
    many passes the login takes and whatever the servers answer, unless the disk
    refuses a new node key: the keys in memory are those on disk and a restart
    loads them (or fails to read a file); machine, disco and network-lock keys
    are the old ones; each exchange rests on the answer of its own pass, in
    order; every request carries the node key of its time, which is replaced,
    by a fresh one, right after the answers that say it has expired and at no
    other time; every request carries the configured auth key or none, and
    follows up a URL only when the server gave it for the same node key; and a
    login that succeeds was authorized by the server's answer to its last
    request, made with the node key on disk. *)
Theorem login_keeps_identity {W} {d : list Z} `{FsLaws W d} {St Hs} `{NoiseOps St Hs} parse_response public_key base64
    (hs_new : list Z -> list Z -> result ControlError Hs) (h2_open : NoiseStream St -> result ControlError unit)
    json pid secret derive_pub (cfg : Config) log_id ps (w : W) n ks t s e :
  tidy d -> 0 <= pid -> (forall i, length (secret i) = 32%nat) ->
  stored (d := d) derive_pub w ks -> no_leftover (d := d) pid w ->
  interactive_login parse_response public_key base64 hs_new h2_open json pid secret derive_pub cfg d log_id ps (w, n) ks t = Val (s, e) ->
  e = Some (LoginErr (Io OtherError)) \/
  ((exists r, load_or_generate pid secret derive_pub d (l_disk s) = (l_disk s, r) /\ (r = Ok (l_ks s) \/ r = Err (Io OtherError))) /\
   machine_priv (l_ks s) = machine_priv ks /\ disco_priv (l_ks s) = disco_priv ks /\ nl_priv (l_ks s) = nl_priv ks /\
   (exists qs, qs `sublist_of` ps /\ Forall2 (answered json) qs (l_exchanges s)) /\
   key_history (fun k => exists i, k = derive_pub (secret i)) (node_pub ks) (l_exchanges s) (node_pub (l_ks s)) /\
   exchanges_ok (login_key cfg) (l_exchanges s) /\
   match e with Some (Authorized _) => authorized_by_server json derive_pub ps s | _ => True end).
Proof.
  intros Hd Hpid Hsec Hst Hno E. unfold interactive_login in E. destruct (login_loop_answered _ _ _ _ _ _ _ _ _ _ _ _ _ _ _ E) as (qs & xs & Hx & Hq & Hf).
  cbn [l_exchanges] in Hx. rewrite app_nil_l in Hx. subst xs.
  eapply login_loop_inv in E as [->|[[I1 I2 (J1 & J2 & J3) I4 I5 I6] He]]; [by left| |done..|].
  - right. split_and!; try done; [|by exists qs]. destruct (l_disk s) as [w' n']. by apply load_stored.
  - split; cbn [l_disk l_ks l_exchanges l_followup fst]; try done; constructor.
Qed.

(** errors of a login.  Without an auth key no error of the network or of the
    server ends the login — only a disk that refuses the new node key does — and
    while it waits it shows that a login is needed; with a key the login goes
    round only for an expired node key, every other error ends it, and nothing
    about a login is shown. *)
Theorem login_error_policy {W} {d : list Z} `{FsLaws W d} {St Hs} `{NoiseOps St Hs} parse_response public_key base64
    (hs_new : list Z -> list Z -> result ControlError Hs) (h2_open : NoiseStream St -> result ControlError unit)
    json pid secret derive_pub (cfg : Config) log_id ps (disk : W * nat) ks t s e :
  Forall honest ps ->
  interactive_login parse_response public_key base64 hs_new h2_open json pid secret derive_pub cfg d log_id ps disk ks t = Val (s, e) ->
  (login_key cfg = [] ->
     match e with None => waiting s | Some (LoginErr x) => x = Io OtherError | _ => True end) /\
  (login_key cfg <> [] -> e = None ->
     l_tracker s = t /\ l_view s = mkView (state t) None true /\ length (l_exchanges s) = length ps /\ Forall retried (l_exchanges s)).
Proof.
  intros Hh E. unfold interactive_login in E. split.
  - intros Hkey. unfold key_supplied in E. rewrite Hkey in E. cbn [negb bool_decide decide_rel] in E.
    change (negb (bool_decide ([] = @nil Z))) with false in E. cbv iota in E.
    set (s0 := mkLogin _ _ _ _ _ _) in E. assert (Hw : waiting s0) by (split_and!; cbn; rewrite ?set_needs_login_state; done).
    clearbody s0. revert s0 Hw E. induction Hh as [|p ps Hp Hps IH]; intros s0 Hw; cbn [login_loop]; [by intros [= <- <-]|].
    destruct (login_pass _ _ _ _ _ _ _ _ _ _ _ _ p s0) as [[s1 e1]| |] eqn:Ep; cbn [mbind outcome_bind]; try done.
    apply pass_interactive in Ep; [|done..]. destruct e1 as [e1|]; [by intros [= <- <-]|]. by apply IH.
  - intros Hkey ->. unfold key_supplied in E. rewrite bool_decide_false in E by done. cbn [negb] in E.
    set (s0 := mkLogin _ _ _ _ _ _) in E.
    assert (G : l_view s = l_view s0 /\ l_tracker s = l_tracker s0 /\ exists xs, l_exchanges s = l_exchanges s0 ++ xs /\ length xs = length ps /\ Forall retried xs).
    { clearbody s0. clear Hh. revert s0 E. induction ps as [|p ps IH]; intros s0; cbn [login_loop].
      - intros [= <-]. split_and!; try done. exists []. by rewrite app_nil_r.
      - destruct (login_pass _ _ _ _ _ _ _ _ _ _ _ _ p s0) as [[s1 e1]| |] eqn:Ep; cbn [mbind outcome_bind]; try done.
        destruct e1 as [e1|]; [done|]. apply pass_supplied in Ep as (P1 & P2 & x & P3 & P4); [|done].
        intros E. destruct (IH _ E) as (Q1 & Q2 & xs & Q3 & Q4 & Q5). split_and!; [congruence|congruence|]. exists (x :: xs).
        rewrite Q3, P3, <- app_assoc. cbn. split_and!; [done|lia|by constructor]. }
    destruct G as (G1 & G2 & xs & G3 & G4 & G5). rewrite G1, G2, G3. cbn. done.
Qed.

(** A login that is given up leaves the tracker asking for a login; and after the
    server reports the node key expired, the URL issued for the old key is still
    shown while the new key has none. *)
Theorem login_shown_pitfalls {W} `{Fs W} {St Hs} `{NoiseOps St Hs} parse_response public_key base64
    (hs_new : list Z -> list Z -> result ControlError Hs) (h2_open : NoiseStream St -> result ControlError unit)
    json pid secret derive_pub (cfg : Config) dir log_id :
  (forall p ps (disk : W * nat) ks t reason, login_key cfg = [] -> p_abort p = Some reason ->
     exists s, interactive_login parse_response public_key base64 hs_new h2_open json pid secret derive_pub cfg dir log_id (p :: ps) disk ks t = Val (s, Some (Aborted reason)) /\
               state (l_tracker s) = NeedsLogin) /\
  (forall conn o (s s' : LoginState W), o_node_key_expired o = true -> o_machine_authorized o = false ->
     on_outcome (St := St) pid secret derive_pub cfg dir conn o s = (s', None) -> l_followup s' = None /\ l_view s' = l_view s).
Proof.
  split.
  - intros p ps disk ks t reason Hk Hp. unfold interactive_login, key_supplied. rewrite Hk.
    change (negb (bool_decide ([] = @nil Z))) with false. cbv iota. cbn [login_loop]. unfold login_pass. rewrite Hp. cbn [mbind outcome_bind].
    eexists. split; [done|]. cbn. apply set_needs_login_state.
  - intros conn o s s' H1 H2. unfold on_outcome. rewrite H1, H2. cbn [andb negb].
    destruct (regenerate_node_key _ _ _ _ _ _) as [disk [ks|]]; by intros [= <-].
Qed.

(** ** Samples *)

Definition toy_config (url : list Z) (pin : option (list Z)) (k : list Z) : Config := mkConfig url pin false k (bs "vita") 130.
Definition toy_pin : list Z := to_mkey_string (repeat 171 32).
Definition toy_ks : KeyStore :=
  mkKeyStore (repeat 7 32) (repeat 8 32) (repeat 9 32) (repeat 10 32) (repeat 7 32) (repeat 8 32) (repeat 9 32) (repeat 10 32).
Definition toy_keys_card : Toy.Kernel :=
  Toy.mkKernel {[ bs "ux0:data/ts/machine.priv" := repeat 7 32; bs "ux0:data/ts/node.priv" := repeat 8 32;
                  bs "ux0:data/ts/disco.priv" := repeat 9 32; bs "ux0:data/ts/nl.priv" := repeat 10 32 ]} [] [] ∅ [].
Definition toy_hs (_ _ : list Z) : result ControlError unit := Ok tt.
Definition toy_h2 (_ : NoiseStream nat) : result ControlError unit := Ok tt.
(** A server whose key is [toy_pin] and that answers every dial. *)
Definition toy_env : ConnEnv := mkConnEnv (Some 100) (fun _ => Some (200, toy_pin)) (fun _ => Ok [Data toy_answer]).
Definition toy_establish (env : ConnEnv) (cfg : Config) (k : Toy.Kernel) : outcome (Toy.Kernel * result ControlError (NoiseStream nat)) :=
  establish_control_conn (fun _ => Some (Some 101)) Some (fun x => x) toy_hs toy_h2 env cfg toy_ks toy_dir k.

(** A handshake keyed with the server's key. *)
Definition toy_keyed (_ key : list Z) : result ControlError unit := if decide (key = repeat 171 32) then Ok tt else Err Tls.

Lemma control_conn_trust_witness :
  toy_establish toy_env (toy_config (bs "http://h") None []) toy_keys_card = Val (toy_keys_card, Err UnpinnedHttpControl) /\
  conn_result (toy_establish toy_env (toy_config (bs "http://h") (Some toy_pin) []) toy_keys_card) =
    conn_result (toy_establish (mkConnEnv None (fun _ => None) (e_dial toy_env)) (toy_config (bs "http://h") (Some toy_pin) []) toy_card) /\
  toy_establish toy_env (toy_config (bs "https://h") None []) toy_keys_card =
    toy_establish (mkConnEnv (Some 100) (fun u => if bool_decide (is_Some (strip_prefix (bs "https://") u)) then Some (200, toy_pin) else None)
                     (fun x => if d_tls x then Ok [Data toy_answer] else Err Tls)) (toy_config (bs "https://h") None []) toy_keys_card /\
  exists st key, key_origin Some toy_env (toy_config (bs "http://h") (Some toy_pin) []) toy_dir toy_keys_card key /\
    keyed_with (fun _ => Some (Some 101)) (fun x => x) toy_keyed toy_env (toy_config (bs "http://h") (Some toy_pin) []) toy_ks key st.
Proof.
  pose (env2 := mkConnEnv (Some 100) (fun u => if bool_decide (is_Some (strip_prefix (bs "https://") u)) then Some (200, toy_pin) else None)
                     (fun x => if d_tls x then Ok [Data toy_answer] else Err Tls)).
  split; [|split; [|split]].
  - refine (proj1 (control_conn_trust (fun _ => Some (Some 101)) Some (fun x => x) toy_hs toy_h2 toy_env toy_env (toy_config (bs "http://h") None [])
              toy_ks toy_dir toy_keys_card toy_keys_card) _ _ _); [eexists; vm_compute; reflexivity|reflexivity|reflexivity].
  - refine (proj1 (proj2 (control_conn_trust (fun _ => Some (Some 101)) Some (fun x => x) toy_hs toy_h2 toy_env (mkConnEnv None (fun _ => None) (e_dial toy_env))
              (toy_config (bs "http://h") (Some toy_pin) []) toy_ks toy_dir toy_keys_card toy_card)) _ _ _);
      [eexists; vm_compute; reflexivity|eexists; reflexivity|reflexivity].
  - refine (proj1 (proj2 (proj2 (control_conn_trust (fun _ => Some (Some 101)) Some (fun x => x) toy_hs toy_h2 toy_env env2
              (toy_config (bs "https://h") None []) toy_ks toy_dir toy_keys_card toy_keys_card))) _ _); [vm_compute; reflexivity|].
    split; [reflexivity|]. split; [intros u Hu; cbn; rewrite bool_decide_true by exact Hu; reflexivity|intros x Hx; cbn; rewrite Hx; reflexivity].
  - assert (E : exists w1 st, establish_control_conn (fun _ => Some (Some 101)) Some (fun x => x) toy_keyed toy_h2 toy_env
                  (toy_config (bs "http://h") (Some toy_pin) []) toy_ks toy_dir toy_keys_card = Val (w1, Ok st))
      by (do 2 eexists; vm_compute; reflexivity).
    destruct E as (w1 & st & E). exists st.
    exact (proj2 (proj2 (proj2 (control_conn_trust (fun _ => Some (Some 101)) Some (fun x => x) toy_keyed toy_h2 toy_env toy_env
              (toy_config (bs "http://h") (Some toy_pin) []) toy_ks toy_dir toy_keys_card toy_keys_card))) w1 st E).
Defined.

(** The server says that the key has expired, then gives a URL, then approves. *)
Definition toy_register (b : list Z) : option RegisterResponseWire :=
  match b with
  | [0] => Some (mkRegisterResponse false [] true [])
  | [1] => Some (mkRegisterResponse false (bs "https://login/a") false [])
  | _ => Some (mkRegisterResponse true [] false [])
  end.
Definition toy_pass (b : Z) : Pass := mkPass None toy_env (Ok (bs "now")) (fun _ => Ok (200, [b])).
Definition toy_login (k : list Z) (ps : list Pass) : outcome (LoginState Toy.Kernel * option (LoginEnd (St := nat))) :=
  interactive_login (fun _ => Some (Some 101)) Some (fun x => x) toy_hs toy_h2 toy_register 9 toy_secret (fun x => x)
    (toy_config (bs "https://h") None k) toy_dir (bs "log") ps (toy_keys_card, 5%nat) toy_ks tracker_new.

Lemma login_keeps_identity_witness :
  exists s c, toy_login [] [toy_pass 0; toy_pass 1; toy_pass 2] = Val (s, Some (Authorized c)) /\
    node_priv (l_ks s) = repeat 5 32 /\ machine_priv (l_ks s) = repeat 7 32 /\
    map (fun x => rr_followup x.1) (l_exchanges s) = [None; None; Some (bs "https://login/a")].
Proof.
  assert (Hb : match toy_login [] [toy_pass 0; toy_pass 1; toy_pass 2] with Val (_, Some (Authorized _)) => true | _ => false end = true)
    by (vm_compute; reflexivity).
  destruct (toy_login [] [toy_pass 0; toy_pass 1; toy_pass 2]) as [[s [[c| |]|]]| |] eqn:E; try discriminate Hb.
  assert (Er : match toy_login [] [toy_pass 0; toy_pass 1; toy_pass 2] with
               | Val (s, _) => (node_priv (l_ks s), map (fun x => rr_followup x.1) (l_exchanges s)) | _ => ([], []) end =
               (repeat 5 32, [None; None; Some (bs "https://login/a")])) by (vm_compute; reflexivity).
  rewrite E in Er. injection Er as E1 E2. exists s, c. split; [reflexivity|]. split; [exact E1|]. split; [|exact E2].
  destruct (login_keeps_identity (d := toy_dir) (fun _ => Some (Some 101)) Some (fun x => x) toy_hs toy_h2 toy_register 9 toy_secret (fun x => x)
    (toy_config (bs "https://h") None []) (bs "log") [toy_pass 0; toy_pass 1; toy_pass 2] toy_keys_card 5 toy_ks tracker_new s (Some (Authorized c)))
    as [Hx|(_ & Hm & _)]; [apply toy_tidy|lia|intros i; apply repeat_length| | |exact E|discriminate Hx|exact Hm].
  - split; [reflexivity|]. intros f b. rewrite !elem_of_cons, elem_of_nil.
    intros [[= -> ->]|[[= -> ->]|[[= -> ->]|[[= -> ->]|[]]]]]; (split; [vm_compute; reflexivity|reflexivity]).
  - intros f. unfold key_files. rewrite !elem_of_cons, elem_of_nil. intros [->|[->|[->|[->|[]]]]]; vm_compute; reflexivity.
Defined.

Definition failing_pass : Pass := mkPass None (mkConnEnv None (fun _ => None) (fun _ => Err Tls)) (Ok []) (fun _ => Err MapDecode).

Lemma login_error_policy_witness :
  (exists s, toy_login [] [failing_pass; toy_pass 1; failing_pass] = Val (s, None) /\ waiting s) /\
  (exists s, toy_login (bs "key") [toy_pass 0] = Val (s, None) /\ l_view s = mkView Connecting None true).
Proof.
  assert (Hh : Forall honest [failing_pass; toy_pass 1; failing_pass; toy_pass 0]) by (repeat constructor; discriminate).
  split.
  - assert (Hb : match toy_login [] [failing_pass; toy_pass 1; failing_pass] with Val (_, None) => true | _ => false end = true) by (vm_compute; reflexivity).
    destruct (toy_login [] [failing_pass; toy_pass 1; failing_pass]) as [[s [e|]]| |] eqn:E; try discriminate Hb.
    exists s. split; [reflexivity|].
    refine (proj1 (login_error_policy (d := toy_dir) (fun _ => Some (Some 101)) Some (fun x => x) toy_hs toy_h2 toy_register 9 toy_secret (fun x => x)
      (toy_config (bs "https://h") None []) (bs "log") [failing_pass; toy_pass 1; failing_pass] (toy_keys_card, 5%nat) toy_ks tracker_new s None _ E) _);
      [repeat constructor; discriminate|reflexivity].
  - assert (Hb : match toy_login (bs "key") [toy_pass 0] with Val (_, None) => true | _ => false end = true) by (vm_compute; reflexivity).
    destruct (toy_login (bs "key") [toy_pass 0]) as [[s [e|]]| |] eqn:E; try discriminate Hb.
    exists s. split; [reflexivity|].
    refine (proj1 (proj2 (proj2 (login_error_policy (d := toy_dir) (fun _ => Some (Some 101)) Some (fun x => x) toy_hs toy_h2 toy_register 9 toy_secret (fun x => x)
      (toy_config (bs "https://h") None (bs "key")) (bs "log") [toy_pass 0] (toy_keys_card, 5%nat) toy_ks tracker_new s None _ E) _ eq_refl)));
      [repeat constructor; discriminate|vm_compute; discriminate].
Defined.
