(* ===== verification/LocalApi.v ===== *)
(** The state a node shows and the loopback server that shows it (tailscale-vita:
    snapshot.rs, the publishers of runtime.rs, localapi.rs and its modules http,
    handlers and router).

    The head parser (httparse) and JSON (serde_json) are parameters; so are the
    direct paths and pings of the magic socket and the text of an IPv6 socket
    address.  Sizes are those of the 32-bit Vita. *)

From S2P Require Import Prelude NetTypes Text WgPolicy Taildrop Netmap Keys Noise Runtime.
#[local] Open Scope Z_scope.

(** ** snapshot.rs *)

Record AclSummary : Type := mkAcl { tags : list (list Z); has_tags : bool }.

Record TaildropEvent : Type := mkTaildrop { td_name : list Z; td_size : Z; td_sender : list Z; td_status : list Z; td_at_unix : Z }.

Record PeerView : Type := mkPeerView {
  pv_node_key_hex : list Z; pv_node_id : Z; pv_name : list Z; pv_online : bool; tailscale_ip : option Z;
  pv_allowed_ips : list (list Z); pv_home_derp : Z; pv_endpoints : list (list Z);
  direct_path_alive : bool; direct_path_endpoint : option SocketAddr; direct_path_rtt_ms : option Z;
  pv_last_seen : option (list Z); pv_key_expiry : option (list Z)
}.

Record RuntimeSnapshot : Type := mkRtSnapshot {
  updated_at_unix : Z; started_at_unix : Z; sn_hostname : list Z; sn_our_addrs : list AllowedIp;
  lifecycle : OnlineState; sn_fatal_reason : option (list Z); sn_auth_url : option (list Z); peer_count : nat;
  derp_home_region : Z; alive_derp_regions : list Z; magic_local : SocketAddr; public_endpoint : option SocketAddr;
  acl : AclSummary; sn_key_expiry : option (list Z); tailnet_domain : option (list Z); user_login : option (list Z);
  login_in_progress : bool; peers : gmap (list Z) PeerView; recent_taildrops : list TaildropEvent
}.

Definition snapshot_empty (now : Z) (hostname : list Z) (local : SocketAddr) : RuntimeSnapshot :=
  mkRtSnapshot now now hostname [] Connecting None None 0 0 [] local None (mkAcl [] false) None None None false ∅ [].

Definition node_key_hex (k : list Z) : list Z := hex k.

(** ** The publishers of runtime.rs *)

Section Publish.
(** The text of an IPv6 socket address; what the magic socket knows of a peer:
    its live endpoint and its round-trip time in nanoseconds. *)
Context (show6 : SocketAddr -> list Z) (alive_endpoint : list Z -> option SocketAddr) (peer_rtt : list Z -> option Z).

Definition show_sockaddr (a : SocketAddr) : list Z :=
  match a with SAV4 ip port => show_ipv4 ip ++ bs ":" ++ dec port | SAV6 _ _ _ _ => show6 a end.

Definition peer_view (k : list Z) (p : PeerSnapshot) : PeerView :=
  mkPeerView (node_key_hex k) (node_id p) (name p) (online p)
    (ai_addr <$> List.find (fun a => ai_prefix a =? 32) (sn_allowed_ips p))
    (map (fun a => show_ipv4 (ai_addr a) ++ bs "/" ++ dec (ai_prefix a)) (sn_allowed_ips p)) (home_derp p)
    (map show_sockaddr (sn_endpoints p)) (bool_decide (is_Some (alive_endpoint k))) (alive_endpoint k)
    ((fun d => d / 1000000) <$> peer_rtt k) (last_seen p) (key_expiry p).

Definition peer_views (nm : NetMap) : gmap (list Z) PeerView :=
  map_fold (fun k p m => <[node_key_hex k := peer_view k p]> m) ∅ (nm_peers nm).

(** A full publication keeps the feed of received files. *)
Definition publish_snapshot (now started : Z) (hostname : list Z) (nm : NetMap) (local : SocketAddr) (home : Z) (alive : list Z)
    (public : option SocketAddr) (st : OnlineState) (reason : option (list Z)) (w : RuntimeSnapshot) : RuntimeSnapshot :=
  mkRtSnapshot now started hostname (our_addrs nm) st reason None (size (nm_peers nm)) home alive local public
    (mkAcl (our_tags nm) (negb (is_empty (our_tags nm)))) (our_key_expiry nm)
    (if is_empty (domain nm) then None else Some (domain nm)) (our_login_name nm) false (peer_views nm) (recent_taildrops w).
End Publish.

Definition publish_fatal_state (now : Z) (t : LifecycleTracker) (w : RuntimeSnapshot) : RuntimeSnapshot :=
  mkRtSnapshot now (started_at_unix w) (sn_hostname w) (sn_our_addrs w) (state t) (fatal_reason t) (sn_auth_url w) (peer_count w)
    (derp_home_region w) (alive_derp_regions w) (magic_local w) (public_endpoint w) (acl w) (sn_key_expiry w) (tailnet_domain w)
    (user_login w) (login_in_progress w) (peers w) (recent_taildrops w).

Definition publish_login (now : Z) (t : LifecycleTracker) (url : option (list Z)) (in_progress : bool) (w : RuntimeSnapshot) : RuntimeSnapshot :=
  mkRtSnapshot now (started_at_unix w) (sn_hostname w) (sn_our_addrs w) (state t) (sn_fatal_reason w) url (peer_count w)
    (derp_home_region w) (alive_derp_regions w) (magic_local w) (public_endpoint w) (acl w) (sn_key_expiry w) (tailnet_domain w)
    (user_login w) in_progress (peers w) (recent_taildrops w).

Definition publish_parked_state (now : Z) (t : LifecycleTracker) (url : option (list Z)) (in_progress logged_out : bool) (w : RuntimeSnapshot) :
    RuntimeSnapshot :=
  mkRtSnapshot now (started_at_unix w) (sn_hostname w) [] (state t) (sn_fatal_reason w) url 0
    (derp_home_region w) [] (magic_local w) None (acl w) (if logged_out then None else sn_key_expiry w)
    (if logged_out then None else tailnet_domain w) (if logged_out then None else user_login w) in_progress ∅ [].

(** The sink of the Taildrop receiver. *)
Definition record_taildrop (ev : TaildropEvent) (w : RuntimeSnapshot) : RuntimeSnapshot :=
  mkRtSnapshot (updated_at_unix w) (started_at_unix w) (sn_hostname w) (sn_our_addrs w) (lifecycle w) (sn_fatal_reason w) (sn_auth_url w)
    (peer_count w) (derp_home_region w) (alive_derp_regions w) (magic_local w) (public_endpoint w) (acl w) (sn_key_expiry w)
    (tailnet_domain w) (user_login w) (login_in_progress w) (peers w) (take 8 (ev :: recent_taildrops w)).

(** ** http.rs *)

Definition MAX_REQUEST_BYTES : nat := Z.to_nat (8 * 1024).
Definition ACTION_HEADER : list Z := bs "x-tailscale-vita-local".
Definition ACTION_HEADER_VALUE : list Z := bs "1".

Record Request : Type := mkRequest {
  rq_method : list Z; rq_path : list Z; rq_query : list Z; rq_body : list Z; has_action_header : bool
}.

Inductive RequestError : Type := ReqIo | ReqBad (reason : list Z) | ReqTooLarge.

(** What httparse makes of a head: an error, a part, or method, target and
    headers. *)
Inductive HeadParse : Type :=
| Malformed | Partial | Complete (method target : option (list Z)) (headers : list (list Z * list Z)).

Section Http.
Context (parse_head : list Z -> HeadParse).

(** The read loop; each pass adds a byte and the buffer is bounded. *)
Fixpoint head_loop (fuel : nat) (buf : list Z) (src : list Readable) : result RequestError (nat * list Z) * list Readable :=
  if (MAX_REQUEST_BYTES <=? length buf)%nat then (Err ReqTooLarge, src)
  else match fuel with
       | O => (Err ReqTooLarge, src)
       | S f =>
           match tcp_read 512 src with
           | (Ok [], src) => (Err (ReqBad (bs "eof before headers")), src)
           | (Err WouldBlock, src) => (Err (ReqBad (bs "read timeout")), src)
           | (Err _, src) => (Err ReqIo, src)
           | (Ok c, src) =>
               let buf := buf ++ c in
               let scan_start := (length buf - (length c + 3))%nat in
               match find_crlfcrlf (drop scan_start buf) with
               | Some idx => (Ok ((scan_start + idx)%nat, buf), src)
               | None => head_loop f buf src
               end
           end
       end.

(** [remaining] is a [usize]; a read takes a byte at least, so the bytes and
    events to come are fuel enough. *)
Fixpoint body_loop (fuel : nat) (remaining : Z) (body : list Z) (src : list Readable) : result RequestError (list Z) :=
  if remaining <=? 0 then Ok body
  else match fuel with
       | O => Err ReqIo
       | S f =>
           match tcp_read (Z.to_nat (Z.min 512 remaining)) src with
           | (Ok [], _) => Err (ReqBad (bs "eof before body end"))
           | (Err WouldBlock, _) => Err (ReqBad (bs "body read timeout"))
           | (Err _, _) => Err ReqIo
           | (Ok c, src) => body_loop f (remaining - Z.of_nat (length c)) (body ++ c) src
           end
       end.

Definition content_length_of (headers : list (list Z * list Z)) : Z :=
  default 0 ('(_, v) ← List.find (fun h => eq_ignore_ascii_case h.1 (bs "content-length")) headers;
             if utf8_valid v then from_str_radix 10 (2 ^ 32 - 1) (trim v) else None).
Definition action_header_in (headers : list (list Z * list Z)) : bool :=
  existsb (fun h => eq_ignore_ascii_case h.1 ACTION_HEADER && utf8_valid h.2 && bool_decide (trim h.2 = ACTION_HEADER_VALUE)) headers.

Definition read_body (body_start : nat) (content_length : Z) (buf : list Z) (src : list Readable) : result RequestError (list Z) :=
  let have := Z.of_nat (length buf - body_start) in
  let body := drop body_start buf in
  if have <? content_length then
    if Z.of_nat MAX_REQUEST_BYTES <? wrap 32 (Z.of_nat body_start + content_length) then Err ReqTooLarge
    else body_loop (S (length (data src) + length src)) (content_length - have) body src
  else if content_length <? have then Ok (take (Z.to_nat content_length) body)
  else Ok body.

Definition read_request (src : list Readable) : result RequestError Request :=
  match head_loop (S MAX_REQUEST_BYTES) [] src with
  | (Err e, _) => Err e
  | (Ok (header_end, buf), src) =>
      match parse_head (take (header_end + 4) buf) with
      | Malformed => Err (ReqBad (bs "malformed request"))
      | Partial => Err (ReqBad (bs "incomplete request line"))
      | Complete method target headers =>
          method ← match method with Some m => Ok m | None => Err (ReqBad (bs "missing method")) end;
          target ← match target with Some t => Ok t | None => Err (ReqBad (bs "missing path")) end;
          let '(path, query) := match split_once 63 target with Some x => x | None => (target, []) end in
          body ← read_body (header_end + 4) (content_length_of headers) buf src;
          Ok (mkRequest method path query body (action_header_in headers))
      end
  end.
End Http.

Definition reason_phrase (status : Z) : list Z :=
  if status =? 200 then bs "OK" else if status =? 202 then bs "Accepted" else if status =? 204 then bs "No Content"
  else if status =? 400 then bs "Bad Request" else if status =? 403 then bs "Forbidden" else if status =? 404 then bs "Not Found"
  else if status =? 405 then bs "Method Not Allowed" else if status =? 408 then bs "Request Timeout" else if status =? 409 then bs "Conflict"
  else if status =? 413 then bs "Payload Too Large" else if status =? 500 then bs "Internal Server Error"
  else if status =? 503 then bs "Service Unavailable" else bs "Unknown".

Definition json_response (status : Z) (body : list Z) : list Z :=
  let crlf := [13; 10] in
  bs "HTTP/1.1 " ++ dec status ++ bs " " ++ reason_phrase status ++ crlf ++ bs "Content-Type: application/json" ++ crlf ++
  bs "Content-Length: " ++ dec (Z.of_nat (length body)) ++ crlf ++ bs "Connection: close" ++ crlf ++ crlf ++ body.

(** [escape_json_string]: the special characters are ASCII, so bytes do. *)
Definition escape_byte (c : Z) : list Z :=
  if c =? 34 then [92; 34] else if c =? 92 then [92; 92] else if c =? 10 then [92; 110] else if c =? 13 then [92; 114]
  else if c =? 9 then [92; 116] else if c <? 32 then bs "\u00" ++ hex_byte c else [c].
Definition escape_json_string (s : list Z) : list Z := concat (map escape_byte s).
Definition error_body (msg : list Z) : list Z := [123] ++ [34] ++ bs "error" ++ [34; 58; 34] ++ escape_json_string msg ++ [34; 125].

Definition query_get (query key : list Z) : option (list Z) :=
  head (omap (fun pair => '(k, v) ← split_once 61 pair; if decide (k = key) then Some v else None) (split_on 38 query)).

(** ** handlers.rs *)

(** What is serialized. *)
Inductive Json : Type :=
| JSnapshot (s : RuntimeSnapshot) | JPeer (p : PeerView)
| JHealth (ok : bool) (uptime_secs : Z) (st : OnlineState) (reason : option (list Z))
| JPing (rtt_ms : Z) (endpoint : SocketAddr)
| JOk | JRefused (error : list Z).

Record HandlerCtx : Type := mkCtx {
  snapshot : RuntimeSnapshot;
  loop_alive : bool;                                       (** the event loop still has its receiver *)
  ping_now : list Z -> result (list Z) (SocketAddr * Z)    (** a round trip in nanoseconds, or the error's text *)
}.

Definition json_error (msg : list Z) : list Z := [123; 34] ++ bs "error" ++ [34; 58; 34] ++ msg ++ [34; 125].

(** [hex_to_bytes]. *)
Fixpoint hex_pairs (n : nat) (hex : list Z) : option (list Z) :=
  match n with
  | O => Some []
  | S n =>
      match hex with
      | a :: b :: r =>
          if utf8_valid [a; b] then x ← from_str_radix 16 255 [a; b]; rest ← hex_pairs n r; Some (x :: rest) else None
      | _ => None
      end
  end.
Definition hex_to_bytes (hex : list Z) : option (list Z) := if decide (length hex = 64%nat) then hex_pairs 32 hex else None.

(** [{state:?}]. *)
Definition debug_state (st : OnlineState) : list Z :=
  match st with
  | Connecting => bs "Connecting" | Online => bs "Online" | Degraded => bs "Degraded" | Offline => bs "Offline"
  | NeedsLogin => bs "NeedsLogin" | AuthFailed => bs "AuthFailed" | SecurityFailed => bs "SecurityFailed" | Stopped => bs "Stopped"
  end.

Section Handlers.
(** [serde_json::to_vec]; the order in which a map is walked. *)
Context (to_vec : Json -> option (list Z)) (values : gmap (list Z) PeerView -> list PeerView).

Definition or_error (j : Json) : list Z := default (json_error (bs "serialize failed")) (to_vec j).
Definition or_500 (j : Json) : Z * list Z := match to_vec j with Some b => (200, b) | None => (500, json_error (bs "serialize failed")) end.

Definition status (ctx : HandlerCtx) : Z * list Z := or_500 (JSnapshot (snapshot ctx)).

Definition find_peer (ctx : HandlerCtx) (ip : Z) : option PeerView :=
  List.find (fun p => bool_decide (tailscale_ip p = Some ip)) (values (peers (snapshot ctx))).

Definition whois (ctx : HandlerCtx) (query : list Z) : Z * list Z :=
  match query_get query (bs "addr") with
  | None => (400, json_error (bs "missing query param: addr"))
  | Some addr =>
      match parse_ipv4 addr with
      | None => (400, json_error (bs "addr is not a valid IPv4"))
      | Some ip =>
          match find_peer ctx ip with
          | Some p => or_500 (JPeer p)
          | None => (404, json_error (bs "no peer with that tailnet IP"))
          end
      end
  end.

Definition health (now : Z) (ctx : HandlerCtx) : Z * list Z :=
  let s := snapshot ctx in
  (200, or_error (JHealth (negb (is_fatal (lifecycle s))) (Z.max 0 (now - started_at_unix s)) (lifecycle s) (sn_fatal_reason s))).

Definition netmap (ctx : HandlerCtx) : Z * list Z := status ctx.

(** The node that is pinged, if any, and the answer. *)
Definition ping (ctx : HandlerCtx) (query : list Z) : option (list Z) * (Z * list Z) :=
  match query_get query (bs "ip") with
  | None => (None, (400, json_error (bs "missing query param: ip")))
  | Some addr =>
      match parse_ipv4 addr with
      | None => (None, (400, json_error (bs "ip is not a valid IPv4")))
      | Some ip =>
          match find_peer ctx ip with
          | None => (None, (404, json_error (bs "no peer with that tailnet IP")))
          | Some p =>
              match hex_to_bytes (pv_node_key_hex p) with
              | None => (None, (500, json_error (bs "snapshot peer has malformed node_key_hex")))
              | Some node =>
                  (Some node, match ping_now ctx node with
                              | Ok (endpoint, rtt) => (200, or_error (JPing (rtt / 1000000) endpoint))
                              | Err e => (200, json_error e)
                              end)
              end
          end
      end
  end.

Definition fatal_text (s : RuntimeSnapshot) : list Z :=
  bs "runtime in fatal state (" ++ debug_state (lifecycle s) ++ bs "); fix config + restart instead" ++
  match sn_fatal_reason s with Some r => bs ": " ++ r | None => [] end.
Definition stopped_text : list Z := bs "tailnet is stopped - toggle it on first".

(** The signals sent, and the answer. *)
Definition send_signal (sig : ControlSignal) (ctx : HandlerCtx) : list ControlSignal * (Z * list Z) :=
  if loop_alive ctx then ([sig], (202, or_error JOk)) else ([], (503, json_error (bs "control loop has shut down"))).

Definition reconnect (ctx : HandlerCtx) : list ControlSignal * (Z * list Z) :=
  let s := snapshot ctx in
  if is_fatal (lifecycle s) then ([], (409, or_error (JRefused (fatal_text s))))
  else if bool_decide (lifecycle s = Stopped) then ([], (409, or_error (JRefused stopped_text)))
  else send_signal ForceReconnect ctx.

Definition control_action (sig : ControlSignal) (ctx : HandlerCtx) : list ControlSignal * (Z * list Z) :=
  let s := snapshot ctx in
  if is_fatal (lifecycle s) then ([], (409, or_error (JRefused (fatal_text s))))
  else if bool_decide (lifecycle s = Stopped) && (match sig with LoginInteractive => true | _ => false end)
  then ([], (409, or_error (JRefused stopped_text)))
  else send_signal sig ctx.

Definition up (ctx : HandlerCtx) := control_action (SetWantRunning true) ctx.
Definition down (ctx : HandlerCtx) := control_action (SetWantRunning false) ctx.
Definition logout (ctx : HandlerCtx) := control_action Logout ctx.
Definition login_interactive (ctx : HandlerCtx) := control_action LoginInteractive ctx.

(** ** router.rs and localapi.rs *)

Definition route (p : list Z) : list Z := bs "/localapi/v0/" ++ p.

(** Signals sent and the answer; an error of the router has its text escaped. *)
Definition dispatch (now : Z) (req : Request) (ctx : HandlerCtx) : list ControlSignal * list Z :=
  let answer '(st, body) := ([], json_response st body) in
  let acted '(sigs, (st, body)) := (sigs, json_response st body) in
  let err st msg := ([], json_response st (error_body msg)) in
  let get := bool_decide (rq_method req = bs "GET") in
  let post := bool_decide (rq_method req = bs "POST") in
  let at_ p := bool_decide (rq_path req = route p) in
  if post && negb (has_action_header req) then err 403 (bs "missing local action header")
  else if get && at_ (bs "status") then answer (status ctx)
  else if get && at_ (bs "whois") then answer (whois ctx (rq_query req))
  else if get && at_ (bs "health") then answer (health now ctx)
  else if get && at_ (bs "netmap") then answer (netmap ctx)
  else if get && at_ (bs "ping") then answer (ping ctx (rq_query req)).2
  else if post && at_ (bs "reconnect") then acted (reconnect ctx)
  else if post && at_ (bs "up") then acted (up ctx)
  else if post && at_ (bs "down") then acted (down ctx)
  else if post && at_ (bs "logout") then acted (logout ctx)
  else if post && at_ (bs "login-interactive") then acted (login_interactive ctx)
  else if get || post then err 404 (bs "no such endpoint")
  else err 405 (bs "method not allowed").

(** One connection: what is sent back, if anything. *)
Definition handle_one (parse_head : list Z -> HeadParse) (now : Z) (src : list Readable) (ctx : HandlerCtx) : list ControlSignal * option (list Z) :=
  match read_request parse_head src with
  | Err ReqIo => ([], None)
  | Err (ReqBad reason) => ([], Some (json_response 400 (error_body reason)))
  | Err ReqTooLarge => ([], Some (json_response 413 (error_body (bs "request too large"))))
  | Ok req => let '(sigs, out) := dispatch now req ctx in (sigs, Some out)
  end.
End Handlers.

(** * Lemmas *)

(** ** Reading a request *)

Lemma max_request_val : Z.of_nat MAX_REQUEST_BYTES = 8192.
Proof. unfold MAX_REQUEST_BYTES. lia. Qed.

#[global] Opaque MAX_REQUEST_BYTES.

(** The first end of a head in a text that goes on. *)
Lemma find_crlf_app b i t : find_crlfcrlf b = Some i -> find_crlfcrlf (b ++ t) = Some i.
Proof.
  rewrite !find_crlf_some. intros [H1 H2].
  assert (Hl : (i + 4 <= length b)%nat).
  { apply (f_equal length) in H1. rewrite length_take, length_drop in H1. cbn [length] in H1. lia. }
  split.
  - rewrite drop_app_le, take_app_le by (rewrite ?length_drop; lia). done.
  - intros j Hj. rewrite drop_app_le, take_app_le by (rewrite ?length_drop; lia). by apply H2.
Qed.

(** A head: its end is at its end. *)
Definition is_head (head : list Z) : Prop := exists i, find_crlfcrlf head = Some i /\ length head = (i + 4)%nat.

Lemma head_loop_spec head rest f : forall buf src,
  is_head head -> (length head <= MAX_REQUEST_BYTES)%nat -> find_crlfcrlf buf = None ->
  buf ++ data src = head ++ rest -> (length buf < length head)%nat -> (MAX_REQUEST_BYTES - length buf < f)%nat -> ready src ->
  exists buf' src', head_loop f buf src = (Ok ((length head - 4)%nat, buf'), src') /\
    buf' ++ data src' = head ++ rest /\ (length head <= length buf')%nat /\ ready src'.
Proof.
  induction f as [|f IH]; intros buf src Hh Hmax Hn Hd Hlt Hf Hr; [lia|]. cbn [head_loop].
  rewrite (proj2 (Nat.leb_gt _ _)) by lia. destruct (app_prefix _ _ _ _ Hd ltac:(lia)) as (t & Eh & Et).
  destruct (tcp_read_ready 512 src) as (c & src' & -> & Hc & _ & Hdata & Hr'); [lia|done| |].
  { rewrite Et. destruct t; [|done]. rewrite app_nil_r in Eh. subst. lia. }
  destruct c as [|x c]; [done|]. set (cc := x :: c) in *.
  assert (Hd' : (buf ++ cc) ++ data src' = head ++ rest) by (by rewrite <- app_assoc, <- Hdata).
  pose proof (find_crlf_tail buf cc Hn) as Ht. cbv zeta in Ht |- *. set (start := (length (buf ++ cc) - (length cc + 3))%nat) in *.
  destruct Hh as (i & Hi & Hlen).
  destruct (decide (length head <= length (buf ++ cc))%nat) as [Hge|Hge].
  - destruct (app_prefix _ _ _ _ (eq_sym Hd') Hge) as (t' & Eb & _). rewrite Eb, (find_crlf_app _ _ t' Hi) in Ht. rewrite <- Eb in Ht.
    destruct (find_crlfcrlf (drop start (buf ++ cc))) as [idx|]; [|done]. cbn in Ht. injection Ht as Ht.
    exists (buf ++ cc), src'. split_and!; [|done|done|done]. do 3 f_equal. lia.
  - assert (Hnone : find_crlfcrlf (buf ++ cc) = None).
    { destruct (find_crlfcrlf (buf ++ cc)) as [j|] eqn:Ej; [|done]. exfalso.
      destruct (app_prefix _ _ _ _ Hd' ltac:(lia)) as (t' & Eb & _). pose proof (find_crlf_app _ _ t' Ej) as E2. rewrite <- Eb, Hi in E2.
      injection E2 as ->. apply find_crlf_some in Ej as [Ej _]. apply (f_equal length) in Ej. rewrite length_take, length_drop in Ej. cbn [length] in Ej.
      lia. }
    rewrite Hnone in Ht. destruct (find_crlfcrlf (drop start (buf ++ cc))) as [idx|] eqn:Ei; [done|].
    apply IH; try done; [by exists i|lia|]. rewrite length_app in *. unfold cc in *. cbn [length] in *. lia.
Qed.

Lemma tcp_read_shrinks n src c src' : tcp_read n src = (Ok c, src') -> c <> [] ->
  (length (data src') + length src' < length (data src) + length src)%nat.
Proof.
  destruct src as [|[d| | |] src]; cbn [tcp_read]; try done; [|by intros [= <- <-]].
  unfold data. case_decide; intros [= <- <-] Hc; cbn [map concat length].
  - rewrite length_app. destruct d; [done|]. cbn. lia.
  - rewrite !length_app, length_drop. assert (0 < n)%nat by (destruct n; [done|lia]). lia.
Qed.

Lemma body_loop_spec f : forall want remaining body src rest,
  (length (data src) + length src < f)%nat -> ready src -> data src = want ++ rest -> remaining = Z.of_nat (length want) ->
  body_loop f remaining body src = Ok (body ++ want).
Proof.
  induction f as [|f IH]; intros want remaining body src rest Hf Hr Hd ->; [lia|]. cbn [body_loop].
  destruct want as [|w0 want]; [cbn; by rewrite app_nil_r|]. rewrite (proj2 (Z.leb_gt _ _)) by (cbn [length]; lia).
  destruct (tcp_read_ready (Z.to_nat (Z.min 512 (Z.of_nat (length (w0 :: want))))) src) as (c & src' & E & Hc & Hl & Hdata & Hr');
    [cbn [length]; lia|done|by rewrite Hd|].
  rewrite E. pose proof (tcp_read_shrinks _ _ _ _ E Hc) as Hs. destruct c as [|x c]; [done|]. set (cc := x :: c) in *.
  rewrite Hd in Hdata. destruct (app_prefix _ _ _ _ (eq_sym Hdata) ltac:(lia)) as (t & Et & Et'). rewrite Et.
  rewrite (IH t _ _ _ rest); [by rewrite <- app_assoc|lia|done|done|]. rewrite length_app. lia.
Qed.

(** ** Keys in the snapshot *)

Lemma hex_byte_facts b : u8 b -> utf8_valid (hex_byte b) = true /\ from_str_radix 16 255 (hex_byte b) = Some b.
Proof.
  intros Hb. split; [|by apply hex_byte_parse].
  assert (Hall : forallb (fun z => utf8_valid (hex_byte z)) (map Z.of_nat (seq 0 256)) = true) by (vm_compute; reflexivity).
  rewrite forallb_forall in Hall. apply Hall. apply in_map_iff. exists (Z.to_nat b). unfold u8 in Hb. split; [lia|]. apply in_seq. lia.
Qed.

Lemma hex_pairs_hex k : bytes_wf k -> hex_pairs (length k) (hex k) = Some k.
Proof.
  induction 1 as [|b k Hb Hk IH]; [done|]. destruct (hex_byte_facts b Hb) as [E1 E2].
  change (hex (b :: k)) with (hex_byte b ++ hex k). unfold hex_byte in *. cbn [length hex_pairs app]. by rewrite E1, E2, IH.
Qed.

Lemma hex_to_bytes_hex k : bytes_wf k -> length k = 32%nat -> hex_to_bytes (node_key_hex k) = Some k.
Proof.
  intros Hw Hl. unfold hex_to_bytes, node_key_hex. rewrite decide_True by (rewrite length_hex; lia). rewrite <- Hl. by apply hex_pairs_hex.
Qed.

(** The keys of a map are keys: 32 bytes. *)
Definition keys_wf (nm : NetMap) : Prop := forall k p, nm_peers nm !! k = Some p -> bytes_wf k /\ length k = 32%nat.

Lemma peer_views_spec show6 alive rtt nm h v : keys_wf nm ->
  peer_views show6 alive rtt nm !! h = Some v <-> exists k p, nm_peers nm !! k = Some p /\ h = node_key_hex k /\ v = peer_view show6 alive rtt k p.
Proof.
  unfold keys_wf, peer_views. generalize (nm_peers nm). intros m. revert h v.
  induction m as [|k p m Hk Hf IH] using map_first_key_ind; intros h v Hw.
  { rewrite map_fold_empty. split; [done|]. intros (k & p & E & _). done. }
  rewrite map_fold_insert_first_key by done.
  assert (Hw' : forall k' p', m !! k' = Some p' -> bytes_wf k' /\ length k' = 32%nat).
  { intros k' p' E. apply (Hw k' p'). rewrite lookup_insert_ne by (intros ->; congruence). done. }
  destruct (Hw k p) as [Hkw Hkl]; [by rewrite lookup_insert_eq|].
  rewrite lookup_insert_Some, (IH h v Hw'). split.
  - intros [[<- <-]|[Hne (k' & p' & E & -> & ->)]]; [exists k, p; by rewrite lookup_insert_eq|].
    exists k', p'. rewrite lookup_insert_ne by (intros ->; congruence). done.
  - intros (k' & p' & E & -> & ->). destruct (decide (k' = k)) as [->|Hne].
    + rewrite lookup_insert_eq in E. injection E as <-. by left.
    + rewrite lookup_insert_ne in E by done. right. split; [|by exists k', p'].
      intros E2. apply Hne. destruct (Hw' _ _ E) as [W1 L1]. apply (f_equal hex_to_bytes) in E2. rewrite !hex_to_bytes_hex in E2 by done. congruence.
Qed.

(** ** Strings in JSON *)

(** A reader of a JSON string, from after its quote: the text and what follows
    the closing quote.  Escapes of other characters do not occur here. *)
Fixpoint read_json_string (s : list Z) : option (list Z * list Z) :=
  match s with
  | [] => None
  | c :: s =>
      if c =? 34 then Some ([], s)
      else if c <? 32 then None
      else if c =? 92 then
        match s with
        | e :: s =>
            if e =? 117 then
              match s with
              | a :: b :: x :: y :: s =>
                  z ← from_str_radix 16 255 [x; y];
                  if bool_decide ([a; b] = [48; 48]) then '(t, r) ← read_json_string s; Some (z :: t, r) else None
              | _ => None
              end
            else
              z ← (if e =? 34 then Some 34 else if e =? 92 then Some 92 else if e =? 110 then Some 10
                   else if e =? 114 then Some 13 else if e =? 116 then Some 9 else None);
              '(t, r) ← read_json_string s; Some (z :: t, r)
        | [] => None
        end
      else '(t, r) ← read_json_string s; Some (c :: t, r)
  end.

Lemma escape_read c s t r : u8 c -> read_json_string s = Some (t, r) -> read_json_string (escape_byte c ++ s) = Some (c :: t, r).
Proof.
  intros Hc Hs. unfold escape_byte.
  destruct (Z.eqb_spec c 34) as [->|]; [cbn; by rewrite Hs|]. destruct (Z.eqb_spec c 92) as [->|]; [cbn; by rewrite Hs|].
  destruct (Z.eqb_spec c 10) as [->|]; [cbn; by rewrite Hs|]. destruct (Z.eqb_spec c 13) as [->|]; [cbn; by rewrite Hs|].
  destruct (Z.eqb_spec c 9) as [->|]; [cbn; by rewrite Hs|]. destruct (Z.ltb_spec c 32).
  - destruct (hex_byte_facts c Hc) as [_ E]. unfold hex_byte in *. cbn [app bs]. cbn [read_json_string].
    change (bs "\u00") with [92; 117; 48; 48]. cbn [app read_json_string]. cbn [Z.eqb Z.ltb Z.compare Pos.eqb Pos.compare Pos.compare_cont].
    rewrite E. cbn [mbind option_bind]. rewrite bool_decide_true by done. by rewrite Hs.
  - cbn [app read_json_string]. rewrite (proj2 (Z.eqb_neq c 34)), (proj2 (Z.ltb_ge c 32)), (proj2 (Z.eqb_neq c 92)) by lia. by rewrite Hs.
Qed.

Lemma escape_roundtrip s rest : bytes_wf s -> read_json_string (escape_json_string s ++ 34 :: rest) = Some (s, rest).
Proof.
  induction 1 as [|c s Hc Hs IH]; [done|]. unfold escape_json_string in *. cbn [map concat]. rewrite <- app_assoc. by apply escape_read.
Qed.

(** The query of one address. *)
Lemma query_get_ip ip : ipv4 ip -> query_get (bs "ip=" ++ show_ipv4 ip) (bs "ip") = Some (show_ipv4 ip).
Proof.
  intros Hip. unfold query_get. rewrite split_on_single.
  - cbn [omap list_omap]. change (bs "ip=" ++ show_ipv4 ip) with (105 :: 112 :: 61 :: show_ipv4 ip). cbn [split_once]. reflexivity.
  - rewrite not_elem_of_app. split; [by apply (bool_decide_unpack _); vm_compute|apply show_ipv4_no; lia].
Qed.

(** ** The feed of received files *)

(** What happens to the published snapshot. *)
Inductive Publication : Type :=
| PubFull (f : RuntimeSnapshot -> RuntimeSnapshot) (** any [publish_snapshot] *)
| PubFatal (now : Z) (t : LifecycleTracker)
| PubLogin (now : Z) (t : LifecycleTracker) (url : option (list Z)) (in_progress : bool)
| PubParked (now : Z) (t : LifecycleTracker) (url : option (list Z)) (in_progress logged_out : bool)
| PubTaildrop (ev : TaildropEvent).

Section Feed.
Context (show6 : SocketAddr -> list Z).

(** A full publication, with the magic socket's answers at that time. *)
Definition is_publish (f : RuntimeSnapshot -> RuntimeSnapshot) : Prop :=
  exists alive rtt now started hostname nm local home regions public st reason,
    f = publish_snapshot show6 alive rtt now started hostname nm local home regions public st reason.

Definition publish (w : RuntimeSnapshot) (p : Publication) : RuntimeSnapshot :=
  match p with
  | PubFull f => f w
  | PubFatal now t => publish_fatal_state now t w
  | PubLogin now t url b => publish_login now t url b w
  | PubParked now t url b out => publish_parked_state now t url b out w
  | PubTaildrop ev => record_taildrop ev w
  end.

Definition valid (p : Publication) : Prop := match p with PubFull f => is_publish f | _ => True end.

(** The files received since the node was last parked, newest first. *)
Definition received (feed : list TaildropEvent) (p : Publication) : list TaildropEvent :=
  match p with PubParked _ _ _ _ _ => [] | PubTaildrop ev => ev :: feed | _ => feed end.

Lemma feed_step feed w p : valid p -> recent_taildrops w = take 8 feed -> recent_taildrops (publish w p) = take 8 (received feed p).
Proof.
  intros Hv Hw. destruct p as [f| | | |ev]; cbn [publish received]; try done.
  - destruct Hv as (a & b & c & d & e & g & h & i & j & k & l & m & ->). done.
  - unfold record_taildrop. cbn [recent_taildrops]. rewrite Hw. cbn [take]. f_equal. by rewrite take_take.
Qed.
End Feed.

(** ** Answers *)

(** The name of the endpoint that sends a signal. *)
Definition endpoint_of (sig : ControlSignal) : list Z :=
  match sig with
  | ForceReconnect => bs "reconnect" | SetWantRunning true => bs "up" | SetWantRunning false => bs "down"
  | Logout => bs "logout" | LoginInteractive => bs "login-interactive"
  end.

(** When a state lets a signal through. *)
Definition admits (st : OnlineState) (sig : ControlSignal) : bool :=
  negb (is_fatal st) && negb (bool_decide (st = Stopped) && match sig with ForceReconnect | LoginInteractive => true | _ => false end).

(** The handler behind a signal's endpoint. *)
Definition act (to_vec : Json -> option (list Z)) (sig : ControlSignal) (ctx : HandlerCtx) : list ControlSignal * (Z * list Z) :=
  match sig with ForceReconnect => reconnect to_vec ctx | _ => control_action to_vec sig ctx end.

(** What the handler does: nothing in a state that refuses the signal, and
    otherwise exactly one signal if there is a loop to take it. *)
Lemma act_spec to_vec sig ctx :
  exists st body, act to_vec sig ctx = (if admits (lifecycle (snapshot ctx)) sig && loop_alive ctx then [sig] else [], (st, body)) /\
    (st = 202 <-> admits (lifecycle (snapshot ctx)) sig && loop_alive ctx = true) /\
    (st = 409 <-> admits (lifecycle (snapshot ctx)) sig = false).
Proof.
  unfold act, reconnect, control_action, send_signal, admits.
  destruct (is_fatal (lifecycle (snapshot ctx))), (bool_decide (lifecycle (snapshot ctx) = Stopped)), (loop_alive ctx), sig as [|[]| |];
    cbn; eexists _, _; (split; [reflexivity|]); split; split; (done || lia).
Qed.

Section Dispatch.
Context (to_vec : Json -> option (list Z)) (values : gmap (list Z) PeerView -> list PeerView) (now : Z).

Lemma dispatch_get req ctx : rq_method req <> bs "POST" -> (dispatch to_vec values now req ctx).1 = [].
Proof.
  intros Hm. unfold dispatch. rewrite (bool_decide_false (rq_method req = bs "POST")) by done. cbn [andb]. cbv zeta.
  repeat case_match; done.
Qed.

Lemma dispatch_post req ctx : rq_method req = bs "POST" ->
  dispatch to_vec values now req ctx =
    (if has_action_header req then
       match List.find (fun sig => bool_decide (rq_path req = route (endpoint_of sig)))
               [ForceReconnect; SetWantRunning true; SetWantRunning false; Logout; LoginInteractive] with
       | Some sig => let '(sigs, (st, body)) := act to_vec sig ctx in (sigs, json_response st body)
       | None => ([], json_response 404 (error_body (bs "no such endpoint")))
       end
     else ([], json_response 403 (error_body (bs "missing local action header")))).
Proof.
  intros Hm. unfold dispatch. rewrite (bool_decide_true (rq_method req = bs "POST")) by done.
  rewrite (bool_decide_false (rq_method req = bs "GET")) by (rewrite Hm; discriminate). cbn [andb orb]. cbv zeta.
  destruct (has_action_header req); cbn [negb]; [|done]. cbn [List.find endpoint_of].
  repeat (match goal with |- context [bool_decide (rq_path req = ?x)] => destruct (bool_decide (rq_path req = x)) end); reflexivity.
Qed.

Lemma find_endpoint sig : forall p, p = route (endpoint_of sig) ->
  List.find (fun sig => bool_decide (p = route (endpoint_of sig)))
    [ForceReconnect; SetWantRunning true; SetWantRunning false; Logout; LoginInteractive] = Some sig.
Proof. intros p ->. destruct sig as [|[]| |]; vm_compute; reflexivity. Qed.
End Dispatch.

Lemma read_request_whole parse_head src head body extra m target headers :
  is_head head -> parse_head head = Complete (Some m) (Some target) headers ->
  content_length_of headers = Z.of_nat (length body) -> (length head + length body <= MAX_REQUEST_BYTES)%nat ->
  ready src -> data src = head ++ body ++ extra ->
  exists path query, read_request parse_head src = Ok (mkRequest m path query body (action_header_in headers)) /\
    (target = path ++ 63 :: query \/ (path = target /\ query = [] /\ 63 ∉ target)).
Proof.
  intros Hh Hp Hcl Hmax Hr Hd. pose proof max_request_val as Hmx. destruct Hh as (i & Hi & Hlen).
  destruct (head_loop_spec head (body ++ extra) (S MAX_REQUEST_BYTES) [] src) as (buf & src' & E & Hd' & Hge & Hr');
    [by exists i|lia|done|done|cbn [length]; lia|cbn [length]; lia|done|].
  unfold read_request. rewrite E. replace (length head - 4 + 4)%nat with (length head) by lia.
  destruct (app_prefix _ _ _ _ (eq_sym Hd') Hge) as (t & -> & Et). rewrite take_app_len, Hp by done. cbn [mbind result_bind].
  destruct (match split_once 63 target with Some x => x | None => (target, []) end) as [path query] eqn:Es.
  assert (Hb : read_body (length head) (content_length_of headers) (head ++ t) src' = Ok body).
  { unfold read_body. rewrite Hcl, length_app, drop_app_len by done. replace (length head + length t - length head)%nat with (length t) by lia.
    destruct (Z.ltb_spec (Z.of_nat (length t)) (Z.of_nat (length body))) as [Hlt|Hge2].
    - unfold wrap. rewrite (proj2 (Z.ltb_ge _ _)) by (rewrite Z.mod_small; lia).
      destruct (app_prefix _ _ _ _ (eq_sym Et) ltac:(lia)) as (u & -> & Eu).
      rewrite (body_loop_spec _ u _ _ _ extra); [done|lia|done|done|rewrite length_app; lia].
    - destruct (app_prefix _ _ _ _ Et ltac:(lia)) as (u & -> & Eu).
      destruct (Z.ltb_spec (Z.of_nat (length body)) (Z.of_nat (length (body ++ u)))) as [Hlt|Hle].
      + rewrite Nat2Z.id, take_app_len by done. done.
      + rewrite length_app in Hle. destruct u; [by rewrite app_nil_r|cbn in Hle; lia]. }
  rewrite Hb. cbn [mbind result_bind]. exists path, query. split; [done|].
  destruct (split_once 63 target) as [[a b]|] eqn:Eo; injection Es as -> ->.
  - left. by apply split_once_spec in Eo as [-> _].
  - right. split_and!; [done|done|]. by apply split_once_none.
Qed.

(** * Theorems *)

(** requests are read whole.  However a request of at most 8 KiB arrives in
    pieces, and whatever follows it, the method, the path, the query and exactly
    the body its head announces are what the router sees. *)
Theorem localapi_reads_request parse_head src head body extra m target headers :
  is_head head -> parse_head head = Complete (Some m) (Some target) headers ->
  content_length_of headers = Z.of_nat (length body) -> (length head + length body <= MAX_REQUEST_BYTES)%nat ->
  ready src -> data src = head ++ body ++ extra ->
  exists path query, read_request parse_head src = Ok (mkRequest m path query body (action_header_in headers)) /\
    (target = path ++ 63 :: query \/ (path = target /\ query = [] /\ 63 ∉ target)).
Proof. apply read_request_whole. Qed.

(** A POST of [{}] to the login endpoint, in pieces. *)
Definition toy_crlf : list Z := [13; 10].
Definition toy_headers : list (list Z * list Z) :=
  [(bs "X-Tailscale-Vita-Local", bs "1"); (bs "Content-Length", bs " 2")].
Definition toy_request_head : list Z :=
  bs "POST /localapi/v0/up?a=b HTTP/1.1" ++ toy_crlf ++ concat (map (fun h => h.1 ++ bs ":" ++ h.2 ++ toy_crlf) toy_headers) ++ toy_crlf.
Definition toy_parse (head : list Z) : HeadParse :=
  if decide (head = toy_request_head) then Complete (Some (bs "POST")) (Some (bs "/localapi/v0/up?a=b")) toy_headers else Malformed.
Definition toy_src : list Readable :=
  [Data (take 5 toy_request_head); Data (drop 5 toy_request_head ++ bs "{"); Data (bs "}more")].

Lemma toy_src_ready : ready toy_src.
Proof. split; [|reflexivity]. unfold toy_src. repeat constructor; discriminate. Qed.

Lemma localapi_reads_request_witness :
  exists path query, read_request toy_parse toy_src = Ok (mkRequest (bs "POST") path query (bs "{}") true) /\
    (bs "/localapi/v0/up?a=b" = path ++ 63 :: query \/ (path = bs "/localapi/v0/up?a=b" /\ query = [] /\ 63 ∉ bs "/localapi/v0/up?a=b")).
Proof.
  change true with (action_header_in toy_headers).
  apply (localapi_reads_request toy_parse toy_src toy_request_head (bs "{}") (bs "more")); [eexists; split; [vm_compute; reflexivity|reflexivity]
    |unfold toy_parse; by rewrite decide_True|vm_compute; reflexivity| |exact toy_src_ready|vm_compute; reflexivity].
  pose proof max_request_val. change (length toy_request_head + length (bs "{}"))%nat with 84%nat. lia.
Defined.

(** C21: who may steer the node.  A connection queues at most one signal, and queues
    a signal exactly when it is a POST to that signal's endpoint with the action
    header, the shown state lets it through — no signal in a fatal state, no
    reconnect or login while stopped — and the event loop is there to take it; it
    is answered 202 exactly then. *)
Theorem localapi_signals to_vec values parse_head now src ctx req sig :
  read_request parse_head src = Ok req ->
  let '(sigs, out) := handle_one to_vec values parse_head now src ctx in
  (length sigs <= 1)%nat /\
  (sig ∈ sigs <-> rq_method req = bs "POST" /\ has_action_header req = true /\ rq_path req = route (endpoint_of sig) /\
                  admits (lifecycle (snapshot ctx)) sig = true /\ loop_alive ctx = true) /\
  (sig ∈ sigs -> exists body, out = Some (json_response 202 body)).
Proof.
  intros Hr. unfold handle_one. rewrite Hr. destruct (dispatch to_vec values now req ctx) as [sigs out] eqn:E.
  destruct (decide (rq_method req = bs "POST")) as [Hm|Hm].
  2:{ pose proof (dispatch_get to_vec values now req ctx Hm) as Hg. rewrite E in Hg. cbn in Hg. subst sigs.
      split_and!; [cbn; lia|split; [by intros ?%not_elem_of_nil|by intros [? _]]|by intros ?%not_elem_of_nil]. }
  rewrite dispatch_post in E by done. destruct (has_action_header req) eqn:Eh.
  2:{ injection E as <- <-. split_and!; [cbn; lia|split; [by intros ?%not_elem_of_nil|by intros (_ & ? & _)]|by intros ?%not_elem_of_nil]. }
  destruct (List.find _ _) as [s0|] eqn:Ef.
  - destruct (act_spec to_vec s0 ctx) as (st & body & Ea & E202 & _). rewrite Ea in E. injection E as <- <-.
    apply List.find_some in Ef as [_ Ef]. apply bool_decide_eq_true in Ef.
    assert (Hs : sig = s0 <-> rq_path req = route (endpoint_of sig)).
    { split; [intros ->; done|]. intros Ep. pose proof (find_endpoint sig _ Ep) as F1. rewrite (find_endpoint s0 _ Ef) in F1. congruence. }
    destruct (admits (lifecycle (snapshot ctx)) s0 && loop_alive ctx) eqn:Ead.
    + apply andb_true_iff in Ead as [A1 A2]. split_and!; [done| |].
      * rewrite list_elem_of_singleton, Hs. split; [intros Hp|by intros (_ & _ & ? & _)]. apply Hs in Hp as Hp'. subst s0. done.
      * intros _. exists body. by rewrite (proj2 E202 eq_refl).
    + split_and!; [cbn; lia| |by intros ?%not_elem_of_nil]. split; [by intros ?%not_elem_of_nil|]. intros (_ & _ & Hp & A1 & A2).
      apply Hs in Hp. subst s0. by rewrite A1, A2 in Ead.
  - injection E as <- <-. split_and!; [cbn; lia| |by intros ?%not_elem_of_nil]. split; [by intros ?%not_elem_of_nil|]. intros (_ & _ & Hp & _).
    by rewrite (find_endpoint sig _ Hp) in Ef.
Qed.

(** The request above in a running node, and in a stopped one. *)
Definition toy_snapshot (st : OnlineState) : RuntimeSnapshot :=
  publish_login 5 (set_state st tracker_new) None false (snapshot_empty 5 (bs "vita") (SAV4 0 41641)).

Lemma toy_read : read_request toy_parse toy_src = Ok (mkRequest (bs "POST") (bs "/localapi/v0/up") (bs "a=b") (bs "{}") true).
Proof. vm_compute. reflexivity. Qed.

Lemma localapi_signals_witness :
  let '(sigs, out) := handle_one (fun _ => None) (fun _ => []) toy_parse 7 toy_src (mkCtx (toy_snapshot Stopped) true (fun _ => Err [])) in
  (SetWantRunning true) ∈ sigs /\ (LoginInteractive ∉ sigs) /\ exists body, out = Some (json_response 202 body).
Proof.
  pose proof toy_read as Hr.
  pose proof (fun sig => localapi_signals (fun _ => None) (fun _ => []) toy_parse 7 toy_src (mkCtx (toy_snapshot Stopped) true (fun _ => Err [])) _ sig Hr) as H.
  destruct (handle_one _ _ _ _ _ _) as [sigs out]. destruct (H (SetWantRunning true)) as (_ & H1 & H2). destruct (H LoginInteractive) as (_ & H3 & _).
  assert (Hin : (SetWantRunning true) ∈ sigs) by (apply H1; split_and!; reflexivity).
  split_and!; [done| |by apply H2]. intros (_ & _ & Hn & _)%H3. discriminate Hn.
Defined.

(** peers are found under their address.  After a publication, an address is
    resolved to a peer of the network map with that address as its own, unless no
    peer has it; and a ping of that address pings exactly that peer's node key. *)
Theorem localapi_resolves_peers show6 alive rtt to_vec values now started hostname nm local home regions public st reason w loop pn ip :
  keys_wf nm -> (forall m p, p ∈ values m <-> exists h, m !! h = Some p) -> ipv4 ip ->
  let ctx := mkCtx (publish_snapshot show6 alive rtt now started hostname nm local home regions public st reason w) loop pn in
  (forall p, find_peer values ctx ip = Some p ->
     exists k ps a, nm_peers nm !! k = Some ps /\ p = peer_view show6 alive rtt k ps /\ a ∈ sn_allowed_ips ps /\ ai_addr a = ip /\ ai_prefix a = 32 /\
       (ping to_vec values ctx (bs "ip=" ++ show_ipv4 ip)).1 = Some k) /\
  (find_peer values ctx ip = None -> forall k ps, nm_peers nm !! k = Some ps -> tailscale_ip (peer_view show6 alive rtt k ps) <> Some ip).
Proof.
  intros Hw Hv Hip ctx. split.
  - intros p Hp. pose proof Hp as Hfind. unfold find_peer in Hp. apply List.find_some in Hp as [Hin Ht]. apply bool_decide_eq_true in Ht.
    apply list_elem_of_In, Hv in Hin as [h Hh]. cbn [snapshot ctx publish_snapshot peers] in Hh. apply peer_views_spec in Hh as (k & ps & Ek & -> & ->); [|done].
    cbn [tailscale_ip peer_view] in Ht. destruct (List.find _ (sn_allowed_ips ps)) as [a|] eqn:Ea; [|done]. injection Ht as Ha.
    apply List.find_some in Ea as [Hin Hpre]. apply list_elem_of_In in Hin. apply Z.eqb_eq in Hpre.
    exists k, ps, a. split_and!; try done. unfold ping. rewrite query_get_ip by done. rewrite parse_ipv4_show by done. rewrite Hfind.
    cbn [pv_node_key_hex peer_view]. destruct (Hw _ _ Ek) as [W1 W2]. by rewrite hex_to_bytes_hex.
  - intros Hn k ps Ek Ht. unfold find_peer in Hn. eapply List.find_none in Hn; [|apply list_elem_of_In, Hv; exists (node_key_hex k); cbn; apply peer_views_spec; [done|]; by exists k, ps].
    apply bool_decide_eq_false in Hn. done.
Qed.

Definition toy_peer : PeerSnapshot :=
  mkSnapshot 4 (repeat 9 32) None (bs "nas") [mkAllowedIp (ipv4_new 10 0 0 0) 8; mkAllowedIp (ipv4_new 100 64 0 7) 32] 1 true [] None None.
Definition toy_netmap : NetMap :=
  mkNetMap [] None [] None {[repeat 9 32 := toy_peer]} ∅ ∅ 0 [] [] ∅ None.
Definition toy_publish (w : RuntimeSnapshot) : RuntimeSnapshot :=
  publish_snapshot (fun _ => []) (fun _ => None) (fun _ => None) 9 5 (bs "vita") toy_netmap (SAV4 0 41641) 1 [1] None Online None w.
Definition toy_values (m : gmap (list Z) PeerView) : list PeerView := (map_to_list m).*2.

Lemma toy_values_spec m p : p ∈ toy_values m <-> exists h, m !! h = Some p.
Proof.
  unfold toy_values. rewrite list_elem_of_fmap. split.
  - intros ([h q] & -> & Hin). exists h. by apply elem_of_map_to_list.
  - intros [h Hh]. exists (h, p). split; [done|]. by apply elem_of_map_to_list.
Qed.

Lemma localapi_resolves_peers_witness :
  exists p k ps a, find_peer toy_values (mkCtx (toy_publish (toy_snapshot Connecting)) true (fun _ => Err [])) (ipv4_new 100 64 0 7) = Some p /\
    nm_peers toy_netmap !! k = Some ps /\ a ∈ sn_allowed_ips ps /\ ai_addr a = ipv4_new 100 64 0 7 /\
    (ping (fun _ => None) toy_values (mkCtx (toy_publish (toy_snapshot Connecting)) true (fun _ => Err [])) (bs "ip=" ++ show_ipv4 (ipv4_new 100 64 0 7))).1 = Some k.
Proof.
  destruct (localapi_resolves_peers (fun _ => []) (fun _ => None) (fun _ => None) (fun _ => None) toy_values 9 5 (bs "vita") toy_netmap
    (SAV4 0 41641) 1 [1] None Online None (toy_snapshot Connecting) true (fun _ => Err []) (ipv4_new 100 64 0 7)) as [H _].
  - intros k p. cbn [nm_peers toy_netmap]. rewrite lookup_singleton_Some. intros [<- _]. split; [repeat constructor; lia|reflexivity].
  - exact toy_values_spec.
  - unfold ipv4. vm_compute. by split.
  - assert (E : exists p, find_peer toy_values (mkCtx (toy_publish (toy_snapshot Connecting)) true (fun _ => Err [])) (ipv4_new 100 64 0 7) = Some p)
      by (eexists; vm_compute; reflexivity).
    destruct E as [p E]. destruct (H p E) as (k & ps & a & E1 & _ & E2 & E3 & _ & E4). exists p, k, ps, a. split_and!; assumption.
Defined.

(** the shown feed.  After any sequence of publications the snapshot lists the
    files received since the node was last parked, the newest eight, newest first:
    full publications, which replace everything else, lose none of them. *)
Theorem taildrop_feed show6 now hostname local ps :
  Forall (valid show6) ps ->
  recent_taildrops (foldl publish (snapshot_empty now hostname local) ps) = take 8 (foldl received [] ps).
Proof.
  intros Hv. assert (G : forall feed w, recent_taildrops w = take 8 feed -> recent_taildrops (foldl publish w ps) = take 8 (foldl received feed ps)).
  { induction Hv as [|p ps Hp Hps IH]; intros feed w Hw; [done|]. cbn [foldl]. apply IH. by eapply feed_step. }
  by apply G.
Qed.

Lemma taildrop_feed_witness :
  let ev n := PubTaildrop (mkTaildrop [n] 1 (bs "nas") (bs "done") n) in
  map td_name (recent_taildrops (foldl publish (snapshot_empty 5 (bs "vita") (SAV4 0 41641))
    ([ev 1; PubParked 6 tracker_new None false false] ++ map ev [2; 3; 4; 5; 6] ++ [PubFull toy_publish] ++ map ev [7; 8; 9; 10]))) =
  [[10]; [9]; [8]; [7]; [6]; [5]; [4]; [3]].
Proof.
  cbv zeta. rewrite (taildrop_feed (fun _ => [])); [reflexivity|].
  repeat (apply Forall_cons_2; [first [exact I|by do 12 eexists]|]). apply Forall_nil_2.
Defined.

(** error texts are JSON.  Whatever bytes an error message has, a reader of the
    JSON body of the router's errors gets the message back and stops at the
    closing brace. *)
Theorem error_body_roundtrip msg : bytes_wf msg ->
  exists pre, error_body msg = pre ++ [34] ++ escape_json_string msg ++ [34; 125] /\
    pre = [123; 34] ++ bs "error" ++ [34; 58] /\ read_json_string (escape_json_string msg ++ [34; 125]) = Some (msg, [125]).
Proof.
  intros Hm. eexists. split; [|split; [reflexivity|by apply escape_roundtrip]]. unfold error_body. rewrite <- !app_assoc. reflexivity.
Qed.

Lemma error_body_roundtrip_witness :
  read_json_string (escape_json_string [34; 92; 10; 1; 200] ++ [34; 125]) = Some ([34; 92; 10; 1; 200], [125]).
Proof.
  destruct (error_body_roundtrip [34; 92; 10; 1; 200]) as (pre & _ & _ & H); [by wf_list|exact H].
Defined.

(** The cap on a request is computed modulo 2^32: a length of 4294967295 passes
    it, and the server reads and keeps whatever is sent. *)
Theorem request_cap_wraps body_start buf src :
  (0 < body_start <= MAX_REQUEST_BYTES)%nat -> Z.of_nat (length buf) < 2 ^ 20 -> ready src -> Z.of_nat (length (data src)) < 2 ^ 31 ->
  read_body body_start (2 ^ 32 - 1) buf src = Err (ReqBad (bs "body read timeout")).
Proof.
  intros Hs Hb Hr Hd. pose proof max_request_val. unfold read_body. rewrite (proj2 (Z.ltb_lt _ _)) by lia.
  replace (wrap 32 (Z.of_nat body_start + (2 ^ 32 - 1))) with (Z.of_nat body_start - 1) by (unfold wrap; apply (Z.mod_unique _ _ 1); lia).
  rewrite (proj2 (Z.ltb_ge _ _)) by lia.
  assert (G : forall f rem body src, (length (data src) + length src < f)%nat -> ready src -> Z.of_nat (length (data src)) < rem ->
            body_loop f rem body src = Err (ReqBad (bs "body read timeout"))).
  { clear. induction f as [|f IH]; intros rem body src Hf Hr Hlt; [lia|]. cbn [body_loop]. rewrite (proj2 (Z.leb_gt _ _)) by lia.
    destruct (data src) as [|x l] eqn:Ed.
    - destruct Hr as [Hl Hq]. destruct src as [|[c| | |] src]; cbn [tcp_read]; try (by apply Forall_cons_1 in Hl as [[] _]); [done|].
      apply Forall_cons_1 in Hl as [Hc _]. unfold data in Ed. cbn in Ed. by destruct c.
    - destruct (tcp_read_ready (Z.to_nat (Z.min 512 rem)) src) as (c & src' & E & Hc & _ & Hdata & Hr'); [lia|done|by rewrite Ed|].
      rewrite E. pose proof (tcp_read_shrinks _ _ _ _ E Hc). destruct c as [|y c]; [done|].
      rewrite Ed in Hdata. apply (f_equal length) in Hdata. rewrite length_app in Hdata. apply IH; [rewrite Ed in *; lia|done|lia]. }
  apply G; [lia|done|lia].
Qed.
