(* ===== verification/ConfigEdit.v ===== *)
(** Editing config.toml in place (tailscale-vita-demo: ui/config_edit.rs): a
    setting is changed by rewriting its line, and the file is swapped with a
    backup, a staged copy and a check.

    Text is bytes; files go through the class [Fs]. *)

From S2P Require Import Prelude Text VitaFs.
#[local] Open Scope Z_scope.

(** ** Lines *)

Definition section_name (line : list Z) : option (list Z) :=
  match trim_start line with
  | 91 :: inner => '(name, _) ← split_once 93 inner; Some (trim name)
  | _ => None
  end.

(** The line sets [key]: what is before its [=]. *)
Definition key_line (key line : list Z) : bool :=
  match split_once 61 line with Some (lhs, _) => bool_decide (trim lhs = key) | None => false end.

Definition indent_of (line : list Z) : list Z := take (length line - length (trim_start line)) line.

Definition show_bool (b : bool) : list Z := if b then bs "true" else bs "false".

(** [push_bool] and [push_str_kv]: the line they write, without its end. *)
Definition push_bool (key : list Z) (value : bool) (indent : list Z) : list Z := indent ++ key ++ bs " = " ++ show_bool value.
Definition push_str_kv (key value indent : list Z) : list Z := indent ++ key ++ bs " = " ++ [34] ++ value ++ [34].

Definition current_bool (line : list Z) : bool :=
  match split_once 61 line with
  | Some (_, rhs) => bool_decide (is_Some (strip_prefix (bs "true") (trim rhs)))
  | None => false
  end.

Definition parse_basic_string (rhs : list Z) : option (list Z) :=
  match trim rhs with 34 :: body => fst <$> split_once 34 body | _ => None end.

(** ** Edits *)

Record Toggle : Type := mkToggle { tg_in : bool; new_value : option bool; tg_out : list Z }.

Definition toggle_line (section key : list Z) (t : Toggle) (line : list Z) : Toggle :=
  let keep in_ := mkToggle in_ (new_value t) (tg_out t ++ line ++ [10]) in
  match section_name line with
  | Some name => keep (bool_decide (name = section))
  | None =>
      if tg_in t && negb (bool_decide (is_Some (new_value t))) && key_line key line then
        let next := negb (current_bool line) in
        mkToggle (tg_in t) (Some next) (tg_out t ++ push_bool key next (indent_of line) ++ [10])
      else keep (tg_in t)
  end.

Definition toggle_result (t : Toggle) : option (list Z * bool) := v ← new_value t; Some (tg_out t, v).
Definition toggle_bool (text section key : list Z) : option (list Z * bool) :=
  toggle_result (foldl (toggle_line section key) (mkToggle false None []) (lines text)).

(** [set_bool] and [set_str] are one loop with two ways to write the line. *)
Record Edit : Type := mkEdit { in_section : bool; saw_section : bool; wrote : bool; ed_out : list Z }.

Definition set_line (section key : list Z) (push : list Z -> list Z) (e : Edit) (line : list Z) : Edit :=
  match section_name line with
  | Some name =>
      let insert := in_section e && negb (wrote e) in
      mkEdit (bool_decide (name = section)) (saw_section e || bool_decide (name = section)) (wrote e || insert)
        (ed_out e ++ (if insert then push [] ++ [10] else []) ++ line ++ [10])
  | None =>
      if in_section e && negb (wrote e) && key_line key line
      then mkEdit (in_section e) (saw_section e) true (ed_out e ++ push (indent_of line) ++ [10])
      else mkEdit (in_section e) (saw_section e) (wrote e) (ed_out e ++ line ++ [10])
  end.

Definition set_value (text section key : list Z) (push : list Z -> list Z) : list Z :=
  let e := foldl (set_line section key push) (mkEdit false false false []) (lines text) in
  if in_section e && negb (wrote e) then ed_out e ++ push [] ++ [10]
  else if negb (saw_section e) then ed_out e ++ [10] ++ ([91] ++ section ++ [93] ++ [10]) ++ push [] ++ [10]
  else ed_out e.

Definition set_bool (text section key : list Z) (value : bool) : list Z * bool :=
  (set_value text section key (push_bool key value), value).
Definition set_str (text section key value : list Z) : list Z := set_value text section key (push_str_kv key value).

(** ** Readers *)

(** The line that sets [key] under [section]: the first one. *)
Fixpoint find_line (section key : list Z) (in_section : bool) (ls : list (list Z)) : option (list Z) :=
  match ls with
  | [] => None
  | line :: ls =>
      match section_name line with
      | Some name => find_line section key (bool_decide (name = section)) ls
      | None => if in_section && key_line key line then Some line else find_line section key in_section ls
      end
  end.

Definition read_bool (text section key : list Z) : option bool := current_bool <$> find_line section key false (lines text).
Definition read_str (text section key : list Z) : option (list Z) :=
  line ← find_line section key false (lines text); '(_, rhs) ← split_once 61 line; parse_basic_string rhs.

(** ** The file *)

Inductive EditError : Type := ReadConfig | NoSuchKey | WriteTmp | SwapFailed.

Section File.
Context {W : Type} `{Fs W}.

Definition read_to_string (w : W) (path : list Z) : option (list Z) :=
  match fs_read w path with Ok b => if utf8_valid b then Some b else None | Err _ => None end.

Definition bak_of (path : list Z) : list Z := path ++ bs ".bak".
Definition tmp_of (path : list Z) : list Z := path ++ bs ".tmp".

Definition crash_safe_swap (path original new_text : list Z) (w : W) : W * result EditError unit :=
  let '(w, _) := fs_write w (bak_of path) original in
  let '(w, staged) := fs_write w (tmp_of path) new_text in
  if negb staged then (w, Err WriteTmp)
  else
    let '(w, _) := fs_rename w (tmp_of path) path in
    let good := match read_to_string w path with Some s => negb (bool_decide (trim s = [])) | None => false end in
    if good then (w, Ok tt)
    else let '(w, rewritten) := fs_write w path new_text in (w, if rewritten then Ok tt else Err SwapFailed).

Definition apply_toggle (path section key : list Z) (w : W) : W * result EditError bool :=
  match read_to_string w path with
  | None => (w, Err ReadConfig)
  | Some text =>
      match toggle_bool text section key with
      | None => (w, Err NoSuchKey)
      | Some (new_text, v) =>
          match crash_safe_swap path text new_text w with (w, Ok _) => (w, Ok v) | (w, Err e) => (w, Err e) end
      end
  end.

Definition apply_set (path section key : list Z) (value : bool) (w : W) : W * result EditError bool :=
  match read_to_string w path with
  | None => (w, Err ReadConfig)
  | Some text =>
      let '(new_text, v) := set_bool text section key value in
      match crash_safe_swap path text new_text w with (w, Ok _) => (w, Ok v) | (w, Err e) => (w, Err e) end
  end.

Definition apply_set_str (path section key value : list Z) (w : W) : W * result EditError (list Z) :=
  match read_to_string w path with
  | None => (w, Err ReadConfig)
  | Some text =>
      match crash_safe_swap path text (set_str text section key value) w with (w, Ok _) => (w, Ok value) | (w, Err e) => (w, Err e) end
  end.

Definition read_toggle (w : W) (path section key : list Z) : option bool :=
  text ← read_to_string w path; read_bool text section key.
Definition read_toggle_str (w : W) (path section key : list Z) : option (list Z) :=
  text ← read_to_string w path; read_str text section key.
End File.

(** * Lemmas *)

(** ** Text *)

(** What [trim_start] takes away. *)
Inductive spaces : list Z -> Prop :=
| sp_nil : spaces []
| sp1 a s : is_space a = true -> spaces s -> spaces (a :: s)
| sp2 a b s : is_space a = false -> is_space2 a b = true -> spaces s -> spaces (a :: b :: s)
| sp3 a b c s : is_space a = false -> is_space2 a b = false -> is_space3 a b c = true -> spaces s -> spaces (a :: b :: c :: s).

Lemma spaces_trim ind c s : spaces ind -> solid c -> trim_start (ind ++ c :: s) = c :: s.
Proof.
  intros Hi Hc. induction Hi as [|a i E Hi IH|a b i E E2 Hi IH|a b d i E E2 E3 Hi IH]; [by apply trim_start_solid| | |];
    unfold trim_start in *; cbn [app trim_with]; rewrite ?E, ?E2, ?E3; done.
Qed.

Lemma indent_spaces line : exists ind, spaces ind /\ line = ind ++ trim_start line.
Proof.
  unfold trim_start. assert (G : forall n line, (length line <= n)%nat -> exists ind, spaces ind /\ line = ind ++ trim_with is_space2 is_space3 line).
  2:{ by apply (G (length line)). }
  induction n as [|n IH]; intros [|a r] Hn; cbn [length] in Hn; try (by exists []; split; [constructor|]); [lia|].
  cbn [trim_with]. destruct (is_space a) eqn:E1.
  { destruct (IH r ltac:(lia)) as (i & Hi & Er). exists (a :: i). split; [by constructor|]. cbn. by rewrite <- Er. }
  destruct r as [|b r]; [by exists []; split; [constructor|]|]. destruct (is_space2 a b) eqn:E2.
  { destruct (IH r ltac:(cbn in *; lia)) as (i & Hi & Er). exists (a :: b :: i). split; [by constructor|]. cbn. by rewrite <- Er. }
  destruct r as [|c r]; [by exists []; split; [constructor|]|]. destruct (is_space3 a b c) eqn:E3.
  { destruct (IH r ltac:(cbn in *; lia)) as (i & Hi & Er). exists (a :: b :: c :: i). split; [by constructor|]. cbn. by rewrite <- Er. }
  by exists []; split; [constructor|].
Qed.

Lemma indent_of_spaces line : spaces (indent_of line) /\ exists r, line = indent_of line ++ r.
Proof.
  destruct (indent_spaces line) as (i & Hi & E). unfold indent_of.
  assert (Hl : length line = (length i + length (trim_start line))%nat) by (rewrite E at 1; by rewrite length_app).
  replace (length line - length (trim_start line))%nat with (length i) by lia.
  assert (Ht : take (length i) line = i) by (rewrite E; apply take_app_length).
  rewrite Ht. split; [done|]. by exists (trim_start line).
Qed.

Lemma spaces_no c ind : spaces ind -> solid c -> c ∉ ind.
Proof.
  intros Hi [Hc Hs]. induction Hi as [|a i E Hi IH|a b i E E2 Hi IH|a b d i E E2 E3 Hi IH];
    repeat (apply not_elem_of_cons; split); try done; try apply not_elem_of_nil; intros ->; try congruence;
    unfold is_space2, is_space3, solid, is_space in *; lia.
Qed.

(** Names as TOML writes them bare: letters, digits, [_] and [-]. *)
Definition bare_char (c : Z) : bool :=
  ((48 <=? c) && (c <=? 57)) || ((65 <=? c) && (c <=? 90)) || ((97 <=? c) && (c <=? 122)) || (c =? 95) || (c =? 45).
Definition bare (s : list Z) : Prop := s <> [] /\ forallb bare_char s = true.

Lemma bare_char_solid c : bare_char c = true -> solid c.
Proof. unfold bare_char, solid, is_space. lia. Qed.

Lemma bare_no c s : bare s -> bare_char c = false -> c ∉ s.
Proof.
  intros [_ Hs] Hc Hin. rewrite forallb_forall in Hs. apply list_elem_of_In in Hin. apply Hs in Hin. congruence.
Qed.

Lemma bare_ends s : bare s -> (exists a r, s = a :: r /\ solid a /\ a <> 91) /\ exists r b, s = r ++ [b] /\ solid b.
Proof.
  intros [Hn Hs]. rewrite forallb_forall in Hs. split.
  - destruct s as [|a r]; [done|]. exists a, r. assert (Ha : bare_char a = true) by (apply Hs; by left).
    split_and!; [done|by apply bare_char_solid|]. unfold bare_char in Ha. lia.
  - destruct (List.exists_last Hn) as (r & b & ->). exists r, b. split; [done|]. apply bare_char_solid, Hs, in_app_iff. right. by left.
Qed.

Lemma trim_end_space s : trim_end (s ++ [32]) = trim_end s.
Proof. unfold trim_end. by rewrite reverse_app. Qed.

Lemma trim_bare ind s : spaces ind -> bare s -> trim (ind ++ s ++ [32]) = s /\ trim (ind ++ s) = s.
Proof.
  intros Hi Hs. destruct (bare_ends s Hs) as [(a & r & Ea & Ha & _) (r' & b & Eb & Hb)]. unfold trim. rewrite Ea at 1 3.
  change ((a :: r) ++ [32]) with (a :: r ++ [32]). rewrite !spaces_trim by done. change (a :: r ++ [32]) with ((a :: r) ++ [32]).
  rewrite <- Ea, trim_end_space, Eb. split; by apply trim_end_solid.
Qed.

(** ** The lines an edit writes *)

Definition kv (key v indent : list Z) : list Z := indent ++ key ++ bs " = " ++ v.

Lemma kv_key key v ind k' : bare key -> spaces ind ->
  section_name (kv key v ind) = None /\ split_once 61 (kv key v ind) = Some (ind ++ key ++ [32], 32 :: v) /\
  key_line k' (kv key v ind) = bool_decide (key = k').
Proof.
  intros Hk Hi. destruct (bare_ends key Hk) as [(a & r & Ea & Ha & Ha') _]. unfold kv.
  assert (Es : split_once 61 (ind ++ key ++ bs " = " ++ v) = Some (ind ++ key ++ [32], 32 :: v)).
  { change (bs " = " ++ v) with ([32] ++ 61 :: 32 :: v). rewrite !(app_assoc _ [32]), (app_assoc ind). apply split_once_app.
    rewrite !not_elem_of_app. split_and!; [apply spaces_no; [done|split; [lia|done]]|by apply bare_no|].
    apply not_elem_of_cons. split; [done|apply not_elem_of_nil]. }
  split_and!; [|done|].
  - unfold section_name. rewrite Ea. cbn [app]. rewrite spaces_trim by done.
    destruct a as [|p|p]; try done. do 7 (destruct p as [p|p|]; try done).
  - unfold key_line. rewrite Es. by rewrite (proj1 (trim_bare ind key Hi Hk)).
Qed.

(** Text from lines. *)
Definition unlines (ls : list (list Z)) : list Z := concat (map (fun l => l ++ [10]) ls).
Definition clean (l : list Z) : Prop := (10 ∉ l) /\ list.last l <> Some 13.

Lemma strip_cr_clean l : list.last l <> Some 13 -> strip_cr l = l.
Proof.
  intros Hl. unfold strip_cr. destruct (reverse l) as [|c r] eqn:E; [done|].
  assert (Hc : list.last l = Some c) by (rewrite <- (reverse_involutive l), E, reverse_cons; apply last_snoc).
  rewrite Hc in Hl. destruct c as [|p|p]; try done. do 4 (destruct p as [p|p|]; try done).
Qed.

Lemma lines_unlines ls : Forall clean ls -> lines (unlines ls) = ls.
Proof.
  unfold lines, unlines. induction 1 as [|l ls [Hn Hc] Hls IH]; [done|]. cbn [map concat]. rewrite <- app_assoc. cbn [app].
  rewrite split_on_app by done. destruct (split_on 10 _) as [|p ps] eqn:E; [by apply split_on_ne in E|].
  cbn [lines_of] in *. rewrite strip_cr_clean by done. f_equal. done.
Qed.

Lemma unlines_app a b : unlines (a ++ b) = unlines a ++ unlines b.
Proof. unfold unlines. by rewrite map_app, concat_app. Qed.

(** ** Setting, line by line *)

Section Set_.
Context (section key : list Z) (push : list Z -> list Z).

Fixpoint set_lines (in_s saw wr : bool) (ls : list (list Z)) : list (list Z) :=
  match ls with
  | [] => if in_s && negb wr then [push []] else if negb saw then [[]; [91] ++ section ++ [93]; push []] else []
  | l :: ls =>
      match section_name l with
      | Some name =>
          (if in_s && negb wr then [push []] else []) ++
          l :: set_lines (bool_decide (name = section)) (saw || bool_decide (name = section)) (wr || in_s) ls
      | None =>
          if in_s && negb wr && key_line key l then push (indent_of l) :: set_lines in_s saw true ls
          else l :: set_lines in_s saw wr ls
      end
  end.

Lemma set_value_lines text : set_value text section key push = unlines (set_lines false false false (lines text)).
Proof.
  unfold set_value.
  assert (G : forall ls e, (let e := foldl (set_line section key push) e ls in
      if in_section e && negb (wrote e) then ed_out e ++ push [] ++ [10]
      else if negb (saw_section e) then ed_out e ++ [10] ++ ([91] ++ section ++ [93] ++ [10]) ++ push [] ++ [10]
      else ed_out e) = ed_out e ++ unlines (set_lines (in_section e) (saw_section e) (wrote e) ls)).
  { induction ls as [|l ls IH]; intros e; cbn [foldl set_lines].
    - cbv zeta. destruct (in_section e && negb (wrote e)); [by cbn; rewrite app_nil_r|]. destruct (saw_section e); cbn [negb].
      + cbn. by rewrite app_nil_r.
      + cbn [unlines map concat app]. rewrite app_nil_r, <- !app_assoc. done.
    - rewrite IH. unfold set_line. destruct (section_name l) as [name|]; cbn [in_section saw_section wrote ed_out].
      + replace (wrote e || in_section e && negb (wrote e)) with (wrote e || in_section e) by (destruct (wrote e), (in_section e); done).
        rewrite unlines_app. rewrite <- !app_assoc. f_equal. destruct (in_section e && negb (wrote e)); cbn [unlines map concat app];
          rewrite ?app_nil_r, <- ?app_assoc; done.
      + destruct (in_section e && negb (wrote e) && key_line key l); cbn [in_section saw_section wrote ed_out];
          unfold unlines; cbn [map concat]; by rewrite <- !app_assoc. }
  by rewrite G.
Qed.

Lemma set_lines_wrote ls : forall in_s, set_lines in_s true true ls = ls.
Proof.
  induction ls as [|l ls IH]; intros in_s; cbn [set_lines]; [by rewrite andb_false_r|]. rewrite andb_false_r. cbn [negb andb app orb].
  destruct (section_name l); f_equal; apply IH.
Qed.

(** What an edit does to the lines: one line is rewritten or added, or a
    section with the line is added at the end. *)
Inductive one_edit : list (list Z) -> list (list Z) -> Prop :=
| rewritten pre l post : section_name l = None -> key_line key l = true ->
    one_edit (pre ++ l :: post) (pre ++ push (indent_of l) :: post)
| inserted pre post : one_edit (pre ++ post) (pre ++ push [] :: post)
| appended pre : one_edit pre (pre ++ [[]; [91] ++ section ++ [93]; push []]).

Lemma one_edit_cons l a b : one_edit a b -> one_edit (l :: a) (l :: b).
Proof.
  destruct 1 as [pre x post Hs Hk|pre post|pre].
  - by apply (rewritten (l :: pre)).
  - apply (inserted (l :: pre)).
  - apply (appended (l :: pre)).
Qed.

Lemma set_one_edit ls : forall in_s, one_edit ls (set_lines in_s in_s false ls).
Proof.
  induction ls as [|l ls IH]; intros in_s; cbn [set_lines].
  - destruct in_s; [apply (inserted [] [])|apply (appended [])].
  - rewrite andb_true_r. destruct (section_name l) as [name|] eqn:Es.
    + destruct in_s; cbn [andb orb app]; [rewrite set_lines_wrote; apply (inserted [] (l :: ls))|]. apply one_edit_cons, IH.
    + destruct in_s; cbn [andb]; [|apply one_edit_cons, IH]. destruct (key_line key l) eqn:Ek; [|apply one_edit_cons, IH].
      rewrite set_lines_wrote. by apply (rewritten []).
Qed.

Context (v : list Z) (Hpush : forall ind, push ind = kv key v ind) (Hkey : bare key) (Hsec : bare section).

Lemma header_name : section_name ([91] ++ section ++ [93]) = Some section.
Proof.
  unfold section_name. cbn [app]. rewrite (trim_start_solid 91 (section ++ [93])) by (split; [lia|done]).
  rewrite split_once_app by (by apply bare_no). cbn. f_equal. by apply (trim_bare [] section sp_nil).
Qed.

Lemma find_cons s k i l ls : find_line s k i (l :: ls) =
  match section_name l with
  | Some name => find_line s k (bool_decide (name = s)) ls
  | None => if i && key_line k l then Some l else find_line s k i ls
  end.
Proof. reflexivity. Qed.

Lemma find_push_same ind ls : spaces ind -> find_line section key true (push ind :: ls) = Some (push ind).
Proof.
  intros Hi. rewrite Hpush. cbn [find_line]. destruct (kv_key key v ind key Hkey Hi) as (-> & _ & ->). by rewrite bool_decide_true.
Qed.

Lemma set_lines_same ls : forall in_s, exists ind, spaces ind /\ find_line section key in_s (set_lines in_s in_s false ls) = Some (push ind).
Proof.
  induction ls as [|l ls IH]; intros in_s; cbn [set_lines].
  - destruct in_s; cbn [andb negb]; exists []; (split; [constructor|]); [apply find_push_same; constructor|].
    rewrite find_cons. change (section_name []) with (@None (list Z)). cbn [andb]. rewrite find_cons, header_name, bool_decide_true by done.
    apply find_push_same. constructor.
  - rewrite andb_true_r. destruct (section_name l) as [name|] eqn:Es.
    + destruct in_s; cbn [andb app orb]; [exists []; split; [constructor|]; apply find_push_same; constructor|].
      cbn [find_line]. rewrite Es. apply IH.
    + destruct (in_s && key_line key l) eqn:Ek.
      * apply andb_true_iff in Ek as [-> Ek]. exists (indent_of l). destruct (indent_of_spaces l) as [Hi _]. split; [done|]. by apply find_push_same.
      * cbn [find_line]. rewrite Es, Ek. apply IH.
Qed.

(** Another setting, seen from where the reader is. *)
Definition elsewhere (s k : list Z) (in_s in' : bool) : Prop :=
  (s = section -> in' = in_s) /\ (s <> section -> in_s = true -> in' = false) /\ (s, k) <> (section, key).

Lemma find_push_other s k in_s in' ind ls : elsewhere s k in_s in' -> in_s = true -> spaces ind ->
  find_line s k in' (push ind :: ls) = find_line s k in' ls.
Proof.
  intros (E1 & E2 & Hne) -> Hi. rewrite Hpush. cbn [find_line]. destruct (kv_key key v ind k Hkey Hi) as (-> & _ & ->).
  destruct (decide (s = section)) as [->|Hs]; [|by rewrite E2]. rewrite bool_decide_false by congruence. by rewrite andb_false_r.
Qed.

Lemma elsewhere_header s k name in_s in' : elsewhere s k in_s in' -> elsewhere s k (bool_decide (name = section)) (bool_decide (name = s)).
Proof.
  intros (_ & _ & Hne). split_and!; [by intros ->| |done]. intros Hs E. apply bool_decide_eq_true in E as ->. apply bool_decide_eq_false. congruence.
Qed.

Lemma set_lines_other s k ls : forall in_s saw wr in', elsewhere s k in_s in' ->
  find_line s k in' (set_lines in_s saw wr ls) = find_line s k in' ls.
Proof.
  induction ls as [|l ls IH]; intros in_s saw wr in' He; cbn [set_lines].
  - destruct (in_s && negb wr) eqn:E; [apply andb_true_iff in E as [-> _]; apply (find_push_other s k true); [done|done|constructor]|].
    destruct saw; [done|]. cbn [negb]. rewrite find_cons. change (section_name []) with (@None (list Z)). change (key_line k []) with false.
    rewrite andb_false_r, find_cons, header_name. rewrite (find_push_other s k true); [done| |done|constructor].
    apply (elsewhere_header s k section) in He. by rewrite (bool_decide_true (section = section)) in He.
  - destruct (section_name l) as [name|] eqn:Es.
    + assert (G : find_line s k in' (l :: set_lines (bool_decide (name = section)) (saw || bool_decide (name = section)) (wr || in_s) ls) =
                  find_line s k in' (l :: ls)).
      { cbn [find_line]. rewrite Es. apply IH. by eapply elsewhere_header. }
      destruct (in_s && negb wr) eqn:E; [|done]. apply andb_true_iff in E as [-> _]. cbn [app].
      rewrite (find_push_other s k true); [done|done|done|constructor].
    + destruct (in_s && negb wr && key_line key l) eqn:E; [|by cbn [find_line]; rewrite Es, IH].
      apply andb_true_iff in E as [E Ek]. apply andb_true_iff in E as [-> _]. destruct (indent_of_spaces l) as [Hi _].
      rewrite (find_push_other s k true), IH by done. cbn [find_line]. rewrite Es. destruct He as (E1 & E2 & Hne).
      destruct (decide (s = section)) as [->|Hs]; [|by rewrite E2].
      assert (key_line k l = false) as ->; [|by rewrite andb_false_r].
      unfold key_line in *. destruct (split_once 61 l) as [[lhs rhs]|]; [|done]. apply bool_decide_eq_true in Ek. apply bool_decide_eq_false. congruence.
Qed.
End Set_.

(** ** Toggling, line by line *)

Section Toggle_.
Context (section key : list Z).

Fixpoint toggle_lines (in_s : bool) (ls : list (list Z)) : option (list (list Z) * bool) :=
  match ls with
  | [] => None
  | l :: ls =>
      match section_name l with
      | Some name => '(r, v) ← toggle_lines (bool_decide (name = section)) ls; Some (l :: r, v)
      | None =>
          if in_s && key_line key l then Some (push_bool key (negb (current_bool l)) (indent_of l) :: ls, negb (current_bool l))
          else '(r, v) ← toggle_lines in_s ls; Some (l :: r, v)
      end
  end.

Lemma toggle_rest ls : forall t v, new_value t = Some v ->
  exists i, foldl (toggle_line section key) t ls = mkToggle i (Some v) (tg_out t ++ unlines ls).
Proof.
  induction ls as [|l ls IH]; intros t v Hv; cbn [foldl].
  - exists (tg_in t). destruct t. cbn in *. subst. by rewrite app_nil_r.
  - assert (E : exists i, toggle_line section key t l = mkToggle i (Some v) (tg_out t ++ l ++ [10])).
    { unfold toggle_line. rewrite Hv, (bool_decide_true (is_Some (Some v))), andb_false_r by done. cbn [andb].
      destruct (section_name l); by eexists. }
    destruct E as [i ->]. destruct (IH (mkToggle i (Some v) (tg_out t ++ l ++ [10])) v eq_refl) as [j ->]. exists j.
    unfold unlines. cbn. by rewrite <- !app_assoc.
Qed.

Lemma toggle_bool_lines text : toggle_bool text section key = '(ls, v) ← toggle_lines false (lines text); Some (unlines ls, v).
Proof.
  unfold toggle_bool.
  assert (G : forall ls t, new_value t = None ->
    toggle_result (foldl (toggle_line section key) t ls) =
    '(r, v) ← toggle_lines (tg_in t) ls; Some (tg_out t ++ unlines r, v)).
  2:{ rewrite G by done. reflexivity. }
  induction ls as [|l ls IH]; intros t Ht; cbn [foldl toggle_lines]; [by unfold toggle_result; rewrite Ht|].
  unfold toggle_line at 2. rewrite Ht. rewrite (bool_decide_false (is_Some None)) by (by intros []). rewrite andb_true_r.
  destruct (section_name l) as [name|].
  - rewrite IH by done. cbn [tg_in tg_out]. destruct (toggle_lines _ ls) as [[r v]|]; [|done]. cbn. unfold unlines. cbn. by rewrite <- !app_assoc.
  - destruct (tg_in t && key_line key l).
    + destruct (toggle_rest ls (mkToggle (tg_in t) (Some (negb (current_bool l)))
        (tg_out t ++ push_bool key (negb (current_bool l)) (indent_of l) ++ [10])) _ eq_refl) as [i ->].
      cbn. unfold unlines. cbn. by rewrite <- !app_assoc.
    + rewrite IH by done. cbn [tg_in tg_out]. destruct (toggle_lines _ ls) as [[r v]|]; [|done]. cbn. unfold unlines. cbn. by rewrite <- !app_assoc.
Qed.

Context (Hkey : bare key).

Lemma push_bool_kv b ind : push_bool key b ind = kv key (show_bool b) ind.
Proof. reflexivity. Qed.

Lemma toggle_find ls : forall in_s,
  match find_line section key in_s ls with
  | None => toggle_lines in_s ls = None
  | Some l => exists pre post, ls = pre ++ l :: post /\ section_name l = None /\ key_line key l = true /\
      let new := push_bool key (negb (current_bool l)) (indent_of l) in
      toggle_lines in_s ls = Some (pre ++ new :: post, negb (current_bool l)) /\
      find_line section key in_s (pre ++ new :: post) = Some new /\
      forall s k in', elsewhere section key s k in_s in' -> find_line s k in' (pre ++ new :: post) = find_line s k in' ls
  end.
Proof.
  induction ls as [|l ls IH]; intros in_s; [done|]. rewrite find_cons. cbn [toggle_lines]. destruct (section_name l) as [name|] eqn:Es.
  - specialize (IH (bool_decide (name = section))). destruct (find_line section key _ ls) as [x|] eqn:Ef; [|by rewrite IH].
    destruct IH as (pre & post & -> & Hx & Hk & Et & Efn & Ho). exists (l :: pre), post. rewrite Et. cbv zeta. split_and!; [done|done|done|done| |].
    + cbn [app]. by rewrite find_cons, Es.
    + intros s k in' He. cbn [app]. rewrite !find_cons, Es. apply Ho. by eapply elsewhere_header.
  - destruct (in_s && key_line key l) eqn:E.
    + apply andb_true_iff in E as [-> Ek]. exists [], ls. cbv zeta. destruct (indent_of_spaces l) as [Hi _].
      split_and!; [done|done|done|done| |].
      * cbn [app]. rewrite push_bool_kv, find_cons. destruct (kv_key key (show_bool (negb (current_bool l))) (indent_of l) key Hkey Hi) as (-> & _ & ->).
        by rewrite bool_decide_true.
      * intros s k in' He. cbn [app].
        rewrite (find_push_other section key (push_bool key (negb (current_bool l))) (show_bool (negb (current_bool l))) (push_bool_kv _) Hkey s k true in') by done.
        rewrite find_cons, Es. destruct He as (E1 & E2 & Hne). destruct (decide (s = section)) as [->|Hs]; [|by rewrite E2].
        assert (key_line k l = false) as ->; [|by rewrite andb_false_r].
        unfold key_line in *. destruct (split_once 61 l) as [[lhs rhs]|]; [|done]. apply bool_decide_eq_true in Ek. apply bool_decide_eq_false. congruence.
    + specialize (IH in_s). destruct (find_line section key in_s ls) as [x|] eqn:Ef; [|by rewrite IH].
      destruct IH as (pre & post & -> & Hx & Hk & Et & Efn & Ho). exists (l :: pre), post. rewrite Et. cbv zeta. split_and!; [done|done|done|done| |].
      * cbn [app]. by rewrite find_cons, Es, E.
      * intros s k in' He. cbn [app]. rewrite !find_cons, Es. by rewrite Ho.
Qed.
End Toggle_.

(** ** Clean lines *)

Lemma split_on_elem c s p : p ∈ split_on c s -> c ∉ p.
Proof.
  revert p. induction s as [|x s IH]; intros p; cbn [split_on].
  - intros ->%list_elem_of_singleton. apply not_elem_of_nil.
  - destruct (split_on c s) as [|q qs] eqn:E; [intros ->%list_elem_of_singleton; apply not_elem_of_nil|].
    destruct (Z.eqb_spec x c) as [->|Hx].
    + intros [->|Hp]%elem_of_cons; [apply not_elem_of_nil|by apply IH].
    + intros [->|Hp]%elem_of_cons; [|apply IH; by right]. apply not_elem_of_cons. split; [congruence|]. apply IH. by left.
Qed.

Lemma strip_cr_sub l c : c ∈ strip_cr l -> c ∈ l.
Proof.
  assert (G : strip_cr l = l \/ l = strip_cr l ++ [13]).
  { unfold strip_cr. destruct (reverse l) as [|x r] eqn:E; [by left|]. destruct (decide (x = 13)) as [->|Hx].
    - right. by rewrite <- (reverse_involutive l), E, reverse_cons.
    - left. destruct x as [|q|q]; try done. do 4 (destruct q as [q|q|]; try done). }
  intros Hc. destruct G as [E|E]; [by rewrite E in Hc|]. rewrite E. apply elem_of_app. by left.
Qed.

Lemma lines_no_nl text l : l ∈ lines text -> 10 ∉ l.
Proof.
  unfold lines. intros Hl. assert (G : forall ps, Forall (fun p => 10 ∉ p) ps -> l ∈ lines_of ps -> 10 ∉ l).
  2:{ eapply G; [|done]. apply list.Forall_forall. intros p. apply split_on_elem. }
  induction 1 as [|p ps Hp Hps IH]; [by intros ?%not_elem_of_nil|]. destruct ps as [|q ps].
  - cbn. destruct p; [by intros ?%not_elem_of_nil|by intros ->%list_elem_of_singleton].
  - intros [->|Hin]%elem_of_cons; [|by apply IH]. intros Hc%strip_cr_sub. done.
Qed.

(** No line ends in a stray carriage return. *)
Definition settled (text : list Z) : Prop := Forall (fun l => list.last l <> Some 13) (lines text).

Lemma settled_clean text : settled text -> Forall clean (lines text).
Proof. unfold settled. rewrite !list.Forall_forall. intros Hs l Hl. split; [by eapply lines_no_nl|by apply Hs]. Qed.

Lemma kv_clean key v c ind : bare key -> 10 ∉ ind -> 10 ∉ v ++ [c] -> c <> 13 -> clean (kv key (v ++ [c]) ind).
Proof.
  intros Hk Hi Hv Hc. unfold kv. split.
  - rewrite !not_elem_of_app. rewrite not_elem_of_app in Hv. destruct Hv. split_and!; [done|by apply bare_no|by apply (bool_decide_unpack _)|done|done].
  - rewrite !app_assoc, list.last_snoc. congruence.
Qed.

Lemma indent_no_nl l : 10 ∉ l -> 10 ∉ indent_of l.
Proof. intros Hl Hin. destruct (indent_of_spaces l) as [_ [r E]]. apply Hl. rewrite E. apply elem_of_app. by left. Qed.

Lemma one_edit_clean section key push a b : bare section -> (forall ind, 10 ∉ ind -> clean (push ind)) ->
  one_edit section key push a b -> Forall clean a -> Forall clean b.
Proof.
  intros Hs Hp. destruct 1 as [pre l post Hsn Hk|pre post|pre]; rewrite ?Forall_app, ?list.Forall_cons.
  - intros (H1 & [Hl _] & H3). split_and!; [done| |done]. by apply Hp, indent_no_nl.
  - intros [H1 H2]. split_and!; [done| |done]. apply Hp, not_elem_of_nil.
  - intros H1. split_and!; [done|split; [apply not_elem_of_nil|done]| |apply Hp, not_elem_of_nil|done]. split.
    + rewrite !not_elem_of_app. split_and!; [|by apply bare_no|]; by apply (bool_decide_unpack _).
    + rewrite app_assoc, list.last_snoc. done.
Qed.

(** ** The swap *)

Lemma join_app d n s : join d n ++ s = join d (n ++ s).
Proof. unfold join. destruct (head (reverse d)) as [c|]; [|done]. destruct (c =? 47); by rewrite <- ?app_assoc. Qed.

Section Swap.
Context {W : Type} `{FsLaws W d} (n : list Z) (Hn : own_name n).

#[local] Abbreviation path := (join d n).

(** A write that succeeds replaces the file. *)
Definition replaces : Prop := forall (w w' : W) p b, fs_write w p b = (w', true) -> content w' (names p) = Some b.
(** A file holds a text; other bytes come before it only if writes do not replace. *)
Definition kept (w : W) (p b : list Z) : Prop := exists c, content w (names p) = Some (c ++ b) /\ (replaces -> c = []).

Lemma swap_names : names (bak_of path) <> names path /\ names (tmp_of path) <> names path /\ names (bak_of path) <> names (tmp_of path).
Proof.
  unfold bak_of, tmp_of. rewrite !join_app.
  assert (Hb : own_name (n ++ bs ".bak")) by (apply own_name_app; [done|..]; by apply (bool_decide_unpack _); vm_compute).
  assert (Hm : own_name (n ++ bs ".tmp")) by (apply own_name_app; [done|..]; by apply (bool_decide_unpack _); vm_compute).
  assert (G : forall s, s <> [] -> n ++ s <> n).
  { intros s Hs E. apply (f_equal length) in E. rewrite length_app in E. destruct s; [done|cbn in E; lia]. }
  split_and!; intros E; apply own_names_join in E; try done; [by apply (G (bs ".bak"))|by apply (G (bs ".tmp"))|].
  by apply app_inv_head in E.
Qed.

Lemma write_kept w w' p b : fs_write w p b = (w', true) -> kept w' p b.
Proof.
  intros E. pose proof E as E0. apply write_law in E as [E _]. unfold kept. destruct (E eq_refl) as [E1|(c & _ & E1)]; rewrite E1; [by exists []|].
  exists c. split; [done|]. intros Hr. apply Hr in E0. rewrite E1 in E0. apply (inj Some) in E0. by apply (app_inv_tail b c []).
Qed.

Lemma read_content w p b : read_to_string w p = Some b -> content w (names p) = Some b.
Proof.
  unfold read_to_string. intros E. destruct (fs_read w p) as [x|] eqn:Er; [|done]. destruct (utf8_valid x); [|done]. injection E as ->.
  by apply read_law in Er.
Qed.

(** Every way through the swap. *)
Lemma swap_spec original new w w' r :
  content w (names path) = Some original -> crash_safe_swap path original new w = (w', r) ->
  match r with
  | Ok _ => kept w' path new \/ content w' (names path) = Some original
  | Err WriteTmp => content w' (names path) = Some original
  | Err _ => True
  end /\
  ((fs_write w (bak_of path) original).2 = true -> kept w' (bak_of path) original) /\
  forall q, q <> names path -> q <> names (bak_of path) -> q <> names (tmp_of path) -> content w' q = content w q.
Proof.
  destruct swap_names as (N1 & N2 & N3). intros Hw. unfold crash_safe_swap.
  destruct (fs_write w (bak_of path) original) as [w1 okb] eqn:E1. destruct (fs_write w1 (tmp_of path) new) as [w2 okt] eqn:E2.
  pose proof (proj2 (write_law _ _ _ _ _ E1)) as K1. pose proof (proj2 (write_law _ _ _ _ _ E2)) as K2. cbn [snd].
  assert (Hbak : okb = true -> kept w2 (bak_of path) original).
  { intros ->. unfold kept. rewrite K2 by done. by apply write_kept in E1. }
  assert (Hcfg : content w2 (names path) = Some original) by (rewrite K2, K1 by done; done).
  destruct okt; cbn [negb].
  2:{ intros [= <- <-]. split_and!; [done|done|]. intros q Q1 Q2 Q3. by rewrite K2, K1. }
  apply write_kept in E2 as Ht. destruct (fs_rename w2 (tmp_of path) path) as [w3 okr] eqn:E3.
  destruct (rename_law _ _ _ _ _ E3 N2) as (R1 & R2 & K3).
  assert (Hc3 : kept w3 path new \/ content w3 (names path) = Some original \/ content w3 (names path) = None).
  { destruct okr; [left; unfold kept; destruct (R1 eq_refl) as [-> _]; done|]. right. destruct (R2 eq_refl) as [_ [E|E]]; rewrite E; [by left|by right]. }
  assert (Hbak3 : okb = true -> kept w3 (bak_of path) original) by (intros Hb; unfold kept; rewrite K3 by done; by apply Hbak).
  destruct (read_to_string w3 path) as [s|] eqn:E4.
  1: destruct (bool_decide (trim s = [])); cbn [negb].
  2:{ intros [= <- <-]. apply read_content in E4. split_and!; [destruct Hc3 as [?|[?|E]]; [by left|by right|congruence]|done|].
      intros q Q1 Q2 Q3. by rewrite K3, K2, K1. }
  all: destruct (fs_write w3 path new) as [w4 okw] eqn:E5; intros [= <- <-]; pose proof (proj2 (write_law _ _ _ _ _ E5)) as K4;
    (split_and!; [destruct okw; [left; by apply write_kept in E5|done]|unfold kept; rewrite K4 by done; done|intros q Q1 Q2 Q3; by rewrite K4, K3, K2, K1]).
Qed.
End Swap.

(** * Theorems *)

Lemma read_same text text' s k in_s : find_line s k in_s (lines text) = find_line s k in_s (lines text') -> in_s = false ->
  read_bool text s k = read_bool text' s k /\ read_str text s k = read_str text' s k.
Proof. intros E ->. unfold read_bool, read_str. by rewrite E. Qed.

(** The lines of an edited text, and what every reader of it sees. *)
Lemma set_value_reads text section key v c :
  bare section -> bare key -> settled text -> 10 ∉ v ++ [c] -> c <> 13 ->
  let t := set_value text section key (kv key (v ++ [c])) in
  (exists ind, spaces ind /\ find_line section key false (lines t) = Some (kv key (v ++ [c]) ind)) /\
  (forall s k, (s, k) <> (section, key) -> read_bool t s k = read_bool text s k /\ read_str t s k = read_str text s k) /\
  one_edit section key (kv key (v ++ [c])) (lines text) (lines t).
Proof.
  intros Hs Hk Ht Hv Hc t. set (push := kv key (v ++ [c])) in *.
  assert (El : lines t = set_lines section key push false false false (lines text)).
  { unfold t. rewrite set_value_lines. apply lines_unlines. eapply one_edit_clean; [exact Hs| |apply set_one_edit|by apply settled_clean].
    intros ind Hi. by apply kv_clean. }
  rewrite El. split_and!; [| |apply set_one_edit].
  - by apply (set_lines_same section key push (v ++ [c])).
  - intros s k Hne. apply (read_same _ _ _ _ false); [|done]. rewrite El.
    apply (set_lines_other section key push (v ++ [c])); try done; by split_and!.
Qed.

(** C24: settings are set.  After setting a flag or a string under a section of any
    text — the key present, commented out, missing, or the whole section missing —
    the reader sees the new value there, sees what it saw for every other
    section and key, and all lines but one are as they were. *)
Theorem config_set_reads_back text section key :
  bare section -> bare key -> settled text ->
  (forall b, let t := (set_bool text section key b).1 in
     read_bool t section key = Some b /\
     (forall s k, (s, k) <> (section, key) -> read_bool t s k = read_bool text s k /\ read_str t s k = read_str text s k) /\
     one_edit section key (push_bool key b) (lines text) (lines t)) /\
  (forall v, (34 ∉ v) -> 10 ∉ v -> let t := set_str text section key v in
     read_str t section key = Some v /\
     (forall s k, (s, k) <> (section, key) -> read_bool t s k = read_bool text s k /\ read_str t s k = read_str text s k) /\
     one_edit section key (push_str_kv key v) (lines text) (lines t)).
Proof.
  intros Hs Hk Ht. split.
  - intros b. assert (Hb : exists v c, show_bool b = v ++ [c] /\ (10 ∉ v ++ [c]) /\ c <> 13).
    { exists (if b then bs "tru" else bs "fals"), 101. destruct b; split_and!; try done; by apply (bool_decide_unpack _); vm_compute. }
    destruct Hb as (v & c & Eb & Hv & Hc). pose proof (set_value_reads text section key v c Hs Hk Ht Hv Hc) as G. rewrite <- Eb in G.
    cbn [fst set_bool]. destruct G as ((ind & Hi & Ef) & Ho & Hone). split_and!; [|done|done].
    unfold read_bool. change (set_value text section key (push_bool key b)) with (set_value text section key (kv key (show_bool b))). rewrite Ef.
    cbn. unfold current_bool. destruct (kv_key key (show_bool b) ind key Hk Hi) as (_ & -> & _). by destruct b.
  - intros v Hq Hn. pose proof (set_value_reads text section key (34 :: v) 34 Hs Hk Ht) as G.
    destruct G as ((ind & Hi & Ef) & Ho & Hone); [|done|].
    { cbn [app]. rewrite !not_elem_of_cons, not_elem_of_app. split_and!; [done|done|by apply (bool_decide_unpack _)]. }
    split_and!; [|done|done]. unfold read_str.
    change (set_str text section key v) with (set_value text section key (kv key ((34 :: v) ++ [34]))). rewrite Ef. cbn [mbind option_bind].
    destruct (kv_key key ((34 :: v) ++ [34]) ind key Hk Hi) as (_ & -> & _). cbn [mbind option_bind]. unfold parse_basic_string.
    change (trim (32 :: (34 :: v) ++ [34])) with (trim ((34 :: v) ++ [34])). cbn [app]. rewrite trim_solid by (split; [lia|done]).
    by rewrite split_once_app.
Qed.

(** switches are flipped.  A toggle fails exactly when the reader finds no such
    setting, and then says so; otherwise it reports and writes the opposite of
    what was read, and every other setting and line is as before. *)
Theorem config_toggle_flips text section key :
  bare key -> settled text ->
  match toggle_bool text section key with
  | None => read_bool text section key = None
  | Some (t, v) =>
      read_bool text section key = Some (negb v) /\ read_bool t section key = Some v /\
      (forall s k, (s, k) <> (section, key) -> read_bool t s k = read_bool text s k /\ read_str t s k = read_str text s k) /\
      exists pre l post, lines text = pre ++ l :: post /\ lines t = pre ++ push_bool key v (indent_of l) :: post
  end.
Proof.
  intros Hk Ht. rewrite toggle_bool_lines. pose proof (toggle_find section key Hk (lines text) false) as G.
  destruct (find_line section key false (lines text)) as [l|] eqn:Ef; [|rewrite G; cbn; unfold read_bool; by rewrite Ef].
  destruct G as (pre & post & El & Hsn & Hkl & Et & Efn & Ho). rewrite Et. cbn [mbind option_bind].
  set (v := negb (current_bool l)) in *. set (new := push_bool key v (indent_of l)) in *.
  pose proof (settled_clean text Ht) as Hc. rewrite El in Hc. apply Forall_app in Hc as [Hc1 Hc2]. apply Forall_cons_1 in Hc2 as [[Hl _] Hc3].
  assert (En : lines (unlines (pre ++ new :: post)) = pre ++ new :: post).
  { apply lines_unlines. apply Forall_app. split; [done|]. apply Forall_cons_2; [|done]. unfold new. rewrite push_bool_kv.
    pose proof (kv_clean key (if v then bs "tru" else bs "fals") 101 (indent_of l) Hk (indent_no_nl l Hl)) as Hkv.
    destruct v; (apply Hkv; [by apply (bool_decide_unpack _); vm_compute|done]). }
  split_and!.
  - unfold read_bool. rewrite Ef. cbn. f_equal. unfold v. by rewrite negb_involutive.
  - unfold read_bool. rewrite En, Efn. cbn. f_equal. unfold current_bool, new. rewrite push_bool_kv. destruct (indent_of_spaces l) as [Hi _].
    destruct (kv_key key (show_bool v) (indent_of l) key Hk Hi) as (_ & -> & _). by destruct v.
  - intros s k Hne. apply (read_same _ _ _ _ false); [|done]. rewrite En. apply Ho. by split_and!.
  - by exists pre, l, post.
Qed.

(** C25: what an edit leaves.  Reported success leaves the edited text or the old
    one under the configuration's name; a failure before the swap leaves the old
    one; a failure of the swap leaves the old one in the backup, provided the
    backup could be written, and promises nothing otherwise; a text that is left
    is the whole file wherever the card's writes replace what was there; and no
    file but the three is touched. *)
Theorem config_edit_recoverable {W} `{FsLaws W d} n section key value original w w' r :
  own_name n -> read_to_string w (join d n) = Some original -> apply_set (join d n) section key value w = (w', r) ->
  (r = Ok value -> kept w' (join d n) (set_bool original section key value).1 \/ content w' (names (join d n)) = Some original) /\
  (r = Err WriteTmp -> content w' (names (join d n)) = Some original) /\
  (r = Err SwapFailed -> (fs_write w (bak_of (join d n)) original).2 = true -> kept w' (bak_of (join d n)) original) /\
  (r = Ok value \/ r = Err WriteTmp \/ r = Err SwapFailed) /\
  forall q, q <> names (join d n) -> q <> names (bak_of (join d n)) -> q <> names (tmp_of (join d n)) -> content w' q = content w q.
Proof.
  intros Hn Hr. unfold apply_set. rewrite Hr. destruct (set_bool original section key value) as [new v] eqn:Es.
  assert (v = value) as -> by (unfold set_bool in Es; congruence). cbn [fst].
  destruct (crash_safe_swap (join d n) original new w) as [w1 r1] eqn:E. pose proof (read_content w (join d n) original Hr) as Hw.
  destruct (swap_spec n Hn original new w w1 r1 Hw E) as (S1 & S2 & S3).
  assert (Hr1 : r1 = Ok tt \/ r1 = Err WriteTmp \/ r1 = Err SwapFailed).
  { revert E. unfold crash_safe_swap. destruct (fs_write _ _ _) as [? ?], (fs_write _ _ _) as [? []]; cbn [negb]; [|intros [= <- <-]; auto].
    destruct (fs_rename _ _ _) as [? ?]. destruct (match read_to_string _ _ with Some _ => _ | None => _ end); [intros [= <- <-]; auto|].
    destruct (fs_write _ _ _) as [? []]; intros [= <- <-]; auto. }
  destruct Hr1 as [E1|[E1|E1]]; rewrite E1 in *; intros [= <- <-]; split_and!; try done; auto.
Qed.

(** ** Examples *)

Definition sample_config : list Z :=
  bs "[ftp]" ++ [10] ++ bs "  enabled = false" ++ [10] ++ bs "# enabled = true" ++ [13; 10] ++ [10] ++ bs "[taildrop] # inbox" ++ [10] ++ bs "enabled = true" ++ [10].

Lemma sample_settled : settled sample_config.
Proof. unfold settled. apply (bool_decide_unpack _). vm_compute. done. Qed.

Lemma config_set_reads_back_witness :
  read_bool (set_bool sample_config (bs "taildrop") (bs "want") true).1 (bs "taildrop") (bs "want") = Some true /\
  read_bool (set_bool sample_config (bs "taildrop") (bs "want") true).1 (bs "taildrop") (bs "enabled") = Some true /\
  read_str (set_str sample_config (bs "tailnet") (bs "dir") (bs "ux0:/vpk")) (bs "tailnet") (bs "dir") = Some (bs "ux0:/vpk").
Proof.
  assert (B : forall s, bool_decide (s = []) = false -> forallb bare_char s = true -> bare s) by (intros s E1 E2; split; [by apply bool_decide_eq_false in E1|done]).
  split_and!.
  - destruct (config_set_reads_back sample_config (bs "taildrop") (bs "want")) as [Hb _]; [by apply B|by apply B|exact sample_settled|].
    exact (proj1 (Hb true)).
  - destruct (config_set_reads_back sample_config (bs "taildrop") (bs "want")) as [Hb _]; [by apply B|by apply B|exact sample_settled|].
    destruct (Hb true) as (_ & Ho & _). destruct (Ho (bs "taildrop") (bs "enabled")) as [E _]; [discriminate|]. rewrite E. vm_compute. reflexivity.
  - destruct (config_set_reads_back sample_config (bs "tailnet") (bs "dir")) as [_ Hs]; [by apply B|by apply B|exact sample_settled|].
    apply (Hs (bs "ux0:/vpk")); apply (bool_decide_unpack _); vm_compute; done.
Defined.

Lemma config_toggle_flips_witness :
  exists t, toggle_bool sample_config (bs "ftp") (bs "enabled") = Some (t, true) /\
    read_bool sample_config (bs "ftp") (bs "enabled") = Some false /\ read_bool t (bs "ftp") (bs "enabled") = Some true /\
    read_bool t (bs "taildrop") (bs "enabled") = read_bool sample_config (bs "taildrop") (bs "enabled").
Proof.
  pose proof (config_toggle_flips sample_config (bs "ftp") (bs "enabled")) as G.
  assert (E : exists t, toggle_bool sample_config (bs "ftp") (bs "enabled") = Some (t, true)) by (eexists; vm_compute; reflexivity).
  destruct E as [t E]. rewrite E in G. exists t. destruct G as (G1 & G2 & G3 & _); [split; [discriminate|reflexivity]|exact sample_settled|].
  split_and!; [exact E|exact G1|exact G2|]. apply G3. discriminate.
Defined.

Definition edit_dir : list Z := bs "ux0:data".
Lemma edit_device : device_dir edit_dir.
Proof. exists (bs "ux0"), (bs "data"). split; [done|]. split; by apply (bool_decide_unpack _); vm_compute. Qed.
#[local] Instance edit_laws : FsLaws Toy.Kernel edit_dir := vita_fs_laws Toy.fuel edit_dir edit_device.
Definition sample_card : Toy.Kernel := Toy.mkKernel {[ bs "ux0:data/config.toml" := sample_config ]} [] [] ∅ [].

Lemma config_edit_recoverable_witness :
  let '(w', r) := apply_set (join edit_dir (bs "config.toml")) (bs "tailnet") (bs "want_running") false sample_card in
  r = Ok false /\ (kept w' (join edit_dir (bs "config.toml")) (set_bool sample_config (bs "tailnet") (bs "want_running") false).1 \/
                   content w' (names (join edit_dir (bs "config.toml"))) = Some sample_config) /\
  Toy.files w' !! bs "ux0:data/config.toml.bak" = Some sample_config /\
  Toy.files w' !! bs "ux0:data/config.toml" = Some (set_bool sample_config (bs "tailnet") (bs "want_running") false).1.
Proof.
  assert (E : exists w', apply_set (join edit_dir (bs "config.toml")) (bs "tailnet") (bs "want_running") false sample_card = (w', Ok false) /\
     Toy.files w' !! bs "ux0:data/config.toml.bak" = Some sample_config /\
     Toy.files w' !! bs "ux0:data/config.toml" = Some (set_bool sample_config (bs "tailnet") (bs "want_running") false).1).
  { eexists. split; [vm_compute; reflexivity|split; vm_compute; reflexivity]. }
  destruct E as (w' & E & E1 & E2).
  destruct (config_edit_recoverable (bs "config.toml") (bs "tailnet") (bs "want_running") false sample_config sample_card w' (Ok false)) as (G & _);
    [apply (bool_decide_unpack _); vm_compute; exact I|vm_compute; reflexivity|exact E|].
  rewrite E. split_and!; [reflexivity|by apply G|exact E1|exact E2].
Defined.

(** A card whose rename refuses to replace a file. *)
Definition refusing : Fs (gmap (list Z) (list Z)) := {|
  fs_read_dir := fun _ _ => None;
  fs_read := fun w p => match w !! p with Some b => Ok b | None => Err NotFound end;
  fs_write := fun w p b => (<[p := b]> w, true);
  fs_append := fun w p b => (<[p := default [] (w !! p) ++ b]> w, true);
  fs_remove_file := fun w p => (delete p w, true);
  fs_create_dir_all := fun w _ => (w, true);
  fs_rename := fun w p q => match w !! p, w !! q with Some b, None => (<[q := b]> (delete p w), true) | _, _ => (w, false) end
|}.

(** Three ways an edit is less than it says: a swap that is refused is reported as
    done; the comment on the line that is set is lost; line ends become line
    feeds throughout. *)
Theorem config_edit_pitfalls :
  (let w : gmap (list Z) (list Z) := {[ bs "config.toml" := sample_config ]} in
   let '(w', r) := apply_set (H := refusing) (bs "config.toml") (bs "ftp") (bs "enabled") true w in
   r = Ok true /\ read_toggle (H := refusing) w' (bs "config.toml") (bs "ftp") (bs "enabled") = Some false) /\
  (set_bool (bs "[ftp]" ++ [13; 10] ++ bs "enabled = true # at home" ++ [13; 10]) (bs "ftp") (bs "enabled") false).1 =
    bs "[ftp]" ++ [10] ++ bs "enabled = false" ++ [10].
Proof. vm_compute. done. Qed.

(** A card on which the backup cannot be written, and which after the temporary
    file only renames: it can be neither read nor written. *)
Definition failing_card : Fs (gmap (list Z) (list Z) * bool) := {|
  fs_read_dir := fun _ _ => None;
  fs_read := fun (w : gmap (list Z) (list Z) * bool) p => if w.2 then Err OtherError else match w.1 !! p with Some b => Ok b | None => Err NotFound end;
  fs_write := fun (w : gmap (list Z) (list Z) * bool) p b => if bool_decide (p = bak_of (bs "config.toml")) then (w, false)
                           else if w.2 then (delete p w.1, true, false) else (<[p := b]> w.1, true, true);
  fs_append := fun w _ _ => (w, false);
  fs_remove_file := fun (w : gmap (list Z) (list Z) * bool) p => (delete p w.1, w.2, true);
  fs_create_dir_all := fun w _ => (w, true);
  fs_rename := fun (w : gmap (list Z) (list Z) * bool) p q => match w.1 !! p with Some b => (<[q := b]> (delete p w.1), w.2, true) | None => (w, false) end
|}.

(** The backup is not required to succeed: an edit can lose the old text, the new
    one and the file. *)
Theorem config_edit_loses_all :
  let w : gmap (list Z) (list Z) * bool := ({[ bs "config.toml" := sample_config ]}, false) in
  let '(w', r) := apply_set (H := failing_card) (bs "config.toml") (bs "ftp") (bs "enabled") true w in
  r = Err SwapFailed /\ w'.1 = ∅.
Proof. vm_compute. done. Qed.
