(* ===== verification/VitaLog.v ===== *)
(** The logger (vita-log: lib.rs, timestamp.rs, writer.rs, io/sce.rs): the level
    filter and the bounded queue any thread appends to, the writer thread that
    drains it, and the log files with their rotation over the kernel calls of
    [SceIo].

    A run is any interleaving of emitted events and steps of the writer.  What
    the writer does to its file is the list of operations [WOp]; [run_ops] is
    their effect on the kernel. *)

From S2P Require Import Prelude Text VitaFs.
#[local] Open Scope Z_scope.

(** ** lib.rs *)

Inductive Level : Type := LError | LWarn | LInfo | LDebug | LTrace.
Definition level_u8 (l : Level) : Z := match l with LError => 0 | LWarn => 1 | LInfo => 2 | LDebug => 3 | LTrace => 4 end.
Definition level_as_str (l : Level) : list Z :=
  match l with LError => bs "ERROR" | LWarn => bs "WARN " | LInfo => bs "INFO " | LDebug => bs "DEBUG" | LTrace => bs "TRACE" end.

Definition QUEUE_CAP : nat := Z.to_nat 1024.

Record LogConfig : Type := mkLogConfig { log_path : list Z; filter_text : list Z; rotate_bytes : Z; keep_files : nat }.
Definition LogConfig_default : LogConfig := mkLogConfig (bs "ux0:data/tailscale-vita/vita.log") (bs "info") (10 * 1024 * 1024) 3.

(** The level of [init_with_config]: the text before the first comma. *)
Definition filter_level (filter : list Z) : Level :=
  let word := match split_on 44 filter with w :: _ => w | [] => bs "info" end in
  if decide (word = bs "error") then LError else if decide (word = bs "warn") then LWarn else if decide (word = bs "info") then LInfo
  else if decide (word = bs "debug") then LDebug else if decide (word = bs "trace") then LTrace else LInfo.

Definition short_file (file : list Z) : list Z := match split_str (bs "/src/") file with Some (_, r) => r | None => file end.

(** timestamp.rs: seconds right-aligned to five places, six places of
    microseconds. *)
Definition pad_left (n : nat) (c : Z) (s : list Z) : list Z := repeat c (n - length s) ++ s.
Definition timestamp_format (usecs : Z) : list Z :=
  bs "[" ++ pad_left 5 32 (dec (usecs / 1000000)) ++ bs "." ++ pad_left 6 48 (dec (usecs mod 1000000)) ++ bs "]".

Definition line_text (usecs : Z) (level : Level) (file : list Z) (line : Z) (args : list Z) : list Z :=
  timestamp_format usecs ++ bs " " ++ level_as_str level ++ bs " " ++ short_file file ++ bs ":" ++ dec line ++ bs " " ++ args.

(** ** The queue and the writer thread *)

(** What the writer does to its file, in order. *)
Inductive WOp : Type := OpLine (l : list Z) | OpDropped (n : Z) | OpReopen.

Inductive WriterPc : Type := Draining | Writing (batch : list (list Z)).

Record LogState : Type := mkLog {
  filter_lvl : Level; queue : list (list Z); logs_dropped : Z; writer_pc : WriterPc; ops : list WOp
}.

Definition start_line : list Z := bs "=== vita-log start ===" ++ [10].

Definition log_init (cfg : LogConfig) : LogState := mkLog (filter_level (filter_text cfg)) [] 0 Draining [OpLine start_line; OpReopen].

(** What became of an event; the code returns nothing. *)
Inductive Emitted : Type := Filtered | Accepted (line : list Z) | Rejected.

(** [__emit], after [init]. *)
Definition emit (usecs : Z) (level : Level) (file : list Z) (line : Z) (args : list Z) (s : LogState) : LogState * Emitted :=
  if level_u8 (filter_lvl s) <? level_u8 level then (s, Filtered)
  else
    let text := line_text usecs level file line args in
    if (QUEUE_CAP <=? length (queue s))%nat
    then (mkLog (filter_lvl s) (queue s) (wrap 64 (logs_dropped s + 1)) (writer_pc s) (ops s), Rejected)
    else (mkLog (filter_lvl s) (queue s ++ [text]) (logs_dropped s) (writer_pc s) (ops s), Accepted text).

(** One step of [writer::run]: the drain under the lock, one line, or the end
    of a batch.  With nothing drained it sleeps. *)
Definition writer_step (s : LogState) : LogState :=
  match writer_pc s with
  | Draining => match queue s with [] => s | q => mkLog (filter_lvl s) [] (logs_dropped s) (Writing q) (ops s) end
  | Writing (l :: r) => mkLog (filter_lvl s) (queue s) (logs_dropped s) (Writing r) (ops s ++ [OpLine l])
  | Writing [] =>
      mkLog (filter_lvl s) (queue s) 0 Draining
        (ops s ++ (if 0 <? logs_dropped s then [OpDropped (logs_dropped s)] else []) ++ [OpReopen])
  end.

Inductive LogEvent : Type := Emit (usecs : Z) (level : Level) (file : list Z) (line : Z) (args : list Z) | WriterStep.

Fixpoint log_run (s : LogState) (es : list LogEvent) : LogState * list Emitted :=
  match es with
  | [] => (s, [])
  | Emit t lv f n a :: es => let '(s, r) := emit t lv f n a s in let '(s, rs) := log_run s es in (s, r :: rs)
  | WriterStep :: es => log_run (writer_step s) es
  end.

(** ** writer.rs and io/sce.rs *)

Definition dropped_line (n : Z) : list Z := bs "vita_log: dropped " ++ dec n ++ bs " events" ++ [10].

Definition numbered (path : list Z) (idx : nat) : list Z := path ++ bs "." ++ dec (Z.of_nat idx).

Section Io.
Context {K : Type} `{SceIo K}.

(** [None]: an error. *)
Definition open_append (path : list Z) (k : K) : K * option Z :=
  match cstr path with
  | None => (k, None)
  | Some cp => let '(k, fd) := sceIoOpen k cp O_WRITE in (k, if fd <? 0 then None else Some fd)
  end.

(** Every pass writes a byte, so the length of the buffer is fuel enough. *)
Fixpoint write_all_loop (fuel : nat) (fd : Z) (buf : list Z) (k : K) : outcome (K * bool) :=
  match buf with
  | [] => Val (sceIoSyncByFd k fd, true)
  | _ =>
      match fuel with
      | O => OutOfFuel
      | S f =>
          let '(k, n) := sceIoWrite k fd (take (Z.to_nat (wrap 32 (Z.of_nat (length buf)))) buf) in
          if n <=? 0 then Val (k, false)
          else if Z.of_nat (length buf) <? n then Panicked
          else write_all_loop f fd (drop (Z.to_nat n) buf) k
      end
  end.
Definition write_all (fd : Z) (buf : list Z) (k : K) : outcome (K * bool) := write_all_loop (length buf) fd buf k.

Definition io_remove (path : list Z) (k : K) : K * bool :=
  match cstr path with None => (k, false) | Some cp => let '(k, rc) := sceIoRemove k cp in (k, negb (rc <? 0)) end.
Definition io_rename (from to : list Z) (k : K) : K * bool :=
  match cstr from, cstr to with
  | Some cf, Some ct => let '(k, rc) := sceIoRename k cf ct in (k, negb (rc <? 0))
  | _, _ => (k, false)
  end.

Record WriterState : Type := mkWriter { w_fd : Z; bytes_written : Z }.

(** Assigning the file drops, and so closes, the old one. *)
Definition reopen_append (cfg : LogConfig) (k : K) (w : WriterState) : K * WriterState :=
  match open_append (log_path cfg) k with
  | (k, Some fd) => (sceIoClose k (w_fd w), mkWriter fd (bytes_written w))
  | (k, None) => (k, w)
  end.

Definition writer_open (cfg : LogConfig) (k : K) : K * option WriterState :=
  match open_append (log_path cfg) k with (k, Some fd) => (k, Some (mkWriter fd 0)) | (k, None) => (k, None) end.

(** [for i in (1..=keep).rev()]. *)
Fixpoint rotate_loop (path : list Z) (i : nat) (k : K) : K :=
  match i with
  | O => k
  | S j =>
      let '(k, _) := io_remove (numbered path i) k in
      let '(k, _) := io_rename (numbered path j) (numbered path i) k in
      rotate_loop path j k
  end.

Definition rotate (cfg : LogConfig) (k : K) (w : WriterState) : K * WriterState :=
  let path := log_path cfg in
  let k := rotate_loop path (keep_files cfg) k in
  let '(k, _) := io_remove (numbered path 0) k in
  let '(k, _) := io_rename path (numbered path 0) k in
  match open_append path k with
  | (k, Some fd) => (sceIoClose k (w_fd w), mkWriter fd 0)
  | (k, None) => (k, w)
  end.

Definition write_line (cfg : LogConfig) (line : list Z) (k : K) (w : WriterState) : outcome (K * WriterState) :=
  '(k, ok) ← write_all (w_fd w) line k;
  if negb ok then Val (k, w)
  else
    '(k, n) ← (if bool_decide (list.last line = Some 10) then Val (k, bytes_written w)
               else '(k, _) ← write_all (w_fd w) [10] k; Val (k, wrap 64 (bytes_written w + 1)));
    let w := mkWriter (w_fd w) (wrap 64 (n + Z.of_nat (length line))) in
    if rotate_bytes cfg <=? bytes_written w then Val (rotate cfg k w) else Val (k, w).

Definition run_op (cfg : LogConfig) (op : WOp) (k : K) (w : WriterState) : outcome (K * WriterState) :=
  match op with
  | OpLine l => write_line cfg l k w
  | OpDropped n => write_line cfg (dropped_line n) k w
  | OpReopen => Val (reopen_append cfg k w)
  end.
Fixpoint run_ops (cfg : LogConfig) (l : list WOp) (k : K) (w : WriterState) : outcome (K * WriterState) :=
  match l with [] => Val (k, w) | op :: l => '(k, w) ← run_op cfg op k w; run_ops cfg l k w end.
End Io.

(** * Specification *)

(** The lines in a run's results and operations, and the counts of the lost. *)
Definition accepted (rs : list Emitted) : list (list Z) := omap (fun r => match r with Accepted l => Some l | _ => None end) rs.
Definition rejected (rs : list Emitted) : Z := Z.of_nat (length (List.filter (fun r => match r with Rejected => true | _ => false end) rs)).
Definition op_lines (l : list WOp) : list (list Z) := omap (fun o => match o with OpLine l => Some l | _ => None end) l.
Definition reported (l : list WOp) : Z := foldr (fun o n => match o with OpDropped d => d + n | _ => n end) 0 l.
Definition batch (s : LogState) : list (list Z) := match writer_pc s with Draining => [] | Writing b => b end.

(** A rotating log: the text of the current file, how much of it this run wrote,
    and the closed files, newest first. *)
Record RotLog : Type := mkRot { rot_cur : list Z; rot_count : Z; rot_old : list (list Z) }.

Definition terminated (l : list Z) : list Z := if bool_decide (list.last l = Some 10) then l else l ++ [10].

Definition rot_line (cfg : LogConfig) (r : RotLog) (l : list Z) : RotLog :=
  let cur := rot_cur r ++ terminated l in
  let n := rot_count r + Z.of_nat (length (terminated l)) in
  if rotate_bytes cfg <=? n then mkRot [] 0 (take (S (keep_files cfg)) (cur :: rot_old r)) else mkRot cur n (rot_old r).

Definition rot_op (cfg : LogConfig) (r : RotLog) (op : WOp) : RotLog :=
  match op with OpLine l => rot_line cfg r l | OpDropped n => rot_line cfg r (dropped_line n) | OpReopen => r end.

(** What a working card does besides [SceIoLaws]: paths with different endings
    without capitals are different files, calls on files that are there succeed,
    and an open descriptor stays one. *)
Class LogDevice (K : Type) `{SceIoLaws K} : Type := {
  open_ok : forall k p, 0 <= (sceIoOpen k p O_WRITE).2;
  write_ok : forall k fd p b, appending k fd p -> b <> [] -> 0 < (sceIoWrite k fd b).2;
  kpath_tail : forall p s t, lower_name s = true -> lower_name t = true -> kpath (p ++ s) = kpath (p ++ t) -> s = t;
  remove_ok : forall k p c, kfile k (kpath p) = Some c -> 0 <= (sceIoRemove k p).2;
  rename_ok : forall k p q c, kfile k (kpath p) = Some c -> 0 <= (sceIoRename k p q).2;
  sync_open : forall k fd fd' p, appending k fd p -> appending (sceIoSyncByFd k fd') fd p;
  close_open : forall k fd fd' p, appending k fd p -> fd' <> fd -> appending (sceIoClose k fd') fd p;
  is_open : K -> Z -> Prop;
  appending_open : forall k fd p, appending k fd p -> is_open k fd;
  remove_open : forall k q fd, is_open k fd -> is_open (sceIoRemove k q).1 fd;
  rename_open : forall k p q fd, is_open k fd -> is_open (sceIoRename k p q).1 fd;
  open_fresh : forall k fd q, is_open k fd -> (sceIoOpen k q O_WRITE).2 <> fd
}.

(** Everything a rotating log still has, oldest first. *)
Definition rot_text (r : RotLog) : list Z := concat (rev (rot_old r)) ++ rot_cur r.

(** The text of the operations. *)
Definition op_text (op : WOp) : list Z := match op with OpLine l => terminated l | OpDropped n => terminated (dropped_line n) | OpReopen => [] end.

(** * Lemmas *)

Lemma queue_cap_val : Z.of_nat QUEUE_CAP = 1024.
Proof. unfold QUEUE_CAP. lia. Qed.
#[global] Opaque QUEUE_CAP.

Lemma reported_app a b : reported (a ++ b) = reported a + reported b.
Proof. unfold reported. induction a as [|o a IH]; [done|]. cbn. destruct o; cbn; lia. Qed.

(** ** The queue *)

(** What has been accepted and lost so far, and the state. *)
Record log_inv (acc : list (list Z)) (rej : Z) (s : LogState) : Prop := {
  li_lines : start_line :: acc = op_lines (ops s) ++ batch s ++ queue s;
  li_lost : rej = reported (ops s) + logs_dropped s;
  li_pos : 0 <= logs_dropped s <= rej;
  li_cap : (length (queue s) <= QUEUE_CAP)%nat;
  li_live : 0 < logs_dropped s -> queue s <> [] \/ writer_pc s <> Draining
}.

Lemma writer_step_inv acc rej s : log_inv acc rej s -> log_inv acc rej (writer_step s).
Proof.
  intros [L1 L2 L3 L4 L5]. unfold writer_step, batch in *. destruct (writer_pc s) as [|[|l r]] eqn:Ep.
  - destruct (queue s) as [|x q] eqn:Eq; [split; unfold batch; rewrite ?Ep, ?Eq; done|].
    split; cbn [ops queue logs_dropped writer_pc batch]; [by rewrite app_nil_r|done|done|cbn; lia|by right].
  - split; cbn [ops queue logs_dropped writer_pc batch].
    + rewrite L1. unfold op_lines. rewrite list.omap_app. destruct (0 <? logs_dropped s); cbn; by rewrite app_nil_r.
    + rewrite reported_app. destruct (Z.ltb_spec 0 (logs_dropped s)); cbn; lia.
    + lia.
    + done.
    + lia.
  - split; cbn [ops queue logs_dropped writer_pc batch]; [|rewrite reported_app; cbn; lia|done|done|by right].
    rewrite L1. unfold op_lines. rewrite list.omap_app, <- app_assoc. done.
Qed.

Lemma emit_inv acc rej s t lv f n a : log_inv acc rej s -> rej < 2 ^ 64 - 1 ->
  match emit t lv f n a s with
  | (s', Accepted l) => log_inv (acc ++ [l]) rej s'
  | (s', Rejected) => log_inv acc (rej + 1) s'
  | (s', Filtered) => log_inv acc rej s' /\ level_u8 (filter_lvl s) < level_u8 lv
  end.
Proof.
  intros [L1 L2 L3 L4 L5] Hr. pose proof queue_cap_val as Hcap. unfold emit. destruct (Z.ltb_spec (level_u8 (filter_lvl s)) (level_u8 lv)); [by split|].
  destruct (Nat.leb_spec QUEUE_CAP (length (queue s))).
  - split; cbn [ops queue logs_dropped writer_pc batch]; try done; unfold wrap; rewrite ?Z.mod_small by lia; try lia.
    intros _. left. intros En. rewrite En in *. cbn in *. lia.
  - split; cbn [ops queue logs_dropped writer_pc]; try done.
    + unfold batch in *. cbn [writer_pc]. change (start_line :: acc ++ [line_text t lv f n a]) with ((start_line :: acc) ++ [line_text t lv f n a]).
      by rewrite L1, <- !app_assoc.
    + rewrite length_app. cbn. lia.
    + intros _. left. by destruct (queue s).
Qed.

Lemma log_run_inv es : forall acc rej s s' rs, log_inv acc rej s -> rej + Z.of_nat (length es) < 2 ^ 64 ->
  log_run s es = (s', rs) -> log_inv (acc ++ accepted rs) (rej + rejected rs) s'.
Proof.
  induction es as [|[t lv f n a|] es IH]; intros acc rej s s' rs Hi Hb E; cbn [log_run] in E.
  - injection E as <- <-. cbn. by rewrite app_nil_r, Z.add_0_r.
  - cbn [length] in Hb. pose proof (emit_inv acc rej s t lv f n a Hi ltac:(lia)) as G. destruct (emit t lv f n a s) as [s1 r].
    destruct (log_run s1 es) as [s2 rs2] eqn:E2. injection E as <- <-. destruct r as [|l|].
    + exact (IH _ _ _ _ _ (proj1 G) ltac:(lia) E2).
    + change (accepted (Accepted l :: rs2)) with ([l] ++ accepted rs2). rewrite (app_assoc acc [l]). exact (IH _ _ _ _ _ G ltac:(lia) E2).
    + replace (rej + rejected (Rejected :: rs2)) with (rej + 1 + rejected rs2) by (unfold rejected; cbn [List.filter length]; lia).
      exact (IH _ _ _ _ _ G ltac:(lia) E2).
  - apply (IH _ _ _ _ _ (writer_step_inv _ _ _ Hi)); [cbn [length] in Hb; lia|done].
Qed.

Lemma log_run_writer n : forall s, log_run s (repeat WriterStep n) = (Nat.iter n writer_step s, []).
Proof. induction n as [|n IH]; intros s; [done|]. cbn [repeat log_run]. rewrite IH. by rewrite Nat.iter_succ_r. Qed.

Lemma iter_add n m (s : LogState) : Nat.iter (n + m) writer_step s = Nat.iter n writer_step (Nat.iter m writer_step s).
Proof. apply Nat.iter_add. Qed.

Lemma batch_written b : forall s, writer_pc s = Writing b ->
  Nat.iter (S (length b)) writer_step s =
    mkLog (filter_lvl s) (queue s) 0 Draining
      (ops s ++ map OpLine b ++ (if 0 <? logs_dropped s then [OpDropped (logs_dropped s)] else []) ++ [OpReopen]).
Proof.
  induction b as [|l b IH]; intros s Hp; cbn [length].
  - cbn [Nat.iter nat_rect]. unfold writer_step. by rewrite Hp.
  - rewrite Nat.iter_succ_r. unfold writer_step at 2. rewrite Hp. rewrite IH by done. cbn [filter_lvl queue logs_dropped ops map].
    by rewrite <- app_assoc.
Qed.

(** A writer left alone catches up. *)
Lemma writer_catches_up s : exists n, (n <= length (batch s) + length (queue s) + 3)%nat /\
  queue (Nat.iter n writer_step s) = [] /\ writer_pc (Nat.iter n writer_step s) = Draining /\
  (queue s <> [] \/ batch s <> [] \/ writer_pc s <> Draining -> logs_dropped (Nat.iter n writer_step s) = 0).
Proof.
  assert (Hd : forall s, writer_pc s = Draining -> queue s <> [] ->
    exists n, (n <= length (queue s) + 2)%nat /\ queue (Nat.iter n writer_step s) = [] /\ writer_pc (Nat.iter n writer_step s) = Draining /\
      logs_dropped (Nat.iter n writer_step s) = 0).
  { clear s. intros s Hp Hq. exists (S (S (length (queue s)))). split; [lia|]. rewrite Nat.iter_succ_r. unfold writer_step at 2 4 6. rewrite Hp.
    destruct (queue s) as [|x q] eqn:Eq; [done|]. rewrite batch_written by done. done. }
  unfold batch. destruct (writer_pc s) as [|b] eqn:Ep.
  - destruct (queue s) as [|x q] eqn:Eq.
    + exists 0%nat. cbn [Nat.iter nat_rect]. split_and!; [lia|done|done|]. by intros [?|[?|?]].
    + destruct (Hd s Ep) as (n & Hn & H1 & H2 & H3); [by rewrite Eq|]. exists n. rewrite Eq in Hn. split_and!; try done. cbn [length] in *. lia.
  - pose proof (batch_written b s Ep) as Hb. set (s1 := mkLog _ _ _ _ _) in Hb. destruct (decide (queue s = [])) as [Eq|Eq].
    + exists (S (length b)). rewrite Hb. split_and!; [rewrite Eq; cbn; lia|done|done|done].
    + destruct (Hd s1 eq_refl Eq) as (n & Hn & H1 & H2 & H3). exists (n + S (length b))%nat. rewrite iter_add, Hb.
      change (queue s1) with (queue s) in Hn. split_and!; try done. lia.
Qed.

(** ** Files *)

Lemma dec_inj a b : 0 <= a -> 0 <= b -> dec a = dec b -> a = b.
Proof.
  intros Ha Hb E. pose proof (parse_digits_dec (Z.max a b) a ltac:(lia)) as P. rewrite E, parse_digits_dec in P by lia. congruence.
Qed.

Lemma numbered_inj p i j : numbered p i = numbered p j -> i = j.
Proof. unfold numbered. intros E. apply app_inv_head, app_inv_head, dec_inj in E; lia. Qed.

Lemma numbered_ne p i : numbered p i <> p.
Proof. unfold numbered. intros E. apply (f_equal length) in E. rewrite length_app in E. cbn in E. lia. Qed.

(** A path the kernel takes. *)
Definition no_nul (p : list Z) : Prop := cstr p = Some p.

Lemma no_nul_iff p : no_nul p <-> 0 ∉ p.
Proof.
  unfold no_nul, cstr. destruct (existsb (Z.eqb 0) p) eqn:E.
  - split; [done|]. intros Hn. exfalso. apply Hn. apply existsb_exists in E as (x & Hin & Hx). apply Z.eqb_eq in Hx as <-. by apply list_elem_of_In.
  - split; [|done]. intros _ Hin. rewrite <- not_true_iff_false, existsb_exists in E. apply E. exists 0. split; [by apply list_elem_of_In|done].
Qed.

Lemma numbered_no_nul p i : no_nul p -> no_nul (numbered p i).
Proof.
  rewrite !no_nul_iff. unfold numbered. rewrite !not_elem_of_app. intros Hp. split_and!; [done|by apply (bool_decide_unpack _)|].
  apply dec_no_char; lia.
Qed.

Section Files.
Context {K : Type} `{LogDevice K}.

Lemma numbered_tail_lower i : lower_name (bs "." ++ dec (Z.of_nat i)) = true.
Proof.
  unfold lower_name. apply forallb_forall. intros b Hb%list_elem_of_In. apply elem_of_app in Hb as [Hb|Hb].
  - apply list_elem_of_singleton in Hb as ->. done.
  - assert (48 <= b <= 57) by (apply (proj1 (list.Forall_forall _ _) (dec_digits (Z.of_nat i) ltac:(lia)) b Hb)).
    rewrite !andb_true_iff, negb_true_iff, andb_false_iff, Z.leb_le, Z.ltb_lt, !Z.leb_gt. lia.
Qed.

Lemma numbered_apart p i j : i <> j -> kpath (numbered p i) <> kpath (numbered p j).
Proof.
  intros Hij E. apply kpath_tail in E; [|apply numbered_tail_lower..]. apply Hij, (numbered_inj p). unfold numbered. by rewrite E.
Qed.

Lemma numbered_off p i : kpath (numbered p i) <> kpath p.
Proof. unfold numbered. rewrite <- (app_nil_r p) at 2. intros E. apply kpath_tail in E; [done|apply numbered_tail_lower|done]. Qed.

Lemma write_all_spec p fd f : forall buf c k,
  (length buf <= f)%nat -> Z.of_nat (length buf) < 2 ^ 32 -> appending k fd p -> kfile k (kpath p) = Some c ->
  exists k', write_all_loop f fd buf k = Val (k', true) /\ appending k' fd p /\ kfile k' (kpath p) = Some (c ++ buf) /\
    forall q, q <> kpath p -> kfile k' q = kfile k q.
Proof.
  induction f as [|f IH]; intros buf c k Hf Hl Ha Hc; destruct buf as [|b buf]; cbn [length] in Hf; try lia; cbn [write_all_loop].
  1,2: eexists; split; [done|]; setoid_rewrite sync_law; rewrite app_nil_r; split_and!; [by apply sync_open|done|done].
  set (l := b :: buf) in *. assert (take (Z.to_nat (wrap 32 (Z.of_nat (length l)))) l = l) as ->.
  { apply take_ge. unfold wrap. rewrite Z.mod_small by lia. lia. }
  destruct (sceIoWrite k fd l) as [k1 n] eqn:Ew. destruct (kwrite_law _ _ _ _ _ _ Ha Ew) as (Ha' & Hn & Hw & Ho).
  pose proof (write_ok k fd p l Ha ltac:(done)) as Hn0. rewrite Ew in Hn0. cbn in Hn0.
  rewrite (proj2 (Z.leb_gt _ _)), (proj2 (Z.ltb_ge _ _)) by lia. specialize (Hw Hn0). rewrite Hc in Hw. cbn in Hw.
  destruct (IH (drop (Z.to_nat n) l) (c ++ take (Z.to_nat n) l) k1) as (k2 & E & Ha2 & Hc2 & Hq); [| |done|done|].
  { rewrite length_drop. unfold l in *. cbn [length] in *. lia. }
  { rewrite length_drop. lia. }
  exists k2. split_and!; [done|done|by rewrite Hc2, <- app_assoc, take_drop|]. intros q Hne. by rewrite Hq, Ho.
Qed.

Lemma io_remove_spec p k : no_nul p -> forall fd, is_open k fd ->
  let k' := (io_remove p k).1 in kfile k' (kpath p) = None /\ (forall q, q <> kpath p -> kfile k' q = kfile k q) /\ is_open k' fd.
Proof.
  intros Hp fd Ho. unfold io_remove. rewrite Hp. pose proof (remove_open k p fd Ho) as Ho'. destruct (sceIoRemove k p) as [k1 rc] eqn:E.
  destruct (kremove_law _ _ _ _ E) as (R1 & R2 & _ & R4). cbn in *. split_and!; [|done|done].
  destruct (kfile k (kpath p)) as [c|] eqn:Ec; [|destruct (Z.lt_ge_cases rc 0); [by rewrite R2|by apply R1]].
  pose proof (remove_ok k p c Ec) as Hr. rewrite E in Hr. by apply R1.
Qed.

Lemma io_rename_spec p q k : no_nul p -> no_nul q -> kpath p <> kpath q -> kfile k (kpath q) = None -> forall fd, is_open k fd ->
  let k' := (io_rename p q k).1 in
  kfile k' (kpath q) = kfile k (kpath p) /\ kfile k' (kpath p) = None /\ (forall r, r <> kpath p -> r <> kpath q -> kfile k' r = kfile k r) /\ is_open k' fd.
Proof.
  intros Hp Hq Hne Hn fd Ho. unfold io_rename. rewrite Hp, Hq. pose proof (rename_open k p q fd Ho) as Ho'.
  destruct (sceIoRename k p q) as [k1 rc] eqn:E. destruct (krename_law _ _ _ _ _ E) as (R1 & R2). cbn in *.
  destruct (kfile k (kpath p)) as [c|] eqn:Ec.
  - pose proof (rename_ok k p q c Ec) as Hr. rewrite E in Hr. cbn in Hr. destruct (R2 Hr) as (_ & R3 & R4). destruct (R3 Hne) as [-> ->]. done.
  - destruct (Z.lt_ge_cases rc 0) as [Hr|Hr]; [|by destruct (R2 Hr) as [[] _]]. pose proof (R1 Hr) as Hk. rewrite !Hk.
    split_and!; [by rewrite Hn|done|intros; by rewrite Hk|done].
Qed.

Lemma open_append_spec p k fd0 : no_nul p -> is_open k fd0 ->
  exists k' fd, open_append p k = (k', Some fd) /\ fd <> fd0 /\ appending k' fd p /\
    kfile k' (kpath p) = Some (default [] (kfile k (kpath p))) /\ forall q, q <> kpath p -> kfile k' q = kfile k q.
Proof.
  intros Hp Ho. unfold open_append. rewrite Hp. pose proof (open_ok k p) as Hok. pose proof (open_fresh k fd0 p Ho) as Hf.
  destruct (sceIoOpen k p O_WRITE) as [k1 fd] eqn:E. cbn in Hok, Hf. rewrite (proj2 (Z.ltb_ge _ _)) by lia.
  destruct (open_law _ _ _ _ E) as (O1 & _ & O3). destruct (O1 Hok) as [O2 O4]. by exists k1, fd.
Qed.

(** The shift of the closed files. *)
Lemma rotate_loop_spec p n : no_nul p -> forall k fd, is_open k fd ->
  let k' := rotate_loop p n k in
  (forall j, (1 <= j <= n)%nat -> kfile k' (kpath (numbered p j)) = kfile k (kpath (numbered p (j - 1)))) /\
  ((1 <= n)%nat -> kfile k' (kpath (numbered p 0)) = None) /\
  (forall q, (forall j, (j <= n)%nat -> q <> kpath (numbered p j)) -> kfile k' q = kfile k q) /\ is_open k' fd.
Proof.
  intros Hp. induction n as [|n IH]; intros k fd Ho; cbn [rotate_loop]; [split_and!; [lia|lia|done|done]|].
  destruct (io_remove_spec (numbered p (S n)) k (numbered_no_nul p _ Hp) fd Ho) as (A1 & A2 & A3).
  destruct (io_remove (numbered p (S n)) k) as [k1 r1]. cbn [fst] in *.
  destruct (io_rename_spec (numbered p n) (numbered p (S n)) k1 (numbered_no_nul p _ Hp) (numbered_no_nul p _ Hp)) with (fd := fd)
    as (B1 & B2 & B3 & B4); [apply numbered_apart; lia|done|done|].
  destruct (io_rename (numbered p n) (numbered p (S n)) k1) as [k2 r2]. cbn [fst] in *.
  pose proof (numbered_apart p) as Hne.
  destruct (IH k2 fd B4) as (C1 & C2 & C3 & C4). split_and!; [| | |done].
  - intros j Hj. destruct (decide (j = S n)) as [->|Hj'].
    + rewrite C3 by (intros i Hi; apply Hne; lia). rewrite B1, A2 by (apply Hne; lia). do 3 f_equal. lia.
    + rewrite C1 by lia. rewrite B3, A2 by (apply Hne; lia). done.
  - intros _. destruct n as [|n]; [|apply C2; lia]. cbn [rotate_loop]. done.
  - intros q Hq. rewrite C3 by (intros j Hj; apply Hq; lia). rewrite B3, A2 by (apply Hq; lia). done.
Qed.
End Files.

Lemma rot_line_text cfg r l : exists lost, rot_text r ++ terminated l = lost ++ rot_text (rot_line cfg r l).
Proof.
  unfold rot_line. destruct (rotate_bytes cfg <=? _); [|exists []; unfold rot_text; cbn; by rewrite <- app_assoc].
  set (all := (rot_cur r ++ terminated l) :: rot_old r). exists (concat (rev (drop (S (keep_files cfg)) all))).
  unfold rot_text. cbn [rot_old rot_cur]. rewrite app_nil_r, <- concat_app, <- rev_app_distr, take_drop. unfold all. cbn [rev].
  rewrite concat_app. cbn. by rewrite app_nil_r, <- app_assoc.
Qed.

Lemma rot_ops_text cfg l : forall r, exists lost, rot_text r ++ concat (map op_text l) = lost ++ rot_text (foldl (rot_op cfg) r l).
Proof.
  induction l as [|op l IH]; intros r; cbn [map concat foldl]; [exists []; by rewrite app_nil_r|].
  assert (G : exists lost, rot_text r ++ op_text op = lost ++ rot_text (rot_op cfg r op)).
  { destruct op; cbn [op_text rot_op]; [apply rot_line_text|apply rot_line_text|exists []; by rewrite app_nil_r]. }
  destruct G as [l1 G], (IH (rot_op cfg r op)) as [l2 I]. exists (l1 ++ l2). by rewrite app_assoc, G, <- app_assoc, I, app_assoc.
Qed.

(** ** The writer refines the rotating log *)

Definition short_op (op : WOp) : Prop := Z.of_nat (length (op_text op)) < 2 ^ 32.

Lemma terminated_len l : (length l <= length (terminated l))%nat.
Proof. unfold terminated. case_bool_decide; [done|]. rewrite length_app. lia. Qed.

Section Refines.
Context {K : Type} `{LogDevice K} (cfg : LogConfig).

Record rot_rel (k : K) (w : WriterState) (r : RotLog) : Prop := {
  rr_fd : appending k (w_fd w) (log_path cfg);
  rr_cur : kfile k (kpath (log_path cfg)) = Some (rot_cur r);
  rr_count : bytes_written w = rot_count r;
  rr_bound : 0 <= rot_count r <= 2 ^ 63;
  rr_old : forall i, (i <= keep_files cfg)%nat -> kfile k (kpath (numbered (log_path cfg) i)) = rot_old r !! i
}.

Context (Hp : no_nul (log_path cfg)) (Hr : rotate_bytes cfg <= 2 ^ 63).

Lemma rotate_refines k w cur old :
  appending k (w_fd w) (log_path cfg) -> kfile k (kpath (log_path cfg)) = Some cur ->
  (forall i, (i <= keep_files cfg)%nat -> kfile k (kpath (numbered (log_path cfg) i)) = old !! i) ->
  let '(k', w') := rotate cfg k w in rot_rel k' w' (mkRot [] 0 (take (S (keep_files cfg)) (cur :: old))).
Proof.
  intros R1 R2 R5. unfold rotate. set (p := log_path cfg) in *.
  pose proof (appending_open _ _ _ R1) as Ho. destruct (rotate_loop_spec p (keep_files cfg) Hp k (w_fd w) Ho) as (A1 & A2 & A3 & A4).
  set (k1 := rotate_loop p (keep_files cfg) k) in *.
  pose proof (numbered_apart p) as Hne.
  destruct (io_remove_spec (numbered p 0) k1 (numbered_no_nul p 0 Hp) (w_fd w) A4) as (B1 & B2 & B3).
  destruct (io_remove (numbered p 0) k1) as [k2 rc2]. cbn [fst] in *.
  destruct (io_rename_spec p (numbered p 0) k2 Hp (numbered_no_nul p 0 Hp)) with (fd := w_fd w) as (C1 & C2 & C3 & C4);
    [intros E; by apply (numbered_off p 0)|done|done|].
  destruct (io_rename p (numbered p 0) k2) as [k3 rc3]. cbn [fst] in *.
  destruct (open_append_spec p k3 (w_fd w) Hp C4) as (k4 & fd & -> & Hfd & Ha & D1 & D2).
  assert (Hk2 : kfile k2 (kpath p) = Some cur).
  { rewrite B2, A3; [done|intros j _ E; by apply (numbered_off p j)|intros E; by apply (numbered_off p 0)]. }
  split; cbn [w_fd bytes_written rot_cur rot_count rot_old]; fold p.
  - apply close_open; [done|congruence].
  - rewrite close_law, D1, C2. done.
  - done.
  - lia.
  - intros i Hi. rewrite close_law, D2 by apply numbered_off. destruct i as [|i]; [by rewrite C1, Hk2|].
    rewrite C3, B2 by (try apply Hne; try apply numbered_off; lia). rewrite A1 by lia. cbn [Nat.sub]. rewrite Nat.sub_0_r.
    rewrite R5 by lia. cbn [take]. change ((cur :: take (keep_files cfg) old) !! S i) with (take (keep_files cfg) old !! i). by rewrite lookup_take_lt by lia.
Qed.

Lemma write_line_refines k w r l :
  rot_rel k w r -> Z.of_nat (length (terminated l)) < 2 ^ 32 ->
  exists k' w', write_line cfg l k w = Val (k', w') /\ rot_rel k' w' (rot_line cfg r l).
Proof.
  intros [R1 R2 R3 R4 R5] Hl. pose proof (terminated_len l) as Htl. unfold write_line, write_all.
  destruct (write_all_spec (log_path cfg) (w_fd w) (length l) l (rot_cur r) k) as (k1 & -> & A1 & A2 & A3); [done|lia|done|done|].
  cbn [mbind outcome_bind negb].
  assert (G : exists k2 n, (if bool_decide (list.last l = Some 10) then Val (k1, bytes_written w)
      else '(k, _) ← write_all_loop (length [10]) (w_fd w) [10] k1; Val (k, wrap 64 (bytes_written w + 1))) = Val (k2, n) /\
      n + Z.of_nat (length l) = rot_count r + Z.of_nat (length (terminated l)) /\ appending k2 (w_fd w) (log_path cfg) /\
      kfile k2 (kpath (log_path cfg)) = Some (rot_cur r ++ terminated l) /\ forall q, q <> kpath (log_path cfg) -> kfile k2 q = kfile k q).
  { unfold terminated in *. case_bool_decide.
    - exists k1, (bytes_written w). split_and!; [done|lia|done|done|done].
    - destruct (write_all_spec (log_path cfg) (w_fd w) (length [10]) [10] (rot_cur r ++ l) k1) as (k2 & -> & B1 & B2 & B3); [done|cbn; lia|done|done|].
      exists k2, (wrap 64 (bytes_written w + 1)). rewrite length_app in *. cbn [length] in *.
      split_and!; [done|unfold wrap; rewrite Z.mod_small; lia|done|by rewrite B2, app_assoc|]. intros q Hq. by rewrite B3, A3. }
  destruct G as (k2 & n & -> & En & B1 & B2 & B3). cbn [mbind outcome_bind]. cbv zeta. cbn [bytes_written w_fd]. rewrite En.
  assert (Ew : wrap 64 (rot_count r + Z.of_nat (length (terminated l))) = rot_count r + Z.of_nat (length (terminated l)))
    by (unfold wrap; apply Z.mod_small; lia).
  rewrite Ew. unfold rot_line. destruct (Z.leb_spec (rotate_bytes cfg) (rot_count r + Z.of_nat (length (terminated l)))) as [Hge|Hlt].
  - pose proof (rotate_refines k2 (mkWriter (w_fd w) (rot_count r + Z.of_nat (length (terminated l)))) (rot_cur r ++ terminated l) (rot_old r) B1 B2) as G.
    destruct (rotate cfg k2 _) as [k3 w3]. exists k3, w3. split; [done|]. apply G. intros i Hi. rewrite B3 by apply numbered_off. by apply R5.
  - eexists _, _. split; [done|]. split; cbn [w_fd bytes_written rot_cur rot_count rot_old]; [done|done|done|lia|].
    intros i Hi. rewrite B3 by apply numbered_off. by apply R5.
Qed.

Lemma reopen_refines k w r : rot_rel k w r -> let '(k', w') := reopen_append cfg k w in rot_rel k' w' r.
Proof.
  intros [R1 R2 R3 R4 R5]. unfold reopen_append.
  destruct (open_append_spec (log_path cfg) k (w_fd w) Hp (appending_open _ _ _ R1)) as (k1 & fd & -> & Hfd & Ha & D1 & D2).
  split; cbn [w_fd bytes_written]; [apply close_open; [done|congruence]|by rewrite close_law, D1, R2|done|done|].
  intros i Hi. rewrite close_law, D2 by apply numbered_off. by apply R5.
Qed.

Lemma run_ops_refines l : forall k w r, Forall short_op l -> rot_rel k w r ->
  exists k' w', run_ops cfg l k w = Val (k', w') /\ rot_rel k' w' (foldl (rot_op cfg) r l).
Proof.
  induction l as [|op l IH]; intros k w r Hs Hrel; [by exists k, w|]. apply Forall_cons_1 in Hs as [Ho Hs]. cbn [run_ops foldl].
  assert (G : exists k' w', run_op cfg op k w = Val (k', w') /\ rot_rel k' w' (rot_op cfg r op)).
  { destruct op as [x|n|]; cbn [run_op rot_op]; [by apply write_line_refines|by apply write_line_refines|].
    pose proof (reopen_refines k w r Hrel). destruct (reopen_append cfg k w) as [k' w']. by exists k', w'. }
  destruct G as (k1 & w1 & -> & R1). cbn [mbind outcome_bind]. by apply IH.
Qed.

(** The start on a card that has an old log. *)
Lemma writer_open_refines k old k' w :
  (forall i, (i <= keep_files cfg)%nat -> kfile k (kpath (numbered (log_path cfg) i)) = old !! i) ->
  writer_open cfg k = (k', Some w) -> rot_rel k' w (mkRot (default [] (kfile k (kpath (log_path cfg)))) 0 old).
Proof.
  intros Hold. unfold writer_open, open_append. rewrite Hp. pose proof (open_ok k (log_path cfg)) as Hok.
  destruct (sceIoOpen k (log_path cfg) O_WRITE) as [k1 fd] eqn:E. cbn in Hok. rewrite (proj2 (Z.ltb_ge _ _)) by lia. intros [= <- <-].
  destruct (open_law _ _ _ _ E) as (O1 & _ & O3). destruct (O1 Hok) as [O2 O4].
  split; cbn; [done|done|done|lia|]. intros i Hi. rewrite O3 by apply numbered_off. by apply Hold.
Qed.
End Refines.

(** * Theorems *)

(** what happens to an event.  However threads that log and the writer
    interleave: an event below the filter leaves no trace; the lines that were
    accepted are, in order, the ones written after the start line, the batch
    being written and the queue; the queue has at most 1024; every rejected
    event is in the counter or in a line that reports it; and once nobody logs
    any more the writer gets everything out. *)
Theorem log_queue_accounts cfg es s rs :
  Z.of_nat (length es) < 2 ^ 64 -> log_run (log_init cfg) es = (s, rs) ->
  op_lines (ops s) ++ batch s ++ queue s = start_line :: accepted rs /\
  rejected rs = reported (ops s) + logs_dropped s /\ (length (queue s) <= QUEUE_CAP)%nat /\
  exists n, let s' := Nat.iter n writer_step s in
    op_lines (ops s') = start_line :: accepted rs /\ rejected rs = reported (ops s') /\
    (n <= length (batch s) + length (queue s) + 3)%nat.
Proof.
  intros Hb E. assert (I0 : log_inv [] 0 (log_init cfg)) by (split; cbn; (done || lia)).
  pose proof (log_run_inv es [] 0 _ _ _ I0 ltac:(lia) E) as [L1 L2 L3 L4 L5]. cbn [app] in L1. rewrite Z.add_0_l in *. split_and!; [done|done|done|].
  destruct (writer_catches_up s) as (n & Hn & Q & P & Hz). exists n. cbv zeta.
  assert (In : log_inv (accepted rs) (rejected rs) (Nat.iter n writer_step s)).
  { clear -L1 L2 L3 L4 L5. induction n as [|n IH]; [by split|]. by apply writer_step_inv. }
  destruct In as [I1 I2 I3 _ I5]. unfold batch in I1. rewrite P, Q, !app_nil_r in I1. split_and!; [done| |done].
  assert (logs_dropped (Nat.iter n writer_step s) = 0) as Hd; [|lia].
  destruct (Z.lt_ge_cases 0 (logs_dropped (Nat.iter n writer_step s))) as [Hlt|]; [|lia]. by destruct (I5 Hlt).
Qed.

(** what is in the files.  On a working card with the files of an earlier run,
    the operations of any run of the logger succeed; the files are those of the
    rotating log they describe — the current one and [keep_files + 1] closed
    ones — and read from the oldest they are the end of everything that was
    there and was written: nothing is lost but whole oldest files, and nothing is
    reordered. *)
Theorem log_keeps_suffix {K} `{LogDevice K} cfg k k1 w old es s rs :
  no_nul (log_path cfg) -> rotate_bytes cfg <= 2 ^ 63 ->
  (forall i, (i <= keep_files cfg)%nat -> kfile k (kpath (numbered (log_path cfg) i)) = old !! i) ->
  writer_open cfg k = (k1, Some w) -> log_run (log_init cfg) es = (s, rs) -> Forall short_op (ops s) ->
  let start := mkRot (default [] (kfile k (kpath (log_path cfg)))) 0 old in
  exists k' w' r lost, run_ops cfg (ops s) k1 w = Val (k', w') /\ r = foldl (rot_op cfg) start (ops s) /\
    kfile k' (kpath (log_path cfg)) = Some (rot_cur r) /\
    (forall i, (i <= keep_files cfg)%nat -> kfile k' (kpath (numbered (log_path cfg) i)) = rot_old r !! i) /\
    rot_text start ++ concat (map op_text (ops s)) = lost ++ rot_text r.
Proof.
  intros Hp Hr Hold Hw Hrun Hs start. pose proof (writer_open_refines cfg Hp k old k1 w Hold Hw) as R0. fold start in R0.
  destruct (run_ops_refines cfg Hp Hr (ops s) k1 w start Hs R0) as (k' & w' & E & R). destruct (rot_ops_text cfg (ops s) start) as [lost L].
  exists k', w', (foldl (rot_op cfg) start (ops s)), lost. destruct R. split_and!; done.
Qed.

(** ** A card *)

Module Card.
Record Kernel : Type := mkCard { files : gmap (list Z) (list Z); fds : list (list Z) }.

Definition open (k : Kernel) (p : list Z) (flags : Z) : Kernel * Z :=
  let q := VitaFs.Toy.lower p in
  if flags =? O_WRITE then (mkCard (<[q := default [] (files k !! q)]> (files k)) (fds k ++ [q]), Z.of_nat (length (fds k))) else (k, -1).
Definition write (k : Kernel) (fd : Z) (b : list Z) : Kernel * Z :=
  match (if fd <? 0 then None else fds k !! Z.to_nat fd) with
  | None => (k, -1)
  | Some p => (mkCard (<[p := default [] (files k !! p) ++ b]> (files k)) (fds k), Z.of_nat (length b))
  end.
Definition remove (k : Kernel) (p : list Z) : Kernel * Z :=
  let p := VitaFs.Toy.lower p in
  match files k !! p with Some _ => (mkCard (delete p (files k)) (fds k), 0) | None => (k, SCE_ERRNO_ENOENT) end.
Definition rename (k : Kernel) (p q : list Z) : Kernel * Z :=
  let '(p, q) := (VitaFs.Toy.lower p, VitaFs.Toy.lower q) in
  match files k !! p with Some c => (mkCard (<[q := c]> (delete p (files k))) (fds k), 0) | None => (k, SCE_ERRNO_ENOENT) end.

#[global] Instance sce : SceIo Kernel := {
  sceIoOpen := open; sceIoRead := fun k _ _ => (k, -1, []); sceIoWrite := write;
  sceIoClose := fun k _ => k; sceIoSyncByFd := fun k _ => k; sceIoMkdir := fun k _ => (k, 0);
  sceIoRemove := remove; sceIoRename := rename; sceIoDopen := fun k _ => (k, -1); sceIoDread := fun k _ => (k, -1, mkDirent [] 0 0);
  sceIoDclose := fun k _ => k
}.

#[global] Instance sce_laws : SceIoLaws Kernel.
Proof.
  refine {| kpath := VitaFs.Toy.lower; kname := VitaFs.Toy.lower; kname_lower := VitaFs.Toy.lower_lower_name; kfile := fun k p => files k !! p;
            appending := fun k fd p => 0 <= fd /\ fds k !! Z.to_nat fd = Some (VitaFs.Toy.lower p);
            listing := fun _ _ _ => False; reading := fun _ _ _ => False |}; try done.
  - intros p a b _ _. rewrite (VitaFs.Toy.kjoin_nil p a), (VitaFs.Toy.kjoin_nil p b). unfold VitaFs.Toy.lower. rewrite !fmap_app. apply app_inv_head.
  - intros k k' fd p [= <- <-]. unfold SCE_ERRNO_ENOENT. split; lia.
  - intros k k' fd p E. cbn in E. unfold open in E. rewrite Z.eqb_refl in E. injection E as <- <-. cbn. split_and!.
    + intros _. rewrite Nat2Z.id, lookup_app_r, Nat.sub_diag, lookup_insert_eq by lia. split; [|done]. split; [lia|done].
    + lia.
    + intros q Hq. by rewrite lookup_insert_ne.
  - intros k k' fd p b n [Hfd Hp] E. cbn in E. unfold write in E. rewrite (proj2 (Z.ltb_ge _ _)), Hp in E by lia. injection E as <- <-. cbn.
    rewrite lookup_insert_eq, Nat2Z.id, firstn_all. split_and!; [lia|done|lia|done|]. intros q Hq. by rewrite lookup_insert_ne.
  - intros k k' rc p E. cbn in E. unfold remove in E. destruct (files k !! VitaFs.Toy.lower p) eqn:Ep; injection E as <- <-; cbn; unfold SCE_ERRNO_ENOENT;
      split_and!; try (done || lia); [intros _; apply lookup_delete_eq|]. intros q Hq. by rewrite lookup_delete_ne.
  - by intros k k' rc p q [= <- <-].
  - intros k k' rc p q E. cbn in E. unfold rename in E. destruct (files k !! VitaFs.Toy.lower p) as [c|] eqn:Ep; injection E as <- <-; (split; [try lia; done|]).
    + intros _. cbn. rewrite lookup_insert_eq. split_and!; [done| |].
      * intros Hne. by rewrite lookup_insert_ne, lookup_delete_eq.
      * intros r Hr1 Hr2. by rewrite lookup_insert_ne, lookup_delete_ne.
    + unfold SCE_ERRNO_ENOENT. lia.
  - intros k k' fd p [= <- <-]. lia.
Defined.

#[global] Instance device : LogDevice Kernel.
Proof.
  refine {| is_open := fun k fd => 0 <= fd < Z.of_nat (length (fds k)) |}; cbn; try done.
  - intros k p. unfold open. rewrite Z.eqb_refl. cbn. lia.
  - intros k fd p b [Hfd Hp] Hb. unfold write. rewrite (proj2 (Z.ltb_ge _ _)), Hp by lia. cbn. destruct b; [done|cbn; lia].
  - intros p s t Hs Ht. unfold VitaFs.Toy.lower. rewrite !fmap_app. intros E%app_inv_head.
    rewrite <- (VitaFs.Toy.lower_lower_name s Hs), <- (VitaFs.Toy.lower_lower_name t Ht). exact E.
  - intros k p c E. unfold remove. by rewrite E.
  - intros k p q c E. unfold rename. by rewrite E.
  - intros k fd p [Hfd Hp]. apply lookup_lt_Some in Hp. lia.
  - intros k q fd Hfd. unfold remove. by destruct (files k !! VitaFs.Toy.lower q).
  - intros k p q fd Hfd. unfold rename. by destruct (files k !! VitaFs.Toy.lower p).
  - intros k fd q Hfd. unfold open. rewrite Z.eqb_refl. cbn. lia.
Qed.
End Card.

(** ** Examples *)

Definition small_log : LogConfig := mkLogConfig (bs "ux0:log") (bs "debug,h2=warn") 40 1.
Definition small_run : list LogEvent :=
  [Emit 1500000 LInfo (bs "crates/x/src/a.rs") 7 (bs "one"); WriterStep; Emit 2000000 LTrace (bs "a.rs") 1 (bs "no"); WriterStep; WriterStep;
   Emit 2500000 LError (bs "b.rs") 12 (bs "two"); WriterStep; WriterStep; WriterStep].

Lemma log_queue_accounts_witness :
  let '(s, rs) := log_run (log_init small_log) small_run in
  op_lines (ops s) ++ batch s ++ queue s = [start_line; bs "[    1.500000] INFO  a.rs:7 one"; bs "[    2.500000] ERROR b.rs:12 two"] /\
  rejected rs = 0.
Proof.
  pose proof (log_queue_accounts small_log small_run) as G. destruct (log_run (log_init small_log) small_run) as [s rs] eqn:E.
  destruct (G s rs) as (G1 & _); [cbn; lia|reflexivity|]. rewrite G1.
  assert (Hrs : rs = (log_run (log_init small_log) small_run).2) by (by rewrite E). rewrite Hrs. split; vm_compute; reflexivity.
Defined.

Definition old_card : Card.Kernel := Card.mkCard {[ bs "ux0:log" := bs "before"; bs "ux0:log.0" := bs "older" ]} [].

Lemma log_keeps_suffix_witness :
  exists k' w' r lost, run_ops small_log (ops (log_run (log_init small_log) small_run).1) (writer_open small_log old_card).1 (mkWriter 0 0) = Val (k', w') /\
    Card.files k' !! bs "ux0:log" = Some (rot_cur r) /\ Card.files k' !! bs "ux0:log.1" = rot_old r !! 1%nat /\
    bs "older" ++ bs "before" ++ concat (map op_text (ops (log_run (log_init small_log) small_run).1)) = lost ++ rot_text r.
Proof.
  destruct (log_run (log_init small_log) small_run) as [s rs] eqn:E.
  assert (Es : s = (log_run (log_init small_log) small_run).1) by (by rewrite E).
  assert (Hs : Forall short_op (ops s)) by (rewrite Es; repeat (apply Forall_cons_2; [vm_compute; reflexivity|]); apply Forall_nil_2).
  destruct (log_keeps_suffix small_log old_card (writer_open small_log old_card).1 (mkWriter 0 0) [bs "older"] small_run s rs)
    as (k' & w' & r & lost & E1 & _ & E2 & E3 & E4); [reflexivity|cbn; lia| |vm_compute; reflexivity|exact E|exact Hs|].
  - intros i Hi. cbn in Hi. destruct i as [|[|i]]; [vm_compute; reflexivity|vm_compute; reflexivity|lia].
  - exists k', w', r, lost. cbn [fst]. split_and!; [exact E1|exact E2|apply (E3 1%nat); cbn; lia|].
    rewrite <- E4, app_assoc. apply (f_equal (fun x => x ++ _)). vm_compute. reflexivity.
Defined.

(** What the limits mean: the text found at the start does not count towards
    the size at which a file is closed, and [keep_files] closed files are kept
    besides [.0]. *)
Theorem log_limits cfg cur old lines :
  0 < rotate_bytes cfg -> Z.of_nat (length (terminated lines)) < rotate_bytes cfg ->
  rot_line cfg (mkRot cur 0 old) lines = mkRot (cur ++ terminated lines) (Z.of_nat (length (terminated lines))) old /\
  forall n, rotate_bytes cfg <= n + Z.of_nat (length (terminated lines)) -> (keep_files cfg <= length old)%nat ->
    length (rot_old (rot_line cfg (mkRot cur n old) lines)) = S (keep_files cfg).
Proof.
  intros Hpos Hlt. unfold rot_line. cbn [rot_cur rot_count rot_old]. split; [by rewrite (proj2 (Z.leb_gt _ _)) by lia|].
  intros n Hn Hk. rewrite (proj2 (Z.leb_le _ _)) by lia. cbn [rot_old]. rewrite length_take. cbn [length]. lia.
Qed.
