(* ===== verification/ViewModel.v ===== *)
(** What the demo application shows (tailscale-vita-demo: ui/timefmt.rs and
    ui/viewmodel.rs): dates of keys and last contacts, and the rows and lines made
    of a snapshot.

    The Unicode case mapping, the text of an IPv6 socket address and the order of
    the peer map are parameters. *)

From Stdlib Require Import Sorting.Sorted.
From S2P Require Import Prelude NetTypes Text Netmap Runtime LocalApi.
#[local] Open Scope Z_scope.

(** ** timefmt.rs *)

(** Division truncates towards zero. *)
Definition days_from_civil (y m d : Z) : Z :=
  let y := if m <=? 2 then y - 1 else y in
  let era := Z.quot (if 0 <=? y then y else y - 399) 400 in
  let yoe := y - era * 400 in
  let doy := Z.quot (153 * (if 2 <? m then m - 3 else m + 9) + 2) 5 + d - 1 in
  let doe := yoe * 365 + Z.quot yoe 4 - Z.quot yoe 100 + doy in
  era * 146097 + doe - 719468.

(** [i64::from_str] of short text, which cannot overflow. *)
Definition parse_i64 (s : list Z) : option Z :=
  match s with
  | 45 :: (_ :: _) as r => (fun z => - z) <$> parse_digits 10 (2 ^ 63) 0 (tail r)
  | _ => from_str_radix 10 (2 ^ 63 - 1) s
  end.

(** A character that starts before byte 10 and goes on after it is not a digit,
    so the boundary that [get] checks needs no test. *)
Definition parse_ymd (s : list Z) : option (Z * Z * Z) :=
  if (length s <? 10)%nat then None
  else if negb ((byte_at s 4 =? 45) && (byte_at s 7 =? 45)) then None
  else
    y ← parse_i64 (take 4 s); m ← parse_i64 (take 2 (drop 5 s)); d ← parse_i64 (take 2 (drop 8 s));
    if (1 <=? m) && (m <=? 12) && (1 <=? d) && (d <=? 31) then Some (y, m, d) else None.

Definition days_until (s : list Z) (now_unix : Z) : option Z :=
  '(y, m, d) ← parse_ymd s;
  if y <=? 1 then None else Some (days_from_civil y m d - now_unix / 86400).

Definition fmt_key_expiry (s : option (list Z)) (now_unix : Z) : list Z :=
  match s ≫= fun s => days_until s now_unix with
  | None => bs "key: never expires"
  | Some d =>
      if d <? 0 then bs "key: EXPIRED" else if d =? 0 then bs "key: expires TODAY" else if d =? 1 then bs "key: expires in 1 day"
      else bs "key: expires in " ++ dec d ++ bs " days"
  end.

Definition key_expiry_is_warning (s : option (list Z)) (now_unix : Z) : bool :=
  match s ≫= fun s => days_until s now_unix with Some d => d <? 14 | None => false end.

Definition fmt_last_seen (s : option (list Z)) (now_unix : Z) : list Z :=
  match s ≫= fun s => days_until s now_unix with
  | None => []
  | Some d =>
      if - d <=? 0 then bs "last seen today" else if - d =? 1 then bs "last seen 1 day ago"
      else bs "last seen " ++ dec (- d) ++ bs " days ago"
  end.

(** ** viewmodel.rs *)

Inductive Tone : Type := Good | Warn | Bad | Dim | Normal.

Inductive Tab : Type := TPeers | TSettings | TDebug.
#[global] Instance Tab_eq_dec : EqDecision Tab.
Proof. solve_decision. Defined.

Definition Tab_ALL : list Tab := [TPeers; TSettings; TDebug].
Definition Tab_label (t : Tab) : list Z := match t with TPeers => bs "Peers" | TSettings => bs "Settings" | TDebug => bs "Debug" end.
Definition Tab_index (t : Tab) : nat := match list_find (eq t) Tab_ALL with Some (i, _) => i | None => 0%nat end.
Definition Tab_at (i : nat) : Tab := nth (i mod length Tab_ALL) Tab_ALL TPeers.
Definition Tab_next (t : Tab) : Tab := Tab_at (Tab_index t + 1).
Definition Tab_prev (t : Tab) : Tab := Tab_at (Tab_index t + length Tab_ALL - 1).

Inductive SettingRow : Type :=
| FtpEnabled | FtpReadOnly | TaildropEnabled | TaildropDir | TailnetToggle | Reconnect | Reauthenticate | LogoutRow.
Definition SettingRow_ALL : list SettingRow :=
  [FtpEnabled; FtpReadOnly; TaildropEnabled; TaildropDir; TailnetToggle; Reconnect; Reauthenticate; LogoutRow].

(** Characters of UTF-8 text: a byte that does not continue one starts one. *)
Definition char_count (s : list Z) : nat := length (List.filter (fun b => negb (is_cont b)) s).
Fixpoint take_chars (n : nat) (s : list Z) : list Z :=
  match s with
  | [] => []
  | b :: r => if is_cont b then b :: take_chars n r else match n with O => [] | S n => b :: take_chars n r end
  end.
Definition truncate_ellipsis (s : list Z) (max : nat) : list Z :=
  if (max <? char_count s)%nat then take_chars max s ++ bs "…" else s.

Definition TAILDROP_DIR_DEFAULT : list Z := bs "ux0:/data/tailscale-vita/taildrop".
Definition taildrop_dir_label (dir : option (list Z)) : list Z :=
  match dir with
  | None => bs "inbox (default)"
  | Some d => if decide (d = TAILDROP_DIR_DEFAULT) then bs "inbox (default)" else truncate_ellipsis d 26
  end.

Definition on_off (b : option bool) : list Z * Tone :=
  match b with Some true => (bs "ON", Good) | Some false => (bs "OFF", Dim) | None => (bs "?", Warn) end.

Definition setting_render (r : SettingRow) (ftp_enabled ftp_read_only taildrop_enabled : option bool) (taildrop_dir : option (list Z))
    (st : OnlineState) : list Z * list Z * Tone :=
  match r with
  | FtpEnabled => let '(v, t) := on_off ftp_enabled in (bs "ts-ftp server", v, t)
  | FtpReadOnly => let '(v, t) := on_off ftp_read_only in (bs "ts-ftp read-only", v, t)
  | TaildropEnabled => let '(v, t) := on_off taildrop_enabled in (bs "Taildrop receive", v, t)
  | TaildropDir => (bs "Taildrop folder", taildrop_dir_label taildrop_dir, Dim)
  | TailnetToggle => if decide (st = Stopped) then (bs "Tailnet", bs "off", Dim) else (bs "Tailnet", bs "on", Good)
  | Reconnect => (bs "Reconnect to control", bs "press X", Normal)
  | Reauthenticate => (bs "Re-authenticate", bs "press X", Warn)
  | LogoutRow => (bs "Log out", bs "press X", Bad)
  end.

Inductive LoginMode : Type := LmLoggedOut | Starting | Qr.
Definition classify (auth_url_present login_in_progress : bool) : LoginMode :=
  if auth_url_present then Qr else if login_in_progress then Starting else LmLoggedOut.
Definition shows_cancel_hint (m : LoginMode) : bool := match m with Starting | Qr => true | LmLoggedOut => false end.

Record HeaderVm : Type := mkHeader {
  title : list Z; h_lifecycle : list Z; lifecycle_tone : Tone; right_ : list Z; sub : list Z; sub_tone : Tone
}.
Record PeerRow : Type := mkRow {
  row_online : bool; row_name : list Z; row_ip : list Z; row_path : list Z; path_tone : Tone; ping_ip : option Z; row_key : list Z
}.
Record DashVm : Type := mkDash { header : HeaderVm; rows : list PeerRow; staleness : list Z; staleness_tone : Tone }.

Definition first_label (name : list Z) : list Z := match split_on 46 name with l :: _ => l | [] => name end.

Definition fmt_duration_secs (secs : Z) : list Z :=
  let d := secs / 86400 in let h := secs mod 86400 / 3600 in let m := secs mod 3600 / 60 in
  if 0 <? d then dec d ++ bs "d" ++ dec h ++ bs "h"
  else if 0 <? h then dec h ++ bs "h" ++ dec m ++ bs "m"
  else if 0 <? m then dec m ++ bs "m" else dec secs ++ bs "s".

(** [{:.1}] of [n] divided by a power of two, which is exact for [n] below 2^53:
    to the nearest tenth, ties to even. *)
Definition one_decimal (n unit : Z) : list Z :=
  let q := n * 10 / unit in
  let r := n * 10 mod unit in
  let t := if (unit <? 2 * r) || ((2 * r =? unit) && Z.odd q) then q + 1 else q in
  dec (t / 10) ++ bs "." ++ dec (t mod 10).
Definition humanize_bytes (n : Z) : list Z :=
  if n <? 1024 then dec n ++ bs " B"
  else if n <? 1048576 then one_decimal n 1024 ++ bs " KB" else one_decimal n 1048576 ++ bs " MB".

Definition saturating_sub (a b : Z) : Z := Z.max 0 (a - b).

(** [trim_start_matches(p)] for a nonempty text [p]. *)
Fixpoint trim_start_matches (fuel : nat) (p s : list Z) : list Z :=
  match fuel with
  | O => s
  | S f => match strip_prefix p s with Some r => trim_start_matches f p r | None => s end
  end.
Definition trim_prefixes (p s : list Z) : list Z := trim_start_matches (length s) p s.

(** [join(sep)] of texts. *)
Fixpoint join_with (sep : list Z) (l : list (list Z)) : list Z :=
  match l with [] => [] | [x] => x | x :: r => x ++ sep ++ join_with sep r end.

Definition nonblank (s : option (list Z)) : option (list Z) :=
  s ≫= fun s => if decide (trim s = []) then None else Some (trim s).

Definition identity_line (snap : RuntimeSnapshot) : option (list Z) :=
  login ← nonblank (user_login snap);
  Some (match nonblank (tailnet_domain snap) with
        | Some d => if eq_ignore_ascii_case d login then login else login ++ bs " · " ++ d
        | None => login
        end).

Definition lifecycle_display (l : OnlineState) : list Z * Tone :=
  (debug_state l,
   match l with
   | Online => Good
   | Connecting | Degraded | NeedsLogin => Warn
   | Offline | AuthFailed | SecurityFailed => Bad
   | Stopped => Dim
   end).

Definition acl_line (snap : RuntimeSnapshot) : list Z * Tone :=
  if has_tags (acl snap) then (bs "ACL tags: " ++ join_with (bs " ") (tags (acl snap)), Good)
  else (bs "ACL: UNTAGGED auth-key — full untagged-node reach", Bad).

Definition key_expiry_line (snap : RuntimeSnapshot) (now_unix : Z) : list Z * Tone :=
  (fmt_key_expiry (sn_key_expiry snap) now_unix, if key_expiry_is_warning (sn_key_expiry snap) now_unix then Bad else Dim).

Definition HEADER_SIDE_GAP : Z := 16.
Definition header_identity_budget (inner_w sub_w : Z) : Z := Z.max (inner_w - sub_w - HEADER_SIDE_GAP) 0.
Definition confirm_dismisses (action_idle : bool) : bool := action_idle.

(** The half-open range of rows to draw. *)
Definition scroll_window (len selected viewport : nat) : nat * nat :=
  if (len <=? viewport)%nat then (0%nat, len)
  else
    let selected := Nat.min selected (len - 1) in
    let start := (selected - viewport / 2)%nat in
    let start := if (len <? start + viewport)%nat then (len - viewport)%nat else start in
    (start, (start + viewport)%nat).

(** ** Rows in order *)

Fixpoint bytes_cmp (a b : list Z) : comparison :=
  match a, b with
  | [], [] => Eq
  | [], _ => Lt
  | _, [] => Gt
  | x :: a, y :: b => match x ?= y with Eq => bytes_cmp a b | c => c end
  end.
Definition bool_cmp (a b : bool) : comparison := match a, b with false, true => Lt | true, false => Gt | _, _ => Eq end.
Definition then_with (a b : comparison) : comparison := match a with Eq => b | c => c end.

(** A stable sort: an element goes before the first one it is less than. *)
Section Sort.
Context {A : Type} (cmp : A -> A -> comparison).
Fixpoint sort_insert (x : A) (l : list A) : list A :=
  match l with [] => [x] | y :: r => match cmp x y with Lt | Eq => x :: l | Gt => y :: sort_insert x r end end.
Fixpoint sort_by (l : list A) : list A := match l with [] => [] | x :: r => sort_insert x (sort_by r) end.
End Sort.

Section View.
Context (show6 : SocketAddr -> list Z) (lower : list Z -> list Z) (values : gmap (list Z) PeerView -> list PeerView).

Definition peer_row (p : PeerView) : PeerRow :=
  let '(path, tone) :=
    if negb (pv_online p) then (bs "—", Dim)
    else if direct_path_alive p then
      (match direct_path_rtt_ms p with Some ms => bs "direct " ++ dec ms ++ bs " ms" | None => bs "direct" end, Good)
    else if negb (pv_home_derp p =? 0) then (bs "relay (derp " ++ dec (pv_home_derp p) ++ bs ")", Warn)
    else (bs "relay", Warn) in
  mkRow (pv_online p) (first_label (pv_name p)) (match tailscale_ip p with Some i => show_ipv4 i | None => bs "—" end) path tone
    (if pv_online p then tailscale_ip p else None) (pv_node_key_hex p).

Definition row_cmp (a b : PeerRow) : comparison :=
  then_with (bool_cmp (row_online b) (row_online a))
    (then_with (bytes_cmp (lower (row_name a)) (lower (row_name b))) (bytes_cmp (row_ip a) (row_ip b))).

Definition build (snap : RuntimeSnapshot) (now_unix : Z) : DashVm :=
  let ip := match sn_our_addrs snap with a :: _ => show_ipv4 (ai_addr a) | [] => bs "—" end in
  let '(st, tone) := lifecycle_display (lifecycle snap) in
  let right := match identity_line snap with
               | Some l => l
               | None =>
                   let r := if negb (derp_home_region snap =? 0) then bs "DERP " ++ dec (derp_home_region snap) else [] in
                   r ++ (if bool_decide (r = []) then [] else bs " · ") ++ bs "up " ++
                   fmt_duration_secs (saturating_sub now_unix (started_at_unix snap))
               end in
  let '(sub, sub_tone) :=
    if has_tags (acl snap) then
      (bs "tags: " ++ join_with (bs " ") (tags (acl snap)) ++
       match public_endpoint snap with Some pe => bs " · public " ++ show_sockaddr show6 pe | None => [] end, Dim)
    else (bs "UNTAGGED auth-key — this device has full untagged-node ACL reach", Warn) in
  let age := saturating_sub now_unix (updated_at_unix snap) in
  let '(stale, stale_tone) :=
    if 10 <? age then (bs "updated " ++ dec age ++ bs " s ago — STALE", Warn) else (bs "updated " ++ dec age ++ bs " s ago", Dim) in
  mkDash (mkHeader (sn_hostname snap ++ bs "  " ++ ip) st tone right sub sub_tone)
    (sort_by row_cmp (map peer_row (values (peers snap)))) stale stale_tone.

Definition build_debug_rows (snap : RuntimeSnapshot) (now_unix : Z) (build : list Z) : list (list Z * list Z * Tone) :=
  let '(kx, kt) := key_expiry_line snap now_unix in
  [(bs "lifecycle", debug_state (lifecycle snap), Normal)] ++
  match sn_fatal_reason snap with Some r => [(bs "fatal", r, Bad)] | None => [] end ++
  [(bs "updated", dec (saturating_sub now_unix (updated_at_unix snap)) ++ bs " s ago", Dim);
   (bs "uptime", fmt_duration_secs (saturating_sub now_unix (started_at_unix snap)), Dim);
   (bs "peers", dec (Z.of_nat (peer_count snap)), Normal);
   (bs "DERP home", if derp_home_region snap =? 0 then bs "none" else dec (derp_home_region snap), Normal);
   (bs "DERP alive", match alive_derp_regions snap with [] => bs "none" | l => join_with (bs ",") (map dec l) end, Normal);
   (bs "magic UDP", show_sockaddr show6 (magic_local snap), Dim);
   (bs "public", match public_endpoint snap with Some e => show_sockaddr show6 e | None => bs "none (no STUN)" end, Dim);
   (bs "self key", trim_prefixes (bs "key: ") kx, kt);
   (bs "build", build, Dim);
   (bs "-- taildrop inbox --", [], Dim)] ++
  match recent_taildrops snap with
  | [] => [(bs "(no files received)", [], Dim)]
  | l => map (fun ev => (truncate_ellipsis (td_name ev) 20,
             humanize_bytes (td_size ev) ++ bs " " ++ td_sender ev ++ bs " " ++ td_status ev ++ bs " " ++
             fmt_duration_secs (saturating_sub now_unix (td_at_unix ev)),
             if decide (td_status ev = bs "ok") then Good else Warn)) l
  end.

(** The text up to byte 16, which must not be inside a character. *)
Definition key_prefix (s : list Z) : outcome (list Z) :=
  let n := Nat.min 16 (length s) in
  if is_cont (byte_at (drop n s) 0) then Panicked else Val (take n s).

Definition peer_detail_lines (snap : RuntimeSnapshot) (key : list Z) (now_unix : Z) : outcome (option (list (list Z * list Z))) :=
  match peers snap !! key with
  | None => Val None
  | Some p =>
      prefix ← key_prefix (pv_node_key_hex p);
      let ls := fmt_last_seen (pv_last_seen p) now_unix in
      Val (Some (
        [(bs "name", first_label (pv_name p));
         (bs "tailnet IP", match tailscale_ip p with Some i => show_ipv4 i | None => bs "—" end);
         (bs "online", if pv_online p then bs "yes" else bs "no");
         (bs "node id", dec (pv_node_id p));
         (bs "DERP home", if pv_home_derp p =? 0 then bs "none" else dec (pv_home_derp p));
         (bs "direct path", match direct_path_alive p, direct_path_rtt_ms p with
                            | true, Some ms => bs "yes, " ++ dec ms ++ bs " ms"
                            | true, None => bs "yes"
                            | false, _ => bs "no (relay)"
                            end)] ++
        match direct_path_endpoint p with Some e => [(bs "via", show_sockaddr show6 e)] | None => [] end ++
        [(bs "allowed IPs", match pv_allowed_ips p with [] => bs "—" | l => join_with (bs " ") l end);
         (bs "endpoints", match pv_endpoints p with [] => bs "—" | l => join_with (bs " ") l end)] ++
        (if negb (pv_online p) && negb (bool_decide (ls = [])) then [(bs "last seen", trim_prefixes (bs "last seen ") ls)] else []) ++
        [(bs "key", trim_prefixes (bs "key: ") (fmt_key_expiry (pv_key_expiry p) now_unix));
         (bs "node key", prefix ++ bs "…")]))
  end.
End View.

(** * Specification *)

(** The Gregorian calendar. *)
Definition leap (y : Z) : bool := (y mod 4 =? 0) && (negb (y mod 100 =? 0) || (y mod 400 =? 0)).
Definition days_in_month (y m : Z) : Z :=
  if m =? 2 then (if leap y then 29 else 28) else if (m =? 4) || (m =? 6) || (m =? 9) || (m =? 11) then 30 else 31.
Definition valid_date (y m d : Z) : Prop := 1 <= m <= 12 /\ 1 <= d <= days_in_month y m.
Definition next_day (y m d : Z) : Z * Z * Z :=
  if d <? days_in_month y m then (y, m, d + 1) else if m <? 12 then (y, m + 1, 1) else (y + 1, 1, 1).

(** Two and four digits. *)
Definition two (n : Z) : list Z := [48 + n / 10; 48 + n mod 10].
Definition four (n : Z) : list Z := two (n / 100) ++ two (n mod 100).
Definition date_text (y m d : Z) : list Z := four y ++ [45] ++ two m ++ [45] ++ two d.

(** * Lemmas *)

(** ** The calendar *)

(** The year from March on, with the leap day at its end. *)
Lemma civil_split y m d : 1 <= m <= 12 ->
  exists y' c, days_from_civil y m d = 365 * y' + y' / 4 - y' / 100 + y' / 400 + c + d - 1 - 719468 /\
    y' = (if m <=? 2 then y - 1 else y) /\ c = (153 * (if 2 <? m then m - 3 else m + 9) + 2) / 5.
Proof.
  intros Hm. set (y' := if m <=? 2 then y - 1 else y). set (q := if 2 <? m then m - 3 else m + 9).
  exists y', ((153 * q + 2) / 5). split; [|done]. unfold days_from_civil. fold y' q.
  assert (Hq : 0 <= q) by (unfold q; destruct (Z.ltb_spec 2 m); lia). rewrite (Z.quot_div_nonneg (153 * q + 2) 5) by lia.
  assert (He : Z.quot (if 0 <=? y' then y' else y' - 399) 400 = y' / 400).
  { destruct (Z.leb_spec 0 y'); [by apply Z.quot_div_nonneg; lia|].
    replace (y' - 399) with (- (399 - y')) by lia. rewrite Z.quot_opp_l, Z.quot_div_nonneg by lia.
    Z.div_mod_to_equations. lia. }
  rewrite He. assert (Hy : 0 <= y' - y' / 400 * 400 < 400) by (Z.div_mod_to_equations; lia).
  rewrite !Z.quot_div_nonneg by lia. set (e := y' / 400) in *.
  assert ((y' - e * 400) / 4 = y' / 4 - e * 100) as -> by (replace (y' - e * 400) with (y' + - (e * 100) * 4) by lia; rewrite Z.div_add; lia).
  assert ((y' - e * 400) / 100 = y' / 100 - e * 4) as -> by (replace (y' - e * 400) with (y' + - (e * 4) * 100) by lia; rewrite Z.div_add; lia).
  lia.
Qed.

(** How many days a year from March on has. *)
Lemma year_step y : 365 * (y + 1) + (y + 1) / 4 - (y + 1) / 100 + (y + 1) / 400 =
  365 * y + y / 4 - y / 100 + y / 400 + if leap (y + 1) then 366 else 365.
Proof.
  assert (G : forall n, 0 < n -> (y + 1) / n = y / n + if (y + 1) mod n =? 0 then 1 else 0).
  { intros n Hn. pose proof (Z.div_mod y n ltac:(lia)) as E1. pose proof (Z.div_mod (y + 1) n ltac:(lia)) as E2.
    pose proof (Z.mod_pos_bound y n Hn). pose proof (Z.mod_pos_bound (y + 1) n Hn). destruct (Z.eqb_spec ((y + 1) mod n) 0); nia. }
  rewrite !G by lia. unfold leap.
  assert (H100 : (y + 1) mod 100 = 0 -> (y + 1) mod 4 = 0) by (Z.div_mod_to_equations; lia).
  assert (H400 : (y + 1) mod 400 = 0 -> (y + 1) mod 100 = 0) by (Z.div_mod_to_equations; lia).
  destruct (Z.eqb_spec ((y + 1) mod 4) 0), (Z.eqb_spec ((y + 1) mod 100) 0), (Z.eqb_spec ((y + 1) mod 400) 0); cbn [andb orb negb]; try lia; tauto.
Qed.

(** The tables of a given month. *)
Ltac months :=
  repeat match goal with
    | |- context [?a / 5] => let v := eval vm_compute in (a / 5) in change (a / 5) with v
    | |- context [if ?b then _ else _] => let v := eval vm_compute in b in change b with v; cbv iota
    end.

Lemma civil_next y m d : valid_date y m d ->
  let '(y', m', d') := next_day y m d in valid_date y' m' d' /\ days_from_civil y' m' d' = days_from_civil y m d + 1.
Proof.
  intros [Hm Hd]. unfold next_day. destruct (Z.ltb_spec d (days_in_month y m)) as [Hlt|Hge].
  { split; [split; lia|]. destruct (civil_split y m d Hm) as (y1 & c1 & -> & -> & ->), (civil_split y m (d + 1) Hm) as (y2 & c2 & -> & -> & ->). lia. }
  assert (d = days_in_month y m) as -> by lia.
  assert (Hy : forall y m, 1 <= days_in_month y m) by (intros; unfold days_in_month; repeat case_match; lia).
  destruct (Z.ltb_spec m 12) as [Hlt|Hge2].
  - split; [split; [lia|split; [lia|apply Hy]]|].
    destruct (civil_split y m (days_in_month y m) Hm) as (y1 & c1 & -> & -> & ->).
    destruct (civil_split y (m + 1) 1 ltac:(lia)) as (y2 & c2 & -> & -> & ->).
    pose proof (year_step (y - 1)) as Hs. replace (y - 1 + 1) with y in Hs by lia. unfold days_in_month.
    assert (Hcases : m = 1 \/ m = 2 \/ m = 3 \/ m = 4 \/ m = 5 \/ m = 6 \/ m = 7 \/ m = 8 \/ m = 9 \/ m = 10 \/ m = 11) by lia.
    destruct Hcases as [E|[E|[E|[E|[E|[E|[E|[E|[E|[E|E]]]]]]]]]]; subst m; destruct (leap y);
      months; lia.
  - assert (m = 12) as -> by lia. split; [split; [lia|split; [lia|apply Hy]]|].
    destruct (civil_split y 12 (days_in_month y 12) Hm) as (y1 & c1 & -> & -> & ->).
    destruct (civil_split (y + 1) 1 1 ltac:(lia)) as (y2 & c2 & -> & -> & ->). unfold days_in_month. replace (y + 1 - 1) with y by lia. months. lia.
Qed.

(** ** Dates in text *)

Lemma parse_two n : 0 <= n < 100 -> parse_i64 (two n) = Some n.
Proof.
  intros Hn. assert (Hall : forallb (fun z => bool_decide (parse_i64 (two z) = Some z)) (map Z.of_nat (seq 0 100)) = true) by (vm_compute; reflexivity).
  rewrite forallb_forall in Hall. specialize (Hall n). rewrite bool_decide_eq_true in Hall. apply Hall, in_map_iff. exists (Z.to_nat n).
  split; [lia|]. apply in_seq. lia.
Qed.

Lemma parse_four n : 0 <= n < 10000 -> parse_i64 (four n) = Some n.
Proof.
  intros Hn.
  assert (Hall : forallb (fun z => bool_decide (parse_i64 (four z) = Some z)) (map Z.of_nat (seq 0 (Z.to_nat 10000))) = true) by (vm_compute; reflexivity).
  rewrite forallb_forall in Hall. specialize (Hall n). rewrite bool_decide_eq_true in Hall. apply Hall, in_map_iff. exists (Z.to_nat n).
  split; [lia|]. apply in_seq. lia.
Qed.

Lemma parse_date_text y m d rest : 0 <= y < 10000 -> valid_date y m d -> parse_ymd (date_text y m d ++ rest) = Some (y, m, d).
Proof.
  intros Hy [Hm Hd]. assert (Hd31 : 1 <= d <= 31) by (revert Hd; unfold days_in_month; repeat case_match; lia).
  unfold parse_ymd. change (take 4 (date_text y m d ++ rest)) with (four y). change (take 2 (drop 5 (date_text y m d ++ rest))) with (two m).
  change (take 2 (drop 8 (date_text y m d ++ rest))) with (two d). change (byte_at (date_text y m d ++ rest) 4) with 45.
  change (byte_at (date_text y m d ++ rest) 7) with 45. rewrite (proj2 (Nat.ltb_ge _ _)) by (rewrite length_app; cbn; lia).
  cbn [Z.eqb Pos.eqb andb negb]. rewrite parse_four, !parse_two by lia. cbn [mbind option_bind].
  by rewrite !(proj2 (Z.leb_le _ _)) by lia.
Qed.

(** ** Order *)

Lemma bytes_cmp_antisym a : forall b, bytes_cmp b a = CompOpp (bytes_cmp a b).
Proof.
  induction a as [|x a IH]; intros [|y b]; try done. cbn. rewrite (Z.compare_antisym x y). destruct (x ?= y); cbn; [apply IH|done|done].
Qed.

Lemma bytes_cmp_trans a : forall b c, bytes_cmp a b <> Gt -> bytes_cmp b c <> Gt -> bytes_cmp a c <> Gt.
Proof.
  induction a as [|x a IH]; intros [|y b] [|z c]; try done. cbn. destruct (Z.compare_spec x y), (Z.compare_spec y z), (Z.compare_spec x z); try done; try lia.
  apply IH.
Qed.

Lemma bytes_cmp_trans_lt a : forall b c, bytes_cmp a b = Lt -> bytes_cmp b c <> Gt -> bytes_cmp a c = Lt.
Proof.
  induction a as [|x a IH]; intros [|y b] [|z c]; try done. cbn. destruct (Z.compare_spec x y), (Z.compare_spec y z), (Z.compare_spec x z); try done; try lia.
  apply IH.
Qed.

(** A comparison that orders. *)
Record orders {A} (cmp : A -> A -> comparison) : Prop := {
  o_antisym : forall a b, cmp b a = CompOpp (cmp a b);
  o_trans : forall a b c, cmp a b <> Gt -> cmp b c <> Gt -> cmp a c <> Gt;
  o_trans_lt : forall a b c, cmp a b = Lt -> cmp b c <> Gt -> cmp a c = Lt
}.

Lemma orders_trans_lt2 {A} (cmp : A -> A -> comparison) : orders cmp -> forall a b c, cmp a b <> Gt -> cmp b c = Lt -> cmp a c = Lt.
Proof.
  intros [O1 O2 O3] a b c H1 H2. destruct (cmp a c) eqn:E; [|done|].
  - assert (Hca : cmp c a = Eq) by (by rewrite O1, E). pose proof (O3 b c a H2 ltac:(by rewrite Hca)) as Hba. rewrite O1, Hba in H1. done.
  - by apply O2 with (b := b) in E; [|done|rewrite H2].
Qed.

Lemma orders_then {A} (c1 c2 : A -> A -> comparison) : orders c1 -> orders c2 -> orders (fun a b => then_with (c1 a b) (c2 a b)).
Proof.
  intros Q1 Q2. pose proof (orders_trans_lt2 c1 Q1) as T1. destruct Q1 as [A1 B1 C1], Q2 as [A2 B2 C2].
  assert (Heq : forall a b c, c1 a b = Eq -> c1 b c = Eq -> c1 a c = Eq).
  { intros a b c E1 E2. assert (N1 : c1 a c <> Gt) by (apply (B1 a b c); congruence).
    assert (N2 : c1 c a <> Gt) by (apply (B1 c b a); rewrite A1; [rewrite E2|rewrite E1]; done). rewrite A1 in N2. by destruct (c1 a c). }
  split.
  - intros a b. rewrite A1, A2. by destruct (c1 a b).
  - intros a b c. destruct (c1 a b) eqn:E1, (c1 b c) eqn:E2; cbn; try done.
    + rewrite (Heq a b c) by done. apply B2.
    + intros _ _. by rewrite (T1 a b c) by congruence.
    + intros _ _. by rewrite (C1 a b c) by congruence.
    + intros _ _. by rewrite (C1 a b c) by congruence.
  - intros a b c. destruct (c1 a b) eqn:E1, (c1 b c) eqn:E2; cbn; try done.
    + rewrite (Heq a b c) by done. apply C2.
    + intros _ _. by rewrite (T1 a b c) by congruence.
    + intros _ _. by rewrite (C1 a b c) by congruence.
    + intros _ _. by rewrite (C1 a b c) by congruence.
Qed.

Lemma bytes_orders {A} (f : A -> list Z) : orders (fun a b => bytes_cmp (f a) (f b)).
Proof. split; intros; [apply bytes_cmp_antisym|by eapply bytes_cmp_trans|by eapply bytes_cmp_trans_lt]. Qed.

Lemma row_cmp_orders lower : orders (row_cmp lower).
Proof.
  unfold row_cmp. apply (orders_then (fun a b => bool_cmp (row_online b) (row_online a))).
  - split; intros a b; [by destruct (row_online a), (row_online b)|intros c; by destruct (row_online a), (row_online b), (row_online c)..].
  - apply (orders_then (fun a b => bytes_cmp (lower (row_name a)) (lower (row_name b)))); apply (bytes_orders (fun r => _)).
Qed.

Section Sorted_.
Context {A : Type} (cmp : A -> A -> comparison) (Hc : orders cmp).

Lemma sort_insert_perm x l : sort_insert cmp x l ≡ₚ x :: l.
Proof.
  induction l as [|y l IH]; cbn; [done|]. destruct (cmp x y); [done|done|]. rewrite IH. apply Permutation_swap.
Qed.

Lemma sort_by_perm l : sort_by cmp l ≡ₚ l.
Proof. induction l as [|x l IH]; cbn; [done|]. by rewrite sort_insert_perm, IH. Qed.

Lemma sort_insert_sorted x l : StronglySorted (fun a b => cmp a b <> Gt) l -> StronglySorted (fun a b => cmp a b <> Gt) (sort_insert cmp x l).
Proof.
  destruct Hc as [O1 O2 _]. induction 1 as [|y l Hs IH Hf]; cbn; [by repeat constructor|].
  destruct (cmp x y) eqn:E; cycle 2.
  - constructor; [done|]. rewrite sort_insert_perm. constructor; [|done]. by rewrite O1, E.
  - constructor; [by constructor|]. constructor; [congruence|]. eapply list.Forall_impl; [done|]. intros z Hz. apply (O2 x y z); congruence.
  - constructor; [by constructor|]. constructor; [congruence|]. eapply list.Forall_impl; [done|]. intros z Hz. apply (O2 x y z); congruence.
Qed.

Lemma sort_by_sorted l : StronglySorted (fun a b => cmp a b <> Gt) (sort_by cmp l).
Proof. induction l; cbn; [constructor|by apply sort_insert_sorted]. Qed.
End Sorted_.

(** * Theorems *)

(** dates are counted right.  The day number of 1970-01-01 is 0, the number of the
    day after any date of the Gregorian calendar is one more, and the days until
    a date written YYYY-MM-DD, whatever follows, are its number less today's. *)
Theorem key_dates_calendar :
  days_from_civil 1970 1 1 = 0 /\
  (forall y m d, valid_date y m d ->
     let '(y', m', d') := next_day y m d in valid_date y' m' d' /\ days_from_civil y' m' d' = days_from_civil y m d + 1) /\
  (forall y m d rest now, 1 < y < 10000 -> valid_date y m d ->
     days_until (date_text y m d ++ rest) now = Some (days_from_civil y m d - now / 86400)).
Proof.
  split_and!; [reflexivity|exact civil_next|]. intros y m d rest now Hy Hv. unfold days_until. rewrite parse_date_text by (done || lia).
  cbn [mbind option_bind]. by rewrite (proj2 (Z.leb_gt _ _)) by lia.
Qed.

(** the list of peers.  Whatever order the peer map is walked in, the rows are
    one per peer, online ones first, then by name without case, then by address;
    and only online peers can be pinged, at their own address. *)
Theorem dashboard_rows_ordered show6 lower values snap now :
  let rs := rows (build show6 lower values snap now) in
  rs ≡ₚ map peer_row (values (peers snap)) /\ StronglySorted (fun a b => row_cmp lower a b <> Gt) rs /\
  forall r ip, r ∈ rs -> ping_ip r = Some ip ->
    exists p, p ∈ values (peers snap) /\ pv_online p = true /\ tailscale_ip p = Some ip /\ row_key r = pv_node_key_hex p.
Proof.
  cbv zeta. assert (E : rows (build show6 lower values snap now) = sort_by (row_cmp lower) (map peer_row (values (peers snap)))).
  { unfold build. repeat case_match; done. }
  rewrite E. pose proof (sort_by_perm (row_cmp lower) (map peer_row (values (peers snap)))) as Hp.
  split_and!; [done|apply sort_by_sorted, row_cmp_orders|]. intros r ip Hr Hi. rewrite Hp in Hr. apply list_elem_of_fmap in Hr as (p & -> & Hin).
  exists p. split; [done|]. unfold peer_row in *. repeat case_match; cbn in *; simplify_eq; done.
Qed.

(** the cursor is on screen.  The drawn range has the whole list if it fits and
    otherwise a full screen of it, lies within the list, and contains the
    selected row. *)
Theorem scroll_window_shows len selected viewport :
  (0 < viewport)%nat ->
  let '(a, b) := scroll_window len selected viewport in
  (a <= b <= len)%nat /\ (b - a = Nat.min len viewport)%nat /\
  ((0 < len)%nat -> (a <= Nat.min selected (len - 1) < b)%nat).
Proof.
  intros Hv. unfold scroll_window. destruct (Nat.leb_spec len viewport); [lia|].
  pose proof (Nat.div_lt viewport 2 ltac:(lia) ltac:(lia)).
  destruct (Nat.ltb_spec len (Nat.min selected (len - 1) - viewport / 2 + viewport)); lia.
Qed.

Lemma scroll_window_shows_witness : let '(a, b) := scroll_window 20 13 9 in (a <= 13 < b)%nat.
Proof.
  destruct (scroll_window 20 13 9) as [a b] eqn:E. pose proof (scroll_window_shows 20 13 9 ltac:(lia)) as G. rewrite E in G.
  destruct G as (_ & _ & G). specialize (G ltac:(lia)). cbn in G. exact G.
Defined.

(** 2024 is a leap year, and a key that ends on its last day of February. *)
Lemma key_dates_calendar_witness :
  days_from_civil 2024 3 1 = days_from_civil 2024 2 29 + 1 /\
  days_until (date_text 2024 2 29 ++ bs "T12:00:00Z") (86400 * days_from_civil 2024 2 20 + 5) = Some 9 /\
  key_expiry_is_warning (Some (bs "2024-02-29T12:00:00Z")) (86400 * days_from_civil 2024 2 20 + 5) = true.
Proof.
  destruct key_dates_calendar as (_ & Hn & Hu). split_and!.
  - apply (Hn 2024 2 29). split; [lia|vm_compute; done].
  - rewrite Hu; [vm_compute; reflexivity|lia|split; [lia|vm_compute; done]].
  - vm_compute. reflexivity.
Defined.
