(* ===== verification/Dashboard.v ===== *)
(** The demo application as a client of the LocalAPI and as an interactive
    program (tailscale-vita-demo: ui/client.rs, ui/dashboard.rs): the worker thread
    that polls and acts, and the loop that turns buttons and touches into
    actions, one frame at a time.

    Drawing is left out but for what it does to the state.  JSON, the text of
    errors and the screen regions a touch falls in are inputs. *)

From S2P Require Import Prelude NetTypes Text VitaFs WgPolicy Taildrop Netmap Keys Noise Runtime LocalApi ConfigEdit ViewModel.
#[local] Open Scope Z_scope.

(** ** client.rs: HTTP *)

Definition CONFIG_PATH : list Z := bs "ux0:/data/tailscale-vita/config.toml".
Definition TAILDROP_DIR_PRESETS : list (list Z) := [TAILDROP_DIR_DEFAULT; bs "ux0:/vpk"; bs "ux0:/downloads"].
Definition MAX_RESPONSE : nat := Z.to_nat (512 * 1024).

Inductive HttpErr : Type :=
| RuntimeDown | ReadTimeout | ReadFailed | ResponseTooLarge | BadResponse (why : list Z).

(** [split_whitespace]: a word ends where the rest starts with a space. *)
Definition starts_space (s : list Z) : bool := (length (trim_start s) <? length s)%nat.
Fixpoint take_word (s : list Z) : list Z * list Z :=
  match s with
  | [] => ([], [])
  | c :: r => if starts_space s then ([], s) else let '(w, rest) := take_word r in (c :: w, rest)
  end.
Definition second_word (s : list Z) : option (list Z) :=
  let '(_, rest) := take_word (trim_start s) in
  match trim_start rest with [] => None | r => Some (take_word r).1 end.

Definition parse_http_response (raw : list Z) : result (list Z) (Z * list Z) :=
  match find_crlfcrlf raw with
  | None => Err (bs "no header terminator")
  | Some head_end =>
      if negb (utf8_valid (take head_end raw)) then Err (bs "non-utf8 head")
      else match lines (take head_end raw) with
           | [] => Err (bs "empty head")
           | status_line :: _ =>
               match second_word status_line with
               | None => Err (bs "bad status line")
               | Some w => match parse_u16 w with None => Err (bs "bad status code") | Some code => Ok (code, drop (head_end + 4) raw) end
               end
           end
  end.

(** Reading to the end; a read takes a byte at least. *)
Fixpoint read_response (fuel : nat) (response : list Z) (src : list Readable) : result HttpErr (list Z) :=
  if (MAX_RESPONSE <=? length response)%nat then Err ResponseTooLarge
  else match fuel with
       | O => Err ResponseTooLarge
       | S f =>
           match tcp_read 2048 src with
           | (Ok [], _) => Ok response
           | (Ok c, src) => read_response f (response ++ c) src
           | (Err WouldBlock, _) => Err ReadTimeout
           | (Err _, _) => Err ReadFailed
           end
       end.

Definition request_text (method path : list Z) : list Z :=
  let crlf := [13; 10] in
  method ++ bs " " ++ path ++ bs " HTTP/1.1" ++ crlf ++ bs "Host: localhost:41112" ++ crlf ++ bs "X-Tailscale-Vita-Local: 1" ++ crlf ++
  bs "Connection: close" ++ crlf ++ bs "Content-Length: 0" ++ crlf ++ crlf.

Section Client.
(** The LocalAPI's answer to the bytes of a request, if it can be reached. *)
Context (net : list Z -> option (list Readable)).
(** JSON: a ping's round trip, endpoint and error; an action's error; a snapshot.
    The text of an HTTP error and of an edit's error. *)
Context (ping_json : list Z -> result (list Z) (option Z * option (list Z) * option (list Z)))
        (action_json : list Z -> option (option (list Z)))
        (status_json : list Z -> result (list Z) RuntimeSnapshot)
        (show_err : HttpErr -> list Z) (show_edit_error : EditError -> list Z).

Definition http_req (method path : list Z) : result HttpErr (Z * list Z) :=
  match net (request_text method path) with
  | None => Err RuntimeDown
  | Some src =>
      match read_response (S MAX_RESPONSE) [] src with
      | Err e => Err e
      | Ok raw => match parse_http_response raw with Ok r => Ok r | Err why => Err (BadResponse why) end
      end
  end.

Definition fetch_status : result (list Z) RuntimeSnapshot :=
  match http_req (bs "GET") (bs "/localapi/v0/status") with
  | Err e => Err (show_err e)
  | Ok (status, body) =>
      if negb (status =? 200) then Err (bs "status HTTP " ++ dec status)
      else match status_json body with Ok s => Ok s | Err e => Err (bs "bad status JSON: " ++ e) end
  end.

Definition do_ping (ip : Z) (peer_name : list Z) : list Z * bool :=
  match http_req (bs "GET") (bs "/localapi/v0/ping?ip=" ++ show_ipv4 ip) with
  | Ok (_, body) =>
      match ping_json body with
      | Ok (Some rtt, endpoint, _) =>
          (bs "pong from " ++ peer_name ++ bs ": " ++ dec rtt ++ bs " ms @ " ++ default (bs "?") endpoint, true)
      | Ok (None, _, Some e) => (bs "ping " ++ peer_name ++ bs ": " ++ e, false)
      | Ok (None, _, None) => (bs "ping " ++ peer_name ++ bs ": malformed reply", false)
      | Err e => (bs "ping " ++ peer_name ++ bs ": bad JSON: " ++ e, false)
      end
  | Err e => (bs "ping " ++ peer_name ++ bs ": " ++ show_err e, false)
  end.

(** [do_reconnect] is the same with its own texts. *)
Definition post_lifecycle (path noun accepted : list Z) : list Z * bool :=
  match http_req (bs "POST") path with
  | Ok (status, body) =>
      if status =? 202 then (accepted, true)
      else match action_json body with
           | Some (Some e) => (noun ++ bs " refused: " ++ e, false)
           | _ => (noun ++ bs ": HTTP " ++ dec status, false)
           end
  | Err e => (noun ++ bs ": " ++ show_err e, false)
  end.
Definition do_reconnect : list Z * bool :=
  post_lifecycle (bs "/localapi/v0/reconnect") (bs "reconnect") (bs "reconnect requested — rebuilding session").
Definition do_logout : list Z * bool := post_lifecycle (bs "/localapi/v0/logout") (bs "logout") (bs "logged out — control key expired").
Definition do_login_interactive : list Z * bool :=
  post_lifecycle (bs "/localapi/v0/login-interactive") (bs "login") (bs "re-authenticating...").

(** ** client.rs: the worker *)

Inductive ActionState : Type := Idle | InFlight (label : list Z) | Done (line : list Z) (ok : bool) (at_ : Z).

Inductive UiAction : Type :=
| UaPing (ip : Z) (peer_name : list Z) | UaReconnect | UaToggleFtp (key : list Z) | UaToggleTaildrop | UaCycleTaildropDir
| UaTailnetUp | UaTailnetDown | UaLogout | UaLoginInteractive.

Definition inflight_label (a : UiAction) : list Z :=
  match a with
  | UaPing _ n => bs "pinging " ++ n ++ bs "..." | UaReconnect => bs "reconnecting..." | UaToggleFtp k => bs "saving ftp." ++ k ++ bs "..."
  | UaToggleTaildrop => bs "saving taildrop..." | UaCycleTaildropDir => bs "changing folder..." | UaTailnetUp => bs "starting tailnet..."
  | UaTailnetDown => bs "stopping tailnet..." | UaLogout => bs "logging out..." | UaLoginInteractive => bs "starting login..."
  end.

Record Shared : Type := mkShared {
  sh_snapshot : option RuntimeSnapshot; generation : Z; last_ok_at : option Z; last_error : option (list Z); consecutive_failures : Z;
  action : ActionState; ftp_enabled : option bool; ftp_read_only : option bool; taildrop_enabled : option bool; taildrop_dir : option (list Z)
}.

Definition shared_new : Shared := mkShared None 0 None None 0 Idle None None None None.

Definition set_action (a : ActionState) (s : Shared) : Shared :=
  mkShared (sh_snapshot s) (wrap 64 (generation s + 1)) (last_ok_at s) (last_error s) (consecutive_failures s) a (ftp_enabled s)
    (ftp_read_only s) (taildrop_enabled s) (taildrop_dir s).
Definition set_config (en ro td : option bool) (dir : option (list Z)) (s : Shared) : Shared :=
  mkShared (sh_snapshot s) (generation s) (last_ok_at s) (last_error s) (consecutive_failures s) (action s) en ro td dir.

(** The result of one poll; [consecutive_failures] is a [u32]. *)
Definition on_poll (now : Z) (s : Shared) : Shared :=
  match fetch_status with
  | Ok snap => mkShared (Some snap) (wrap 64 (generation s + 1)) (Some now) None 0 (action s) (ftp_enabled s) (ftp_read_only s)
                 (taildrop_enabled s) (taildrop_dir s)
  | Err e => mkShared (sh_snapshot s) (wrap 64 (generation s + 1)) (last_ok_at s) (Some e) (wrap 32 (consecutive_failures s + 1)) (action s)
               (ftp_enabled s) (ftp_read_only s) (taildrop_enabled s) (taildrop_dir s)
  end.

Section Worker.
Context {W : Type} `{Fs W}.

(** The settings read at the start of the worker. *)
Definition seed_config (w : W) (s : Shared) : Shared :=
  set_config (read_toggle w CONFIG_PATH (bs "ftp") (bs "enabled")) (read_toggle w CONFIG_PATH (bs "ftp") (bs "read_only"))
    (read_toggle w CONFIG_PATH (bs "taildrop") (bs "enabled")) (read_toggle_str w CONFIG_PATH (bs "taildrop") (bs "dir")) s.

Definition do_tailnet_up (w : W) : W * (list Z * bool) :=
  let '(w, _) := apply_set CONFIG_PATH (bs "tailnet") (bs "want_running") true w in
  (w, post_lifecycle (bs "/localapi/v0/up") (bs "tailnet up") (bs "tailnet up — reconnecting")).
Definition do_tailnet_down (w : W) : W * (list Z * bool) :=
  let '(w, _) := apply_set CONFIG_PATH (bs "tailnet") (bs "want_running") false w in
  (w, post_lifecycle (bs "/localapi/v0/down") (bs "tailnet down") (bs "tailnet stopped")).

Definition do_toggle_ftp (key : list Z) (w : W) (s : Shared) : W * Shared * (list Z * bool) :=
  match apply_toggle CONFIG_PATH (bs "ftp") key w with
  | (w, Ok v) =>
      (w, set_config (read_toggle w CONFIG_PATH (bs "ftp") (bs "enabled")) (read_toggle w CONFIG_PATH (bs "ftp") (bs "read_only"))
            (taildrop_enabled s) (taildrop_dir s) s,
       (bs "ftp." ++ key ++ bs " = " ++ show_bool v ++ bs " saved — relaunch to apply", true))
  | (w, Err e) => (w, s, (bs "save ftp." ++ key ++ bs " failed: " ++ show_edit_error e, false))
  end.

Definition do_toggle_taildrop (w : W) (s : Shared) : W * Shared * (list Z * bool) :=
  let current := default false (read_toggle w CONFIG_PATH (bs "taildrop") (bs "enabled")) in
  match apply_set CONFIG_PATH (bs "taildrop") (bs "enabled") (negb current) w with
  | (w, Ok v) => (w, set_config (ftp_enabled s) (ftp_read_only s) (Some v) (taildrop_dir s) s,
                  (bs "taildrop: " ++ (if v then bs "ON" else bs "OFF") ++ bs " (next launch)", true))
  | (w, Err e) => (w, s, (bs "save taildrop.enabled failed: " ++ show_edit_error e, false))
  end.

Definition next_preset (current : list Z) : list Z :=
  let i := match list_find (eq current) TAILDROP_DIR_PRESETS with Some (i, _) => ((i + 1) mod length TAILDROP_DIR_PRESETS)%nat | None => 0%nat end in
  nth i TAILDROP_DIR_PRESETS [].

Definition do_cycle_taildrop_dir (w : W) (s : Shared) : W * Shared * (list Z * bool) :=
  let current := default TAILDROP_DIR_DEFAULT (read_toggle_str w CONFIG_PATH (bs "taildrop") (bs "dir")) in
  match apply_set_str CONFIG_PATH (bs "taildrop") (bs "dir") (next_preset current) w with
  | (w, Ok v) => (w, set_config (ftp_enabled s) (ftp_read_only s) (taildrop_enabled s) (Some v) s, (bs "folder: " ++ v ++ bs " (next launch)", true))
  | (w, Err e) => (w, s, (bs "save taildrop.dir failed: " ++ show_edit_error e, false))
  end.

Definition run_action (now : Z) (a : UiAction) (w : W) (s : Shared) : W * Shared :=
  let s := set_action (InFlight (inflight_label a)) s in
  let '(w, s, (line, ok)) :=
    match a with
    | UaPing ip n => (w, s, do_ping ip n)
    | UaReconnect => (w, s, do_reconnect)
    | UaToggleFtp k => do_toggle_ftp k w s
    | UaToggleTaildrop => do_toggle_taildrop w s
    | UaCycleTaildropDir => do_cycle_taildrop_dir w s
    | UaTailnetUp => let '(w, r) := do_tailnet_up w in (w, s, r)
    | UaTailnetDown => let '(w, r) := do_tailnet_down w in (w, s, r)
    | UaLogout => (w, s, do_logout)
    | UaLoginInteractive => (w, s, do_login_interactive)
    end in
  (w, set_action (Done line ok now) s).
End Worker.
End Client.

(** ** buttons.rs and dashboard.rs *)

Definition UP : Z := 0x10.
Definition RIGHT : Z := 0x20.
Definition DOWN : Z := 0x40.
Definition LEFT : Z := 0x80.
Definition LTRIGGER : Z := 0x100.
Definition RTRIGGER : Z := 0x200.
Definition L1 : Z := 0x400.
Definition R1 : Z := 0x800.
Definition TRIANGLE : Z := 0x1000.
Definition CIRCLE : Z := 0x2000.
Definition CROSS : Z := 0x4000.
Definition TAB_PREV : Z := Z.lor (Z.lor LTRIGGER L1) LEFT.
Definition TAB_NEXT : Z := Z.lor (Z.lor RTRIGGER R1) RIGHT.

(** Milliseconds. *)
Definition REPEAT_FIRST : Z := 250.
Definition REPEAT_NEXT : Z := 120.
Definition STICK_UP : Z := 96.
Definition STICK_DOWN : Z := 160.

Record Repeat : Type := mkRepeat { held_since : option Z; last_fire : Z }.
Definition repeat_tick (held : bool) (now : Z) (r : Repeat) : Repeat * bool :=
  if negb held then (mkRepeat None (last_fire r), false)
  else match held_since r with
       | None => (mkRepeat (Some now) now, true)
       | Some since =>
           if now - since <? REPEAT_FIRST then (r, false)
           else if REPEAT_NEXT <=? now - last_fire r then (mkRepeat (Some since) now, true) else (r, false)
       end.

Inductive Modal : Type := NoModal | PeerDetail (key : list Z) | ConfirmLogout.

Record Ui : Type := mkUi {
  tab : Tab; ui_snapshot : option RuntimeSnapshot; vm : option DashVm; seen_generation : Z;
  peers_selected : nat; selected_key : option (list Z * list Z); settings_selected : nat; debug_scroll : nat; modal : Modal;
  prev_buttons : Z; prev_touch : bool; rep_up : Repeat; rep_down : Repeat
}.

Definition ui_new (now : Z) : Ui := mkUi TPeers None None 0 0 None 0 0 NoModal 0 false (mkRepeat None now) (mkRepeat None now).

(** One frame: the pad, the touch (the tab and the slot of the list it is on), the
    clocks, the worker's state and whether the mailbox, of one place, is full. *)
Record Frame : Type := mkFrame {
  pad_buttons : Z; pad_ly : Z; touch : option (option Tab * option nat); f_now : Z; f_unix : Z; f_shared : Shared; mailbox_full : bool
}.

Definition action_idle (s : Shared) : bool := match action s with InFlight _ => false | _ => true end.

(** [send]: dropped when an action is in flight or the mailbox is full. *)
Definition ui_send (fr : Frame) (a : UiAction) : option UiAction :=
  if action_idle (f_shared fr) && negb (mailbox_full fr) then Some a else None.

Definition bits (x mask : Z) : bool := negb (Z.land x mask =? 0).

(** [u32] and-not. *)
Definition pressed_of (fr : Frame) (u : Ui) : Z := Z.land (pad_buttons fr) (Z.lxor (prev_buttons u) (2 ^ 32 - 1)).

Definition set_modal (m : Modal) (u : Ui) : Ui :=
  mkUi (tab u) (ui_snapshot u) (vm u) (seen_generation u) (peers_selected u) (selected_key u) (settings_selected u) (debug_scroll u) m
    (prev_buttons u) (prev_touch u) (rep_up u) (rep_down u).
Definition set_tab (t : Tab) (u : Ui) : Ui :=
  mkUi t (ui_snapshot u) (vm u) (seen_generation u) (peers_selected u) (selected_key u) (settings_selected u) (debug_scroll u) (modal u)
    (prev_buttons u) (prev_touch u) (rep_up u) (rep_down u).
Definition set_peers (i : nat) (k : option (list Z * list Z)) (u : Ui) : Ui :=
  mkUi (tab u) (ui_snapshot u) (vm u) (seen_generation u) i k (settings_selected u) (debug_scroll u) (modal u)
    (prev_buttons u) (prev_touch u) (rep_up u) (rep_down u).
Definition set_settings (i : nat) (u : Ui) : Ui :=
  mkUi (tab u) (ui_snapshot u) (vm u) (seen_generation u) (peers_selected u) (selected_key u) i (debug_scroll u) (modal u)
    (prev_buttons u) (prev_touch u) (rep_up u) (rep_down u).
Definition set_scroll (i : nat) (u : Ui) : Ui :=
  mkUi (tab u) (ui_snapshot u) (vm u) (seen_generation u) (peers_selected u) (selected_key u) (settings_selected u) i (modal u)
    (prev_buttons u) (prev_touch u) (rep_up u) (rep_down u).

Section Loop.
Context (show6 : SocketAddr -> list Z) (lower : list Z -> list Z) (values : gmap (list Z) PeerView -> list PeerView)
        (VIEWPORT_ROWS : nat) (build_stamp : list Z).

(** Input that is always read: presses, repeats, the tap. *)
Definition read_input (fr : Frame) (u : Ui) : Ui * bool * bool * option (option Tab * option nat) :=
  let '(ru, fire_up) := repeat_tick (bits (pad_buttons fr) UP || (pad_ly fr <? STICK_UP)) (f_now fr) (rep_up u) in
  let '(rd, fire_down) := repeat_tick (bits (pad_buttons fr) DOWN || (STICK_DOWN <? pad_ly fr)) (f_now fr) (rep_down u) in
  let tap := if prev_touch u then None else touch fr in
  (mkUi (tab u) (ui_snapshot u) (vm u) (seen_generation u) (peers_selected u) (selected_key u) (settings_selected u) (debug_scroll u) (modal u)
     (pad_buttons fr) (bool_decide (is_Some (touch fr))) ru rd, fire_up, fire_down, tap).

(** The view model is rebuilt when the worker has something new, and the cursor
    follows the selected peer. *)
Definition pull (fr : Frame) (u : Ui) : Ui :=
  let s := f_shared fr in
  if generation s =? seen_generation u then u
  else
    match sh_snapshot s with
    | None => mkUi (tab u) (ui_snapshot u) (vm u) (generation s) (peers_selected u) (selected_key u) (settings_selected u) (debug_scroll u)
                (modal u) (prev_buttons u) (prev_touch u) (rep_up u) (rep_down u)
    | Some snap =>
        let v := build show6 lower values snap (f_unix fr) in
        let sel := match selected_key u with
                   | Some (n, ip) => match list_find (fun r => row_name r = n /\ row_ip r = ip) (rows v) with Some (i, _) => i | None => peers_selected u end
                   | None => peers_selected u
                   end in
        mkUi (tab u) (Some snap) (Some v) (generation s) sel (selected_key u) (settings_selected u) (debug_scroll u) (modal u) (prev_buttons u)
          (prev_touch u) (rep_up u) (rep_down u)
    end.

Definition login_view (u : Ui) : bool := match ui_snapshot u with Some s => bool_decide (lifecycle s = NeedsLogin) | None => false end.

Definition login_input (fr : Frame) (pressed : Z) (u : Ui) : option UiAction :=
  match ui_snapshot u with
  | Some s =>
      match classify (bool_decide (is_Some (sn_auth_url s))) (login_in_progress s) with
      | LmLoggedOut => if bits pressed CROSS then ui_send fr UaLoginInteractive else None
      | Starting | Qr => if bits pressed CIRCLE then ui_send fr UaTailnetDown else None
      end
  | None => None
  end.

(** Arrow keys on a list: up first, then down. *)
Definition move (fire_up fire_down : bool) (len i : nat) : nat :=
  let i := if fire_up && (0 <? i)%nat then (i - 1)%nat else i in
  if fire_down && (i + 1 <? len)%nat then (i + 1)%nat else i.

(** The indexing of the rows panics when out of range. *)
Definition peers_input (fr : Frame) (pressed : Z) (fire_up fire_down : bool) (tap : option (option Tab * option nat)) (u : Ui) :
    outcome (Ui * option UiAction) :=
  match vm u with
  | None => Val (u, None)
  | Some v =>
      let len := length (rows v) in
      if (len =? 0)%nat then Val (u, None)
      else
        let sel := move fire_up fire_down len (Nat.min (peers_selected u) (len - 1)) in
        let sel := match tap with
                   | Some (_, Some slot) => let idx := ((scroll_window len sel VIEWPORT_ROWS).1 + slot)%nat in if (idx <? len)%nat then idx else sel
                   | _ => sel
                   end in
        match rows v !! sel with
        | None => Panicked
        | Some row =>
            let u := set_peers sel (Some (row_name row, row_ip row)) u in
            let act := if bits pressed CROSS then ip ← ping_ip row; ui_send fr (UaPing ip (row_name row)) else None in
            Val (if bits pressed CIRCLE then set_modal (PeerDetail (row_key row)) u else u, act)
        end
  end.

Definition settings_input (fr : Frame) (pressed : Z) (fire_up fire_down : bool) (u : Ui) : outcome (Ui * option UiAction) :=
  let i := move fire_up fire_down (length SettingRow_ALL) (settings_selected u) in
  let u := set_settings i u in
  if negb (bits pressed CROSS) then Val (u, None)
  else
    match SettingRow_ALL !! i with
    | None => Panicked
    | Some FtpEnabled => Val (u, ui_send fr (UaToggleFtp (bs "enabled")))
    | Some FtpReadOnly => Val (u, ui_send fr (UaToggleFtp (bs "read_only")))
    | Some TaildropEnabled => Val (u, ui_send fr UaToggleTaildrop)
    | Some TaildropDir => Val (u, ui_send fr UaCycleTaildropDir)
    | Some TailnetToggle =>
        let stopped := match ui_snapshot u with Some s => bool_decide (lifecycle s = Stopped) | None => false end in
        Val (u, ui_send fr (if stopped then UaTailnetUp else UaTailnetDown))
    | Some Reconnect => Val (u, ui_send fr UaReconnect)
    | Some Reauthenticate => Val (u, ui_send fr UaLoginInteractive)
    | Some LogoutRow => Val (set_modal ConfirmLogout u, None)
    end.

Definition tabs_input (fr : Frame) (pressed : Z) (fire_up fire_down : bool) (tap : option (option Tab * option nat)) (u : Ui) :
    outcome (Ui * option UiAction) :=
  let t := if bits pressed TAB_PREV then Tab_prev (tab u) else tab u in
  let t := if bits pressed TAB_NEXT then Tab_next t else t in
  let t := match tap with Some (Some t', _) => t' | _ => t end in
  let u := set_tab t u in
  match t with
  | TPeers => peers_input fr pressed fire_up fire_down tap u
  | TSettings => settings_input fr pressed fire_up fire_down u
  | TDebug =>
      let d := if fire_down then S (debug_scroll u) else debug_scroll u in
      Val (set_scroll (if fire_up then (d - 1)%nat else d) u, None)
  end.

(** What drawing does to the state: the scroll position is kept in range and
    the details of a peer that is gone are closed. *)
Definition draw_effects (fr : Frame) (u : Ui) : Ui :=
  if login_view u then u
  else match vm u, ui_snapshot u with
       | Some v, Some s =>
           let u := match tab u with
                    | TDebug => set_scroll (Nat.min (debug_scroll u) (length (build_debug_rows show6 s (f_unix fr) build_stamp) - 1)) u
                    | _ => u
                    end in
           match modal u with PeerDetail k => if bool_decide (is_Some (peers s !! k)) then u else set_modal NoModal u | _ => u end
       | _, _ => u
       end.

(** A frame: the new state and what went into the mailbox. *)
Definition frame (fr : Frame) (u : Ui) : outcome (Ui * option UiAction) :=
  let pressed := pressed_of fr u in
  let '(u, fire_up, fire_down, tap) := read_input fr u in
  let u := pull fr u in
  '(u, sent) ← (
    if login_view u then Val (u, login_input fr pressed u)
    else match modal u with
         | PeerDetail _ => Val (if bits pressed (Z.lor (Z.lor CIRCLE TRIANGLE) CROSS) then set_modal NoModal u else u, None)
         | ConfirmLogout =>
             if bits pressed CROSS then
               if confirm_dismisses (action_idle (f_shared fr)) then Val (set_modal NoModal u, ui_send fr UaLogout) else Val (u, None)
             else Val (if bits pressed (Z.lor CIRCLE TRIANGLE) then set_modal NoModal u else u, None)
         | NoModal => tabs_input fr pressed fire_up fire_down tap u
         end);
  Val (draw_effects fr u, sent).

Fixpoint frames (frs : list Frame) (u : Ui) : outcome (Ui * list (option UiAction)) :=
  match frs with
  | [] => Val (u, [])
  | fr :: frs => '(u, a) ← frame fr u; '(u, l) ← frames frs u; Val (u, a :: l)
  end.
End Loop.

(** * Lemmas *)

(** ** Frames *)

Lemma move_lt u d len i : (i < len)%nat -> (move u d len i < len)%nat.
Proof. intros Hi. unfold move. destruct u, d; cbn [andb]; repeat case_match; repeat (match goal with H : (_ <? _)%nat = _ |- _ => first [apply Nat.ltb_lt in H|apply Nat.ltb_ge in H] end); lia. Qed.

Section Frames.
Context (show6 : SocketAddr -> list Z) (lower : list Z -> list Z) (values : gmap (list Z) PeerView -> list PeerView)
        (VIEWPORT_ROWS : nat) (build_stamp : list Z).

#[local] Abbreviation frame := (frame show6 lower values VIEWPORT_ROWS build_stamp).
#[local] Abbreviation frames := (frames show6 lower values VIEWPORT_ROWS build_stamp).

Lemma peers_input_spec fr pressed up down tap u : exists u' a, peers_input VIEWPORT_ROWS fr pressed up down tap u = Val (u', a) /\
  settings_selected u' = settings_selected u /\ tab u' = tab u /\ prev_buttons u' = prev_buttons u /\ ui_snapshot u' = ui_snapshot u /\
  (modal u' = modal u \/ exists k, modal u' = PeerDetail k) /\ a <> Some UaLogout.
Proof.
  unfold peers_input. destruct (vm u) as [v|]; [|by eexists _, _; split_and!; try reflexivity; try (by left)].
  destruct (Nat.eqb_spec (length (rows v)) 0); [by eexists _, _; split_and!; try reflexivity; try (by left)|].
  set (sel0 := move up down _ _). assert (H0 : (sel0 < length (rows v))%nat) by (apply move_lt; lia).
  set (sel := match tap with Some (_, Some slot) => _ | _ => sel0 end). assert (Hs : (sel < length (rows v))%nat).
  { unfold sel. destruct tap as [[t [slot|]]|]; try done. cbv zeta. destruct (Nat.ltb_spec ((scroll_window (length (rows v)) sel0 VIEWPORT_ROWS).1 + slot) (length (rows v))); done. }
  destruct (lookup_lt_is_Some_2 (rows v) sel Hs) as [row ->].
  assert (Ha : (if bits pressed CROSS then ip ← ping_ip row; ui_send fr (UaPing ip (row_name row)) else None) <> Some UaLogout).
  { destruct (bits pressed CROSS); [|done]. destruct (ping_ip row); [|done]. cbn. unfold ui_send. by destruct (_ && _). }
  eexists _, _. split; [reflexivity|]. destruct (bits pressed CIRCLE); cbn; split_and!; try done; [right; by eexists|by left].
Qed.

Lemma settings_input_spec fr pressed up down u : (settings_selected u < 8)%nat ->
  exists u' a, settings_input fr pressed up down u = Val (u', a) /\
    (settings_selected u' < 8)%nat /\ tab u' = tab u /\ prev_buttons u' = prev_buttons u /\ ui_snapshot u' = ui_snapshot u /\
    (modal u' = modal u \/ (modal u' = ConfirmLogout /\ settings_selected u' = 7%nat /\ bits pressed CROSS = true)) /\ a <> Some UaLogout.
Proof.
  intros Hs. unfold settings_input. set (i := move up down _ _). assert (Hi : (i < 8)%nat) by (by apply (move_lt _ _ 8)).
  destruct (bits pressed CROSS) eqn:Ex; cbn [negb]; [|by eexists _, _; split_and!; try reflexivity; try done; left].
  do 8 (destruct i as [|i]; [cbn; eexists _, _; split; [reflexivity|]; cbn; unfold ui_send; repeat case_match; split_and!; try done; try lia; (by left) || (by right)|]).
  lia.
Qed.

(** The keys the loop looks at. *)
Lemma read_input_keeps fr u : let '(u', _, _, _) := read_input fr u in
  prev_buttons u' = pad_buttons fr /\ settings_selected u' = settings_selected u /\ tab u' = tab u /\ modal u' = modal u.
Proof.
  unfold read_input. destruct (repeat_tick _ _ (rep_up u)), (repeat_tick _ _ (rep_down u)). done.
Qed.

Lemma pull_keeps fr u : prev_buttons (pull show6 lower values fr u) = prev_buttons u /\
  settings_selected (pull show6 lower values fr u) = settings_selected u /\ tab (pull show6 lower values fr u) = tab u /\
  modal (pull show6 lower values fr u) = modal u.
Proof. unfold pull. repeat case_match; done. Qed.

Lemma draw_keeps fr u : prev_buttons (draw_effects show6 build_stamp fr u) = prev_buttons u /\
  settings_selected (draw_effects show6 build_stamp fr u) = settings_selected u /\ tab (draw_effects show6 build_stamp fr u) = tab u /\
  (modal (draw_effects show6 build_stamp fr u) = modal u \/ modal (draw_effects show6 build_stamp fr u) = NoModal).
Proof. unfold draw_effects. repeat case_match; split_and!; try done; cbn; auto. Qed.

(** What holds between frames. *)
Record ui_inv (u : Ui) : Prop := {
  ui_settings : (settings_selected u < 8)%nat;
  ui_confirm : modal u = ConfirmLogout -> tab u = TSettings /\ settings_selected u = 7%nat
}.

Lemma frame_spec fr u : ui_inv u -> exists u' a, frame fr u = Val (u', a) /\ ui_inv u' /\ prev_buttons u' = pad_buttons fr /\
  (modal u' = ConfirmLogout -> modal u = ConfirmLogout \/ bits (pressed_of fr u) CROSS = true) /\
  (a = Some UaLogout -> modal u = ConfirmLogout /\ bits (pressed_of fr u) CROSS = true).
Proof.
  intros [I1 I2]. unfold Dashboard.frame. set (pressed := pressed_of fr u).
  pose proof (read_input_keeps fr u) as R. destruct (read_input fr u) as [[[u1 up] down] tap]. destruct R as (R1 & R2 & R3 & R4).
  destruct (pull_keeps fr u1) as (P1 & P2 & P3 & P4). set (u2 := pull show6 lower values fr u1) in *.
  rewrite R1 in P1. rewrite R2 in P2. rewrite R3 in P3. rewrite R4 in P4.
  assert (G : exists u3 a, (if login_view u2 then Val (u2, login_input fr pressed u2)
      else match modal u2 with
           | PeerDetail _ => Val (if bits pressed (Z.lor (Z.lor CIRCLE TRIANGLE) CROSS) then set_modal NoModal u2 else u2, None)
           | ConfirmLogout =>
               if bits pressed CROSS then
                 if confirm_dismisses (action_idle (f_shared fr)) then Val (set_modal NoModal u2, ui_send fr UaLogout) else Val (u2, None)
               else Val (if bits pressed (Z.lor CIRCLE TRIANGLE) then set_modal NoModal u2 else u2, None)
           | NoModal => tabs_input VIEWPORT_ROWS fr pressed up down tap u2
           end) = Val (u3, a) /\ ui_inv u3 /\ prev_buttons u3 = pad_buttons fr /\
      (modal u3 = ConfirmLogout -> modal u = ConfirmLogout \/ bits pressed CROSS = true) /\
      (a = Some UaLogout -> modal u = ConfirmLogout /\ bits pressed CROSS = true)).
  { assert (V2 : ui_inv u2) by (split; [by rewrite P2|rewrite P2, P3, P4; done]).
    destruct (login_view u2).
    { eexists _, _. split; [reflexivity|]. split_and!; [done|done|rewrite P4; auto|]. unfold login_input, ui_send. repeat case_match; done. }
    destruct (modal u2) as [|k|] eqn:Em; rewrite <- P4.
    - unfold tabs_input. set (t := match tap with Some (Some t', _) => t' | _ => _ end). destruct t.
      + destruct (peers_input_spec fr pressed up down tap (set_tab TPeers u2)) as (u3 & a & -> & S1 & S2 & S3 & S4 & S5 & S6). exists u3, a.
        cbn in S1, S2, S3, S4, S5. split_and!; [done| |by rewrite S3| |done].
        * split; [by rewrite S1, P2|]. rewrite S1, S2. destruct S5 as [->|[k ->]]; [by rewrite Em|done].
        * destruct S5 as [->|[k ->]]; [by rewrite Em|done].
      + destruct (settings_input_spec fr pressed up down (set_tab TSettings u2)) as (u3 & a & -> & S1 & S2 & S3 & S4 & S5 & S6); [by cbn; rewrite P2|].
        exists u3, a. cbn in S2, S3, S4, S5. split_and!; [done| |by rewrite S3| |done].
        * split; [done|]. rewrite S2. destruct S5 as [->|(_ & -> & _)]; [by rewrite Em|done].
        * destruct S5 as [->|(_ & _ & ->)]; [by rewrite Em|auto].
      + eexists _, _. split; [reflexivity|]. cbn. split_and!; [split; cbn; [by rewrite P2|by rewrite Em]|done|by rewrite Em|done].
    - eexists _, _. split; [reflexivity|]. destruct (bits pressed _); split_and!; try done; try (by rewrite Em). split; cbn; [by rewrite P2|done].
    - destruct (bits pressed CROSS); [destruct (confirm_dismisses _)|]; eexists _, _; (split; [reflexivity|]); split_and!; try done; auto.
      + split; cbn; [by rewrite P2|done].
      + destruct (bits pressed (Z.lor CIRCLE TRIANGLE)); [split; cbn; [by rewrite P2|done]|done].
      + destruct (bits pressed (Z.lor CIRCLE TRIANGLE)); done. }
  destruct G as (u3 & a & -> & G1 & G2 & G3 & G4). cbn [mbind outcome_bind]. destruct (draw_keeps fr u3) as (D1 & D2 & D3 & D4).
  eexists _, _. split; [reflexivity|]. split_and!; [|by rewrite D1| |done].
  - destruct G1 as [J1 J2]. split; [by rewrite D2|]. rewrite D2, D3. destruct D4 as [->| ->]; done.
  - destruct D4 as [->| ->]; done.
Qed.

Definition held (fr : Frame) : bool := bits (pad_buttons fr) CROSS.

Lemma bits_cross x : bits x CROSS = Z.testbit x 14.
Proof.
  unfold bits. change CROSS with (2 ^ 14). destruct (Z.testbit x 14) eqn:E.
  - apply negb_true_iff, Z.eqb_neq. intros H0. apply (f_equal (fun z => Z.testbit z 14)) in H0. rewrite Z.land_spec, E, Z.bits_0 in H0. done.
  - apply negb_false_iff, Z.eqb_eq, Z.bits_inj'. intros n Hn. rewrite Z.land_spec, Z.bits_0, Z.pow2_bits_eqb by lia.
    destruct (Z.eqb_spec 14 n) as [<-|]; [by rewrite E|apply andb_false_r].
Qed.

Lemma pressed_cross fr u : bits (pressed_of fr u) CROSS = true -> held fr = true /\ bits (prev_buttons u) CROSS = false.
Proof.
  unfold held. rewrite !bits_cross. unfold pressed_of. rewrite Z.land_spec, Z.lxor_spec. change (Z.testbit (2 ^ 32 - 1) 14) with true.
  by destruct (Z.testbit (pad_buttons fr) 14), (Z.testbit (prev_buttons u) 14).
Qed.

(** The state before a frame of a run that sends a logout, and the frames that
    led there. *)
Definition confirmed (all frs : list Frame) (k n : nat) (u : Ui) : Prop :=
  exists un l i j fi fj fn, frames (take n frs) u = Val (un, l) /\ modal un = ConfirmLogout /\ tab un = TSettings /\
    SettingRow_ALL !! settings_selected un = Some LogoutRow /\ (i < j < k + n)%nat /\
    all !! i = Some fi /\ all !! j = Some fj /\ frs !! n = Some fn /\ held fi = true /\ held fj = false /\ held fn = true.

Lemma frames_run frs : forall u pre,
  ui_inv u -> (modal u = ConfirmLogout -> exists i fi, pre !! i = Some fi /\ held fi = true) ->
  bits (prev_buttons u) CROSS = match list.last pre with Some fr => held fr | None => false end ->
  exists u' sent, frames frs u = Val (u', sent) /\ length sent = length frs /\
    forall n, sent !! n = Some (Some UaLogout) -> confirmed (pre ++ frs) frs (length pre) n u.
Proof.
  induction frs as [|fr frs IH]; intros u pre Hi Hm Hp; [by exists u, []|].
  destruct (frame_spec fr u Hi) as (u1 & a & E & Hi1 & Hp1 & Hm1 & Ha).
  destruct (IH u1 (pre ++ [fr])) as (u' & sent & E2 & Hlen & Hs); [done| |rewrite list.last_snoc, Hp1; done|].
  { intros Hc. destruct (Hm1 Hc) as [Hc0|Hx].
    - destruct (Hm Hc0) as (i & fi & Hl & Hh). exists i, fi. split; [by apply lookup_app_l_Some|done].
    - exists (length pre), fr. split; [by rewrite lookup_app_r, Nat.sub_diag by lia|by apply pressed_cross in Hx as [? _]]. }
  exists u', (a :: sent). cbn [Dashboard.frames]. rewrite E. cbn [mbind outcome_bind]. rewrite E2. cbn [mbind outcome_bind].
  split_and!; [done|by cbn; rewrite Hlen|]. intros [|n] Hn.
  - cbn in Hn. injection Hn as ->. destruct (Ha eq_refl) as [Hc Hx]. apply pressed_cross in Hx as [Hx Hx0].
    destruct (ui_confirm u Hi Hc) as [Ht Hset]. destruct (Hm Hc) as (i & fi & Hl & Hh). rewrite Hp in Hx0.
    destruct (list.last pre) as [fj|] eqn:El; [|by apply list.last_None in El; subst pre].
    rewrite list.last_lookup in El. pose proof (lookup_lt_Some _ _ _ Hl). assert (i <> pred (length pre)) by (intros ->; congruence).
    exists u, [], i, (pred (length pre)), fi, fj, fr. rewrite Hset. split_and!; try done; try lia; by apply lookup_app_l_Some.
  - destruct (Hs n Hn) as (un & l & i & j & fi & fj & fn & F1 & F2 & F3 & F4 & F5 & F6 & F7 & F8 & F9 & F10 & F11).
    rewrite length_app, <- app_assoc in *. cbn [length] in F5. exists un, (a :: l), i, j, fi, fj, fn. cbn [take Dashboard.frames]. rewrite E. cbn [mbind outcome_bind].
    rewrite F1. cbn [mbind outcome_bind]. split_and!; try done; lia.
Qed.
End Frames.

(** ** Requests and answers *)

Lemma find_crlf_line l r : 13 ∉ l ->
  find_crlfcrlf (l ++ 13 :: 10 :: r) = if decide (take 2 r = [13; 10]) then Some (length l) else (fun i => (length l + 2 + i)%nat) <$> find_crlfcrlf r.
Proof.
  induction l as [|c l IH]; intros Hl.
  - cbn [app find_crlfcrlf length]. change (take 4 (13 :: 10 :: r)) with (13 :: 10 :: take 2 r).
    destruct (decide (take 2 r = [13; 10])) as [E|E]; [by rewrite E, decide_True|]. rewrite decide_False by congruence.
    rewrite decide_False by (destruct r as [|? [|? ?]]; discriminate). by destruct (find_crlfcrlf r).
  - apply not_elem_of_cons in Hl as [Hc Hl]. cbn [app find_crlfcrlf length]. rewrite decide_False by (cbn; congruence). rewrite IH by done.
    case_decide; [done|]. by destruct (find_crlfcrlf r).
Qed.

(** The statuses of the LocalAPI. *)
Definition statuses : list Z := [200; 202; 400; 403; 404; 405; 409; 413; 500; 503].

Definition status_line (st : Z) : list Z := bs "HTTP/1.1 " ++ dec st ++ bs " " ++ reason_phrase st.

Lemma ascii_b l : forallb (fun c => (0 <=? c) && (c <? 128)) l = true -> Forall ascii l.
Proof.
  rewrite forallb_forall, list.Forall_forall. intros Hl c Hc. apply list_elem_of_In, Hl in Hc. unfold ascii. lia.
Qed.

Lemma status_line_facts st : st ∈ statuses ->
  (13 ∉ status_line st) /\ (10 ∉ status_line st) /\ Forall ascii (status_line st) /\ second_word (status_line st) = Some (dec st) /\ parse_u16 (dec st) = Some st.
Proof.
  intros Hin. repeat (apply elem_of_cons in Hin as [->|Hin]); [..|by apply not_elem_of_nil in Hin];
    (split_and!; [apply (bool_decide_unpack _); vm_compute; done|apply (bool_decide_unpack _); vm_compute; done
      |apply ascii_b; vm_compute; reflexivity|vm_compute; reflexivity|vm_compute; reflexivity]).
Qed.

Lemma first_line l r : 10 ∉ l -> lines (l ++ [13; 10] ++ r) = l :: lines r.
Proof.
  intros Hl. unfold lines. change (l ++ [13; 10] ++ r) with (l ++ [13] ++ 10 :: r). rewrite app_assoc, split_on_app.
  2:{ rewrite not_elem_of_app. split; [done|]. by apply (bool_decide_unpack _). }
  pose proof (split_on_ne 10 r). destruct (split_on 10 r) as [|q qs]; [done|]. cbn [lines_of]. f_equal.
  unfold strip_cr. rewrite reverse_app. change (reverse [13]) with [13]. cbn [app]. apply reverse_involutive.
Qed.

Lemma response_roundtrip st body : st ∈ statuses -> parse_http_response (json_response st body) = Ok (st, body).
Proof.
  intros Hst. destruct (status_line_facts st Hst) as (S1 & S2 & S3 & S4 & S5).
  set (l3 := bs "Content-Length: " ++ dec (Z.of_nat (length body))).
  set (rest := bs "Content-Type: application/json" ++ [13; 10] ++ l3 ++ [13; 10] ++ bs "Connection: close").
  assert (E : json_response st body = (status_line st ++ [13; 10] ++ rest) ++ [13; 10; 13; 10] ++ body).
  { unfold json_response, rest, l3, status_line. rewrite <- !app_assoc. reflexivity. }
  assert (Hl3 : 13 ∉ l3) by (unfold l3; rewrite not_elem_of_app; split; [by apply (bool_decide_unpack _)|apply dec_no_char; lia]).
  assert (Hf : find_crlfcrlf (json_response st body) = Some (length (status_line st ++ [13; 10] ++ rest))).
  { rewrite E. unfold rest. rewrite <- !app_assoc. cbn [app]. rewrite find_crlf_line by done.
    rewrite decide_False by (vm_compute; discriminate).
    rewrite find_crlf_line by (apply (bool_decide_unpack _); vm_compute; done). rewrite decide_False by (vm_compute; discriminate).
    rewrite find_crlf_line by done. rewrite decide_False by (vm_compute; discriminate).
    rewrite find_crlf_line by (apply (bool_decide_unpack _); vm_compute; done). rewrite decide_True by done. cbn [fmap option_fmap option_map].
    f_equal. repeat first [rewrite length_app|progress cbn [length app]]. lia. }
  unfold parse_http_response. rewrite Hf. set (hd := status_line st ++ [13; 10] ++ rest) in *. rewrite E.
  rewrite (take_app_len hd) by done. rewrite utf8_ascii; cbn [negb].
  - assert (lines hd = status_line st :: lines rest) as -> by (unfold hd; by rewrite first_line). rewrite S4, S5. do 2 f_equal.
    rewrite (app_assoc hd). apply drop_app_len. rewrite length_app. cbn [length]. lia.
  - unfold hd, rest, l3. rewrite !Forall_app. split_and!; try done; try (apply ascii_b; reflexivity).
    eapply list.Forall_impl; [apply dec_digits; lia|]. unfold ascii. cbn. lia.
Qed.

Lemma max_response_val : Z.of_nat MAX_RESPONSE = 524288.
Proof. unfold MAX_RESPONSE. lia. Qed.
#[global] Opaque MAX_RESPONSE.

Lemma read_response_spec f : forall acc c, (length acc + length c < MAX_RESPONSE)%nat -> (length c < f)%nat ->
  read_response f acc [Data c; Closed] = Ok (acc ++ c).
Proof.
  induction f as [|f IH]; intros acc c Hm Hf; [lia|]. cbn [read_response]. rewrite (proj2 (Nat.leb_gt _ _)) by lia. cbn [tcp_read].
  case_decide as Hd.
  - destruct c as [|x c]; [by rewrite app_nil_r|]. destruct f as [|f]; [cbn in Hf; lia|]. cbn [read_response].
    rewrite (proj2 (Nat.leb_gt _ _)) by (rewrite length_app; lia). done.
  - assert (Ht : length (take 2048 c) = 2048%nat) by (rewrite length_take; lia). destruct (take 2048 c) as [|x t] eqn:Et; [done|]. rewrite <- Et in *.
    rewrite IH.
    + by rewrite <- app_assoc, take_drop.
    + rewrite length_app, length_drop. lia.
    + rewrite length_drop. lia.
Qed.

Lemma request_head m p : 13 ∉ m ++ p -> is_head (request_text m p).
Proof.
  intros Hm. apply not_elem_of_app in Hm as [Hm Hp]. set (l1 := m ++ bs " " ++ p ++ bs " HTTP/1.1").
  assert (H1 : 13 ∉ l1) by (unfold l1; rewrite !not_elem_of_app; split_and!; try done; by apply (bool_decide_unpack _)).
  assert (E : request_text m p = l1 ++ 13 :: 10 :: bs "Host: localhost:41112" ++ 13 :: 10 :: bs "X-Tailscale-Vita-Local: 1" ++ 13 :: 10 ::
              bs "Connection: close" ++ 13 :: 10 :: bs "Content-Length: 0" ++ [13; 10; 13; 10]).
  { unfold request_text, l1. rewrite <- !app_assoc. reflexivity. }
  rewrite E. unfold is_head. rewrite find_crlf_line by done. rewrite decide_False by (vm_compute; discriminate).
  eexists. split; [by vm_compute (find_crlfcrlf (bs _ ++ _))|]. rewrite length_app. cbn. lia.
Qed.

(** The headers the client sends, as httparse returns them. *)
Definition client_headers : list (list Z * list Z) :=
  [(bs "Host", bs "localhost:41112"); (bs "X-Tailscale-Vita-Local", bs "1"); (bs "Connection", bs "close"); (bs "Content-Length", bs "0")].

Lemma act_status to_vec sig ctx : (act to_vec sig ctx).2.1 ∈ statuses.
Proof.
  unfold act, reconnect, control_action, send_signal.
  destruct (is_fatal (lifecycle (snapshot ctx))), (bool_decide (lifecycle (snapshot ctx) = Stopped)), (loop_alive ctx), sig as [|[]| |];
    apply (bool_decide_unpack _); vm_compute; done.
Qed.

Lemma read_client_request parse_head sig :
  parse_head (request_text (bs "POST") (route (endpoint_of sig))) = Complete (Some (bs "POST")) (Some (route (endpoint_of sig))) client_headers ->
  read_request parse_head [Data (request_text (bs "POST") (route (endpoint_of sig)))] =
    Ok (mkRequest (bs "POST") (route (endpoint_of sig)) [] [] true).
Proof.
  intros Hp. set (req := request_text _ _) in *.
  destruct (read_request_whole parse_head [Data req] req [] [] (bs "POST") (route (endpoint_of sig)) client_headers) as (path & query & -> & Hq).
  - apply request_head. destruct sig as [|[]| |]; apply (bool_decide_unpack _); vm_compute; done.
  - done.
  - vm_compute. done.
  - pose proof max_request_val. assert (length req <= 200)%nat; [|cbn [length]; lia]. unfold req. apply Nat.leb_le. by destruct sig as [|[]| |]; vm_compute.
  - split; [|done]. repeat constructor. unfold req. by destruct sig as [|[]| |].
  - unfold data. cbn. by rewrite !app_nil_r.
  - change (action_header_in client_headers) with true.
    assert (H63 : 63 ∉ route (endpoint_of sig)) by (destruct sig as [|[]| |]; apply (bool_decide_unpack _); vm_compute; done).
    destruct Hq as [Hq|(-> & -> & _)]; [|done]. exfalso. apply H63. rewrite Hq. apply elem_of_app. right. by left.
Qed.

(** * Theorems *)

(** a logout takes two presses.  The loop never panics, whatever the pad, the
    screen, the network and the clock do; and it sends a logout only from the
    confirmation that was opened on the logout row of the settings, on a press
    of X that began after an earlier press of X had been released. *)
Theorem dashboard_logout_confirmed show6 lower values viewport stamp now frs :
  exists u sent, frames show6 lower values viewport stamp frs (ui_new now) = Val (u, sent) /\ length sent = length frs /\
    forall n, sent !! n = Some (Some UaLogout) -> confirmed show6 lower values viewport stamp frs frs 0 n (ui_new now).
Proof.
  destruct (frames_run show6 lower values viewport stamp frs (ui_new now) []) as (u & sent & E & Hl & Hs); [split; [cbn; lia|done]|done|done|].
  by exists u, sent.
Qed.

(** C23: the buttons reach the runtime.  When the client's request is answered by
    the LocalAPI, the client reports an action as accepted exactly when the
    runtime was sent its signal, and sends no other. *)
Theorem dashboard_drives_runtime to_vec values parse_head now ctx sig net action_json show_err noun accepted :
  parse_head (request_text (bs "POST") (route (endpoint_of sig))) = Complete (Some (bs "POST")) (Some (route (endpoint_of sig))) client_headers ->
  let '(sigs, out) := handle_one to_vec values parse_head now [Data (request_text (bs "POST") (route (endpoint_of sig)))] ctx in
  net (request_text (bs "POST") (route (endpoint_of sig))) = (fun o => [Data o; Closed]) <$> out ->
  (length (default [] out) < MAX_RESPONSE)%nat ->
  let shown := post_lifecycle net action_json show_err (route (endpoint_of sig)) noun accepted in
  (shown.2 = true <-> sigs = [sig]) /\ (shown.2 = true -> shown.1 = accepted) /\ (sigs = [sig] \/ sigs = []).
Proof.
  intros Hp. unfold handle_one. rewrite (read_client_request parse_head sig Hp). rewrite dispatch_post by done. cbn [has_action_header rq_path].
  rewrite (find_endpoint sig) by done. pose proof (act_status to_vec sig ctx) as Hst. destruct (act_spec to_vec sig ctx) as (st & body & Ea & E202 & _).
  rewrite Ea in *. cbn [fst snd] in Hst. cbn [fmap option_fmap option_map default]. intros Hnet Hlen. cbv zeta.
  change (length (json_response st body) < MAX_RESPONSE)%nat in Hlen.
  unfold post_lifecycle, http_req. rewrite Hnet, read_response_spec by (cbn [length]; lia). cbn [app]. rewrite response_roundtrip by done.
  destruct (admits (lifecycle (snapshot ctx)) sig && loop_alive ctx) eqn:Ead.
  - rewrite (proj2 E202 eq_refl). cbn. split_and!; [done|done|by left].
  - destruct (Z.eqb_spec st 202) as [->|]; [discriminate (proj1 E202 eq_refl)|].
    split_and!; [|by destruct (action_json body) as [[e|]|]|by right]. by destruct (action_json body) as [[e|]|].
Qed.

(** A confirmation can still be lost: the loop takes the worker to be idle while
    an action waits in the mailbox, closes the question and sends nothing. *)
Theorem dashboard_confirm_lost :
  let u := mkUi TSettings None None 0 0 None 7 0 ConfirmLogout 0 false (mkRepeat None 0) (mkRepeat None 0) in
  let fr := mkFrame CROSS 128 None 20 20 shared_new true in
  exists u', frame (fun _ => []) (fun x => x) (fun _ => []) 9 [] fr u = Val (u', None) /\ modal u' = NoModal.
Proof. eexists. split; [vm_compute; reflexivity|reflexivity]. Qed.

(** ** Examples *)

Definition up_request : list Z := request_text (bs "POST") (route (endpoint_of (SetWantRunning true))).
Definition up_parse (head : list Z) : HeadParse :=
  if decide (head = up_request) then Complete (Some (bs "POST")) (Some (bs "/localapi/v0/up")) client_headers else Malformed.

(** The "up" button on a stopped node. *)
Lemma dashboard_drives_runtime_witness :
  let '(sigs, out) := handle_one (fun _ => None) (fun _ => []) up_parse 7 [Data up_request] (mkCtx (toy_snapshot Stopped) true (fun _ => Err [])) in
  sigs = [SetWantRunning true] /\
  (post_lifecycle (fun _ => (fun o => [Data o; Closed]) <$> out) (fun _ => None) (fun _ => []) (bs "/localapi/v0/up") (bs "tailnet up") (bs "up")).2 = true.
Proof.
  pose proof (fun net => dashboard_drives_runtime (fun _ => None) (fun _ => []) up_parse 7 (mkCtx (toy_snapshot Stopped) true (fun _ => Err []))
    (SetWantRunning true) net (fun _ => None) (fun _ => []) (bs "tailnet up") (bs "up")) as G.
  change (request_text (bs "POST") (route (endpoint_of (SetWantRunning true)))) with up_request in G.
  assert (E : exists out, handle_one (fun _ => None) (fun _ => []) up_parse 7 [Data up_request] (mkCtx (toy_snapshot Stopped) true (fun _ => Err [])) =
    ([SetWantRunning true], Some out) /\ (length out <= 400)%nat).
  { eexists. split; [vm_compute; reflexivity|apply Nat.leb_le; vm_compute; reflexivity]. }
  destruct E as (out & E & Hl). rewrite E in G. rewrite E. split; [reflexivity|].
  destruct (G (fun _ => Some [Data out; Closed])) as [[_ G1] _]; [unfold up_parse; rewrite decide_True; reflexivity|reflexivity| |exact (G1 eq_refl)].
  pose proof max_response_val. cbn [default from_option id]. lia.
Defined.
