(* ===== verification/Session.v ===== *)
(** Control sessions of the runtime (tailscale-vita: runtime.rs): opening the map
    stream ([finish_session]), the reconnect bootstrap
    ([bootstrap_control_session]), the persisted session state
    ([delete_session_state]) and the logout ([perform_logout]).

    Everything outside is the class [Outside]; what one attempt meets is an
    [Attempt]. *)

From S2P Require Import Prelude NetTypes Text WgPolicy WgEngine Netmap VitaFs Keys Noise MapStream Runtime Login LocalApi.
#[local] Open Scope Z_scope.

(** ** Parameters *)

(** httparse's status, the JSON of the key and register answers, base64, snow's
    handshake, the HTTP/2 preface, the process id, fresh secrets and their
    public keys. *)
Class Outside (St Hs : Type) : Type := {
  x_parse_response : list Z -> option (option Z);
  x_public_key : list Z -> option (list Z);
  x_base64 : list Z -> list Z;
  x_hs_new : list Z -> list Z -> result ControlError Hs;
  x_h2_open : NoiseStream St -> result ControlError unit;
  x_json : list Z -> option RegisterResponseWire;
  x_pid : Z;
  x_secret : nat -> list Z;
  x_derive : list Z -> list Z
}.

(** The configuration that the runtime reads besides [Config]. *)
Record Settings : Type := mkSettings {
  control : Config; cfg_state_dir : list Z; cfg_want_running : bool; cfg_localapi_port : option Z;
  taildrop_enabled : bool; taildrop_port : Z; max_derp_conns : nat
}.

(** What one exchange with the control server meets: the connection, the clock,
    the random log id, the answers to the register request and to the map
    request. *)
Record Attempt : Type := mkAttempt {
  a_env : ConnEnv; a_timestamp : result ControlError (list Z); a_log_id : list Z;
  a_conn : RegisterRequestWire -> result ControlError (Z * list Z); a_head : Head; a_now : Z
}.

(** A request that goes out, and the node key it shows. *)
Inductive Message : Type := MRegister (r : RegisterRequestWire) | MMap (r : MapRequestWire) | MNetinfo (r : NetinfoRequest Z).
Definition presents (m : Message) : list Z :=
  match m with MRegister r => rr_node_key r | MMap r => rq_node_key r | MNetinfo r => nq_node_key r end.

Definition opt_to_list {A} (o : option A) : list A := match o with Some a => [a] | None => [] end.

Inductive BootstrapOutcome : Type := Session (m : MapClient) | NeedsInteractiveLogin.

Section Session.
Context {W : Type} `{Fs W} {St Hs : Type} `{NoiseOps St Hs} `{!Outside St Hs}.

Definition establish (env : ConnEnv) (cfg : Settings) (ks : KeyStore) (w : W) : outcome (W * result ControlError (NoiseStream St)) :=
  establish_control_conn x_parse_response x_public_key x_base64 x_hs_new x_h2_open env (control cfg) ks (cfg_state_dir cfg) w.

Definition finish_session (head : Head) (now : Z) (cfg : Settings) (ks : KeyStore) (eps : list (list Z)) (tys : list Z) (log_id : list Z) (w : W) :
    outcome (option MapRequestWire * result ControlError MapClient) :=
  start head now (Keys.node_pub ks) (Keys.disco_pub ks) (cfg_hostname (control cfg)) log_id (cfg_state_dir cfg) eps tys
    (if taildrop_enabled cfg then Some (taildrop_port cfg) else None) w.

(** The files, the requests sent and the outcome. *)
Definition bootstrap_control_session (a : Attempt) (cfg : Settings) (ks : KeyStore) (eps : list (list Z)) (tys : list Z) (w : W) :
    outcome (W * list Message * result ControlError BootstrapOutcome) :=
  '(w, c) ← establish (a_env a) cfg ks w;
  match c with
  | Err e => Val (w, [], Err e)
  | Ok _ =>
      let '(req, r) := register (a_conn a) x_json (a_timestamp a) (trim (auth_key (control cfg))) (Keys.node_pub ks) (nl_pub ks)
                         (a_log_id a) (cfg_hostname (control cfg)) None in
      let sent := MRegister <$> opt_to_list req in
      match r with
      | Err e => Val (w, sent, Err e)
      | Ok o =>
          if o_node_key_expired o then Val (w, sent, Ok NeedsInteractiveLogin)
          else match pending_auth_url o with
               | Some _ => Val (w, sent, Ok NeedsInteractiveLogin)
               | None =>
                   '(rq, m) ← finish_session (a_head a) (a_now a) cfg ks eps tys (a_log_id a) w;
                   Val (w, sent ++ (MMap <$> opt_to_list rq), match m with Ok m => Ok (Session m) | Err e => Err e end)
               end
      end
  end.

(** A file that cannot be removed is overwritten.  On the console a missing file
    counts as removed. *)
Definition delete_one (dir : list Z) (w : W) (name : list Z) : W :=
  let '(w, ok) := fs_remove_file w (join dir name) in
  if ok then w else (fs_write w (join dir name) []).1.
Definition delete_session_state (dir : list Z) (w : W) : W := foldl (delete_one dir) w [LAST_SEQ_FILE; SESSION_HANDLE_FILE].

Context {T : Type} `{TunnOps T} (region_keys : gmap (list Z) Z -> list (list Z)).

(** What a logout may change. *)
Record Node : Type := mkNodeState {
  n_disk : W * nat; n_ks : KeyStore; n_tracker : LifecycleTracker; n_snapshot : RuntimeSnapshot;
  n_engine : Engine T; n_regions : gmap (list Z) Z; n_map : option MapClient
}.

Definition set_files (w : W) (n : Node) : Node :=
  mkNodeState (w, (n_disk n).2) (n_ks n) (n_tracker n) (n_snapshot n) (n_engine n) (n_regions n) (n_map n).

(** [now_unix] is the clock of the snapshot; the requests sent come back. *)
Definition perform_logout (a : Attempt) (now_unix : Z) (cfg : Settings) (n : Node) : outcome (Node * list Message) :=
  '(w, c) ← establish (a_env a) cfg (n_ks n) (n_disk n).1;
  match c with
  | Err _ => Val (set_files w n, [])
  | Ok _ =>
      let '(req, r) := Login.logout (a_conn a) x_json (a_timestamp a) (Keys.node_pub (n_ks n)) (nl_pub (n_ks n)) (a_log_id a) (cfg_hostname (control cfg)) in
      let sent := MRegister <$> opt_to_list req in
      match r with
      | Err _ => Val (set_files w n, sent)
      | Ok _ =>
          let engine := clear_engine_peers region_keys (n_engine n) (n_regions n) in
          let w := delete_session_state (cfg_state_dir cfg) w in
          let '(disk, r) := regenerate_node_key x_pid x_secret x_derive (cfg_state_dir cfg) (n_ks n) (w, (n_disk n).2) in
          let ks := match r with Ok ks => ks | Err _ => n_ks n end in
          let t := set_needs_login (n_tracker n) in
          Val (mkNodeState disk ks t (publish_parked_state now_unix t None false true (n_snapshot n)) engine ∅ None, sent)
      end
  end.
End Session.
Arguments Node W T : clear implicits.

(** * Lemmas *)

(** ** Files *)

Section Files.
Context {W : Type} {d : list Z} `{FsLaws W d}.
#[local] Abbreviation holds := (Keys.holds (d := d)).

Lemma session_apart f : f ∈ session_files -> apart f.
Proof.
  intros Hf. split; [by apply session_file_facts|]. revert Hf. unfold session_files. rewrite !elem_of_cons, elem_of_nil.
  intros [->|[->|[]]]; apply (bool_decide_unpack _); vm_compute; done.
Qed.

Lemma delete_one_other w f m : own_name f -> own_name m -> m <> f -> holds (delete_one d w f) m = holds w m.
Proof.
  intros Hf Hm Hne. assert (Hn : names (join d m) <> names (join d f)) by (intros ?%own_names_join; done). unfold delete_one, Keys.holds.
  destruct (fs_remove_file w (join d f)) as [w1 ok] eqn:E1. destruct (remove_law _ _ _ _ E1) as [_ R].
  destruct ok; [by apply R|]. destruct (fs_write w1 (join d f) []) as [w2 ok2] eqn:E2. destruct (write_law _ _ _ _ _ E2) as [_ Hw].
  cbn [fst]. rewrite Hw by done. by apply R.
Qed.

(** Whether both files could be removed. *)
Definition removals_ok (w : W) : bool :=
  let '(w1, ok1) := fs_remove_file w (join d LAST_SEQ_FILE) in
  ok1 && (fs_remove_file w1 (join d SESSION_HANDLE_FILE)).2.

Lemma delete_session_cold w : removals_ok w = true ->
  seq_of (d := d) (delete_session_state d w) = 0 /\ handle_of (d := d) (delete_session_state d w) = [].
Proof.
  unfold removals_ok, delete_session_state. cbn [foldl]. unfold delete_one at 2 4.
  destruct (fs_remove_file w (join d LAST_SEQ_FILE)) as [w1 ok1] eqn:E1. intros [-> E]%andb_true_iff. cbv iota.
  destruct (remove_law _ _ _ _ E1) as [R1 _]. specialize (R1 eq_refl). unfold seq_of, handle_of.
  rewrite (delete_one_other w1 SESSION_HANDLE_FILE LAST_SEQ_FILE);
    [|by apply session_file_facts, (bool_decide_unpack _); vm_compute|by apply session_file_facts, (bool_decide_unpack _); vm_compute|apply seq_handle_apart].
  unfold Keys.holds at 1. rewrite R1. split; [done|]. unfold delete_one.
  destruct (fs_remove_file w1 (join d SESSION_HANDLE_FILE)) as [w2 ok2] eqn:E2. cbn in E. subst ok2. destruct (remove_law _ _ _ _ E2) as [R2 _].
  unfold Keys.holds. by rewrite (R2 eq_refl).
Qed.

Lemma delete_session_other w m : own_name m -> (m ∉ session_files) -> holds (delete_session_state d w) m = holds w m.
Proof.
  intros Hm Hn. unfold session_files in Hn. rewrite !not_elem_of_cons in Hn. destruct Hn as (N1 & N2 & _).
  unfold delete_session_state. cbn [foldl]. rewrite !delete_one_other; try done; by apply session_file_facts, (bool_decide_unpack _); vm_compute.
Qed.

(** A write in two steps touches only its own files, whatever fails. *)
Lemma atomic_write_other pid n b w w' r m : tidy d -> 0 <= pid -> own_name n -> n <> tmp_name pid n ->
  atomic_write pid (join d n) b w = (w', r) -> own_name m -> m <> n -> m <> tmp_name pid n -> holds w' m = holds w m.
Proof.
  intros Hd Hpid Hn Hnt E Hm N1 N2. pose proof (tmp_plain pid n Hpid Hn) as Htp.
  destruct (parent_join d n Hd) as [Epar Efn]; [by destruct Hn as [(_ & ? & _) _]|].
  assert (A1 : names (join d m) <> names (join d n)) by (intros ?%own_names_join; done).
  assert (A2 : names (join d m) <> names (join d (tmp_name pid n))) by (intros ?%own_names_join; done).
  assert (A3 : names (join d (tmp_name pid n)) <> names (join d n)) by (intros ?%own_names_join; [congruence|done..]).
  revert E. unfold atomic_write, make_tmp_path. rewrite Epar, Efn. unfold mbind, se_bind, Keys.holds.
  destruct (io _ w) as [w1 r1] eqn:E1. apply io_ok in E1 as (b1 & E1 & _). rewrite <- (mkdir_law _ _ _ _ (names (join d m)) E1).
  destruct r1 as [[]|]; [|by intros [= <- _]]. destruct (io _ w1) as [w2 r2] eqn:E2. apply io_ok in E2 as (b2 & E2 & _).
  destruct (write_law _ _ _ _ _ E2) as [_ W2]. rewrite <- (W2 (names (join d m))) by done. destruct r2 as [[]|]; [|by intros [= <- _]].
  intros (b3 & E3 & _)%io_ok. destruct (rename_law _ _ _ _ _ E3 A3) as (_ & _ & R). by apply R.
Qed.

(** A new node key touches only its own file. *)
Lemma regenerate_others pid secret derive_pub ks (w : W) n w' n' r m : tidy d -> 0 <= pid ->
  regenerate_node_key pid secret derive_pub d ks (w, n) = ((w', n'), r) ->
  own_name m -> m <> NODE_FILE -> m <> tmp_name pid NODE_FILE -> holds w' m = holds w m.
Proof.
  intros Hd Hpid. unfold regenerate_node_key, generate_and_persist, lift, mbind, se_bind.
  destruct (atomic_write pid (join d NODE_FILE) (secret n) w) as [w1 r1] eqn:E. intros E2 Hm N1 N2.
  assert (Hw : w1 = w') by (destruct r1; by injection E2). subst w1.
  destruct (key_file_facts NODE_FILE) as [Hp Hl]; [by apply (bool_decide_unpack _); vm_compute|].
  eapply atomic_write_other; [done|done|done| |exact E|done..]. apply not_eq_sym. eapply tmp_name_ne; [done|exact Hl|lia].
Qed.

Lemma regenerate_session pid secret derive_pub ks (w : W) n w' n' r f : tidy d -> 0 <= pid ->
  regenerate_node_key pid secret derive_pub d ks (w, n) = ((w', n'), r) -> f ∈ session_files -> holds w' f = holds w f.
Proof.
  intros Hd Hpid E Hf. destruct (session_file_facts f Hf) as [Hp (x & Hx & Hdig)]. eapply regenerate_others; [done..| |].
  - intros ->. revert Hf. apply (bool_decide_unpack _). vm_compute. done.
  - intros ->. by eapply tmp_name_ne.
Qed.

(** The key files and their temporary files are not session files. *)
Lemma deleted_kept pid derive_pub w ks : 0 <= pid -> no_leftover (d := d) pid w -> stored (d := d) derive_pub w ks ->
  no_leftover (d := d) pid (delete_session_state d w) /\ stored (d := d) derive_pub (delete_session_state d w) ks.
Proof.
  intros Hpid Hno [E Hs]. split.
  - intros f Hf. destruct (key_file_facts f Hf) as [Hp Hl]. rewrite delete_session_other; [by apply Hno|by apply tmp_plain|].
    intros (_ & c & Hc & Hdig)%session_file_facts. by eapply (tmp_name_ne pid f).
  - split; [done|]. intros f b Hf. rewrite delete_session_other; [by apply Hs|..];
      revert Hf; rewrite !elem_of_cons, !elem_of_nil; intros [[= -> _]|[[= -> _]|[[= -> _]|[[= -> _]|[]]]]]; apply (bool_decide_unpack _); vm_compute; done.
Qed.
End Files.

(** ** Requests *)

Lemma logout_request conn json ts np nl log host req r :
  Login.logout conn json ts np nl log host = (Some req, r) -> rr_node_key req = to_nodekey_string np /\ rr_expiry req = Some LOGOUT_EXPIRY.
Proof. unfold Login.logout, build_request. destruct ts; cbn [mbind result_bind]; [|done]. by intros [= <- _]. Qed.

Lemma logout_accepted conn json ts np nl log host req ex :
  Login.logout conn json ts np nl log host = (req, Ok ex) ->
  exists q body resp, req = Some q /\ rr_expiry q = Some LOGOUT_EXPIRY /\ conn q = Ok (200, body) /\ json body = Some resp /\ rp_error resp = [].
Proof.
  unfold Login.logout, build_request. destruct ts; cbn [mbind result_bind]; [|done]. intros [= <- E]. revert E. unfold post_register.
  set (q := mkRegister _ _ _ _ _ _ _ _ _). destruct (conn q) as [[status body]|] eqn:Ec; [|done].
  destruct (Z.eqb_spec status 200) as [->|]; cbn [negb]; [|done]. destruct (json body) as [resp|] eqn:Ej; [|done]. cbn [mbind result_bind].
  unfold interpret_logout_response. destruct (bool_decide_reflect (rp_error resp = [])) as [Hz|]; [|done]. intros _. by exists q, body, resp.
Qed.

Lemma start_spec {W} `{Fs W} head now node disco host log dir eps tys port (w : W) rq r :
  start head now node disco host log dir eps tys port w = Val (rq, r) ->
  (forall q, rq = Some q -> rq_node_key q = to_nodekey_string node) /\
  (forall c, r = Ok c -> exists sv, load_session_state dir w = Ok sv /\ MapStream.netmap c = start_netmap sv /\ MapStream.node_pub c = node /\ state_dir c = dir).
Proof.
  unfold start. destruct (load_session_state dir w) as [[seq handle]|]; [|by intros [= <- <-]].
  destruct (short_handle handle); cbn [mbind outcome_bind]; try done. intros [= <- <-]. split; [by intros q [= <-]|].
  destruct head as [[status hs]|]; [|done]. destruct (negb (status =? 200)); [done|]. intros c [= <-]. by exists (seq, handle).
Qed.

Section Requests.
Context {W : Type} {d : list Z} `{FsLaws W d} {St Hs : Type} `{NoiseOps St Hs} `{!Outside St Hs}.

(** A bootstrap shows the key store's node key and no other, leaves the session
    files and the keys alone, and a session it opens resumes what they say. *)
Lemma bootstrap_spec a cfg ks eps tys w w' sent r : cfg_state_dir cfg = d ->
  bootstrap_control_session a cfg ks eps tys w = Val (w', sent, r) ->
  others_kept (d := d) w w' /\ Forall (fun m => presents m = to_nodekey_string (Keys.node_pub ks)) sent /\
  forall m, r = Ok (Session m) -> MapStream.node_pub m = Keys.node_pub ks /\
    state_dir m = d /\ exists sv, load_session_state d w' = Ok sv /\ MapStream.netmap m = start_netmap sv.
Proof.
  intros Hdir. unfold bootstrap_control_session, establish. rewrite Hdir.
  destruct (establish_control_conn _ _ _ _ _ _ _ ks d w) as [[w1 c]| |] eqn:Ee; cbn [mbind outcome_bind]; try done.
  apply establish_others in Ee. destruct c as [conn|e]; [|by intros [= <- <- <-]].
  destruct (register _ _ _ _ _ _ _ _ _) as [req r0] eqn:Er.
  assert (Hsent : Forall (fun m => presents m = to_nodekey_string (Keys.node_pub ks)) (MRegister <$> opt_to_list req)).
  { destruct req as [q|]; [|constructor]. apply register_request in Er as [R _]. repeat constructor. exact R. }
  destruct r0 as [o|e]; [|by intros [= <- <- <-]]. destruct (o_node_key_expired o); [by intros [= <- <- <-]|].
  destruct (pending_auth_url o); [by intros [= <- <- <-]|]. unfold finish_session. rewrite Hdir.
  destruct (start _ _ _ _ _ _ d _ _ _ w1) as [[rq m]| |] eqn:Es; cbn [mbind outcome_bind]; try done. intros [= <- <- <-].
  apply start_spec in Es as [S1 S2]. split; [done|]. split.
  - apply Forall_app. split; [done|]. destruct rq as [q|]; [|constructor]. repeat constructor. exact (S1 q eq_refl).
  - intros m0 E. destruct m as [m|]; [|done]. injection E as <-. destruct (S2 m eq_refl) as (sv & L & N1 & N2 & N3). eauto.
Qed.
End Requests.

(** * Theorems *)


(** On the console the cold value written over a file that cannot be removed
    changes nothing: the next session resumes the one that was to be forgotten. *)
Definition stuck_session : Toy.Kernel :=
  Toy.mkKernel {[ bs "ux0:data/ts/last_seq" := i64_bytes 7; bs "ux0:data/ts/session_handle" := bs "old" ]} (bs "ux0:data/ts/last_seq") [] ∅ [].

Theorem cold_overwrite_keeps :
  load_session_state toy_dir (delete_session_state toy_dir stuck_session) = Ok (7, []) /\
  load_session_state toy_dir stuck_session = Ok (7, bs "old").
Proof. vm_compute. done. Qed.

(** ** Samples *)

#[global] Instance toy_outside : Outside nat unit := {|
  x_parse_response := fun _ => Some (Some 101); x_public_key := Some; x_base64 := fun x => x; x_hs_new := toy_hs; x_h2_open := toy_h2;
  x_json := toy_register; x_pid := 9; x_secret := toy_secret; x_derive := fun x => x
|}.
Definition toy_settings (k : list Z) (want : bool) : Settings := mkSettings (toy_config (bs "https://h") None k) toy_dir want None false 0 2.
Definition toy_attempt (b : Z) : Attempt := mkAttempt toy_env (Ok (bs "now")) (bs "log") (fun _ => Ok (200, [b])) (Ok (200, [])) 3.
(** A node with keys, a session and two peers. *)
Definition toy_disk : Toy.Kernel :=
  Toy.mkKernel (<[bs "ux0:data/ts/last_seq" := i64_bytes 7]> (Toy.files toy_keys_card)) [] [] ∅ [].
Definition toy_regions : gmap (list Z) Z := {[ [11] := 1; [22] := 2 ]}.
Definition toy_node : Node Toy.Kernel Toy :=
  mkNodeState (toy_disk, 5%nat) toy_ks tracker_new (toy_snapshot Online) toy_engine toy_regions (Some toy_client).

Lemma toy_stored : stored (d := toy_dir) (fun x => x) toy_disk toy_ks /\ no_leftover (d := toy_dir) 9 toy_disk.
Proof.
  split.
  - split; [reflexivity|]. intros f b. rewrite !elem_of_cons, elem_of_nil.
    intros [[= -> ->]|[[= -> ->]|[[= -> ->]|[[= -> ->]|[]]]]]; (split; [vm_compute; reflexivity|reflexivity]).
  - intros f. unfold key_files. rewrite !elem_of_cons, elem_of_nil. intros [->|[->|[->|[->|[]]]]]; vm_compute; reflexivity.
Qed.


(** The local rotation is not certain: when the card refuses to replace the key
    file, the node shows that it is logged out while the old node key, which the
    server may still accept, stays in memory and on disk. *)
Theorem logout_rotation_refused :
  let stuck := Toy.mkKernel (Toy.files toy_disk) (bs "ux0:data/ts/node.priv") [] ∅ [] in
  match perform_logout toy_region_keys (toy_attempt 2) 9 (toy_settings [] true)
          (mkNodeState (stuck, 5%nat) toy_ks tracker_new (toy_snapshot Online) toy_engine toy_regions (Some toy_client)) with
  | Val (n', sent) => length sent = 1%nat /\ state (n_tracker n') = NeedsLogin /\ n_ks n' = toy_ks /\
      Toy.files (n_disk n').1 !! bs "ux0:data/ts/node.priv" = Some (repeat 8 32)
  | _ => False
  end.
Proof. vm_compute. done. Qed.
