(* ===== verification/Paths.v ===== *)
(** Choosing and advertising paths: the STUN network check (ts-magicsock:
    netcheck.rs), what the runtime makes of it for the control server and for
    call-me-maybe (tailscale-vita: runtime.rs, run_netcheck, build_derp_map,
    build_local_endpoints and the NetInfo part of the event loop), and the
    transport that joins UDP and the relays (dual_transport.rs).

    A probe's channel is named by its transaction id; [Magicsock] keeps the
    results.  Latencies are nanoseconds, where the code has floating-point
    seconds. *)

From S2P Require Import Prelude NetTypes Text Disco Stun WgPolicy DerpFrame DerpMux WgEngine Magicsock Netmap.
#[local] Open Scope Z_scope.

(** ** netcheck.rs *)

Definition DEFAULT_PROBE_TIMEOUT : Z := 1500 * 10 ^ 6.
Definition STUN_PORT : Z := 3478.
Definition PUBLIC_STUN_FALLBACKS : list (list Z) :=
  [bs "stun.l.google.com:19302"; bs "stun.cloudflare.com:3478"; bs "global.stun.twilio.com:3478"].

Record RegionProbe : Type := mkProbe { rp_region_id : Z; rp_target : SocketAddr; rp_rtt : Z; rp_reflected : SocketAddr }.

Record NetcheckReport : Type := mkReport {
  derp_latency : gmap Z Z; preferred_derp : Z; rep_public_endpoint : option SocketAddr;
  rep_public_endpoint_v6 : option SocketAddr; probes : list RegionProbe
}.

Record StunTarget : Type := mkTarget { region_id : Z; ipv4_addr : option SocketAddr; ipv6_addr : option SocketAddr }.

(** A probe that was sent: region, target and transaction id. *)
Definition Inflight : Type := (Z * SocketAddr * list Z)%type.

Section Netcheck.
Context (os_rng : nat -> nat -> list Z) (udp_ret : nat -> nat -> option nat) (has_v6 : bool).
(** The instant at which a target is probed, and what the receive thread does
    after a probe was sent, before the next, and while a probe is waited for. *)
Context (probed_at : SocketAddr -> Z) (sent_then waited : list Z -> Magic -> Magic).

Definition send_probe (region : Z) (target : option SocketAddr) (st : list Inflight * Magic) : list Inflight * Magic :=
  match target with
  | None => st
  | Some a =>
      match stun_probe os_rng udp_ret has_v6 a (probed_at a) st.2 with
      | (Ok tx, w) => (st.1 ++ [(region, a, tx)], sent_then tx w)
      | (Err _, w) => (st.1, w)
      end
  end.
Definition send_probes (targets : list StunTarget) (w : Magic) : list Inflight * Magic :=
  foldl (fun st t => send_probe (region_id t) (ipv6_addr t) (send_probe (region_id t) (ipv4_addr t) st)) ([], w) targets.

(** What is on the channel of a probe when the wait for it ends. *)
Definition stun_answer (w : Magic) (tx : list Z) : option (result MagicError (SocketAddr * Z)) :=
  snd <$> List.find (fun r => bool_decide (r.1 = tx)) (stun_results (io w)).

(** The probes are waited for in the order they were sent in. *)
Fixpoint collect (inflight : list Inflight) (w : Magic) : list RegionProbe * Magic :=
  match inflight with
  | [] => ([], w)
  | (region, target, tx) :: rest =>
      let w := waited tx w in
      let got := match stun_answer w tx with
                 | Some (Ok (reflected, rtt)) => [mkProbe region target rtt reflected]
                 | _ => []
                 end in
      let '(ps, w) := collect rest w in
      (got ++ ps, w)
  end.

(** A later probe of a region replaces the latency of an earlier one. *)
Definition aggregate (ps : list RegionProbe) : NetcheckReport :=
  mkReport (foldl (fun m p => <[rp_region_id p := rp_rtt p]> m) ∅ ps)
    (match min_by rp_rtt ps with Some p => rp_region_id p | None => 0 end)
    (rp_reflected <$> min_by rp_rtt (filter (fun p => is_ipv4 (rp_reflected p) = true) ps))
    (rp_reflected <$> min_by rp_rtt (filter (fun p => is_ipv6 (rp_reflected p) = true) ps)) ps.

Definition probe_targets (targets : list StunTarget) (w : Magic) : NetcheckReport * Magic :=
  let '(inflight, w) := send_probes targets w in
  let '(ps, w) := collect inflight w in
  (aggregate ps, w).

(** DNS, and the receive thread while one server is waited for. *)
Context (resolve : list Z -> list SocketAddr) (wait_for : list Z -> Magic -> Magic).

Fixpoint discover_from (want_v6 : bool) (hosts : list (list Z)) (w : Magic) : option SocketAddr * Magic :=
  match hosts with
  | [] => (None, w)
  | h :: rest =>
      match List.find (fun a => if want_v6 then is_ipv6 a else is_ipv4 a) (resolve h) with
      | None => discover_from want_v6 rest w
      | Some target =>
          match stun_probe os_rng udp_ret has_v6 target (probed_at target) w with
          | (Err _, w) => discover_from want_v6 rest w
          | (Ok tx, w) =>
              let w := wait_for h w in
              match stun_answer w tx with
              | Some (Ok (reflected, _)) => (Some reflected, w)
              | _ => discover_from want_v6 rest w
              end
          end
      end
  end.
Definition discover_one_family (want_v6 : bool) (w : Magic) : option SocketAddr * Magic :=
  discover_from want_v6 PUBLIC_STUN_FALLBACKS w.
Definition discover_public_endpoints_dual (w : Magic) : option SocketAddr * option SocketAddr * Magic :=
  let '(v4, w) := discover_one_family false w in
  let '(v6, w) := discover_one_family true w in
  (v4, v6, w).
End Netcheck.

(** ** runtime.rs *)

Section Runtime.
(** IPv6 socket addresses from and to text. *)
Context (p6 : list Z -> option SocketAddr) (show6 : SocketAddr -> list Z).

Definition parse_target (s : list Z) : option SocketAddr := match parse_sockaddr_v4 s with Some a => Some a | None => p6 s end.

(** [rs]: the regions in the order of the hash map. *)
Definition netcheck_targets (rs : list (Z * DerpRegionSnapshot)) : list StunTarget :=
  omap (fun '(rid, r) =>
    node ← head (dr_nodes r);
    let v4 := if is_empty (dn_ipv4 node) then None else parse_target (dn_ipv4 node ++ bs ":" ++ dec STUN_PORT) in
    let v6 := if is_empty (dn_ipv6 node) then None else parse_target (bs "[" ++ dn_ipv6 node ++ bs "]:" ++ dec STUN_PORT) in
    match v4, v6 with
    | None, None => None
    | _, _ => Some (mkTarget rid v4 v6)
    end) rs.

Definition derp_node (n : DerpNodeSnapshot) : DerpNodeAddr :=
  mkNode (dn_region_id n) (dn_name n) (dn_hostname n) (dn_ipv4 n) (dn_ipv6 n) (dn_derp_port n).
Definition build_derp_map (nm : NetMap) : gmap Z (list DerpNodeAddr) := (fun r => map derp_node (dr_nodes r)) <$> derp_regions nm.

Definition show_addr (a : SocketAddr) : list Z :=
  match a with SAV4 ip port => show_ipv4 ip ++ bs ":" ++ dec port | SAV6 _ _ _ _ => show6 a end.

(** What goes to control and to the magic socket after a network check. *)
Record NetInfo : Type := mkNetInfo {
  ni_preferred : Z; ni_latencies : list (list Z * Z); ni_extra : list (list Z); ni_local : list SocketAddr; ni_public : option SocketAddr
}.

Definition push_new (a : option SocketAddr) (l : list SocketAddr) : list SocketAddr :=
  match a with Some a => if decide (a ∈ l) then l else l ++ [a] | None => l end.

(** [latencies] and [regions]: the report's table and the netmap's regions in the
    order of their hash maps; [fallback]: what the public servers say. *)
Definition netinfo_round (report : NetcheckReport) (latencies : list (Z * Z)) (regions : list Z) (home : Z)
    (fallback : option SocketAddr * option SocketAddr) (local : SocketAddr) (local_v6 : option SocketAddr) : NetInfo :=
  let preferred := if negb (preferred_derp report =? 0) then preferred_derp report else home in
  let lat := match latencies with
             | [] => flat_map (fun rid => [(dec rid ++ bs "-v4", 50000000); (dec rid ++ bs "-v6", 50000000)]) regions
             | _ => map (fun '(rid, ns) => (dec rid ++ bs "-v4", ns)) latencies
             end in
  let public := match rep_public_endpoint report with Some a => Some a | None => fallback.1 end in
  let public_v6 := match rep_public_endpoint_v6 report with Some a => Some a | None => fallback.2 end in
  let extra := omap (fmap show_addr) [public; public_v6] in
  mkNetInfo preferred lat extra (push_new public_v6 (push_new public (local :: match local_v6 with Some a => [a] | None => [] end))) public.

(** The connect trick: the address from which [host:port] is reached. *)
Context (lan_probe : list Z -> option IpAddr).

Definition unspecified (ip : IpAddr) : bool := match ip with IpV4 z => z =? 0 | IpV6 z => z =? 0 end.

Definition probe_host (control_url : list Z) : list Z :=
  let '(host, default_port) :=
    match strip_prefix (bs "https://") control_url with
    | Some rest => (rest, 443)
    | None => match strip_prefix (bs "http://") control_url with Some rest => (rest, 80) | None => (control_url, 443) end
    end in
  let host := default host (head (split_on 47 host)) in
  if bool_decide (58 ∈ host) then host else host ++ bs ":" ++ dec default_port.

Definition build_local_endpoints (control_url : list Z) (magic_local : SocketAddr) : list (list Z) :=
  match lan_probe (probe_host control_url) with
  | None => []
  | Some ip => if unspecified ip then [] else [show_addr (sa_new ip (sa_port magic_local))]
  end.
Definition endpoint_types (eps : list (list Z)) : list Z := repeat 1 (length eps).
End Runtime.

(** ** dual_transport.rs *)

Section Dual.
Context `{CryptoBox} (os_rng : nat -> nat -> list Z) (udp_ret : nat -> nat -> option nat) (has_v6 : bool).
Context (our_disco_priv our_node_pub : list Z) (dial : DerpNodeAddr -> result DerpError unit).

(** The magic socket, whose channel of packets that are not disco is
    [non_disco]; the mux and the frames its connections have received.  The mux
    keeps a sender, so its channel never closes. *)
Record Dual : Type := mkDual { magic : Magic; mux : MuxInner; derp_map_set : bool; derp_rx : list (Z * list Z * list Z) }.

Inductive SendError : Type := SendIo | SendTransport (e : DerpError).

Definition dual_send (now : Z) (addr : TransportAddr) (datagram : list Z) (died : bool) (t : Dual) : result SendError unit * Dual :=
  match addr with
  | Udp sa =>
      let '(r, w) := send_to has_v6 sa datagram (magic t) in
      (match r with Ok _ => Ok tt | Err _ => Err SendIo end, mkDual w (mux t) (derp_map_set t) (derp_rx t))
  | Derp region peer_pubkey =>
      let '(r, m) := derp_send dial now (derp_map_set t) (mux t) region peer_pubkey datagram died in
      (match r with Ok _ => Ok tt | Err e => Err (SendTransport e) end, mkDual (magic t) m (derp_map_set t) (derp_rx t))
  end.

Definition set_non_disco (l : list (SocketAddr * list Z)) (w : Magic) : Magic :=
  let i := io w in
  with_io w (mkIo (draws i) (send_calls i) (wire i) (stun_results i) (ping_results i) l (tx_queue i) (send_log i)).

(** UDP first; a relayed disco message goes to the magic socket. *)
Definition dual_recv (now : Z) (t : Dual) : option (TransportAddr * list Z) * Dual :=
  match non_disco (io (magic t)) with
  | (src, bytes) :: rest => (Some (Udp src, bytes), mkDual (set_non_disco rest (magic t)) (mux t) (derp_map_set t) (derp_rx t))
  | [] =>
      match derp_rx t with
      | [] => (None, t)
      | (region, src_pubkey, bytes) :: rest =>
          if is_disco_message bytes then
            (None, mkDual (handle_disco_from_derp os_rng udp_ret has_v6 our_disco_priv our_node_pub bytes now (magic t))
                     (mux t) (derp_map_set t) rest)
          else (Some (Derp region src_pubkey, bytes), mkDual (magic t) (mux t) (derp_map_set t) rest)
      end
  end.

(** What happens at the transport: packets arrive and the pump receives. *)
Inductive Rx : Type := RxUdp (src : SocketAddr) (bytes : list Z) | RxDerp (region : Z) (src : list Z) (bytes : list Z) | RxRecv (now : Z).

Definition rx_step (st : list (TransportAddr * list Z) * Dual) (e : Rx) : list (TransportAddr * list Z) * Dual :=
  let '(out, t) := st in
  match e with
  | RxUdp src bytes => (out, mkDual (set_non_disco (non_disco (io (magic t)) ++ [(src, bytes)]) (magic t)) (mux t) (derp_map_set t) (derp_rx t))
  | RxDerp region src bytes => (out, mkDual (magic t) (mux t) (derp_map_set t) (derp_rx t ++ [(region, src, bytes)]))
  | RxRecv now => let '(r, t) := dual_recv now t in (out ++ match r with Some x => [x] | None => [] end, t)
  end.
Definition rx_run (es : list Rx) (t : Dual) : list (TransportAddr * list Z) * Dual := foldl rx_step ([], t) es.
End Dual.

(** * Lemmas *)

(** ** Smallest elements *)

Lemma min_by_fold {A} (key : A -> Z) l : forall a, exists b, 
  foldl (fun acc x => match acc with None => Some x | Some y => if key x <? key y then Some x else acc end) (Some a) l = Some b /\
  b ∈ a :: l /\ Forall (fun x => key b <= key x) (a :: l).
Proof.
  induction l as [|x l IH]; intros a; cbn [foldl].
  - exists a. split_and!; [done|by left|repeat constructor; lia].
  - destruct (Z.ltb_spec (key x) (key a)) as [Hlt|Hge].
    + destruct (IH x) as (b & -> & Hin & Hall). exists b. split_and!; [done|set_solver|].
      constructor; [|done]. apply Forall_cons_1 in Hall as [? _]. lia.
    + destruct (IH a) as (b & -> & Hin & Hall). exists b. split_and!; [done|set_solver|].
      apply Forall_cons_1 in Hall as [? Hl]. repeat constructor; [done|lia|done].
Qed.

(** Nothing for an empty list, else a smallest element. *)
Lemma min_by_spec {A} (key : A -> Z) l :
  match min_by key l with Some a => a ∈ l /\ Forall (fun x => key a <= key x) l | None => l = [] end.
Proof. destruct l as [|a l]; [done|]. unfold min_by. cbn [foldl]. destruct (min_by_fold key l a) as (b & -> & ? & ?). done. Qed.

(** ** The report *)

Lemma latency_fold ps : forall (m : gmap Z Z) (r : Z),
  foldl (fun m p => <[rp_region_id p := rp_rtt p]> m) m ps !! r =
  match list.last (filter (fun p => rp_region_id p = r) ps) with Some p => Some (rp_rtt p) | None => m !! r end.
Proof.
  induction ps as [|p ps IH] using rev_ind; intros m r; [done|]. rewrite foldl_app. cbn [foldl]. rewrite list.filter_app.
  destruct (decide (rp_region_id p = r)) as [<-|Hne].
  - rewrite lookup_insert_eq, filter_cons_True, filter_nil, list.last_snoc by done. done.
  - rewrite lookup_insert_ne, filter_cons_False, filter_nil, app_nil_r by done. apply IH.
Qed.

Lemma find_app_none {A} (f : A -> bool) l k : List.find f l = None -> List.find f (l ++ k) = List.find f k.
Proof. induction l as [|x l IH]; cbn; [done|]. by destruct (f x). Qed.

(** ** Probes *)

Section Probes.
Context (os_rng : nat -> nat -> list Z) (udp_ret : nat -> nat -> option nat) (has_v6 : bool) (probed_at : SocketAddr -> Z).

Lemma stun_probe_spec a now w r w' : stun_probe os_rng udp_ret has_v6 a now w = (r, w') ->
  let tx := os_rng (draws (io w)) 12%nat in
  draws (io w') = S (draws (io w)) /\ stun_results (io w') = stun_results (io w) /\
  (forall x, x ∈ wire (io w) -> x ∈ wire (io w')) /\
  (forall k, k <> tx -> stun_outstanding (ms w') !! k = stun_outstanding (ms w) !! k) /\
  forall k, r = Ok k -> k = tx /\ stun_outstanding (ms w') !! tx = Some now /\ (a, encode_binding_request tx) ∈ wire (io w').
Proof.
  unfold stun_probe, draw, udp_send, set_stun. cbn. destruct (for_addr has_v6 a).
  - destruct (udp_ret _ _); intros [= <- <-]; cbn; split_and!; try done.
    + intros x Hx. apply elem_of_app. by left.
    + intros k Hk. by rewrite lookup_insert_ne.
    + intros k [= <-]. rewrite lookup_insert_eq. split_and!; try done. apply elem_of_app. right. by apply list_elem_of_singleton.
    + intros k Hk. by rewrite lookup_delete_ne, lookup_insert_ne.
  - intros [= <- <-]; cbn; split_and!; try done. intros k Hk. by rewrite lookup_delete_ne, lookup_insert_ne.
Qed.

End Probes.

(** ** What the receive thread does to the STUN tables *)

Record Datagram : Type := mkDatagram { dg_bytes : list Z; dg_src : SocketAddr; dg_at : Z }.

(** The transaction a datagram answers, if it is taken for a STUN message. *)
Definition stun_id (bytes : list Z) : option (list Z) :=
  match looks_like_stun bytes, tx_id_from bytes with Val true, Val (Some tx) => Some tx | _, _ => None end.
Definition answers (tx : list Z) (d : Datagram) : bool := bool_decide (stun_id (dg_bytes d) = Some tx).
(** What such an answer tells about a probe sent at [sent]. *)
Definition verdict (d : Datagram) (sent : Z) : result MagicError (SocketAddr * Z) :=
  match parse_binding_response (dg_bytes d) with Val (Some a) => Ok (a, since (dg_at d) sent) | _ => Err StunParseFailed end.

(** The STUN tables are as before; the clock of the random source and the wire
    only grow. *)
Record stun_kept (w w' : Magic) : Prop := {
  sk_out : stun_outstanding (ms w') = stun_outstanding (ms w);
  sk_results : stun_results (io w') = stun_results (io w);
  sk_draws : (draws (io w) <= draws (io w'))%nat;
  sk_wire : forall x, x ∈ wire (io w) -> x ∈ wire (io w')
}.

#[global] Instance stun_kept_preorder : PreOrder stun_kept.
Proof. split; [by split|]. intros w1 w2 w3 [A1 A2 A3 A4] [B1 B2 B3 B4]. split; [congruence|congruence|lia|auto]. Qed.

Lemma find_app_some {A} (f : A -> bool) l k x : List.find f l = Some x -> List.find f (l ++ k) = Some x.
Proof. induction l as [|y l IH]; cbn; [done|]. by destruct (f y). Qed.

Section Receive.
Context `{CryptoBox} (os_rng : nat -> nat -> list Z) (udp_ret : nat -> nat -> option nat) (has_v6 : bool) (our_disco_priv our_node_pub : list Z).
#[local] Abbreviation recv := (handle_recv os_rng udp_ret has_v6 our_disco_priv our_node_pub).

Fixpoint receive_all (ds : list Datagram) (w : Magic) : outcome Magic :=
  match ds with [] => Val w | d :: ds => w ← recv (dg_bytes d) (dg_src d) (dg_at d) w; receive_all ds w end.
(** Datagrams are always handled ([receive_total]). *)
Definition receive (ds : list Datagram) (w : Magic) : Magic := match receive_all ds w with Val w' => w' | _ => w end.

Lemma udp_send_kept a b w : stun_kept w (udp_send udp_ret a b w).2.
Proof.
  split; cbn; [done|done|lia|]. intros x Hx. destruct (udp_ret _ _); [|done]. apply elem_of_app. by left.
Qed.
Lemma draw_kept n w : stun_kept w (draw os_rng n w).2.
Proof. split; cbn; [done|done|lia|done]. Qed.
Lemma set_peers_kept f w : stun_kept w (set_peers f w).
Proof. by split. Qed.

Lemma encode_and_send_ping_kept pk a tx w : stun_kept w (encode_and_send_ping os_rng udp_ret our_disco_priv our_node_pub pk a tx w).2.
Proof.
  unfold encode_and_send_ping. pose proof (draw_kept NONCE_LEN w) as Hd. destruct (draw os_rng NONCE_LEN w) as [n w1]. cbn [snd] in Hd.
  destruct (ping_packet _ _ _ _ _) as [b|]; [|done]. pose proof (udp_send_kept a b w1) as Hu. destruct (udp_send udp_ret a b w1) as [r w2].
  destruct r; cbn [snd] in *; by transitivity w1.
Qed.

Lemma ping_one_kept now node pk w a : stun_kept w (ping_one os_rng udp_ret has_v6 our_disco_priv our_node_pub now node pk w a).
Proof.
  unfold ping_one. destruct (for_addr has_v6 a); [|done]. unfold send_ping.
  pose proof (draw_kept 12 w) as Hd. destruct (draw os_rng 12 w) as [tx w1]. cbn [snd] in Hd.
  pose proof (encode_and_send_ping_kept pk a tx w1) as He. destruct (encode_and_send_ping _ _ _ _ pk a tx w1) as [r w2]. cbn [snd] in He.
  transitivity w1; [done|]. transitivity w2; [done|]. by destruct r.
Qed.

Lemma pings_kept now node pk l : forall w, stun_kept w (foldl (ping_one os_rng udp_ret has_v6 our_disco_priv our_node_pub now node pk) w l).
Proof. induction l as [|a l IH]; intros w; cbn [foldl]; [done|]. etransitivity; [apply ping_one_kept|apply IH]. Qed.

Lemma handle_disco_kept bytes src now w : stun_kept w (handle_disco os_rng udp_ret has_v6 our_disco_priv our_node_pub bytes src now w).
Proof.
  destruct (handle_disco_cases os_rng udp_ret has_v6 our_disco_priv our_node_pub bytes src now w) as [->|(sd & pt & _ & [(m & ->)|[(m & _ & ->)|(m & ->)]])]; [done|..].
  - unfold handle_ping, send_pong. set (w1 := match _ !! sd with Some _ => _ | None => _ end).
    assert (H1 : stun_kept w w1) by (unfold w1; destruct (_ !! sd); [apply set_peers_kept|done]).
    pose proof (draw_kept NONCE_LEN w1) as Hd. destruct (draw os_rng NONCE_LEN w1) as [n w2]. cbn [snd] in Hd.
    transitivity w1; [done|]. transitivity w2; [done|]. destruct (pong_packet _ _ _ _ _); [apply udp_send_kept|done].
  - unfold handle_pong. destruct (ping_outstanding (ms w) !! pong_tx_id m) as [[s t]|]; cbn; destruct (disco_to_node (ms w) !! sd); by split.
  - unfold handle_call_me_maybe. destruct (_ !! sd) as [node|]; [|done]. destruct (_ !! node) as [peer|]; [|done].
    etransitivity; [apply set_peers_kept|apply pings_kept].
Qed.

(** One datagram: the probe it answers, if it is expected, gets its verdict. *)
Lemma recv_stun d w : exists w', recv (dg_bytes d) (dg_src d) (dg_at d) w = Val w' /\
  (draws (io w) <= draws (io w'))%nat /\ (forall x, x ∈ wire (io w) -> x ∈ wire (io w')) /\
  match stun_id (dg_bytes d) with
  | Some tx =>
      match stun_outstanding (ms w) !! tx with
      | Some sent => stun_outstanding (ms w') = delete tx (stun_outstanding (ms w)) /\
                     stun_results (io w') = stun_results (io w) ++ [(tx, verdict d sent)]
      | None => stun_kept w w'
      end
  | None => stun_kept w w'
  end.
Proof.
  unfold handle_recv, stun_id. destruct (looks_like_stun_spec (dg_bytes d)) as (b & -> & _). cbn [mbind outcome_bind]. destruct b.
  - unfold handle_stun_response. destruct (tx_id_from_total (dg_bytes d)) as [[tx|] ->]; cbn [mbind outcome_bind]; [|by exists w].
    destruct (stun_outstanding (ms w) !! tx) as [sent|]; [|by exists w].
    unfold verdict. destruct (parse_total (dg_bytes d)) as [[a|] ->]; cbn [mbind outcome_bind]; eexists; (split; [done|]); cbn; done.
  - assert (G : exists w', (if negb (is_disco_message (dg_bytes d)) then Val (forward (dg_src d, dg_bytes d) w)
        else Val (handle_disco os_rng udp_ret has_v6 our_disco_priv our_node_pub (dg_bytes d) (dg_src d) (dg_at d) w)) = Val w' /\ stun_kept w w').
    { destruct (negb _); eexists; (split; [done|]); [by split|apply handle_disco_kept]. }
    destruct G as (w' & -> & G). exists w'. split_and!; [done|apply G|apply G|]. by destruct (tx_id_from (dg_bytes d)) as [[]| |].
Qed.

(** A transaction nobody waits for and nobody got, and one that was sent at [s]
    and for which the datagrams [ds] came since. *)
Definition untouched (tx : list Z) (w : Magic) : Prop := stun_outstanding (ms w) !! tx = None /\ stun_answer w tx = None.
Definition track (tx : list Z) (s : Z) (ds : list Datagram) (w : Magic) : Prop :=
  match List.find (answers tx) ds with
  | None => stun_outstanding (ms w) !! tx = Some s /\ stun_answer w tx = None
  | Some d => stun_outstanding (ms w) !! tx = None /\ stun_answer w tx = Some (verdict d s)
  end.

Lemma stun_answer_snoc w w' tx k r : stun_results (io w') = stun_results (io w) ++ [(k, r)] ->
  stun_answer w' tx = match stun_answer w tx with Some x => Some x | None => if decide (k = tx) then Some r else None end.
Proof.
  intros E. unfold stun_answer. rewrite E. destruct (List.find _ (stun_results (io w))) as [x|] eqn:Ef.
  - by rewrite (find_app_some _ _ _ _ Ef).
  - rewrite find_app_none by done. cbn. case_bool_decide; [by rewrite decide_True|by rewrite decide_False].
Qed.
Lemma stun_answer_kept w w' tx : stun_results (io w') = stun_results (io w) -> stun_answer w' tx = stun_answer w tx.
Proof. unfold stun_answer. by intros ->. Qed.

(** What one datagram does to a transaction. *)
Lemma recv_tracked d w : exists w', recv (dg_bytes d) (dg_src d) (dg_at d) w = Val w' /\
  (draws (io w) <= draws (io w'))%nat /\ (forall x, x ∈ wire (io w) -> x ∈ wire (io w')) /\
  (forall tx, untouched tx w -> untouched tx w') /\ (forall tx s ds, track tx s ds w -> track tx s (ds ++ [d]) w').
Proof.
  destruct (recv_stun d w) as (w' & E & Hd & Hw & Hs). exists w'. split_and!; [done|done|done|..].
  - intros tx [U1 U2]. unfold untouched. destruct (stun_id (dg_bytes d)) as [k|]; [|by rewrite (sk_out _ _ Hs), (stun_answer_kept _ _ _ (sk_results _ _ Hs))].
    destruct (stun_outstanding (ms w) !! k) as [s|] eqn:Ek; [|by rewrite (sk_out _ _ Hs), (stun_answer_kept _ _ _ (sk_results _ _ Hs))].
    destruct Hs as [-> S2]. rewrite (stun_answer_snoc _ _ _ _ _ S2), U2, decide_False by congruence. by rewrite lookup_delete_ne by congruence.
  - intros tx s ds. unfold track. assert (Hcase : (stun_id (dg_bytes d) = Some tx /\ answers tx d = true) \/ (stun_id (dg_bytes d) <> Some tx /\ answers tx d = false)).
    { unfold answers. case_bool_decide; auto. }
    destruct (List.find (answers tx) ds) as [d0|] eqn:Ef.
    + rewrite (find_app_some _ _ _ _ Ef). intros [U1 U2]. destruct (stun_id (dg_bytes d)) as [k|]; [|by rewrite (sk_out _ _ Hs), (stun_answer_kept _ _ _ (sk_results _ _ Hs))].
      destruct (stun_outstanding (ms w) !! k) as [s'|] eqn:Ek; [|by rewrite (sk_out _ _ Hs), (stun_answer_kept _ _ _ (sk_results _ _ Hs))].
      destruct Hs as [-> S2]. rewrite (stun_answer_snoc _ _ _ _ _ S2), U2. split; [|done]. by rewrite lookup_delete_ne by congruence.
    + rewrite find_app_none by done. cbn [List.find]. intros [U1 U2]. destruct Hcase as [[Hi ->]|[Hi ->]].
      * rewrite Hi, U1 in Hs. destruct Hs as [-> S2]. rewrite lookup_delete_eq. split; [done|].
        by rewrite (stun_answer_snoc _ _ _ _ _ S2), U2, decide_True.
      * destruct (stun_id (dg_bytes d)) as [k|]; [|by rewrite (sk_out _ _ Hs), (stun_answer_kept _ _ _ (sk_results _ _ Hs))].
        destruct (stun_outstanding (ms w) !! k) as [s'|] eqn:Ek; [|by rewrite (sk_out _ _ Hs), (stun_answer_kept _ _ _ (sk_results _ _ Hs))].
        destruct Hs as [-> S2]. rewrite (stun_answer_snoc _ _ _ _ _ S2), U2, decide_False by congruence. by rewrite lookup_delete_ne by congruence.
Qed.

Lemma receive_total ds : forall w, exists w', receive_all ds w = Val w' /\ receive ds w = w' /\
  (draws (io w) <= draws (io w'))%nat /\ (forall x, x ∈ wire (io w) -> x ∈ wire (io w')) /\
  (forall tx, untouched tx w -> untouched tx w') /\ (forall tx s ds0, track tx s ds0 w -> track tx s (ds0 ++ ds) w').
Proof.
  induction ds as [|d ds IH]; intros w.
  - exists w. split_and!; try done. intros tx s ds0. by rewrite app_nil_r.
  - destruct (recv_tracked d w) as (w1 & E & A1 & A2 & A3 & A4). destruct (IH w1) as (w2 & E2 & _ & B1 & B2 & B3 & B4).
    assert (Ea : receive_all (d :: ds) w = Val w2) by (cbn; by rewrite E). exists w2.
    split_and!; [done|unfold receive; by rewrite Ea|lia|auto|auto|].
    intros tx s ds0 Ht. rewrite cons_middle, app_assoc. auto.
Qed.

Lemma receive_spec ds w : let w' := receive ds w in
  (draws (io w) <= draws (io w'))%nat /\ (forall x, x ∈ wire (io w) -> x ∈ wire (io w')) /\
  (forall tx, untouched tx w -> untouched tx w') /\ (forall tx s ds0, track tx s ds0 w -> track tx s (ds0 ++ ds) w').
Proof. destruct (receive_total ds w) as (w' & _ & -> & H1). done. Qed.

(** A probe that goes out is tracked; the others are left alone. *)
Lemma stun_probe_tracked a now w r w' : stun_probe os_rng udp_ret has_v6 a now w = (r, w') ->
  let tx := os_rng (draws (io w)) 12%nat in
  untouched tx w -> (forall k, r = Ok k -> track tx now [] w') /\ forall k, k <> tx ->
    (untouched k w -> untouched k w') /\ (forall s ds, track k s ds w -> track k s ds w').
Proof.
  intros E tx [_ U2]. apply stun_probe_spec in E as (_ & P2 & _ & P4 & P5). split.
  - intros k Hr. destruct (P5 k Hr) as (_ & Q & _). unfold track. cbn. by rewrite (stun_answer_kept _ _ _ P2).
  - intros k Hk. unfold untouched, track. rewrite (stun_answer_kept w w') by done. by rewrite P4.
Qed.

(** *** A round *)

Context (probed_at : SocketAddr -> Z) (sent_then : list Z -> list Datagram).
#[local] Abbreviation send1 := (send_probe os_rng udp_ret has_v6 probed_at (fun tx => receive (sent_then tx))).
#[local] Abbreviation send := (send_probes os_rng udp_ret has_v6 probed_at (fun tx => receive (sent_then tx))).
Context (targets : list StunTarget) (d0 last_draw : nat).
Context (Hfresh : forall i j, (d0 <= i < last_draw)%nat -> (d0 <= j < last_draw)%nat -> os_rng i 12%nat = os_rng j 12%nat -> i = j).

(** The probes in flight: of a target, on the wire, tracked since their time. *)
Record probes_inv (st : list Inflight * Magic) : Prop := {
  pi_target : forall r a tx, (r, a, tx) ∈ st.1 -> exists t, t ∈ targets /\ region_id t = r /\ (ipv4_addr t = Some a \/ ipv6_addr t = Some a);
  pi_sent : forall k r a tx, st.1 !! k = Some (r, a, tx) -> (a, encode_binding_request tx) ∈ wire (io st.2) /\
    track tx (probed_at a) (concat (sent_then <$> drop k (snd <$> st.1))) st.2 /\
    exists i, (d0 <= i < draws (io st.2))%nat /\ tx = os_rng i 12%nat;
  pi_fresh : forall i, (draws (io st.2) <= i < last_draw)%nat -> untouched (os_rng i 12%nat) st.2;
  pi_draws : (d0 <= draws (io st.2))%nat
}.

Lemma send_probe_draws region target st : (draws (io st.2) <= draws (io (send1 region target st).2))%nat.
Proof.
  unfold send_probe. destruct target as [a|]; [|done]. destruct (stun_probe _ _ _ a _ st.2) as [r w] eqn:E.
  apply stun_probe_spec in E as (P1 & _). destruct r as [tx|]; cbn [snd]; [|lia]. pose proof (receive_spec (sent_then tx) w) as (? & _). lia.
Qed.

Lemma send_probe_inv t target st : t ∈ targets -> (forall a, target = Some a -> ipv4_addr t = Some a \/ ipv6_addr t = Some a) ->
  (draws (io (send1 (region_id t) target st).2) <= last_draw)%nat ->
  probes_inv st -> probes_inv (send1 (region_id t) target st).
Proof.
  intros Ht Ha Hlast [I1 I2 I3 I4]. unfold send_probe in *. destruct target as [a|]; [|by split].
  destruct (stun_probe _ _ _ a _ st.2) as [r w] eqn:E. pose proof (stun_probe_spec os_rng udp_ret has_v6 a _ _ _ _ E) as (P1 & _ & P3 & _ & P5).
  assert (Hlt : (draws (io st.2) < last_draw)%nat).
  { destruct r as [tx|]; cbn [snd] in Hlast; [pose proof (receive_spec (sent_then tx) w) as (? & _)|]; lia. }
  destruct (stun_probe_tracked a _ _ _ _ E) as [T1 T2]; [apply I3; lia|]. set (tx := os_rng (draws (io st.2)) 12%nat) in *.
  assert (Hne : forall i, (d0 <= i < last_draw)%nat -> i <> draws (io st.2) -> os_rng i 12%nat <> tx).
  { intros i Hi Hn E2. apply Hn, Hfresh; [lia|lia|done]. }
  assert (Hold : forall k r b x, st.1 !! k = Some (r, b, x) -> (b, encode_binding_request x) ∈ wire (io w) /\
    track x (probed_at b) (concat (sent_then <$> drop k (snd <$> st.1))) w /\ exists i, (d0 <= i < draws (io st.2))%nat /\ x = os_rng i 12%nat).
  { intros k y b x Hk. destruct (I2 k y b x Hk) as (J1 & J2 & i & J3 & ->). split_and!; [by apply P3| |by exists i].
    apply (T2 (os_rng i 12%nat)); [apply Hne; lia|done]. }
  assert (Hnew : forall i, (draws (io w) <= i < last_draw)%nat -> untouched (os_rng i 12%nat) w).
  { intros i Hi. apply (T2 (os_rng i 12%nat)); [apply Hne; lia|]. apply I3. lia. }
  destruct r as [k|].
  2:{ split; cbn [fst snd]; [done| |done|lia]. intros k y b x Hk. destruct (Hold k y b x Hk) as (J1 & J2 & i & J3 & ->).
      split_and!; [done|done|]. exists i. split; [lia|done]. }
  destruct (P5 k eq_refl) as (-> & _ & Q2). specialize (T1 tx eq_refl).
  destruct (receive_spec (sent_then tx) w) as (R1 & R2 & R3 & R4). split; cbn [fst snd] in *.
  - intros r b k. rewrite elem_of_app, list_elem_of_singleton. intros [Hin|[= -> -> ->]]; [by eapply I1|]. exists t. auto.
  - intros k y b x Hk. rewrite fmap_app. apply lookup_app_Some in Hk as [Hk|[Hk1 Hk2]].
    + destruct (Hold k y b x Hk) as (J1 & J2 & i & J3 & ->). apply lookup_lt_Some in Hk.
      rewrite drop_app_le, fmap_app, concat_app by (rewrite length_fmap; lia). cbn. rewrite app_nil_r.
      split_and!; [auto|by apply R4|]. exists i. split; [lia|done].
    + apply list_lookup_singleton_Some in Hk2 as [Hk2 [= <- <- <-]]. assert (k = length st.1) as -> by (unfold Inflight in *; lia).
      rewrite drop_app_length' by (by rewrite length_fmap). cbn. rewrite app_nil_r.
      split_and!; [auto|apply (R4 _ _ [] T1)|]. exists (draws (io st.2)). split; [lia|done].
  - intros i Hi. apply R3, Hnew. lia.
  - lia.
Qed.

Lemma send_probes_inv w : draws (io w) = d0 -> (draws (io (send targets w).2) <= last_draw)%nat ->
  (forall i, (d0 <= i < last_draw)%nat -> untouched (os_rng i 12%nat) w) -> probes_inv (send targets w).
Proof.
  intros Hd Hlast Hu. unfold send_probes in *.
  assert (M : forall ts st, (draws (io st.2) <= draws (io (foldl (fun st t => send1 (region_id t) (ipv6_addr t) (send1 (region_id t) (ipv4_addr t) st)) st ts).2))%nat).
  { induction ts as [|t ts IH]; intros st; cbn [foldl]; [done|]. etransitivity; [|apply IH]. etransitivity; apply send_probe_draws. }
  assert (G : forall ts st, (forall t, t ∈ ts -> t ∈ targets) -> probes_inv st ->
    (draws (io (foldl (fun st t => send1 (region_id t) (ipv6_addr t) (send1 (region_id t) (ipv4_addr t) st)) st ts).2) <= last_draw)%nat ->
    probes_inv (foldl (fun st t => send1 (region_id t) (ipv6_addr t) (send1 (region_id t) (ipv4_addr t) st)) st ts)).
  { induction ts as [|t ts IH]; intros st Hts Hst Hl; cbn [foldl] in *; [done|].
    pose proof (M ts (send1 (region_id t) (ipv6_addr t) (send1 (region_id t) (ipv4_addr t) st))) as M1.
    pose proof (send_probe_draws (region_id t) (ipv6_addr t) (send1 (region_id t) (ipv4_addr t) st)) as M2.
    apply IH; [set_solver| |done]. apply send_probe_inv; [set_solver|by right|exact (Nat.le_trans _ _ _ M1 Hl)|].
    apply send_probe_inv; [set_solver|by left|exact (Nat.le_trans _ _ _ M2 (Nat.le_trans _ _ _ M1 Hl))|done]. }
  apply G; [done| |done]. split; cbn [fst snd]; [by intros ? ? ? ?%elem_of_nil|done| |lia]. intros i Hi. apply Hu. lia.
Qed.

(** What is reported of a probe for which the datagrams [ds] came. *)
Definition measured (x : Inflight) (ds : list Datagram) : option RegionProbe :=
  let '(region, target, tx) := x in
  d ← List.find (answers tx) ds;
  match parse_binding_response (dg_bytes d) with
  | Val (Some reflected) => Some (mkProbe region target (since (dg_at d) (probed_at target)) reflected)
  | _ => None
  end.

Context (waited : list Z -> list Datagram).

Lemma track_measured r a tx ds w : track tx (probed_at a) ds w ->
  match stun_answer w tx with Some (Ok (reflected, rtt)) => [mkProbe r a rtt reflected] | _ => [] end = option_list (measured (r, a, tx) ds).
Proof.
  unfold track, measured. destruct (List.find (answers tx) ds) as [d|]; intros [_ ->]; [|done]. cbn. unfold verdict.
  by destruct (parse_binding_response (dg_bytes d)) as [[]| |].
Qed.

Lemma collect_spec rest : forall (ds : nat -> list Datagram) w,
  (forall k r a tx, rest !! k = Some (r, a, tx) -> track tx (probed_at a) (ds k) w) ->
  (collect (fun tx => receive (waited tx)) rest w).1 =
  concat (imap (fun k x => option_list (measured x (ds k ++ concat (waited <$> take (S k) (snd <$> rest))))) rest).
Proof.
  induction rest as [|[[r a] tx] rest IH]; intros ds w Ht; [done|]. cbn [collect].
  destruct (receive_spec (waited tx) w) as (_ & _ & _ & R4). set (w1 := receive (waited tx) w) in *.
  rewrite (track_measured r a tx (ds 0%nat ++ waited tx) w1) by (apply R4, (Ht 0%nat r); done).
  specialize (IH (fun k => ds (S k) ++ waited tx) w1). destruct (collect _ rest w1) as [ps w2]. cbn [fst] in *.
  rewrite IH by (intros k r' a' tx' Hk; by apply R4, (Ht (S k) r')). cbn [imap concat]. f_equal.
  - cbn. by rewrite app_nil_r.
  - f_equal. apply imap_ext. intros k x Hx. cbn. by rewrite <- app_assoc.
Qed.

(** Everything that came for the [k]-th probe until the wait for it was over. *)
Definition came (inflight : list Inflight) (k : nat) : list Datagram :=
  concat (sent_then <$> drop k (snd <$> inflight)) ++ concat (waited <$> take (S k) (snd <$> inflight)).
End Receive.

(** A server's answer: transaction id, attributes before and bytes after, the
    address it saw. *)
Record Reply : Type := mkReply { ry_tx : list Z; ry_before : list (Z * list Z); ry_saw : SocketAddr; ry_after : list Z }.
Definition reply_bytes (y : Reply) : list Z := binding_response (ry_tx y) (ry_before y) (ry_saw y) (ry_after y).
Definition reply_ok (y : Reply) : Prop :=
  length (ry_tx y) = 12%nat /\ sa_wf (ry_saw y) /\ Forall other_attr (ry_before y) /\ Z.of_nat (length (reply_bytes y)) < 2 ^ 16.
Definition seen (y : Reply) : SocketAddr := sa_new (sa_ip (ry_saw y)) (sa_port (ry_saw y)).

Lemma reply_answers y : reply_ok y -> stun_id (reply_bytes y) = Some (ry_tx y) /\ parse_binding_response (reply_bytes y) = Val (Some (seen y)).
Proof.
  intros (H1 & H2 & H3 & H4). unfold stun_id, reply_bytes in *.
  destruct (response_recognised (ry_tx y) (ry_before y) (ry_saw y) (ry_after y) H1) as [-> ->]. split; [done|]. by apply stun_response_roundtrip.
Qed.

(** ** What a report says *)

(** The smallest round trip of a family, and its address. *)
Definition best_of (family : SocketAddr -> bool) (ps : list RegionProbe) (x : option SocketAddr) : Prop :=
  match x with
  | Some a => exists p, p ∈ ps /\ rp_reflected p = a /\ family a = true /\
      forall q, q ∈ ps -> family (rp_reflected q) = true -> rp_rtt p <= rp_rtt q
  | None => forall q, q ∈ ps -> family (rp_reflected q) = false
  end.

Record report_ok (rep : NetcheckReport) : Prop := {
  ro_none : probes rep = [] -> preferred_derp rep = 0;
  ro_preferred : probes rep <> [] -> exists p, p ∈ probes rep /\ preferred_derp rep = rp_region_id p /\ forall q, q ∈ probes rep -> rp_rtt p <= rp_rtt q;
  ro_v4 : best_of is_ipv4 (probes rep) (rep_public_endpoint rep);
  ro_v6 : best_of is_ipv6 (probes rep) (rep_public_endpoint_v6 rep);
  ro_latency : forall r, match derp_latency rep !! r with
                         | Some ns => exists p, p ∈ probes rep /\ rp_region_id p = r /\ rp_rtt p = ns
                         | None => forall p, p ∈ probes rep -> rp_region_id p <> r
                         end
}.

Lemma best_of_min family ps :
  best_of family ps (rp_reflected <$> min_by rp_rtt (filter (fun p => family (rp_reflected p) = true) ps)).
Proof.
  pose proof (min_by_spec rp_rtt (filter (fun p => family (rp_reflected p) = true) ps)) as H. destruct (min_by _ _) as [p|]; cbn.
  - destruct H as [Hin Hall]. apply list_elem_of_filter in Hin as [Hf Hin]. exists p. split_and!; try done.
    intros q Hq Hqf. rewrite list.Forall_forall in Hall. apply Hall, list_elem_of_filter. done.
  - intros q Hq. destruct (family (rp_reflected q)) eqn:E; [|done]. exfalso.
    assert (q ∈ filter (fun p => family (rp_reflected p) = true) ps) by (by apply list_elem_of_filter). by rewrite H in H0; apply elem_of_nil in H0.
Qed.

Lemma aggregate_ok ps : report_ok (aggregate ps).
Proof.
  pose proof (min_by_spec rp_rtt ps) as H. split; cbn [aggregate probes preferred_derp rep_public_endpoint rep_public_endpoint_v6 derp_latency].
  - by intros ->.
  - intros Hne. destruct (min_by rp_rtt ps) as [p|]; [|done]. destruct H as [Hin Hall]. rewrite list.Forall_forall in Hall. by exists p.
  - apply best_of_min.
  - apply best_of_min.
  - intros r. rewrite latency_fold. destruct (list.last _) as [p|] eqn:E.
    + apply last_Some_elem_of, list_elem_of_filter in E as [Hr Hin]. by exists p.
    + rewrite lookup_empty. intros p Hp Hr. apply last_None in E.
      assert (Hf : p ∈ filter (fun p => rp_region_id p = r) ps) by (by apply list_elem_of_filter). rewrite E in Hf. by apply elem_of_nil in Hf.
Qed.

(** ** The transport *)

Section DualLemmas.
Context `{CryptoBox} (os_rng : nat -> nat -> list Z) (udp_ret : nat -> nat -> option nat) (has_v6 : bool) (our_disco_priv our_node_pub : list Z).
#[local] Abbreviation drecv := (dual_recv os_rng udp_ret has_v6 our_disco_priv our_node_pub).
#[local] Abbreviation run := (rx_run os_rng udp_ret has_v6 our_disco_priv our_node_pub).

(** The magic socket's channel is left alone by a relayed disco message. *)
Lemma derp_disco_channel bytes now w :
  non_disco (io (handle_disco_from_derp os_rng udp_ret has_v6 our_disco_priv our_node_pub bytes now w)) = non_disco (io w).
Proof.
  destruct (derp_disco_cases os_rng udp_ret has_v6 our_disco_priv our_node_pub bytes now w) as [->|(sender & cmm & ->)]; [done|].
  unfold handle_call_me_maybe. destruct (_ !! sender) as [node|]; [|done]. destruct (_ !! node) as [peer|]; [|done].
  assert (G : forall l u, non_disco (io (foldl (ping_one os_rng udp_ret has_v6 our_disco_priv our_node_pub now node (disco_pub peer)) u l)) = non_disco (io u)).
  { induction l as [|a l IH]; intros u; cbn [foldl]; [done|]. rewrite IH. unfold ping_one, send_ping, encode_and_send_ping, draw, udp_send.
    destruct (for_addr has_v6 a); [|done]. cbn. destruct (ping_packet _ _ _ _ _); [|done]. by destruct (udp_ret _ _). }
  by rewrite G.
Qed.

Definition udp_in (es : list Rx) : list (SocketAddr * list Z) := omap (fun e => match e with RxUdp s b => Some (s, b) | _ => None end) es.
Definition derp_in (es : list Rx) : list (Z * list Z * list Z) := omap (fun e => match e with RxDerp r s b => Some (r, s, b) | _ => None end) es.
Definition udp_out (out : list (TransportAddr * list Z)) : list (SocketAddr * list Z) := omap (fun '(a, b) => match a with Udp s => Some (s, b) | _ => None end) out.
Definition derp_out (out : list (TransportAddr * list Z)) : list (Z * list Z * list Z) := omap (fun '(a, b) => match a with Derp r s => Some (r, s, b) | _ => None end) out.
(** Frames that are WireGuard's. *)
Definition for_engine (l : list (Z * list Z * list Z)) : list (Z * list Z * list Z) := filter (fun f => is_disco_message f.2 = false) l.

Lemma omap_snoc {A B} (f : A -> option B) l x : omap f (l ++ [x]) = omap f l ++ match f x with Some y => [y] | None => [] end.
Proof. rewrite omap_app. cbn. by destruct (f x). Qed.

Lemma rx_run_inv es t out t' : run es t = (out, t') ->
  non_disco (io (magic t)) ++ udp_in es = udp_out out ++ non_disco (io (magic t')) /\
  exists taken, derp_rx t ++ derp_in es = taken ++ derp_rx t' /\ derp_out out = for_engine taken.
Proof.
  revert out t'. induction es as [|e es IH] using rev_ind; intros out t'.
  - intros [= <- <-]. cbn. rewrite !app_nil_r. split; [done|]. by exists [].
  - unfold rx_run in *. rewrite foldl_app. cbn [foldl]. destruct (foldl _ ([], t) es) as [out1 t1]. destruct (IH _ _ eq_refl) as [I1 (taken & I2 & I3)].
    unfold udp_in, derp_in in *. rewrite !omap_snoc. destruct e as [src b|r src b|now]; cbn [rx_step].
    + intros [= <- <-]. cbn. rewrite app_nil_r, app_assoc, I1, <- app_assoc. split; [done|]. by exists taken.
    + intros [= <- <-]. cbn [magic derp_rx]. rewrite app_nil_r. split; [done|]. exists taken. by rewrite app_assoc, I2, <- app_assoc.
    + rewrite !app_nil_r. unfold dual_recv. destruct (non_disco (io (magic t1))) as [|[src b] rest] eqn:En.
      * destruct (derp_rx t1) as [|[[r src] b] rest] eqn:Er.
        { intros [= <- <-]. rewrite app_nil_r, Er. split; [by rewrite En|]. by exists taken. }
        destruct (is_disco_message b) eqn:Ed; intros [= <- <-]; cbn [magic derp_rx].
        -- rewrite app_nil_r, derp_disco_channel, En. split; [done|]. exists (taken ++ [(r, src, b)]). rewrite I2, <- app_assoc. split; [done|].
           unfold for_engine. rewrite list.filter_app, filter_cons_False, filter_nil, app_nil_r by (cbn; congruence). done.
        -- unfold udp_out, derp_out in *. rewrite !omap_snoc, app_nil_r, En. split; [done|]. exists (taken ++ [(r, src, b)]). rewrite I2, <- app_assoc. split; [done|].
           unfold for_engine. rewrite list.filter_app, filter_cons_True, filter_nil by done. by rewrite I3.
      * intros [= <- <-]. cbn. unfold udp_out, derp_out in *. rewrite !omap_snoc, app_nil_r, I1, <- app_assoc. split; [done|]. by exists taken.
Qed.

(** A call takes one item, UDP or relayed, if there is one. *)
Definition waiting (t : Dual) : nat := length (non_disco (io (magic t))) + length (derp_rx t).

Lemma recv_takes now t : waiting (drecv now t).2 = pred (waiting t).
Proof.
  unfold dual_recv, waiting. destruct (non_disco (io (magic t))) as [|[src b] rest] eqn:En; [|cbn; lia].
  destruct (derp_rx t) as [|[[r src] b] rest] eqn:Er; [cbn; by rewrite En, Er|].
  destruct (is_disco_message b); cbn; rewrite ?derp_disco_channel, En; done.
Qed.

Lemma recvs_drain nows : forall st, (waiting st.2 <= length nows)%nat ->
  waiting (foldl (rx_step os_rng udp_ret has_v6 our_disco_priv our_node_pub) st (RxRecv <$> nows)).2 = 0%nat.
Proof.
  induction nows as [|now nows IH]; intros [out t] Hw; cbn [fmap list_fmap foldl]; [cbn in *; lia|]. apply IH.
  cbn [rx_step]. pose proof (recv_takes now t) as Ht. destruct (drecv now t) as [r t1]. cbn in *. lia.
Qed.
End DualLemmas.

(** * Theorems *)


(** the joined transport loses, repeats and reorders nothing.  Whatever arrives
    between the calls: the UDP packets handed to the engine followed by those
    still queued are the ones that arrived, in order; the relayed frames handed
    over are, in order, those taken from the relays that are not disco messages,
    which never reach the engine; and as many further calls as there are queued
    packets empty both queues. *)
Theorem dual_transport_in_order `{CryptoBox} os_rng udp_ret has_v6 our_disco_priv our_node_pub es nows (t : Dual) :
  let '(out, t') := rx_run os_rng udp_ret has_v6 our_disco_priv our_node_pub es t in
  (exists taken, non_disco (io (magic t)) ++ udp_in es = udp_out out ++ non_disco (io (magic t')) /\
     derp_rx t ++ derp_in es = taken ++ derp_rx t' /\ derp_out out = for_engine taken /\
     Forall (fun f => is_disco_message f.2 = false) (derp_out out)) /\
  ((waiting t' <= length nows)%nat ->
   waiting (rx_run os_rng udp_ret has_v6 our_disco_priv our_node_pub (es ++ (RxRecv <$> nows)) t).2 = 0%nat).
Proof.
  destruct (rx_run _ _ _ _ _ es t) as [out t'] eqn:E. split.
  - destruct (rx_run_inv os_rng udp_ret has_v6 our_disco_priv our_node_pub es t out t' E) as [H1 (taken & H2 & H3)].
    exists taken. split_and!; try done. rewrite H3. apply list.Forall_forall. intros f Hf. by apply list_elem_of_filter in Hf as [? _].
  - intros Hw. unfold rx_run in *. rewrite foldl_app, E. by apply recvs_drain.
Qed.

(** Relayed frames wait as long as UDP packets keep coming: with one before every
    call no frame of a relay is ever taken. *)
Theorem dual_transport_starves `{CryptoBox} os_rng udp_ret has_v6 our_disco_priv our_node_pub (l : list (SocketAddr * list Z * Z)) (t : Dual) :
  non_disco (io (magic t)) = [] ->
  let es := flat_map (fun '(src, b, now) => [RxUdp src b; RxRecv now]) l in
  (rx_run os_rng udp_ret has_v6 our_disco_priv our_node_pub es t).1 = (fun '(src, b, _) => (Udp src, b)) <$> l /\
  derp_rx (rx_run os_rng udp_ret has_v6 our_disco_priv our_node_pub es t).2 = derp_rx t.
Proof.
  intros Hn. cbv zeta. unfold rx_run.
  assert (G : forall out u, non_disco (io (magic u)) = [] ->
    let r := foldl (rx_step os_rng udp_ret has_v6 our_disco_priv our_node_pub) (out, u) (flat_map (fun '(src, b, now) => [RxUdp src b; RxRecv now]) l) in
    r.1 = out ++ ((fun '(src, b, _) => (Udp src, b)) <$> l) /\ derp_rx r.2 = derp_rx u).
  { clear. induction l as [|[[src b] now] l IH]; intros out u Hu; cbn [flat_map app foldl]; [by rewrite app_nil_r|].
    cbn [rx_step]. rewrite Hu. cbn [app]. unfold dual_recv. cbn [magic set_non_disco with_io io non_disco].
    destruct (IH (out ++ [(Udp src, b)]) (mkDual (set_non_disco [] (set_non_disco [(src, b)] (magic u))) (mux u) (derp_map_set u) (derp_rx u)) eq_refl) as [E1 E2].
    split; [etransitivity; [exact E1|]; by rewrite <- app_assoc|exact E2]. }
  destruct (G [] t Hn) as [-> ->]. done.
Qed.

(** What is advertised after a check: the bound address comes first and no address
    comes twice, the public addresses are all there and are what control is told,
    the relay preferred is the check's or, if none answered, the home, and every
    region has a latency. *)
Theorem netinfo_advertises show6 report latencies regions home fallback local local_v6 :
  local_v6 <> Some local ->
  let i := netinfo_round show6 report latencies regions home fallback local local_v6 in
  head (ni_local i) = Some local /\ NoDup (ni_local i) /\
  (forall a, a ∈ ni_local i <-> a = local \/ local_v6 = Some a \/ ni_public i = Some a \/
     match rep_public_endpoint_v6 report with Some b => a = b | None => fallback.2 = Some a end) /\
  ni_public i = (match rep_public_endpoint report with Some a => Some a | None => fallback.1 end) /\
  (forall a, ni_public i = Some a -> show_addr show6 a ∈ ni_extra i) /\
  (preferred_derp report <> 0 -> ni_preferred i = preferred_derp report) /\ (preferred_derp report = 0 -> ni_preferred i = home) /\
  (latencies = [] -> forall r, r ∈ regions -> (dec r ++ bs "-v4", 50000000) ∈ ni_latencies i) /\
  (forall r ns, (r, ns) ∈ latencies -> (dec r ++ bs "-v4", ns) ∈ ni_latencies i).
Proof.
  intros Hv6. cbv zeta. unfold netinfo_round. cbn [ni_local ni_public ni_extra ni_preferred ni_latencies].
  set (pub := match rep_public_endpoint report with Some a => Some a | None => fallback.1 end).
  set (pub6 := match rep_public_endpoint_v6 report with Some a => Some a | None => fallback.2 end).
  set (base := local :: match local_v6 with Some a => [a] | None => [] end).
  assert (Hb : NoDup base).
  { unfold base. destruct local_v6 as [a|]; [|apply NoDup_singleton]. apply list.NoDup_cons. split; [|apply NoDup_singleton].
    rewrite list_elem_of_singleton. congruence. }
  assert (Hp : forall x l, head (push_new x l) = match l with [] => x | a :: _ => Some a end /\ (NoDup l -> NoDup (push_new x l)) /\
                 forall a, a ∈ push_new x l <-> a ∈ l \/ x = Some a).
  { intros [x|] l; cbn [push_new]; [|split_and!; [by destruct l|done|intros a; naive_solver]]. case_decide as Hx.
    - split_and!; [destruct l; [by apply elem_of_nil in Hx|done]|done|]. intros a. split; [by left|]. intros [?|[= ->]]; done.
    - split_and!; [by destruct l| |].
      + intros Hl. apply list.NoDup_app. split_and!; [done| |apply NoDup_singleton]. intros a Ha. rewrite list_elem_of_singleton. by intros ->.
      + intros a. rewrite elem_of_app, list_elem_of_singleton. naive_solver. }
  destruct (Hp pub base) as (A1 & A2 & A3). destruct (Hp pub6 (push_new pub base)) as (B1 & B2 & B3).
  split_and!; try done.
  - rewrite B1. destruct (push_new pub base) as [|x l] eqn:E; cbn in A1; congruence.
  - auto.
  - intros a. rewrite B3, A3. unfold base, pub6. rewrite elem_of_cons. destruct local_v6 as [b|]; rewrite ?list_elem_of_singleton, ?elem_of_nil;
      destruct (rep_public_endpoint_v6 report); naive_solver.
  - intros a ->. apply list_elem_of_omap. exists (Some a). split; [by left|done].
  - intros Hne. by rewrite (proj2 (Z.eqb_neq _ _) Hne).
  - intros ->. done.
  - intros -> r Hr. apply list_elem_of_In, in_flat_map. exists r. split; [by apply list_elem_of_In|]. by left.
  - intros r ns Hr. destruct latencies as [|x l]; [by apply elem_of_nil in Hr|]. by apply (list_elem_of_fmap_2 (fun '(rid, ns) => (dec rid ++ bs "-v4", ns))) in Hr.
Qed.

(** A region probed over both families is listed with the later of its two
    latencies, under the key for IPv4, even when it is not the smaller one. *)
Theorem netcheck_latency_overwritten rid a4 a6 r4 r6 fast slow : fast < slow ->
  let rep := aggregate [mkProbe rid a4 fast r4; mkProbe rid a6 slow r6] in
  derp_latency rep = {[rid := slow]} /\ preferred_derp rep = rid.
Proof.
  intros Hlt. cbn. rewrite insert_insert_eq. split; [done|]. unfold min_by. cbn. by rewrite (proj2 (Z.ltb_ge slow fast)) by lia.
Qed.

(** ** Samples *)

Definition draw_rng (k n : nat) : list Z := replicate n (Z.of_nat k mod 256).
Definition relay (n : Z) : SocketAddr := SAV4 (ipv4_new 198 51 100 n) STUN_PORT.
Definition toy_targets : list StunTarget := [mkTarget 1 (Some (relay 1)) None; mkTarget 2 (Some (relay 2)) (Some (SAV6 1 STUN_PORT 0 0))].
Definition ourselves : SocketAddr := SAV4 (ipv4_new 203 0 113 7) 41641.
(** The second region answers first, while the first is waited for; then come a
    forged answer with an id of nobody, a packet of WireGuard's, the first
    region's answer and a second answer of the second region, too late. *)
Definition from (tx : list Z) (n at_ : Z) : Datagram := mkDatagram (reply_bytes (mkReply tx [] ourselves [])) (relay n) at_.
Definition toy_waited (tx : list Z) : list Datagram :=
  if decide (tx = draw_rng 0 12) then
    [from (draw_rng 1 12) 2 30; from (draw_rng 9 12) 1 31; mkDatagram [4; 0; 0; 0] (relay 2) 32; from (draw_rng 0 12) 1 50; from (draw_rng 1 12) 2 60]
  else [].


Definition toy_dual : Dual := mkDual magic_init (mux_new 2) true [(1, [5], bs "wg"); (1, [6], bs "wg2")].

Lemma dual_transport_in_order_sample :
  (rx_run draw_rng toy_ret false [] [] [RxUdp (relay 1) (bs "a"); RxRecv 0; RxRecv 1; RxDerp 2 [7] (bs "b"); RxRecv 2; RxRecv 3] toy_dual).1 =
  [(Udp (relay 1), bs "a"); (Derp 1 [5], bs "wg"); (Derp 1 [6], bs "wg2"); (Derp 2 [7], bs "b")].
Proof. vm_compute. reflexivity. Qed.

Lemma dual_transport_starves_witness :
  (rx_run draw_rng toy_ret false [] [] [RxUdp (relay 1) (bs "a"); RxRecv 0; RxUdp (relay 2) (bs "b"); RxRecv 1] toy_dual).1 =
  [(Udp (relay 1), bs "a"); (Udp (relay 2), bs "b")].
Proof. exact (proj1 (dual_transport_starves draw_rng toy_ret false [] [] [(relay 1, bs "a", 0); (relay 2, bs "b", 1)] toy_dual eq_refl)). Defined.
