(* ===== verification/EventLoop.v ===== *)
(** The event loop of the runtime in full (tailscale-vita: runtime.rs,
    Runtime::run_event_loop): signals, logout, parking, reconnect, the map
    stream, the relay map and home, the network check, the netstack addresses,
    the engine, the magic socket, relayed call-me-maybe, the published snapshot
    and the tracker, over the files and keys of [Session].

    [event_pass] is one pass, a function of what it meets. *)

From S2P Require Import Prelude NetTypes Text Disco Stun WgPolicy WgEngine DerpFrame DerpMux Magicsock Netmap VitaFs Keys Noise MapStream Runtime Login LocalApi Session Paths.
#[local] Open Scope Z_scope.

(** ** Parameters *)

(** Random bytes, the UDP socket, the relay handshake, IPv6 text, the iteration
    orders of hash maps, JSON and zstd of the map stream, the text of an error,
    the connect trick and DNS. *)
Class Surroundings : Type := {
  s_box :: CryptoBox;
  s_rng : nat -> nat -> list Z; s_udp : nat -> nat -> option nat; s_v6 : bool;
  s_dial : DerpNodeAddr -> result DerpError unit;
  s_p6 : list Z -> option SocketAddr; s_show6 : SocketAddr -> list Z;
  s_iter : gmap SocketAddr PathState -> list (SocketAddr * PathState);
  s_keys : gmap (list Z) PeerSnapshot -> list (list Z);
  s_region_keys : gmap (list Z) Z -> list (list Z);
  s_regions : gmap Z DerpRegionSnapshot -> list (Z * DerpRegionSnapshot);
  s_latencies : gmap Z Z -> list (Z * Z);
  s_json : list Z -> option Response; s_unzstd : list Z -> option (list Z);
  s_error_text : ControlError -> list Z;
  s_lan : list Z -> option IpAddr; s_resolve : list Z -> list SocketAddr;
  s_local : SocketAddr; s_local_v6 : option SocketAddr
}.

(** What one pass meets: the signals queued, whether a sleep is cut short, the
    clocks, the exchanges with control, the map stream's events, and what the
    threads of the magic socket and of the relays have done meanwhile. *)
Record PassIn : Type := mkPassIn {
  i_signals : list ControlSignal; i_stop : bool; i_called : Z; i_now : Z; i_published : Z; i_unix : Z;
  i_logout : Attempt; i_boot : Attempt; i_wakes : list Wake;
  i_magic : Magic -> Magic; i_mux : MuxInner -> MuxInner; i_pick : result DerpError Z;
  i_probed : SocketAddr -> Z; i_sent : list Z -> Magic -> Magic; i_worker : list Z -> Magic -> Magic; i_waits : list Z -> Magic -> Magic;
  i_resp : result ControlError Z; i_died : list Z -> bool
}.

Definition U32_MAX : Z := 2 ^ 32 - 1.

Section EventLoop.
Context {W : Type} `{Fs W} {St Hs : Type} `{NoiseOps St Hs} `{!Outside St Hs} {T : Type} `{TunnOps T} `{!Surroundings}.
(** The configuration, and when the loop was started. *)
Context (cfg : Settings) (started_at : Z).

(** The node, the magic socket and the relays, and the loop's locals. *)
Record Rt : Type := mkRt {
  r_node : Node W T; r_magic : Magic; r_mux : MuxInner;
  r_want : bool; r_attempt : Z; r_derp_set : bool; r_netinfo_sent : bool; r_addrs_set : bool;
  r_public : option SocketAddr; r_stack : list AllowedIp; r_tailnet_ip : option Z; r_last_publish : Z;
  r_snapshots : Z; r_keepalives : Z; r_errors : Z
}.

Definition set_node (n : Node W T) (r : Rt) : Rt :=
  mkRt n (r_magic r) (r_mux r) (r_want r) (r_attempt r) (r_derp_set r) (r_netinfo_sent r) (r_addrs_set r) (r_public r) (r_stack r) (r_tailnet_ip r)
    (r_last_publish r) (r_snapshots r) (r_keepalives r) (r_errors r).
Definition set_run (want : bool) (attempt : Z) (r : Rt) : Rt :=
  mkRt (r_node r) (r_magic r) (r_mux r) want attempt (r_derp_set r) (r_netinfo_sent r) (r_addrs_set r) (r_public r) (r_stack r) (r_tailnet_ip r)
    (r_last_publish r) (r_snapshots r) (r_keepalives r) (r_errors r).
Definition set_net (m : Magic) (x : MuxInner) (r : Rt) : Rt :=
  mkRt (r_node r) m x (r_want r) (r_attempt r) (r_derp_set r) (r_netinfo_sent r) (r_addrs_set r) (r_public r) (r_stack r) (r_tailnet_ip r)
    (r_last_publish r) (r_snapshots r) (r_keepalives r) (r_errors r).
Definition set_flags (derp netinfo addrs : bool) (r : Rt) : Rt :=
  mkRt (r_node r) (r_magic r) (r_mux r) (r_want r) (r_attempt r) derp netinfo addrs (r_public r) (r_stack r) (r_tailnet_ip r)
    (r_last_publish r) (r_snapshots r) (r_keepalives r) (r_errors r).
Definition count (s k e : Z) (r : Rt) : Rt :=
  mkRt (r_node r) (r_magic r) (r_mux r) (r_want r) (r_attempt r) (r_derp_set r) (r_netinfo_sent r) (r_addrs_set r) (r_public r) (r_stack r) (r_tailnet_ip r)
    (r_last_publish r) (r_snapshots r + s) (r_keepalives r + k) (r_errors r + e).

Definition set_parts (disk : W * nat) (t : LifecycleTracker) (s : RuntimeSnapshot) (e : Engine T) (regions : gmap (list Z) Z) (m : option MapClient) (r : Rt) : Rt :=
  set_node (mkNodeState disk (n_ks (r_node r)) t s e regions m) r.
Definition track (f : LifecycleTracker -> LifecycleTracker) (r : Rt) : Rt :=
  let n := r_node r in set_parts (n_disk n) (f (n_tracker n)) (n_snapshot n) (n_engine n) (n_regions n) (n_map n) r.
Definition drop_map (r : Rt) : Rt :=
  let n := r_node r in set_parts (n_disk n) (n_tracker n) (n_snapshot n) (n_engine n) (n_regions n) None r.
Definition show (f : LifecycleTracker -> RuntimeSnapshot -> RuntimeSnapshot) (r : Rt) : Rt :=
  let n := r_node r in set_parts (n_disk n) (n_tracker n) (f (n_tracker n) (n_snapshot n)) (n_engine n) (n_regions n) (n_map n) r.

(** ** Signals *)

Definition on_signal (i : PassIn) (fatal : bool) (st : Rt * bool * bool) (sig : ControlSignal) : Rt * bool * bool :=
  let '(r, logout, login) := st in
  if fatal then st
  else match sig with
       | ForceReconnect => (set_run (r_want r) 0 (drop_map r), logout, login)
       | SetWantRunning desired =>
           if desired && negb (r_want r) then (set_run true 0 (drop_map (track clear_stopped r)), logout, login)
           else if negb desired && r_want r then
             let n := r_node r in
             let t := set_stopped (n_tracker n) in
             let r := set_parts (delete_session_state (cfg_state_dir cfg) (n_disk n).1, (n_disk n).2) t
                        (publish_parked_state (i_unix i) t None false false (n_snapshot n))
                        (clear_engine_peers s_region_keys (n_engine n) (n_regions n)) ∅ None r in
             (set_run false 0 r, logout, login)
           else st
       | Logout => (r, true, login)
       | LoginInteractive => (r, logout, true)
       end.

(** ** A map event *)

Definition republish (i : PassIn) (c : MapClient) (r : Rt) : Rt :=
  let r := show (fun t s => publish_snapshot s_show6 (fun k => alive_endpoint s_iter k (i_now i) (r_magic r)) (fun k => peer_rtt s_iter k (i_now i) (r_magic r))
                              (i_unix i) started_at (cfg_hostname (control cfg)) (MapStream.netmap c) s_local (home (r_mux r)) (alive_regions (r_mux r))
                              (r_public r) (state t) (fatal_reason t) s) r in
  mkRt (r_node r) (r_magic r) (r_mux r) (r_want r) (r_attempt r) (r_derp_set r) (r_netinfo_sent r) (r_addrs_set r) (r_public r) (r_stack r) (r_tailnet_ip r)
    (i_published i) (r_snapshots r) (r_keepalives r) (r_errors r).

(** The first relay map: the home is picked and dialled. *)
Definition on_derp_map (i : PassIn) (nm : NetMap) (region_count : nat) (r : Rt) : Rt :=
  if negb (r_derp_set r) && (0 <? region_count)%nat then
    let x := set_derp_map (r_mux r) (build_derp_map nm) in
    let x := match i_pick i with Ok region => (set_home s_dial (i_now i) x region).2 | Err _ => x end in
    set_flags true (r_netinfo_sent r) (r_addrs_set r) (set_net (r_magic r) x r)
  else r.

(** The network check and the lite request, once per session. *)
Definition on_netinfo (i : PassIn) (c : MapClient) (r : Rt) : Rt * list Message :=
  if r_derp_set r && negb (r_netinfo_sent r) then
    let nm := MapStream.netmap c in
    let '(report, m) := probe_targets s_rng s_udp s_v6 (i_probed i) (i_sent i) (i_worker i) (netcheck_targets s_p6 (s_regions (derp_regions nm))) (r_magic r) in
    let '(fallback, m) :=
      match rep_public_endpoint report, rep_public_endpoint_v6 report with
      | Some _, Some _ => ((None, None), m)
      | _, _ => let '(v4, v6, m) := discover_public_endpoints_dual s_rng s_udp s_v6 (i_probed i) s_resolve (i_waits i) m in ((v4, v6), m)
      end in
    let info := netinfo_round s_show6 report (s_latencies (derp_latency report)) (s_regions (derp_regions nm)).*1 (home (r_mux r)) fallback s_local s_local_v6 in
    let m := Magicsock.set_local_endpoints (ni_local info) m in
    let '(req, _) := send_netinfo_update (i_resp i) (ni_preferred info) (ni_latencies info) (ni_extra info) c in
    let r := set_flags (r_derp_set r) true (r_addrs_set r) (set_net m (r_mux r) r) in
    (mkRt (r_node r) (r_magic r) (r_mux r) (r_want r) (r_attempt r) (r_derp_set r) (r_netinfo_sent r) (r_addrs_set r) (ni_public info) (r_stack r)
       (r_tailnet_ip r) (r_last_publish r) (r_snapshots r) (r_keepalives r) (r_errors r), [MNetinfo req])
  else (r, []).

(** The first addresses of ours go to the netstack and to the FTP service. *)
Definition on_addrs (addrs : list AllowedIp) (r : Rt) : Rt :=
  if negb (r_addrs_set r) && negb (is_empty addrs) then
    mkRt (r_node r) (r_magic r) (r_mux r) (r_want r) (r_attempt r) (r_derp_set r) (r_netinfo_sent r) true (r_public r) addrs (ai_addr <$> head addrs)
      (r_last_publish r) (r_snapshots r) (r_keepalives r) (r_errors r)
  else r.

Definition on_event (i : PassIn) (c : MapClient) (ev : MapEvent) (r : Rt) : Rt * list Message :=
  match ev with
  | Snapshot _ addrs _ region_count pf delta =>
      let r := on_derp_map i (MapStream.netmap c) region_count (track (record_map_event (i_now i)) (count 1 0 0 r)) in
      let '(r, sent) := on_netinfo i c r in
      let r := on_addrs addrs r in
      let n := r_node r in
      let our_home := home (r_mux r) in
      let r := set_parts (n_disk n) (n_tracker n) (n_snapshot n) (push_delta_to_engine delta pf our_home (n_engine n))
                 (update_peer_regions delta our_home (n_regions n)) (n_map n) r in
      let r := set_net (push_delta_to_magicsock s_iter delta (i_now i) (r_magic r)) (r_mux r) r in
      (republish i c r, sent)
  | KeepAlive _ => (track (record_map_event (i_now i)) (count 0 1 0 r), [])
  | Idle => (r, [])
  end.

(** Queued call-me-maybe messages go through the peer's relay. *)
Definition send_cmm (i : PassIn) (regions : gmap (list Z) Z) (derp_set : bool) (x : MuxInner) (p : list Z * list Z) : MuxInner :=
  match regions !! p.1 with
  | Some region => if region =? 0 then x else (derp_send s_dial (i_now i) derp_set x region p.1 p.2 (i_died i p.1)).2
  | None => x
  end.
Definition drain_cmm (i : PassIn) (r : Rt) : Rt :=
  let '(pending, m) := take_pending_cmm (r_magic r) in
  set_net m (foldl (send_cmm i (n_regions (r_node r)) (r_derp_set r)) (r_mux r) pending) r.

Definition end_of_pass (i : PassIn) (c : MapClient) (r : Rt) : Rt :=
  let r := if 3 * NS <=? i_published i - r_last_publish r then republish i c r else r in
  let r := drain_cmm i r in
  let r := if is_empty (alive_regions (r_mux r)) then r else track (record_derp_rx (i_now i)) r in
  track (tick (i_now i)) r.

(** ** One pass *)

Inductive PassEnd : Type := Continue (r : Rt) | Break (r : Rt) | Relogin (r : Rt) | FailedWith (e : ControlError) (r : Rt).

Definition slept (i : PassIn) (r : Rt) : PassEnd := if i_stop i then Break r else Continue r.

Definition fail_with (i : PassIn) (kind : FatalKind) (e : ControlError) (r : Rt) : PassEnd :=
  FailedWith e (show (publish_fatal_state (i_unix i)) (track (mark_fatal kind (s_error_text e)) r)).

Definition poll_event (i : PassIn) (c : MapClient) (r : Rt) : PassEnd * list Message :=
  let n := r_node r in
  let '(w, (c, res), _) := next_event x_pid s_json s_unzstd s_p6 s_keys (i_called i) (i_now i) (i_wakes i) c (n_disk n).1 in
  let r := set_parts (w, (n_disk n).2) (n_tracker n) (n_snapshot n) (n_engine n) (n_regions n) (Some c) r in
  match res with
  | Err e =>
      let r := count 0 0 1 r in
      (match classify_control_error e with
       | AuthFatal => fail_with i FatalAuth e r
       | SecurityFatal => fail_with i FatalSecurity e r
       | Transient => Continue (set_run (r_want r) 0 (drop_map (track record_control_reconnect r)))
       end, [])
  | Ok ev =>
      let '(r, sent) := on_event i c ev (set_run (r_want r) 0 r) in
      (Continue (end_of_pass i c r), sent)
  end.

Definition reconnect_pass (i : PassIn) (r : Rt) : outcome (PassEnd * list Message) :=
  if i_stop i then Val (Break r, [])
  else
    let n := r_node r in
    let eps := build_local_endpoints s_show6 s_lan (control_url (control cfg)) s_local in
    '(w, sent, res) ← bootstrap_control_session (i_boot i) cfg (n_ks n) eps (endpoint_types eps) (n_disk n).1;
    let r := set_node (set_files w n) r in
    match res with
    | Ok (Session m) =>
        let n := r_node r in
        let r := set_parts (n_disk n) (n_tracker n) (n_snapshot n) (n_engine n) (n_regions n) (Some m) r in
        let '(e, sent') := poll_event i m (set_flags (r_derp_set r) false (r_addrs_set r) r) in
        Val (e, sent ++ sent')
    | Ok NeedsInteractiveLogin => Val (Relogin r, sent)
    | Err e =>
        Val (match classify_control_error e with
             | AuthFatal => fail_with i FatalAuth e r
             | SecurityFatal => fail_with i FatalSecurity e r
             | Transient => Continue (set_run (r_want r) (Z.min (r_attempt r + 1) U32_MAX) r)
             end, sent)
    end.

Definition event_pass (i : PassIn) (r : Rt) : outcome (PassEnd * list Message) :=
  let r := set_net (i_magic i (r_magic r)) (i_mux i (r_mux r)) r in
  let fatal := is_fatal (state (n_tracker (r_node r))) in
  let '(r, logout, login) := foldl (on_signal i fatal) (r, false, false) (i_signals i) in
  if login && r_want r then Val (Relogin r, [])
  else if logout then
    '(n, sent) ← Session.perform_logout s_region_keys (i_logout i) (i_unix i) cfg (r_node r);
    Val (Continue (set_run true 0 (set_node n r)), sent)
  else if negb (r_want r) then
    Val (slept i (show (fun t s => publish_parked_state (i_unix i) t None false false s) (track set_stopped r)), [])
  else match n_map (r_node r) with
       | Some c => Val (poll_event i c r)
       | None =>
           if decide (state (n_tracker (r_node r)) = NeedsLogin)
           then Val (slept i (show (fun t s => publish_parked_state (i_unix i) t None false true s) r), [])
           else reconnect_pass i r
       end.

(** Passes until one leaves the loop; the requests sent. *)
Fixpoint event_loop (is_ : list PassIn) (r : Rt) : outcome (PassEnd * list Message) :=
  match is_ with
  | [] => Val (Continue r, [])
  | i :: rest =>
      '(e, sent) ← event_pass i r;
      match e with
      | Continue r => '(e, sent') ← event_loop rest r; Val (e, sent ++ sent')
      | _ => Val (e, sent)
      end
  end.
End EventLoop.
Arguments Rt W T : clear implicits.

(** * Lemmas *)

(** ** Session files *)

Lemma seq_file : LAST_SEQ_FILE ∈ session_files.
Proof. apply (bool_decide_unpack _). vm_compute. done. Qed.
Lemma handle_file : SESSION_HANDLE_FILE ∈ session_files.
Proof. apply (bool_decide_unpack _). vm_compute. done. Qed.

Section Disk.
Context {W : Type} {d : list Z} `{FsLaws W d} (pid : Z) (Hd : tidy d) (Hpid : 0 <= pid).

Lemma tmp_apart f : f ∈ session_files -> apart (tmp_name pid f).
Proof.
  intros Hf. destruct (session_file_facts f Hf) as [Hp _]. split; [by apply tmp_plain|]. unfold cache_files. rewrite !not_elem_of_cons.
  split_and!; [..|apply not_elem_of_nil]; (eapply tmp_name_ne; [done|vm_compute; reflexivity|lia]).
Qed.

(** What the session files say is the same in both. *)
Definition same_session (w w' : W) : Prop :=
  seq_of (d := d) w' = seq_of (d := d) w /\ handle_of (d := d) w' = handle_of (d := d) w /\ (tidy_state (d := d) pid w -> tidy_state (d := d) pid w').

Lemma others_session w w' : others_kept (d := d) w w' -> same_session w w'.
Proof.
  intros Hk. unfold same_session, seq_of, handle_of. rewrite !Hk by (apply session_apart; [apply seq_file || apply handle_file]). split_and!; [done..|].
  intros Ht f Hf. rewrite Hk; [by apply Ht|by apply tmp_apart].
Qed.

Lemma regenerate_same_session secret derive_pub ks (w : W) n w' n' r :
  regenerate_node_key pid secret derive_pub d ks (w, n) = ((w', n'), r) -> same_session w w'.
Proof.
  intros Eg. assert (Hk := fun f => regenerate_session _ _ _ _ _ _ _ _ _ f Hd Hpid Eg).
  unfold same_session, seq_of, handle_of. rewrite !Hk by (apply seq_file || apply handle_file). split_and!; [done..|]. intros Ht f Hf.
  destruct (session_file_facts f Hf) as [Hp (x & Hx & Hdig)]. destruct (key_file_facts NODE_FILE) as [_ Hl]; [by apply (bool_decide_unpack _); vm_compute|].
  rewrite (regenerate_others pid secret derive_pub ks w n w' n' r); [by apply Ht|done|done|exact Eg|by apply tmp_plain| |].
  - eapply tmp_name_ne; [done|exact Hl|lia].
  - intros ->%tmp_name_inj. revert Hf. apply (bool_decide_unpack _). vm_compute. done.
Qed.

Lemma same_session_trans w1 w2 w3 : same_session w1 w2 -> same_session w2 w3 -> same_session w1 w3.
Proof. intros (A1 & A2 & A3) (B1 & B2 & B3). split_and!; [congruence|congruence|auto]. Qed.
End Disk.

(** ** The engine and its table *)

Section Tracked.
Context {T : Type} `{TunnOps T}.

(** The peers of the engine are the keys of the region table. *)
Record tracked (e : Engine T) (regions : gmap (list Z) Z) : Prop := {
  tr_stored : forall k p, by_pubkey e !! k = Some p -> is_Some (store e !! p);
  tr_keys : forall k, is_Some (by_pubkey e !! k) <-> is_Some (regions !! k)
}.

Lemma tracked_remove k e m : tracked e m -> tracked (WgEngine.remove_peer k e) (delete k m).
Proof.
  intros [H1 H2]. unfold WgEngine.remove_peer, indices_remove. destruct (by_pubkey e !! k) as [p|] eqn:E.
  - destruct (H1 k p E) as [peer Ep]. rewrite Ep. split; cbn [by_pubkey store]; [intros k' p' [_ Hk]%lookup_delete_Some; by apply (H1 k')|].
    intros k'. rewrite !lookup_delete. case_decide; [done|apply H2].
  - split; [done|]. intros k'. rewrite lookup_delete. case_decide as Hk; [|apply H2]. subst k'. rewrite E. by split; intros [? ?].
Qed.

Lemma tracked_insert peer v e m : tracked e m -> tracked (indices_insert peer e) (<[WgEngine.pubkey peer := v]> m).
Proof.
  intros [H1 H2]. split; cbn [by_pubkey store indices_insert].
  - intros k p [[_ <-]|[_ Hk]]%lookup_insert_Some; rewrite lookup_insert; (case_decide; [by eexists|]); [done|by apply (H1 k)].
  - intros k. rewrite !lookup_insert. case_decide; [by split; eauto|apply H2].
Qed.

Lemma tracked_idx i e m : tracked e m ->
  tracked (mkEngine (store e) (next_ptr e) (by_pubkey e) (by_idx e) (by_ip e) (inbound_policy e) i (our_static_secret e)) m.
Proof. intros [H1 H2]. by split. Qed.

Lemma tracked_upsert cfg v e m : tracked e m -> tracked (WgEngine.upsert_peer cfg e) (<[cfg_pubkey cfg := v]> m).
Proof.
  intros Ht. unfold WgEngine.upsert_peer. cbv zeta.
  assert (Hr : forall j i ips ep a t st, let e1 := indices_remove (cfg_pubkey cfg) e in
    tracked (indices_insert (mkPeer (cfg_pubkey cfg) i ips ep a t st)
      (mkEngine (store e1) (next_ptr e1) (by_pubkey e1) (by_idx e1) (by_ip e1) (inbound_policy e1) j (our_static_secret e1))) (<[cfg_pubkey cfg := v]> m)).
  { intros j i ips ep a t st e1. rewrite <- (insert_delete_eq m). by apply (tracked_insert (mkPeer (cfg_pubkey cfg) i ips ep a t st)), tracked_idx, tracked_remove. }
  destruct (by_pubkey e !! cfg_pubkey cfg) as [p|] eqn:Ek; cbn [mbind option_bind]; [|apply Hr].
  destruct (store e !! p) as [peer|] eqn:Ep; cbn [mbind option_bind]; [|apply Hr]. case_decide; [|apply Hr]. destruct Ht as [H1 H2].
  assert (Hk : forall k, is_Some (by_pubkey e !! k) <-> is_Some (<[cfg_pubkey cfg:=v]> m !! k)).
  { intros k. rewrite lookup_insert. case_decide as E; [subst; rewrite Ek; split; eauto|apply H2]. }
  destruct (cfg_endpoint cfg) as [ep|]; [|by split]. unfold upd, with_store. split; cbn [by_pubkey store]; [|done].
  intros k q Hq. destruct (H1 k q Hq) as [x Hx]. rewrite lookup_alter. case_decide as E; [subst q; rewrite Hx|rewrite Hx]; by eexists.
Qed.

Lemma tracked_push d pf home e m : tracked e m -> tracked (push_delta_to_engine d pf home e) (update_peer_regions d home m).
Proof.
  intros Ht. unfold push_delta_to_engine, update_peer_regions. set (e0 := if packet_filter_changed d then _ else e).
  assert (H0 : tracked e0 m) by (unfold e0; destruct (packet_filter_changed d), pf; by destruct Ht). clearbody e0. clear Ht e.
  assert (H1 : forall l e m, tracked e m -> tracked (foldl (fun e p => WgEngine.upsert_peer (engine_peer_config home p) e) e l)
    (foldl (fun m p => <[node_key p := peer_region p home]> m) m l)).
  { induction l as [|p l IH]; intros e m' He; cbn [foldl]; [done|]. apply IH. by apply (tracked_upsert (engine_peer_config home p)). }
  assert (H2 : forall l e m, tracked e m -> tracked (foldl (fun e k => WgEngine.remove_peer k e) e l) (foldl (fun m k => delete k m) m l)).
  { induction l as [|p l IH]; intros e m' He; cbn [foldl]; [done|]. by apply IH, tracked_remove. }
  apply (H1 (upserted d)) in H0. apply (H2 (removed d)) in H0. revert H0. generalize (foldl (fun m k => delete k m) (foldl (fun m p => <[node_key p := peer_region p home]> m) m (upserted d)) (removed d)).
  generalize (foldl (fun e k => WgEngine.remove_peer k e) (foldl (fun e p => WgEngine.upsert_peer (engine_peer_config home p) e) e0 (upserted d)) (removed d)).
  induction (rekeyed d) as [|r l IH]; intros e m' He; cbn [foldl]; [done|]. apply IH.
  by apply (tracked_upsert (engine_peer_config home (rk_snapshot r))), tracked_remove.
Qed.

(** Removing every key of the table leaves the engine without a peer. *)
Lemma tracked_clear (region_keys : gmap (list Z) Z -> list (list Z)) e m : (forall m k, k ∈ region_keys m <-> is_Some (m !! k)) ->
  tracked e m -> by_pubkey (clear_engine_peers region_keys e m) = ∅ /\ tracked (clear_engine_peers region_keys e m) ∅.
Proof.
  intros Hk Ht. unfold clear_engine_peers.
  assert (Hl : forall l e m, tracked e m -> tracked (foldl (fun e k => WgEngine.remove_peer k e) e l) (foldl (fun m k => delete k m) m l)).
  { induction l as [|p l IH]; intros e' m' He; cbn [foldl]; [done|]. by apply IH, tracked_remove. }
  assert (He : forall l m, (forall k, is_Some (m !! k) -> k ∈ l) -> foldl (fun (m : gmap (list Z) Z) k => delete k m) m l = ∅).
  { induction l as [|k l IH]; intros m' Hm; cbn [foldl].
    - apply map_eq. intros k. rewrite lookup_empty. destruct (m' !! k) eqn:E; [|done]. destruct (not_elem_of_nil k). apply Hm. eauto.
    - apply IH. intros k'. rewrite lookup_delete. case_decide as E; [by intros []|]. intros Hs%Hm. rewrite elem_of_cons in Hs. destruct Hs as [->|]; [done|done]. }
  pose proof (Hl (region_keys m) e m Ht) as Hc. rewrite (He (region_keys m) m) in Hc by (intros k; apply Hk). split; [|done].
  apply map_eq. intros k. rewrite lookup_empty. destruct (by_pubkey _ !! k) eqn:E; [|done].
  destruct (proj1 (tr_keys _ _ Hc k)) as [x Hx]; [by rewrite E|by rewrite lookup_empty in Hx].
Qed.
End Tracked.

(** ** The invariant of the loop *)

(** All requests show this key. *)
Definition shows (k : list Z) (sent : list Message) : Prop := Forall (fun m => presents m = to_nodekey_string k) sent.

(** Whatever a call of [next_event] does, the client stays the same session's. *)
Lemma next_event_client {W} `{Fs W} pid json unzstd p6 keys now after es c (w w' : W) c' r es' :
  next_event pid json unzstd p6 keys now after es c w = (w', (c', r), es') ->
  MapStream.node_pub c' = MapStream.node_pub c /\ state_dir c' = state_dir c.
Proof.
  unfold next_event. destruct (_ <=? now); [by intros [= _ <- _ _]|].
  destruct (next_frame json unzstd es (framer c)) as [[f res] es1]. destruct res as [[[ka resp]| |]|e]; try by intros [= _ <- _ _].
  unfold handle_frame. destruct ka; [by intros [= _ <- _ _]|]. cbn [set_framer MapStream.netmap].
  destruct (apply p6 keys (MapStream.netmap c) resp) as [nm delta]. destruct (if 0 <? delta_seq delta then _ else _) as [wa [[]|]]; [|by intros [= _ <- _ _]].
  destruct (if negb _ && negb _ then _ else _) as [wb [[]|]]; by intros [= _ <- _ _].
Qed.

Section Loop.
Context {W : Type} {d : list Z} `{FsLaws W d} {St Hs : Type} `{NoiseOps St Hs} `{!Outside St Hs} {T : Type} `{TunnOps T} `{!Surroundings}.
Context (cfg : Settings) (started_at : Z) (Hdir : cfg_state_dir cfg = d).
Context (Hkeys : forall (m : gmap (list Z) Z) k, k ∈ s_region_keys m <-> is_Some (m !! k)).

(** The engine's peers are the table's; the session shows the node key in memory. *)
Record rt_inv (r : Rt W T) : Prop := {
  ri_tracked : tracked (n_engine (r_node r)) (n_regions (r_node r));
  ri_map : forall c, n_map (r_node r) = Some c -> state_dir c = d /\ MapStream.node_pub c = Keys.node_pub (n_ks (r_node r))
}.

(** What most steps leave alone. *)
Definition core (r : Rt W T) :=
  (n_disk (r_node r), n_ks (r_node r), n_engine (r_node r), n_regions (r_node r), n_map (r_node r)).

Lemma inv_core r r' : core r' = core r -> rt_inv r -> rt_inv r'.
Proof. unfold core. intros E [I1 I2]. injection E as E1 E2 E3 E4 E5. split; rewrite ?E1, ?E2, ?E3, ?E4, ?E5; done. Qed.

(** A client of the same session. *)
Lemma inv_client disk t s c r : (state_dir c = d /\ MapStream.node_pub c = Keys.node_pub (n_ks (r_node r))) -> rt_inv r ->
  rt_inv (set_parts disk t s (n_engine (r_node r)) (n_regions (r_node r)) (Some c) r).
Proof. intros Hc [I1 I2]. split; [done|]. by intros c' [= <-]. Qed.

Lemma inv_none disk t s e m r : tracked e m -> rt_inv (set_parts disk t s e m None r).
Proof. by split. Qed.

Lemma on_signal_inv i fatal r lo li sig r' lo' li' : rt_inv r -> on_signal cfg i fatal (r, lo, li) sig = (r', lo', li') ->
  rt_inv r' /\ n_ks (r_node r') = n_ks (r_node r) /\ (lo' = true -> lo = true \/ sig = Logout).
Proof.
  intros Hi. pose proof Hi as [I1 I2]. unfold on_signal. destruct fatal; [intros [= <- <- _]; split_and!; [done|done|by left]|].
  destruct sig as [|desired| |]; [|destruct (desired && negb (r_want r)); [|destruct (negb desired && r_want r)]|..]; intros [= <- <- _];
    (split_and!; [|done|(by left) || (by right)]); try done; try (by apply inv_none).
  split; [|done]. cbn. by apply tracked_clear.
Qed.

Lemma signals_inv i fatal sigs : forall r lo li r' lo' li', rt_inv r -> foldl (on_signal cfg i fatal) (r, lo, li) sigs = (r', lo', li') ->
  rt_inv r' /\ n_ks (r_node r') = n_ks (r_node r) /\ (lo' = true -> lo = true \/ Logout ∈ sigs).
Proof.
  induction sigs as [|sig sigs IH]; intros r lo li r' lo' li' Hi; cbn [foldl]; [intros [= <- <- _]; split_and!; [done|done|by left]|].
  destruct (on_signal cfg i fatal (r, lo, li) sig) as [[r1 lo1] li1] eqn:E1. apply on_signal_inv in E1 as (J1 & J2 & J3); [|done].
  intros E. apply IH in E as (K1 & K2 & K3); [|done]. split_and!; [done|congruence|]. intros Ht. destruct (K3 Ht) as [Hl|Hl]; [|right; by right].
  destruct (J3 Hl) as [?| ->]; [by left|right; by left].
Qed.

(** The server accepted a request that expires the node key of [ks]. *)
Definition logged_out (a : Attempt) (ks : KeyStore) : Prop :=
  exists q body resp, a_conn a q = Ok (200, body) /\ x_json body = Some resp /\ rp_error resp = [] /\
    rr_node_key q = to_nodekey_string (Keys.node_pub ks) /\ rr_expiry q = Some LOGOUT_EXPIRY.

Lemma logout_inv i r n sent : rt_inv r -> perform_logout s_region_keys (i_logout i) (i_unix i) cfg (r_node r) = Val (n, sent) ->
  rt_inv (set_run true 0 (set_node n r)) /\ shows (Keys.node_pub (n_ks (r_node r))) sent /\ (n_ks n = n_ks (r_node r) \/ logged_out (i_logout i) (n_ks (r_node r))).
Proof.
  intros Hi. unfold perform_logout, establish. destruct (establish_control_conn _ _ _ _ _ _ _ _ _ _) as [[w1 c]| |]; cbn [mbind outcome_bind]; try done.
  assert (Hf : rt_inv (set_run true 0 (set_node (set_files w1 (r_node r)) r))) by (by destruct Hi).
  destruct c as [conn|e]; [|intros [= <- <-]; split_and!; [done|constructor|by left]].
  destruct (Login.logout _ _ _ _ _ _ _) as [req res] eqn:Er.
  assert (Hsent : shows (Keys.node_pub (n_ks (r_node r))) (MRegister <$> opt_to_list req)).
  { destruct req as [q|]; [|constructor]. apply logout_request in Er as [R _]. repeat constructor. exact R. }
  destruct res as [ex|e]; [|intros [= <- <-]; split_and!; [done|done|by left]].
  destruct (regenerate_node_key _ _ _ _ _ _) as [disk rk]. intros [= <- <-]. split_and!; [|done|].
  - split; [|done]. cbn. apply tracked_clear; [done|apply Hi].
  - right. pose proof Er as Er'. apply logout_accepted in Er as (q & body & resp & -> & A1 & A2 & A3 & A4). exists q, body, resp. split_and!; try done.
    by apply logout_request in Er' as [R _].
Qed.

Lemma derp_map_core i nm n r : core (on_derp_map i nm n r) = core r.
Proof. unfold on_derp_map. by destruct (_ && _). Qed.

Lemma netinfo_core i c r : core (on_netinfo i c r).1 = core r /\ shows (MapStream.node_pub c) (on_netinfo i c r).2.
Proof.
  unfold on_netinfo. destruct (_ && _); [|split; [done|constructor]]. destruct (probe_targets _ _ _ _ _ _ _) as [report m].
  destruct (match rep_public_endpoint report, rep_public_endpoint_v6 report with Some _, Some _ => _ | _, _ => _ end) as [fb m2].
  unfold send_netinfo_update. destruct (merge_endpoints _ _ _) as [eps tys]. split; [done|]. by repeat constructor.
Qed.

Lemma addrs_core a r : core (on_addrs a r) = core r.
Proof. unfold on_addrs. by destruct (_ && _). Qed.

Lemma cmm_core i r : core (drain_cmm i r) = core r.
Proof. unfold drain_cmm. by destruct (take_pending_cmm _) as [p m]. Qed.

Lemma end_of_pass_core i c r : core (end_of_pass cfg started_at i c r) = core r.
Proof.
  unfold end_of_pass. set (r1 := if 3 * NS <=? i_published i - r_last_publish r then _ else r).
  assert (E1 : core r1 = core r) by (unfold r1; by destruct (_ <=? _)). rewrite <- E1, <- (cmm_core i r1). generalize (drain_cmm i r1). intros r2.
  by destruct (is_empty _).
Qed.

(** An event changes the engine and its table together, and nothing else of the core. *)
Lemma on_event_inv i c ev r : rt_inv r ->
  let '(r', sent) := on_event cfg started_at i c ev r in
  rt_inv r' /\ n_disk (r_node r') = n_disk (r_node r) /\ n_ks (r_node r') = n_ks (r_node r) /\ shows (MapStream.node_pub c) sent.
Proof.
  intros Hi. destruct ev as [seq addrs pc rc pf delta|seq|]; cbn [on_event]; [|split_and!; [by destruct Hi|done|done|constructor]..].
  set (r0 := track _ (count 1 0 0 r)). pose proof (derp_map_core i (MapStream.netmap c) rc r0) as C1. revert C1. generalize (on_derp_map i (MapStream.netmap c) rc r0). intros r1 C1.
  destruct (netinfo_core i c r1) as [C2 Hsh]. destruct (on_netinfo i c r1) as [r2 sent]. cbn [fst snd] in C2, Hsh.
  pose proof (addrs_core addrs r2) as C3. revert C3. generalize (on_addrs addrs r2). intros r3 C3.
  assert (C : core r3 = core r) by (rewrite C3, C2, C1; done). apply (inv_core _ _ C) in Hi as [I1 I2]. injection C as D1 D2 D3 D4 D5.
  split_and!; [|done|done|done]. split; [|done]. cbn. by apply tracked_push.
Qed.

Definition end_rt (e : PassEnd (W := W) (T := T)) : Rt W T :=
  match e with Continue r | Relogin r | Break r | FailedWith _ r => r end.

Lemma poll_inv i c r e sent : rt_inv r -> n_map (r_node r) = Some c -> poll_event cfg started_at i c r = (e, sent) ->
  rt_inv (end_rt e) /\ n_ks (r_node (end_rt e)) = n_ks (r_node r) /\ shows (Keys.node_pub (n_ks (r_node r))) sent.
Proof.
  intros Hi Hc. destruct (ri_map r Hi c Hc) as [Hsd Hn]. unfold poll_event. destruct (next_event _ _ _ _ _ _ _ _ c _) as [[w1 [c1 res]] es'] eqn:Ev.
  apply next_event_client in Ev as [Hn1 Hs1]. set (r1 := set_parts _ _ _ _ _ _ _).
  assert (Hi1 : rt_inv r1) by (apply inv_client; [split; congruence|done]). assert (Hk1 : n_ks (r_node r1) = n_ks (r_node r)) by done.
  clearbody r1. destruct res as [ev|e0].
  - pose proof (on_event_inv i c1 ev (set_run (r_want r1) 0 r1) ltac:(by destruct Hi1)) as He.
    destruct (on_event cfg started_at i c1 ev _) as [r2 sent2]. destruct He as (J1 & _ & J2 & J3). intros [= <- <-]. cbn [end_rt].
    pose proof (end_of_pass_core i c1 r2) as C. split; [by eapply inv_core|]. split; [|by rewrite Hn1, Hn in J3].
    assert (n_ks (r_node (end_of_pass cfg started_at i c1 r2)) = n_ks (r_node r2)) as -> by (by injection C). rewrite J2. exact Hk1.
  - intros [= <- <-]. split_and!; [|by destruct (classify_control_error e0)|constructor].
    destruct (classify_control_error e0); [split; [apply Hi1|done]|by destruct Hi1..].
Qed.

Lemma reconnect_inv i r e sent : rt_inv r -> reconnect_pass cfg started_at i r = Val (e, sent) ->
  rt_inv (end_rt e) /\ n_ks (r_node (end_rt e)) = n_ks (r_node r) /\ shows (Keys.node_pub (n_ks (r_node r))) sent.
Proof.
  intros Hi. unfold reconnect_pass. destruct (i_stop i); [intros [= <- <-]; split_and!; [done|done|constructor]|].
  destruct (bootstrap_control_session _ _ _ _ _ _) as [[[w sent1] res]| |] eqn:Eb; cbn [mbind outcome_bind]; try done.
  apply bootstrap_spec in Eb as (Hk & Hsh & Hses); [|done]. set (r1 := set_node (set_files w (r_node r)) r).
  assert (Hi1 : rt_inv r1) by (by destruct Hi). assert (Hks : n_ks (r_node r1) = n_ks (r_node r)) by done. clearbody r1.
  destruct res as [[m|]|e0].
  - destruct (Hses m eq_refl) as (Hn & Hsd & _). set (r2 := set_flags _ false _ _).
    assert (Hi2 : rt_inv r2) by (split; [apply Hi1|]; intros c [= <-]; cbn; split; congruence).
    destruct (poll_event cfg started_at i m r2) as [e2 sent2] eqn:Ep. intros [= <- <-].
    apply poll_inv in Ep as (P1 & P2 & P3); [|done|done]. split_and!; [done|by rewrite P2|]. apply Forall_app. split; [done|]. cbn in P3. by rewrite Hks in P3.
  - intros [= <- <-]. by split_and!.
  - intros [= <- <-]. split_and!; [|by destruct (classify_control_error e0)|done]. destruct (classify_control_error e0); by destruct Hi1.
Qed.

(** A pass keeps the invariant; its requests show the node key in memory, which
    only a logout that the server accepted changes. *)
Lemma event_pass_inv i r e sent : rt_inv r -> event_pass cfg started_at i r = Val (e, sent) ->
  rt_inv (end_rt e) /\ shows (Keys.node_pub (n_ks (r_node r))) sent /\
  (n_ks (r_node (end_rt e)) = n_ks (r_node r) \/ (Logout ∈ i_signals i /\ logged_out (i_logout i) (n_ks (r_node r)))).
Proof.
  intros Hi. unfold event_pass. set (r0 := set_net _ _ r). assert (Hi0 : rt_inv r0) by (by destruct Hi).
  assert (Hks0 : n_ks (r_node r0) = n_ks (r_node r)) by done. clearbody r0.
  destruct (foldl (on_signal cfg i _) (r0, false, false) (i_signals i)) as [[r1 lo] li] eqn:Es. apply signals_inv in Es as (Hi1 & Hks1 & Hlo); [|done].
  rewrite Hks0 in Hks1. clear r0 Hi0 Hks0. rewrite <- Hks1.
  destruct (li && r_want r1); [intros [= <- <-]; split_and!; [done|constructor|by left]|]. destruct lo.
  { destruct (perform_logout _ _ _ _ _) as [[n sent1]| |] eqn:El; cbn [mbind outcome_bind]; try done. intros [= <- <-].
    apply logout_inv in El as (L1 & L2 & L3); [|done]. split_and!; [done|done|]. destruct L3 as [L3|L3]; [by left|right]. split; [by destruct (Hlo eq_refl)|done]. }
  assert (Hst : forall f, rt_inv (show f (track set_stopped r1)) /\ rt_inv (show f r1)) by (intros f; split; by destruct Hi1).
  destruct (negb (r_want r1)); [intros [= <- <-]; unfold slept; split_and!; [destruct (i_stop i); apply Hst|constructor|left; by destruct (i_stop i)]|].
  destruct (n_map (r_node r1)) as [c|] eqn:Em.
  { intros [= E]. apply poll_inv in E as (P1 & P2 & P3); [|done|done]. split_and!; [done|done|by left]. }
  case_decide as Hn; [intros [= <- <-]; unfold slept; split_and!; [destruct (i_stop i); apply Hst|constructor|left; by destruct (i_stop i)]|].
  intros E. apply reconnect_inv in E as (P1 & P2 & P3); [|done]. split_and!; [done|done|by left].
Qed.

Lemma event_loop_inv is_ : forall r e sent, rt_inv r -> event_loop cfg started_at is_ r = Val (e, sent) -> rt_inv (end_rt e).
Proof.
  induction is_ as [|i is_ IH]; intros r e sent Hi; cbn [event_loop]; [by intros [= <- _]|].
  destruct (event_pass cfg started_at i r) as [[e1 sent1]| |] eqn:E1; cbn [mbind outcome_bind]; try done. apply event_pass_inv in E1 as [Hi1 _]; [|done].
  destruct e1 as [r1|r1|r1|e1 r1]; [|by intros [= <- _]..].
  destruct (event_loop cfg started_at is_ r1) as [[e2 sent2]| |] eqn:E2; cbn [mbind outcome_bind]; try done. intros [= <- _]. by eapply IH.
Qed.

Lemma event_loop_app pre is_ r r1 sent1 : event_loop cfg started_at pre r = Val (Continue r1, sent1) ->
  event_loop cfg started_at (pre ++ is_) r = '(e, sent) ← event_loop cfg started_at is_ r1; Val (e, sent1 ++ sent).
Proof.
  revert r r1 sent1. induction pre as [|i pre IH]; intros r r1 sent1; cbn [event_loop app].
  - intros [= -> <-]. by destruct (event_loop cfg started_at is_ r1) as [[e sent]| |].
  - destruct (event_pass cfg started_at i r) as [[e1 sent']| |]; cbn [mbind outcome_bind]; try done. destruct e1 as [r'|r'|r'|e1 r']; try done.
    destruct (event_loop cfg started_at pre r') as [[e2 sent2]| |] eqn:E2; cbn [mbind outcome_bind]; try done. intros [= -> <-].
    rewrite (IH _ _ _ E2). destruct (event_loop cfg started_at is_ r1) as [[e sent]| |]; cbn [mbind outcome_bind]; try done. by rewrite app_assoc.
Qed.

(** Without a logout a run shows one key. *)
Lemma loop_identity is_ : forall r e sent, rt_inv r -> Forall (fun i => Logout ∉ i_signals i) is_ ->
  event_loop cfg started_at is_ r = Val (e, sent) ->
  shows (Keys.node_pub (n_ks (r_node r))) sent /\ n_ks (r_node (end_rt e)) = n_ks (r_node r).
Proof.
  induction is_ as [|i is_ IH]; intros r e sent Hi Hst; cbn [event_loop].
  - intros [= <- <-]. split; [constructor|done].
  - apply Forall_cons_1 in Hst as [Hnl Hst]. destruct (event_pass cfg started_at i r) as [[e1 sent1]| |] eqn:E1; cbn [mbind outcome_bind]; try done.
    destruct (event_pass_inv i r e1 sent1 Hi E1) as (Hi1 & Hsh & [Hk|[Hk _]]); [|done].
    destruct e1 as [r1|r1|r1|e1 r1]; [|by intros [= <- <-]..].
    destruct (event_loop cfg started_at is_ r1) as [[e2 sent2]| |] eqn:E2; cbn [mbind outcome_bind]; try done. intros [= <- <-].
    destruct (IH r1 e2 sent2 Hi1 Hst E2) as (Q1 & Q2). cbn [end_rt] in Hk. rewrite Hk in Q1, Q2. split; [by apply Forall_app|done].
Qed.

(** ** Parked *)

(** A signal that does not ask a parked runtime to come back. *)
Definition keeps_parked (sig : ControlSignal) : bool :=
  match sig with ForceReconnect | SetWantRunning false | LoginInteractive => true | _ => false end.

(** Parked: no session, no peer, not wanted, shown as stopped. *)
Record parked (r : Rt W T) : Prop := {
  pk_state : state (n_tracker (r_node r)) = Stopped;
  pk_map : n_map (r_node r) = None;
  pk_engine : by_pubkey (n_engine (r_node r)) = ∅ /\ n_regions (r_node r) = ∅;
  pk_want : r_want r = false
}.

Lemma set_stopped_state t : state (set_stopped t) = Stopped.
Proof. unfold set_stopped. by case_decide. Qed.

Lemma parked_signals i sigs : forall r li, parked r -> Forall (fun s => keeps_parked s = true) sigs ->
  exists r' li', foldl (on_signal cfg i false) (r, false, li) sigs = (r', false, li') /\ parked r' /\ n_disk (r_node r') = n_disk (r_node r).
Proof.
  induction sigs as [|s sigs IH]; intros r li Hp Hsg; [by exists r, li|].
  apply Forall_cons_1 in Hsg as [Hs1 Hss]. cbn [foldl]. pose proof Hp as [P1 P2 P3 P4].
  destruct s as [|[]| |]; try done; cbn [on_signal].
  - apply (IH (set_run (r_want r) 0 (drop_map r)) li); [by split|done].
  - rewrite P4. cbn [andb negb]. by apply IH.
  - by apply IH.
Qed.

Lemma parked_pass i r : parked r -> i_stop i = false -> Forall (fun s => keeps_parked s = true) (i_signals i) ->
  exists r', event_pass cfg started_at i r = Val (Continue r', []) /\ parked r' /\ n_disk (r_node r') = n_disk (r_node r).
Proof.
  intros Hp Hst Hsg. unfold event_pass. set (r0 := set_net _ _ r). assert (Hp0 : parked r0) by (by destruct Hp).
  assert (Hd0 : n_disk (r_node r0) = n_disk (r_node r)) by done. clearbody r0. rewrite (pk_state _ Hp0). cbn [is_fatal].
  destruct (parked_signals i (i_signals i) r0 false Hp0 Hsg) as (r1 & li & -> & [P1 P2 P3 P4] & Hd1).
  rewrite P4, andb_false_r. cbn [negb]. unfold slept. rewrite Hst. eexists. split; [done|]. split; [|cbn; congruence].
  split; cbn; [apply set_stopped_state|done..].
Qed.

Lemma parked_passes is_ : forall r, parked r ->
  Forall (fun i => i_stop i = false /\ Forall (fun s => keeps_parked s = true) (i_signals i)) is_ ->
  exists r', event_loop cfg started_at is_ r = Val (Continue r', []) /\ parked r' /\ n_disk (r_node r') = n_disk (r_node r).
Proof.
  induction is_ as [|i is_ IH]; intros r Hp Hsg; [by exists r|]. apply Forall_cons_1 in Hsg as [[Hst Hs1] Hss].
  destruct (parked_pass i r Hp Hst Hs1) as (r1 & E & Hp1 & D1). cbn [event_loop]. rewrite E. cbn [mbind outcome_bind].
  destruct (IH r1 Hp1 Hss) as (r' & -> & Hp' & D2). exists r'. split_and!; [done|done|congruence].
Qed.
End Loop.

(** * Theorems *)


(** One identity per pass.  In every state a run of the loop reaches, every
    register, map and network-info request of the next pass shows the node key in
    memory, and the session that is open shows it too; the key changes only in a
    pass that handles a logout, after the server accepted a request that expires
    this very key. *)
Theorem event_loop_one_identity {W} {d : list Z} `{FsLaws W d} {St Hs} `{NoiseOps St Hs} `{!Outside St Hs} {T} `{TunnOps T} `{!Surroundings}
    (cfg : Settings) (started_at : Z) pre i (r0 r : Rt W T) sent e sent' :
  cfg_state_dir cfg = d -> (forall (m : gmap (list Z) Z) k, k ∈ s_region_keys m <-> is_Some (m !! k)) ->
  rt_inv (d := d) r0 -> event_loop cfg started_at pre r0 = Val (Continue r, sent) -> event_pass cfg started_at i r = Val (e, sent') ->
  let key := Keys.node_pub (n_ks (r_node r)) in
  shows key sent' /\ (forall c, n_map (r_node r) = Some c -> MapStream.node_pub c = key) /\
  (n_ks (r_node (end_rt e)) = n_ks (r_node r) \/ (Logout ∈ i_signals i /\ logged_out (i_logout i) (n_ks (r_node r)))).
Proof.
  intros Hdir Hk Hi0 Epre Ep. apply (event_loop_inv cfg started_at Hdir Hk) in Epre as Hi; [|done]. cbn [end_rt] in Hi.
  apply event_pass_inv in Ep as (_ & P1 & P2); [|done..]. split_and!; [done| |done]. intros c Hc. by destruct (ri_map r Hi c Hc).
Qed.

(** A control outage is never reported: as long as every bootstrap fails
    transiently, no pass ticks the tracker, counts the attempt there or publishes
    anything, so the runtime keeps showing the state it had, Online for instance,
    however long the outage lasts. *)
Theorem outage_never_reported {W} `{Fs W} {St Hs} `{NoiseOps St Hs} `{!Outside St Hs} {T} `{TunnOps T} `{!Surroundings}
    (cfg : Settings) (started_at : Z) is_ : forall r : Rt W T,
  r_want r = true -> n_map (r_node r) = None -> state (n_tracker (r_node r)) <> NeedsLogin ->
  Forall (fun i => i_signals i = [] /\ i_stop i = false /\ forall ks eps tys (w : W), exists w' sent e,
    bootstrap_control_session (i_boot i) cfg ks eps tys w = Val (w', sent, Err e) /\ classify_control_error e = Transient) is_ ->
  exists r' sent, event_loop cfg started_at is_ r = Val (Continue r', sent) /\
    n_tracker (r_node r') = n_tracker (r_node r) /\ n_snapshot (r_node r') = n_snapshot (r_node r).
Proof.
  induction is_ as [|i is_ IH]; intros r Hw Hm Hn Hf; [by exists r, []|]. apply Forall_cons_1 in Hf as [(Hs1 & Hst & Hb) Hf].
  cbn [event_loop]. unfold event_pass at 1. rewrite Hs1. cbn [foldl andb r_want set_net]. rewrite Hw. cbn [negb r_node set_net].
  rewrite Hm, decide_False by done. unfold reconnect_pass. rewrite Hst. cbn [r_node set_net].
  destruct (Hb (n_ks (r_node r)) (build_local_endpoints s_show6 s_lan (control_url (control cfg)) s_local)
    (endpoint_types (build_local_endpoints s_show6 s_lan (control_url (control cfg)) s_local)) (n_disk (r_node r)).1) as (w' & sent & e & -> & Hc).
  cbn [mbind outcome_bind]. rewrite Hc. cbn [mbind outcome_bind].
  match goal with |- context [event_loop cfg started_at is_ ?x] => destruct (IH x) as (r' & sent' & -> & E1 & E2); [done..|] end.
  cbn [mbind outcome_bind]. eauto.
Qed.

(** ** Samples *)

(** Files in memory, none of which ever fails. *)
Module Mem.
Abbreviation Card := (gmap (list Z) (list Z)).
#[global] Instance mem : Fs Card := {
  fs_read_dir := fun _ _ => None;
  fs_read := fun w p => match w !! p with Some b => Ok b | None => Err NotFound end;
  fs_write := fun w p b => (<[p := b]> w, true);
  fs_append := fun w p b => (<[p := default [] (w !! p) ++ b]> w, true);
  fs_remove_file := fun w p => (delete p w, true);
  fs_create_dir_all := fun w _ => (w, true);
  fs_rename := fun w p q => match w !! p with Some b => (<[q := b]> (delete p w), true) | None => (w, false) end
}.

#[global] Instance mem_laws : FsLaws Card toy_dir.
Proof.
  refine {| names := fun p => p; folded := fun n => n; content := fun w p => w !! p |};
    cbn [fs_read fs_write fs_append fs_remove_file fs_create_dir_all fs_rename fs_read_dir mem]; cbv beta.
  - done.
  - intros a b _ _ E. unfold join in E. cbn in E. by injection E.
  - intros w p. destruct (w !! p); naive_solver.
  - intros w w' ok p b [= <- <-]. split; [left; apply lookup_insert_eq|intros q Hq; by apply lookup_insert_ne].
  - intros w w' ok p b [= <- <-]. split; [intros _; apply lookup_insert_eq|intros q Hq; by apply lookup_insert_ne].
  - intros w w' ok p [= <- <-]. split; [intros _; apply lookup_delete_eq|intros q Hq; by apply lookup_delete_ne].
  - by intros w w' ok p q [= <- <-].
  - intros w w' ok p q E Hne. destruct (w !! p) as [b|] eqn:Ep; injection E as <- <-.
    + split; [|split; [done|]].
      * intros _. rewrite lookup_insert_eq, lookup_insert_ne, lookup_delete_eq by done. by split_and!.
      * intros r Hr1 Hr2. by rewrite lookup_insert_ne, lookup_delete_ne by done.
    + split; [done|]. split; [|done]. intros _. split; [done|by left].
  - done.
Defined.

End Mem.

(** A full map, and one with another peer alone. *)
Definition other_full : MapResponseWire := mkMapResponse [] 2 None None (Some [Netmap.toy_node 2 (bs "100.64.0.2")]) None None None [] [] PfMissing.
Definition one_map (b : list Z) : option Response :=
  if decide (b = [1]) then Some (false, toy_full) else if decide (b = [2]) then Some (false, other_full) else None.
#[global] Instance toy_surroundings : Surroundings := {|
  s_rng := draw_rng; s_udp := toy_ret; s_v6 := false; s_dial := fun _ => Ok tt; s_p6 := no_v6; s_show6 := fun _ => [];
  s_iter := map_to_list; s_keys := toy_keys; s_region_keys := toy_region_keys; s_regions := map_to_list; s_latencies := map_to_list;
  s_json := one_map; s_unzstd := Some; s_error_text := fun _ => []; s_lan := fun _ => Some (IpV4 (ipv4_new 192 168 1 9));
  s_resolve := fun _ => []; s_local := SAV4 0 41641; s_local_v6 := None
|}.

Definition toy_card_files : Mem.Card := Toy.files toy_keys_card.
(** A runtime built around the key [8, 8, ...]. *)
Definition toy_rt : Rt Mem.Card Toy :=
  mkRt (mkNodeState (toy_card_files, 5%nat) toy_ks tracker_new (toy_snapshot Connecting) (Engine_new (repeat 8 32) []) ∅ None)
    magic_init (mux_new 2) true 0 false false false None [] None 0 0 0 0.
Definition pass_with (sigs : list ControlSignal) (wakes : list Wake) : PassIn :=
  mkPassIn sigs false 4 5 5 6 (toy_attempt 2) (toy_attempt 2) wakes (fun w => w) (fun x => x) (Ok 1) (fun _ => 0) (fun _ w => w) (fun _ w => w) (fun _ w => w) (Ok 200) (fun _ => false).

Lemma toy_rt_inv : rt_inv (d := toy_dir) toy_rt.
Proof. split; [|done]. split; [done|]. intros k. by split; intros [? ?]. Qed.

Definition toy_event_loop (is_ : list PassIn) : outcome (PassEnd (W := Mem.Card) (T := Toy) * list Message) :=
  event_loop (toy_settings (bs "key") true) 0 is_ toy_rt.


Lemma event_loop_one_identity_witness :
  exists r sent e sent', toy_event_loop [pass_with [] [Chunk [1; 0; 0; 0; 1]]] = Val (Continue r, sent) /\
    event_pass (toy_settings (bs "key") true) 0 (pass_with [ForceReconnect] []) r = Val (e, sent') /\ length sent' = 2%nat /\ shows (repeat 8 32) sent'.
Proof.
  assert (Hb : match toy_event_loop [pass_with [] [Chunk [1; 0; 0; 0; 1]]] with
               | Val (Continue r, _) => match event_pass (toy_settings (bs "key") true) 0 (pass_with [ForceReconnect] []) r with Val (_, s) => (length s, Keys.node_pub (n_ks (r_node r))) | _ => (0%nat, []) end
               | _ => (0%nat, []) end = (2%nat, repeat 8 32)) by (vm_compute; reflexivity).
  destruct (toy_event_loop [pass_with [] [Chunk [1; 0; 0; 0; 1]]]) as [[[r| | |] sent]| |] eqn:E; try discriminate Hb.
  destruct (event_pass (toy_settings (bs "key") true) 0 (pass_with [ForceReconnect] []) r) as [[e sent']| |] eqn:E2; try discriminate Hb.
  injection Hb as Hl Hk.
  destruct (event_loop_one_identity (d := toy_dir) (toy_settings (bs "key") true) 0 [pass_with [] [Chunk [1; 0; 0; 0; 1]]] (pass_with [ForceReconnect] []) toy_rt r sent e sent')
    as [Hsh _]; [reflexivity|apply toy_region_keys_ok|apply toy_rt_inv|exact E|exact E2|].
  exists r, sent, e, sent'. rewrite Hk in Hsh. split; [reflexivity|]. split; [exact E2|]. split; [exact Hl|exact Hsh].
Defined.

(** A logout leaves the data plane with the old node key; a node that is parked and
    resumed after it, with an auth key configured, registers and opens a session
    under the fresh key, while the engine still answers for the old one. *)
Theorem logout_resume_splits_identity :
  match toy_event_loop [pass_with [Logout] []; pass_with [SetWantRunning false; SetWantRunning true] []] with
  | Val (Continue r, sent) =>
      presents <$> sent = [to_nodekey_string (repeat 8 32); to_nodekey_string (repeat 5 32); to_nodekey_string (repeat 5 32)] /\
      Keys.node_pub (n_ks (r_node r)) = repeat 5 32 /\ our_static_secret (n_engine (r_node r)) = repeat 8 32 /\
      (MapStream.node_pub <$> n_map (r_node r)) = Some (repeat 5 32)
  | _ => False
  end.
Proof. vm_compute. done. Qed.

(** A logout that fails brings a parked node back: the pass that handles it wants
    the node to run again although the logout had no effect, and the next pass
    opens a session and pushes its peers into the engine, while the tracker keeps
    showing Stopped. *)
Theorem failed_logout_unparks :
  let refused := mkPassIn [Logout] false 4 5 5 6 (mkAttempt toy_env (Ok (bs "now")) (bs "log") (fun _ => Err Tls) (Ok (200, [])) 3) (toy_attempt 2) []
                   (fun w => w) (fun x => x) (Ok 1) (fun _ => 0) (fun _ w => w) (fun _ w => w) (fun _ w => w) (Ok 200) (fun _ => false) in
  match toy_event_loop [pass_with [SetWantRunning false] []; refused; pass_with [] [Chunk [1; 0; 0; 0; 1]]] with
  | Val (Continue r, _) => r_want r = true /\ is_Some (n_map (r_node r)) /\ size (by_pubkey (n_engine (r_node r))) = 2%nat /\
      state (n_tracker (r_node r)) = Stopped
  | _ => False
  end.
Proof. vm_compute. eauto. Qed.

(** A peer that left the tailnet during an outage stays in the engine: the
    reconnected session starts from an empty map, so the full peer set it receives
    removes nothing, and a peer the new set does not name keeps its routes,
    although the map no longer knows it. *)
Theorem reconnect_keeps_gone_peer :
  match toy_event_loop [pass_with [] [Chunk [1; 0; 0; 0; 1]]; pass_with [ForceReconnect] [Chunk [1; 0; 0; 0; 2]]] with
  | Val (Continue r, _) =>
      (fun c => nm_peers (MapStream.netmap c) !! repeat 17 32) <$> n_map (r_node r) = Some None /\
      engine_routes (n_engine (r_node r)) !! repeat 17 32 = Some [mkCidr (ipv4_new 100 64 0 1) 32]
  | _ => False
  end.
Proof. vm_compute. done. Qed.
