(* ===== verification/Supervisor.v ===== *)
(** Starting and supervising the runtime (tailscale-vita: runtime.rs): the boot
    sequence [Runtime::up], the waits [reconnect_backoff] and
    [cooperative_sleep], the retried bind of the LocalAPI, and
    [run_supervised], which rebuilds everything after a lost login.

    Times are milliseconds; the jitter is computed exactly where the code uses
    floating point. *)

From S2P Require Import Prelude NetTypes Text Disco Stun WgPolicy WgEngine DerpFrame DerpMux Magicsock Netmap VitaFs Keys Noise MapStream Runtime Login LocalApi Session Paths EventLoop.
#[local] Open Scope Z_scope.

(** ** Waits *)

(** A multiplier between three and five quarters, from a random [u32]. *)
Definition apply_jitter (raw base_ms : Z) : Z := base_ms * (3 * U32_MAX + 2 * raw) / (4 * U32_MAX).

Definition reconnect_backoff (raw attempt : Z) : Z :=
  if attempt =? 0 then 0 else apply_jitter raw (backoff_base (Z.to_nat attempt) * 1000).

Definition SLEEP_SLICE : Z := 250.

(** [stop k] is the answer to the [k]-th check, [late k] by how much the [k]-th
    slice takes longer than asked for; the result and the time of return. *)
Fixpoint sleep_until (fuel : nat) (stop : nat -> bool) (late : nat -> Z) (wake : Z) (k : nat) (now : Z) : option (bool * Z) :=
  if wake <=? now then Some (false, now)
  else match fuel with
       | O => None
       | S f => if stop k then Some (true, now)
                else sleep_until f stop late wake (S k) (now + Z.min (wake - now) SLEEP_SLICE + late k)
       end.
Definition cooperative_sleep (fuel : nat) (stop : nat -> bool) (late : nat -> Z) (delay now : Z) : option (bool * Z) :=
  sleep_until fuel stop late (now + delay) 0 now.

(** ** The LocalAPI *)

Definition RETRIES : nat := 10.
(** [binds k]: whether the [k]-th bind succeeds; the attempt that did. *)
Fixpoint bind_retry (n k : nat) (binds stops : nat -> bool) : option nat :=
  match n with
  | O => None
  | S n => if binds k then Some k else if stops k then None else bind_retry n (S k) binds stops
  end.
Definition spawn_localapi_with_retry (binds stops : nat -> bool) : option nat := bind_retry RETRIES 0 binds stops.

(** ** Runtime::up *)

Inductive RuntimeError : Type := RControl (e : ControlError) | RInternal.

Record RunStats : Type := mkStats {
  st_snapshots : Z; st_keepalives : Z; st_control_errors : Z; st_lifecycle : OnlineState; st_peers : nat; st_regions : nat
}.
Definition RunStats_default : RunStats := mkStats 0 0 0 Connecting 0 0.

(** What a boot meets: the socket, the LocalAPI's binds, the login's passes, the
    map request's answer and the threads. *)
Record UpIn : Type := mkUpIn {
  u_bound : bool; u_binds : nat -> bool; u_stops : nat -> bool; u_passes : list Login.Pass; u_log_id : list Z;
  u_head : Head; u_now : Z; u_unix : Z; u_threads : bool
}.

Section Up.
Context {W : Type} `{Fs W} {St Hs : Type} `{NoiseOps St Hs} `{!Outside St Hs} {T : Type} `{TunnOps T} `{!Surroundings}.

(** The runtime: its loop state, and the node keys that the magic socket and the
    relays were given. *)
Record Running : Type := mkRunning { g_rt : Rt W T; g_magic_node : list Z; g_derp_node : list Z; g_localapi : option nat }.

(** How the login left things: the connection if any, the wish to run, tracker
    and snapshot. *)
Definition after_login (unix : Z) (e : LoginEnd (St := St)) (t : LifecycleTracker) (s : RuntimeSnapshot) :
    result ControlError (option (NoiseStream St) * bool * LifecycleTracker * RuntimeSnapshot) :=
  match e with
  | Authorized conn => Ok (Some conn, true, t, s)
  | Aborted Parked => let t := set_stopped t in Ok (None, false, t, publish_parked_state unix t None false false s)
  | Aborted LoggedOut => let t := set_needs_login t in Ok (None, true, t, publish_parked_state unix t None false true s)
  | Aborted Shutdown => Ok (None, true, set_stopped t, s)
  | LoginErr e => Err e
  end.

(** The login of a boot: disk, keys, requests and what it left. *)
Record BootLogin : Type := mkBoot {
  b_disk : W * nat; b_ks : KeyStore; b_sent : list Message;
  b_left : result ControlError (option (NoiseStream St) * bool * LifecycleTracker * RuntimeSnapshot)
}.

(** [None]: it is still waiting. *)
Definition login_left (u : UpIn) (snap : RuntimeSnapshot) (s : LoginState W) (e : option (LoginEnd (St := St))) : option BootLogin :=
  let v := l_view s in
  let snap := publish_login (u_unix u) (set_state (v_lifecycle v) tracker_new) (v_auth_url v) (v_login_in_progress v) snap in
  (fun e => mkBoot (l_disk s) (l_ks s) (MRegister <$> (l_exchanges s).*1) (after_login (u_unix u) e (l_tracker s) snap)) <$> e.

Definition boot_login (u : UpIn) (cfg : Settings) (disk : W * nat) (ks : KeyStore) (snap : RuntimeSnapshot) : outcome (option BootLogin) :=
  if negb (cfg_want_running cfg) then
    let t := set_stopped tracker_new in
    Val (Some (mkBoot disk ks [] (Ok (None, false, t, publish_parked_state (u_unix u) t None false false snap))))
  else
    '(s, e) ← interactive_login x_parse_response x_public_key x_base64 x_hs_new x_h2_open x_json x_pid x_secret x_derive
                (control cfg) (cfg_state_dir cfg) (u_log_id u) (u_passes u) disk ks tracker_new;
    Val (login_left u snap s e).

(** The map stream on the authorized connection, if there is one. *)
Definition boot_map (u : UpIn) (cfg : Settings) (ks : KeyStore) (conn : option (NoiseStream St)) (w : W) :
    outcome (option MapRequestWire * result ControlError (option MapClient)) :=
  match conn with
  | None => Val (None, Ok None)
  | Some _ =>
      let eps := build_local_endpoints s_show6 s_lan (control_url (control cfg)) s_local in
      '(rq, m) ← finish_session (u_head u) (u_now u) cfg ks eps (endpoint_types eps) (u_log_id u) w;
      Val (rq, match m with Ok m => Ok (Some m) | Err e => Err e end)
  end.

(** The disk comes back with the result. *)
Definition up (u : UpIn) (cfg : Settings) (disk : W * nat) : outcome (option ((W * nat) * result RuntimeError Running * list Message)) :=
  let '(disk, k) := load_or_generate x_pid x_secret x_derive (cfg_state_dir cfg) disk in
  match k with
  | Err e => Val (Some (disk, Err (RControl e), []))
  | Ok ks =>
      if negb (u_bound u) then Val (Some (disk, Err RInternal, []))
      else
        let magic_node := Keys.node_pub ks in
        let snap := snapshot_empty (u_unix u) (cfg_hostname (control cfg)) s_local in
        let api := match cfg_localapi_port cfg with Some _ => spawn_localapi_with_retry (u_binds u) (u_stops u) | None => None end in
        login ← boot_login u cfg disk ks snap;
        match login with
        | None => Val None
        | Some (mkBoot disk ks sent (Err e)) => Val (Some (disk, Err (RControl e), sent))
        | Some (mkBoot disk ks sent (Ok (conn, want, t, snap))) =>
            let derp_node := Keys.node_pub ks in
            let engine := Engine_new (node_priv ks) [] in
            if negb (u_threads u) then Val (Some (disk, Err RInternal, sent))
            else
              '(rq, map) ← boot_map u cfg ks conn disk.1;
              let sent := sent ++ (MMap <$> opt_to_list rq) in
              match map with
              | Err e => Val (Some (disk, Err (RControl e), sent))
              | Ok m =>
                  let r := mkRt (mkNodeState disk ks t snap engine ∅ m) magic_init (mux_new (max_derp_conns cfg)) want 0 false false false None [] None (u_now u) 0 0 0 in
                  Val (Some (disk, Ok (mkRunning r magic_node derp_node api), sent))
              end
        end
  end.

(** ** run_supervised *)

Definition make_run_stats (r : Rt W T) : RunStats :=
  mkStats (r_snapshots r) (r_keepalives r) (r_errors r) (state (n_tracker (r_node r))) (size (by_pubkey (n_engine (r_node r)))) (length (alive_regions (r_mux r))).

(** What one cycle meets: the random word of its wait and whether it is cut
    short, whether it is stopped, the boot and the passes of the loop; when these
    run out the loop is told to stop. *)
Record Cycle : Type := mkCycle { y_raw : Z; y_cut : bool; y_stop : bool; y_up : UpIn; y_started : Z; y_passes : list PassIn }.

Inductive SupEnd : Type := Done (s : RunStats) | Failure (e : RuntimeError) | Waiting.

(** The settings of a cycle after a lost login want to run. *)
Definition cycle_settings (streak : Z) (cfg : Settings) : Settings :=
  if (0 <? streak) && negb (cfg_want_running cfg) then
    mkSettings (control cfg) (cfg_state_dir cfg) true (cfg_localapi_port cfg) (taildrop_enabled cfg) (taildrop_port cfg) (max_derp_conns cfg)
  else cfg.

Definition next_streak (streak : Z) (s : RunStats) : Z := if 0 <? st_snapshots s then 1 else Z.min (streak + 1) U32_MAX.

(** What a cycle did: its wait, the requests of its boot and, when that
    succeeded, the keys it was built around and the requests of its loop. *)
Record CycleLog : Type := mkLog { c_delay : Z; c_boot : list Message; c_loop : option (KeyStore * list Message) }.

Fixpoint run_supervised (cfg : Settings) (streak : Z) (ys : list Cycle) (disk : W * nat) : outcome (SupEnd * (W * nat) * list CycleLog) :=
  match ys with
  | [] => Val (Waiting, disk, [])
  | y :: ys =>
      let delay := if 0 <? streak then reconnect_backoff (y_raw y) streak else 0 in
      if (0 <? streak) && y_cut y then Val (Done RunStats_default, disk, [])
      else if y_stop y then Val (Done RunStats_default, disk, [])
      else
        u ← up (y_up y) (cycle_settings streak cfg) disk;
        match u with
        | None => Val (Waiting, disk, [])
        | Some (disk, Err e, sent) => Val (Failure e, disk, [mkLog delay sent None])
        | Some (disk, Ok g, sent) =>
            '(e, sent') ← event_loop (cycle_settings streak cfg) (y_started y) (y_passes y) (g_rt g);
            let log := mkLog delay sent (Some (n_ks (r_node (g_rt g)), sent')) in
            match e with
            | Continue r | Break r => Val (Done (make_run_stats r), n_disk (r_node r), [log])
            | FailedWith e r => Val (Failure (RControl e), n_disk (r_node r), [log])
            | Relogin r =>
                '(x, disk, logs) ← run_supervised cfg (next_streak streak (make_run_stats r)) ys (n_disk (r_node r));
                Val (x, disk, log :: logs)
            end
        end
  end.
End Up.
Arguments Running W T : clear implicits.

(** * Lemmas *)

(** ** Waits *)

Lemma backoff_base_range n : 0 <= backoff_base n <= 60 /\ (n <> 0%nat -> 1 <= backoff_base n).
Proof.
  destruct n as [|n]; cbn [backoff_base]; unfold RECONNECT_BACKOFF_CAP; [lia|]. destruct (n <? 64)%nat; [|lia].
  pose proof (Z.pow_pos_nonneg 2 (Z.of_nat n)). lia.
Qed.

(** The saturating shift and the cap are the capped power of two. *)
Lemma backoff_base_doubles a : 0 < a -> backoff_base (Z.to_nat a) = Z.min (2 ^ (a - 1)) 60.
Proof.
  intros Ha. replace (Z.to_nat a) with (S (Z.to_nat (a - 1))) by lia. cbn [backoff_base]. change RECONNECT_BACKOFF_CAP with 60.
  destruct (Nat.ltb_spec (Z.to_nat (a - 1)) 64) as [Hl|Hl]; [by rewrite Z2Nat.id by lia|].
  assert (2 ^ 6 <= 2 ^ (a - 1)) by (apply Z.pow_le_mono_r; lia). lia.
Qed.

Lemma jitter_range raw b : 0 <= raw <= U32_MAX -> 0 <= b -> 3 * b / 4 <= apply_jitter raw b <= 5 * b / 4.
Proof.
  intros Hr Hb. unfold apply_jitter. assert (HM : 0 < U32_MAX) by done. generalize dependent U32_MAX. intros M Hr HM. split; apply Z.div_le_lower_bound; try lia.
  - pose proof (Z.mul_div_le (3 * b) 4). nia.
  - pose proof (Z.mul_div_le (b * (3 * M + 2 * raw)) (4 * M)) as Hq. revert Hq. generalize (b * (3 * M + 2 * raw) / (4 * M)). intros q Hq.
    assert (b * (3 * M + 2 * raw) <= b * (5 * M)) by (apply Z.mul_le_mono_nonneg_l; lia). nia.
Qed.

Lemma backoff_range raw a : 0 <= raw <= U32_MAX -> 0 < a -> 750 <= reconnect_backoff raw a <= 75000.
Proof.
  intros Hr Ha. unfold reconnect_backoff. destruct (Z.eqb_spec a 0) as [->|_]; [lia|].
  pose proof (backoff_base_range (Z.to_nat a)) as [[H1 H2] H3]. assert (H4 : 1 <= backoff_base (Z.to_nat a)) by (apply H3; lia).
  destruct (jitter_range raw (backoff_base (Z.to_nat a) * 1000)) as [J1 J2]; [done|lia|]. split.
  - etrans; [|exact J1]. apply Z.div_le_lower_bound; lia.
  - etrans; [exact J2|]. apply Z.div_le_upper_bound; lia.
Qed.

(** The wait ends: stopped at a check before the time is up, or over at or after it. *)
Lemma sleep_spec fuel stop late wake : (forall k, 0 <= late k) -> forall k now, wake - now <= Z.of_nat fuel * SLEEP_SLICE ->
  exists b t, sleep_until fuel stop late wake k now = Some (b, t) /\ now <= t /\
    if b then t < wake /\ exists j, (k <= j)%nat /\ stop j = true /\ forall i, (k <= i < j)%nat -> stop i = false
    else wake <= t.
Proof.
  intros Hl. induction fuel as [|fuel IH]; intros k now Hf; cbn [sleep_until]; destruct (Z.leb_spec wake now) as [Hw|Hw]; try (exists false, now; split_and!; [done|lia|lia]).
  - unfold SLEEP_SLICE in Hf. lia.
  - destruct (stop k) eqn:Ek.
    + exists true, now. split_and!; [done|lia|lia|]. exists k. split_and!; [lia|done|lia].
    + specialize (Hl k) as Hk. unfold SLEEP_SLICE in *.
      destruct (IH (S k) (now + Z.min (wake - now) 250 + late k)) as (b & t & E & Ht & Hb); [lia|].
      exists b, t. split_and!; [done|lia|]. destruct b; [|done]. destruct Hb as [Hb (j & J1 & J2 & J3)]. split; [done|]. exists j. split_and!; [lia|done|].
      intros i Hi. destruct (decide (i = k)) as [->|]; [done|]. apply J3. lia.
Qed.

(** ** Key files *)

Section Kept.
Context {W : Type} {d : list Z} `{FsLaws W d} (pid : Z) (Hd : tidy d) (Hpid : 0 <= pid).
#[local] Abbreviation holds := (Keys.holds (d := d)).

(** The key files and their temporary files are as before. *)
Definition same_keys (w w' : W) : Prop :=
  forall f, f ∈ key_files -> holds w' f = holds w f /\ holds w' (tmp_name pid f) = holds w (tmp_name pid f).

Lemma same_keys_refl w : same_keys w w.
Proof. done. Qed.
Lemma same_keys_trans w1 w2 w3 : same_keys w1 w2 -> same_keys w2 w3 -> same_keys w1 w3.
Proof. intros A B f Hf. destruct (A f Hf), (B f Hf). split; congruence. Qed.

Lemma same_keys_stored derive_pub w w' ks : same_keys w w' -> stored (d := d) derive_pub w ks -> stored (d := d) derive_pub w' ks.
Proof.
  intros Hk [E Hs]. split; [done|]. intros f b Hf. destruct (Hk f) as [-> _]; [|by apply Hs].
  revert Hf. unfold key_files. rewrite !elem_of_cons, !elem_of_nil. naive_solver.
Qed.
Lemma same_keys_leftover w w' : same_keys w w' -> no_leftover (d := d) pid w -> no_leftover (d := d) pid w'.
Proof. intros Hk Hno f Hf. destruct (Hk f Hf) as [_ ->]. by apply Hno. Qed.

Lemma others_keys w w' : others_kept (d := d) w w' -> same_keys w w'.
Proof. intros Hk f Hf. destruct (key_file_apart pid Hpid f Hf). split; by apply Hk. Qed.

(** A key file is no session file, nor is its temporary file, nor the other way round. *)
Lemma key_not_session f g : f ∈ key_files -> g ∈ session_files -> f <> g /\ f <> tmp_name pid g /\ tmp_name pid f <> g /\ tmp_name pid f <> tmp_name pid g.
Proof.
  intros Hf Hg. destruct (key_file_facts f Hf) as [_ Hl]. destruct (session_file_facts g Hg) as [_ (c & Hc & Hdig)].
  assert (Hne : f <> g) by (intros ->; revert Hf Hg; unfold key_files, session_files; rewrite !elem_of_cons, !elem_of_nil; intros [->|[->|[->|[->|[]]]]] [?|[?|[]]]; discriminate).
  split_and!; [done| | |by intros ?%tmp_name_inj].
  - apply not_eq_sym. eapply tmp_name_ne; [done|exact Hl|lia].
  - by eapply tmp_name_ne.
Qed.

Lemma delete_keys w : same_keys w (delete_session_state d w).
Proof.
  intros f Hf. destruct (key_file_facts f Hf) as [Hp _].
  split; (apply delete_session_other; [done || by apply tmp_plain|]); intros Hx; destruct (key_not_session f _ Hf Hx) as (A & B & C & D); done.
Qed.

Lemma persist_keys g b w w' r : g ∈ session_files -> atomic_write pid (join d g) b w = (w', r) -> same_keys w w'.
Proof.
  intros Hg E f Hf. destruct (key_file_facts f Hf) as [Hp _]. destruct (session_file_facts g Hg) as [Hgp (c & Hc & Hdig)].
  destruct (key_not_session f g Hf Hg) as (A & B & C & D).
  assert (Hgt : g <> tmp_name pid g) by (apply not_eq_sym; by eapply tmp_name_ne).
  split; (eapply atomic_write_other; [done|done|exact Hgp|exact Hgt|exact E|done || by apply tmp_plain|done|done]).
Qed.

Lemma key_write_session f b w w' r : f ∈ key_files -> atomic_write pid (join d f) b w = (w', r) -> same_session (d := d) pid w w'.
Proof.
  intros Hf E. destruct (key_file_facts f Hf) as [Hp Hl].
  assert (Hft : f <> tmp_name pid f) by (apply not_eq_sym; eapply tmp_name_ne; [done|exact Hl|lia]).
  assert (K : forall g, g ∈ session_files -> holds w' g = holds w g /\ holds w' (tmp_name pid g) = holds w (tmp_name pid g)).
  { intros g Hg. destruct (session_file_facts g Hg) as [Hgp _]. destruct (key_not_session f g Hf Hg) as (A & B & C & D).
    split; (eapply atomic_write_other; [done|done|exact Hp|exact Hft|exact E|done || by apply tmp_plain|by apply not_eq_sym..]). }
  unfold same_session, seq_of, handle_of. destruct (K _ seq_file) as [-> _]. destruct (K _ handle_file) as [-> _]. split_and!; [done..|].
  intros Ht g Hg. destruct (K g Hg) as [_ ->]. by apply Ht.
Qed.

Lemma load_priv_session secret f w n w' n' r : f ∈ key_files -> load_or_generate_priv pid secret d f (w, n) = ((w', n'), r) -> same_session (d := d) pid w w'.
Proof.
  intros Hf. assert (Hg : generate_and_persist pid secret (join d f) (w, n) = ((w', n'), r) -> same_session (d := d) pid w w').
  { unfold generate_and_persist, lift, mbind, se_bind. destruct (atomic_write pid (join d f) (secret n) w) as [w1 r1] eqn:E.
    apply key_write_session in E; [|done]. destruct r1; by intros [= <- _ _]. }
  unfold load_or_generate_priv. cbn [fst]. destruct (fs_read w (join d f)) as [c|[]]; [case_decide; [by intros [= <- _ _]|done]|done|by intros [= <- _ _]].
Qed.

Lemma load_session_kept secret derive_pub w n w' n' r : load_or_generate pid secret derive_pub d (w, n) = ((w', n'), r) -> same_session (d := d) pid w w'.
Proof.
  unfold load_or_generate, mbind, se_bind.
  destruct (load_or_generate_priv pid secret d MACHINE_FILE (w, n)) as [[w1 n1] r1] eqn:E1. apply load_priv_session in E1; [|set_solver].
  destruct r1; [|by intros [= <- _ _]].
  destruct (load_or_generate_priv pid secret d NODE_FILE (w1, n1)) as [[w2 n2] r2] eqn:E2. apply load_priv_session in E2; [|set_solver].
  pose proof (same_session_trans _ _ _ _ E1 E2) as E12. destruct r2; [|by intros [= <- _ _]].
  destruct (load_or_generate_priv pid secret d DISCO_FILE (w2, n2)) as [[w3 n3] r3] eqn:E3. apply load_priv_session in E3; [|set_solver].
  pose proof (same_session_trans _ _ _ _ E12 E3) as E13. destruct r3; [|by intros [= <- _ _]].
  destruct (load_or_generate_priv pid secret d NL_FILE (w3, n3)) as [[w4 n4] r4] eqn:E4. apply load_priv_session in E4; [|set_solver].
  pose proof (same_session_trans _ _ _ _ E13 E4) as E14. destruct r4; by intros [= <- _ _].
Qed.

Lemma next_event_keys json unzstd p6 keys now after es c w w' x es' : state_dir c = d ->
  next_event pid json unzstd p6 keys now after es c w = (w', x, es') -> same_keys w w'.
Proof.
  intros Hdir. unfold next_event. destruct (_ <=? now); [by intros [= <- _ _]|].
  destruct (next_frame json unzstd es (framer c)) as [[f res] es1]. destruct res as [[[ka resp]| |]|e]; try by intros [= <- _ _].
  intros E. revert E. unfold handle_frame. destruct ka; [by intros [= <- _ _]|].
  cbn [set_framer MapStream.netmap set_netmap state_dir]. destruct (apply p6 keys (MapStream.netmap c) resp) as [nm delta]. rewrite Hdir.
  destruct (if 0 <? delta_seq delta then _ else _) as [w1 r1] eqn:E1.
  assert (K1 : same_keys w w1).
  { destruct (0 <? delta_seq delta); [|by injection E1 as <- _]. eapply persist_keys; [apply seq_file|exact E1]. }
  destruct r1 as [[]|]; [|by intros [= <- _ _]]. destruct (if negb _ && negb _ then _ else _) as [w2 r2] eqn:E2.
  assert (K2 : same_keys w1 w2).
  { destruct (negb _ && negb _); [|by injection E2 as <- _]. eapply persist_keys; [apply handle_file|exact E2]. }
  intros E. assert (w2 = w') as <- by (destruct r2; by injection E). by eapply same_keys_trans.
Qed.
End Kept.

(** ** The loop keeps the keys on disk *)

Section LoopKeys.
Context {W : Type} {d : list Z} `{FsLaws W d} {St Hs : Type} `{NoiseOps St Hs} `{!Outside St Hs} {T : Type} `{TunnOps T} `{!Surroundings}.
Context (cfg : Settings) (started_at : Z) (Hd : tidy d) (Hpid : 0 <= x_pid) (Hdir : cfg_state_dir cfg = d).
#[local] Abbreviation disk_of := (fun r : Rt W T => (n_disk (r_node r)).1).
#[local] Abbreviation kept := (same_keys (d := d) x_pid).

(** The session's files are in the state directory. *)
Definition located (r : Rt W T) : Prop := forall c, n_map (r_node r) = Some c -> state_dir c = d.

Lemma signals_keys i fatal sigs : forall (r : Rt W T) lo li, located r ->
  let r' := (foldl (on_signal cfg i fatal) (r, lo, li) sigs).1.1 in kept (disk_of r) (disk_of r') /\ located r'.
Proof.
  induction sigs as [|sig sigs IH]; intros r lo li Hl; cbn [foldl]; [split; [apply same_keys_refl|done]|].
  assert (H1s : forall r1 lo1 li1, on_signal cfg i fatal (r, lo, li) sig = (r1, lo1, li1) -> kept (disk_of r) (disk_of r1) /\ located r1).
  { intros r1 lo1 li1. unfold on_signal. destruct fatal; [by intros [= <- _ _]|]. destruct sig as [|desired| |]; [by intros [= <- _ _]| |by intros [= <- _ _]..].
    destruct (desired && negb (r_want r)); [by intros [= <- _ _]|]. destruct (negb desired && r_want r); [|by intros [= <- _ _]].
    rewrite Hdir. intros [= <- _ _]. split; [by apply delete_keys|done]. }
  destruct (on_signal cfg i fatal (r, lo, li) sig) as [[r1 lo1] li1]. destruct (H1s r1 lo1 li1 eq_refl) as [K1 L1].
  destruct (IH r1 lo1 li1 L1) as [K2 L2]. split; [by eapply same_keys_trans|done].
Qed.

(** A logout is asked for by a signal. *)
Lemma logout_signal i fatal sigs : forall (r : Rt W T) lo li,
  (foldl (on_signal cfg i fatal) (r, lo, li) sigs).1.2 = true -> lo = true \/ Logout ∈ sigs.
Proof.
  induction sigs as [|sig sigs IH]; intros r lo li; cbn [foldl]; [by left|].
  assert (Hs1 : forall r1 lo1 li1, on_signal cfg i fatal (r, lo, li) sig = (r1, lo1, li1) -> lo1 = true -> lo = true \/ sig = Logout).
  { intros r1 lo1 li1. unfold on_signal. destruct fatal; [intros [= _ <- _]; by left|].
    destruct sig as [|[]| |]; try (intros [= _ <- _]; by left); try (intros [= _ <- _]; by right); destruct (r_want r); cbn; intros [= _ <- _]; by left. }
  destruct (on_signal cfg i fatal (r, lo, li) sig) as [[r1 lo1] li1]. intros E. apply IH in E as [E|E]; [|right; by right].
  destruct (Hs1 _ _ _ eq_refl E) as [?| ->]; [by left|right; by left].
Qed.

Lemma event_disk i c ev (r : Rt W T) : n_disk (r_node (on_event cfg started_at i c ev r).1) = n_disk (r_node r).
Proof.
  destruct ev as [seq addrs pc rc pf delta|seq|]; cbn [on_event]; [|done..].
  set (r0 := track _ (count 1 0 0 r)). pose proof (derp_map_core i (MapStream.netmap c) rc r0) as C1. revert C1. generalize (on_derp_map i (MapStream.netmap c) rc r0). intros r1 C1.
  destruct (netinfo_core i c r1) as [C2 _]. destruct (on_netinfo i c r1) as [r2 sent]. pose proof (addrs_core addrs r2) as C3.
  revert C3. generalize (on_addrs addrs r2). intros r3 C3. cbn [fst] in C2. assert (C : core r3 = core r0) by congruence. by injection C.
Qed.

Lemma end_of_pass_disk i c (r : Rt W T) : n_disk (r_node (end_of_pass cfg started_at i c r)) = n_disk (r_node r).
Proof. pose proof (end_of_pass_core cfg started_at i c r) as C. by injection C. Qed.

Lemma poll_keys i c (r : Rt W T) : state_dir c = d -> kept (disk_of r) (disk_of (end_rt (poll_event cfg started_at i c r).1)).
Proof.
  intros Hc. unfold poll_event. destruct (next_event _ _ _ _ _ _ _ _ c _) as [[w1 [c1 res]] es'] eqn:Ev.
  apply (next_event_keys (d := d) x_pid Hd Hpid) in Ev; [|done]. set (r1 := set_parts _ _ _ _ _ _ _).
  assert (E1 : disk_of r1 = w1) by done. clearbody r1. destruct res as [ev|e].
  - pose proof (event_disk i c1 ev (set_run (r_want r1) 0 r1)) as E2. destruct (on_event cfg started_at i c1 ev _) as [r2 sent].
    cbn [fst end_rt] in *. rewrite end_of_pass_disk, E2. cbn [set_run r_node]. by rewrite E1.
  - rewrite <- E1 in Ev. by destruct (classify_control_error e).
Qed.

Lemma reconnect_keys i (r : Rt W T) e sent : reconnect_pass cfg started_at i r = Val (e, sent) -> kept (disk_of r) (disk_of (end_rt e)).
Proof.
  unfold reconnect_pass. destruct (i_stop i); [by intros [= <- _]|].
  destruct (bootstrap_control_session _ _ _ _ _ _) as [[[w sent1] res]| |] eqn:Eb; cbn [mbind outcome_bind]; try done.
  apply bootstrap_spec in Eb as (Hk & _ & Hses); [|done]. apply (others_keys x_pid Hpid) in Hk. destruct res as [[m|]|e0].
  - destruct (Hses m eq_refl) as (_ & Hm & _). set (r2 := set_flags _ _ _ _). pose proof (poll_keys i m r2 Hm) as Hp.
    destruct (poll_event cfg started_at i m r2) as [e2 sent2]. intros [= <- _]. eapply same_keys_trans; [exact Hk|exact Hp].
  - by intros [= <- _].
  - intros [= <- _]. by destruct (classify_control_error e0).
Qed.

Lemma pass_keys i (r : Rt W T) e sent : located r -> Logout ∉ i_signals i -> event_pass cfg started_at i r = Val (e, sent) ->
  kept (disk_of r) (disk_of (end_rt e)).
Proof.
  intros Hl Hno. unfold event_pass. set (r0 := set_net _ _ r). assert (Hl0 : located r0) by done. assert (Er : n_disk (r_node r) = n_disk (r_node r0)) by done. rewrite Er. clearbody r0. clear Er.
  pose proof (logout_signal i (is_fatal (state (n_tracker (r_node r0)))) (i_signals i) r0 false false) as Hlo.
  pose proof (signals_keys i (is_fatal (state (n_tracker (r_node r0)))) (i_signals i) r0 false false Hl0) as Hsig.
  destruct (foldl (on_signal cfg i _) (r0, false, false) (i_signals i)) as [[r1 lo] li]. cbn [fst snd] in *. destruct Hsig as [K1 L1].
  destruct (li && r_want r1); [intros [= <- _]; exact K1|]. destruct lo; [destruct (Hlo eq_refl) as [Hx|Hx]; [discriminate Hx|by destruct (Hno Hx)]|].
  destruct (negb (r_want r1)); [intros [= <- _]; unfold slept; destruct (i_stop i); exact K1|].
  destruct (n_map (r_node r1)) as [c|] eqn:Em.
  - intros [= E]. pose proof (poll_keys i c r1 (L1 c Em)) as Hp. rewrite E in Hp. by eapply same_keys_trans.
  - case_decide; [intros [= <- _]; unfold slept; destruct (i_stop i); exact K1|]. intros E%reconnect_keys. by eapply same_keys_trans.
Qed.

(** A run of the loop without a logout. *)
Context (Hkeys : forall (m : gmap (list Z) Z) k, k ∈ s_region_keys m <-> is_Some (m !! k)).
Lemma loop_keys is_ : forall (r : Rt W T) e sent, rt_inv (d := d) r -> Forall (fun i => Logout ∉ i_signals i) is_ ->
  event_loop cfg started_at is_ r = Val (e, sent) -> kept (disk_of r) (disk_of (end_rt e)).
Proof.
  induction is_ as [|i is_ IH]; intros r e sent Hi Hst; cbn [event_loop]; [intros [= <- _]; apply same_keys_refl|].
  apply Forall_cons_1 in Hst as [Hnl Hst]. destruct (event_pass cfg started_at i r) as [[e1 sent1]| |] eqn:E1; cbn [mbind outcome_bind]; try done.
  assert (Hl : located r) by (intros c Hc; by destruct (ri_map r Hi c Hc)). pose proof (pass_keys i r e1 sent1 Hl Hnl E1) as K1.
  apply (event_pass_inv cfg started_at Hdir Hkeys) in E1 as (Hi1 & _); [|done]. destruct e1 as [r1|r1|r1|e1 r1]; [|by intros [= <- _]..].
  destruct (event_loop cfg started_at is_ r1) as [[e2 sent2]| |] eqn:E2; cbn [mbind outcome_bind]; try done. intros [= <- _].
  eapply same_keys_trans; [exact K1|by eapply IH].
Qed.
End LoopKeys.

(** ** The boot *)

Section Boot.
Context {W : Type} {d : list Z} `{FsLaws W d} {St Hs : Type} `{NoiseOps St Hs} `{!Outside St Hs} {T : Type} `{TunnOps T} `{!Surroundings}.
Context (Hd : tidy d) (Hpid : 0 <= x_pid) (Hsecret : forall i, length (x_secret i) = 32%nat).

(** A login leaves the session files alone. *)
Lemma login_pass_session (c : Config) log_id p (s s' : LoginState W) e :
  login_pass x_parse_response x_public_key x_base64 x_hs_new x_h2_open x_json x_pid x_secret x_derive c d log_id p s = Val (s', e) ->
  same_session (d := d) x_pid (l_disk s).1 (l_disk s').1.
Proof.
  unfold login_pass. destruct (p_abort p); [by intros [= <- _]|].
  destruct (establish_control_conn _ _ _ _ _ _ c _ d _) as [[w x]| |] eqn:Ee; cbn [mbind outcome_bind]; try done.
  apply establish_others, (others_session x_pid Hpid) in Ee. destruct x as [conn|e0]; [|by intros [= <- _]].
  destruct (register _ _ _ _ _ _ _ _ _) as [req r]. set (s1 := record_exchange req r (set_disk w s)).
  assert (E1 : l_disk s1 = (w, (l_disk s).2)) by (unfold s1; by destruct req). clearbody s1.
  destruct r as [o|er]; [|intros E; rewrite <- (f_equal fst E1 : (l_disk s1).1 = w) in Ee; by destruct er; injection E as <- _].
  intros [= E]. revert E. unfold on_outcome. rewrite E1. destruct (_ && negb _).
  - destruct (regenerate_node_key _ _ _ d _ _) as [[w2 n2] k] eqn:Eg. apply (regenerate_same_session x_pid Hd Hpid) in Eg.
    destruct k; intros [= <- _]; by eapply same_session_trans.
  - destruct (o_machine_authorized o); [|destruct (pending_auth_url o)]; intros [= <- _]; cbn [l_disk]; rewrite ?E1; exact Ee.
Qed.

Lemma login_session (c : Config) log_id ps disk ks t (s : LoginState W) e :
  interactive_login x_parse_response x_public_key x_base64 x_hs_new x_h2_open x_json x_pid x_secret x_derive c d log_id ps disk ks t = Val (s, e) ->
  same_session (d := d) x_pid disk.1 (l_disk s).1.
Proof.
  unfold interactive_login. set (s0 := mkLogin disk _ _ _ _ _). assert (E0 : disk = l_disk s0) by done. rewrite E0. clearbody s0. clear E0. revert s0.
  induction ps as [|p ps IH]; intros s0; cbn [login_loop]; [by intros [= <- _]|].
  destruct (login_pass _ _ _ _ _ _ _ _ _ _ _ _ p s0) as [[s1 e1]| |] eqn:Ep; cbn [mbind outcome_bind]; try done.
  apply login_pass_session in Ep. destruct e1 as [e1|]; [by intros [= <- _]|]. intros E%IH. by eapply same_session_trans.
Qed.

(** The identity that outlives a node key. *)
Definition same_machine (ks ks' : KeyStore) : Prop :=
  machine_priv ks' = machine_priv ks /\ disco_priv ks' = disco_priv ks /\ nl_priv ks' = nl_priv ks.

(** A state directory whose session files were not cut short. *)
Record sound (w : W) : Prop := {
  sd_tidy : tidy_state (d := d) x_pid w;
  sd_seq : 0 <= seq_of (d := d) w < 2 ^ 63
}.
(** These keys are on disk, and no write of a key was cut short. *)
Definition ready (w : W) (ks : KeyStore) : Prop := no_leftover (d := d) x_pid w /\ stored (d := d) x_derive w ks.

Lemma sound_session w w' : same_session (d := d) x_pid w w' -> sound w -> sound w'.
Proof. intros (E1 & E2 & E3) [R2 R3]. split; [auto|by rewrite E1]. Qed.

Lemma load_ready w n w' n' ks : no_leftover (d := d) x_pid w -> load_or_generate x_pid x_secret x_derive d (w, n) = ((w', n'), Ok ks) ->
  ready w' ks /\ same_session (d := d) x_pid w w'.
Proof.
  intros Hw E. split; [|by eapply load_session_kept].
  apply load_spec in E as [_ E]; [|done..]. by destruct (E ks eq_refl) as [E1 E2].
Qed.

(** The last request of a login that succeeded. *)
Definition authorized_last (u : UpIn) (k : list Z) (sent : list Message) : Prop :=
  exists l req p body resp, sent = l ++ [MRegister req] /\ p ∈ u_passes u /\ p_conn p req = Ok (200, body) /\ x_json body = Some resp /\ machine_authorized resp = true /\ rp_error resp = [] /\ rr_node_key req = to_nodekey_string k.

Lemma boot_login_spec u cfg disk ks snap b : cfg_state_dir cfg = d -> ready disk.1 ks -> boot_login u cfg disk ks snap = Val (Some b) ->
  forall conn want t s, b_left b = Ok (conn, want, t, s) ->
  ready (b_disk b).1 (b_ks b) /\ same_session (d := d) x_pid disk.1 (b_disk b).1 /\ same_machine ks (b_ks b) /\
  (is_Some conn -> want = true /\ authorized_last u (Keys.node_pub (b_ks b)) (b_sent b)) /\
  (cfg_want_running cfg = false -> conn = None /\ want = false /\ state t = Stopped /\ b_sent b = []).
Proof.
  intros Hdir Hr. pose proof Hr as [R2 R1]. unfold boot_login. destruct (cfg_want_running cfg); cbn [negb].
  2:{ intros [= <-] conn want t s [= <- <- <- <-]. split_and!; [done|done|done..|by intros [? ?]|done]. }
  rewrite Hdir. destruct (interactive_login _ _ _ _ _ _ _ _ _ _ d _ _ disk ks _) as [[s e]| |] eqn:E; cbn [mbind outcome_bind]; try done.
  pose proof (login_session _ _ _ _ _ _ _ _ E) as Hses. unfold interactive_login in E.
  eapply login_loop_inv in E as [->|[[I1 I2 I3 I4 I5 _] He]]; [by intros [= <-]| |done..|].
  - unfold login_left. destruct e as [e|]; [|done]. intros [= <-] conn want t s'. cbn [b_left b_disk b_ks b_sent]. intros El.
    split_and!; [by split|done|done..| |done]. destruct e as [x|[]|]; cbn [after_login] in El; try discriminate El; injection El as <- <- _ _; try by intros [? ?].
    intros _. split; [done|]. destruct He as (l & req & o & p & body & resp & -> & Hp & A0 & A1 & A2 & A3 & A4). exists (MRegister <$> l.*1), req, p, body, resp.
    rewrite !fmap_app. cbn. split_and!; try done. rewrite A4. by rewrite (stored_pub x_derive _ _ I1).
  - split; cbn [l_disk l_ks l_exchanges l_followup fst]; try done; constructor.
Qed.

Lemma boot_map_spec u cfg ks (conn : option (NoiseStream St)) (w : W) rq m : cfg_state_dir cfg = d -> boot_map u cfg ks conn w = Val (rq, Ok (Some m)) ->
  is_Some conn /\ (exists q, rq = Some q /\ rq_node_key q = to_nodekey_string (Keys.node_pub ks)) /\
  MapStream.node_pub m = Keys.node_pub ks /\ state_dir m = d.
Proof.
  intros Hdir. unfold boot_map. destruct conn as [conn|]; [|done]. unfold finish_session. rewrite Hdir.
  destruct (start _ _ _ _ _ _ d _ _ _ w) as [[rq1 m1]| |] eqn:Es; cbn [mbind outcome_bind]; try done.
  assert (Hq : forall c, m1 = Ok c -> is_Some rq1).
  { revert Es. unfold start. destruct (load_session_state d w) as [[sq hd]|]; [|by intros [= <- <-]].
    destruct (short_handle hd); cbn [mbind outcome_bind]; try done. intros [= <- <-]. eauto. }
  apply start_spec in Es as [S1 S2]. destruct m1 as [m1|]; [|done]. intros [= <- <-]. destruct (S2 m1 eq_refl) as (sv & L & N1 & N2 & N3).
  destruct (Hq m1 eq_refl) as [q ->]. split_and!; eauto.
Qed.

(** A runtime that is up. *)
Lemma up_spec u cfg disk disk' (g : Running W T) sent : cfg_state_dir cfg = d -> no_leftover (d := d) x_pid disk.1 -> up u cfg disk = Val (Some (disk', Ok g, sent)) ->
  let n := r_node (g_rt g) in
  n_disk n = disk' /\ ready disk'.1 (n_ks n) /\ same_session (d := d) x_pid disk.1 disk'.1 /\
  n_engine n = Engine_new (node_priv (n_ks n)) [] /\ g_derp_node g = Keys.node_pub (n_ks n) /\
  (exists disk0 ks0, load_or_generate x_pid x_secret x_derive d disk = (disk0, Ok ks0) /\ same_machine ks0 (n_ks n) /\ g_magic_node g = Keys.node_pub ks0) /\
  rt_inv (d := d) (g_rt g) /\
  (forall m, n_map n = Some m -> r_want (g_rt g) = true /\ MapStream.node_pub m = Keys.node_pub (n_ks n) /\
     exists sent0 q, sent = sent0 ++ [MMap q] /\ rq_node_key q = to_nodekey_string (Keys.node_pub (n_ks n)) /\ authorized_last u (Keys.node_pub (n_ks n)) sent0) /\
  (cfg_want_running cfg = false -> n_map n = None /\ r_want (g_rt g) = false /\ state (n_tracker n) = Stopped /\ sent = []).
Proof.
  intros Hdir Hr. unfold up. rewrite Hdir.
  destruct disk as [w k0]. destruct (load_or_generate x_pid x_secret x_derive d (w, k0)) as [[w0 k1] [ks0|]] eqn:El; [|done].
  apply load_ready in El as [Hr0 Hs0]; [|done].
  destruct (negb (u_bound u)); [done|]. destruct (boot_login _ _ _ _ _) as [[[disk1 ks sent1 left]|]| |] eqn:Eb; cbn [mbind outcome_bind]; try done.
  destruct left as [[[[conn want] t] snap]|e]; [|done]. destruct (negb (u_threads u)); [done|].
  destruct (boot_login_spec u cfg (w0, k1) ks0 _ _ Hdir Hr0 Eb conn want t snap eq_refl) as (B1 & B0 & B2 & B3 & B4). cbn [b_disk b_ks b_sent] in B1, B0, B2, B3, B4.
  destruct (boot_map u cfg ks conn disk1.1) as [[rq m]| |] eqn:Em; cbn [mbind outcome_bind]; try done. destruct m as [m|e]; [|done].
  intros E. injection E as <- <- <-. cbn [g_rt g_magic_node g_derp_node r_node n_disk n_ks n_engine n_map n_tracker r_want].
  assert (Hm : forall m', m = Some m' -> is_Some conn /\ (exists q, rq = Some q /\ rq_node_key q = to_nodekey_string (Keys.node_pub ks)) /\
    MapStream.node_pub m' = Keys.node_pub ks /\ state_dir m' = d).
  { intros m' ->. by eapply boot_map_spec. }
  split_and!; try done; [by eapply same_session_trans|by exists (w0, k1), ks0|..].
  - split; [split; [done|]; intros k; by split; intros [? ?]|]. intros c Hc. by destruct (Hm c Hc) as (_ & _ & ? & ?).
  - intros m' ->. destruct (Hm m' eq_refl) as (M0 & (q & -> & Hq) & M1 & _). destruct (B3 M0) as [-> B5]. split_and!; [done|done|].
    exists sent1, q. split_and!; [done|done|done].
  - intros Hw. destruct (B4 Hw) as (-> & -> & Ht & ->). injection Em as <- <-. done.
Qed.
End Boot.

(** ** Cycles *)

Section Cycles.
Context {W : Type} {d : list Z} `{FsLaws W d} {St Hs : Type} `{NoiseOps St Hs} `{!Outside St Hs} {T : Type} `{TunnOps T} `{!Surroundings}.
Context (Hd : tidy d) (Hpid : 0 <= x_pid) (Hsecret : forall i, length (x_secret i) = 32%nat).
Context (Hkeys : forall (m : gmap (list Z) Z) k, k ∈ s_region_keys m <-> is_Some (m !! k)).

(** What a cycle leaves is what the next one needs. *)
Lemma cycle_ready (cfg : Settings) started is_ (r : Rt W T) e sent : cfg_state_dir cfg = d ->
  rt_inv (d := d) r -> ready (d := d) (n_disk (r_node r)).1 (n_ks (r_node r)) -> Forall (fun i => Logout ∉ i_signals i) is_ -> event_loop cfg started is_ r = Val (e, sent) ->
  shows (Keys.node_pub (n_ks (r_node r))) sent /\ ready (d := d) (n_disk (r_node (end_rt e))).1 (n_ks (r_node r)).
Proof.
  intros Hdir Hi [R1 R4] Hst E. pose proof (loop_keys cfg started Hd Hpid Hdir Hkeys is_ r e sent Hi Hst E) as Hk.
  destruct (loop_identity cfg started Hdir Hkeys is_ r e sent Hi Hst E) as (A1 & A2). split; [done|].
  split; [by eapply same_keys_leftover|by eapply same_keys_stored].
Qed.

Lemma same_machine_trans k1 k2 k3 : same_machine k1 k2 -> same_machine k2 k3 -> same_machine k1 k3.
Proof. intros (A1 & A2 & A3) (B1 & B2 & B3). split_and!; congruence. Qed.
Lemma same_machine_sym k1 k2 : same_machine k1 k2 -> same_machine k2 k1.
Proof. intros (A1 & A2 & A3). by split_and!. Qed.

(** The keys of the cycles that came up. *)
Definition cycle_keys (logs : list CycleLog) : list KeyStore := fst <$> omap c_loop logs.

(** What holds of a run's cycles: one key per loop and one machine. *)
Definition cycles_ok (w : W) (logs : list CycleLog) : Prop :=
  Forall (fun c => forall ks sent, c_loop c = Some (ks, sent) -> shows (Keys.node_pub ks) sent) logs /\
  (forall ks1 ks2, ks1 ∈ cycle_keys logs -> ks2 ∈ cycle_keys logs -> same_machine ks1 ks2) /\
  (forall ks0 ks, ready (d := d) w ks0 -> ks ∈ cycle_keys logs -> same_machine ks0 ks).

Lemma cycles_none w delay sent : cycles_ok w [] /\ cycles_ok w [mkLog delay sent None].
Proof. split; (split; [repeat constructor; done|split; intros ? ? ? Hx; by apply elem_of_nil in Hx]). Qed.

Lemma cycles_cons w w' delay sent ks sent' logs :
  (forall ks0, ready (d := d) w ks0 -> same_machine ks0 ks) -> shows (Keys.node_pub ks) sent' -> ready (d := d) w' ks -> cycles_ok w' logs ->
  cycles_ok w (mkLog delay sent (Some (ks, sent')) :: logs).
Proof.
  intros Hw Hsh Hr (A1 & A2 & A3).
  assert (Hall : forall k, k ∈ cycle_keys (mkLog delay sent (Some (ks, sent')) :: logs) -> same_machine ks k).
  { intros k [-> |Hk]%elem_of_cons; [done|]. by apply A3. }
  split; [constructor; [by intros ? ? [= <- <-]|done]|]. split.
  - intros k1 k2 H1k H2k. eapply same_machine_trans; [apply same_machine_sym|]; by apply Hall.
  - intros k0 k Hk0 Hk. eapply same_machine_trans; [by apply Hw|by apply Hall].
Qed.

Lemma up_same u cfg (disk disk' : W * nat) (g : Running W T) sent : cfg_state_dir cfg = d -> no_leftover (d := d) x_pid disk.1 -> up u cfg disk = Val (Some (disk', Ok g, sent)) ->
  forall ks0, ready (d := d) disk.1 ks0 -> same_machine ks0 (n_ks (r_node (g_rt g))).
Proof.
  intros Hdir Hs0 E ks0 [_ Hst]. destruct (up_spec Hd Hpid Hsecret u cfg disk disk' g sent Hdir Hs0 E) as (_ & _ & _ & _ & _ & (disk0 & k & L & Hm & _) & _).
  destruct disk as [w n]. destruct (load_stored (d := d) x_pid Hd Hpid x_secret x_derive Hsecret w n ks0 Hst) as (r & L' & [-> | ->]); rewrite L in L'; [|done].
  injection L' as _ <-. exact Hm.
Qed.

(** Cycles whose loop is not asked to log out. *)
Definition no_logout (y : Cycle) : Prop := Forall (fun i => Logout ∉ i_signals i) (y_passes y).

Lemma supervised_ok cfg ys : cfg_state_dir cfg = d -> Forall no_logout ys -> forall streak (disk : W * nat) x disk' logs,
  no_leftover (d := d) x_pid disk.1 -> run_supervised (T := T) cfg streak ys disk = Val (x, disk', logs) -> cycles_ok disk.1 logs.
Proof.
  intros Hdir. induction 1 as [|y ys Hy _ IH]; intros streak disk x disk' logs Hs0; cbn [run_supervised]; [intros [= _ _ <-]; apply (cycles_none _ 0 [])|].
  destruct (_ && _); [intros [= _ _ <-]; apply (cycles_none _ 0 [])|]. destruct (y_stop y); [intros [= _ _ <-]; apply (cycles_none _ 0 [])|].
  assert (Hdc : cfg_state_dir (cycle_settings streak cfg) = d) by (unfold cycle_settings; by destruct (_ && _)).
  destruct (up (y_up y) (cycle_settings streak cfg) disk) as [[[[disk1 [g|e]] sent]|]| |] eqn:Eu; cbn [mbind outcome_bind]; try done.
  2: intros [= _ _ <-]; apply cycles_none.
  2: intros [= _ _ <-]; apply (cycles_none _ 0 []).
  pose proof (up_same _ _ _ _ _ _ Hdc Hs0 Eu) as Hsame.
  destruct (up_spec Hd Hpid Hsecret _ _ _ _ _ _ Hdc Hs0 Eu) as (U1 & U2 & _ & _ & _ & _ & Hg & _). rewrite <- U1 in U2.
  destruct (event_loop _ _ _ _) as [[e sent']| |] eqn:Ee; cbn [mbind outcome_bind]; try done.
  destruct (cycle_ready _ _ _ _ _ _ Hdc Hg U2 Hy Ee) as [Hsh Hr].
  assert (Hend : cycles_ok disk.1 [mkLog (if 0 <? streak then reconnect_backoff (y_raw y) streak else 0) sent (Some (n_ks (r_node (g_rt g)), sent'))]).
  { eapply cycles_cons; [exact Hsame|done|exact Hr|apply (cycles_none _ 0 [])]. }
  destruct e as [r|r|r|e r]; [by intros [= _ _ <-]|by intros [= _ _ <-]| |by intros [= _ _ <-]].
  destruct (run_supervised cfg _ ys _) as [[[x2 disk2] logs2]| |] eqn:Er; cbn [mbind outcome_bind]; try done. intros [= _ _ <-].
  eapply cycles_cons; [exact Hsame|done|exact Hr|]. eapply IH; [|exact Er]. apply Hr.
Qed.

(** Only the first cycle starts at once. *)
Lemma supervised_delays cfg ys : Forall (fun y => 0 <= y_raw y <= U32_MAX) ys -> forall streak (disk : W * nat) x disk' logs,
  0 <= streak -> run_supervised (T := T) cfg streak ys disk = Val (x, disk', logs) ->
  Forall (fun c => 750 <= c_delay c <= 75000) (if 0 <? streak then logs else tail logs) /\ (streak = 0 -> forall c, head logs = Some c -> c_delay c = 0).
Proof.
  induction 1 as [|y ys Hy _ IH]; intros streak disk x disk' logs Hz; cbn [run_supervised]; [intros [= _ _ <-]; split; [by destruct (_ <? _)|done]|].
  set (delay := if 0 <? streak then _ else 0).
  assert (Hdelay : if 0 <? streak then 750 <= delay <= 75000 else delay = 0) by (unfold delay; destruct (Z.ltb_spec 0 streak); [by apply backoff_range|done]).
  clearbody delay. assert (Hone : forall b c logs', Forall (fun c => 750 <= c_delay c <= 75000) logs' ->
    Forall (fun c => 750 <= c_delay c <= 75000) (if 0 <? streak then mkLog delay b c :: logs' else logs') /\ (streak = 0 -> forall c', head (mkLog delay b c :: logs') = Some c' -> c_delay c' = 0)).
  { intros b c logs' Hl. split; [destruct (0 <? streak); [by constructor|done]|]. intros -> c' [= <-]. exact Hdelay. }
  assert (Hnone : Forall (fun c => 750 <= c_delay c <= 75000) (if 0 <? streak then [] else tail []) /\ (streak = 0 -> forall c : CycleLog, head [] = Some c -> c_delay c = 0)) by (split; [by destruct (_ <? _)|done]).
  destruct (_ && _); [by intros [= _ _ <-]|]. destruct (y_stop y); [by intros [= _ _ <-]|].
  destruct (up _ _ disk) as [[[[disk1 [g|e]] sent]|]| |]; cbn [mbind outcome_bind]; try done; [|by intros [= _ _ <-]; apply (Hone sent None [])|by intros [= _ _ <-]].
  destruct (event_loop _ _ _ _) as [[e sent']| |]; cbn [mbind outcome_bind]; try done.
  destruct e as [r|r|r|e r]; [by intros [= _ _ <-]; apply (Hone sent (Some (_, sent')) [])..| |by intros [= _ _ <-]; apply (Hone sent (Some (_, sent')) [])].
  set (st := next_streak streak (make_run_stats r)). assert (Hst : 0 < st) by (assert (0 < U32_MAX) by done; unfold st, next_streak; destruct (0 <? st_snapshots _); lia). clearbody st.
  destruct (run_supervised cfg st ys _) as [[[x2 disk2] logs2]| |] eqn:Er; cbn [mbind outcome_bind]; try done. intros [= _ _ <-].
  apply IH in Er as [Er _]; [|lia]. rewrite (proj2 (Z.ltb_lt 0 st) Hst) in Er. by apply (Hone sent (Some (_, sent')) logs2).
Qed.
End Cycles.

(** * Theorems *)

(** C19: a boot builds one identity.  Whatever the servers and the network answer, a
    runtime that comes up from a state directory without cut-short key writes has
    its keys on disk, and the session files say what they said; the
    machine, disco and network-lock keys are those that were there, or that it
    wrote; the engine starts with no peer under the node key's secret and the
    relays under its public key; a map stream is open only after the server has
    authorized that very key in the answer to the last register request, and the
    map request shows it too; and a boot that is not to run sends nothing and is
    stopped. *)
Theorem boot_one_identity {W} {d : list Z} `{FsLaws W d} {St Hs} `{NoiseOps St Hs} `{!Outside St Hs} {T} `{TunnOps T} `{!Surroundings}
    u cfg (disk disk' : W * nat) (g : Running W T) sent :
  tidy d -> 0 <= x_pid -> (forall i, length (x_secret i) = 32%nat) -> cfg_state_dir cfg = d -> no_leftover (d := d) x_pid disk.1 ->
  up u cfg disk = Val (Some (disk', Ok g, sent)) ->
  let n := r_node (g_rt g) in
  let key := Keys.node_pub (n_ks n) in
  n_disk n = disk' /\ ready (d := d) disk'.1 (n_ks n) /\ (sound (d := d) disk.1 -> sound (d := d) disk'.1) /\
  (exists disk0 ks0, load_or_generate x_pid x_secret x_derive d disk = (disk0, Ok ks0) /\ same_machine ks0 (n_ks n)) /\
  n_engine n = Engine_new (node_priv (n_ks n)) [] /\ g_derp_node g = key /\
  (forall m, n_map n = Some m -> r_want (g_rt g) = true /\ MapStream.node_pub m = key /\
     exists sent0 q, sent = sent0 ++ [MMap q] /\ rq_node_key q = to_nodekey_string key /\ authorized_last u key sent0) /\
  (cfg_want_running cfg = false -> n_map n = None /\ r_want (g_rt g) = false /\ state (n_tracker n) = Stopped /\ sent = []).
Proof.
  intros Hd Hpid Hsec Hdir Hs0 E. destruct (up_spec Hd Hpid Hsec u cfg disk disk' g sent Hdir Hs0 E) as (U1 & U2 & U0 & U3 & U4 & (disk0 & ks0 & L & Hm & _) & _ & U5 & U6).
  split_and!; try done; [by apply sound_session|by exists disk0, ks0].
Qed.

(** C5: identity under supervision.  Over any number of cycles of boot, loop and lost
    login, as long as no loop is asked to log out, and whatever the servers, the
    network and the disk do: every request that a cycle's loop sends shows the
    node key that the cycle was built around; and the machine, disco and
    network-lock keys are the same in all cycles, those on disk if there were
    any.  The first cycle starts at once, every later one after a wait of 0.75 s
    to 75 s. *)
Theorem supervised_one_identity {W} {d : list Z} `{FsLaws W d} {St Hs} `{NoiseOps St Hs} `{!Outside St Hs} {T} `{TunnOps T} `{!Surroundings}
    cfg ys (disk disk' : W * nat) x logs :
  tidy d -> 0 <= x_pid -> (forall i, length (x_secret i) = 32%nat) ->
  (forall (m : gmap (list Z) Z) k, k ∈ s_region_keys m <-> is_Some (m !! k)) ->
  cfg_state_dir cfg = d -> Forall (fun y => 0 <= y_raw y <= U32_MAX /\ no_logout y) ys -> no_leftover (d := d) x_pid disk.1 ->
  run_supervised (T := T) cfg 0 ys disk = Val (x, disk', logs) ->
  (forall c ks sent, c ∈ logs -> c_loop c = Some (ks, sent) -> shows (Keys.node_pub ks) sent) /\
  (forall ks1 ks2, ks1 ∈ cycle_keys logs -> ks2 ∈ cycle_keys logs -> same_machine ks1 ks2) /\
  (forall ks0 ks, stored (d := d) x_derive disk.1 ks0 -> ks ∈ cycle_keys logs -> same_machine ks0 ks) /\
  (forall c, head logs = Some c -> c_delay c = 0) /\ Forall (fun c => 750 <= c_delay c <= 75000) (tail logs).
Proof.
  intros Hd Hpid Hsec Hj Hdir [Hy1 Hy2]%List.Forall_and_inv Hs0 E. destruct (supervised_ok Hd Hpid Hsec Hj cfg ys Hdir Hy2 0 disk x disk' logs Hs0 E) as (A1 & A2 & A3).
  destruct (supervised_delays cfg ys Hy1 0 disk x disk' logs ltac:(done) E) as [B1 B2].
  split_and!; [|done|intros ks0 ks Hst; by apply A3|by apply B2|exact B1]. intros c ks sent Hc. rewrite list.Forall_forall in A1. by apply A1.
Qed.


(** ** Samples *)

Definition toy_up_in (bs_ : list Z) : UpIn := mkUpIn true (fun _ => true) (fun _ => false) (toy_pass <$> bs_) (bs "log") (Ok (200, [])) 3 6 true.
Definition toy_boot (bs_ : list Z) (card : Mem.Card) : outcome (option ((Mem.Card * nat) * result RuntimeError (Running Mem.Card Toy) * list Message)) :=
  up (toy_up_in bs_) (toy_settings (bs "key") true) (card, 5%nat).

Lemma clean_empty : no_leftover (d := toy_dir) (x_pid (Outside := toy_outside)) (∅ : Mem.Card).
Proof. intros f _. reflexivity. Qed.

Lemma toy_secrets : forall i, length (x_secret (Outside := toy_outside) i) = 32%nat.
Proof. intros i. apply repeat_length. Qed.
Lemma toy_pid : 0 <= x_pid (Outside := toy_outside).
Proof. apply (bool_decide_unpack _). vm_compute. done. Qed.

(** The first boot of a new console: four keys are written, the server authorizes. *)
Lemma boot_one_identity_witness :
  exists disk' g sent, toy_boot [2] ∅ = Val (Some (disk', Ok g, sent)) /\ is_Some (n_map (r_node (g_rt g))) /\ length sent = 2%nat /\
    ready (d := toy_dir) disk'.1 (n_ks (r_node (g_rt g))).
Proof.
  assert (Hb : match toy_boot [2] ∅ with
               | Val (Some (_, Ok g, sent)) => bool_decide (is_Some (n_map (r_node (g_rt g)))) && bool_decide (length sent = 2%nat)
               | _ => false end = true) by (vm_compute; reflexivity).
  destruct (toy_boot [2] ∅) as [[[[disk' [g|e]] sent]|]| |] eqn:E; try discriminate Hb.
  apply andb_true_iff in Hb as [B1 B2]. apply bool_decide_eq_true in B1, B2. exists disk', g, sent.
  destruct (boot_one_identity (d := toy_dir) (toy_up_in [2]) (toy_settings (bs "key") true) (∅, 5%nat) disk' g sent) as (_ & Hr & _);
    [apply toy_tidy|apply toy_pid|apply toy_secrets|reflexivity|apply clean_empty|exact E|].
  split; [reflexivity|]. split; [exact B1|]. split; [exact B2|exact Hr].
Defined.

(** Two cycles: the user asks for a new login, then the loop is stopped. *)
Definition toy_cycles : list Cycle :=
  [mkCycle 0 false false (toy_up_in [2]) 3 [pass_with [] [Chunk [1; 0; 0; 0; 1]]; pass_with [LoginInteractive] []];
   mkCycle 0 false false (toy_up_in [0; 2]) 3 [pass_with [] [Chunk [1; 0; 0; 0; 1]]]].
Definition toy_supervised : outcome (SupEnd * (Mem.Card * nat) * list CycleLog) :=
  run_supervised (T := Toy) (toy_settings (bs "key") true) 0 toy_cycles (∅ : Mem.Card, 5%nat).

Lemma supervised_one_identity_witness :
  exists x disk' logs, toy_supervised = Val (x, disk', logs) /\ (c_delay <$> logs) = [0; 750] /\
    (Keys.node_pub <$> cycle_keys logs) = [repeat 6 32; repeat 9 32] /\
    forall ks1 ks2, ks1 ∈ cycle_keys logs -> ks2 ∈ cycle_keys logs -> same_machine ks1 ks2.
Proof.
  assert (Hb : match toy_supervised with
               | Val (_, _, logs) => bool_decide (c_delay <$> logs = [0; 750]) && bool_decide ((Keys.node_pub <$> cycle_keys logs) = [repeat 6 32; repeat 9 32])
               | _ => false end = true) by (vm_compute; reflexivity).
  destruct toy_supervised as [[[x disk'] logs]| |] eqn:E; try discriminate Hb.
  apply andb_true_iff in Hb as [B1 B2]. apply bool_decide_eq_true in B1, B2. exists x, disk', logs.
  destruct (supervised_one_identity (d := toy_dir) (T := Toy) (toy_settings (bs "key") true) toy_cycles (∅, 5%nat) disk' x logs) as (_ & Hm & _);
    [apply toy_tidy|apply toy_pid|apply toy_secrets|apply toy_region_keys_ok|reflexivity| |apply clean_empty|exact E|].
  - assert (N1 : Logout ∉ ([] : list ControlSignal)) by apply not_elem_of_nil.
    assert (N2 : Logout ∉ [LoginInteractive]) by (intros Hx%list_elem_of_singleton; discriminate Hx).
    apply Forall_cons_2; [split; [split; vm_compute; discriminate|]|apply Forall_cons_2; [split; [split; vm_compute; discriminate|]|constructor]].
    + apply Forall_cons_2; [exact N1|]. apply Forall_cons_2; [exact N2|constructor].
    + apply Forall_cons_2; [exact N1|constructor].
  - split; [reflexivity|]. split; [exact B1|]. split; [exact B2|exact Hm].
Defined.


(** A node key that the server has let expire is replaced during the login, after
    the magic socket was given the old one: engine, relays and map requests use the
    fresh key, the socket's pings the old. *)
Theorem boot_magic_keeps_old_key :
  match toy_boot [0; 2] toy_card_files with
  | Val (Some (_, Ok g, sent)) =>
      g_magic_node g = repeat 8 32 /\ g_derp_node g = repeat 5 32 /\ our_static_secret (n_engine (r_node (g_rt g))) = repeat 5 32 /\
      (presents <$> sent) = [to_nodekey_string (repeat 8 32); to_nodekey_string (repeat 5 32); to_nodekey_string (repeat 5 32)]
  | _ => False
  end.
Proof. vm_compute. done. Qed.
