(* ===== verification/DerpHandshake.v ===== *)
(** Opening a relay connection (ts-derp: handshake.rs): TCP and TLS, the HTTP
    upgrade, the server's key, our sealed client info and the server's sealed
    answer.  What the relay sends is a list of [Readable] pieces, cut anywhere;
    the part that answers our client info is a function of it.

    [relay_dial] is the [dial] of [DerpMux]. *)

From S2P Require Import Prelude Text DerpFrame DerpMux Keys Noise.
#[local] Open Scope Z_scope.

(** ** Parameters *)

(** The NaCl box with the tag inside the ciphertext: public key of a secret, and
    sealing and opening with their public and our secret key. *)
Class SalsaBox : Type := {
  salsa_public : list Z -> list Z;
  salsa_encrypt : list Z -> list Z -> list Z -> list Z -> option (list Z);
  salsa_decrypt : list Z -> list Z -> list Z -> list Z -> option (list Z)
}.
Class SalsaBoxLaws `{SalsaBox} : Prop := {
  salsa_public_len : forall sk, length (salsa_public sk) = 32%nat;
  salsa_encrypt_len : forall pk sk n m ct, salsa_encrypt pk sk n m = Some ct -> length ct = (length m + 16)%nat;
  salsa_open : forall a b n m ct, salsa_encrypt (salsa_public b) a n m = Some ct -> salsa_decrypt (salsa_public a) b n ct = Some m
}.

(** A relay: TCP to an address, TLS for a name, whether our two writes succeed,
    what becomes readable after the upgrade request and after the client info. *)
Record Relay : Type := mkRelay {
  y_tcp : list Z -> result DerpError unit; y_tls : list Z -> result DerpError unit;
  y_wrote : bool; y_wrote2 : bool; y_sends : list Z -> list Readable; y_replies : list Z -> list Readable
}.

(** ** Messages *)

Definition dial_addr (n : DerpNodeAddr) : list Z :=
  (if bool_decide (node_hostname n = []) then node_ipv4 n else node_hostname n) ++ bs ":" ++
  dec (if node_derp_port n =? 0 then 443 else node_derp_port n).

Definition crlf : list Z := [13; 10].
Definition upgrade_request (host : list Z) : list Z :=
  bs "GET /derp HTTP/1.1" ++ crlf ++ bs "Host: " ++ host ++ crlf ++ bs "Connection: Upgrade" ++ crlf ++ bs "Upgrade: DERP" ++ crlf ++
  bs "User-Agent: tailscale-vita/0.1.0" ++ crlf ++ crlf.

Definition quote : list Z := [34].
Definition json_key (k : list Z) : list Z := quote ++ k ++ quote ++ bs ":".
(** [serde_json::to_vec(&client_info)]: the empty mesh key and the false prober
    flag are left out. *)
Definition client_info_json : list Z :=
  bs "{" ++ json_key (bs "version") ++ dec DerpFrame.PROTOCOL_VERSION ++ bs "," ++ json_key (bs "CanAckPings") ++ bs "false" ++ bs "}".

(** ** BufferedRead *)

Record BufferedRead : Type := mkBuffered { leftover : list Z; tls : list Readable }.

Definition buffered_read (n : nat) (b : BufferedRead) : result NetErr (list Z) * BufferedRead :=
  match leftover b with
  | [] => let '(r, src) := tcp_read n (tls b) in (r, mkBuffered [] src)
  | l => (Ok (take n l), mkBuffered (drop n l) (tls b))
  end.

(** [Read::read_exact]; every pass but the last yields a byte. *)
Fixpoint buffered_exact (fuel n : nat) (out : list Z) (b : BufferedRead) : result DerpError (list Z) * BufferedRead :=
  match n, fuel with
  | O, _ => (Ok out, b)
  | S _, O => (Err (DerpIo DerpFrame.OtherIo), b)
  | S _, S f =>
      match buffered_read n b with
      | (Err _, b) => (Err (DerpIo DerpFrame.OtherIo), b)
      | (Ok [], b) => (Err (DerpIo DerpFrame.UnexpectedEof), b)
      | (Ok c, b) => buffered_exact f (n - length c) (out ++ c) b
      end
  end.
Definition buffered_read_exact (n : nat) (b : BufferedRead) : result DerpError (list Z) * BufferedRead := buffered_exact n n [] b.

(** [read_frame] on it. *)
Definition buffered_frame (b : BufferedRead) : result DerpError (FrameType * list Z) * BufferedRead :=
  match buffered_read_exact FRAME_HEADER_LEN b with
  | (Err e, b) => (Err e, b)
  | (Ok hdr, b) =>
      match hdr with
      | [] => (Err (DerpIo DerpFrame.UnexpectedEof), b)
      | t :: lenb =>
          match from_byte t with
          | Err e => (Err e, b)
          | Ok ty =>
              let len := Z.to_nat (from_be lenb) in
              if decide (MAX_PAYLOAD < len)%nat then (Err (FrameTooLarge len MAX_PAYLOAD), b)
              else match buffered_read_exact len b with
                   | (Err e, b) => (Err e, b)
                   | (Ok payload, b) => (Ok (ty, payload), b)
                   end
          end
      end
  end.

(** ** The handshake *)

Section Handshake.
Context `{SalsaBox}.
(** httparse on a complete head, and [serde_json] on the server info. *)
Context (parse_response : list Z -> option (option Z)) (json_version : list Z -> option Z).

Definition find_double_crlf (buf : list Z) : option nat := find_header_terminator buf.

Definition parse_upgrade_response (buf : list Z) (head_end : nat) : result DerpError (list Z) :=
  match parse_response (take head_end buf) with
  | None => Err HttpParseErr
  | Some None => Err UpgradeErr
  | Some (Some code) => if negb (code =? 101) then Err UpgradeErr else Ok (drop head_end buf)
  end.

(** A pass adds a byte and the buffer is bounded. *)
Fixpoint upgrade_loop (fuel : nat) (buf : list Z) (src : list Readable) : result DerpError (list Z) * list Readable :=
  match fuel with
  | O => (Err UpgradeErr, src)
  | S f =>
      match tcp_read 256 src with
      | (Err _, src) => (Err (DerpIo DerpFrame.OtherIo), src)
      | (Ok [], src) => (Err UpgradeErr, src)
      | (Ok c, src) =>
          let buf := buf ++ c in
          match find_double_crlf buf with
          | Some pos => (parse_upgrade_response buf (pos + 4), src)
          | None => if 16 * 1024 <? Z.of_nat (length buf) then (Err UpgradeErr, src) else upgrade_loop f buf src
          end
      end
  end.
Definition read_upgrade_response (src : list Readable) : result DerpError (list Z) * list Readable :=
  upgrade_loop (Z.to_nat (16 * 1024 + 2)) [] src.

Definition server_key_of (ty : FrameType) (payload : list Z) : result DerpError (list Z) :=
  if negb (bool_decide (ty = FServerKey)) then Err UpgradeErr
  else if decide (length payload < 8 + 32)%nat then Err (FrameTooShort (bs "ServerKey") (length payload) 40)
  else if negb (bool_decide (take 8 payload = DERP_MAGIC)) then Err (BadMagic (take 8 payload))
  else Ok (take 32 (drop 8 payload)).

Definition server_version_of (server_pub our_priv : list Z) (ty : FrameType) (payload : list Z) : result DerpError Z :=
  if negb (bool_decide (ty = FServerInfo)) then Err UpgradeErr
  else if decide (length payload < 24 + 16)%nat then Err (FrameTooShort (bs "ServerInfo") (length payload) 40)
  else match salsa_decrypt server_pub our_priv (take 24 payload) (drop 24 payload) with
       | None => Err NaclBox
       | Some plaintext =>
           match json_version plaintext with
           | None => Err JsonErr
           | Some v => if negb (v =? 0) && negb (v =? DerpFrame.PROTOCOL_VERSION)
                       then Err (UnsupportedServerVersion v DerpFrame.PROTOCOL_VERSION) else Ok v
           end
       end.

(** [server_pub], the version, and the stream that is left. *)
Record Output : Type := mkOutput { server_pub : list Z; server_version : Z; out_tls : list Readable }.

(** The result and what we have written. *)
Definition dial_and_handshake (nonce our_priv our_pub : list Z) (y : Relay) (node : DerpNodeAddr) : result DerpError Output * list Z :=
  match y_tcp y (dial_addr node) ≫= fun _ => y_tls y (node_hostname node) with
  | Err e => (Err e, [])
  | Ok _ =>
      let req := upgrade_request (node_hostname node) in
      if negb (y_wrote y) then (Err (DerpIo DerpFrame.OtherIo), [])
      else match read_upgrade_response (y_sends y req) with
      | (Err e, _) => (Err e, req)
      | (Ok rest, src) =>
          match buffered_frame (mkBuffered rest src) with
          | (Err e, _) => (Err e, req)
          | (Ok (ty, payload), br) =>
              match server_key_of ty payload with
              | Err e => (Err e, req)
              | Ok spub =>
                  match salsa_encrypt spub our_priv nonce client_info_json with
                  | None => (Err NaclBox, req)
                  | Some ct =>
                      match (if y_wrote2 y then write_frame [] FClientInfo (our_pub ++ nonce ++ ct) else Err (DerpIo DerpFrame.OtherIo)) with
                      | Err e => (Err e, req)
                      | Ok frame =>
                          match buffered_frame (mkBuffered (leftover br) (tls br ++ y_replies y frame)) with
                          | (Err e, _) => (Err e, req ++ frame)
                          | (Ok (ty, payload), br) =>
                              match server_version_of spub our_priv ty payload with
                              | Err e => (Err e, req ++ frame)
                              | Ok v => (Ok (mkOutput spub v (tls br)), req ++ frame)
                              end
                          end
                      end
                  end
              end
          end
      end
  end.

(** What the mux asks of it. *)
Definition relay_dial (nonce our_priv our_pub : list Z) (y : DerpNodeAddr -> Relay) (node : DerpNodeAddr) : result DerpError unit :=
  match (dial_and_handshake nonce our_priv our_pub (y node) node).1 with Ok _ => Ok tt | Err e => Err e end.
End Handshake.

(** * Lemmas *)

(** ** Reading *)

(** All that is to come. *)
Definition coming (b : BufferedRead) : list Z := leftover b ++ data (tls b).

Lemma ready_nil src : ready src -> data src = [] -> src = [].
Proof.
  intros [Hl Hq] Hd. destruct src as [|e src]; [done|]. apply Forall_cons_1 in Hl as [He _]. destruct e as [c| | |]; try done.
  by destruct c.
Qed.

Lemma buffered_read_ready n b : (0 < n)%nat -> ready (tls b) -> coming b <> [] ->
  exists c b', buffered_read n b = (Ok c, b') /\ c <> [] /\ (length c <= n)%nat /\ coming b = c ++ coming b' /\ ready (tls b') /\
    (leftover b = [] -> leftover b' = []).
Proof.
  intros Hn Hr Hc. unfold buffered_read, coming in *. destruct b as [l src]. cbn [leftover tls] in *. destruct l as [|x l].
  - destruct (tcp_read_ready n src Hn Hr Hc) as (c & src' & -> & H1 & H2 & H3 & H4). by exists c, (mkBuffered [] src').
  - exists (take n (x :: l)), (mkBuffered (drop n (x :: l)) src). cbn [leftover tls]. split_and!; try done.
    + destruct n; [lia|done].
    + rewrite length_take. lia.
    + by rewrite app_assoc, take_drop.
Qed.

Lemma buffered_exact_ready fuel : forall n out b bytes rest, (n <= fuel)%nat -> length bytes = n -> ready (tls b) -> coming b = bytes ++ rest ->
  exists b', buffered_exact fuel n out b = (Ok (out ++ bytes), b') /\ coming b' = rest /\ ready (tls b') /\ (leftover b = [] -> leftover b' = []).
Proof.
  induction fuel as [|fuel IH]; intros n out b bytes rest Hf Hl Hr Hc.
  - destruct bytes; cbn in Hl; [|lia]. subst n. cbn. rewrite app_nil_r. by exists b.
  - destruct n as [|n]; [destruct bytes; [|done]; cbn; rewrite app_nil_r; by exists b|]. cbn [buffered_exact].
    destruct (buffered_read_ready (S n) b ltac:(lia) Hr) as (c & b1 & -> & H1 & H2 & H3 & H4 & H5); [rewrite Hc; by destruct bytes|].
    destruct c as [|x c]; [done|]. rewrite Hc in H3. destruct (app_prefix _ _ _ _ (eq_sym H3) ltac:(lia)) as (t & -> & Ht).
    destruct (IH (S n - length (x :: c))%nat (out ++ x :: c) b1 t rest) as (b' & -> & I1 & I2 & I3);
      [cbn [length] in *; lia|rewrite length_app in Hl; lia|done|done|].
    exists b'. rewrite <- app_assoc. split_and!; auto.
Qed.

Lemma buffered_frame_ready b f rest : frame_ok f -> ready (tls b) -> coming b = frame_bytes f ++ rest ->
  exists b', buffered_frame b = (Ok f, b') /\ coming b' = rest /\ ready (tls b') /\ (leftover b = [] -> leftover b' = []).
Proof.
  destruct f as [ty payload]. unfold frame_ok, frame_bytes, frame_header. cbn [fst snd]. intros Hp Hr Hc. unfold buffered_frame, buffered_read_exact.
  rewrite <- app_assoc in Hc. set (hdr := ft_byte ty :: _) in Hc. assert (Hl : length hdr = FRAME_HEADER_LEN) by (unfold hdr; cbn [length]; by rewrite length_be_bytes).
  destruct (buffered_exact_ready FRAME_HEADER_LEN FRAME_HEADER_LEN [] b hdr _ ltac:(lia) Hl Hr Hc) as (b1 & -> & H1 & H2 & H3).
  unfold hdr. cbn [app]. rewrite from_byte_ft_byte, frame_len_roundtrip, Nat2Z.id by done. rewrite decide_False by lia.
  destruct (buffered_exact_ready (length payload) (length payload) [] b1 payload rest ltac:(lia) eq_refl H2 H1) as (b2 & -> & I1 & I2 & I3).
  exists b2. split_and!; auto.
Qed.

(** ** The upgrade *)

Section Upgrade.
Context (parse_response : list Z -> option (option Z)).

Lemma upgrade_loop_ready head h0 rest f : forall buf src,
  split_str [13; 10; 13; 10] head = Some (h0, []) -> parse_response head = Some (Some 101) -> Z.of_nat (length head) <= 16 * 1024 ->
  buf ++ data src = head ++ rest -> (length buf < length head)%nat -> (16 * 1024 - length buf < f)%nat -> ready src ->
  exists left src', upgrade_loop parse_response f buf src = (Ok left, src') /\ left ++ data src' = rest /\ ready src'.
Proof.
  induction f as [|f IH]; intros buf src Hh Hp Hmax Hd Hlt Hf Hr; [lia|]. cbn [upgrade_loop].
  destruct (app_prefix _ _ _ _ Hd ltac:(lia)) as (t & Eh & Et).
  destruct (tcp_read_ready 256 src) as (c & src' & -> & Hc & _ & Hdata & Hr'); [lia|done| |].
  { rewrite Et. destruct t; [|done]. rewrite app_nil_r in Eh. subst. lia. }
  destruct c as [|x c]; [done|]. set (cc := x :: c) in *. assert (Hd' : (buf ++ cc) ++ data src' = head ++ rest) by (by rewrite <- app_assoc, <- Hdata).
  unfold find_double_crlf. rewrite (head_found head h0 rest _ _ Hh Hd'). pose proof (terminated_head_length _ _ Hh) as H4. case_decide as Hge.
  - destruct (app_prefix _ _ _ _ (eq_sym Hd') Hge) as (t' & -> & ->). unfold parse_upgrade_response.
    rewrite take_app_len, drop_app_len, Hp by lia. cbn. by exists t', src'.
  - rewrite (proj2 (Z.ltb_ge _ _)) by lia. apply IH; try done; [lia|]. rewrite length_app in *. unfold cc in *. cbn [length] in *. lia.
Qed.
End Upgrade.

(** ** What a successful read has seen *)

Lemma tcp_read_ok n src c src' : tcp_read n src = (Ok c, src') -> data src = c ++ data src' /\ (length c <= n)%nat.
Proof.
  destruct src as [|[l| | |] src]; cbn [tcp_read]; [done| |done| |done].
  - case_decide; intros [= <- <-]; [done|]. split; [|rewrite length_take; lia]. cbn. by rewrite app_assoc, take_drop.
  - intros [= <- <-]. split; [done|cbn; lia].
Qed.

Lemma buffered_exact_ok fuel : forall n out b r b', buffered_exact fuel n out b = (Ok r, b') ->
  exists c, r = out ++ c /\ length c = n /\ coming b = c ++ coming b'.
Proof.
  induction fuel as [|fuel IH]; intros [|n] out b r b'; cbn [buffered_exact]; try done;
    [intros [= <- <-]; exists []; by rewrite app_nil_r..|].
  destruct (buffered_read (S n) b) as [[[|x c]|e] b1] eqn:Er; try done. intros E. apply IH in E as (c' & -> & Hl & Hc).
  assert (H1 : coming b = (x :: c) ++ coming b1 /\ (length (x :: c) <= S n)%nat).
  { unfold buffered_read, coming in *. destruct (leftover b) as [|y l] eqn:El.
    - destruct (tcp_read (S n) (tls b)) as [q src] eqn:Et. injection Er as -> <-. by apply tcp_read_ok in Et.
    - injection Er as E1 E2 <-. subst y c. cbn [leftover tls app length]. rewrite length_take. split; [|lia]. cbn. f_equal. by rewrite app_assoc, take_drop. }
  destruct H1 as [-> H1]. exists ((x :: c) ++ c'). rewrite <- !app_assoc. split_and!; [done| |by rewrite Hc].
  rewrite length_app. cbn [length] in *. lia.
Qed.

(** The bytes [l] begin with the frame [f] and go on with [rest]. *)
Definition frame_at (l : list Z) (f : FrameType * list Z) (rest : list Z) : Prop :=
  exists lenb, l = ft_byte f.1 :: lenb ++ f.2 ++ rest /\ length lenb = 4%nat /\ Z.to_nat (from_be lenb) = length f.2.

Lemma buffered_frame_ok b f b' : buffered_frame b = (Ok f, b') -> frame_at (coming b) f (coming b').
Proof.
  unfold buffered_frame, buffered_read_exact. destruct (buffered_exact FRAME_HEADER_LEN FRAME_HEADER_LEN [] b) as [[hdr|e] b1] eqn:E1; [|done].
  apply buffered_exact_ok in E1 as (h & -> & Hh & ->). cbn [app]. destruct h as [|t lenb]; [done|].
  destruct (from_byte t) as [ty|] eqn:Et; [|done]. case_decide; [done|].
  destruct (buffered_exact _ _ [] b1) as [[payload|e] b2] eqn:E2; [|done]. intros [= <- <-].
  apply buffered_exact_ok in E2 as (c & -> & Hc & ->). apply from_byte_inv in Et as ->. exists lenb. cbn [fst snd app]. split_and!; [done| |done].
  unfold FRAME_HEADER_LEN in Hh. cbn in Hh. lia.
Qed.

(** The head of a response: it ends at the first empty line. *)
Definition response_head (head : list Z) : Prop := exists h0, split_str [13; 10; 13; 10] head = Some (h0, []).

Lemma split_str_first p s a b : split_str p s = Some (a, b) -> split_str p (a ++ p) = Some (a, []).
Proof.
  revert a b. induction s as [|x s IH]; intros a b; cbn [split_str].
  - case_decide as Hd; [|done]. intros [= <- <-]. destruct p; [done|]. by cbn in Hd.
  - case_decide as Hd.
    + intros [= <- <-]. cbn [app]. destruct p as [|y p]; [done|]. cbn [split_str]. rewrite take_ge, decide_True by (cbn; done || lia).
      by rewrite drop_ge by (cbn; lia).
    + destruct (split_str p s) as [[a' b']|] eqn:E; [|done]. cbn. intros [= <- <-]. cbn [app split_str].
      pose proof (split_str_spec _ _ _ _ E) as Hs. rewrite decide_False; [by rewrite (IH _ _ eq_refl)|].
      intros Hp. apply Hd. rewrite Hs. replace (x :: a' ++ p ++ b') with ((x :: a' ++ p) ++ b') by (cbn; by rewrite app_assoc).
      rewrite take_app_le by (cbn; rewrite length_app; lia). exact Hp.
Qed.

Lemma header_terminator_head buf pos : find_header_terminator buf = Some pos ->
  response_head (take (pos + 4) buf) /\ buf = take (pos + 4) buf ++ drop (pos + 4) buf.
Proof.
  unfold find_header_terminator, response_head. destruct (split_str _ buf) as [[a b]|] eqn:E; [|done]. cbn. intros [= <-]. split; [|by rewrite take_drop].
  exists a. pose proof (split_str_spec _ _ _ _ E) as Hs. rewrite Hs, app_assoc, take_app_len; [by eapply split_str_first|]. rewrite length_app. done.
Qed.

Lemma upgrade_ok parse_response fuel : forall buf src rest src', upgrade_loop parse_response fuel buf src = (Ok rest, src') ->
  exists head, response_head head /\ parse_response head = Some (Some 101) /\ buf ++ data src = head ++ rest ++ data src'.
Proof.
  induction fuel as [|fuel IH]; intros buf src rest src'; cbn [upgrade_loop]; [done|].
  destruct (tcp_read 256 src) as [[[|x c]|e] src1] eqn:Et; try done. apply tcp_read_ok in Et as [-> _].
  unfold find_double_crlf. destruct (find_header_terminator (buf ++ x :: c)) as [pos|] eqn:Ef.
  - unfold parse_upgrade_response. destruct (parse_response _) as [[code|]|] eqn:Ep; try done. destruct (Z.eqb_spec code 101) as [->|]; [|done].
    cbn [negb]. intros [= <- <-]. apply header_terminator_head in Ef as [Hh Hb]. exists (take (pos + 4) (buf ++ x :: c)). split_and!; [done..|].
    rewrite app_assoc. rewrite (app_assoc (take _ _)), <- Hb. done.
  - destruct (_ <? _); [done|]. intros E. apply IH in E as (head & Hh & Hp & Hd). exists head. split_and!; [done..|]. by rewrite <- Hd, <- app_assoc.
Qed.

(** * Theorems *)

(** C14: a handshake with a relay that follows the protocol succeeds.  However the
    relay's bytes are cut: after a 101 head of at most 16 KiB and a server-key
    frame, the client sends its key and a client info that the holder of the server's
    secret opens, accepts the sealed server info, and leaves the stream exactly at the
    first byte after it. *)
Theorem derp_handshake_opens `{SalsaBoxLaws} parse_response json_version nonce our_priv ssk (y : Relay) node head h0 extra n info ct v rest ci :
  let our_pub := salsa_public our_priv in
  let req := upgrade_request (node_hostname node) in
  y_tcp y (dial_addr node) = Ok tt -> y_tls y (node_hostname node) = Ok tt -> y_wrote y = true -> y_wrote2 y = true ->
  salsa_encrypt (salsa_public ssk) our_priv nonce client_info_json = Some ci -> length nonce = 24%nat ->
  split_str [13; 10; 13; 10] head = Some (h0, []) -> parse_response head = Some (Some 101) -> Z.of_nat (length head) <= 16 * 1024 ->
  frame_ok (FServerKey, DERP_MAGIC ++ salsa_public ssk ++ extra) ->
  ready (y_sends y req) -> data (y_sends y req) = head ++ frame_bytes (FServerKey, DERP_MAGIC ++ salsa_public ssk ++ extra) ->
  salsa_encrypt our_pub ssk n info = Some ct -> length n = 24%nat -> frame_ok (FServerInfo, n ++ ct) ->
  json_version info = Some v -> v = 0 \/ v = DerpFrame.PROTOCOL_VERSION ->
  (forall f, ready (y_replies y f) /\ data (y_replies y f) = frame_bytes (FServerInfo, n ++ ct) ++ rest) ->
  exists src, dial_and_handshake parse_response json_version nonce our_priv our_pub y node =
      (Ok (mkOutput (salsa_public ssk) v src), req ++ frame_bytes (FClientInfo, our_pub ++ nonce ++ ci)) /\
    data src = rest /\ ready src /\ salsa_decrypt our_pub ssk nonce ci = Some client_info_json.
Proof.
  intros our_pub req Ht1 Ht2 Hw1 Hw2 Hci Hnonce Hh Hp Hmax Hsk Hr1 Hd1 Hct Hn Hsi Hj Hv Hrep.
  unfold dial_and_handshake. rewrite Ht1. cbn [mbind result_bind]. rewrite Ht2, Hw1. cbn [negb]. fold req. unfold read_upgrade_response.
  pose proof (terminated_head_length _ _ Hh) as H4.
  destruct (upgrade_loop_ready parse_response head h0 _ (Z.to_nat (16 * 1024 + 2)) [] (y_sends y req) Hh Hp Hmax Hd1) as (rest1 & src1 & -> & Hd2 & Hr2);
    [cbn [length]; lia|cbn [length]; lia|done|].
  destruct (buffered_frame_ready (mkBuffered rest1 src1) _ [] Hsk Hr2) as (b1 & -> & Hc1 & Hr3 & _); [by rewrite app_nil_r|].
  apply app_eq_nil in Hc1 as [Hl1 Hc1]. apply (ready_nil _ Hr3) in Hc1.
  assert (Hkey : server_key_of FServerKey (DERP_MAGIC ++ salsa_public ssk ++ extra) = Ok (salsa_public ssk)).
  { unfold server_key_of. rewrite bool_decide_true by done. cbn [negb]. pose proof (salsa_public_len ssk) as Hl. assert (Hm : length DERP_MAGIC = 8%nat) by done.
    rewrite decide_False by (rewrite !length_app; lia). rewrite take_app_len, bool_decide_true by done. cbn [negb]. by rewrite drop_app_len, take_app_len. }
  rewrite Hkey, Hci, Hw2.
  assert (Hcl : frame_ok (FClientInfo, our_pub ++ nonce ++ ci)).
  { unfold frame_ok. cbn [snd]. rewrite !length_app, (salsa_encrypt_len _ _ _ _ _ Hci). unfold our_pub. rewrite salsa_public_len, Hnonce.
    pose proof MAX_PAYLOAD_val. assert (Hlen : length client_info_json = 33%nat) by (vm_compute; done). lia. }
  rewrite write_frame_bytes by done. cbn [app]. rewrite Hl1, Hc1. cbn [app]. set (frame := frame_bytes (FClientInfo, _)).
  destruct (Hrep frame) as [Hr4 Hd4].
  destruct (buffered_frame_ready (mkBuffered [] (y_replies y frame)) _ rest Hsi Hr4 Hd4) as (b2 & -> & Hc2 & Hr5 & Hl2). specialize (Hl2 eq_refl).
  assert (Hver : server_version_of json_version (salsa_public ssk) our_priv FServerInfo (n ++ ct) = Ok v).
  { unfold server_version_of. rewrite bool_decide_true by done. cbn [negb]. pose proof (salsa_encrypt_len _ _ _ _ _ Hct) as Hl.
    rewrite decide_False by (rewrite length_app; lia). rewrite take_app_len, drop_app_len by done. rewrite (salsa_open _ _ _ _ _ Hct), Hj.
    by destruct Hv as [->| ->]. }
  rewrite Hver. exists (tls b2). unfold coming in Hc2. rewrite Hl2 in Hc2. split_and!; [done|done|done|]. by apply salsa_open.
Qed.

(** C13: what a handshake discloses and what it accepts.  Whatever the relay sends, the
    client writes nothing before TCP and TLS stand, and only the upgrade request unless
    the relay's bytes are a head with status 101 followed by a server-key frame that
    begins with the protocol's magic; then it writes one client-info frame sealed for
    the key in that frame; and it succeeds only if the next frame of the relay is a
    server info whose box that key and our secret open, with version 0 or 2 in it. *)
Theorem derp_handshake_cautious `{SalsaBox} parse_response json_version nonce our_priv our_pub (y : Relay) node r written :
  let req := upgrade_request (node_hostname node) in
  dial_and_handshake parse_response json_version nonce our_priv our_pub y node = (r, written) ->
  match y_tcp y (dial_addr node), y_tls y (node_hostname node) with
  | Ok _, Ok _ =>
      (written = [] \/ written = req) /\ (exists e, r = Err e) \/
      exists head spub extra more ct,
        let frame := frame_bytes (FClientInfo, our_pub ++ nonce ++ ct) in
        response_head head /\ parse_response head = Some (Some 101) /\
        (exists wire, data (y_sends y req) = head ++ wire /\ frame_at wire (FServerKey, DERP_MAGIC ++ spub ++ extra) more) /\ length spub = 32%nat /\
        salsa_encrypt spub our_priv nonce client_info_json = Some ct /\ written = req ++ frame /\
        forall o, r = Ok o -> server_pub o = spub /\ (server_version o = 0 \/ server_version o = 2) /\
          exists n box info rest, length n = 24%nat /\ frame_at (more ++ data (y_replies y frame)) (FServerInfo, n ++ box) rest /\
            salsa_decrypt spub our_priv n box = Some info /\ json_version info = Some (server_version o)
  | Err e, _ | Ok _, Err e => r = Err e /\ written = []
  end.
Proof.
  intros req. unfold dial_and_handshake. destruct (y_tcp y (dial_addr node)) as [[]|e]; cbn [mbind result_bind]; [|by intros [= <- <-]].
  destruct (y_tls y (node_hostname node)) as [[]|e]; [|by intros [= <- <-]]. fold req.
  assert (Hreq : forall e w, (@Err DerpError Output e, w) = (r, written) -> w = [] \/ w = req -> (written = [] \/ written = req) /\ (exists e, r = Err e)) by (intros e w [= <- <-] ?; eauto).
  destruct (negb (y_wrote y)); [intros E; left; eapply Hreq; [exact E|by left]|].
  destruct (read_upgrade_response parse_response (y_sends y req)) as [[hr|e] src] eqn:Eu; [|intros E; left; eapply Hreq; [exact E|by right]].
  apply upgrade_ok in Eu as (head & Hh & Hp & Hd). cbn [app] in Hd.
  destruct (buffered_frame (mkBuffered hr src)) as [[[ty payload]|e] br] eqn:Ef; [|intros E; left; eapply Hreq; [exact E|by right]].
  apply buffered_frame_ok in Ef. unfold coming at 1 in Ef. cbn [leftover tls] in Ef.
  destruct (server_key_of ty payload) as [spub|e] eqn:Ek; [|intros E; left; eapply Hreq; [exact E|by right]].
  destruct (salsa_encrypt spub our_priv nonce client_info_json) as [ct|] eqn:Ec; [|intros E; left; eapply Hreq; [exact E|by right]].
  destruct (y_wrote2 y); [|intros E; left; eapply Hreq; [exact E|by right]].
  unfold write_frame at 1. case_decide; [intros E; left; eapply Hreq; [exact E|by right]|]. cbn [app].
  revert Ek. unfold server_key_of. destruct (bool_decide_reflect (ty = FServerKey)) as [->|]; [|done]. cbn [negb]. case_decide as Hlen; [done|].
  destruct (bool_decide_reflect (take 8 payload = DERP_MAGIC)) as [Hm|]; [|done]. cbn [negb]. intros [= Espub].
  assert (Hpay : payload = DERP_MAGIC ++ spub ++ drop 40 payload).
  { rewrite <- Hm, <- Espub. change 40%nat with (8 + 32)%nat. rewrite <- drop_drop. by rewrite !take_drop. }
  intros E. right. exists head, spub, (drop 40 payload), (coming br), ct. cbv zeta. set (frame := frame_bytes _).
  set (next := buffered_frame _) in E. assert (Hnext : next = buffered_frame (mkBuffered (leftover br) (tls br ++ y_replies y frame))) by done.
  split_and!; try done.
  - exists (hr ++ data src). split; [done|]. by rewrite Hpay in Ef.
  - rewrite <- Espub, length_take, length_drop. lia.
  - clearbody next. destruct next as [[[ty2 p2]|e] br2]; [|exact (eq_sym (f_equal snd E))]. destruct (server_version_of _ _ _ _ _); exact (eq_sym (f_equal snd E)).
  - intros o ->. clearbody next. destruct next as [[[ty2 p2]|e] br2]; [|done]. symmetry in Hnext. apply buffered_frame_ok in Hnext.
    destruct (server_version_of json_version spub our_priv ty2 p2) as [v|] eqn:Ev; [|done]. injection E as <- _. cbn [server_pub server_version].
    revert Ev. unfold server_version_of. destruct (bool_decide_reflect (ty2 = FServerInfo)) as [->|]; [|done]. cbn [negb]. case_decide as Hl2; [done|].
    destruct (salsa_decrypt _ _ _ _) as [info|] eqn:Ed; [|done]. destruct (json_version info) as [v'|] eqn:Ej; [|done].
    assert (Hbox : exists n box info0 rest, length n = 24%nat /\ frame_at (coming br ++ data (y_replies y frame)) (FServerInfo, n ++ box) rest /\
      salsa_decrypt spub our_priv n box = Some info0 /\ json_version info0 = Some v').
    { exists (take 24 p2), (drop 24 p2), info, (coming br2). rewrite length_take, take_drop. split_and!; [lia| |done..].
      unfold coming in Hnext |- *. cbn [leftover tls] in Hnext. unfold data in *. by rewrite map_app, concat_app, app_assoc in Hnext. }
    unfold DerpFrame.PROTOCOL_VERSION. destruct (Z.eqb_spec v' 0), (Z.eqb_spec v' 2); cbn [negb andb]; intros [= <-]; (split_and!; [done|by auto|done]).
Qed.

(** ** Samples *)

(** A box that is marked with the sum of the two keys' first bytes and opens only under
    keys with that sum. *)
Definition toy_mark (pk sk : list Z) : list Z := repeat (default 0 (head pk) + default 0 (head sk)) 16.
#[global] Instance toy_salsa : SalsaBox := {|
  salsa_public := fun sk => resize 32 0 sk; salsa_encrypt := fun pk sk _ m => Some (toy_mark pk sk ++ m);
  salsa_decrypt := fun pk sk _ ct => if decide (take 16 ct = toy_mark pk sk) then Some (drop 16 ct) else None
|}.
#[global] Instance toy_salsa_laws : SalsaBoxLaws.
Proof.
  assert (Hh : forall sk : list Z, default 0 (head (resize 32 0 sk)) = default 0 (head sk)) by (by intros [|x sk]).
  split; cbn [salsa_public salsa_encrypt salsa_decrypt toy_salsa]; cbv beta.
  - intros sk. apply length_resize.
  - intros pk sk _ m ct <-%(inj Some). unfold toy_mark. rewrite length_app, repeat_length. lia.
  - intros our_sk ssk _ m ct <-%(inj Some). rewrite take_app_len, drop_app_len by (unfold toy_mark; by rewrite repeat_length).
    rewrite decide_True; [done|]. unfold toy_mark. rewrite !Hh. by rewrite Z.add_comm.
Qed.

Definition toy_relay_node : DerpNodeAddr := mkNode 1 (bs "1a") (bs "derp1") [] [] 0.
Definition toy_relay_head : list Z := bs "HTTP/1.1 101 Switching Protocols" ++ crlf ++ crlf.
Definition toy_server_key : FrameType * list Z := (FServerKey, DERP_MAGIC ++ salsa_public [7] ++ []).
Definition toy_server_info : FrameType * list Z := (FServerInfo, repeat 5 24 ++ (repeat 16 16 ++ bs "2")).
Definition toy_status (h : list Z) : option (option Z) := Some (Some 101).
Definition toy_version (b : list Z) : option Z := Some 2.
(** A relay that cuts its bytes here and there. *)
Definition toy_relay (more : list Z) : Relay :=
  mkRelay (fun _ => Ok tt) (fun _ => Ok tt) true true
    (fun _ => [Data (take 10 toy_relay_head); Data (drop 10 toy_relay_head ++ take 7 (frame_bytes toy_server_key)); Data (drop 7 (frame_bytes toy_server_key))])
    (fun _ => [Data (take 3 (frame_bytes toy_server_info)); Data (drop 3 (frame_bytes toy_server_info) ++ more)]).

Lemma toy_relay_data more f : more <> [] ->
  ready (y_replies (toy_relay more) f) /\ data (y_replies (toy_relay more) f) = frame_bytes toy_server_info ++ more.
Proof.
  intros Hm. split.
  - split; [|done]. repeat constructor; [discriminate|]. destruct more; [done|]. intros E. apply app_eq_nil in E as [_ E]. done.
  - unfold data. cbn [y_replies toy_relay map concat]. rewrite app_nil_r, app_assoc, take_drop. done.
Qed.

Lemma derp_handshake_opens_witness :
  exists src, dial_and_handshake toy_status toy_version (repeat 1 24) [9] (salsa_public [9]) (toy_relay [6; 0; 0; 0; 0]) toy_relay_node =
      (Ok (mkOutput (salsa_public [7]) 2 src),
       upgrade_request (bs "derp1") ++ frame_bytes (FClientInfo, salsa_public [9] ++ repeat 1 24 ++ repeat 16 16 ++ client_info_json)) /\
    data src = [6; 0; 0; 0; 0].
Proof.
  destruct (derp_handshake_opens toy_status toy_version (repeat 1 24) [9] [7] (toy_relay [6; 0; 0; 0; 0]) toy_relay_node toy_relay_head
    (bs "HTTP/1.1 101 Switching Protocols") [] (repeat 5 24) (bs "2") (repeat 16 16 ++ bs "2") 2 [6; 0; 0; 0; 0] (repeat 16 16 ++ client_info_json))
    as (src & E & Hd & _ & _); try reflexivity.
  - vm_compute. discriminate.
  - apply (bool_decide_unpack _). vm_compute. exact I.
  - split; [repeat constructor; discriminate|reflexivity].
  - apply (bool_decide_unpack _). vm_compute. exact I.
  - right. reflexivity.
  - intros f. apply toy_relay_data. discriminate.
  - exists src. split; [exact E|exact Hd].
Defined.

Lemma derp_handshake_cautious_witness :
  exists ct, (dial_and_handshake toy_status toy_version (repeat 1 24) [9] (salsa_public [9]) (toy_relay [6]) toy_relay_node).2 =
    upgrade_request (bs "derp1") ++ frame_bytes (FClientInfo, salsa_public [9] ++ repeat 1 24 ++ ct).
Proof.
  pose proof (derp_handshake_cautious toy_status toy_version (repeat 1 24) [9] (salsa_public [9]) (toy_relay [6]) toy_relay_node _ _
    (surjective_pairing _)) as [[[Hw|Hw] [e He]]|(head & spub & extra & more & ct & _ & _ & _ & _ & _ & Hw & _)].
  - exfalso. revert He. vm_compute. discriminate.
  - exfalso. revert He. vm_compute. discriminate.
  - exists ct. exact Hw.
Defined.

(** A relay whose answer arrives together with its key: the server info is read
    from the bytes left over by the upgrade, and what follows it there is lost. *)
Theorem handshake_drops_leftover :
  let frames := frame_bytes toy_server_key ++ frame_bytes toy_server_info in
  let early := mkRelay (fun _ => Ok tt) (fun _ => Ok tt) true true (fun _ => [Data (toy_relay_head ++ frames ++ [6; 0; 0; 0; 0])]) (fun _ => [Data [6]]) in
  match dial_and_handshake toy_status toy_version (repeat 1 24) [9] (salsa_public [9]) early toy_relay_node with
  | (Ok o, _) => data (out_tls o) = [6]
  | _ => False
  end.
Proof. vm_compute. done. Qed.
