(* ===== verification/Netstack.v ===== *)
(** Sockets inside the tunnel (netstack: handle.rs, poll.rs, tcp.rs,
    tcp_listener.rs, device.rs and the shared state of lib.rs) over smoltcp's TCP
    sockets.

    A section that holds the lock of the socket set is one step; between two
    steps other threads act, given as functions on the shared state.  Sections
    that only a lock of the caller separates from the next are joined: allocating
    the replacement of a claimed entry, and registering a new connection.  A handle
    that is not in the set makes smoltcp panic, so the operations return
    [outcome]. *)

From S2P Require Import Prelude NetTypes.
#[local] Open Scope Z_scope.

(** ** smoltcp *)

Inductive TcpState : Type :=
| Closed | Listen | SynSent | SynReceived | Established | FinWait1 | FinWait2 | CloseWait | Closing | LastAck | TimeWait.
#[global] Instance TcpState_eq_dec : EqDecision TcpState.
Proof. solve_decision. Defined.

(** A TCP socket, its bytes to read and to send, and the handle that
    [SocketSet::add] takes. *)
Class SmolTcp (K : Type) : Type := {
  tcp_new : K;
  tcp_listen : Z -> K -> option K;
  tcp_connect : Z * Z -> Z -> K -> option K;
  tcp_state : K -> TcpState;
  remote_endpoint : K -> option (Z * Z);
  rx_bytes : K -> list Z; tx_bytes : K -> list Z;
  may_recv : K -> bool; can_recv : K -> bool; may_send : K -> bool; can_send : K -> bool; is_active : K -> bool;
  recv_slice : nat -> K -> option (list Z * K);
  send_slice : list Z -> K -> option (nat * K);
  tcp_close : K -> K; tcp_abort : K -> K;
  free_handle : gmap nat K -> nat
}.

(** Documented behaviour: listening works on a port that is not 0, receiving takes
    the front of the queue, sending appends to the other, a handle that is given
    out is free. *)
Class SmolTcpLaws (K : Type) `{SmolTcp K} : Prop := {
  listen_law : forall port, port <> 0 -> exists s, tcp_listen port tcp_new = Some s /\ tcp_state s = Listen;
  recv_law : forall n s, rx_bytes s <> [] -> exists s', recv_slice n s = Some (take n (rx_bytes s), s') /\ rx_bytes s' = drop n (rx_bytes s) /\ tx_bytes s' = tx_bytes s;
  send_law : forall b s, can_send s = true -> exists k s', send_slice b s = Some (k, s') /\ (k <= length b)%nat /\ (b <> [] -> 0 < k)%nat /\
    tx_bytes s' = tx_bytes s ++ take k b /\ rx_bytes s' = rx_bytes s;
  close_law : forall s, rx_bytes (tcp_close s) = rx_bytes s /\ tx_bytes (tcp_close s) = tx_bytes s;
  free_law : forall m, m !! free_handle m = None
}.

(** ** handle.rs *)

Record HandleEvent : Type := mkEvent { readable : bool; writable : bool; closed : bool; became_established : bool }.
Definition HandleEvent_default : HandleEvent := mkEvent false false false false.
Record LastState : Type := mkLast { l_can_recv : bool; l_can_send : bool; l_established : bool; l_active : bool }.
Definition LastState_default : LastState := mkLast false false false false.
#[global] Instance LastState_eq_dec : EqDecision LastState.
Proof. solve_decision. Defined.

Definition merge_from (now : LastState) (e : HandleEvent) : HandleEvent :=
  mkEvent (readable e || l_can_recv now) (writable e || l_can_send now) (closed e || negb (l_active now)) (became_established e || l_established now).

Record HandleSlot : Type := mkSlot { event : HandleEvent; last_state : LastState }.
Definition HandleSlot_new : HandleSlot := mkSlot HandleEvent_default LastState_default.

Inductive IoErr : Type := InvalidInput | ListenFailed | Unsupported | ConnectionRefused | TimedOut | WouldBlock | BrokenPipe | OtherError.

Definition ACCEPT_POLL_PERIOD : Z := 50.
Definition DEFAULT_CONNECT_TIMEOUT : Z := 10000.
Definition DEFAULT_RW_TIMEOUT : Z := 30000.
Definition FOREVER : Z := 86400 * 1000.
Definition CLOSE_DRAIN_TIMEOUT : Z := 2000.
Definition RST_EMIT_TIMEOUT : Z := 250.

(** ** tcp.rs: local ports *)

(** The port and the counter after it. *)
Definition alloc_local_port (next : Z) : Z * Z :=
  let p := next in
  let next := (p + 1) mod 2 ^ 16 in
  (Z.max p 49152, if p <? 49152 then 49152 else next).

Section Stack.
Context {K : Type} `{SmolTcp K}.

(** [StackInner]: the sockets, the registry of slots behind shared pointers, the
    wake flag of the poll thread and the port counter. *)
Record StackInner : Type := mkInner {
  sockets : gmap nat K; handles : gmap nat nat; slots : gmap nat HandleSlot; next_slot : nat; wake : bool; next_port : Z
}.
Definition set_sockets (m : gmap nat K) (st : StackInner) : StackInner := mkInner m (handles st) (slots st) (next_slot st) (wake st) (next_port st).
Definition set_slots (m : gmap nat HandleSlot) (st : StackInner) : StackInner := mkInner (sockets st) (handles st) m (next_slot st) (wake st) (next_port st).

Definition register (h : nat) (st : StackInner) : nat * StackInner :=
  (next_slot st, mkInner (sockets st) (<[h := next_slot st]> (handles st)) (<[next_slot st := HandleSlot_new]> (slots st)) (S (next_slot st)) (wake st) (next_port st)).
Definition unregister (h : nat) (st : StackInner) : StackInner :=
  mkInner (sockets st) (delete h (handles st)) (slots st) (next_slot st) (wake st) (next_port st).
Definition poke (st : StackInner) : StackInner := mkInner (sockets st) (handles st) (slots st) (next_slot st) true (next_port st).

(** What [wait_until] does when it returns: the bits are cleared. *)
Definition drain_event (sl : nat) (st : StackInner) : StackInner :=
  set_slots (alter (fun s => mkSlot HandleEvent_default (last_state s)) sl (slots st)) st.

Definition get_mut (h : nat) (st : StackInner) : outcome K := match sockets st !! h with Some s => Val s | None => Panicked end.
Definition put (h : nat) (s : K) (st : StackInner) : StackInner := set_sockets (<[h := s]> (sockets st)) st.
Definition remove (h : nat) (st : StackInner) : outcome StackInner :=
  match sockets st !! h with Some _ => Val (set_sockets (delete h (sockets st)) st) | None => Panicked end.
Definition add (s : K) (st : StackInner) : nat * StackInner :=
  let h := free_handle (sockets st) in (h, put h s st).

(** ** poll.rs *)

Definition tcp_flags (h : nat) (st : StackInner) : LastState :=
  match sockets st !! h with
  | None => LastState_default
  | Some s => mkLast (can_recv s || negb (bool_decide (rx_bytes s = []))) (can_send s) (bool_decide (tcp_state s = Established)) (is_active s)
  end.

Definition notify_one (st : StackInner) (p : nat * nat) : StackInner :=
  let now := tcp_flags p.1 st in
  set_slots (alter (fun s => mkSlot (if decide (now = last_state s) then event s else merge_from now (event s)) now) p.2 (slots st)) st.
(** [order]: the registry in the order of the hash map. *)
Definition notify_handles (order : gmap nat nat -> list (nat * nat)) (st : StackInner) : StackInner := foldl notify_one st (order (handles st)).

(** One turn of the poll thread; [iface_poll] is smoltcp's. *)
Definition poll_turn (iface_poll : gmap nat K -> gmap nat K) (order : gmap nat nat -> list (nat * nat)) (st : StackInner) : StackInner :=
  let st := notify_handles order (set_sockets (iface_poll (sockets st)) st) in
  mkInner (sockets st) (handles st) (slots st) (next_slot st) false (next_port st).

(** ** tcp_listener.rs *)

Record TcpListener : Type := mkListener { pool : list (nat * nat); port : Z }.
Record TcpStream : Type := mkStream { ts_handle : nat; ts_slot : nat; ts_peer : Z * Z; read_timeout : option Z; write_timeout : option Z; ts_closed : bool }.

Definition alloc_listening_socket (port : Z) (st : StackInner) : option ((nat * nat) * StackInner) :=
  match tcp_listen port tcp_new with
  | None => None
  | Some s => let '(h, st) := add s st in let '(sl, st) := register h st in Some ((h, sl), st)
  end.

Fixpoint alloc_pool (n : nat) (port : Z) (acc : list (nat * nat)) (st : StackInner) : result IoErr (list (nat * nat)) * StackInner :=
  match n with
  | O => (Ok acc, st)
  | S n => match alloc_listening_socket port st with
           | None => (Err ListenFailed, st)
           | Some (e, st) => alloc_pool n port (acc ++ [e]) st
           end
  end.

Definition bind_inner (port : Z) (pool_size : nat) (st : StackInner) : result IoErr TcpListener * StackInner :=
  if port =? 0 then (Err InvalidInput, st)
  else match alloc_pool (Nat.max pool_size 1) port [] st with
       | (Err e, st) => (Err e, st)
       | (Ok pool, st) => (Ok (mkListener pool port), poke st)
       end.

(** [Vec::swap_remove]. *)
Definition swap_remove {A} (i : nat) (l : list A) : list A :=
  match list.last l with
  | Some x => take (length l - 1) (<[i := x]> l)
  | None => l
  end.

Definition alive (s : K) : bool := match tcp_state s with Listen | Established | SynReceived => true | _ => false end.

(** The loop of [heal_pool]: entries left to look at decrease. *)
Fixpoint heal_loop (fuel i : nat) (port : Z) (pool : list (nat * nat)) (reaped : bool) (st : StackInner) : outcome (list (nat * nat) * bool * StackInner) :=
  match pool !! i with
  | None => Val (pool, reaped, st)
  | Some (h, _) =>
      match fuel with
      | O => OutOfFuel
      | S f =>
          s ← get_mut h st;
          if alive s then heal_loop f (i + 1) port pool reaped st
          else
            st ← remove h (unregister h st);
            match alloc_listening_socket port st with
            | Some (fresh, st) => heal_loop f (i + 1) port (<[i := fresh]> pool) true st
            | None => heal_loop f i port (swap_remove i pool) true st
            end
      end
  end.
Definition heal_pool (port : Z) (pool : list (nat * nat)) (st : StackInner) : outcome (list (nat * nat) * StackInner) :=
  '(pool, reaped, st) ← heal_loop (length pool) 0 port pool false st;
  Val (pool, if (reaped : bool) then poke st else st).

(** The first entry that is established and has a peer. *)
Fixpoint find_established (i : nat) (es : list (nat * nat)) (st : StackInner) : outcome (option (nat * (Z * Z))) :=
  match es with
  | [] => Val None
  | (h, _) :: es =>
      s ← get_mut h st;
      match (if decide (tcp_state s = Established) then remote_endpoint s else None) with
      | Some peer => Val (Some (i, peer))
      | None => find_established (i + 1) es st
      end
  end.

Definition from_listener_handle (e : nat * nat) (peer : Z * Z) : TcpStream :=
  mkStream e.1 e.2 peer (Some DEFAULT_RW_TIMEOUT) (Some DEFAULT_RW_TIMEOUT) false.

(** The part of [try_claim_established] after [heal_pool]. *)
Definition scan_pool (l : TcpListener) (st : StackInner) : outcome (result IoErr (option TcpStream) * TcpListener * StackInner) :=
  found ← find_established 0 (pool l) st;
  match found with
  | None => Val (Ok None, l, st)
  | Some (idx, peer) =>
      claimed ← index (pool l) idx;
      let pool := swap_remove idx (pool l) in
      match alloc_listening_socket (port l) st with
      | None => Val (Err ListenFailed, mkListener pool (port l), st)
      | Some (fresh, st) => Val (Ok (Some (from_listener_handle claimed peer)), mkListener (pool ++ [fresh]) (port l), poke st)
      end
  end.
Definition try_claim_established (l : TcpListener) (st : StackInner) : outcome (result IoErr (option TcpStream) * TcpListener * StackInner) :=
  '(pool, st) ← heal_pool (port l) (pool l) st;
  scan_pool (mkListener pool (port l)) st.

(** What other threads do while this one waits, and the time when it looks at
    the clock before. *)
Record Wait : Type := mkWait { w_now : Z; w_env : StackInner -> StackInner }.

(** [None]: still waiting. *)
Fixpoint accept_loop (deadline : Z) (ws : list Wait) (l : TcpListener) (st : StackInner) : outcome (option (result IoErr TcpStream) * TcpListener * StackInner) :=
  '(r, l, st) ← try_claim_established l st;
  match r with
  | Err e => Val (Some (Err e), l, st)
  | Ok (Some s) => Val (Some (Ok s), l, st)
  | Ok None =>
      match ws with
      | [] => Val (None, l, st)
      | w :: ws => if deadline <=? w_now w then Val (Some (Err TimedOut), l, st) else accept_loop deadline ws l (w_env w st)
      end
  end.
Definition accept_timeout (started timeout : Z) (ws : list Wait) (l : TcpListener) (st : StackInner) := accept_loop (started + timeout) ws l st.

Fixpoint drop_entries (es : list (nat * nat)) (st : StackInner) : outcome StackInner :=
  match es with
  | [] => Val st
  | (h, _) :: es => st ← remove h (unregister h st); drop_entries es st
  end.
Definition drop_listener (l : TcpListener) (st : StackInner) : outcome StackInner := drop_entries (pool l) st.

(** ** tcp.rs *)

Definition ip_endpoint (a : SocketAddr) : option (Z * Z) := match a with SAV4 ip port => Some (ip, port) | SAV6 _ _ _ _ => None end.

(** The checks and waits of [connect]; [None]: still waiting. *)
Fixpoint connect_loop (deadline : Z) (ws : list Wait) (e : nat * nat) (peer : Z * Z) (st : StackInner) : outcome (option (result IoErr TcpStream) * StackInner) :=
  s ← get_mut e.1 st;
  let fail_with err := st ← remove e.1 (unregister e.1 st); Val (Some (Err err), st) in
  match tcp_state s with
  | Established => Val (Some (Ok (from_listener_handle e peer)), st)
  | Closed | TimeWait => fail_with ConnectionRefused
  | _ =>
      match ws with
      | [] => Val (None, st)
      | w :: ws => if deadline <=? w_now w then fail_with TimedOut else connect_loop deadline ws e peer (drain_event e.2 (w_env w st))
      end
  end.

(** The part of [connect] before it waits: the entry, or why there is none. *)
Definition connect_start (addr : SocketAddr) (st : StackInner) : result IoErr (nat * nat * (Z * Z)) * StackInner :=
  let '(local_port, next) := alloc_local_port (next_port st) in
  let st := mkInner (sockets st) (handles st) (slots st) (next_slot st) (wake st) next in
  let '(h, st) := add tcp_new st in
  match ip_endpoint addr with
  | None => (Err Unsupported, st)
  | Some remote =>
      match tcp_connect remote local_port tcp_new with
      | None => (Err ConnectionRefused, st)
      | Some s => let '(sl, st) := register h (put h s st) in (Ok (h, sl, remote), poke st)
      end
  end.
Definition connect (started : Z) (ws : list Wait) (addr : SocketAddr) (st : StackInner) : outcome (option (result IoErr TcpStream) * StackInner) :=
  match connect_start addr st with
  | (Err e, st) => Val (Some (Err e), st)
  | (Ok (e, peer), st) => connect_loop (started + DEFAULT_CONNECT_TIMEOUT) ws e peer st
  end.

Definition deadline_of (started : Z) (t : option Z) : Z := started + match t with Some t => t | None => FOREVER end.
Definition set_closed (s : TcpStream) : TcpStream := mkStream (ts_handle s) (ts_slot s) (ts_peer s) (read_timeout s) (write_timeout s) true.

(** [None]: still waiting; [Ok []]: the end. *)
Fixpoint read_loop (deadline : Z) (ws : list Wait) (n : nat) (t : TcpStream) (st : StackInner) : outcome (option (result IoErr (list Z)) * TcpStream * StackInner) :=
  s ← get_mut (ts_handle t) st;
  let wait st :=
    match ws with
    | [] => Val (None, t, st)
    | w :: ws => if deadline <=? w_now w then Val (Some (Err WouldBlock), t, st)
                 else read_loop deadline ws n t (drain_event (ts_slot t) (w_env w st))
    end in
  if bool_decide (rx_bytes s = []) then
    if may_recv s then wait st else Val (Some (Ok []), set_closed t, st)
  else match recv_slice n s with
       | None => Val (Some (Err OtherError), t, st)
       | Some ([], s) => wait (put (ts_handle t) s st)
       | Some (c, s) => Val (Some (Ok c), t, put (ts_handle t) s st)
       end.
Definition stream_read (started : Z) (ws : list Wait) (n : nat) (t : TcpStream) (st : StackInner) : outcome (option (result IoErr (list Z)) * TcpStream * StackInner) :=
  if ts_closed t then Val (Some (Ok []), t, st) else read_loop (deadline_of started (read_timeout t)) ws n t st.

Fixpoint write_loop (deadline : Z) (ws : list Wait) (b : list Z) (t : TcpStream) (st : StackInner) : outcome (option (result IoErr nat) * TcpStream * StackInner) :=
  s ← get_mut (ts_handle t) st;
  let wait st :=
    match ws with
    | [] => Val (None, t, st)
    | w :: ws => if deadline <=? w_now w then Val (Some (Err WouldBlock), t, st)
                 else write_loop deadline ws b t (drain_event (ts_slot t) (w_env w st))
    end in
  if negb (may_send s) then Val (Some (Err BrokenPipe), set_closed t, poke st)
  else if can_send s then
    match send_slice b s with
    | None => Val (Some (Err OtherError), t, st)
    | Some (O, s) => wait (poke (put (ts_handle t) s st))
    | Some (k, s) => Val (Some (Ok k), t, poke (put (ts_handle t) s st))
    end
  else wait (poke st).
Definition stream_write (started : Z) (ws : list Wait) (b : list Z) (t : TcpStream) (st : StackInner) : outcome (option (result IoErr nat) * TcpStream * StackInner) :=
  if ts_closed t then Val (Some (Err BrokenPipe), t, st) else write_loop (deadline_of started (write_timeout t)) ws b t st.

Definition stream_shutdown (t : TcpStream) (st : StackInner) : outcome (TcpStream * StackInner) :=
  s ← get_mut (ts_handle t) st;
  Val (set_closed t, poke (put (ts_handle t) (tcp_close s) st)).

Definition set_read_timeout (d : option Z) (t : TcpStream) : TcpStream := mkStream (ts_handle t) (ts_slot t) (ts_peer t) d (write_timeout t) (ts_closed t).
Definition set_write_timeout (d : option Z) (t : TcpStream) : TcpStream := mkStream (ts_handle t) (ts_slot t) (ts_peer t) (read_timeout t) d (ts_closed t).
Definition stream_flush (st : StackInner) : StackInner := poke st.
Definition send_queue (t : TcpStream) (st : StackInner) : outcome nat := s ← get_mut (ts_handle t) st; Val (length (tx_bytes s)).

Definition drained_state (s : TcpState) : bool := match s with FinWait2 | Closing | TimeWait | LastAck | Closed => true | _ => false end.

(** A wait for a state of the socket, whose absence counts; whether it came.
    When the waits run out the time is up. *)
Fixpoint wait_for (done : TcpState -> bool) (deadline : Z) (ws : list Wait) (h sl : nat) (st : StackInner) : bool * StackInner :=
  if match sockets st !! h with Some s => done (tcp_state s) | None => true end then (true, st)
  else match ws with
       | [] => (false, st)
       | w :: ws => if deadline <=? w_now w then (false, st) else wait_for done deadline ws h sl (drain_event sl (w_env w st))
       end.
Definition wait_for_drain (now : Z) := wait_for drained_state (now + CLOSE_DRAIN_TIMEOUT).
Definition wait_for_rst_sent (now : Z) := wait_for (fun s => bool_decide (s = Closed)) (now + RST_EMIT_TIMEOUT).

(** [Drop]; also whether a reset was asked for. *)
Definition drop_stream (now now2 : Z) (ws ws2 : list Wait) (t : TcpStream) (st : StackInner) : outcome (bool * StackInner) :=
  '(t, st) ← (if ts_closed t then Val (t, st) else stream_shutdown t st);
  let '(drained, st) := wait_for_drain now ws (ts_handle t) (ts_slot t) st in
  let st := unregister (ts_handle t) st in
  if drained then st ← remove (ts_handle t) st; Val (false, st)
  else
    s ← get_mut (ts_handle t) st;
    if bool_decide (tcp_state s = Closed) then st ← remove (ts_handle t) st; Val (false, st)
    else
      let st := poke (put (ts_handle t) (tcp_abort s) st) in
      let '(_, st) := wait_for_rst_sent now2 ws2 (ts_handle t) (ts_slot t) st in
      st ← remove (ts_handle t) st;
      Val (true, st).

(** A caller of one stream through [Read] and [Write], and what it sees. *)
Inductive Op : Type := OpRead (started : Z) (n : nat) (ws : list Wait) | OpWrite (started : Z) (b : list Z) (ws : list Wait) | OpShutdown
| OpFlush | OpReadTimeout (d : option Z) | OpWriteTimeout (d : option Z).
Inductive Res : Type := Got (c : list Z) | EndOfStream | Sent (c : list Z) | OpDone | OpFailed (e : IoErr) | StillWaiting.

Definition op_step (o : Op) (t : TcpStream) (st : StackInner) : outcome (Res * TcpStream * StackInner) :=
  match o with
  | OpRead started n ws =>
      '(r, t, st) ← stream_read started ws n t st;
      Val (match r with None => StillWaiting | Some (Ok []) => EndOfStream | Some (Ok c) => Got c | Some (Err e) => OpFailed e end, t, st)
  | OpWrite started b ws =>
      '(r, t, st) ← stream_write started ws b t st;
      Val (match r with None => StillWaiting | Some (Ok k) => Sent (take k b) | Some (Err e) => OpFailed e end, t, st)
  | OpShutdown => '(t, st) ← stream_shutdown t st; Val (OpDone, t, st)
  | OpFlush => Val (OpDone, t, stream_flush st)
  | OpReadTimeout d => Val (OpDone, set_read_timeout d t, st)
  | OpWriteTimeout d => Val (OpDone, set_write_timeout d t, st)
  end.
Fixpoint session (os : list Op) (t : TcpStream) (st : StackInner) : outcome (list Res * TcpStream * StackInner) :=
  match os with
  | [] => Val ([], t, st)
  | o :: os =>
      '(r, t, st) ← op_step o t st;
      match r with
      | StillWaiting => Val ([r], t, st)
      | _ => '(rs, t, st) ← session os t st; Val (r :: rs, t, st)
      end
  end.

(** ** All threads together *)

(** A stream is waited for, in use, or on its way out: out of the registry, and
    removed from the set as the last step. *)
Inductive StreamPhase : Type := Connecting | Live | Dying.

Record Sys : Type := mkSys { y_st : StackInner; y_listeners : list TcpListener; y_streams : list (TcpStream * StreamPhase); y_leaked : list nat }.

(** What one thread does while it holds the lock. *)
Inductive Event : Type :=
| EBind (port : Z) (size : nat) | EHeal (i : nat) | EScan (i : nat) | EDropListener (i : nat)
| EConnect (addr : SocketAddr) | EConnectCheck (j : nat) (expired : bool)
| ERead (j n : nat) | EWrite (j : nat) (b : list Z) | EShutdown (j : nat)
| EUnregister (j : nat) | EAbort (j : nat) | ERemove (j : nat)
| EPoll (iface : nat -> K -> K).

Definition expiry (expired : bool) : list Wait := if expired then [mkWait 0 (fun st => st)] else [].
Definition set_stream (j : nat) (t : TcpStream) (p : StreamPhase) (y : Sys) (st : StackInner) : Sys :=
  mkSys st (y_listeners y) (<[j := (t, p)]> (y_streams y)) (y_leaked y).

Definition sys_step (order : gmap nat nat -> list (nat * nat)) (y : Sys) (e : Event) : outcome Sys :=
  let st := y_st y in
  match e with
  | EBind port size =>
      match bind_inner port size st with
      | (Ok l, st) => Val (mkSys st (y_listeners y ++ [l]) (y_streams y) (y_leaked y))
      | (Err _, st) => Val (mkSys st (y_listeners y) (y_streams y) (y_leaked y))
      end
  | EHeal i =>
      match y_listeners y !! i with
      | None => Val y
      | Some l => '(pool, st) ← heal_pool (port l) (pool l) st; Val (mkSys st (<[i := mkListener pool (port l)]> (y_listeners y)) (y_streams y) (y_leaked y))
      end
  | EScan i =>
      match y_listeners y !! i with
      | None => Val y
      | Some l =>
          '(r, l, st) ← scan_pool l st;
          let streams := match r with Ok (Some t) => y_streams y ++ [(t, Live)] | _ => y_streams y end in
          Val (mkSys st (<[i := l]> (y_listeners y)) streams (y_leaked y))
      end
  | EDropListener i =>
      match y_listeners y !! i with
      | None => Val y
      | Some l => st ← drop_listener l st; Val (mkSys st (delete i (y_listeners y)) (y_streams y) (y_leaked y))
      end
  | EConnect addr =>
      match connect_start addr st with
      | (Ok (e, peer), st) => Val (mkSys st (y_listeners y) (y_streams y ++ [(from_listener_handle e peer, Connecting)]) (y_leaked y))
      | (Err _, st') => Val (mkSys st' (y_listeners y) (y_streams y) (free_handle (sockets st) :: y_leaked y))
      end
  | EConnectCheck j expired =>
      match y_streams y !! j with
      | Some (t, Connecting) =>
          '(r, st) ← connect_loop 0 (expiry expired) (ts_handle t, ts_slot t) (ts_peer t) st;
          Val (match r with
               | None => set_stream j t Connecting y st
               | Some (Ok t) => set_stream j t Live y st
               | Some (Err _) => mkSys st (y_listeners y) (delete j (y_streams y)) (y_leaked y)
               end)
      | _ => Val y
      end
  | ERead j n =>
      match y_streams y !! j with
      | Some (t, Live) => '(_, t, st) ← stream_read 0 [] n t st; Val (set_stream j t Live y st)
      | _ => Val y
      end
  | EWrite j b =>
      match y_streams y !! j with
      | Some (t, Live) => '(_, t, st) ← stream_write 0 [] b t st; Val (set_stream j t Live y st)
      | _ => Val y
      end
  | EShutdown j =>
      match y_streams y !! j with
      | Some (t, Live) => '(t, st) ← stream_shutdown t st; Val (set_stream j t Live y st)
      | _ => Val y
      end
  | EUnregister j =>
      match y_streams y !! j with
      | Some (t, Live) => Val (set_stream j t Dying y (unregister (ts_handle t) st))
      | _ => Val y
      end
  | EAbort j =>
      match y_streams y !! j with
      | Some (t, Dying) => s ← get_mut (ts_handle t) st; Val (set_stream j t Dying y (poke (put (ts_handle t) (tcp_abort s) st)))
      | _ => Val y
      end
  | ERemove j =>
      match y_streams y !! j with
      | Some (t, Dying) => st ← remove (ts_handle t) st; Val (mkSys st (y_listeners y) (delete j (y_streams y)) (y_leaked y))
      | _ => Val y
      end
  | EPoll iface => Val (mkSys (poll_turn (map_imap (fun h s => Some (iface h s))) order st) (y_listeners y) (y_streams y) (y_leaked y))
  end.

Fixpoint sys_run (order : gmap nat nat -> list (nat * nat)) (y : Sys) (es : list Event) : outcome Sys :=
  match es with
  | [] => Val y
  | e :: es => y ← sys_step order y e; sys_run order y es
  end.
End Stack.
Arguments StackInner K : clear implicits.
Arguments Wait K : clear implicits.
Arguments Sys K : clear implicits.
Arguments Event K : clear implicits.
Arguments Op K : clear implicits.

(** * Lemmas *)

(** ** Lists *)

Lemma insert_perm {A} (l : list A) i x y : l !! i = Some x -> x :: <[i := y]> l ≡ₚ y :: l.
Proof.
  intros Hi. rewrite <- (take_drop_middle l i x Hi) at 2. rewrite insert_take_drop by (by eapply lookup_lt_Some).
  rewrite <- !Permutation_middle. apply Permutation_swap.
Qed.

Lemma swap_remove_perm {A} (l : list A) i x : l !! i = Some x -> x :: swap_remove i l ≡ₚ l.
Proof.
  intros Hi. unfold swap_remove. destruct l as [|y l _] using rev_ind; [done|]. rewrite last_snoc, length_app. cbn [length].
  replace (length l + 1 - 1)%nat with (length l) by lia. destruct (decide (i < length l)%nat) as [Hlt|Hge].
  - rewrite insert_app_l by done. rewrite take_app_len by (by rewrite length_insert). rewrite lookup_app_l in Hi by done.
    rewrite (insert_perm l i x y Hi). apply Permutation_cons_append.
  - apply lookup_lt_Some in Hi as Hl. rewrite length_app in Hl. cbn in Hl. assert (i = length l) as -> by lia.
    rewrite lookup_app_r, Nat.sub_diag in Hi by done. injection Hi as <-.
    rewrite insert_app_r_alt, Nat.sub_diag by lia. cbn. rewrite take_app_len by done. apply Permutation_cons_append.
Qed.

Lemma delete_perm' {A} (l : list A) i x : l !! i = Some x -> x :: delete i l ≡ₚ l.
Proof. intros Hi. rewrite <- (delete_Permutation l i x Hi). done. Qed.

Section Account.
Context {K : Type} `{SmolTcpLaws K}.

(** Every socket of the set belongs to one entry [es], which is in the registry,
    or to one of [ds], which are not. *)
Record accounted (st : StackInner K) (es : list (nat * nat)) (ds : list nat) : Prop := {
  a_nodup : NoDup (es.*1 ++ ds);
  a_sock : forall h, is_Some (sockets st !! h) <-> h ∈ es.*1 ++ ds;
  a_hand : forall h sl, handles st !! h = Some sl <-> (h, sl) ∈ es;
  a_slots : NoDup es.*2 /\ forall sl, sl ∈ es.*2 -> (sl < next_slot st)%nat
}.

Lemma accounted_perm st es es' ds ds' : es ≡ₚ es' -> ds ≡ₚ ds' -> accounted st es ds -> accounted st es' ds'.
Proof.
  intros P1 P2 [A1 A2 A3 A4]. split.
  - by rewrite <- P1, <- P2.
  - intros h. by rewrite A2, P1, P2.
  - intros h sl. by rewrite A3, P1.
  - destruct A4 as [A4 A5]. split; [by rewrite <- P1|]. intros sl Hs. apply A5. by rewrite P1.
Qed.

(** What only the three tables decide. *)
Lemma accounted_same st st' es ds : dom (sockets st') = dom (sockets st) -> handles st' = handles st -> next_slot st' = next_slot st ->
  accounted st es ds -> accounted st' es ds.
Proof.
  intros E1 E2 E3 [A1 A2 A3 A4]. split; [done| |by rewrite E2|by rewrite E3]. intros h. by rewrite <- A2, <- !elem_of_dom, E1.
Qed.

Lemma put_accounted h s st es ds : h ∈ es.*1 ++ ds -> accounted st es ds -> accounted (put h s st) es ds.
Proof.
  intros Hh HA. apply (accounted_same st); [|done|done|exact HA]. cbn. rewrite dom_insert_L. apply (a_sock _ _ _ HA), elem_of_dom in Hh. set_solver.
Qed.

Lemma poke_accounted st es ds : accounted st es ds -> accounted (poke st) es ds.
Proof. by apply accounted_same. Qed.

Lemma get_mut_ok h st es ds : accounted st es ds -> h ∈ es.*1 ++ ds -> exists s, get_mut h st = Val s /\ sockets st !! h = Some s.
Proof. intros HA Hh. apply (a_sock _ _ _ HA) in Hh as [s E]. unfold get_mut. rewrite E. eauto. Qed.

(** A handle that is given out is nobody's. *)
Lemma free_apart st es ds : accounted st es ds -> free_handle (sockets st) ∉ es.*1 ++ ds.
Proof. intros HA Hin. apply (a_sock _ _ _ HA) in Hin as [s E]. by rewrite free_law in E. Qed.

Lemma add_accounted s st es ds : accounted st es ds -> accounted (add s st).2 es (free_handle (sockets st) :: ds).
Proof.
  intros HA. pose proof (free_apart _ _ _ HA) as Hf. destruct HA as [A1 A2 A3 A4]. cbn. split; cbn; [|intros h|done|done].
  - rewrite <- Permutation_middle. by apply list.NoDup_cons.
  - rewrite <- Permutation_middle, elem_of_cons, <- A2, lookup_insert_is_Some. destruct (decide (h = free_handle (sockets st))); naive_solver.
Qed.

Lemma register_accounted h st es ds : accounted st es (h :: ds) -> accounted (register h st).2 ((h, next_slot st) :: es) ds.
Proof.
  intros [A1 A2 A3 [A4 A5]]. assert (Hh : h ∉ es.*1).
  { rewrite <- Permutation_middle in A1. apply list.NoDup_cons in A1 as [A1 _]. rewrite not_elem_of_app in A1. apply A1. }
  split; cbn.
  - by rewrite Permutation_middle.
  - intros k. by rewrite A2, <- Permutation_middle.
  - intros k sl. rewrite elem_of_cons. destruct (decide (k = h)) as [->|Hne].
    + rewrite lookup_insert_eq. split; [intros [= <-]; by left|]. intros [[= <-]|Hin]; [done|]. exfalso. apply Hh, list_elem_of_fmap. by exists (h, sl).
    + rewrite lookup_insert_ne, A3 by done. naive_solver.
  - split; [|intros sl [->|Hs]%elem_of_cons; [lia|apply A5 in Hs; lia]]. apply list.NoDup_cons. split; [|done]. intros Hs%A5. lia.
Qed.

Lemma unregister_accounted h sl st es ds : accounted st ((h, sl) :: es) ds -> accounted (unregister h st) es (h :: ds).
Proof.
  intros [A1 A2 A3 [A4 A5]]. cbn in *. assert (Hh : h ∉ es.*1) by (apply list.NoDup_cons in A1 as [A1 _]; rewrite not_elem_of_app in A1; apply A1). split; cbn.
  - by rewrite <- Permutation_middle.
  - intros k. by rewrite A2, <- Permutation_middle.
  - intros k l. destruct (decide (k = h)) as [->|Hne].
    + rewrite lookup_delete_eq. split; [done|]. intros Hin. exfalso. apply Hh, list_elem_of_fmap. by exists (h, l).
    + rewrite lookup_delete_ne, A3, elem_of_cons by done. naive_solver.
  - apply list.NoDup_cons in A4 as [_ A4]. split; [done|]. intros l Hl. apply A5. by right.
Qed.

Lemma remove_accounted h st es ds : accounted st es (h :: ds) -> exists st', remove h st = Val st' /\ accounted st' es ds /\ sockets st' = delete h (sockets st).
Proof.
  intros [A1 A2 A3 A4]. rewrite <- Permutation_middle in A1. apply list.NoDup_cons in A1 as [Hh A1].
  assert (Hs : is_Some (sockets st !! h)) by (apply A2; rewrite <- Permutation_middle; by left). destruct Hs as [s E].
  unfold remove. rewrite E. eexists. split; [done|]. split; [|done]. split; cbn; [done| |done|done].
  intros k. rewrite lookup_delete_is_Some, A2, <- Permutation_middle, elem_of_cons. naive_solver.
Qed.

Lemma drop_one_accounted h sl st es ds : accounted st ((h, sl) :: es) ds ->
  exists st', remove h (unregister h st) = Val st' /\ accounted st' es ds /\ sockets st' = delete h (sockets st).
Proof. intros HA%unregister_accounted. by apply remove_accounted in HA. Qed.

Lemma alloc_accounted port st es ds : port <> 0 -> accounted st es ds ->
  exists e st' s, alloc_listening_socket port st = Some (e, st') /\ accounted st' (e :: es) ds /\ sockets st' = <[e.1 := s]> (sockets st) /\
    tcp_state s = Listen /\ sockets st !! e.1 = None.
Proof.
  intros Hp HA. destruct (listen_law port Hp) as (s & E & Hs). unfold alloc_listening_socket. rewrite E.
  pose proof (register_accounted _ _ _ _ (add_accounted s _ _ _ HA)) as HR. eexists _, _, s. split; [done|]. split; [exact HR|]. split_and!; [done|done|apply free_law].
Qed.

(** The entry has a socket that can still serve. *)
Definition serving (st : StackInner K) (e : nat * nat) : Prop := exists s, sockets st !! e.1 = Some s /\ alive s = true.
(** The sockets of these handles are as before. *)
Definition same_sockets (hs : list nat) (st st' : StackInner K) : Prop := forall h, h ∈ hs -> sockets st' !! h = sockets st !! h.

(** Replacing a dead entry in place. *)
Lemma replace_accounted port st pool es ds i h sl : port <> 0 -> pool !! i = Some (h, sl) -> accounted st (pool ++ es) ds ->
  exists st1 e st2, remove h (unregister h st) = Val st1 /\ alloc_listening_socket port st1 = Some (e, st2) /\
    accounted st2 (<[i := e]> pool ++ es) ds /\ serving st2 e /\
    forall k, k <> h -> is_Some (sockets st !! k) -> sockets st2 !! k = sockets st !! k.
Proof.
  intros Hp Hi HA. pose proof (delete_perm' pool i (h, sl) Hi) as Pd.
  assert (HA1 : accounted st ((h, sl) :: delete i pool ++ es) ds).
  { eapply accounted_perm; [|reflexivity|exact HA]. by rewrite app_comm_cons, Pd. }
  destruct (drop_one_accounted _ _ _ _ _ HA1) as (st1 & E1 & HA2 & Es1). destruct (alloc_accounted port st1 _ _ Hp HA2) as (e & st2 & s & E2 & HA3 & Es2 & Hs & Hfree).
  exists st1, e, st2. split_and!; [done|done| | |].
  - eapply accounted_perm; [|reflexivity|exact HA3]. rewrite app_comm_cons. apply Permutation_app_tail. symmetry.
    apply (Permutation_cons_inv (a := (h, sl))). rewrite (insert_perm pool i (h, sl) e Hi). rewrite Permutation_swap. by rewrite Pd.
  - exists s. rewrite Es2, lookup_insert_eq. split; [done|]. unfold alive. by rewrite Hs.
  - intros k Hk [x Hx]. rewrite Es2, Es1 in *. rewrite lookup_insert_ne; [by apply lookup_delete_ne|]. intros <-. rewrite lookup_delete_ne in Hfree by done. congruence.
Qed.

Lemma heal_loop_spec port es ds : port <> 0 -> forall fuel i pool reaped st,
  accounted st (pool ++ es) ds -> (length pool - i <= fuel)%nat -> Forall (serving st) (take i pool) ->
  exists pool' r st', heal_loop fuel i port pool reaped st = Val (pool', r, st') /\ length pool' = length pool /\ accounted st' (pool' ++ es) ds /\
    Forall (serving st') pool' /\ same_sockets (es.*1 ++ ds) st st'.
Proof.
  intros Hp. induction fuel as [|fuel IH]; intros i pool reaped st HA Hf Hserv; cbn [heal_loop].
  - rewrite lookup_ge_None_2 by lia. exists pool, reaped, st. rewrite take_ge in Hserv by lia. done.
  - destruct (pool !! i) as [[h sl]|] eqn:Ei.
    2:{ apply lookup_ge_None in Ei. exists pool, reaped, st. rewrite take_ge in Hserv by lia. done. }
    apply lookup_lt_Some in Ei as Hlt.
    assert (Hin : h ∈ (pool ++ es).*1 ++ ds).
    { rewrite fmap_app, !elem_of_app. left; left. apply list_elem_of_fmap. exists (h, sl). split; [done|]. by eapply list_elem_of_lookup_2. }
    destruct (get_mut_ok _ _ _ _ HA Hin) as (s & -> & Es). cbn [mbind outcome_bind]. destruct (alive s) eqn:Ea.
    + destruct (IH (i + 1)%nat pool reaped st HA) as (pool' & r & st' & -> & I); [lia| |by exists pool', r, st'].
      replace (i + 1)%nat with (S i) by lia. rewrite (take_S_r _ _ _ Ei). apply Forall_app. split; [done|]. repeat constructor. by exists s.
    + destruct (replace_accounted port st pool es ds i h sl Hp Ei HA) as (st1 & e & st2 & -> & E2 & HA2 & He & Hk). cbn [mbind outcome_bind]. rewrite E2.
      assert (Hother : forall k, k ∈ (take i pool).*1 ++ es.*1 ++ ds -> sockets st2 !! k = sockets st !! k).
      { intros k Hin2. pose proof (a_nodup _ _ _ HA) as Hnd. rewrite <- (take_drop_middle pool i _ Ei), !fmap_app, fmap_cons in Hnd. cbn [fst] in Hnd.
        apply Hk.
        - intros ->. rewrite <- !app_assoc in Hnd. cbn [app] in Hnd. rewrite <- Permutation_middle in Hnd. apply list.NoDup_cons in Hnd as [Hnd _].
          apply Hnd. rewrite !elem_of_app in *. naive_solver.
        - apply (a_sock _ _ _ HA). rewrite <- (take_drop i pool) at 1. rewrite !fmap_app, !elem_of_app in *. naive_solver. }
      destruct (IH (i + 1)%nat (<[i := e]> pool) true st2 HA2) as (pool' & r & st' & -> & I1 & I2 & I3 & I4); [rewrite length_insert; lia| |].
      * replace (i + 1)%nat with (S i) by lia. rewrite (take_S_r _ _ e) by (by apply list_lookup_insert_eq). rewrite take_insert_ge by lia. apply Forall_app. split; [|by repeat constructor].
        rewrite list.Forall_forall in Hserv |- *. intros x Hx. destruct (Hserv x Hx) as (s' & Hs' & Ha'). exists s'. rewrite Hother; [done|].
        apply elem_of_app. left. apply list_elem_of_fmap. by exists x.
      * exists pool', r, st'. rewrite length_insert in I1. split_and!; try done. intros k Hin2. rewrite (I4 k Hin2). apply Hother, elem_of_app. by right.
Qed.

Lemma heal_pool_spec port pool st es ds : port <> 0 -> accounted st (pool ++ es) ds ->
  exists pool' st', heal_pool port pool st = Val (pool', st') /\ length pool' = length pool /\ accounted st' (pool' ++ es) ds /\
    Forall (serving st') pool' /\ same_sockets (es.*1 ++ ds) st st'.
Proof.
  intros Hp HA. destruct (heal_loop_spec port es ds Hp (length pool) 0 pool false st HA) as (pool' & r & st' & E & I1 & I2 & I3 & I4); [lia|constructor|].
  unfold heal_pool. rewrite E. cbn [mbind outcome_bind]. exists pool'. destruct r; eexists; split_and!; try done; by apply poke_accounted.
Qed.

(** A connection the listener can hand out. *)
Definition claimable (st : StackInner K) (e : nat * nat) (peer : Z * Z) : Prop :=
  exists s, sockets st !! e.1 = Some s /\ tcp_state s = Established /\ remote_endpoint s = Some peer.

Lemma find_established_spec st es : (forall e, e ∈ es -> is_Some (sockets st !! e.1)) -> forall i,
  exists r, find_established i es st = Val r /\
    match r with
    | None => forall e peer, e ∈ es -> ~ claimable st e peer
    | Some (k, peer) => exists n e, k = (i + n)%nat /\ es !! n = Some e /\ claimable st e peer
    end.
Proof.
  induction es as [|[h sl] es IH]; intros Hin i; cbn [find_established].
  { exists None. split; [done|]. intros e peer Hne. by apply elem_of_nil in Hne. }
  destruct (Hin (h, sl)) as [s E]; [by left|]. cbn in E. unfold get_mut. rewrite E. cbn [mbind outcome_bind].
  destruct (if decide (tcp_state s = Established) then remote_endpoint s else None) as [peer|] eqn:Ec.
  - exists (Some (i, peer)). split; [done|]. exists 0%nat, (h, sl). split_and!; [lia|done|]. exists s. case_decide; naive_solver.
  - destruct (IH (fun e He => Hin e (list_elem_of_further _ _ _ He)) (i + 1)%nat) as (r & -> & Hr). exists r. split; [done|]. destruct r as [[k peer]|].
    + destruct Hr as (n & e & -> & He & Hc). exists (S n), e. split_and!; [lia|done|done].
    + intros e peer [->|He]%elem_of_cons; [|by apply Hr]. intros (s' & E' & Es & Ep). cbn in E'. simplify_eq. rewrite decide_True in Ec by done. congruence.
Qed.

Lemma entry_present st es ds e : accounted st es ds -> e ∈ es -> is_Some (sockets st !! e.1).
Proof. intros HA He. apply (a_sock _ _ _ HA), elem_of_app. left. by apply list_elem_of_fmap_2. Qed.

(** Handing out a connection: the entry leaves the pool with its socket as it is,
    and a listening one takes its place. *)
Lemma scan_pool_spec l st es ds : port l <> 0 -> accounted st (pool l ++ es) ds ->
  exists r l' st', scan_pool l st = Val (r, l', st') /\ port l' = port l /\ length (pool l') = length (pool l) /\
    ((r = Ok None /\ l' = l /\ st' = st /\ forall e peer, e ∈ pool l -> ~ claimable st e peer) \/
     exists e peer, r = Ok (Some (from_listener_handle e peer)) /\ e ∈ pool l /\ claimable st e peer /\
       accounted st' (pool l' ++ e :: es) ds /\ same_sockets ((pool l ++ es).*1 ++ ds) st st').
Proof.
  intros Hp HA. unfold scan_pool.
  destruct (find_established_spec st (pool l)) with (i := 0%nat) as (r & -> & Hr).
  { intros e He. apply (entry_present _ _ _ _ HA), elem_of_app. by left. }
  cbn [mbind outcome_bind]. destruct r as [[k peer]|]; [|by exists (Ok None), l, st; split_and!; [..|left]].
  destruct Hr as (n & e & -> & He & Hc). unfold index. cbn [Nat.add]. rewrite He. cbn [mbind outcome_bind].
  destruct (alloc_accounted (port l) st _ _ Hp HA) as (fresh & st1 & s & -> & HA1 & Es & Hl & Hfree).
  pose proof (swap_remove_perm _ _ _ He) as Pr.
  eexists _, _, _. split; [done|]. cbn [port pool]. split; [done|]. split.
  { apply Permutation_length in Pr. cbn in Pr. rewrite length_app. cbn. lia. }
  right. exists e, peer. split_and!; [done|by eapply list_elem_of_lookup_2|done| |].
  - apply poke_accounted. eapply accounted_perm; [|reflexivity|exact HA1].
    clear - Pr. revert Pr. generalize (swap_remove n (pool l)). intros q Pr. rewrite <- Pr. solve_Permutation.
  - intros h Hh. cbn. rewrite Es. apply lookup_insert_ne. intros <-. apply (a_sock _ _ _ HA) in Hh as [x Hx]. congruence.
Qed.

Lemma alloc_pool_spec port es ds : port <> 0 -> forall n acc st, accounted st (acc ++ es) ds ->
  exists pool st', alloc_pool n port acc st = (Ok pool, st') /\ length pool = (length acc + n)%nat /\ accounted st' (pool ++ es) ds.
Proof.
  intros Hp. induction n as [|n IH]; intros acc st HA; cbn [alloc_pool].
  { exists acc, st. split_and!; [done|lia|done]. }
  destruct (alloc_accounted port st _ _ Hp HA) as (e & st1 & s & -> & HA1 & _).
  destruct (IH (acc ++ [e]) st1) as (pool & st' & -> & Hl & HA2); [eapply accounted_perm; [|reflexivity|exact HA1]; solve_Permutation|].
  exists pool, st'. split_and!; [done|rewrite Hl, length_app; cbn; lia|done].
Qed.

Lemma drop_entries_spec es ds : forall gone st, accounted st (gone ++ es) ds -> exists st', drop_entries gone st = Val st' /\ accounted st' es ds.
Proof.
  induction gone as [|[h sl] gone IH]; intros st HA; cbn [drop_entries]; [by exists st|].
  destruct (drop_one_accounted _ _ _ _ _ HA) as (st1 & -> & HA1 & _). cbn [mbind outcome_bind]. by apply IH.
Qed.

(** ** The invariant of all threads *)

Definition entry_of (x : TcpStream * StreamPhase) : option (nat * nat) := match x.2 with Dying => None | _ => Some (ts_handle x.1, ts_slot x.1) end.
Definition dying_of (x : TcpStream * StreamPhase) : option nat := match x.2 with Dying => Some (ts_handle x.1) | _ => None end.
(** Whose sockets are in the set: the pools and the streams own the registered
    ones, streams being dropped and failed connects the rest. *)
Definition owned (st : StackInner K) (ls : list TcpListener) (ss : list (TcpStream * StreamPhase)) (leaked : list nat) : Prop :=
  accounted st ((ls ≫= pool) ++ omap entry_of ss) (omap dying_of ss ++ leaked).

Lemma owned_perm st ls ls' ss ss' lk : ls ≡ₚ ls' -> ss ≡ₚ ss' -> owned st ls ss lk -> owned st ls' ss' lk.
Proof. intros P1 P2. apply accounted_perm; [by rewrite P1, P2|by rewrite P2]. Qed.

Lemma insert_delete_perm {A} (l : list A) i x y : l !! i = Some x -> y :: delete i l ≡ₚ <[i := y]> l.
Proof.
  intros Hi. apply (Permutation_cons_inv (a := x)). rewrite (insert_perm l i x y Hi), Permutation_swap. apply perm_skip. by apply delete_perm'.
Qed.

(** An operation of one stream is about the stream and the rest. *)
Lemma owned_stream st ls ss lk j x : ss !! j = Some x -> owned st ls ss lk -> owned st ls (x :: delete j ss) lk.
Proof. intros Hj. apply owned_perm; [done|]. symmetry. by apply delete_perm'. Qed.
Lemma owned_stream_set st ls ss lk j x x' : ss !! j = Some x -> owned st ls (x' :: delete j ss) lk -> owned st ls (<[j := x']> ss) lk.
Proof. intros Hj. apply owned_perm; [done|]. by eapply insert_delete_perm. Qed.

Lemma owned_listener st ls ss lk i l : ls !! i = Some l -> owned st ls ss lk ->
  accounted st (pool l ++ (delete i ls ≫= pool) ++ omap entry_of ss) (omap dying_of ss ++ lk).
Proof. intros Hi. apply accounted_perm; [|done]. rewrite <- (delete_perm' ls i l Hi) at 1. cbn. by rewrite <- app_assoc. Qed.
Lemma owned_listener_set st ls ss lk i l l' : ls !! i = Some l ->
  accounted st (pool l' ++ (delete i ls ≫= pool) ++ omap entry_of ss) (omap dying_of ss ++ lk) -> owned st (<[i := l']> ls) ss lk.
Proof. intros Hi. apply accounted_perm; [|done]. rewrite <- (insert_delete_perm ls i l l' Hi). cbn. by rewrite <- app_assoc. Qed.

Lemma owned_live st ls ss lk t p : p <> Dying -> owned st ls ((t, p) :: ss) lk ->
  accounted st ((ts_handle t, ts_slot t) :: (ls ≫= pool) ++ omap entry_of ss) (omap dying_of ss ++ lk).
Proof. intros Hp. apply accounted_perm; [|by destruct p]. destruct p; cbn; [solve_Permutation..|done]. Qed.

(** A stream may change its socket. *)
Lemma handle_in ls ss lk (t : TcpStream) p :
  ts_handle t ∈ ((ls ≫= pool) ++ omap entry_of ((t, p) :: ss)).*1 ++ omap dying_of ((t, p) :: ss) ++ lk.
Proof. rewrite fmap_app, !elem_of_app. destruct p; cbn; [left; right; by left..|right; left; by left]. Qed.
Lemma owned_put st ls ss lk t p s : owned st ls ((t, p) :: ss) lk -> owned (put (ts_handle t) s st) ls ((t, p) :: ss) lk.
Proof. apply put_accounted, handle_in. Qed.
Lemma owned_get st ls ss lk t p : owned st ls ((t, p) :: ss) lk -> exists s, get_mut (ts_handle t) st = Val s /\ sockets st !! ts_handle t = Some s.
Proof. intros HA. eapply get_mut_ok; [exact HA|apply handle_in]. Qed.
Lemma owned_same st ls ss lk t t' p : ts_handle t' = ts_handle t -> ts_slot t' = ts_slot t -> owned st ls ((t, p) :: ss) lk -> owned st ls ((t', p) :: ss) lk.
Proof. intros E1 E2. unfold owned. destruct p; cbn; by rewrite ?E1, ?E2. Qed.
Lemma owned_poke st ls ss lk : owned st ls ss lk -> owned (poke st) ls ss lk.
Proof. apply poke_accounted. Qed.

Lemma read_owned n t p st ls ss lk : owned st ls ((t, p) :: ss) lk ->
  exists r t' st', stream_read 0 [] n t st = Val (r, t', st') /\ owned st' ls ((t', p) :: ss) lk.
Proof.
  intros HA. unfold stream_read. destruct (ts_closed t); [by eexists _, _, _|]. cbn [read_loop].
  destruct (owned_get _ _ _ _ _ _ HA) as (s & -> & _). cbn [mbind outcome_bind]. repeat case_match; eexists _, _, _; (split; [done|]); try done; try by apply owned_put.
Qed.

Lemma write_owned b t p st ls ss lk : owned st ls ((t, p) :: ss) lk ->
  exists r t' st', stream_write 0 [] b t st = Val (r, t', st') /\ owned st' ls ((t', p) :: ss) lk.
Proof.
  intros HA. unfold stream_write. destruct (ts_closed t); [by eexists _, _, _|]. cbn [write_loop].
  destruct (owned_get _ _ _ _ _ _ HA) as (s & -> & _). cbn [mbind outcome_bind].
  repeat case_match; eexists _, _, _; (split; [done|]); try done; try apply owned_poke; first [by apply owned_put | by apply (owned_same _ _ _ _ t) | done].
Qed.

Lemma shutdown_owned t p st ls ss lk : owned st ls ((t, p) :: ss) lk ->
  exists t' st', stream_shutdown t st = Val (t', st') /\ owned st' ls ((t', p) :: ss) lk.
Proof.
  intros HA. unfold stream_shutdown. destruct (owned_get _ _ _ _ _ _ HA) as (s & -> & _). cbn [mbind outcome_bind]. eexists _, _. split; [done|].
  apply owned_poke, (owned_same _ _ _ _ t); [done..|]. by apply owned_put.
Qed.

(** A check of a connection in progress goes on, hands out the stream, or leaves nothing behind. *)
Lemma connect_check_owned expired t st ls ss lk : owned st ls ((t, Connecting) :: ss) lk ->
  exists r st', connect_loop 0 (expiry expired) (ts_handle t, ts_slot t) (ts_peer t) st = Val (r, st') /\
    match r with
    | None => st' = st
    | Some (Ok t') => st' = st /\ t' = from_listener_handle (ts_handle t, ts_slot t) (ts_peer t)
    | Some (Err _) => owned st' ls ss lk
    end.
Proof.
  intros HA. destruct (drop_one_accounted _ _ _ _ _ (owned_live _ _ _ _ _ Connecting ltac:(done) HA)) as (st1 & E1 & HA1 & _).
  destruct (owned_get _ _ _ _ _ _ HA) as (s & E & _).
  destruct expired; cbn [expiry connect_loop fst w_now Z.leb Z.compare]; rewrite E; cbn [mbind outcome_bind];
    destruct (tcp_state s); cbn beta; rewrite ?E1; cbn [mbind outcome_bind]; eexists _, _; (split; [reflexivity|done]).
Qed.

Lemma connect_start_owned addr st ls ss lk : owned st ls ss lk ->
  exists r st', connect_start addr st = (r, st') /\
    match r with
    | Ok (e, peer) => owned st' ls (ss ++ [(from_listener_handle e peer, Connecting)]) lk
    | Err _ => owned st' ls ss (free_handle (sockets st) :: lk)
    end.
Proof.
  intros HA. unfold connect_start, alloc_local_port. cbn [add fst snd sockets].
  assert (HA1 : accounted (mkInner (sockets st) (handles st) (slots st) (next_slot st) (wake st) (if next_port st <? 49152 then 49152 else (next_port st + 1) mod 2 ^ 16))
    ((ls ≫= pool) ++ omap entry_of ss) (omap dying_of ss ++ lk)) by (by eapply accounted_same; [..|exact HA]).
  pose proof (add_accounted tcp_new _ _ _ HA1) as HA2. cbn [add snd sockets] in HA2.
  destruct (ip_endpoint addr) as [remote|].
  2:{ eexists _, _. split; [done|]. eapply accounted_perm; [reflexivity| |exact HA2]. solve_Permutation. }
  destruct (tcp_connect _ _ _) as [s|].
  2:{ eexists _, _. split; [done|]. eapply accounted_perm; [reflexivity| |exact HA2]. solve_Permutation. }
  eexists _, _. split; [done|]. cbn beta iota. apply owned_poke. unfold owned. rewrite !list.omap_app. cbn [omap list_omap entry_of dying_of fst snd from_listener_handle ts_handle ts_slot].
  eapply accounted_perm; [| |apply register_accounted, put_accounted; [|exact HA2]]; [solve_Permutation|by rewrite app_nil_r|].
  rewrite elem_of_app, elem_of_cons. by right; left.
Qed.

Lemma poll_owned iface order st ls ss lk : owned st ls ss lk -> owned (poll_turn (map_imap (fun h s => Some (iface h s))) order st) ls ss lk.
Proof.
  assert (Hn : forall ps st, sockets (foldl notify_one st ps) = sockets st /\ handles (foldl notify_one st ps) = handles st /\ next_slot (foldl notify_one st ps) = next_slot st).
  { induction ps as [|q ps IH]; intros st0; [done|]. cbn. destruct (IH (notify_one st0 q)) as (-> & -> & ->). done. }
  unfold poll_turn, notify_handles. cbn [handles set_sockets]. destruct (Hn (order (handles st)) (set_sockets (map_imap (fun h s => Some (iface h s)) (sockets st)) st)) as (E1 & E2 & E3).
  apply accounted_same; cbn [sockets handles next_slot]; [rewrite E1|by rewrite E2|by rewrite E3].
  cbn. apply set_eq. intros h. rewrite !elem_of_dom, map_lookup_imap. destruct (sockets st !! h); cbn; naive_solver.
Qed.

(** The sizes the listeners were bound with. *)
Definition sizes_step (ns : list nat) (e : Event K) : list nat :=
  match e with
  | EBind port size => if port =? 0 then ns else ns ++ [Nat.max size 1]
  | EDropListener i => delete i ns
  | _ => ns
  end.

Definition sized (l : TcpListener) (n : nat) : Prop := port l <> 0 /\ length (pool l) = n.
Record sys_ok (y : Sys K) (ns : list nat) : Prop := {
  ok_owned : owned (y_st y) (y_listeners y) (y_streams y) (y_leaked y);
  ok_sized : Forall2 sized (y_listeners y) ns
}.

Lemma stream_step_ok y ns j x x' st : sys_ok y ns -> y_streams y !! j = Some x ->
  owned st (y_listeners y) (x' :: delete j (y_streams y)) (y_leaked y) -> sys_ok (set_stream j x'.1 x'.2 y st) ns.
Proof. intros [_ HS] Hj HA. destruct x'. split; [|done]. by eapply owned_stream_set. Qed.

Lemma sized_at ls ns i l : Forall2 sized ls ns -> ls !! i = Some l -> port l <> 0 /\ ns !! i = Some (length (pool l)).
Proof. intros HS Hi. destruct (Forall2_lookup_l _ _ _ _ _ HS Hi) as (n & Hn & Hp & <-). done. Qed.

Lemma listener_step_ok y ns i l l' st ss : sys_ok y ns -> y_listeners y !! i = Some l -> port l' = port l -> length (pool l') = length (pool l) ->
  owned st (<[i := l']> (y_listeners y)) ss (y_leaked y) -> sys_ok (mkSys st (<[i := l']> (y_listeners y)) ss (y_leaked y)) ns.
Proof.
  intros [_ HS] Hi Ep El HA. split; [done|]. cbn. destruct (sized_at _ _ _ _ HS Hi) as [Hp Hn].
  rewrite <- (list_insert_id ns i (length (pool l)) Hn). apply Forall2_insert; [done|]. split; [by rewrite Ep|done].
Qed.

Lemma bind_ok y ns port size : sys_ok y ns -> exists r st, bind_inner port size (y_st y) = (r, st) /\
  match r with
  | Ok l => sys_ok (mkSys st (y_listeners y ++ [l]) (y_streams y) (y_leaked y)) (sizes_step ns (EBind port size))
  | Err _ => st = y_st y /\ sizes_step ns (EBind port size) = ns
  end.
Proof.
  intros [HA HS]. unfold bind_inner. cbn [sizes_step]. destruct (Z.eqb_spec port 0) as [->|Hp]; [by eexists _, _|].
  destruct (alloc_pool_spec port _ _ Hp (Nat.max size 1) [] (y_st y) HA) as (pool & st & -> & Hl & HA1). eexists _, _. split; [done|]. split; cbn.
  - apply owned_poke. eapply accounted_perm; [|reflexivity|exact HA1]. rewrite bind_app. cbn. rewrite app_nil_r. solve_Permutation.
  - apply Forall2_app; [done|]. repeat constructor; done.
Qed.

Lemma heal_ok y ns i l : sys_ok y ns -> y_listeners y !! i = Some l ->
  exists pool' st', heal_pool (port l) (pool l) (y_st y) = Val (pool', st') /\ Forall (serving st') pool' /\
    same_sockets ((delete i (y_listeners y) ≫= pool).*1 ++ (ts_handle ∘ fst <$> y_streams y) ++ y_leaked y) (y_st y) st' /\
    sys_ok (mkSys st' (<[i := mkListener pool' (port l)]> (y_listeners y)) (y_streams y) (y_leaked y)) ns.
Proof.
  intros Hok Hi. pose proof Hok as [HA HS]. destruct (sized_at _ _ _ _ HS Hi) as [Hp _].
  destruct (heal_pool_spec (port l) (pool l) (y_st y) _ _ Hp (owned_listener _ _ _ _ _ _ Hi HA)) as (pool' & st' & E & Hl & HA1 & Hserv & Hsame).
  exists pool', st'. split_and!; [done|done| |].
  - intros h Hh. apply Hsame. rewrite fmap_app, !elem_of_app in *. destruct Hh as [Hh|[Hh|Hh]]; [by left; left| |by right; right].
    apply list_elem_of_fmap in Hh as ([t p] & -> & Hin). cbn. destruct p.
    1,2: left; right; apply list_elem_of_fmap; exists (ts_handle t, ts_slot t); split; [done|]; apply list_elem_of_omap; eexists; split; [exact Hin|done].
    right; left. apply list_elem_of_omap. eexists. split; [exact Hin|done].
  - eapply listener_step_ok; [done|done|done|done|]. by eapply owned_listener_set.
Qed.

Lemma scan_ok y ns i l : sys_ok y ns -> y_listeners y !! i = Some l ->
  exists r l' st', scan_pool l (y_st y) = Val (r, l', st') /\
    sys_ok (mkSys st' (<[i := l']> (y_listeners y)) (match r with Ok (Some t) => y_streams y ++ [(t, Live)] | _ => y_streams y end) (y_leaked y)) ns.
Proof.
  intros Hok Hi. pose proof Hok as [HA HS]. destruct (sized_at _ _ _ _ HS Hi) as [Hp _]. pose proof (owned_listener _ _ _ _ _ _ Hi HA) as HA1.
  destruct (scan_pool_spec l (y_st y) _ _ Hp HA1) as (r & l' & st' & E & Ep & El & D).
  exists r, l', st'. split; [done|]. destruct D as [(-> & -> & -> & _)|(e & peer & -> & _ & _ & HA2 & _)].
  - eapply listener_step_ok; [done..|]. by eapply owned_listener_set.
  - eapply listener_step_ok; [done..|]. eapply owned_listener_set; [done|]. rewrite !list.omap_app. cbn. rewrite app_nil_r.
    eapply accounted_perm; [|reflexivity|exact HA2]. destruct e. solve_Permutation.
Qed.

Lemma remove_owned t st ls ss lk : owned st ls ((t, Dying) :: ss) lk -> exists st', remove (ts_handle t) st = Val st' /\ owned st' ls ss lk.
Proof. intros HA. destruct (remove_accounted _ _ _ _ HA) as (st' & E & HA1 & _). by exists st'. Qed.
Lemma unregister_owned t st ls ss lk : owned st ls ((t, Live) :: ss) lk -> owned (unregister (ts_handle t) st) ls ((t, Dying) :: ss) lk.
Proof. intros HA. by apply owned_live, unregister_accounted in HA. Qed.

(** A step of a stream that keeps its place. *)
Ltac at_stream Hok j t Ej Hown :=
  match goal with |- context [y_streams ?y !! j] => destruct (y_streams y !! j) as [[t []]|] eqn:Ej end;
  try (eexists; split; [reflexivity|exact Hok]);
  pose proof (owned_stream _ _ _ _ _ _ Ej (ok_owned _ _ Hok)) as Hown.

Lemma stream_event_ok order y ns e : sys_ok y ns ->
  match e with EConnectCheck _ _ | ERead _ _ | EWrite _ _ | EShutdown _ | EUnregister _ | EAbort _ | ERemove _ => True | _ => False end ->
  exists y', sys_step order y e = Val y' /\ sys_ok y' ns.
Proof.
  intros Hok He. destruct e as [| | | | |j expired|j n|j b|j|j|j|j|]; try done; cbn [sys_step]; at_stream Hok j t Ej Hown.
  - destruct (connect_check_owned expired t _ _ _ _ Hown) as (r & st' & -> & Hr). cbn [mbind outcome_bind]. eexists. split; [reflexivity|].
    destruct r as [[t'|err]|]; [destruct Hr as [-> ->]|split; [done|apply Hok]|subst st'].
    + by apply (stream_step_ok y ns j (t, Connecting) (from_listener_handle (ts_handle t, ts_slot t) (ts_peer t), Live)).
    + by apply (stream_step_ok y ns j (t, Connecting) (t, Connecting)).
  - destruct (read_owned n t Live _ _ _ _ Hown) as (r & t' & st' & -> & HA). eexists. split; [reflexivity|]. by apply (stream_step_ok y ns j (t, Live) (t', Live)).
  - destruct (write_owned b t Live _ _ _ _ Hown) as (r & t' & st' & -> & HA). eexists. split; [reflexivity|]. by apply (stream_step_ok y ns j (t, Live) (t', Live)).
  - destruct (shutdown_owned t Live _ _ _ _ Hown) as (t' & st' & -> & HA). eexists. split; [reflexivity|]. by apply (stream_step_ok y ns j (t, Live) (t', Live)).
  - eexists. split; [reflexivity|]. apply (stream_step_ok y ns j (t, Live) (t, Dying)); [done..|]. by apply unregister_owned.
  - destruct (owned_get _ _ _ _ _ _ Hown) as (s & -> & _). eexists. split; [reflexivity|].
    apply (stream_step_ok y ns j (t, Dying) (t, Dying)); [done..|]. by apply owned_poke, owned_put.
  - destruct (remove_owned t _ _ _ _ Hown) as (st' & -> & HA). eexists. split; [reflexivity|]. split; [done|apply Hok].
Qed.

Lemma sys_step_ok order y ns e : sys_ok y ns -> exists y', sys_step order y e = Val y' /\ sys_ok y' (sizes_step ns e).
Proof.
  intros Hok. destruct e as [port size|i|i|i|addr| | | | | | | |iface]; try (by apply (stream_event_ok order)); cbn [sys_step].
  - destruct (bind_ok y ns port size Hok) as (r & st & -> & Hr). destruct r as [l|err]; eexists; (split; [reflexivity|]); [done|].
    destruct Hr as [-> ->]. destruct y. exact Hok.
  - destruct (y_listeners y !! i) as [l|] eqn:Ei; [|by exists y]. destruct (heal_ok y ns i l Hok Ei) as (pool' & st' & -> & _ & _ & Hok'). by eexists.
  - destruct (y_listeners y !! i) as [l|] eqn:Ei; [|by exists y]. destruct (scan_ok y ns i l Hok Ei) as (r & l' & st' & -> & Hok'). by eexists.
  - destruct (y_listeners y !! i) as [l|] eqn:Ei.
    + unfold drop_listener. destruct (drop_entries_spec _ _ _ _ (owned_listener _ _ _ _ _ _ Ei (ok_owned _ _ Hok))) as (st' & -> & HA). eexists. split; [reflexivity|].
      split; [done|]. cbn. apply Forall2_delete, Hok.
    + exists y. split; [done|]. cbn. apply lookup_ge_None in Ei. rewrite (Forall2_length (ok_sized _ _ Hok)) in Ei.
      rewrite delete_take_drop, take_ge, drop_ge, app_nil_r by lia. done.
  - destruct (connect_start_owned addr (y_st y) _ _ _ (ok_owned _ _ Hok)) as (r & st' & -> & Hr). destruct r as [[e peer]|err]; eexists; (split; [reflexivity|]); split; [done|apply Hok|done|apply Hok].
  - eexists. split; [reflexivity|]. split; [|apply Hok]. apply poll_owned, Hok.
Qed.

Lemma sys_run_ok order : forall es y ns, sys_ok y ns -> exists y', sys_run order y es = Val y' /\ sys_ok y' (foldl sizes_step ns es).
Proof.
  induction es as [|e es IH]; intros y ns Hok; cbn; [by exists y|].
  destruct (sys_step_ok order y ns e Hok) as (y' & -> & Hok'). by apply IH.
Qed.

Definition empty_sys (next : Z) : Sys K := mkSys (mkInner ∅ ∅ ∅ 0 false next) [] [] [].
Lemma empty_ok next : sys_ok (empty_sys next) [].
Proof.
  split; [|constructor]. split; cbn; [constructor|..|split; [constructor|intros sl Hsl; by apply elem_of_nil in Hsl]].
  - intros h. rewrite lookup_empty, elem_of_nil. split; [by intros []|done].
  - intros h sl. rewrite lookup_empty, elem_of_nil. done.
Qed.
End Account.

(** ** The byte streams of one connection *)

Definition got (rs : list Res) : list Z := concat (omap (fun r => match r with Got c => Some c | _ => None end) rs).
Definition sent (rs : list Res) : list Z := concat (omap (fun r => match r with Sent c => Some c | _ => None end) rs).

Section Bytes.
Context {K : Type} `{SmolTcpLaws K}.

(** From [s] to [s'], [d] more bytes arrived, [c] were taken, [b] were queued and
    [a] acknowledged. *)
Definition moved (c b : list Z) (s s' : K) : Prop :=
  exists d a, rx_bytes s ++ d = c ++ rx_bytes s' /\ tx_bytes s ++ b = a ++ tx_bytes s'.

Lemma moved_refl s : moved [] [] s s.
Proof. exists [], []. by rewrite !app_nil_r. Qed.
Lemma moved_trans c1 b1 c2 b2 s1 s2 s3 : moved c1 b1 s1 s2 -> moved c2 b2 s2 s3 -> moved (c1 ++ c2) (b1 ++ b2) s1 s3.
Proof.
  intros (d1 & a1 & R1 & T1) (d2 & a2 & R2 & T2). exists (d1 ++ d2), (a1 ++ a2).
  by rewrite !app_assoc, R1, T1, <- !app_assoc, R2, T2.
Qed.

(** What other threads may do to the socket of this stream: more bytes arrive,
    queued ones are acknowledged. *)
Definition benign (h : nat) (f : StackInner K -> StackInner K) : Prop :=
  forall st s, sockets st !! h = Some s -> exists s', sockets (f st) !! h = Some s' /\ moved [] [] s s'.
Definition waits_of (o : Op K) : list (Wait K) := match o with OpRead _ _ ws | OpWrite _ _ ws => ws | _ => [] end.

(** The waits of a loop, as seen by the socket. *)
Lemma waited h sl w st s : benign h (w_env w) -> sockets st !! h = Some s ->
  exists s', sockets (drain_event sl (w_env w st)) !! h = Some s' /\ moved [] [] s s'.
Proof. intros Hb E. apply (Hb _ _ E). Qed.

(** A loop in the state [s] of the socket of [t] ends with [r]. *)
Definition loop_ends {A} (deadline : Z) (ws : list (Wait K)) (t : TcpStream) (s : K) (taken : A -> list Z * list Z)
  (good : A -> TcpStream -> K -> Prop) (bad : IoErr -> TcpStream -> K -> Prop)
  (o : outcome (option (result IoErr A) * TcpStream * StackInner K)) : Prop :=
  exists r t' st' s', o = Val (r, t', st') /\ sockets st' !! ts_handle t = Some s' /\ (t' = t \/ t' = set_closed t) /\
    match r with
    | None => moved [] [] s s' /\ t' = t /\ Forall (fun w => w_now w < deadline) ws
    | Some (Ok x) => moved (taken x).1 (taken x).2 s s' /\ good x t' s'
    | Some (Err e) => moved [] [] s s' /\ bad e t' s'
    end.

Lemma loop_ends_wait {A} deadline w ws t s s1 (taken : A -> list Z * list Z) good bad o : w_now w < deadline -> moved [] [] s s1 ->
  loop_ends deadline ws t s1 taken good bad o -> loop_ends deadline (w :: ws) t s taken good bad o.
Proof.
  intros Hw Hm (r & t' & st' & s' & E & Es & Ht & Hr). exists r, t', st', s'. split_and!; [done..|].
  destruct r as [[x|e]|]; [destruct Hr as [M G]; split; [|done]..|destruct Hr as (M & G & F); split_and!; [|done|by constructor]];
    apply (moved_trans _ _ _ _ _ _ _ Hm M).
Qed.

(** A wait, in both loops: time is up, or another turn. *)
Lemma loop_ends_turn {A} deadline ws t st s s1 (taken : A -> list Z * list Z) good bad
  (loop : list (Wait K) -> StackInner K -> outcome (option (result IoErr A) * TcpStream * StackInner K)) :
  Forall (fun w => benign (ts_handle t) (w_env w)) ws -> sockets st !! ts_handle t = Some s1 -> moved [] [] s s1 -> bad WouldBlock t s1 ->
  (forall w ws' st s, ws = w :: ws' -> sockets st !! ts_handle t = Some s -> loop_ends deadline ws' t s taken good bad (loop ws' st)) ->
  loop_ends deadline ws t s taken good bad
    (match ws with
     | [] => Val (None, t, st)
     | w :: ws => if deadline <=? w_now w then Val (Some (Err WouldBlock), t, st) else loop ws (drain_event (ts_slot t) (w_env w st))
     end).
Proof.
  intros Hb E Hm Hbad Hloop. destruct ws as [|w ws].
  { exists None, t, st, s1. split; [done|]. split; [done|]. split; [by left|]. by split_and!. }
  apply Forall_cons_1 in Hb as [Hw Hb]. destruct (Z.leb_spec deadline (w_now w)) as [Hd|Hd].
  { exists (Some (Err WouldBlock)), t, st, s1. split; [done|]. split; [done|]. split; [by left|]. done. }
  destruct (waited _ (ts_slot t) _ _ _ Hw E) as (s2 & E2 & M2).
  apply (loop_ends_wait deadline w ws t s s2); [done|apply (moved_trans _ _ _ _ _ _ _ Hm M2)|by eapply Hloop].
Qed.

Lemma list_tail_ind {A} (P : list A -> Prop) : (forall l, (forall x l', l = x :: l' -> P l') -> P l) -> forall l, P l.
Proof. intros Hstep. induction l as [|x l IH]; apply Hstep; [done|]. by intros ? ? [= <- <-]. Qed.

Lemma read_loop_eq deadline ws n t (st : StackInner K) : read_loop deadline ws n t st =
  (s ← get_mut (ts_handle t) st;
   let wait st :=
     match ws with
     | [] => Val (None, t, st)
     | w :: ws => if deadline <=? w_now w then Val (Some (Err WouldBlock), t, st) else read_loop deadline ws n t (drain_event (ts_slot t) (w_env w st))
     end in
   if bool_decide (rx_bytes s = []) then if may_recv s then wait st else Val (Some (Ok []), set_closed t, st)
   else match recv_slice n s with
        | None => Val (Some (Err OtherError), t, st)
        | Some ([], s) => wait (put (ts_handle t) s st)
        | Some (c, s) => Val (Some (Ok c), t, put (ts_handle t) s st)
        end).
Proof. by destruct ws. Qed.

Lemma tcp_read_loop_spec deadline n t : forall ws st s, Forall (fun w => benign (ts_handle t) (w_env w)) ws -> sockets st !! ts_handle t = Some s ->
  loop_ends deadline ws t s (fun c => (c, []))
    (fun c t' s' => (length c <= n)%nat /\ if decide (c = []) then t' = set_closed t /\ rx_bytes s' = [] /\ may_recv s' = false else t' = t)
    (fun e t' _ => e = WouldBlock /\ t' = t) (read_loop deadline ws n t st).
Proof.
  induction ws as [ws IH] using list_tail_ind. intros st s Hb E. rewrite read_loop_eq. unfold get_mut. rewrite E. cbn [mbind outcome_bind]. cbv zeta.
  assert (Hturn : forall w ws' st s, ws = w :: ws' -> sockets st !! ts_handle t = Some s -> loop_ends deadline ws' t s (fun c => (c, []))
    (fun c t' s' => (length c <= n)%nat /\ if decide (c = []) then t' = set_closed t /\ rx_bytes s' = [] /\ may_recv s' = false else t' = t)
    (fun e t' _ => e = WouldBlock /\ t' = t) (read_loop deadline ws' n t st)).
  { intros w ws' st' s' -> E'. apply Forall_cons_1 in Hb as [_ Hb]. by apply (IH w). }
  case_bool_decide as Hrx; [destruct (may_recv s) eqn:Em|].
  - by apply (loop_ends_turn deadline ws t st s s _ _ _ (fun ws => read_loop deadline ws n t)); [..|apply moved_refl| |].
  - exists (Some (Ok [])), (set_closed t), st, s. split; [done|]. split; [done|]. split; [by right|]. split; [apply moved_refl|]. split; [cbn; lia|]. by rewrite decide_True.
  - destruct (recv_law n s Hrx) as (s1 & -> & R1 & T1). assert (M1 : moved (take n (rx_bytes s)) [] s s1).
    { exists [], []. rewrite R1, T1, take_drop, !app_nil_r. done. }
    assert (Hl : (length (take n (rx_bytes s)) <= n)%nat) by (rewrite length_take; lia).
    destruct (take n (rx_bytes s)) as [|x c].
    + by apply (loop_ends_turn deadline ws t (put (ts_handle t) s1 st) s s1 _ _ _ (fun ws => read_loop deadline ws n t)); [|apply lookup_insert_eq|..].
    + exists (Some (Ok (x :: c))), t, (put (ts_handle t) s1 st), s1. split; [done|]. split; [apply lookup_insert_eq|]. split; [by left|]. split; [exact M1|]. split; [exact Hl|done].
Qed.

Lemma write_loop_eq deadline ws b t (st : StackInner K) : write_loop deadline ws b t st =
  (s ← get_mut (ts_handle t) st;
   let wait st :=
     match ws with
     | [] => Val (None, t, st)
     | w :: ws => if deadline <=? w_now w then Val (Some (Err WouldBlock), t, st) else write_loop deadline ws b t (drain_event (ts_slot t) (w_env w st))
     end in
   if negb (may_send s) then Val (Some (Err BrokenPipe), set_closed t, poke st)
   else if can_send s then
     match send_slice b s with
     | None => Val (Some (Err OtherError), t, st)
     | Some (O, s) => wait (poke (put (ts_handle t) s st))
     | Some (k, s) => Val (Some (Ok k), t, poke (put (ts_handle t) s st))
     end
   else wait (poke st)).
Proof. by destruct ws. Qed.

(** The end of a write that failed. *)
Definition write_failed (t : TcpStream) (e : IoErr) (t' : TcpStream) (s' : K) : Prop :=
  (e = WouldBlock /\ t' = t) \/ (e = BrokenPipe /\ t' = set_closed t /\ may_send s' = false).

Lemma tcp_write_loop_spec deadline b t : forall ws st s, Forall (fun w => benign (ts_handle t) (w_env w)) ws -> sockets st !! ts_handle t = Some s ->
  loop_ends deadline ws t s (fun k => ([], take k b)) (fun k t' _ => (0 < k <= length b)%nat /\ t' = t) (write_failed t) (write_loop deadline ws b t st).
Proof.
  induction ws as [ws IH] using list_tail_ind. intros st s Hb E. rewrite write_loop_eq. unfold get_mut. rewrite E. cbn [mbind outcome_bind]. cbv zeta.
  assert (Hturn : forall w ws' st s, ws = w :: ws' -> sockets st !! ts_handle t = Some s ->
    loop_ends deadline ws' t s (fun k => ([], take k b)) (fun k t' _ => (0 < k <= length b)%nat /\ t' = t) (write_failed t) (write_loop deadline ws' b t st)).
  { intros w ws' st' s' -> E'. apply Forall_cons_1 in Hb as [_ Hb]. by apply (IH w). }
  destruct (may_send s) eqn:Em; cbn [negb].
  2:{ exists (Some (Err BrokenPipe)), (set_closed t), (poke st), s. split; [done|]. split; [done|]. split; [by right|]. split; [apply moved_refl|by right]. }
  destruct (can_send s) eqn:Ec.
  2:{ apply (loop_ends_turn deadline ws t (poke st) s s _ _ _ (fun ws => write_loop deadline ws b t)); [done|done|apply moved_refl|by left|done]. }
  destruct (send_law b s Ec) as (k & s1 & -> & Hk & Hpos & T1 & R1). assert (M1 : moved [] (take k b) s s1).
  { exists [], []. rewrite R1, T1, !app_nil_r. done. }
  destruct k as [|k].
  - apply (loop_ends_turn deadline ws t (poke (put (ts_handle t) s1 st)) s s1 _ _ _ (fun ws => write_loop deadline ws b t)); [done|apply lookup_insert_eq|done|by left|done].
  - exists (Some (Ok (S k))), t, (poke (put (ts_handle t) s1 st)), s1. split; [done|]. split; [apply lookup_insert_eq|]. split; [by left|]. split; [exact M1|]. split; [lia|done].
Qed.

(** What a caller may see of [t], and [t] afterwards: reads give between one byte
    and the room there was, writes take a prefix, only a stream that ended says so,
    and one that ended gives and takes nothing any more. *)
Definition op_allowed (o : Op K) (r : Res) (t t' : TcpStream) : Prop :=
  match o, r with
  | OpRead _ n _, Got c => ts_closed t = false /\ (0 < length c <= n)%nat /\ t' = t
  | OpRead _ _ _, EndOfStream => t' = set_closed t
  | OpWrite _ b _, Sent c => ts_closed t = false /\ c <> [] /\ c `prefix_of` b /\ t' = t
  | OpWrite _ _ _, OpFailed BrokenPipe => t' = set_closed t
  | OpRead _ _ _, OpFailed WouldBlock | OpWrite _ _ _, OpFailed WouldBlock => ts_closed t = false /\ t' = t
  | OpRead started _ ws, StillWaiting => t' = t /\ Forall (fun w => w_now w < deadline_of started (read_timeout t)) ws
  | OpWrite started _ ws, StillWaiting => t' = t /\ Forall (fun w => w_now w < deadline_of started (write_timeout t)) ws
  | OpShutdown, OpDone => t' = set_closed t
  | OpFlush, OpDone => t' = t
  | OpReadTimeout d, OpDone => t' = set_read_timeout d t
  | OpWriteTimeout d, OpDone => t' = set_write_timeout d t
  | _, _ => False
  end.

Lemma set_closed_id t : ts_closed t = true -> set_closed t = t.
Proof. destruct t; cbn. by intros ->. Qed.

Definition res_got (r : Res) : list Z := match r with Got c => c | _ => [] end.
Definition res_sent (r : Res) : list Z := match r with Sent c => c | _ => [] end.

Lemma op_step_spec o t st s : Forall (fun w => benign (ts_handle t) (w_env w)) (waits_of o) -> sockets st !! ts_handle t = Some s ->
  exists r t' st' s', op_step o t st = Val (r, t', st') /\ sockets st' !! ts_handle t = Some s' /\ moved (res_got r) (res_sent r) s s' /\
    op_allowed o r t t' /\ (r = EndOfStream -> ts_closed t = true \/ (rx_bytes s' = [] /\ may_recv s' = false)).
Proof.
  intros Hb E. destruct o as [started n ws|started b ws| | |d|d]; cbn [op_step waits_of] in *.
  4-6: eexists _, _, _, s; split; [reflexivity|]; split; [exact E|]; split; [apply moved_refl|done].
  - unfold stream_read. destruct (ts_closed t) eqn:Ecl.
    { exists EndOfStream, t, st, s. split_and!; [done|done|apply moved_refl|by cbn; rewrite set_closed_id|by left]. }
    destruct (tcp_read_loop_spec (deadline_of started (read_timeout t)) n t ws st s Hb E) as (r & t' & st' & s' & -> & Es & _ & Hr). cbn [mbind outcome_bind].
    destruct r as [[c|e]|]; [destruct c as [|x c]|..]; eexists _, t', st', s'; (split; [reflexivity|]); (split; [exact Es|]).
    + destruct Hr as (M & _ & Hr). cbn in Hr. destruct Hr as (-> & ? & ?). split_and!; [exact M|done|by right].
    + destruct Hr as (M & Hl & ->). split; [exact M|]. split; [|done]. split_and!; [done|cbn; lia|exact Hl|done].
    + destruct Hr as (M & -> & ->). done.
    + destruct Hr as (M & -> & F). done.
  - unfold stream_write. destruct (ts_closed t) eqn:Ecl.
    { exists (OpFailed BrokenPipe), t, st, s. split_and!; [done|done|apply moved_refl|by cbn; rewrite set_closed_id|done]. }
    destruct (tcp_write_loop_spec (deadline_of started (write_timeout t)) b t ws st s Hb E) as (r & t' & st' & s' & -> & Es & _ & Hr). cbn [mbind outcome_bind].
    destruct r as [[k|e]|]; eexists _, t', st', s'; (split; [reflexivity|]); (split; [exact Es|]).
    + destruct Hr as (M & Hk & ->). split; [exact M|]. split; [|done]. split_and!; [done| |apply prefix_take|done]. intros Hn%(f_equal length). rewrite length_take in Hn. cbn in Hn. lia.
    + destruct Hr as (M & [[-> ->]|(-> & -> & _)]); done.
    + destruct Hr as (M & -> & F). done.
  - unfold stream_shutdown, get_mut. rewrite E. cbn [mbind outcome_bind]. exists OpDone, (set_closed t), (poke (put (ts_handle t) (tcp_close s) st)), (tcp_close s).
    split; [done|]. split; [apply lookup_insert_eq|]. destruct (close_law s) as [R T]. split; [|done]. exists [], []. by rewrite R, T, !app_nil_r.
Qed.

(** All results of a session, of which a wait can only be the last. *)
Fixpoint allowed (os : list (Op K)) (rs : list Res) (t t' : TcpStream) : Prop :=
  match os, rs with
  | [], [] => t' = t
  | o :: os, r :: rs => exists t1, op_allowed o r t t1 /\ match r with StillWaiting => rs = [] /\ t' = t1 | _ => allowed os rs t1 t' end
  | _, _ => False
  end.

Lemma op_allowed_handle o r t t' : op_allowed o r t t' -> ts_handle t' = ts_handle t.
Proof. destruct o, r as [| | | |[]|]; cbn; intros; destruct_and?; subst; done. Qed.

Lemma allowed_handle : forall os rs t t', allowed os rs t t' -> ts_handle t' = ts_handle t.
Proof.
  induction os as [|o os IH]; intros [|r rs] t t' A; cbn in A; try done; [by subst|]. destruct A as (t1 & A1%op_allowed_handle & A2). rewrite <- A1.
  destruct r; [by apply (IH rs)..|by destruct A2 as [_ ->]].
Qed.

Lemma session_spec : forall os t st s, Forall (fun o => Forall (fun w => benign (ts_handle t) (w_env w)) (waits_of o)) os -> sockets st !! ts_handle t = Some s ->
  exists rs t' st' s', session os t st = Val (rs, t', st') /\ sockets st' !! ts_handle t = Some s' /\ moved (got rs) (sent rs) s s' /\ allowed os rs t t'.
Proof.
  induction os as [|o os IH]; intros t st s Hb E; cbn [session].
  { exists [], t, st, s. split_and!; [done|done|apply moved_refl|done]. }
  apply Forall_cons_1 in Hb as [Ho Hb]. destruct (op_step_spec o t st s Ho E) as (r & t1 & st1 & s1 & -> & E1 & M1 & A1 & _). cbn [mbind outcome_bind].
  pose proof (op_allowed_handle _ _ _ _ A1) as Eh. rewrite <- Eh in Hb, E1. destruct (IH t1 st1 s1 Hb E1) as (rs & t' & st' & s' & Er & Es & M & A).
  assert (Hgo : forall r', r' = r -> moved (got (r' :: rs)) (sent (r' :: rs)) s s').
  { intros ? ->. replace (got (r :: rs)) with (res_got r ++ got rs) by (by destruct r). replace (sent (r :: rs)) with (res_sent r ++ sent rs) by (by destruct r).
    by eapply moved_trans. }
  destruct r; rewrite ?Er; cbn [mbind outcome_bind].
  1-5: eexists _, t', st', s'; split; [reflexivity|]; rewrite <- Eh; split_and!; [exact Es|by apply Hgo|by exists t1].
  exists [StillWaiting], t1, st1, s1. rewrite <- Eh. split_and!; [done|exact E1|exact M1|by exists t1].
Qed.
End Bytes.

(** ** Dropping a stream *)

Section Drop.
Context {K : Type} `{SmolTcpLaws K}.

(** Other threads leave the socket in the set. *)
Definition keeps (h : nat) (f : StackInner K -> StackInner K) : Prop := forall st, is_Some (sockets st !! h) -> is_Some (sockets (f st) !! h).

Lemma wait_for_keeps done deadline h sl : forall ws st b st', Forall (fun w => keeps h (w_env w)) ws -> is_Some (sockets st !! h) ->
  wait_for done deadline ws h sl st = (b, st') -> is_Some (sockets st' !! h) /\ (b = true -> exists s, sockets st' !! h = Some s /\ done (tcp_state s) = true).
Proof.
  induction ws as [|w ws IH]; intros st b st' Hk Hin; cbn [wait_for]; destruct Hin as [s E]; rewrite E; destruct (done (tcp_state s)) eqn:Ed.
  1-3: intros [= <- <-]; split; [by eexists|]; first [done|eauto].
  apply Forall_cons_1 in Hk as [Hw Hk]. case_match; [intros [= <- <-]; split; [by eexists|done]|]. apply IH; [done|]. cbn. apply Hw. by eexists.
Qed.

Lemma remove_ok h (st : StackInner K) : is_Some (sockets st !! h) -> exists st', remove h st = Val st' /\ sockets st' !! h = None /\ handles st' = handles st.
Proof. intros [s E]. unfold remove. rewrite E. eexists. split; [done|]. split; [apply lookup_delete_eq|done]. Qed.

(** Whatever happens during the two waits, the drop ends and the socket is out of
    the set. *)
Lemma drop_stream_spec now now2 ws ws2 t st :
  Forall (fun w => keeps (ts_handle t) (w_env w)) (ws ++ ws2) -> is_Some (sockets st !! ts_handle t) ->
  exists r st', drop_stream now now2 ws ws2 t st = Val (r, st') /\ sockets st' !! ts_handle t = None.
Proof.
  intros [Hk1 Hk2]%Forall_app Hin.
  assert (exists t1 st1, (if ts_closed t then Val (t, st) else stream_shutdown t st) = Val (t1, st1) /\ ts_handle t1 = ts_handle t /\ is_Some (sockets st1 !! ts_handle t))
    as (t1 & st1 & E1 & Eh & Hin1).
  { destruct (ts_closed t); [by exists t, st|]. destruct Hin as [s E]. unfold stream_shutdown, get_mut. rewrite E. eexists _, _. split; [done|]. split; [done|]. cbn. rewrite lookup_insert_eq. done. }
  unfold drop_stream. rewrite E1. cbn [mbind outcome_bind]. rewrite Eh. unfold wait_for_drain.
  destruct (wait_for drained_state _ ws _ _ st1) as [drained st2] eqn:E2. destruct (wait_for_keeps _ _ _ _ _ _ _ _ Hk1 Hin1 E2) as [Hin2 _].
  assert (Hin3 : is_Some (sockets (unregister (ts_handle t) st2) !! ts_handle t)) by done.
  destruct drained; [destruct (remove_ok _ _ Hin3) as (st3 & -> & Hn & _); by eexists _, _|].
  destruct Hin3 as [s Es]. unfold get_mut. rewrite Es. cbn [mbind outcome_bind]. case_bool_decide.
  { destruct (remove_ok (ts_handle t) (unregister (ts_handle t) st2)) as (st3 & -> & Hn & _); [by eexists|]. by eexists _, _. }
  destruct (wait_for_rst_sent _ ws2 _ _ _) as [b st3] eqn:E3. eapply wait_for_keeps in E3 as [Hin3 _]; [|done|cbn; rewrite lookup_insert_eq; done].
  destruct (remove_ok _ _ Hin3) as (st4 & -> & Hn & _). by eexists _, _.
Qed.

(** [abort] closes the socket at once, so the wait for the reset is over before
    the poll thread can have sent it: nothing runs between the two. *)
Lemma reset_not_awaited now2 ws2 h sl s (st : StackInner K) : tcp_state (tcp_abort s) = Closed ->
  wait_for_rst_sent now2 ws2 h sl (poke (put h (tcp_abort s) st)) = (true, poke (put h (tcp_abort s) st)).
Proof.
  intros Ha. unfold wait_for_rst_sent. destruct ws2; cbn [wait_for poke put set_sockets sockets]; rewrite lookup_insert_eq; by rewrite bool_decide_eq_true_2.
Qed.

(** A connection to an IPv6 address fails and its socket stays in the set. *)
Lemma connect_v6_leaks started ws ip port fl sc (st : StackInner K) : exists st', connect started ws (SAV6 ip port fl sc) st = Val (Some (Err Unsupported), st') /\
  sockets st' = <[free_handle (sockets st) := tcp_new]> (sockets st) /\ size (sockets st') = S (size (sockets st)) /\ handles st' = handles st.
Proof.
  eexists. split; [reflexivity|]. cbn. split_and!; [done| |done]. apply map_size_insert_None, free_law.
Qed.
End Drop.

(** After the counter wraps, the first port is handed out twice in a row. *)
Lemma port_given_twice : let '(p1, n1) := alloc_local_port 0 in let '(p2, _) := alloc_local_port n1 in p1 = p2.
Proof. reflexivity. Qed.

(** A port is never below the dynamic range. *)
Lemma local_port_range next : 0 <= next < 2 ^ 16 -> 49152 <= (alloc_local_port next).1 < 2 ^ 16 /\ 0 <= (alloc_local_port next).2 < 2 ^ 16.
Proof. intros Hn. cbn. split; [lia|]. case_match; [lia|]. apply Z.mod_pos_bound. lia. Qed.

(** ** A small TCP *)

Module Toy.
Record Sock : Type := mkSock { k_state : TcpState; k_peer : option (Z * Z); k_rx : list Z; k_tx : list Z }.
Definition k_may_recv (s : Sock) : bool := bool_decide (k_state s = Established) || negb (bool_decide (k_rx s = [])).
Definition k_may_send (s : Sock) : bool := match k_state s with Established | CloseWait => true | _ => false end.
Definition k_can_send (s : Sock) : bool := k_may_send s && (length (k_tx s) <? 8)%nat.
Definition k_send (b : list Z) (s : Sock) : nat * Sock :=
  let k := Nat.min (length b) (8 - length (k_tx s)) in (k, mkSock (k_state s) (k_peer s) (k_rx s) (k_tx s ++ take k b)).
Definition k_close (s : Sock) : Sock :=
  mkSock (match k_state s with Established | SynReceived => FinWait1 | CloseWait => LastAck | Listen | SynSent => Closed | x => x end) (k_peer s) (k_rx s) (k_tx s).

#[global] Instance smol : SmolTcp Sock := {
  tcp_new := mkSock Closed None [] [];
  tcp_listen port s := if port =? 0 then None else Some (mkSock Listen None [] []);
  tcp_connect remote _ _ := Some (mkSock SynSent (Some remote) [] []);
  tcp_state := k_state; remote_endpoint := k_peer; rx_bytes := k_rx; tx_bytes := k_tx;
  may_recv := k_may_recv; can_recv s := negb (bool_decide (k_rx s = [])); may_send := k_may_send; can_send := k_can_send;
  is_active s := match k_state s with Closed | TimeWait | Listen => false | _ => true end;
  recv_slice n s := if k_may_recv s then Some (take n (k_rx s), mkSock (k_state s) (k_peer s) (drop n (k_rx s)) (k_tx s)) else None;
  send_slice b s := if k_may_send s then Some (k_send b s) else None;
  tcp_close := k_close; tcp_abort s := mkSock Closed (k_peer s) [] [];
  free_handle m := fresh (dom m)
}.
#[global] Instance smol_laws : SmolTcpLaws Sock.
Proof.
  split; cbn -[Nat.sub Nat.min].
  - intros port Hp. eexists. rewrite (proj2 (Z.eqb_neq _ _) Hp). done.
  - intros n s Hrx. unfold k_may_recv. rewrite (bool_decide_eq_false_2 _ Hrx), orb_true_r. eexists. done.
  - intros b s Hc. unfold k_can_send in Hc. apply andb_prop in Hc as [Hm Hl%Nat.ltb_lt]. rewrite Hm. eexists _, _. split; [done|].
    split_and!; [lia| |done|done]. destruct b; [done|]. intros _. cbn [length]. lia.
  - done.
  - intros m. apply not_elem_of_dom, is_fresh.
Qed.

(** Two segments for the first socket, with a turn of the poll thread each. *)
Definition peer : Z * Z := (1, 1000).
Definition segment (b : list Z) (h : nat) (s : Sock) : Sock := if decide (h = 0%nat) then mkSock Established (Some peer) (k_rx s ++ b) (k_tx s) else s.
Definition turn (b : list Z) : StackInner Sock -> StackInner Sock := poll_turn (map_imap (fun h s => Some (segment b h s))) map_to_list.
Definition one_conn : StackInner Sock := (register 0 (mkInner {[ 0%nat := mkSock Established (Some peer) [] [] ]} ∅ ∅ 0 false 49152)).2.
Definition conn : TcpStream := from_listener_handle (0%nat, 0%nat) peer.
End Toy.

(** The reader takes what came, clears the event and waits; the next bytes come
    before another turn saw the queue empty, and nothing wakes the reader. *)
Lemma wakeup_lost :
  let st := Toy.turn [7] Toy.one_conn in
  match stream_read 0 [] 8 Toy.conn st with
  | Val (Some (Ok c), t, st) =>
      let st := Toy.turn [8] (drain_event (ts_slot t) st) in
      c = [7] /\ rx_bytes <$> sockets st !! 0%nat = Some [8] /\ readable ∘ event <$> slots st !! 0%nat = Some false
  | _ => False
  end.
Proof. vm_compute. done. Qed.

(** A write that fails because the peer's reset closed the sending half makes the
    bytes still queued unreadable: the next read reports the end. *)
Lemma broken_write_hides_bytes :
  let st := put 0 (Toy.mkSock LastAck (Some Toy.peer) [5; 6] []) Toy.one_conn in
  (o ← session [OpWrite 0 [1] []; OpRead 0 8 []] Toy.conn st; Val o.1.1) = Val [OpFailed BrokenPipe; EndOfStream] /\
  (o ← session [OpRead 0 8 []] Toy.conn st; Val o.1.1) = Val [Got [5; 6]].
Proof. split; vm_compute; done. Qed.

(** * Properties *)

(** C11: Whatever the threads of the program do with listeners and streams, in
    whatever order they get the lock of the socket set, no operation looks up a
    socket that is gone: every run ends without a panic in a state where each
    socket of the set has exactly one owner (a pool, a stream, or a connect that
    failed at once), each event slot belongs to the socket it was registered for,
    and each listener has as many sockets as it was bound with.  In each such
    state healing a listener leaves only sockets that can still serve in its pool
    and touches no socket of anyone else. *)
Theorem netstack_handles_accounted {K} `{SmolTcpLaws K} order next (es : list (Event K)) :
  exists y, sys_run order (empty_sys next) es = Val y /\ sys_ok y (foldl sizes_step [] es) /\
    forall i l, y_listeners y !! i = Some l ->
      exists pool' st', heal_pool (port l) (pool l) (y_st y) = Val (pool', st') /\ Forall (serving st') pool' /\ length pool' = length (pool l) /\
        same_sockets ((delete i (y_listeners y) ≫= pool).*1 ++ (ts_handle ∘ fst <$> y_streams y) ++ y_leaked y) (y_st y) st'.
Proof.
  destruct (sys_run_ok order es (empty_sys next) [] (empty_ok next)) as (y & E & Hok). exists y. split; [done|]. split; [done|].
  intros i l Hi. destruct (heal_ok y _ i l Hok Hi) as (pool' & st' & E' & Hserv & Hsame & Hok'). exists pool', st'. split_and!; [done|done| |done].
  destruct (sized_at _ _ _ _ (ok_sized _ _ Hok) Hi) as [_ Hn]. pose proof (ok_sized _ _ Hok') as HS'. cbn in HS'.
  destruct (sized_at _ _ i (mkListener pool' (port l)) HS') as [_ Hn']; [apply list_lookup_insert_eq; by eapply lookup_lt_Some|]. cbn in Hn'. congruence.
Qed.

(** A listener of two, a peer that connects, is accepted and dropped, and a connection
    out that fails. *)
Definition toy_events : list (Event Toy.Sock) :=
  [EBind 80 2; EPoll (Toy.segment []); EHeal 0; EScan 0; EWrite 0 [1; 2]; EShutdown 0; EUnregister 0; EConnect (SAV6 1 443 0 0); ERemove 0; EHeal 0].
Lemma netstack_handles_accounted_witness : exists y, sys_run map_to_list (empty_sys 49152) toy_events = Val y /\ sys_ok y [2%nat] /\ y_streams y = [] /\ length (y_leaked y) = 1%nat.
Proof.
  destruct (netstack_handles_accounted map_to_list 49152 toy_events) as (y & E & Hok & _). exists y. split; [exact E|]. split; [exact Hok|].
  assert (Eo : (y ← sys_run map_to_list (empty_sys 49152) toy_events; Val (y_streams y, length (y_leaked y))) = Val ([], 1%nat)) by (vm_compute; reflexivity).
  rewrite E in Eo. cbn in Eo. injection Eo as E1 E2. exact (conj E1 E2).
Defined.


Lemma segment_benign b : benign 0 (Toy.turn b).
Proof.
  intros st s E. unfold Toy.turn, poll_turn. cbn [sockets].
  assert (Hn : forall ps st, sockets (foldl (@notify_one Toy.Sock Toy.smol) st ps) = sockets st) by (induction ps as [|q ps IH]; intros st0; [done|]; cbn; by rewrite IH).
  unfold notify_handles. rewrite Hn. cbn. rewrite map_lookup_imap, E. cbn. eexists. split; [done|]. exists b, []. by rewrite !app_nil_r.
Qed.

(** Bytes that come during the wait of a read, in two reads; a write between. *)
Definition toy_session : list (Op Toy.Sock) := [OpRead 0 2 [mkWait 5 (Toy.turn [4; 5; 6])]; OpWrite 6 [9; 9] []; OpRead 7 8 []].
