(* ===== verification/Proxy.v ===== *)
(** The demo's HTTP handler on the tailnet (tailscale-vita-demo/src/handler.rs and
    its copy in tailscale-vita-rt/src/handler.rs): a greeting for everyone, and a
    proxy from [/api/...] to the LocalAPI on the loopback interface. *)

From S2P Require Import Prelude NetTypes Text Keys Noise Taildrop LocalApi ConfigEdit Dashboard.
#[local] Open Scope Z_scope.

(** ** handler.rs *)

#[local] Abbreviation crlf := [13; 10].

Definition DEFAULT_RESPONSE : list Z :=
  bs "HTTP/1.1 200 OK" ++ crlf ++ bs "Content-Type: text/plain" ++ crlf ++ bs "Content-Length: 16" ++ crlf ++ bs "Connection: close" ++ crlf ++ crlf ++
  bs "hello from vita" ++ [10].
Definition MAX_REQ_HEAD : nat := Z.to_nat (8 * 1024).
Definition PROXY_MAX_RESPONSE : nat := Z.to_nat (256 * 1024).

(** The read loop of [serve]: [None] is a failure.  A read takes a byte at least. *)
Fixpoint serve_head (fuel : nat) (head : list Z) (src : list Readable) : option (list Z) :=
  if (length head <? MAX_REQ_HEAD)%nat then
    match fuel with
    | O => Some head
    | S f =>
        match tcp_read 256 src with
        | (Ok [], _) => Some head
        | (Ok c, src) => match find_crlfcrlf (head ++ c) with Some _ => Some (head ++ c) | None => serve_head f (head ++ c) src end
        | (Err WouldBlock, _) => Some head
        | (Err _, _) => None
        end
    end
  else Some head.

(** Method and rest of the path when the first line asks for [/api/]. *)
Definition api_path (head : list Z) : option (list Z * list Z) :=
  let first_line := List.hd [] (split_on 10 head) in
  if utf8_valid first_line then
    match trim_start first_line with
    | [] => None
    | s =>
        let '(method, more) := take_word s in
        match trim_start more with
        | [] => None
        | s => rest ← strip_prefix (bs "/api/") (take_word s).1; Some (method, rest)
        end
    end
  else None.

Definition exposed : list (list Z) := [bs "status"; bs "whois"; bs "health"; bs "netmap"; bs "ping"].
Definition upstream_req (method rest : list Z) : list Z :=
  method ++ bs " /localapi/v0/" ++ rest ++ bs " HTTP/1.1" ++ crlf ++ bs "Host: localhost:41112" ++ crlf ++ bs "Connection: close" ++ crlf ++
  bs "Content-Length: 0" ++ crlf ++ crlf.

(** The loopback connection: how connecting, the two timeouts and the write go
    (the text of the error, with what failed before it for the last two), and what can be read after a request. *)
Record Loopback : Type := mkLoopback {
  lo_connect : result (list Z) unit; lo_timeouts : result (list Z) unit; lo_write : result (list Z) unit; lo_reply : list Z -> list Readable;
  lo_error : NetErr -> list Z
}.

(** Reading the answer to its end. *)
Fixpoint proxy_loop (err : NetErr -> list Z) (fuel : nat) (response : list Z) (src : list Readable) : result (list Z) (list Z) :=
  if (PROXY_MAX_RESPONSE <=? length response)%nat then Err (bs "upstream response too large")
  else match fuel with
       | O => Err (bs "upstream response too large")
       | S f =>
           match tcp_read 1024 src with
           | (Ok [], _) => Ok response
           | (Ok c, src) => proxy_loop err f (response ++ c) src
           | (Err WouldBlock, _) => Err (bs "read timeout: " ++ err WouldBlock)
           | (Err e, _) => Err (bs "read: " ++ err e)
           end
       end.

(** The request that goes to the LocalAPI, if any, and the answer. *)
Definition proxy_to_localapi (lo : Loopback) (method rest : list Z) : option (list Z) * result (list Z) (list Z) :=
  if negb (bool_decide (method = bs "GET")) then (None, Err (bs "only read-only GET LocalAPI proxying is allowed"))
  else
    let path := List.hd [] (split_on 63 rest) in
    if negb (bool_decide (path ∈ exposed)) then (None, Err (bs "LocalAPI endpoint is not exposed through the demo proxy"))
    else
      let req := upstream_req method rest in
      match lo_connect lo, lo_timeouts lo with
      | Err e, _ => (None, Err (bs "connect: " ++ e))
      | _, Err e => (None, Err e)
      | Ok _, Ok _ =>
          (Some req, match lo_write lo with
                     | Err e => Err e
                     | Ok _ => proxy_loop (lo_error lo) (S PROXY_MAX_RESPONSE) [] (lo_reply lo req)
                     end)
      end.

Definition proxy_error_response (err : list Z) : list Z :=
  let q := [34] in
  let body := bs "{" ++ q ++ bs "error" ++ q ++ bs ":" ++ q ++ bs "proxy: " ++ err ++ q ++ bs "}" ++ [10] in
  bs "HTTP/1.1 502 Bad Gateway" ++ crlf ++ bs "Content-Type: application/json" ++ crlf ++ bs "Content-Length: " ++ dec (Z.of_nat (length body)) ++ crlf ++
  bs "Connection: close" ++ crlf ++ crlf ++ body.

(** One connection: the request passed on, and what is sent back. *)
Definition serve (lo : Loopback) (src : list Readable) : option (list Z) * option (list Z) :=
  match serve_head (S MAX_REQ_HEAD) [] src with
  | None => (None, None)
  | Some head =>
      match api_path head with
      | Some (method, rest) =>
          let '(req, r) := proxy_to_localapi lo method rest in
          (req, Some (match r with Ok bytes => bytes | Err e => proxy_error_response e end))
      | None => (None, Some DEFAULT_RESPONSE)
      end
  end.

(** The plugin's copy has no proxy. *)
Definition serve_plain (src : list Readable) : option (list Z) :=
  match serve_head (S MAX_REQ_HEAD) [] src with None => None | Some _ => Some DEFAULT_RESPONSE end.

(** * Lemmas *)

Lemma max_req_head_val : Z.of_nat MAX_REQ_HEAD = 8192.
Proof. unfold MAX_REQ_HEAD. lia. Qed.
Lemma proxy_max_val : Z.of_nat PROXY_MAX_RESPONSE = 262144.
Proof. unfold PROXY_MAX_RESPONSE. lia. Qed.
#[global] Opaque MAX_REQ_HEAD PROXY_MAX_RESPONSE.

(** ** Words *)

Lemma starts_space_head c r : starts_space (c :: r) = false -> is_space c = false.
Proof.
  unfold starts_space. intros Hs%Nat.ltb_ge. destruct (is_space c) eqn:E; [|done]. exfalso.
  unfold trim_start in Hs. cbn [trim_with] in Hs. rewrite E in Hs. destruct (indent_spaces r) as (ind & _ & Er).
  apply (f_equal length) in Er. rewrite length_app in Er. unfold trim_start in Er. cbn [length] in Hs. lia.
Qed.

Lemma take_word_plain s : Forall (fun c => is_space c = false) (take_word s).1.
Proof.
  induction s as [|c r IH]; [constructor|]. cbn [take_word]. destruct (starts_space (c :: r)) eqn:E; [constructor|].
  destruct (take_word r) as [w rest]. constructor; [by eapply starts_space_head|exact IH].
Qed.

Lemma api_path_plain head m rest : api_path head = Some (m, rest) -> Forall (fun c => is_space c = false) rest.
Proof.
  unfold api_path. destruct (utf8_valid _); [|done]. destruct (trim_start _); [done|]. destruct (take_word _) as [w more]. destruct (trim_start more) as [|c s]; [done|].
  pose proof (take_word_plain (c :: s)) as Hp. destruct (take_word (c :: s)) as [t ?]. cbn [fst] in *. unfold strip_prefix. case_decide; [|done].
  intros [= _ <-]. by apply Forall_drop.
Qed.

Lemma solid_no_space c s : solid c -> starts_space (c :: s) = false.
Proof. intros Hc. unfold starts_space. rewrite trim_start_solid by done. apply Nat.ltb_irrefl. Qed.

Lemma take_word_solid w s : Forall solid w -> take_word (w ++ 32 :: s) = (w, 32 :: s).
Proof.
  induction 1 as [|c w Hc Hw IH]; cbn [app take_word].
  - assert (starts_space (32 :: s) = true) as ->; [|done]. destruct (starts_space (32 :: s)) eqn:E; [done|]. by apply starts_space_head in E.
  - rewrite solid_no_space by done. by rewrite IH.
Qed.

(** ** What the proxy asks for *)

Lemma split_on_head c s : exists q, s = List.hd [] (split_on c s) ++ q /\ (q = [] \/ exists q', q = c :: q').
Proof.
  induction s as [|x s (q & E & Hq)]; cbn [split_on]; [by exists []; split; [|left]|]. pose proof (split_on_ne c s) as Hn.
  destruct (split_on c s) as [|p ps]; [done|]. cbn [List.hd] in E. destruct (Z.eqb_spec x c) as [->|].
  - cbn [List.hd app]. exists (c :: s). split; [done|right; by exists s].
  - cbn [List.hd app]. exists q. split; [by f_equal|done].
Qed.

(** An endpoint that is exposed, with or without a query. *)
Definition read_only (rest : list Z) : Prop := exists ep q, ep ∈ exposed /\ (rest = ep \/ rest = ep ++ 63 :: q).

Lemma proxy_request lo m rest req r : proxy_to_localapi lo m rest = (Some req, r) -> m = bs "GET" /\ read_only rest /\ req = upstream_req (bs "GET") rest.
Proof.
  unfold proxy_to_localapi. case_bool_decide as Hm; [|done]. cbn [negb]. case_bool_decide as He; [|done]. cbn [negb]. subst m.
  destruct (lo_connect lo), (lo_timeouts lo); try done. intros [= <- _]. split; [done|]. split; [|done].
  destruct (split_on_head 63 rest) as (q & E & [->|(q' & ->)]); exists (List.hd [] (split_on 63 rest)).
  - exists []. split; [done|left]. by rewrite app_nil_r in E.
  - exists q'. split; [done|by right].
Qed.

(** ** The LocalAPI's side *)

Lemma tcp_read_data n src c src' : tcp_read n src = (Ok c, src') -> data src = c ++ data src'.
Proof.
  destruct src as [|[d| | |] src]; cbn [tcp_read]; try done; [|by intros [= <- <-]].
  case_decide; intros [= <- <-]; unfold data; cbn [map concat]; [done|]. by rewrite app_assoc, take_drop.
Qed.

Lemma head_loop_prefix f : forall buf src e buf' src', head_loop f buf src = (Ok (e, buf'), src') ->
  buf' ++ data src' = buf ++ data src /\ (e + 4 <= length buf')%nat.
Proof.
  induction f as [|f IH]; intros buf src e buf' src'; cbn [head_loop]; [by case_match|].
  destruct (MAX_REQUEST_BYTES <=? length buf)%nat; [done|]. destruct (tcp_read 512 src) as [[c|[]] src1] eqn:Er; try done.
  apply tcp_read_data in Er. destruct c as [|x c]; [done|]. cbv zeta.
  destruct (find_crlfcrlf (drop _ _)) as [idx|] eqn:Ei.
  - intros [= <- <- <-]. rewrite Er, app_assoc. split; [done|]. apply find_crlf_some in Ei as [Ei _]. apply (f_equal length) in Ei.
    rewrite length_take, !length_drop in Ei. cbn [length] in Ei. lia.
  - intros [E1 E2]%IH. by rewrite E1, Er, app_assoc.
Qed.

(** httparse: the method of a request that begins with a letter is what comes
    before the first space. *)
Definition method_law (parse_head : list Z -> HeadParse) : Prop := forall c head m t h, 65 <= c <= 90 -> parse_head (c :: head) = Complete (Some m) t h ->
  exists r, c :: head = m ++ 32 :: r /\ 32 ∉ m.

Lemma request_method parse_head src req rest : method_law parse_head -> read_request parse_head src = Ok req -> data src = bs "GET " ++ rest -> rq_method req = bs "GET".
Proof.
  intros Hlaw Hr Hd. unfold read_request in Hr. destruct (head_loop _ [] src) as [[[e buf]|] src1] eqn:Eh; [|done].
  apply head_loop_prefix in Eh as [Ed Hlen]. cbn [app] in Ed. rewrite Hd in Ed.
  destruct (app_prefix (bs "GET ") rest buf (data src1) (eq_sym Ed)) as (t & -> & _); [change (length (bs "GET ")) with 4%nat; lia|].
  assert (Et : exists u, take (e + 4) (bs "GET " ++ t) = bs "GET " ++ u).
  { exists (take e t). rewrite take_app_ge by (change (length (bs "GET ")) with 4%nat; lia). change (length (bs "GET ")) with 4%nat. by replace (e + 4 - 4)%nat with e by lia. }
  destruct Et as [u Eu]. rewrite Eu in Hr. destruct (parse_head (bs "GET " ++ u)) as [| |m t' h] eqn:Ep; [done|done|]. destruct m as [m|]; [|done]. cbn [mbind result_bind] in Hr.
  destruct t' as [t'|]; [|done]. cbn [mbind result_bind] in Hr. destruct (match split_once 63 t' with Some x => x | None => (t', []) end). destruct (read_body _ _ _ _); [|done]. cbn [mbind result_bind] in Hr.
  injection Hr as <-. cbn [rq_method]. destruct (Hlaw 71 (bs "ET " ++ u) m (Some t') h ltac:(lia) Ep) as (r & Er & Hm).
  destruct m as [|x1 [|x2 [|x3 [|x4 m]]]]; cbn in Er; injection Er; intros; subst; try done. exfalso. apply Hm. by do 3 right; left.
Qed.

(** ** A request that is proxied *)

Lemma serve_head_spec head f : forall buf src, is_head head -> (length head <= MAX_REQ_HEAD)%nat -> buf ++ data src = head -> (length buf < length head)%nat ->
  (MAX_REQ_HEAD - length buf < f)%nat -> ready src -> serve_head f buf src = Some head.
Proof.
  induction f as [|f IH]; intros buf src Hh Hmax Hd Hlt Hf Hr; [lia|]. cbn [serve_head]. rewrite (proj2 (Nat.ltb_lt _ _)) by lia.
  destruct (tcp_read_ready 256 src) as (c & src' & -> & Hc & _ & Hdata & Hr'); [lia|done| |].
  { intros E. rewrite E, app_nil_r in Hd. subst. lia. }
  destruct c as [|x c]; [done|]. set (cc := x :: c) in *.
  assert (Hd' : (buf ++ cc) ++ data src' = head) by (by rewrite <- app_assoc, <- Hdata). destruct Hh as (i & Hi & Hlen).
  destruct (find_crlfcrlf (buf ++ cc)) as [j|] eqn:Ej.
  - pose proof (find_crlf_app _ _ (data src') Ej) as E2. rewrite Hd', Hi in E2. injection E2 as ->. apply find_crlf_some in Ej as [Ej _].
    apply (f_equal length) in Ej. rewrite length_take, length_drop in Ej. cbn [length] in Ej. rewrite <- Hd', length_app in Hlen.
    destruct (data src') eqn:Ed; [by rewrite <- Hd', app_nil_r|cbn in Hlen; lia].
  - apply IH; try done; [by exists i| |rewrite length_app; unfold cc; cbn [length]; lia].
    assert (El : length head = (length (buf ++ cc) + length (data src'))%nat) by (rewrite <- Hd'; apply length_app).
    destruct (data src') eqn:Ed; [|rewrite El; cbn [length]; lia]. rewrite app_nil_r in Hd'. rewrite Hd' in Ej. congruence.
Qed.

Lemma proxy_loop_spec err out f : forall acc pieces, live pieces -> quiets pieces = 0%nat -> acc ++ data pieces = out ->
  (length out < PROXY_MAX_RESPONSE)%nat -> (length out - length acc < f)%nat -> proxy_loop err f acc (pieces ++ [Closed]) = Ok out.
Proof.
  induction f as [|f IH]; intros acc pieces Hl Hq Hd Hmax Hf; [lia|]. assert (Ha : (length acc <= length out)%nat) by (rewrite <- Hd, length_app; lia).
  cbn [proxy_loop]. rewrite (proj2 (Nat.leb_gt _ _)) by lia. destruct pieces as [|p pieces]; [cbn in *; by rewrite app_nil_r in Hd; subst|].
  apply Forall_cons_1 in Hl as [Hp Hl]. destruct p as [c| | |]; try done. cbn [app tcp_read]. unfold data in Hd. cbn [map concat] in Hd. destruct c as [|x c]; [done|]. set (cc := x :: c) in *.
  pose proof (f_equal length Hd) as El. rewrite !length_app in El. assert (Hcc : (0 < length cc)%nat) by (cbn; lia). case_decide as Hn.
  - change (proxy_loop err f (acc ++ cc) (pieces ++ [Closed]) = Ok out). apply IH; [done|done|by rewrite <- app_assoc|done|].
    rewrite length_app. lia.
  - assert (exists y t, take 1024 cc = y :: t) as (y & t & Et) by (unfold cc; cbn [take]; eauto). rewrite Et.
    change (proxy_loop err f (acc ++ y :: t) ((Data (drop 1024 cc) :: pieces) ++ [Closed]) = Ok out). rewrite <- Et. apply IH; [|done| |done|].
    + constructor; [|done]. intros E%(f_equal length). rewrite length_drop in E. cbn [length] in E. lia.
    + unfold data. cbn [map concat]. rewrite <- app_assoc, (app_assoc (take 1024 cc)), take_drop. done.
    + rewrite length_app, length_take. lia.
Qed.

Lemma solid_bs (s : list Z) : forallb (fun c => (33 <=? c) && (c <=? 126)) s = true -> Forall solid s.
Proof.
  rewrite forallb_forall, list.Forall_forall. intros Hs c Hc%list_elem_of_In%Hs. split; [lia|]. unfold is_space. lia.
Qed.
Lemma ascii_solid c : solid c -> ascii c.
Proof. intros [Hc _]. unfold ascii. lia. Qed.

Lemma first_line_app c a b : c ∉ a -> List.hd [] (split_on c (a ++ c :: b)) = a.
Proof. intros Ha. by rewrite split_on_app. Qed.

Lemma api_path_get rest more : Forall solid rest -> api_path (bs "GET /api/" ++ rest ++ bs " HTTP/1.1" ++ [13; 10] ++ more) = Some (bs "GET", rest).
Proof.
  intros Hr. unfold api_path.
  replace (bs "GET /api/" ++ rest ++ bs " HTTP/1.1" ++ [13; 10] ++ more) with ((bs "GET /api/" ++ rest ++ bs " HTTP/1.1" ++ [13]) ++ 10 :: more) by (by rewrite <- !app_assoc).
  rewrite first_line_app.
  2:{ rewrite !not_elem_of_app. split_and!; [apply (bool_decide_unpack _); vm_compute; done| |apply (bool_decide_unpack _); vm_compute; done|apply (bool_decide_unpack _); vm_compute; done].
      intros Hin. rewrite list.Forall_forall in Hr. apply Hr in Hin as [_ Hin]. done. }
  rewrite utf8_ascii.
  2:{ rewrite !Forall_app. split_and!; [by apply (bool_decide_unpack _); vm_compute| |by apply (bool_decide_unpack _); vm_compute|by apply (bool_decide_unpack _); vm_compute].
      eapply list.Forall_impl; [exact Hr|apply ascii_solid]. }
  change (bs "GET /api/" ++ rest ++ bs " HTTP/1.1" ++ [13]) with (71 :: bs "ET /api/" ++ rest ++ bs " HTTP/1.1" ++ [13]).
  rewrite trim_start_solid by (split; [lia|done]).
  change (71 :: bs "ET /api/" ++ rest ++ bs " HTTP/1.1" ++ [13]) with (bs "GET" ++ 32 :: (bs "/api/" ++ rest ++ 32 :: bs "HTTP/1.1" ++ [13])).
  rewrite take_word_solid by (by apply solid_bs).
  assert (E : trim_start (32 :: (bs "/api/" ++ rest ++ 32 :: bs "HTTP/1.1" ++ [13])) = bs "/api/" ++ rest ++ 32 :: bs "HTTP/1.1" ++ [13]).
  { unfold trim_start. cbn [trim_with is_space]. change (is_space 32) with true. cbn beta iota. apply (trim_start_solid 47). split; [lia|done]. }
  rewrite E. change (bs "/api/" ++ rest ++ 32 :: bs "HTTP/1.1" ++ [13]) with (47 :: (bs "api/" ++ rest ++ 32 :: bs "HTTP/1.1" ++ [13])). cbv beta iota.
  change (47 :: (bs "api/" ++ rest ++ 32 :: bs "HTTP/1.1" ++ [13])) with (bs "/api/" ++ (rest ++ 32 :: bs "HTTP/1.1" ++ [13])).
  rewrite app_assoc, take_word_solid by (apply Forall_app; split; [by apply solid_bs|done]). cbn [fst]. by rewrite strip_prefix_app.
Qed.

(** * Properties *)

(** C22: the demo's port gives a tailnet peer no control over the node.  Whatever
    bytes a peer sends, a request that reaches the LocalAPI is a GET of one of the
    five read-only endpoints with nothing of the peer's but a query without white
    space, so no line or header can be smuggled in, and the LocalAPI sends no
    signal for it, however its bytes arrive.  A proper GET of such an endpoint is
    passed on, and what the LocalAPI answers comes back as it is. *)
Theorem demo_proxy_read_only lo src :
  (forall req resp, serve lo src = (Some req, resp) ->
    exists rest, req = upstream_req (bs "GET") rest /\ read_only rest /\ Forall (fun c => is_space c = false) rest /\
      forall to_vec values parse_head now src' ctx, method_law parse_head -> data src' = req -> (handle_one to_vec values parse_head now src' ctx).1 = []) /\
  (forall rest more pieces, let head := bs "GET /api/" ++ rest ++ bs " HTTP/1.1" ++ [13; 10] ++ more in
    read_only rest -> Forall solid rest -> is_head head -> (length head <= MAX_REQ_HEAD)%nat -> ready src -> data src = head ->
    lo_connect lo = Ok tt -> lo_timeouts lo = Ok tt -> lo_write lo = Ok tt -> lo_reply lo (upstream_req (bs "GET") rest) = pieces ++ [Closed] ->
    ready pieces -> (length (data pieces) < PROXY_MAX_RESPONSE)%nat ->
    serve lo src = (Some (upstream_req (bs "GET") rest), Some (data pieces))).
Proof.
  split.
  - intros req resp Hs. unfold serve in Hs. destruct (serve_head _ _ _) as [head|]; [|done]. destruct (api_path head) as [[m rest]|] eqn:Ea; [|done].
    destruct (proxy_to_localapi lo m rest) as [q r] eqn:Ep. injection Hs as -> _. apply proxy_request in Ep as (-> & Hro & ->). exists rest.
    split; [done|]. split; [done|]. split; [by eapply api_path_plain|]. intros to_vec values parse_head now src' ctx Hlaw Hd. unfold handle_one.
    destruct (read_request parse_head src') as [req|[]] eqn:Er; try done. rewrite (surjective_pairing (dispatch to_vec values now req ctx)). cbn [fst]. apply dispatch_get.
    rewrite (request_method parse_head src' req (drop 4 (upstream_req (bs "GET") rest)) Hlaw Er); [done|]. by rewrite Hd.
  - intros rest more pieces head Hro Hsol Hh Hlen Hr Hd Hc Ht Hw Hrep [Hl Hq] Hmax. unfold serve.
    assert (Hpos : (0 < length head)%nat) by (destruct Hh as (i & _ & ->); lia).
    rewrite (serve_head_spec head) by (first [done|cbn [length]; lia]). unfold head. rewrite api_path_get by done. unfold proxy_to_localapi. rewrite bool_decide_eq_true_2 by done. cbn [negb].
    assert (He : List.hd [] (split_on 63 rest) ∈ exposed).
    { destruct Hro as (ep & q & Hep & Hrest). assert (Hnq : 63 ∉ ep).
      { unfold exposed in Hep. rewrite !elem_of_cons, elem_of_nil in Hep. destruct Hep as [->|[->|[->|[->|[->|[]]]]]]; apply (bool_decide_unpack _); vm_compute; done. }
      destruct Hrest as [->| ->]; [|by rewrite first_line_app].
      assert (E : List.hd [] (split_on 63 ep) = ep); [|by rewrite E]. clear - Hnq. destruct (split_on_head 63 ep) as (q & E & [->|(q' & ->)]); [by rewrite app_nil_r in E|].
      exfalso. apply Hnq. rewrite E, elem_of_app, elem_of_cons. by right; left. }
    rewrite bool_decide_eq_true_2 by done. cbn [negb]. rewrite Hc, Ht, Hw, Hrep. rewrite (proxy_loop_spec _ (data pieces)); [done|done|done|done|done|cbn [length]; lia].
Qed.

(** A request line is enough to see. *)
Definition toy_method_parse (head : list Z) : HeadParse :=
  match split_once 32 head with Some (m, r) => Complete (Some m) (Some (take_word r).1) [] | None => Malformed end.
Definition toy_loopback : Loopback := mkLoopback (Ok tt) (Ok tt) (Ok tt) (fun _ => [Data (bs "pong")] ++ [Closed]) (fun _ => []).
Definition toy_get : list Z := bs "GET /api/ping?ip=100.64.0.2 HTTP/1.1" ++ [13; 10] ++ [13; 10].
Lemma demo_proxy_read_only_witness :
  serve toy_loopback [Data (take 20 toy_get); Data (drop 20 toy_get)] = (Some (upstream_req (bs "GET") (bs "ping?ip=100.64.0.2")), Some (bs "pong")) /\
  (handle_one (fun _ => None) (fun _ => []) toy_method_parse 0 [Data (upstream_req (bs "GET") (bs "ping?ip=100.64.0.2"))] (mkCtx (snapshot_empty 5 (bs "vita") (SAV4 0 41641)) true (fun _ => Err []))).1 = [].
Proof.
  assert (E : serve toy_loopback [Data (take 20 toy_get); Data (drop 20 toy_get)] = (Some (upstream_req (bs "GET") (bs "ping?ip=100.64.0.2")), Some (bs "pong"))).
  { refine (proj2 (demo_proxy_read_only toy_loopback _) (bs "ping?ip=100.64.0.2") [13; 10] [Data (bs "pong")] _ _ _ _ _ _ _ _ _ _ _ _); try reflexivity.
    - exists (bs "ping"), (bs "ip=100.64.0.2"). split; [apply (bool_decide_unpack _); vm_compute; done|by right].
    - by apply solid_bs.
    - eexists. split; vm_compute; reflexivity.
    - apply Nat2Z.inj_le. rewrite max_req_head_val. vm_compute. discriminate.
    - split; [repeat constructor; discriminate|done].
    - split; [repeat constructor; discriminate|done].
    - apply Nat2Z.inj_lt. rewrite proxy_max_val. vm_compute. reflexivity. }
  split; [exact E|]. destruct (proj1 (demo_proxy_read_only toy_loopback _) _ _ E) as (rest & -> & _ & _ & Hsig).
  apply Hsig; [|by cbn [data map concat]; rewrite app_nil_r].
  intros c head m t h _. unfold toy_method_parse. destruct (split_once 32 (c :: head)) as [[a b]|] eqn:Es; [|done]. intros [= <- _ _].
  apply split_once_spec in Es as [-> Hn]. by exists b.
Defined.
