(* ===== verification/Plugin.v ===== *)
(** The plugin that runs the node inside the shell (tailscale-vita-rt/src/lib.rs):
    the allocator over taipool and the start of the bootstrap thread. *)

From S2P Require Import Prelude.
#[local] Open Scope Z_scope.

(** ** The allocator *)

(** [size_of::<usize>()] on the console. *)
Definition PREFIX : Z := 4.
Definition usize_max : Z := 2 ^ 32 - 1.
Definition usize_checked_add (a b : Z) : option Z := if a + b <=? usize_max then Some (a + b) else None.

(** taipool's blocks (start and size), and the words in memory by address, a
    multiple of four. *)
Record Heap : Type := mkHeap { blocks : gmap Z Z; words : gmap Z Z }.

Definition taipool_free (raw : Z) (h : Heap) : outcome Heap :=
  match blocks h !! raw with Some _ => Val (mkHeap (delete raw (blocks h)) (words h)) | None => Panicked end.

Definition alloc_total (size align : Z) : option Z := s ← usize_checked_add size (Z.max align PREFIX); usize_checked_add s PREFIX.
Definition user_ptr (align raw : Z) : Z := let align := Z.max align PREFIX in Z.land (raw + PREFIX + align - 1) (Z.lnot (align - 1)).

(** [raw]: what [taipool_alloc] returns, 0 when it has no room. *)
Definition alloc (size align raw : Z) (h : Heap) : Z * Heap :=
  match alloc_total size align with
  | None => (0, h)
  | Some total =>
      if raw =? 0 then (0, h)
      else
        let user := user_ptr align raw in
        (user, mkHeap (<[raw := total]> (blocks h)) (<[user - PREFIX := raw]> (words h)))
  end.
(** A word that was never written reads as 0. *)
Definition dealloc (ptr : Z) (h : Heap) : outcome Heap :=
  if ptr =? 0 then Val h else taipool_free (default 0 (words h !! (ptr - PREFIX))) h.

(** A program: it allocates, writes its own memory and frees what it holds. *)
Record Held : Type := mkHeld { h_ptr : Z; h_size : Z; h_align : Z; h_raw : Z }.
Inductive MemOp : Type := MAlloc (size align raw : Z) | MWrite (i : nat) (m : gmap Z Z) | MFree (i : nat).

Definition mem_step (o : MemOp) (held : list Held) (h : Heap) : outcome (list Held * Heap) :=
  match o with
  | MAlloc size align raw =>
      let '(p, h) := alloc size align raw h in
      Val (if p =? 0 then held else mkHeld p size align raw :: held, h)
  | MWrite i m => Val (held, mkHeap (blocks h) m)
  | MFree i =>
      match held !! i with
      | None => Val (held, h)
      | Some x => h ← dealloc (h_ptr x) h; Val (delete i held, h)
      end
  end.

(** What taipool and the program keep to: a block given out is word-aligned and
    apart from the others, an alignment is a power of two, and a write changes only
    words that touch the written block. *)
Definition apart (a n b m : Z) : Prop := a + n <= b \/ b + m <= a.
Definition mem_lawful (o : MemOp) (held : list Held) (h : Heap) : Prop :=
  match o with
  | MAlloc size align raw => 0 <= size /\ (exists k, 0 <= k /\ align = 2 ^ k) /\
      (raw = 0 \/ forall total, alloc_total size align = Some total -> 0 < raw /\ raw + total <= usize_max /\ raw mod 4 = 0 /\
                                forall b m, blocks h !! b = Some m -> apart raw total b m)
  | MWrite i m => exists x, held !! i = Some x /\ forall a, apart a PREFIX (h_ptr x) (h_size x) -> m !! a = words h !! a
  | MFree i => True
  end.

Fixpoint mem_run (os : list MemOp) (held : list Held) (h : Heap) : outcome (list Held * Heap) :=
  match os with
  | [] => Val (held, h)
  | o :: os => '(held, h) ← mem_step o held h; mem_run os held h
  end.
Fixpoint lawful_run (os : list MemOp) (held : list Held) (h : Heap) : Prop :=
  match os with
  | [] => True
  | o :: os => mem_lawful o held h /\ match mem_step o held h with Val (held, h) => lawful_run os held h | _ => True end
  end.

(** ** Starting the runtime *)

(** What the kernel answers when a thread is created and started: a negative
    number is an error. *)
Record Threads : Type := mkThreads { running : nat; orphaned : nat }.

(** The bootstrap threads that run, and those created and never started. *)
Definition spawn_bootstrap (k : Z * Z) (t : Threads) : Z * Threads :=
  if k.1 <? 0 then (k.1, t)
  else if k.2 <? 0 then (k.2, mkThreads (running t) (S (orphaned t)))
  else (0, mkThreads (S (running t)) (orphaned t)).

Definition WATCHER_BACKOFF_SECS : list Z := [5; 10; 15; 20; 30; 30; 30; 30].

(** [env i]: whether a shutdown is seen after the i-th delay, and the kernel's
    answers then.  Also the seconds the watcher ran. *)
Fixpoint watcher_main (delays : list Z) (env : nat -> bool * (Z * Z)) (i : nat) (elapsed : Z) (t : Threads) : Z * Threads :=
  match delays with
  | [] => (elapsed, t)
  | d :: delays =>
      let elapsed := elapsed + d in
      if (env i).1 then (elapsed, t)
      else
        let '(rc, t) := spawn_bootstrap (env i).2 t in
        if rc =? 0 then (elapsed, t) else watcher_main delays env (S i) elapsed t
  end.

(** The return code and what comes of it: [now] answers the immediate attempt,
    [watch] the creation of the watcher. *)
Definition ts_vita_rt_start (now watch : Z * Z) (env : nat -> bool * (Z * Z)) : Z * Threads :=
  let '(rc, t) := spawn_bootstrap now (mkThreads 0 0) in
  if rc =? 0 then (0, t)
  else if watch.1 <? 0 then (watch.1, t)
  else if watch.2 <? 0 then (watch.2, t)
  else (0, (watcher_main WATCHER_BACKOFF_SECS env 0 0 t).2).

(** * Lemmas *)

(** Clearing the low bits rounds down. *)
Lemma land_lnot x k : 0 <= k -> Z.land x (Z.lnot (2 ^ k - 1)) = x - x mod 2 ^ k.
Proof.
  intros Hk. rewrite <- Z.ldiff_land. replace (2 ^ k - 1) with (Z.ones k) by (rewrite Z.ones_equiv; lia).
  rewrite Z.ldiff_ones_r, Z.shiftl_mul_pow2, Z.shiftr_div_pow2 by done. pose proof (Z.div_mod x (2 ^ k) ltac:(lia)). lia.
Qed.

Definition pow2 (a : Z) : Prop := exists k, 0 <= k /\ a = 2 ^ k.
Lemma max_pow2 a : pow2 a -> exists k, 0 <= k /\ Z.max a PREFIX = 2 ^ k /\ (a | 2 ^ k).
Proof.
  intros (k & Hk & ->). unfold PREFIX. destruct (Z.le_gt_cases 2 k) as [H2|H2].
  - exists k. pose proof (Z.pow_le_mono_r 2 2 k ltac:(lia) H2). split_and!; [done|lia|done].
  - exists 2. split; [lia|]. assert (k = 0 \/ k = 1) as [->| ->] by lia; (split; [done|]); [exists 4|exists 2]; done.
Qed.

(** The pointer handed out is aligned, leaves room for the prefix and lies inside
    the block. *)
Lemma user_ptr_spec size align raw total : pow2 align -> 0 <= size -> alloc_total size align = Some total ->
  let p := user_ptr align raw in raw + PREFIX <= p /\ p + size < raw + total /\ (align | p) /\ total <= usize_max.
Proof.
  intros Ha Hs Ht. destruct (max_pow2 align Ha) as (k & Hk & Em & Hdiv). unfold alloc_total, usize_checked_add in Ht.
  destruct (Z.leb_spec (size + Z.max align PREFIX) usize_max); [|done]. cbn [mbind option_bind] in Ht. destruct (Z.leb_spec (size + Z.max align PREFIX + PREFIX) usize_max); [|done].
  injection Ht as <-. cbv zeta. unfold user_ptr. rewrite Em in *. rewrite land_lnot by done.
  pose proof (Z.mod_pos_bound (raw + PREFIX + 2 ^ k - 1) (2 ^ k) ltac:(lia)) as Hm. split_and!; [lia|lia| |lia].
  etransitivity; [exact Hdiv|]. exists ((raw + PREFIX + 2 ^ k - 1) / 2 ^ k). pose proof (Z.div_mod (raw + PREFIX + 2 ^ k - 1) (2 ^ k) ltac:(lia)). lia.
Qed.

(** A pointer that is held: its block, and the word before it. *)
Record held_ok (h : Heap) (x : Held) : Prop := {
  k_size : 0 <= h_size x; k_align : pow2 (h_align x); k_ptr : h_ptr x = user_ptr (h_align x) (h_raw x); k_raw : 0 < h_raw x;
  k_block : exists total, alloc_total (h_size x) (h_align x) = Some total /\ blocks h !! h_raw x = Some total;
  k_word : words h !! (h_ptr x - PREFIX) = Some (h_raw x)
}.
Record mem_ok (held : list Held) (h : Heap) : Prop := {
  m_held : Forall (held_ok h) held;
  m_nodup : NoDup (h_raw <$> held);
  m_blocks : dom (blocks h) = list_to_set (h_raw <$> held);
  m_apart : forall b m b' m', b <> b' -> blocks h !! b = Some m -> blocks h !! b' = Some m' -> apart b m b' m'
}.

Lemma held_inside h x : held_ok h x -> exists total, blocks h !! h_raw x = Some total /\
  h_raw x + PREFIX <= h_ptr x /\ h_ptr x + h_size x < h_raw x + total.
Proof.
  intros [Ks Ka Kp Kr (total & Et & Eb) Kw]. exists total. split; [done|]. rewrite Kp.
  destruct (user_ptr_spec _ _ (h_raw x) _ Ka Ks Et) as (? & ? & _). done.
Qed.

(** Prefix and memory of one pointer are apart from the whole of another. *)
Lemma held_apart held h x y : mem_ok held h -> x ∈ held -> y ∈ held -> h_raw x <> h_raw y ->
  apart (h_ptr x - PREFIX) (h_size x + PREFIX) (h_ptr y - PREFIX) (h_size y + PREFIX).
Proof.
  intros Hok Hx Hy Hne. pose proof (m_held _ _ Hok) as HF. rewrite list.Forall_forall in HF.
  destruct (held_inside h x (HF x Hx)) as (tx & Ex & ? & ?). destruct (held_inside h y (HF y Hy)) as (ty & Ey & ? & ?).
  destruct (m_apart _ _ Hok _ _ _ _ Hne Ex Ey); [left|right]; unfold PREFIX in *; lia.
Qed.

(** ** Each operation keeps the books *)

Lemma alloc_ok size align raw held h : mem_ok held h -> mem_lawful (MAlloc size align raw) held h ->
  exists held' h', mem_step (MAlloc size align raw) held h = Val (held', h') /\ mem_ok held' h' /\ (held' = held /\ h' = h \/ exists p, held' = mkHeld p size align raw :: held).
Proof.
  intros Hok (Hs & Ha & Hraw). cbn [mem_step]. unfold alloc. destruct (alloc_total size align) as [total|] eqn:Et; [|cbn; by exists held, h; split_and!; [..|left]].
  destruct (Z.eqb_spec raw 0) as [->|Hnz]; [by exists held, h; split_and!; [..|left]|]. destruct Hraw as [->|Hraw]; [done|].
  destruct (Hraw total eq_refl) as (Hpos & Hend & _ & Hap). destruct (user_ptr_spec size align raw total Ha Hs Et) as (P1 & P2 & _ & _).
  set (p := user_ptr align raw) in *. rewrite (proj2 (Z.eqb_neq p 0)) by (unfold PREFIX in *; lia). eexists _, _. split; [done|]. split; [|right; by eexists].
  assert (Hfresh : blocks h !! raw = None).
  { destruct (blocks h !! raw) as [m|] eqn:Eb; [|done]. exfalso.
    assert (Hin : raw ∈ h_raw <$> held) by (apply (elem_of_list_to_set (C := gset Z)); rewrite <- (m_blocks _ _ Hok); by apply elem_of_dom_2 in Eb).
    apply list_elem_of_fmap in Hin as (y & -> & Hy). pose proof (m_held _ _ Hok) as HF. rewrite list.Forall_forall in HF.
    destruct (held_inside h y (HF y Hy)) as (ty & Ey & Y1 & Y2). pose proof (k_size _ _ (HF y Hy)). destruct (Hap _ _ Ey); unfold PREFIX in *; lia. }
  pose proof (m_held _ _ Hok) as HF. rewrite list.Forall_forall in HF. split; cbn [blocks words].
  - constructor.
    + split; cbn; [done|done|done|lia| |by rewrite lookup_insert_eq]. exists total. split; [done|apply lookup_insert_eq].
    + apply list.Forall_forall. intros y Hy. destruct (held_inside h y (HF y Hy)) as (ty & Ey & Y1 & Y2). destruct (HF y Hy) as [Ks Ka Kp Kr (t & K1 & K2) Kw].
      assert (Hne : h_raw y <> raw) by (intros E; rewrite E in Ey; congruence).
      split; cbn; [done|done|done|done| |].
      * exists t. split; [done|]. by rewrite lookup_insert_ne.
      * rewrite lookup_insert_ne; [done|]. destruct (Hap _ _ Ey); unfold PREFIX in *; lia.
  - rewrite fmap_cons. cbn. apply list.NoDup_cons. split; [|apply (m_nodup _ _ Hok)]. intros Hin. apply not_elem_of_dom in Hfresh. apply Hfresh. rewrite (m_blocks _ _ Hok). by apply elem_of_list_to_set.
  - rewrite dom_insert_L, (m_blocks _ _ Hok). done.
  - intros b m b' m' Hne. rewrite !lookup_insert_Some. intros [[<- <-]|[Hb Eb]] [[<- <-]|[Hb' Eb']]; [done|by apply Hap| |by apply (m_apart _ _ Hok)].
    destruct (Hap _ _ Eb); [by right|by left].
Qed.

Lemma write_ok i m held h : mem_ok held h -> mem_lawful (MWrite i m) held h -> mem_ok held (mkHeap (blocks h) m).
Proof.
  intros Hok (x & Hx & Hw). apply list_elem_of_lookup_2 in Hx. split; [|apply Hok..]. pose proof (m_held _ _ Hok) as HF. rewrite list.Forall_forall in HF |- *.
  intros y Hy. destruct (HF y Hy) as [Ks Ka Kp Kr Kb Kw]. split; [done..|]. cbn [words]. rewrite Hw; [done|].
  pose proof (HF x Hx) as Kx. destruct (decide (h_raw y = h_raw x)) as [E|Hne].
  - (* the same block, so the same pointer *)
    assert (y = x) as ->; [|left; lia]. apply list_elem_of_lookup in Hx as [ix Hx], Hy as [iy Hy].
    assert (ix = iy) as ->; [|congruence]. eapply (NoDup_lookup _ _ _ (h_raw x) (m_nodup _ _ Hok)); rewrite list_lookup_fmap; [by rewrite Hx|by rewrite Hy; cbn; rewrite E].
  - pose proof (held_apart held h y x Hok Hy Hx Hne) as Hap. pose proof (k_size _ _ Kx). unfold apart, PREFIX in *. lia.
Qed.

Lemma free_ok i held h : mem_ok held h -> exists held' h', mem_step (MFree i) held h = Val (held', h') /\ mem_ok held' h' /\ held' = delete i held.
Proof.
  intros Hok. cbn [mem_step]. destruct (held !! i) as [x|] eqn:Ei.
  2:{ exists held, h. split; [done|]. split; [done|]. apply lookup_ge_None in Ei. rewrite delete_take_drop, take_ge, drop_ge, app_nil_r by lia. done. }
  pose proof (m_held _ _ Hok) as HF. rewrite list.Forall_forall in HF. pose proof (list_elem_of_lookup_2 _ _ _ Ei) as Hx. destruct (HF x Hx) as [Ks Ka Kp Kr (t & K1 & K2) Kw].
  destruct (held_inside h x (HF x Hx)) as (tx & Ex & X1 & X2). unfold dealloc, taipool_free. rewrite (proj2 (Z.eqb_neq _ _)) by (unfold PREFIX in *; lia).
  rewrite Kw. cbn [default]. unfold id. rewrite K2. cbn [mbind outcome_bind]. eexists _, _. split; [done|]. split; [|done].
  pose proof (delete_Permutation held i x Ei) as Pd. revert Pd. generalize (delete i held). intros rest Pd. pose proof (m_nodup _ _ Hok) as Hnd. rewrite Pd, fmap_cons in Hnd. apply list.NoDup_cons in Hnd as [Hni Hnd].
  split; cbn [blocks words].
  - apply list.Forall_forall. intros y Hy. assert (Hy' : y ∈ held) by (rewrite Pd; by right). destruct (HF y Hy') as [Ks' Ka' Kp' Kr' (t' & K1' & K2') Kw'].
    split; [done..| |done]. exists t'. split; [done|]. cbn [blocks]. rewrite lookup_delete_ne; [done|]. intros E. apply Hni. rewrite E. by apply list_elem_of_fmap_2.
  - done.
  - rewrite dom_delete_L, (m_blocks _ _ Hok). apply set_eq. intros b. rewrite elem_of_difference, elem_of_singleton, !elem_of_list_to_set, Pd, fmap_cons, elem_of_cons.
    split; [naive_solver|]. intros Hb. split; [by right|]. intros ->. done.
  - intros b m b' m' Hne. rewrite !lookup_delete_Some. intros [_ Eb] [_ Eb']. by apply (m_apart _ _ Hok).
Qed.

Lemma mem_run_ok : forall os held h, mem_ok held h -> lawful_run os held h -> exists held' h', mem_run os held h = Val (held', h') /\ mem_ok held' h'.
Proof.
  induction os as [|o os IH]; intros held h Hok Hl; cbn [mem_run lawful_run] in *; [by exists held, h|]. destruct Hl as [Ho Hl].
  assert (exists held' h', mem_step o held h = Val (held', h') /\ mem_ok held' h') as (held' & h' & E & Hok').
  { destruct o as [size align raw|i m|i].
    - destruct (alloc_ok _ _ _ _ _ Hok Ho) as (held' & h' & E & Hok' & _). by exists held', h'.
    - eexists _, _. split; [done|]. by eapply write_ok.
    - destruct (free_ok i held h Hok) as (held' & h' & E & Hok' & _). by exists held', h'. }
  rewrite E in Hl |- *. cbn [mbind outcome_bind]. by apply IH.
Qed.

Lemma mem_empty_ok words : mem_ok [] (mkHeap ∅ words).
Proof. split; [constructor|constructor|cbn; by rewrite dom_empty_L|]. intros b m b' m' _. cbn. by rewrite lookup_empty. Qed.

(** ** Starting *)

Definition spawns (k : Z * Z) : bool := (0 <=? k.1) && (0 <=? k.2).

Lemma spawn_bootstrap_spec k t : exists rc t', spawn_bootstrap k t = (rc, t') /\
  (if spawns k then rc = 0 /\ t' = mkThreads (S (running t)) (orphaned t) else rc < 0 /\ running t' = running t).
Proof. unfold spawn_bootstrap, spawns. destruct k as [c s]. cbn. destruct (Z.ltb_spec c 0), (Z.ltb_spec s 0), (Z.leb_spec 0 c), (Z.leb_spec 0 s); try lia; cbn; by eexists _, _. Qed.

(** The watcher ends with at most one thread more, at the first delay after which
    the kernel has room, unless a shutdown came first. *)
Lemma watcher_main_spec env : forall delays i elapsed t,
  let '(_, t') := watcher_main delays env i elapsed t in
  (running t' = running t \/ running t' = S (running t)) /\
  forall k, (k < length delays)%nat -> spawns (env (i + k)%nat).2 = true -> (forall j, (j <= k)%nat -> (env (i + j)%nat).1 = false) ->
    (forall j, (j < k)%nat -> spawns (env (i + j)%nat).2 = false) ->
    watcher_main delays env i elapsed t = (elapsed + foldr Z.add 0 (take (S k) delays), t') /\ running t' = S (running t).
Proof.
  induction delays as [|d delays IH]; intros i elapsed t; cbn [watcher_main]; [split; [by left|]; cbn; lia|].
  destruct (env i) as [stop k0] eqn:Ei. cbn [fst snd]. destruct stop.
  { split; [by left|]. intros k _ _ Hstop _. specialize (Hstop 0%nat ltac:(lia)). rewrite Nat.add_0_r, Ei in Hstop. done. }
  destruct (spawn_bootstrap_spec k0 t) as (rc & t1 & E & Hs). rewrite E. destruct (spawns k0) eqn:Es.
  - destruct Hs as [-> ->]. cbn [Z.eqb]. split; [by right|]. intros k _ _ _ Hfirst. destruct k as [|k]; [cbn; by rewrite take_0; cbn; rewrite Z.add_0_r|].
    specialize (Hfirst 0%nat ltac:(lia)). rewrite Nat.add_0_r, Ei in Hfirst. cbn in Hfirst. congruence.
  - destruct Hs as [Hrc Hrun]. rewrite (proj2 (Z.eqb_neq rc 0)) by lia. specialize (IH (S i) (elapsed + d) t1). destruct (watcher_main delays env (S i) (elapsed + d) t1) as [e2 t2].
    destruct IH as [IH1 IH2]. rewrite Hrun in IH1, IH2. split; [done|]. intros k Hk Hsp Hstop Hfirst. destruct k as [|k]; [rewrite Nat.add_0_r, Ei in Hsp; cbn in Hsp; congruence|].
    destruct (IH2 k) as [E2 R2]; [cbn in Hk; lia|by rewrite Nat.add_succ_comm|intros j Hj; rewrite Nat.add_succ_comm; apply Hstop; lia|intros j Hj; rewrite Nat.add_succ_comm; apply Hfirst; lia|].
    split; [|done]. rewrite E2. cbn [take foldr]. f_equal. lia.
Qed.

(** The plugin starts at most one runtime; when it reports an error there is none;
    and when the kernel finds room at one of the eight retries, within 170 s, and no
    shutdown came before, there is one. *)
Lemma plugin_starts_once now watch env :
  let '(rc, t) := ts_vita_rt_start now watch env in
  (running t <= 1)%nat /\ (rc <> 0 -> running t = 0%nat) /\ (spawns now = true -> rc = 0 /\ running t = 1%nat) /\ (spawns watch = true -> forall k, (k < 8)%nat -> spawns (env k).2 = true -> (forall j, (j <= k)%nat -> (env j).1 = false) -> rc = 0 /\ running t = 1%nat).
Proof.
  unfold ts_vita_rt_start. destruct (spawn_bootstrap_spec now (mkThreads 0 0)) as (rc & t & E & Hs). rewrite E. destruct (spawns now).
  { destruct Hs as [-> ->]. cbn. by split_and!; try lia. }
  destruct Hs as [Hrc Hrun]. cbn in Hrun. rewrite (proj2 (Z.eqb_neq rc 0)) by lia. destruct watch as [w1 w2]. unfold spawns at 1. cbn [fst snd].
  destruct (Z.ltb_spec w1 0); [split_and!; [lia|done|done|]; destruct (Z.leb_spec 0 w1); [lia|cbn; discriminate]|].
  destruct (Z.ltb_spec w2 0); [split_and!; [lia|done|done|]; destruct (Z.leb_spec 0 w2); [lia|rewrite andb_false_r; discriminate]|].
  pose proof (watcher_main_spec env WATCHER_BACKOFF_SECS 0 0 t) as HW. destruct (watcher_main _ env 0 0 t) as [e t'] eqn:Ew. cbn [snd]. rewrite Hrun in HW. destruct HW as [HW1 HW2].
  split_and!; [lia|done|done|]. intros _ k Hk Hsp Hstop. split; [done|].
  (* the first success is at most [k] *)
  assert (exists k', (k' <= k)%nat /\ spawns (env k').2 = true /\ forall j, (j < k')%nat -> spawns (env j).2 = false) as (k' & Hk' & Hsp' & Hfirst).
  { clear - Hsp. induction k as [k IH] using lt_wf_ind. destruct (existsb (fun j => spawns (env j).2) (seq 0 k)) eqn:Ex.
    - apply existsb_exists in Ex as (j & Hj%in_seq & Hsj). destruct (IH j ltac:(lia) Hsj) as (k' & ? & ? & ?). exists k'. split_and!; [lia|done|done].
    - exists k. split_and!; [lia|done|]. intros j Hj. destruct (spawns (env j).2) eqn:Ej; [|done]. rewrite <- not_true_iff_false in Ex. exfalso. apply Ex, existsb_exists.
      exists j. split; [|done]. apply in_seq. lia. }
  destruct (HW2 k') as [_ R]; [cbn; lia|done|intros j Hj; apply Hstop; lia|done|done].
Qed.

(** A thread that is created and cannot be started is not deleted, so its stack of
    2 MB stays taken while the next attempts look for room. *)
Lemma failed_start_orphans : ts_vita_rt_start (1, -1) (1, 0) (fun _ => (false, (1, -1))) = (0, mkThreads 0 9).
Proof. reflexivity. Qed.

(** * Properties *)

(** The allocator is sound over any pool.  In every sequence of allocations,
    writes by the program to memory it holds, and frees, where taipool gives out
    blocks apart from each other, no free hands taipool anything but a block it
    gave out and that is still out; every pointer held is aligned as asked, inside
    its block, and its memory is apart from that of every other; and taipool has out
    exactly one block per pointer held. *)
Theorem taipool_allocator_sound os words : lawful_run os [] (mkHeap ∅ words) ->
  exists held h, mem_run os [] (mkHeap ∅ words) = Val (held, h) /\ size (blocks h) = length held /\
    (forall x, x ∈ held -> (h_align x | h_ptr x) /\ exists total, blocks h !! h_raw x = Some total /\ h_raw x + PREFIX <= h_ptr x /\ h_ptr x + h_size x <= h_raw x + total) /\
    forall i j x y, i <> j -> held !! i = Some x -> held !! j = Some y -> apart (h_ptr x) (h_size x) (h_ptr y) (h_size y).
Proof.
  intros Hl. destruct (mem_run_ok os [] _ (mem_empty_ok words) Hl) as (held & h & E & Hok). exists held, h. split; [done|].
  pose proof (m_held _ _ Hok) as HF. rewrite list.Forall_forall in HF. split_and!.
  - rewrite <- size_dom, (m_blocks _ _ Hok), size_list_to_set, length_fmap; [done|apply (m_nodup _ _ Hok)].
  - intros x Hx. destruct (HF x Hx) as [Ks Ka Kp Kr (t & K1 & K2) Kw]. destruct (user_ptr_spec _ _ (h_raw x) _ Ka Ks K1) as (P1 & P2 & P3 & _). rewrite Kp.
    split; [done|]. exists t. split_and!; [done|done|lia].
  - intros i j x y Hij Hi Hj. assert (Hne : h_raw x <> h_raw y).
    { intros E'. apply Hij. eapply (NoDup_lookup _ _ _ (h_raw x) (m_nodup _ _ Hok)); rewrite list_lookup_fmap; [by rewrite Hi|by rewrite Hj; cbn; rewrite E']. }
    pose proof (held_apart held h x y Hok (list_elem_of_lookup_2 _ _ _ Hi) (list_elem_of_lookup_2 _ _ _ Hj) Hne) as Hap. unfold apart, PREFIX in *. lia.
Qed.

(** Two blocks, one with a larger alignment, a write at both ends of it, and a free. *)
Definition toy_heap1 : Heap := mkHeap (<[4096 := 16]> ∅) (<[4096 := 4096]> ∅).
Definition toy_heap2 : Heap := mkHeap (<[8204 := 60]> (blocks toy_heap1)) (<[8204 := 8204]> (words toy_heap1)).
Definition toy_heap3 : Heap := mkHeap (blocks toy_heap2) (<[8208 := 0]> (<[8244 := 7]> (words toy_heap2))).
Definition toy_mem_ops : list MemOp := [MAlloc 8 1 4096; MAlloc 40 16 8204; MWrite 0 (words toy_heap3); MFree 0].
Lemma taipool_allocator_sound_witness :
  exists held h, mem_run toy_mem_ops [] (mkHeap ∅ ∅) = Val (held, h) /\ held = [mkHeld 4100 8 1 4096] /\ size (blocks h) = 1%nat.
Proof.
  assert (E1 : mem_step (MAlloc 8 1 4096) [] (mkHeap ∅ ∅) = Val ([mkHeld 4100 8 1 4096], toy_heap1)) by reflexivity.
  assert (E2 : mem_step (MAlloc 40 16 8204) [mkHeld 4100 8 1 4096] toy_heap1 = Val ([mkHeld 8208 40 16 8204; mkHeld 4100 8 1 4096], toy_heap2)) by reflexivity.
  destruct (taipool_allocator_sound toy_mem_ops ∅) as (held & h & E & Hn & _).
  { unfold toy_mem_ops. cbn [lawful_run]. split.
    { split; [lia|]. split; [by exists 0|]. right. intros total [= <-]. split_and!; [lia|vm_compute; discriminate|done|]. intros b m Hb. cbn [blocks] in Hb. by rewrite lookup_empty in Hb. }
    rewrite E1. split.
    { split; [lia|]. split; [by exists 4|]. right. intros total [= <-]. split_and!; [lia|vm_compute; discriminate|done|].
      intros b m Hb. unfold toy_heap1 in Hb. cbn [blocks] in Hb. apply lookup_insert_Some in Hb as [[<- <-]|[_ Hb]]; [right; lia|by rewrite lookup_empty in Hb]. }
    rewrite E2. split; [|by split; [|]]. eexists. split; [reflexivity|]. intros a Ha. cbn [words toy_heap3]. unfold apart, PREFIX in Ha. cbn in Ha.
    rewrite !lookup_insert_ne by lia. done. }
  exists held, h. split; [exact E|]. assert (Eh : (o ← mem_run toy_mem_ops [] (mkHeap ∅ ∅); Val o.1) = Val [mkHeld 4100 8 1 4096]) by (vm_compute; reflexivity).
  rewrite E in Eh. cbn in Eh. injection Eh as Eh. split; [exact Eh|]. by rewrite Hn, Eh.
Defined.
