(* ===== verification/Services.v ===== *)
(** The services on the tailnet address as servers: the accept loops of ts-ftp and
    ts-peerapi (src/lib.rs of each), which differ in their limit and their refusal,
    the conditions under which they start, and the control-line reader of an FTP
    session (ts-ftp/src/session.rs). *)

From S2P Require Import Prelude Text NetTypes Noise Netstack.
#[local] Open Scope Z_scope.

(** ** Accept loops *)

Definition MAX_SESSIONS : nat := 8.
Definition MAX_CONNS : nat := 6.

(** The threads in [live] by number, those that set their flag, the joined ones in
    order, and how many connections were refused or lost their thread. *)
Record Service : Type := mkService { live : list nat; finished : list nat; joined : list nat; started : nat; refused : nat; lost : nat }.
Definition service_new : Service := mkService [] [] [] 0 0 0.

Definition finish (ts : list nat) (s : Service) : Service := mkService (live s) (ts ++ finished s) (joined s) (started s) (refused s) (lost s).

(** [reap]: the entries left to look at decrease.  [ends]: the threads that set
    their flag before each load of one. *)
Fixpoint reap_loop (fuel i : nat) (ends : list (list nat)) (s : Service) : Service :=
  match live s !! i, fuel with
  | Some t, S f =>
      let s := finish (hd [] ends) s in
      if bool_decide (t ∈ finished s)
      then reap_loop f i (tail ends) (mkService (swap_remove i (live s)) (finished s) (joined s ++ [t]) (started s) (refused s) (lost s))
      else reap_loop f (i + 1) (tail ends) s
  | _, _ => s
  end.
Definition reap (ends : list (list nat)) (s : Service) : Service := reap_loop (length (live s)) 0 ends s.

(** What [accept_timeout] gives, and whether the thread for it can be made. *)
Inductive Accepted : Type := Connection (spawned : bool) | NoneYet | AcceptError.

(** One turn: the threads that end during the first [reap], while it waits for a
    connection, during the second [reap] and after its last load. *)
Record Turn : Type := mkTurn { reap1 : list (list nat); waiting : list nat; accepted : Accepted; reap2 : list (list nat); after : list nat }.
(** When [accept_timeout] returns. *)
Definition on_accept (t : Turn) (s : Service) : Service := finish (waiting t) (reap (reap1 t) s).
Definition accept_turn (cap : nat) (t : Turn) (s : Service) : Service :=
  let s := on_accept t s in
  match accepted t with
  | NoneYet | AcceptError => s
  | Connection spawned =>
      let s := finish (after t) (reap (reap2 t) s) in
      if (cap <=? length (live s))%nat then mkService (live s) (finished s) (joined s) (started s) (S (refused s)) (lost s)
      else if spawned then mkService (live s ++ [started s]) (finished s) (joined s) (S (started s)) (refused s) (lost s)
      else mkService (live s) (finished s) (joined s) (started s) (refused s) (S (lost s))
  end.

(** The loop until a shutdown is seen, and the joins after it. *)
Definition accept_turns (cap : nat) (ts : list Turn) (s : Service) : Service := foldl (fun s t => accept_turn cap t s) s ts.
Definition accept_loop (cap : nat) (ts : list Turn) : Service :=
  let s := accept_turns cap ts service_new in
  mkService [] (finished s) (joined s ++ live s) (started s) (refused s) (lost s).

(** ** Starting *)

(** Whether [TsFtpServer::spawn] starts: credentials, a transfer limit, the port and
    the thread. *)
Definition ftp_spawns (username password : list Z) (max_transfer_bytes : Z) (bound threaded : bool) : bool :=
  if bool_decide (username = []) || bool_decide (password = []) then false
  else if max_transfer_bytes =? 0 then false
  else bound && threaded.

(** ** Command lines *)

Definition MAX_COMMAND_BYTES : nat := Z.to_nat 4096.
Definition CTRL_IDLE_TIMEOUT : Z := 120000.

(** What the control connection gives: bytes, a poll that timed out (with the time
    and whether a shutdown is seen), the end, or a failure. *)
Inductive LineEvent : Type := LData (c : list Z) | LQuiet (now : Z) (shutdown : bool) | LEnd | LFail.
Inductive LineResult : Type := Line (l : list Z) | NoLine | WaitingForLine.

(** [take(budget).read_until(b'\n')] on bytes that are there. *)
Fixpoint take_line (budget : nat) (c : list Z) : list Z * list Z :=
  match budget, c with
  | S b, x :: c => if x =? 10 then ([x], c) else let '(t, r) := take_line b c in (x :: t, r)
  | _, _ => ([], c)
  end.
Definition unread (rest : list Z) (src : list LineEvent) : list LineEvent := match rest with [] => src | _ => LData rest :: src end.

Fixpoint strip_eol_rev (l : list Z) : list Z := match l with x :: r => if (x =? 10) || (x =? 13) then strip_eol_rev r else l | [] => [] end.
Definition strip_eol (l : list Z) : list Z := reverse (strip_eol_rev (reverse l)).

Fixpoint read_line (deadline : Z) (buf : list Z) (src : list LineEvent) : LineResult * list LineEvent :=
  match src with
  | [] => (WaitingForLine, [])
  | LData c :: src =>
      let '(t, rest) := take_line (MAX_COMMAND_BYTES + 1 - length buf) c in
      let buf := buf ++ t in
      if (MAX_COMMAND_BYTES <? length buf)%nat then (NoLine, unread rest src)
      else if bool_decide (list.last buf = Some 10) then (Line (from_utf8_lossy (strip_eol buf)), unread rest src)
      else read_line deadline buf src
  | LQuiet now shutdown :: src => if shutdown || (deadline <=? now) then (NoLine, src) else read_line deadline buf src
  | LEnd :: src | LFail :: src => (NoLine, src)
  end.

(** * Lemmas *)

(** ** Reaping *)

Lemma swap_remove_take {A} (l : list A) i x : l !! i = Some x -> take i (swap_remove i l) = take i l.
Proof.
  intros Hi. apply lookup_lt_Some in Hi as Hl. unfold swap_remove. destruct (list.last l) as [y|] eqn:Ey; [|done].
  rewrite take_take, Nat.min_l by lia. apply take_insert_ge. lia.
Qed.

(** What a pass over the list did: the ended threads it saw were joined, and those
    it left had not ended when it began. *)
Record reaped (fin0 : list nat) (s s' : Service) : Prop := {
  rp_new : exists new, joined s' = joined s ++ new /\ live s ≡ₚ live s' ++ new /\ Forall (fun t => t ∈ finished s') new;
  rp_fin : exists more, finished s' = more ++ finished s;
  rp_left : Forall (fun t => t ∉ fin0) (live s');
  rp_rest : started s' = started s /\ refused s' = refused s /\ lost s' = lost s
}.

Lemma reap_loop_spec fin0 : forall fuel i ends s, (length (live s) - i <= fuel)%nat -> Forall (fun t => t ∉ fin0) (take i (live s)) ->
  (forall t, t ∈ fin0 -> t ∈ finished s) -> reaped fin0 s (reap_loop fuel i ends s).
Proof.
  assert (Hend : forall i s, (length (live s) <= i)%nat -> Forall (fun t => t ∉ fin0) (take i (live s)) -> reaped fin0 s s).
  { intros i s Hl Hno. rewrite take_ge in Hno by done. split; [exists []; by rewrite !app_nil_r|by exists []|done|done]. }
  induction fuel as [|fuel IH]; intros i ends s Hf Hno Hsub; cbn [reap_loop].
  - rewrite lookup_ge_None_2 by lia. apply (Hend i); [lia|done].
  - destruct (live s !! i) as [t|] eqn:Ei; [|apply lookup_ge_None in Ei; by apply (Hend i)]. apply lookup_lt_Some in Ei as Hl.
    set (s1 := finish (hd [] ends) s). assert (Hsub1 : forall t, t ∈ fin0 -> t ∈ finished s1) by (intros u Hu; apply elem_of_app; right; auto).
    case_bool_decide as Hin.
    + set (s2 := mkService (swap_remove i (live s1)) (finished s1) (joined s1 ++ [t]) (started s1) (refused s1) (lost s1)).
      pose proof (swap_remove_perm _ _ _ Ei) as Pr. apply Permutation_length in Pr as Hlen. cbn [length] in Hlen.
      destruct (IH i (tail ends) s2) as [(new & N1 & N2 & N3) [more M] L R]; [cbn; lia|cbn; by rewrite (swap_remove_take _ _ _ Ei)|done|].
      split; [|exists (more ++ hd [] ends); by rewrite M, <- app_assoc|done|done]. exists (t :: new). cbn in N1, N2. split_and!.
      * by rewrite N1, <- app_assoc.
      * rewrite <- Pr. rewrite N2 at 1. solve_Permutation.
      * constructor; [|done]. rewrite M. apply elem_of_app. by right.
    + destruct (IH (i + 1)%nat (tail ends) s1) as [N [more M] L R]; [cbn; lia| |done|].
      { replace (i + 1)%nat with (S i) by lia. cbn. rewrite (take_S_r _ _ _ Ei). apply Forall_app. split; [done|]. constructor; [|done]. auto. }
      split; [done|exists (more ++ hd [] ends); by rewrite M, <- app_assoc|done|done].
Qed.

Lemma reap_spec ends s : reaped (finished s) s (reap ends s).
Proof. apply reap_loop_spec; [lia|constructor|done]. Qed.

(** Every thread is in the list or joined, once; a joined one had ended. *)
Record service_ok (cap : nat) (s : Service) : Prop := {
  s_all : seq 0 (started s) ≡ₚ live s ++ joined s;
  s_cap : (length (live s) <= cap)%nat;
  s_done : Forall (fun t => t ∈ finished s) (joined s)
}.

Lemma finish_ok cap ts s : service_ok cap s -> service_ok cap (finish ts s).
Proof.
  intros [H1 H2 H3]. split; [done|done|]. cbn. eapply list.Forall_impl; [exact H3|]. intros t Ht. apply elem_of_app. by right.
Qed.

Lemma reap_ok cap ends s : service_ok cap s -> service_ok cap (reap ends s).
Proof.
  intros [H1 H2 H3]. destruct (reap_spec ends s) as [(new & N1 & N2 & N3) [more M] _ (R & _)]. split.
  - rewrite R, H1, N1, N2. solve_Permutation.
  - rewrite N2, length_app in H2. lia.
  - rewrite N1. apply Forall_app. split; [|done]. eapply list.Forall_impl; [exact H3|]. intros t Ht. rewrite M. apply elem_of_app. by right.
Qed.

Lemma on_accept_ok cap t s : service_ok cap s -> service_ok cap (on_accept t s) /\
  started (on_accept t s) = started s /\ refused (on_accept t s) = refused s /\ lost (on_accept t s) = lost s.
Proof. intros Hok. split; [by apply finish_ok, reap_ok|]. destruct (reap_spec (reap1 t) s) as [_ _ _ R]. exact R. Qed.

Lemma accept_turn_ok cap t s : service_ok cap s -> service_ok cap (accept_turn cap t s).
Proof.
  intros Hok. unfold accept_turn. destruct (on_accept_ok cap t s Hok) as [Hok1 _]. destruct (accepted t) as [spawned| |]; [|done|done].
  destruct (finish_ok cap (after t) _ (reap_ok cap (reap2 t) _ Hok1)) as [R1 R2 R3].
  set (s3 := finish (after t) (reap (reap2 t) (on_accept t s))) in *. cbv zeta. destruct (Nat.leb_spec cap (length (live s3))); [split; [exact R1|exact R2|exact R3]|].
  destruct spawned; split; cbn; try done.
  - change (seq 0 (S (started s3)) ≡ₚ (live s3 ++ [started s3]) ++ joined s3). rewrite seq_S, R1. cbn [Nat.add]. solve_Permutation.
  - change (length (live s3 ++ [started s3]) <= cap)%nat. rewrite length_app. cbn [length]. lia.
Qed.

(** Threads that run: in the list and not ended. *)
Definition running (s : Service) : list nat := filter (fun t => t ∉ finished s) (live s).

Lemma filter_keeps_all {A} (P : A -> Prop) `{forall x, Decision (P x)} l : Forall P l -> filter P l = l.
Proof. induction 1 as [|x l Hx Hl IH]; [done|]. by rewrite filter_cons_True, IH. Qed.

(** What a pass leaves was running when it began. *)
Lemma left_running ends s : (length (live (reap ends s)) <= length (running s))%nat.
Proof.
  destruct (reap_spec ends s) as [(new & _ & N2 & _) _ L _]. unfold running. rewrite N2, list.filter_app, length_app.
  rewrite filter_keeps_all by exact L. lia.
Qed.

(** A connection gets a thread, unless that many were running when it came or none
    can be made. *)
Lemma accept_turn_accounts cap t s : service_ok cap s ->
  let s' := accept_turn cap t s in
  match accepted t with
  | Connection spawned =>
      (cap <= length (running (on_accept t s)))%nat /\ started s' = started s /\ refused s' = S (refused s) /\ lost s' = lost s \/
      refused s' = refused s /\
        if spawned then started s' = S (started s) /\ lost s' = lost s else started s' = started s /\ lost s' = S (lost s)
  | _ => started s' = started s /\ refused s' = refused s /\ lost s' = lost s
  end.
Proof.
  intros Hok. cbv zeta. unfold accept_turn. destruct (on_accept_ok cap t s Hok) as (Hok1 & A1 & A2 & A3). destruct (accepted t) as [spawned| |]; [|done|done].
  pose proof (left_running (reap2 t) (on_accept t s)) as Hrun. destruct (reap_spec (reap2 t) (on_accept t s)) as [_ _ _ (B1 & B2 & B3)].
  cbv zeta. cbn [finish live started refused lost].
  destruct (Nat.leb_spec cap (length (live (reap (reap2 t) (on_accept t s))))) as [Hge|Hlt].
  - left. split; [lia|]. cbn [started refused lost]. rewrite B1, B2, B3, A1, A2, A3. done.
  - right. destruct spawned; cbn [started refused lost]; rewrite B1, B2, B3, A1, A2, A3; done.
Qed.

(** ** Lines *)

Definition ldata (src : list LineEvent) : list Z := concat (map (fun e => match e with LData c => c | _ => [] end) src).
(** Nothing ends the wait before [deadline]. *)
Definition calm (deadline : Z) (src : list LineEvent) : Prop :=
  Forall (fun e => match e with LData _ => True | LQuiet now shutdown => shutdown = false /\ now < deadline | _ => False end) src.

Lemma max_command_val : Z.of_nat MAX_COMMAND_BYTES = 4096.
Proof. unfold MAX_COMMAND_BYTES. lia. Qed.
#[global] Opaque MAX_COMMAND_BYTES.

Lemma unread_data rest src : ldata (unread rest src) = rest ++ ldata src.
Proof. by destruct rest. Qed.
Lemma unread_calm d rest src : calm d src -> calm d (unread rest src).
Proof. intros H. destruct rest; [done|]. by constructor. Qed.

Lemma take_line_plain b c : 10 ∉ c -> take_line b c = (take b c, drop b c).
Proof.
  revert c. induction b as [|b IH]; intros [|x c] Hc; try done. apply not_elem_of_cons in Hc as [Hx Hc]. cbn [take_line]. rewrite (proj2 (Z.eqb_neq x 10)) by done. by rewrite IH.
Qed.
Lemma take_line_end b l r : 10 ∉ l -> (length l < b)%nat -> take_line b (l ++ 10 :: r) = (l ++ [10], r).
Proof.
  revert b. induction l as [|x l IH]; intros [|b] Hl Hb; cbn [length] in Hb; try lia; [done|]. apply not_elem_of_cons in Hl as [Hx Hl]. cbn [app take_line].
  rewrite (proj2 (Z.eqb_neq x 10)) by done. rewrite IH by (first [done|lia]). done.
Qed.

Lemma last_not_eol buf : 10 ∉ buf -> bool_decide (list.last buf = Some 10) = false.
Proof. intros Hb. apply bool_decide_eq_false_2. intros Hl%list.last_Some_elem_of. done. Qed.

Lemma read_line_spec d0 d l rest : d0 <= d -> 10 ∉ l -> (length l + 1 <= MAX_COMMAND_BYTES)%nat -> forall src buf, calm d0 src -> 10 ∉ buf -> buf ++ ldata src = l ++ 10 :: rest ->
  exists src', read_line d buf src = (Line (from_utf8_lossy (strip_eol (l ++ [10]))), src') /\ ldata src' = rest /\ calm d0 src'.
Proof.
  intros Hd0 Hl Hmax. induction src as [|e src IH]; intros buf Hc Hb Hd.
  { cbn in Hd. rewrite app_nil_r in Hd. subst buf. exfalso. apply Hb, elem_of_app. right. by left. }
  apply Forall_cons_1 in Hc as [He Hc]. destruct e as [c|now sh| |]; try done; cbn [read_line].
  2:{ destruct He as [-> Hn]. rewrite (proj2 (Z.leb_gt d now)) by lia. cbn [orb]. by apply IH. }
  unfold ldata in Hd. cbn [map concat] in Hd. change (buf ++ c ++ ldata src = l ++ 10 :: rest) in Hd.
  assert (Hbl : (length buf <= length l)%nat).
  { destruct (decide (length buf <= length l)%nat) as [|Hn]; [done|]. exfalso. destruct (app_prefix l (10 :: rest) buf _ (eq_sym Hd)) as (t & -> & Et); [lia|].
    rewrite length_app in Hn. destruct t as [|y t]; [cbn in Hn; lia|]. injection Et as <- _. apply Hb, elem_of_app. right. by left. }
  destruct (app_prefix buf _ l _ Hd Hbl) as (l2 & -> & E2). apply not_elem_of_app in Hl as [_ Hl2]. rewrite length_app in Hmax.
  destruct (decide (length c <= length l2)%nat) as [Hs|Hs].
  - destruct (app_prefix c _ l2 _ E2 Hs) as (l3 & -> & E3). apply not_elem_of_app in Hl2 as [Hcn Hl3]. rewrite take_line_plain by done. rewrite length_app in Hmax.
    rewrite take_ge, drop_ge by lia. rewrite (proj2 (Nat.ltb_ge _ _)) by (rewrite length_app; lia). rewrite last_not_eol by (by apply not_elem_of_app).
    destruct (IH (buf ++ c)) as (src' & E & R); [done|by apply not_elem_of_app|by rewrite <- !app_assoc, E3|]. exists src'. by rewrite E, <- app_assoc.
  - destruct (app_prefix l2 _ c _ (eq_sym E2)) as (c2 & -> & Ec); [lia|]. destruct c2 as [|y c2]; [rewrite app_nil_r in Hs; lia|]. injection Ec as <- Ec.
    rewrite take_line_end by (first [done|lia]). rewrite (proj2 (Nat.ltb_ge _ _)) by (rewrite !length_app; cbn; lia).
    rewrite app_assoc, bool_decide_eq_true_2 by apply list.last_snoc. eexists. split; [done|]. rewrite unread_data. split; [by rewrite Ec|by apply unread_calm].
Qed.

(** A line that is too long ends the session with one byte more than the limit read. *)
Lemma read_line_overlong d : forall src buf, calm d src -> (length buf <= MAX_COMMAND_BYTES)%nat -> (MAX_COMMAND_BYTES < length (buf ++ ldata src))%nat ->
  10 ∉ take (MAX_COMMAND_BYTES + 1) (buf ++ ldata src) ->
  exists src', read_line d buf src = (NoLine, src') /\ (length (buf ++ ldata src) - length (ldata src') = MAX_COMMAND_BYTES + 1)%nat.
Proof.
  induction src as [|e src IH]; intros buf Hc Hb Hlong Hno.
  { cbn in Hlong. rewrite app_nil_r in Hlong. lia. }
  apply Forall_cons_1 in Hc as [He Hc]. destruct e as [c|now sh| |]; try done; cbn [read_line].
  2:{ destruct He as [-> Hn]. rewrite (proj2 (Z.leb_gt d now)) by done. cbn [orb]. by apply IH. }
  assert (Ed : ldata (LData c :: src) = c ++ ldata src) by done. rewrite Ed in *.
  assert (Hcn : 10 ∉ take (MAX_COMMAND_BYTES + 1 - length buf) c).
  { intros Hin. apply Hno. rewrite take_app_ge by lia. apply elem_of_app. right.
    rewrite take_app. apply elem_of_app. by left. }
  assert (Et : take_line (MAX_COMMAND_BYTES + 1 - length buf) c = (take (MAX_COMMAND_BYTES + 1 - length buf) c, drop (MAX_COMMAND_BYTES + 1 - length buf) c)).
  { clear - Hcn. revert Hcn. generalize (MAX_COMMAND_BYTES + 1 - length buf)%nat as b. intros b. revert c. induction b as [|b IH]; intros [|x c] Hcn; try done.
    cbn [take] in Hcn. apply not_elem_of_cons in Hcn as [Hx Hcn]. cbn [take_line take drop]. rewrite (proj2 (Z.eqb_neq x 10)) by done. by rewrite IH. }
  rewrite Et. destruct (Nat.ltb_spec MAX_COMMAND_BYTES (length (buf ++ take (MAX_COMMAND_BYTES + 1 - length buf) c))) as [Hlt|Hge]; rewrite length_app, length_take in *.
  - eexists. split; [done|]. rewrite unread_data, !length_app, length_drop. lia.
  - rewrite take_ge in * by lia. assert (Hb10 : 10 ∉ buf ++ c).
    { intros Hin. apply Hno. rewrite app_assoc, take_app_ge by (rewrite length_app; lia). apply elem_of_app. by left. }
    rewrite last_not_eol by done. destruct (IH (buf ++ c)) as (src' & E & R); [done|rewrite length_app; lia| | |].
    + rewrite !length_app in *. lia.
    + by rewrite <- app_assoc.
    + exists src'. split; [done|]. rewrite !length_app in *. lia.
Qed.

(** ** Sessions *)

(** The command lines of a session, each read with its own idle deadline. *)
Fixpoint read_lines (ds : list Z) (src : list LineEvent) : list (list Z) * list LineEvent :=
  match ds with
  | [] => ([], src)
  | d :: ds =>
      match read_line d [] src with
      | (Line l, src) => let '(ls, src) := read_lines ds src in (l :: ls, src)
      | (_, src) => ([], src)
      end
  end.

Definition fits (l : list Z) : Prop := (10 ∉ l) /\ (length l + 1 <= MAX_COMMAND_BYTES)%nat.

Lemma read_lines_spec d rest : forall ls ds src, Forall fits ls -> length ds = length ls -> Forall (fun d' => d <= d') ds -> calm d src ->
  ldata src = concat (map (fun l => l ++ [10]) ls) ++ rest ->
  exists src', read_lines ds src = (map (fun l => from_utf8_lossy (strip_eol (l ++ [10]))) ls, src') /\ ldata src' = rest.
Proof.
  induction ls as [|l ls IH]; intros [|d' ds] src Hls Hlen Hds Hc Hd; try done; [by exists src|]. apply Forall_cons_1 in Hls as [[Hl Hm] Hls]. apply Forall_cons_1 in Hds as [Hd' Hds].
  cbn [read_lines map]. cbn [map concat] in Hd. rewrite <- !app_assoc in Hd.
  destruct (read_line_spec d d' l _ Hd' Hl Hm src [] Hc ltac:(apply not_elem_of_nil) Hd) as (src1 & -> & Ed & Hc1).
  destruct (IH ds src1 Hls) as (src' & -> & R); [by injection Hlen|done|done|done|]. by exists src'.
Qed.

(** A command: text without line ends that fits with its own. *)
Definition command (c : list Z) : Prop := utf8_valid c = true /\ (10 ∉ c) /\ (13 ∉ c) /\ (length c + 2 <= MAX_COMMAND_BYTES)%nat.

Lemma strip_eol_command c : (10 ∉ c) -> (13 ∉ c) -> strip_eol ((c ++ [13]) ++ [10]) = c.
Proof.
  intros H1 H2. unfold strip_eol. rewrite !reverse_app. change (strip_eol_rev (reverse [10] ++ reverse [13] ++ reverse c)) with (strip_eol_rev (reverse c)).
  destruct (reverse c) as [|x r] eqn:Er; [apply (f_equal reverse) in Er; by rewrite reverse_involutive in Er|].
  assert (Hx : x ∈ c) by (rewrite <- (reverse_involutive c), Er, elem_of_reverse; by left). cbn [strip_eol_rev].
  rewrite (proj2 (Z.eqb_neq x 10)), (proj2 (Z.eqb_neq x 13)) by (intros ->; done). cbn [orb]. by rewrite <- Er, reverse_involutive.
Qed.

Definition connections (ts : list Turn) : nat := length (List.filter (fun t => match accepted t with Connection _ => true | _ => false end) ts).

Lemma accept_turns_ok cap : forall ts s, service_ok cap s -> service_ok cap (accept_turns cap ts s) /\
  (started (accept_turns cap ts s) + refused (accept_turns cap ts s) + lost (accept_turns cap ts s) = started s + refused s + lost s + connections ts)%nat.
Proof.
  induction ts as [|t ts IH]; intros s Hok; [cbn; split; [done|]; unfold connections; cbn; lia|]. cbn [accept_turns foldl]. pose proof (accept_turn_ok cap t s Hok) as Hok1.
  pose proof (accept_turn_accounts cap t s Hok) as Hacc. cbv zeta in Hacc. destruct (IH _ Hok1) as [I1 I2]. split; [done|]. unfold accept_turns in I2 |- *. rewrite I2.
  unfold connections. cbn [List.filter]. destruct (accepted t) as [[]| |]; cbn [length]; destruct_and?; destruct_or?; destruct_and?; lia.
Qed.

(** * Properties *)

(** C38: a service never runs more threads than its limit and loses none.  Whatever
    connections come and whenever session threads end, between the loads of two
    flags too: at most [cap] threads are kept; each started thread is kept or was
    joined, exactly once, and none was joined before it set its flag, so the loop
    never blocks on a running session; every connection got a thread, was refused,
    or failed to get one, and one is refused only if [cap] sessions were running
    when it was accepted.  After a shutdown every thread has been joined. *)
Theorem service_threads_bounded cap ts :
  let s := accept_turns cap ts service_new in
  (length (live s) <= cap)%nat /\ seq 0 (started s) ≡ₚ live s ++ joined s /\ Forall (fun t => t ∈ finished s) (joined s) /\
  (started s + refused s + lost s = connections ts)%nat /\
  (forall t, refused (accept_turn cap t s) <> refused s -> (cap <= length (running (on_accept t s)))%nat) /\
  joined (accept_loop cap ts) ≡ₚ seq 0 (started s).
Proof.
  destruct (accept_turns_ok cap ts service_new) as [Hok Hn]; [split; cbn; [done|lia|constructor]|]. cbv zeta. destruct Hok as [H1 H2 H3] eqn:E. clear E.
  split_and!; [done|done|done|cbn in Hn; lia| |].
  - intros t Hr. pose proof (accept_turn_accounts cap t _ (Build_service_ok _ _ H1 H2 H3)) as Hacc. cbv zeta in Hacc.
    destruct (accepted t) as [[]| |]; destruct_and?; destruct_or?; destruct_and?; try done.
  - unfold accept_loop. cbn. rewrite H1. solve_Permutation.
Qed.

(** With a limit of two: a session that ends after its flag was loaded still counts,
    so a connection is refused while only one runs. *)
Example refused_below_limit :
  let full := accept_turns 2 [mkTurn [] [] (Connection true) [] []; mkTurn [] [] (Connection true) [] []] service_new in
  let s := accept_turn 2 (mkTurn [] [] (Connection true) [[]; [0%nat]] []) full in
  refused s = 1%nat /\ running s = [1%nat].
Proof. vm_compute. done. Qed.

(** Commands reach an FTP session whole, in order and without their line ends,
    however the bytes are cut and however many polls time out between them, as long
    as no idle deadline passes; and a client that sends more than the limit without
    a line end is cut off after one byte too many. *)
Theorem ftp_command_lines d ds src :
  calm d src ->
  (forall cmds rest, Forall command cmds -> length ds = length cmds -> Forall (fun d' => d <= d') ds ->
    ldata src = concat (map (fun c => c ++ [13; 10]) cmds) ++ rest -> exists src', read_lines ds src = (cmds, src') /\ ldata src' = rest) /\
  ((MAX_COMMAND_BYTES < length (ldata src))%nat -> 10 ∉ take (MAX_COMMAND_BYTES + 1) (ldata src) ->
    exists src', read_line d [] src = (NoLine, src') /\ (length (ldata src) - length (ldata src') = MAX_COMMAND_BYTES + 1)%nat).
Proof.
  intros Hc. split.
  - intros cmds rest Hcmds Hlen Hds Hd.
    destruct (read_lines_spec d rest (map (fun c => c ++ [13]) cmds) ds src) as (src' & E & R); [|by rewrite length_map|done|done| |].
    + apply list.Forall_fmap. eapply list.Forall_impl; [exact Hcmds|]. intros c (_ & H10 & _ & Hl). split; [rewrite not_elem_of_app; split; [done|apply (bool_decide_unpack _); done]|].
      rewrite length_app. cbn. lia.
    + rewrite Hd, map_map. f_equal. f_equal. apply map_ext. intros c. by rewrite <- app_assoc.
    + exists src'. split; [|done]. rewrite E, map_map. f_equal. rewrite <- (map_id cmds) at 2. apply map_ext_in. intros c Hin%list_elem_of_In.
      rewrite list.Forall_forall in Hcmds. destruct (Hcmds c Hin) as (Hu & H10 & H13 & _). rewrite strip_eol_command by done. by apply from_utf8_lossy_valid.
  - intros Hlong Hno. apply (read_line_overlong d src []); [done|cbn; lia|done|done].
Qed.

Definition toy_lines : list LineEvent := [LData (bs "USER vi"); LQuiet 1000 false; LData (bs "ta" ++ [13; 10] ++ bs "PASS"); LData (bs " x" ++ [13; 10])].
Lemma ftp_command_lines_witness : exists src', read_lines [120000; 120000] toy_lines = ([bs "USER vita"; bs "PASS x"], src') /\ ldata src' = [].
Proof.
  apply (proj1 (ftp_command_lines 120000 [120000; 120000] toy_lines ltac:(repeat constructor; lia))); [|done|repeat constructor; lia|done].
  repeat constructor; try (apply (bool_decide_unpack _); vm_compute; done); apply Nat2Z.inj_le; rewrite max_command_val; vm_compute; discriminate.
Defined.

(** The server does not start without a name and a password. *)
Lemma ftp_needs_credentials u p m b t : ftp_spawns u p m b t = true -> u <> [] /\ p <> [] /\ m <> 0.
Proof. unfold ftp_spawns. repeat case_bool_decide; cbn; try done. destruct (Z.eqb_spec m 0); done. Qed.
