(* ===== verification/Http2.v ===== *)
(** The HTTP/2 client over the Noise tunnel (ts-control/src/http2.rs): one connection,
    requests whose answer is read whole, and the one streaming body of the map poll.

    The h2 library and the tokio runtime are the class [H2]: its session, the streams
    on it, and what each await of the code gives.  Errors carry the text of h2's. *)

From S2P Require Import Prelude Text VitaFs Keys MapStream.
#[local] Open Scope Z_scope.

Definition USER_AGENT : list Z := bs "tailscale-vita/0.1.0".

(** ** h2 *)

Record Request : Type := mkRequest { rq_method : list Z; rq_uri : list Z; rq_headers : list (list Z * list Z) }.

(** A session with streams.  [data] is the next chunk, an error or the end;
    [data_within] the same under a timeout, [None] when it elapses; [build] says
    whether the http crate takes the request. *)
Class H2 (S St : Type) : Type := {
  build : Request -> result (list Z) unit;
  h2_ready : S -> S * result (list Z) unit;
  send_request : S -> Request -> bool -> S * result (list Z) St;
  send_data : S -> St -> list Z -> bool -> S * result (list Z) unit;
  response : S -> St -> S * result (list Z) (Z * list (list Z * list Z));
  data : S -> St -> S * option (result (list Z) (list Z));
  data_within : Z -> S -> St -> S * option (option (result (list Z) (list Z)));
  release_capacity : S -> St -> nat -> S * bool;
  close : S -> St -> S
}.

(** What the flow control and the cancelling of a wait promise: the bytes handed out
    on a stream grow by the chunk, which is owed to the window until it is released;
    a timeout hands out nothing. *)
Class H2Laws (S St : Type) `{H2 S St} : Type := {
  handed : S -> St -> list Z;
  owed : S -> St -> nat;
  data_law : forall s s' st r, data s st = (s', r) ->
    match r with
    | Some (Ok c) => handed s' st = handed s st ++ c /\ owed s' st = (owed s st + length c)%nat
    | _ => handed s' st = handed s st /\ owed s' st = owed s st
    end;
  within_law : forall s s' st t r, data_within t s st = (s', r) ->
    match r with
    | Some (Some (Ok c)) => handed s' st = handed s st ++ c /\ owed s' st = (owed s st + length c)%nat
    | _ => handed s' st = handed s st /\ owed s' st = owed s st
    end;
  release_law : forall s s' st n ok, release_capacity s st n = (s', ok) -> (n <= owed s st)%nat ->
    ok = true /\ handed s' st = handed s st /\ owed s' st = (owed s st - n)%nat
}.

(** ** The connection *)

Record Settings : Type := mkSettings {
  enable_push : bool; initial_window_size : Z; initial_connection_window_size : Z; max_frame_size : Z; max_header_list_size : Z
}.
Definition client_settings : Settings := mkSettings false (2 * 1024 * 1024) (5 * 1024 * 1024) (16 * 1024) (16 * 1024).

Record Http2Conn (S St : Type) : Type := mkConn { send : S; body : option St }.
Arguments mkConn {S St} _ _.
Arguments send {S St} _.
Arguments body {S St} _.

Record Http2ResponseHead : Type := mkHead { head_status : Z; head_headers : list (list Z * list Z) }.
Record Http2Response : Type := mkResponse { resp_status : Z; resp_headers : list (list Z * list Z); resp_body : list Z }.
Inductive ChunkOutcome : Type := OChunk (c : list Z) | OEof | OTimeout.

Section Conn.
Context {S St : Type} `{H2 S St}.
#[local] Abbreviation Conn := (Http2Conn S St).

(** [map_err(|e| Transport(format!("...: {e}")))]. *)
Definition transport {A} (what : list Z) (r : result (list Z) A) : result ControlError A :=
  map_err (fun e => Transport (what ++ bs ": " ++ e)) r.

(** [runtime] is whether tokio's runtime can be built, [handshake] the preface and the
    settings sent over the tunnel. *)
Definition open (runtime : result (list Z) unit) (handshake : Settings -> result (list Z) S) : result ControlError Conn :=
  _ ← transport (bs "tokio Builder") runtime;
  s ← transport (bs "h2 handshake") (handshake client_settings);
  Ok (mkConn s None).

Definition request_of (method path authority : list Z) (extra_headers : list (list Z * list Z)) : Request :=
  mkRequest method (bs "https://" ++ authority ++ path) ((bs "user-agent", USER_AGENT) :: extra_headers).

(** The part both requests share: ready, headers, the body unless it is empty, the
    head of the answer.  A stream that was opened is dropped on an error. *)
Definition exchange (req : Request) (b : list Z) (s : S) :
    S * result ControlError (St * (Z * list (list Z * list Z))) :=
  let '(s, r) := h2_ready s in
  match transport (bs "h2 ready") r with
  | Err e => (s, Err e)
  | Ok _ =>
      let '(s, r) := send_request s req (bool_decide (b = [])) in
      match transport (bs "h2 send_request") r with
      | Err e => (s, Err e)
      | Ok st =>
          let '(s, r) := if bool_decide (b = []) then (s, Ok tt) else send_data s st b true in
          match transport (bs "h2 send_data") r with
          | Err e => (close s st, Err e)
          | Ok _ =>
              let '(s, r) := response s st in
              match transport (bs "h2 resp") r with
              | Err e => (close s st, Err e)
              | Ok (status, headers) => (s, Ok (st, (status, map (fun kv => (kv.1, from_utf8_lossy kv.2)) headers)))
              end
          end
      end
  end.

Definition drop_stream (c : Conn) : Conn :=
  mkConn (match body c with Some st => close (send c) st | None => send c end) None.
Definition streaming (c : Conn) : bool := bool_decide (is_Some (body c)).

Definition request_stream (method path b : list Z) (extra_headers : list (list Z * list Z)) (authority : list Z) (c : Conn) :
    Conn * result ControlError Http2ResponseHead :=
  let c := drop_stream c in
  let req := request_of method path authority extra_headers in
  match transport (bs "build request") (build req) with
  | Err e => (c, Err e)
  | Ok _ =>
      let '(s, r) := exchange req b (send c) in
      match r with
      | Err e => (mkConn s None, Err e)
      | Ok (st, (status, headers)) => (mkConn s (Some st), Ok (mkHead status headers))
      end
  end.

Definition no_body : ControlError := Transport (bs "no streaming body active").

(** A chunk goes back to the window at once. *)
Definition next_chunk (c : Conn) : Conn * result ControlError (option (list Z)) :=
  match body c with
  | None => (c, Err no_body)
  | Some st =>
      let '(s, r) := data (send c) st in
      match r with
      | Some (Ok chunk) => (mkConn (release_capacity s st (length chunk)).1 (Some st), Ok (Some chunk))
      | Some (Err e) => (mkConn s (Some st), Err (Transport (bs "h2 body chunk: " ++ e)))
      | None => (mkConn s (Some st), Ok None)
      end
  end.

Definition next_chunk_timeout (timeout : Z) (c : Conn) : Conn * result ControlError ChunkOutcome :=
  match body c with
  | None => (c, Err no_body)
  | Some st =>
      let '(s, r) := data_within timeout (send c) st in
      match r with
      | Some (Some (Ok chunk)) => (mkConn (release_capacity s st (length chunk)).1 (Some st), Ok (OChunk chunk))
      | Some (Some (Err e)) => (mkConn s (Some st), Err (Transport (bs "h2 body chunk: " ++ e)))
      | Some None => (mkConn s (Some st), Ok OEof)
      | None => (mkConn s (Some st), Ok OTimeout)
      end
  end.

(** The [while let] of [request]; [fuel] is one more than the chunks of the answer. *)
Fixpoint read_body (fuel : nat) (st : St) (acc : list Z) (s : S) : outcome (S * result ControlError (list Z)) :=
  match fuel with
  | O => OutOfFuel
  | Datatypes.S f =>
      let '(s, r) := data s st in
      match r with
      | None => Val (s, Ok acc)
      | Some (Err e) => Val (s, Err (Transport (bs "h2 body chunk: " ++ e)))
      | Some (Ok chunk) => read_body f st (acc ++ chunk) (release_capacity s st (length chunk)).1
      end
  end.

Definition request (fuel : nat) (method path b : list Z) (extra_headers : list (list Z * list Z)) (authority : list Z) (c : Conn) :
    outcome (Conn * result ControlError Http2Response) :=
  let req := request_of method path authority extra_headers in
  match transport (bs "build request") (build req) with
  | Err e => Val (c, Err e)
  | Ok _ =>
      let '(s, r) := exchange req b (send c) in
      match r with
      | Err e => Val (mkConn s (body c), Err e)
      | Ok (st, (status, headers)) =>
          (fun '(s, r) => (mkConn (close s st) (body c),
                           match r with Ok bytes => Ok (mkResponse status headers bytes) | Err e => Err e end)) <$>
          read_body fuel st [] s
      end
  end.

(** ** What the client promises *)

(** The answer on a stream: its chunks, each released before the next is awaited, then
    the end or an error. *)
Inductive yields (st : St) : S -> list (list Z) -> S -> option (list Z) -> Prop :=
| yields_end s s' : data s st = (s', None) -> yields st s [] s' None
| yields_error s s' e : data s st = (s', Some (Err e)) -> yields st s [] s' (Some e)
| yields_chunk s s1 c cs s' r : data s st = (s1, Some (Ok c)) ->
    yields st (release_capacity s1 st (length c)).1 cs s' r -> yields st s (c :: cs) s' r.

(** The body of an answer that ends is the chunks in order; an error anywhere is the
    result instead of a shortened body. *)
Lemma read_body_yields st s cs s' r acc fuel : yields st s cs s' r -> (length cs < fuel)%nat ->
  read_body fuel st acc s =
  Val (s', match r with None => Ok (acc ++ concat cs) | Some e => Err (Transport (bs "h2 body chunk: " ++ e)) end).
Proof.
  intros Hy. revert acc fuel. induction Hy as [s s' E|s s' e E|s s1 c cs s' r E Hy IH]; intros acc [|f] Hf; try (cbn in Hf; lia);
    cbn [read_body]; rewrite E; [by rewrite app_nil_r|done|].
  rewrite IH by (cbn in Hf; lia). cbn [concat]. by destruct r; rewrite ?app_assoc.
Qed.

(** A request whose exchange succeeds and whose answer ends returns the head and the
    whole body, closes its own stream and keeps the one a map poll may have open. *)
Theorem request_reads_all c method path b hs authority s st status headers cs s' fuel :
  build (request_of method path authority hs) = Ok tt ->
  exchange (request_of method path authority hs) b (send c) = (s, Ok (st, (status, headers))) ->
  yields st s cs s' None -> (length cs < fuel)%nat ->
  request fuel method path b hs authority c = Val (mkConn (close s' st) (body c), Ok (mkResponse status headers (concat cs))).
Proof.
  intros Hb He Hy Hf. unfold request. rewrite Hb. cbn [transport map_err]. rewrite He.
  by rewrite (read_body_yields st s cs s' None [] fuel Hy Hf).
Qed.

(** A map poll that is asked for again never reads an older answer: the old stream is
    closed first, and after an error there is none. *)
Theorem request_stream_replaces method path b hs authority c c' r :
  request_stream method path b hs authority c = (c', r) ->
  (is_ok r = false -> body c' = None) /\
  (forall h, r = Ok h -> exists s st, exchange (request_of method path authority hs) b (send (drop_stream c)) =
     (s, Ok (st, (head_status h, head_headers h))) /\ c' = mkConn s (Some st)).
Proof.
  unfold request_stream. destruct (transport _ (build _)); [|intros [= <- <-]; done].
  destruct (exchange _ _ _) as [s [[st [status headers]]|e]] eqn:E; intros [= <- <-]; [|done].
  split; [done|]. intros h [= <-]. cbn. by exists s, st.
Qed.

Section Laws.
Context `{!H2Laws S St}.

(** What the framer of the map stream sees of a call. *)
Definition wake_of (r : result ControlError ChunkOutcome) : Wake :=
  match r with Ok (OChunk c) => Chunk c | Ok OEof => ChunkEof | Ok OTimeout => ChunkTimeout | Err _ => ChunkErr end.
Definition wake_bytes (w : Wake) : list Z := match w with Chunk c => c | _ => [] end.

Fixpoint poll_chunks (timeouts : list Z) (c : Conn) : Conn * list Wake :=
  match timeouts with
  | [] => (c, [])
  | t :: ts => let '(c, r) := next_chunk_timeout t c in let '(c, ws) := poll_chunks ts c in (c, wake_of r :: ws)
  end.

Lemma next_chunk_timeout_spec t c c' r st : body c = Some st -> next_chunk_timeout t c = (c', r) ->
  body c' = Some st /\ handed (send c') st = handed (send c) st ++ wake_bytes (wake_of r) /\ owed (send c') st = owed (send c) st.
Proof.
  intros Hb. unfold next_chunk_timeout. rewrite Hb. destruct (data_within t (send c) st) as [s d] eqn:E. apply within_law in E.
  destruct d as [[[chunk|e]|]|]; intros [= <- <-]; cbn; rewrite ?app_nil_r; [|by destruct E..].
  destruct E as [E1 E2]. destruct (release_capacity s st (length chunk)) as [s2 ok] eqn:Er.
  apply release_law in Er as (_ & E3 & E4); [|lia]. cbn. split_and!; [done|by rewrite E3|lia].
Qed.

Lemma next_chunk_spec c c' r st : body c = Some st -> next_chunk c = (c', r) ->
  body c' = Some st /\ handed (send c') st = handed (send c) st ++ default [] (ok r ≫= id) /\ owed (send c') st = owed (send c) st.
Proof.
  intros Hb. unfold next_chunk. rewrite Hb. destruct (data (send c) st) as [s d] eqn:E. apply data_law in E.
  destruct d as [[chunk|e]|]; intros [= <- <-]; cbn; rewrite ?app_nil_r; [|by destruct E..].
  destruct E as [E1 E2]. destruct (release_capacity s st (length chunk)) as [s2 ok] eqn:Er.
  apply release_law in Er as (_ & E3 & E4); [|lia]. cbn. split_and!; [done|by rewrite E3|lia].
Qed.

(** Polled with any timeouts, the stream's bytes reach the framer in order, each once,
    whatever times out in between, and the window owes nothing it did not owe before:
    the poll cannot stall on flow control. *)
Theorem poll_delivers_in_order ts c c' ws st : body c = Some st -> poll_chunks ts c = (c', ws) ->
  body c' = Some st /\ length ws = length ts /\
  handed (send c') st = handed (send c) st ++ concat (map wake_bytes ws) /\ owed (send c') st = owed (send c) st.
Proof.
  revert c ws. induction ts as [|t ts IH]; intros c ws Hb; cbn [poll_chunks].
  - intros [= <- <-]. cbn. by rewrite app_nil_r.
  - destruct (next_chunk_timeout t c) as [c1 r] eqn:E1. destruct (poll_chunks ts c1) as [c2 ws2] eqn:E2. intros [= <- <-].
    destruct (next_chunk_timeout_spec t c c1 r st Hb E1) as (Hb1 & Hh1 & Ho1). destruct (IH c1 ws2 Hb1 E2) as (Hb2 & Hl & Hh2 & Ho2).
    cbn. split_and!; [done|by rewrite Hl| |by rewrite Ho2]. by rewrite Hh2, Hh1, app_assoc.
Qed.

(** The end of the body leaves the stream attached: [streaming] still says yes. *)
Theorem eof_keeps_streaming t c c' st : body c = Some st -> next_chunk_timeout t c = (c', Ok OEof) -> streaming c' = true.
Proof.
  intros Hb E. destruct (next_chunk_timeout_spec t c c' _ st Hb E) as (Hb' & _). unfold streaming. rewrite Hb'. by apply bool_decide_eq_true.
Qed.
End Laws.
End Conn.

(** ** A scripted session *)

Module ToyH2.

(** The chunks to come, with [None] for a pause longer than any timeout. *)
Record Toy : Type := mkToy { script : list (option (list Z)); got : list Z; debt : nat; closed : nat }.

Fixpoint after_pauses (l : list (option (list Z))) : option (list Z * list (option (list Z))) :=
  match l with [] => None | None :: l => after_pauses l | Some c :: l => Some (c, l) end.
Definition take_data (s : Toy) (_ : unit) : Toy * option (result (list Z) (list Z)) :=
  match after_pauses (script s) with
  | None => (mkToy [] (got s) (debt s) (closed s), None)
  | Some (c, l) => (mkToy l (got s ++ c) (debt s + length c) (closed s), Some (Ok c))
  end.
Definition take_within (_ : Z) (s : Toy) (st : unit) : Toy * option (option (result (list Z) (list Z))) :=
  match script s with
  | None :: l => (mkToy l (got s) (debt s) (closed s), None)
  | _ => let '(s, r) := take_data s st in (s, Some r)
  end.

#[global] Instance toy_h2 : H2 Toy unit := {
  build _ := Ok tt;
  h2_ready s := (s, Ok tt);
  send_request s _ _ := (s, Ok tt);
  send_data s _ _ _ := (s, Ok tt);
  response s _ := (s, Ok (200, []));
  data := take_data;
  data_within := take_within;
  release_capacity s _ n := if decide (n <= debt s)%nat then (mkToy (script s) (got s) (debt s - n) (closed s), true) else (s, false);
  close s _ := mkToy (script s) (got s) (debt s) (closed s + 1)
}.

#[global, refine] Instance toy_h2_laws : H2Laws Toy unit := { handed s _ := got s; owed s _ := debt s }.
Proof.
  - intros s s' st r. cbn. unfold take_data. destruct (after_pauses (script s)) as [[c l]|]; intros [= <- <-]; done.
  - intros s s' st t r. cbn. unfold take_within, take_data. destruct (script s) as [|[c|] l]; cbn; intros [= <- <-]; done.
  - intros s s' st n o. cbn. case_decide; [|done]. by intros [= <- <-].
Defined.

Definition toy_conn : Http2Conn Toy unit := mkConn (mkToy [Some [1; 2]; None; Some [3]] [] 0 0) None.

(** Three chunks' worth of polling around a pause, and the same answer read whole. *)
Example toy_poll :
  let c := (request_stream (bs "POST") (bs "/machine/map") [7] [] (bs "h") toy_conn).1 in
  (poll_chunks [5; 5; 5; 5] c).2 = [Chunk [1; 2]; ChunkTimeout; Chunk [3]; ChunkEof] /\
  exists c', request 3 (bs "POST") (bs "/machine/register") [7] [] (bs "h") toy_conn = Val (c', Ok (mkResponse 200 [] [1; 2; 3])).
Proof. split; [by vm_compute|]. eexists. by vm_compute. Qed.

End ToyH2.
