(* ===== verification/Probe.v ===== *)
(** The egress probe (tailscale-vita/src/egress_probe.rs): the tagged datagrams it
    makes, the two ways it sends each of them through the socket of [Magicsock], and
    its account of what the kernel answered.

    The probe has its own thread.  The engine's selection log, which it drains into its
    trace, is not part of the account.  What the worker and every other user of the socket
    do while it sleeps is a function of the number of the sleep. *)

From S2P Require Import Prelude NetTypes Disco Stun Magicsock.
#[local] Open Scope Z_scope.

(** ** The datagrams *)

Definition TRAILER_LEN : nat := 4.
Definition TRAILER_A : Z := 0xA5.
Definition TRAILER_Z : Z := 0x5A.

(** [p[a..a + n]] as the target of a write of [n] bytes. *)
Definition put (a : nat) (bytes p : list Z) : outcome (list Z) :=
  if decide (a + length bytes <= length p)%nat
  then Val (take a p ++ bytes ++ drop (a + length bytes) p) else Panicked.

Definition xorshift (x : Z) : Z :=
  let x := Z.lxor x (wrap 32 (Z.shiftl x 13)) in
  let x := Z.lxor x (Z.shiftr x 17) in
  Z.lxor x (wrap 32 (Z.shiftl x 5)).

Fixpoint entropy_loop (n : nat) (x : Z) : list Z :=
  match n with
  | O => []
  | S n => let x := xorshift x in wrap 8 (Z.shiftr x 24) :: entropy_loop n x
  end.

(** [fill_entropy(&mut p[a..b], seed)]. *)
Definition fill_entropy (a b : nat) (seed : Z) (p : list Z) : outcome (list Z) :=
  if decide (a <= b)%nat
  then put a (entropy_loop (b - a) (Z.lor (wrap 32 (seed * 2654435761)) 1)) p else Panicked.

(** [len - TRAILER_LEN]. *)
Definition body_end (len : nat) : outcome nat :=
  if decide (TRAILER_LEN <= len)%nat then Val (len - TRAILER_LEN)%nat else Panicked.

Definition wg_type4 (len : nat) (round shape_id : Z) (entropy_body : bool) : outcome (list Z) :=
  p ← put 0 [0x04] (repeat 0 len);
  let seed := Z.lor (Z.lor 0x57470000 (Z.shiftl shape_id 8)) round in
  p ← fill_entropy 4 8 (Z.lxor seed 0xffffffff) p;
  p ← put 8 (le_bytes 8 round) p;
  if entropy_body then
    e ← body_end len;
    fill_entropy 16 e seed p
  else Val p.

Definition disco_shape (len : nat) (round shape_id : Z) : outcome (list Z) :=
  p ← put 0 MAGIC (repeat 0 len);
  let seed := Z.lor (Z.lor 0x44530000 (Z.shiftl shape_id 8)) round in
  e ← body_end len;
  fill_entropy 6 e seed p.

Definition build_battery (round : Z) : outcome (list (Z * list Z)) :=
  wg96 ← wg_type4 96 round 1 true;
  flip ← put 0 [0x14] wg96;
  s3 ← wg_type4 32 round 3 true;
  s4 ← wg_type4 96 round 4 false;
  s5 ← wg_type4 110 round 5 true;
  s6 ← disco_shape 110 round 6;
  Val [(1, wg96); (2, flip); (3, s3); (4, s4); (5, s5); (6, s6)].

(** Four stores into the last bytes; [n - 4] underflows for a shorter buffer. *)
Definition tag (p : list Z) (shape_id ctx round : Z) : outcome (list Z) :=
  e ← body_end (length p);
  put e [TRAILER_A; Z.lor shape_id (wrap 8 (Z.shiftl ctx 4)); round; TRAILER_Z] p.

(** ** The account *)

Record Summary : Type := mkSummary { sends : Z; full : Z; short : Z; zero : Z; err : Z }.
Definition Summary_default : Summary := mkSummary 0 0 0 0 0.

(** [None] is an error of the call. *)
Definition count (req : nat) (ret : option nat) (s : Summary) : Summary :=
  match ret with
  | Some n =>
      if (n =? req)%nat then mkSummary (sends s + 1) (full s + 1) (short s) (zero s) (err s)
      else if (n =? 0)%nat then mkSummary (sends s + 1) (full s) (short s) (zero s + 1) (err s)
      else mkSummary (sends s + 1) (full s) (short s + 1) (zero s) (err s)
  | None => mkSummary (sends s + 1) (full s) (short s) (zero s) (err s + 1)
  end.

(** ** spawn and run *)

Record EgressProbeConfig : Type := mkProbeConfig {
  probe_enabled : bool; targets : list (list Z); rounds : Z; initial_delay_secs : Z; spacing_ms : Z
}.
Definition EgressProbeConfig_default : EgressProbeConfig := mkProbeConfig false [] 5 15 250.

(** The probe's own state: the socket, the sleeps so far and the account. *)
Record Probe : Type := mkProbe { sock : Magic; sleeps : nat; sum : Summary }.

Section Probe.
Context (udp_ret : nat -> nat -> option nat) (has_v6 : bool).
Context (others : nat -> Magic -> Magic).
Context (parse_addr : list Z -> option SocketAddr).

Definition sleep (s : Probe) : Probe := mkProbe (others (sleeps s) (sock s)) (S (sleeps s)) (sum s).

(** One target: through the queue, then directly. *)
Definition probe_one (round shape_id : Z) (base : list Z) (s : Probe) (dst : SocketAddr) : outcome Probe :=
  queued ← tag base shape_id 0 round;
  let s := sleep (mkProbe (send_to has_v6 dst queued (sock s)).2 (sleeps s) (sum s)) in
  direct ← tag base shape_id 1 round;
  let '(r, w) := send_direct udp_ret has_v6 dst direct (sock s) in
  Val (sleep (mkProbe w (sleeps s) (count (length direct) (ok r) (sum s)))).

Fixpoint each {A} (f : Probe -> A -> outcome Probe) (l : list A) (s : Probe) : outcome Probe :=
  match l with [] => Val s | x :: l => s ← f s x; each f l s end.

Definition harvest (s : Probe) : Probe :=
  let '(recs, w) := take_send_records (sock s) in
  mkProbe w (sleeps s) (foldl (fun acc r => count (rec_req r) (rec_ret r) acc) (sum s) recs).

Definition run_round (tgts : list SocketAddr) (s : Probe) (round : Z) : outcome Probe :=
  battery ← build_battery round;
  s ← each (fun s (sb : Z * list Z) => each (probe_one round sb.1 sb.2) tgts s) battery s;
  Val (harvest (sleep s)).

Definition run (cfg : EgressProbeConfig) (tgts : list SocketAddr) (w : Magic) : outcome Probe :=
  let s := sleep (mkProbe w 0 Summary_default) in
  let n := wrap 8 (Z.min (rounds cfg) 200) in
  let s := mkProbe (take_send_records (sock s)).2 (sleeps s) (sum s) in
  each (run_round tgts) (seqZ 0 n) s.

(** [None]: no target parses or the thread cannot be made ([thread] is false). *)
Definition spawn (thread : bool) (cfg : EgressProbeConfig) (w : Magic) : option (outcome Probe) :=
  match omap parse_addr (targets cfg) with
  | [] => None
  | tgts => if thread then Some (run cfg tgts w) else None
  end.

End Probe.

(** ** What the battery is *)

(** What a listener reads from the last four bytes. *)
Definition read_tag (p : list Z) : option (Z * Z * Z) :=
  match drop (length p - 4) p with
  | [a; sc; r; z] => if (a =? TRAILER_A) && (z =? TRAILER_Z) then Some (Z.land sc 15, Z.shiftr sc 4, r) else None
  | _ => None
  end.

Lemma length_put a b p q : put a b p = Val q -> length q = length p.
Proof. unfold put. case_decide; [|done]. intros [= <-]. rewrite !length_app, length_take, length_drop. lia. Qed.

(** A datagram of four bytes or more takes its tag, which leaves the rest alone and
    which the listener reads back. *)
Theorem tag_spec p id ctx round :
  (4 <= length p)%nat -> 0 <= id < 16 -> 0 <= ctx < 16 ->
  exists q, tag p id ctx round = Val q /\ length q = length p /\
    take (length p - 4) q = take (length p - 4) p /\ read_tag q = Some (id, ctx, round).
Proof.
  intros Hl Hi Hc. unfold tag, body_end, TRAILER_LEN. rewrite decide_True by lia. cbn [mbind outcome_bind].
  unfold put. cbn [length]. rewrite decide_True by lia. eexists. split; [done|].
  rewrite (drop_ge p) by lia.
  assert (Ht : length (take (length p - 4) p) = (length p - 4)%nat) by (rewrite length_take; lia).
  rewrite !length_app, Ht. cbn [length]. split_and!; [lia| |].
  - by apply take_app_len.
  - unfold read_tag. rewrite !length_app, Ht. cbn [length].
    rewrite drop_app_len by lia. cbn [app]. rewrite !Z.eqb_refl. cbn [andb].
    assert (Hw : wrap 8 (Z.shiftl ctx 4) = ctx * 16) by (unfold wrap; rewrite Z.shiftl_mul_pow2 by lia; lia_div).
    rewrite Hw. assert (Hor : Z.lor id (ctx * 16) = id + ctx * 16).
    { assert (Hz : Z.land id (ctx * 16) = 0); [|pose proof (Z.add_lor_land id (ctx * 16)); lia]. apply Z.bits_inj'. intros n Hn. rewrite Z.land_spec, Z.bits_0.
      change 16 with (2 ^ 4). destruct (Z.ltb_spec n 4).
      - rewrite Z.mul_pow2_bits_low by done. by rewrite andb_false_r.
      - rewrite (Z.bits_above_log2 id n); [done|lia|]. destruct (decide (id = 0)) as [->|]; [cbn; lia|].
        apply Z.log2_lt_pow2; [lia|]. apply Z.lt_le_trans with (2 ^ 4); [lia|]. apply Z.pow_le_mono_r; lia. }
    rewrite Hor, Z.shiftr_div_pow2 by lia. change 15 with (Z.ones 4). rewrite Z.land_ones by lia.
    do 3 f_equal; lia_div.
Qed.

(** How the receiving end of the socket sees a datagram. *)
Inductive Shape : Type := AsStun | AsDisco | AsWireGuard (ty : Z) (len : nat) | AsOther.
#[global] Instance shape_eq_dec : EqDecision Shape.
Proof. solve_decision. Defined.
Definition shape_of (p : list Z) : Shape :=
  match looks_like_stun p with
  | Val true => AsStun
  | _ => if is_disco_message p then AsDisco
         else match p with t :: 0 :: 0 :: 0 :: _ => if (1 <=? t) && (t <=? 4) then AsWireGuard t (length p) else AsOther | _ => AsOther end
  end.

Definition battery_ok (round : Z) : bool :=
  match build_battery round with
  | Val b =>
      bool_decide (map fst b = [1; 2; 3; 4; 5; 6] /\ map (fun sb => length sb.2) b = [96; 96; 32; 96; 110; 110]%nat) &&
      forallb (fun ctx =>
        bool_decide (map (fun sb => match tag sb.2 sb.1 ctx round with Val q => shape_of q | _ => AsStun end) b =
          [AsWireGuard 4 96; AsOther; AsWireGuard 4 32; AsWireGuard 4 96; AsWireGuard 4 110; AsDisco])) [0; 1]
  | _ => false
  end.

Lemma battery_checked : forallb battery_ok (seqZ 0 256) = true.
Proof. vm_compute. reflexivity. Qed.

(** In each of the rounds a tag byte can number, the battery is made, its six shapes
    carry their numbers, and tagged either way each is seen as the shape it stands
    for: no probe passes for STUN, only the last for Disco, and the flipped one is no
    WireGuard message. *)
Theorem battery_shapes round ctx : u8 round -> (ctx = 0 \/ ctx = 1) ->
  exists b, build_battery round = Val b /\ map fst b = [1; 2; 3; 4; 5; 6] /\
    map (fun sb => length sb.2) b = [96; 96; 32; 96; 110; 110]%nat /\
    map (fun sb => match tag sb.2 sb.1 ctx round with Val q => shape_of q | _ => AsStun end) b =
    [AsWireGuard 4 96; AsOther; AsWireGuard 4 32; AsWireGuard 4 96; AsWireGuard 4 110; AsDisco].
Proof.
  intros Hr Hc. pose proof battery_checked as H. rewrite forallb_forall in H. specialize (H round).
  assert (Hin : In round (seqZ 0 256)) by (apply list_elem_of_In, elem_of_seqZ; unfold u8 in Hr; lia).
  apply H in Hin. clear H. unfold battery_ok in Hin. destruct (build_battery round) as [b| |]; [|done..].
  apply andb_true_iff in Hin as [H1 H2]. apply bool_decide_eq_true in H1 as [H1 H3]. exists b. split_and!; [done..|].
  cbn [forallb] in H2. rewrite !andb_true_iff, !bool_decide_eq_true in H2. destruct H2 as (? & ? & _). by destruct Hc as [-> | ->].
Qed.

(** ** What the account says *)

Definition balanced (s : Summary) : Prop := sends s = full s + short s + zero s + err s.

Lemma count_spec req ret s : sends (count req ret s) = sends s + 1 /\ (balanced s -> balanced (count req ret s)).
Proof. unfold count, balanced. destruct ret as [n|]; [destruct (n =? req)%nat; [|destruct (n =? 0)%nat]|]; cbn; split; lia. Qed.

Lemma count_records recs s (f := foldl (fun acc r => count (rec_req r) (rec_ret r) acc)) :
  sends (f s recs) = sends s + Z.of_nat (length recs) /\ (balanced s -> balanced (f s recs)).
Proof.
  subst f. revert s. induction recs as [|r recs IH]; intros s; cbn [foldl length]; [split; [lia|done]|].
  destruct (IH (count (rec_req r) (rec_ret r) s)) as [-> Hb]. destruct (count_spec (rec_req r) (rec_ret r) s) as [-> Hc]. split; [lia|auto].
Qed.

Section Account.
Context (udp_ret : nat -> nat -> option nat) (has_v6 : bool).
(** The worker has its turn in every sleep and nobody else sends. *)
Let others : nat -> Magic -> Magic := fun _ => drain_queue udp_ret.

Definition reachable (dst : SocketAddr) : bool := for_addr has_v6 dst.

(** Nothing queued, [k] records waiting, [n] sends counted, the account balanced. *)
Definition settled (k : nat) (n : Z) (s : Probe) : Prop :=
  tx_queue (io (sock s)) = [] /\ length (send_log (io (sock s))) = k /\ sends (sum s) = n /\ balanced (sum s).

Lemma drain_empty w : tx_queue (io w) = [] -> tx_queue (io (drain_queue udp_ret w)) = [] /\ send_log (io (drain_queue udp_ret w)) = send_log (io w).
Proof. unfold drain_queue. intros ->. done. Qed.

Lemma drain_single w d b : tx_queue (io w) = [(d, b)] -> (length (send_log (io w)) < SEND_LOG_CAP)%nat ->
  tx_queue (io (drain_queue udp_ret w)) = [] /\ length (send_log (io (drain_queue udp_ret w))) = S (length (send_log (io w))).
Proof.
  intros E Hc. unfold drain_queue. rewrite E. cbn [foldl drain_one].
  destruct (udp_send udp_ret d b _) as [r w1] eqn:Eu. unfold udp_send in Eu. injection Eu as <- <-.
  cbn. split; [done|]. unfold push_send_record. rewrite decide_False by lia. rewrite length_app. cbn. lia.
Qed.

Lemma probe_one_settled round id base s dst k n : (4 <= length base)%nat -> 0 <= id < 16 ->
  settled k n s -> (k + (if reachable dst then 1 else 0) <= SEND_LOG_CAP)%nat ->
  exists s', probe_one udp_ret has_v6 others round id base s dst = Val s' /\
    settled (k + if reachable dst then 1 else 0) (n + 1) s'.
Proof.
  unfold reachable. intros Hl Hi (Hq & Hk & Hn & Hb) Hc. unfold probe_one.
  destruct (tag_spec base id 0 round Hl Hi ltac:(lia)) as (q0 & -> & _).
  destruct (tag_spec base id 1 round Hl Hi ltac:(lia)) as (q1 & -> & _). cbn [mbind outcome_bind].
  assert (Hd : forall w d, tx_queue (io (send_direct udp_ret has_v6 d q1 w).2) = tx_queue (io w) /\
                           send_log (io (send_direct udp_ret has_v6 d q1 w).2) = send_log (io w)).
  { intros w d. unfold send_direct. by destruct (for_addr has_v6 d). }
  set (s1 := sleep others (mkProbe (send_to has_v6 dst q0 (sock s)).2 (sleeps s) (sum s))).
  assert (H1 : tx_queue (io (sock s1)) = [] /\ length (send_log (io (sock s1))) = (k + if for_addr has_v6 dst then 1 else 0)%nat).
  { subst s1. unfold sleep, others, send_to. cbn [sock]. destruct (for_addr has_v6 dst); cbn [snd].
    - destruct (drain_single (with_io (sock s) (mkIo (draws (io (sock s))) (send_calls (io (sock s))) (wire (io (sock s)))
        (stun_results (io (sock s))) (ping_results (io (sock s))) (non_disco (io (sock s)))
        (tx_queue (io (sock s)) ++ [(dst, q0)]) (send_log (io (sock s))))) dst q0) as [-> ->]; cbn; [by rewrite Hq|lia|]. split; [done|lia].
    - destruct (drain_empty (sock s) Hq) as [-> ->]. split; [done|lia]. }
  destruct H1 as [Hq1 Hl1]. specialize (Hd (sock s1) dst). destruct (send_direct udp_ret has_v6 dst q1 (sock s1)) as [r w2].
  cbn [snd] in Hd. destruct Hd as [Hd1 Hd2]. eexists. split; [done|]. unfold sleep, settled, others. cbn [sock sum].
  destruct (drain_empty w2) as [-> ->]; [by rewrite Hd1|]. rewrite Hd2.
  change (sum s1) with (sum s). destruct (count_spec (length q1) (ok r) (sum s)) as [-> Hb']. split_and!; [done..|lia|auto].
Qed.

Lemma targets_settled round id base tgts : forall s k n, (4 <= length base)%nat -> 0 <= id < 16 -> settled k n s ->
  let r := length (filter (fun d => reachable d = true) tgts) in
  (k + r <= SEND_LOG_CAP)%nat ->
  exists s', each (probe_one udp_ret has_v6 others round id base) tgts s = Val s' /\
    settled (k + r) (n + Z.of_nat (length tgts)) s'.
Proof.
  induction tgts as [|d tgts IH]; intros s k n Hl Hi Hs r Hc; subst r.
  - exists s. cbn. rewrite Nat.add_0_r, Z.add_0_r. done.
  - cbn [each]. rewrite filter_cons in Hc |- *.
    destruct (probe_one_settled round id base s d k n Hl Hi Hs) as (s1 & -> & H1); [destruct (reachable d); repeat case_decide; cbn in *; lia|].
    cbn [mbind outcome_bind]. destruct (IH s1 _ _ Hl Hi H1) as (s2 & -> & H2); [destruct (reachable d); repeat case_decide; cbn in *; lia|].
    exists s2. split; [done|]. cbn [length]. replace (n + Z.of_nat (S (length tgts))) with (n + 1 + Z.of_nat (length tgts)) by lia.
    destruct (reachable d); repeat case_decide; cbn in *; try done; [|by rewrite Nat.add_0_r in H2].
    by rewrite <- Nat.add_assoc in H2.
Qed.

Lemma battery_settled round tgts (r := length (filter (fun d => reachable d = true) tgts)) b : forall s k n,
  Forall (fun sb : Z * list Z => (4 <= length sb.2)%nat /\ 0 <= sb.1 < 16) b ->
  settled k n s -> (k + length b * r <= SEND_LOG_CAP)%nat ->
  exists s', each (fun s (sb : Z * list Z) => each (probe_one udp_ret has_v6 others round sb.1 sb.2) tgts s) b s = Val s' /\
    settled (k + length b * r) (n + Z.of_nat (length b * length tgts)) s'.
Proof.
  induction b as [|[id base] b IH]; intros s k n Hf Hs Hc.
  - exists s. cbn. by rewrite Nat.add_0_r, Z.add_0_r.
  - apply Forall_cons_1 in Hf as [[Hl Hi] Hf]. cbn [each length fst snd] in *.
    destruct (targets_settled round id base tgts s k n Hl Hi Hs) as (s1 & -> & H1); [fold r; lia|]. fold r in H1.
    cbn [mbind outcome_bind]. destruct (IH s1 _ _ Hf H1) as (s2 & -> & H2); [lia|]. exists s2. split; [done|].
    revert H2. unfold settled. intros (? & ? & ? & ?). split_and!; [done|lia|lia|done].
Qed.

Lemma round_settled tgts (r := length (filter (fun d => reachable d = true) tgts)) s n round : u8 round ->
  settled 0 n s -> (6 * r <= SEND_LOG_CAP)%nat ->
  exists s', run_round udp_ret has_v6 others tgts s round = Val s' /\ settled 0 (n + Z.of_nat (6 * (length tgts + r))) s'.
Proof.
  intros Hr Hs Hc. unfold run_round.
  destruct (battery_shapes round 0 Hr ltac:(auto)) as (b & -> & Hf & Hl & _). cbn [mbind outcome_bind].
  assert (Hb : length b = 6%nat) by (rewrite <- (length_map fst), Hf; done).
  destruct (battery_settled round tgts b s 0 n) as (s1 & -> & (Q & L & N & B)); [|done|rewrite Hb; done|].
  { apply list.Forall_forall. intros sb Hin. split.
    - assert (length sb.2 ∈ [96; 96; 32; 96; 110; 110]%nat) by (rewrite <- Hl; apply list_elem_of_In, (in_map (fun sb => length sb.2)), list_elem_of_In, Hin). set_unfold. lia.
    - assert (sb.1 ∈ [1; 2; 3; 4; 5; 6]) by (rewrite <- Hf; apply list_elem_of_In, in_map, list_elem_of_In, Hin). set_unfold. lia. }
  cbn [mbind outcome_bind]. eexists. split; [done|]. unfold harvest, sleep, settled, others. cbn.
  destruct (drain_empty (sock s1) Q) as [-> ->]. destruct (count_records (send_log (io (sock s1))) (sum s1)) as [-> Hb'].
  rewrite L, N, Hb. fold r. split_and!; [done..|lia|auto].
Qed.

Lemma rounds_settled tgts (r := length (filter (fun d => reachable d = true) tgts)) l : forall s n, Forall u8 l ->
  settled 0 n s -> (6 * r <= SEND_LOG_CAP)%nat ->
  exists s', each (run_round udp_ret has_v6 others tgts) l s = Val s' /\
    settled 0 (n + Z.of_nat (length l) * Z.of_nat (6 * (length tgts + r))) s'.
Proof.
  induction l as [|x l IH]; intros s n Hl Hs Hc.
  - exists s. cbn [each length]. by replace (n + _) with n by lia.
  - apply Forall_cons_1 in Hl as [Hx Hl]. cbn [each]. destruct (round_settled tgts s n x Hx Hs Hc) as (s1 & -> & H1).
    cbn [mbind outcome_bind]. destruct (IH _ _ Hl H1 Hc) as (s2 & -> & H2). exists s2. split; [done|]. fold r in H2. cbn [length].
    by replace (n + Z.of_nat (S (length l)) * Z.of_nat (6 * (length tgts + r)))
      with (n + Z.of_nat (6 * (length tgts + r)) + Z.of_nat (length l) * Z.of_nat (6 * (length tgts + r))) by lia.
Qed.

(** With the worker draining the queue in every sleep and nothing else on the socket,
    the probe finishes and has counted every direct send and, as long as a round fits
    the ring of send records, every queued one: six shapes a round, twice for a target
    whose address family has a socket, once for one without.  Every counted send is in
    exactly one class. *)
Theorem probe_counts_every_send cfg tgts w :
  tx_queue (io w) = [] -> 0 <= rounds cfg -> (6 * length (filter (fun d => reachable d = true) tgts) <= SEND_LOG_CAP)%nat ->
  exists s, run udp_ret has_v6 others cfg tgts w = Val s /\ balanced (sum s) /\
    sends (sum s) = Z.min (rounds cfg) 200 *
      Z.of_nat (6 * (length tgts + length (filter (fun d => reachable d = true) tgts))).
Proof.
  intros Hq Hr Hc. unfold run. set (s0 := mkProbe _ _ _). set (m := wrap 8 _).
  assert (Hm : m = Z.min (rounds cfg) 200) by (subst m; unfold wrap; rewrite Z.mod_small; lia).
  assert (H0 : settled 0 0 s0) by (subst s0; unfold settled, sleep, others; cbn; by destruct (drain_empty w Hq) as [-> _]).
  assert (Hl : Forall u8 (seqZ 0 m)) by (apply list.Forall_forall; intros x Hx%elem_of_seqZ; unfold u8; lia).
  destruct (rounds_settled tgts (seqZ 0 m) s0 0 Hl H0 Hc) as (s & -> & _ & _ & E & B).
  exists s. split_and!; [done..|]. rewrite E, length_seqZ, Z2Nat.id by lia. by rewrite Hm.
Qed.

End Account.

(** ** On concrete sockets *)

Definition toy_worker (_ : nat) : Magic -> Magic := drain_queue (fun _ n => Some n).
Definition toy_targets (n : nat) : list SocketAddr := map (fun k => SAV4 (ipv4_new 10 0 0 (Z.of_nat k)) 9999) (seq 1 n).
Definition toy_probe (n : nat) (rounds : Z) : Summary :=
  match run (fun _ n => Some n) false toy_worker (mkProbeConfig true [] rounds 15 250) (toy_targets n) magic_init with
  | Val s => sum s | _ => Summary_default end.

(** A ring of 256 records holds the queued sends of 42 targets.  With 43, two records
    of each round are dropped before the harvest, and the account misses them. *)
Example probe_ring_overflows :
  toy_probe 42 1 = mkSummary 504 504 0 0 0 /\ toy_probe 43 1 = mkSummary 514 514 0 0 0.
Proof. by vm_compute. Qed.

(** The datagram without entropy differs from the first one in its receiver index as
    well, since the index is drawn from the number of the shape. *)
Example zero_shape_other_index :
  match build_battery 0 with
  | Val ((_, a) :: _ :: _ :: (_, z) :: _) => bool_decide (take 4 (drop 4 a) = take 4 (drop 4 z))
  | _ => true
  end = false.
Proof. by vm_compute. Qed.
