(* ===== verification/Bootstrap.v ===== *)
(** Starting up: the configuration file and its template (tailscale-vita/src/config.rs),
    the engine's own file (wg-engine/src/config.rs), the self-test of the tunnel
    (wg-engine/src/lib.rs), and the device and life cycle of the network stack
    (netstack/src/device.rs, netstack/src/lib.rs).

    The TOML parser, base64 and the socket-address parser are parameters, as is
    boringtun in the self-test. *)

From S2P Require Import Prelude Text NetTypes VitaFs WgPolicy WgEngine Noise Keys Login ConfigEdit ViewModel.
#[local] Open Scope Z_scope.

(** ** config.rs: the template *)

(** A line of text with an at sign for each quotation mark. *)
Definition line (l : String.string) : list Z := map (fun c => if c =? 64 then 34 else c) (bs l) ++ [10].
Arguments line l%_string_scope.

Definition TEMPLATE : list Z := concat (
  line "# tailscale-vita demo config" ::
  line "#" ::
  line "# Edit this file in place after the demo writes the template. Required" ::
  line "# fields: `control_url` and `auth_key`. Everything else has defaults." ::
  [10] ::
  line "# Production: HTTPS validates the control server certificate and Noise key." ::
  line "control_url = @https://controlplane.tailscale.com@" ::
  [10] ::
  line "# For a development Headscale instance that only serves HTTP, pin its Noise" ::
  line "# server key (the `mkey:...` returned by `/key`) here. HTTP without this pin" ::
  line "# is refused. `insecure_allow_http_control = true` exists only as a temporary" ::
  line "# migration escape hatch and must never be used on an untrusted LAN." ::
  line "# control_url = @http://HEADSCALE_HOST_IP:8080@" ::
  line "# control_server_key = @mkey:<64 hex chars>@" ::
  line "# insecure_allow_http_control = false" ::
  [10] ::
  line "# Leave empty to log in interactively (M18): on first run the Vita" ::
  line "# shows a QR code + URL on screen — scan it with your phone and approve" ::
  line "# the node on Tailscale/Headscale. The authorized node key is then" ::
  line "# persisted, so later boots go straight to Online with no QR." ::
  line "#" ::
  line "# Optional automation override: paste a pre-auth key to register" ::
  line "# hands-free. Bare hex on Headscale 0.26 / `tskey-auth-...` on Tailscale." ::
  line "# Generate via:" ::
  line "#   docker exec tailscale-vita-headscale headscale preauthkeys create \" ::
  line "#     --user 1 -e 720h --reusable" ::
  line "auth_key    = @@" ::
  [10] ::
  line "hostname    = @vita@" ::
  line "log_level   = @info@" ::
  line "state_dir   = @ux0:/data/tailscale-vita@" ::
  [10] ::
  line "# HTTP @hello from vita@ listener." ::
  line "demo_port           = 8080" ::
  [10] ::
  line "# DERP / netstack tuning." ::
  line "max_derp_conns      = 8" ::
  line "listener_pool_size  = 4" ::
  [10] ::
  line "# Uncomment for a finite demo window. Default runs forever; PS button" ::
  line "# exits the eboot." ::
  line "# run_window_secs   = 120" ::
  [10] ::
  line "# Don't change unless you know what you're doing. Must match" ::
  line "# `ts_control::CAPVER` (the noise envelope/prologue version) so the" ::
  line "# server sees a single coherent capability version across `/key?v=`," ::
  line "# the noise upgrade, and the JSON bodies." ::
  line "capver              = 138" ::
  [10] ::
  line "# M11 Phase 2: set true when the SUPRX (`tailscale-vita-plugin.suprx`)" ::
  line "# is loaded under *TVIT00010 — the demo eboot then skips its own" ::
  line "# Runtime startup and just keeps the process alive so the SUPRX can" ::
  line "# run. Default false (M10 demo behavior)." ::
  line "# suprx_host_only   = false" ::
  [10] ::
  line "# Tailnet lifecycle (M19). want_running = false boots the runtime parked" ::
  line "# (Stopped, like `tailscale down`); the dashboard's Tailnet toggle flips" ::
  line "# this via LocalAPI and persists it here for the next boot. Default true —" ::
  line "# a missing key or missing [tailnet] section is treated as running." ::
  line "[tailnet]" ::
  line "want_running = true" ::
  [10] ::
  line "# FTP server on the tailnet IP — reach the Vita's files from any network" ::
  line "# with a standard FTP client. Off by default. Set a strong local password" ::
  line "# before enabling; the service refuses to start with an empty password." ::
  line "# `root` is a real jail by default. `allow_device_paths` is an explicit," ::
  line "# dangerous compatibility escape hatch for VitaShell-style `/ur0:/...` paths." ::
  line "# NOTE: the tailnet ACL is enforced locally, so your ACL must grant BOTH" ::
  line "# `port` AND the passive data range (`passive_port_lo..passive_port_hi`) to" ::
  line "# the peers you connect from, or transfers hang at `425` even after login." ::
  line "[ftp]" ::
  line "enabled         = false" ::
  line "port            = 21" ::
  line "root            = @ux0:@" ::
  line "username        = @vita@" ::
  line "password        = @@       # required when enabled; never logged" ::
  line "allow_device_paths = false" ::
  line "read_only       = false" ::
  line "passive_port_lo = 30000" ::
  line "passive_port_hi = 30009" ::
  line "max_transfer_bytes = 33554432 # 32 MiB per STOR/RETR" ::
  [10] ::
  line "# Taildrop receiver (peerapi) on the tailnet IP. When enabled, run" ::
  line "# `tailscale file cp <file> vita:` from any device on your tailnet and the" ::
  line "# file lands in `dir`. Off by default: like FTP it accepts writes from any" ::
  line "# ACL-permitted peer (the tailnet ACL is the boundary; WireGuard encrypts" ::
  line "# the transfer). `max_size` (bytes) caps a single file. Tip: point `dir` at" ::
  line "# @ux0:/vpk@ to turn the Vita into a VPK sideload inbox — drop a .vpk from" ::
  line "# your PC and install it in VitaShell, no USB/FTP dance." ::
  line "[taildrop]" ::
  line "enabled  = false" ::
  line "dir      = @ux0:/data/tailscale-vita/taildrop@" ::
  line "port     = 8098" ::
  line "max_size = 268435456   # 256 MB" ::
  [10] ::
  line "# Fork-B diagnostic (docs/EGRESS-PROBE.md): ~15 s after startup, send a" ::
  line "# battery of tagged UDP shapes through the production send path to each" ::
  line "# target, to learn which shapes actually egress. Run" ::
  line "# scripts/egress-probe-listener.py on each target host. Off by default." ::
  line "[egress_probe]" ::
  line "enabled            = false" ::
  line "targets            = []      # e.g. [@192.168.8.101:9999@]" ::
  line "rounds             = 5" ::
  line "initial_delay_secs = 15" ::
  line "spacing_ms         = 250" ::
  nil).

(** ** config.rs: loading *)

Inductive ConfigError (E : Type) : Type := ConfigIo | TomlParse (e : E) | TemplateWritten (path : list Z).
Arguments ConfigIo {E}.
Arguments TomlParse {E} e.
Arguments TemplateWritten {E} path.

Section Load.
Context {W : Type} `{Fs W}.
Context {C E : Type} (from_toml : list Z -> result E C).

Definition write_template (path : list Z) (w : W) : W * bool :=
  let '(w, made) := fs_create_dir_all w (parent path) in
  if made then fs_write w path TEMPLATE else (w, false).

(** Text that is not UTF-8 is an I/O error of its own kind. *)
Definition load_or_template (path : list Z) (w : W) : W * result (ConfigError E) C :=
  match fs_read w path with
  | Ok b => (w, if utf8_valid b then map_err TomlParse (from_toml b) else Err ConfigIo)
  | Err NotFound =>
      let '(w, written) := write_template path w in
      (w, Err (if written then TemplateWritten path else ConfigIo))
  | Err OtherError => (w, Err ConfigIo)
  end.
End Load.

(** Loading never touches a file that is there, whatever it holds. *)
Lemma load_keeps {W} `{Fs W} {C E} (from_toml : list Z -> result E C) path w :
  fs_read w path <> Err NotFound -> (load_or_template from_toml path w).1 = w.
Proof. unfold load_or_template. by destruct (fs_read w path) as [b|[]]. Qed.

(** The first start leaves the template at the path: where nothing was, exactly the
    template is there afterwards, and the other files are as before. *)
Theorem first_start_writes_template {W} `{Fs W} d `{!FsLaws W d} {C E} (from_toml : list Z -> result E C) path w w' p :
  load_or_template from_toml path w = (w', Err (TemplateWritten p)) ->
  p = path /\ content w (names path) = None /\ content w' (names path) = Some TEMPLATE /\
  forall q, q <> names path -> content w' q = content w q.
Proof.
  unfold load_or_template, write_template. pose proof (VitaFs.read_law w path) as [_ Hn].
  destruct (fs_read w path) as [b|[]]; [intros [= _ E1]; destruct (utf8_valid b), (from_toml b); discriminate| |done].
  specialize (Hn eq_refl). destruct (fs_create_dir_all w (parent path)) as [w1 []] eqn:E1; [|done].
  destruct (fs_write w1 path TEMPLATE) as [w2 []] eqn:E2; [|done]. intros [= <- <-].
  pose proof (fun q => mkdir_law w w1 true (parent path) q E1) as Hm. apply write_law in E2 as [Hw Hq].
  split_and!; [done..| |].
  - destruct (Hw eq_refl) as [?|(c & Hc & _)]; [done|]. rewrite Hm in Hc. congruence.
  - intros q Hne. by rewrite Hq, Hm.
Qed.

(** The template is text, and every setting the dashboard reads or flips is in it, with
    the value the fields default to: the services are off, the tailnet is on. *)
Theorem template_settings :
  utf8_valid TEMPLATE = true /\
  read_bool TEMPLATE (bs "tailnet") (bs "want_running") = Some true /\
  read_bool TEMPLATE (bs "ftp") (bs "enabled") = Some false /\
  read_bool TEMPLATE (bs "ftp") (bs "read_only") = Some false /\
  read_bool TEMPLATE (bs "taildrop") (bs "enabled") = Some false /\
  read_str TEMPLATE (bs "taildrop") (bs "dir") = Some TAILDROP_DIR_DEFAULT /\
  read_bool TEMPLATE (bs "egress_probe") (bs "enabled") = Some false /\
  read_str TEMPLATE (bs "ftp") (bs "password") = Some [].
Proof. by vm_compute. Qed.

(** ** wg-engine/src/config.rs *)

Record OurKey : Type := mkOurKey { private_key_b64 : list Z; tunnel_ip : list Z }.
Record PeerEntry : Type := mkPeerEntry {
  public_key_b64 : list Z; preshared_key_b64 : option (list Z); pe_allowed_ips : list (list Z); endpoint : list Z;
  persistent_keepalive_secs : option Z
}.
Record WgToml : Type := mkWgToml { our : OurKey; peer : list PeerEntry }.
Record EngineConfig : Type := mkEngineConfig { our_static_secret : list Z; mtu : Z; peers : list PeerConfig }.

Inductive BuildError : Type :=
| Base64 (field reason : list Z)
| BadSocketAddr (s : list Z)
| Cidr (e : WgError).

Section WgToml.
Context (decode_b64 : list Z -> result (list Z) (list Z)) (parse_addr : list Z -> option SocketAddr).

Definition decode_priv_key (b64 field : list Z) : result BuildError (list Z) :=
  bytes ← map_err (Base64 field) (decode_b64 (trim b64));
  if negb (length bytes =? 32)%nat
  then Err (Base64 field (bs "expected 32 bytes, got " ++ dec (Z.of_nat (length bytes))))
  else Ok bytes.
Definition decode_pub_key : list Z -> list Z -> result BuildError (list Z) := decode_priv_key.

(** [map] and [collect] into a [Result]: the first error wins. *)
Fixpoint collect {A B E} (f : A -> result E B) (l : list A) : result E (list B) :=
  match l with [] => Ok [] | x :: l => y ← f x; ys ← collect f l; Ok (y :: ys) end.

Definition peer_config (p : PeerEntry) : result BuildError PeerConfig :=
  pub_bytes ← decode_pub_key (public_key_b64 p) (bs "peer.public_key_b64");
  preshared_key ← match preshared_key_b64 p with
                  | Some s => if bool_decide (s = []) then Ok None
                              else Some <$> decode_priv_key s (bs "peer.preshared_key_b64")
                  | None => Ok None
                  end;
  allowed_ips ← collect (fun s => map_err Cidr (Ipv4Cidr_parse s)) (pe_allowed_ips p);
  ep ← ok_or (BadSocketAddr (endpoint p)) (parse_addr (endpoint p));
  Ok (mkPeerConfig pub_bytes preshared_key (persistent_keepalive_secs p) allowed_ips (Some (Udp ep))).

Definition build_engine_inputs (cfg : WgToml) : result BuildError (list Z * list PeerConfig) :=
  priv_bytes ← decode_priv_key (private_key_b64 (our cfg)) (bs "our.private_key_b64");
  ps ← collect peer_config (peer cfg);
  Ok (priv_bytes, ps).

Definition from_wg_toml (toml : WgToml) : result BuildError EngineConfig :=
  '(secret, ps) ← build_engine_inputs toml; Ok (mkEngineConfig secret 1280 ps).

(** What the engine may rely on: 32-byte keys, networks with a prefix of at most 32,
    and an endpoint. *)
Definition peer_config_wf (c : PeerConfig) : Prop :=
  length (cfg_pubkey c) = 32%nat /\ (forall k, cfg_preshared_key c = Some k -> length k = 32%nat) /\
  Forall (fun n => cidr_prefix n <= 32) (cfg_allowed_ips c) /\ exists sa, cfg_endpoint c = Some (Udp sa).

Lemma decode_priv_key_len b f k : decode_priv_key b f = Ok k -> length k = 32%nat.
Proof.
  unfold decode_priv_key. destruct (decode_b64 (trim b)) as [bytes|]; [|done]. cbn.
  destruct (Nat.eqb_spec (length bytes) 32); [|done]. by intros [= <-].
Qed.

Lemma collect_ok {A B E} (f : A -> result E B) l ys : collect f l = Ok ys -> Forall2 (fun x y => f x = Ok y) l ys.
Proof.
  revert ys. induction l as [|x l IH]; cbn; intros ys; [intros [= <-]; constructor|].
  destruct (f x) as [y|] eqn:E1; [|done]. cbn. destruct (collect f l) as [zs|]; [|done]. intros [= <-]. constructor; auto.
Qed.

Lemma cidr_parse_prefix s n : Ipv4Cidr_parse s = Ok n -> cidr_prefix n <= 32.
Proof.
  unfold Ipv4Cidr_parse. destruct (split_once 47 s) as [[a p]|]; [|done]. cbn. destruct (parse_ipv4 a); [|done]. cbn.
  destruct (parse_u8 p); [|done]. cbn. destruct (Z.ltb_spec 32 z0); [done|]. intros [= <-]. done.
Qed.

Lemma peer_config_ok p c : peer_config p = Ok c -> peer_config_wf c.
Proof.
  unfold peer_config, decode_pub_key. destruct (decode_priv_key (public_key_b64 p) _) as [k|] eqn:Ek; [|done]. cbn.
  set (psk := match preshared_key_b64 p with Some _ => _ | None => _ end).
  assert (Hp : forall k', psk = Ok (Some k') -> length k' = 32%nat).
  { subst psk. intros k'. destruct (preshared_key_b64 p) as [s|]; [|done]. case_bool_decide; [done|].
    destruct (decode_priv_key s _) eqn:E1; [|done]. intros [= <-]. by eapply decode_priv_key_len. }
  destruct psk as [o|]; [|done]. cbn. destruct (collect _ (pe_allowed_ips p)) as [ns|] eqn:En; [|done]. cbn.
  destruct (parse_addr (endpoint p)) as [sa|]; [|done]. cbn. intros [= <-]. unfold peer_config_wf. cbn. split_and!.
  - by eapply decode_priv_key_len.
  - intros k' ->. by apply Hp.
  - apply collect_ok in En. clear -En. induction En as [|s n ss ns E1 _ IH]; constructor; [|done].
    destruct (Ipv4Cidr_parse s) eqn:E2; [|done]. injection E1 as <-. by eapply cidr_parse_prefix.
  - by exists sa.
Qed.

(** A file that loads gives one well-formed peer for each entry, in their order. *)
Theorem wg_toml_peers cfg e : from_wg_toml cfg = Ok e ->
  length (our_static_secret e) = 32%nat /\ length (peers e) = length (peer cfg) /\
  Forall peer_config_wf (peers e) /\ mtu e = 1280.
Proof.
  unfold from_wg_toml, build_engine_inputs. destruct (decode_priv_key _ _) as [k|] eqn:Ek; [|done]. cbn.
  destruct (collect peer_config (peer cfg)) as [ps|] eqn:Ep; [|done]. cbn. intros [= <-]. cbn.
  apply collect_ok in Ep. split_and!; [by eapply decode_priv_key_len|symmetry; by eapply Forall2_length| |done].
  clear -Ep. induction Ep; constructor; [|done]. by eapply peer_config_ok.
Qed.
End WgToml.

(** ** wg-engine/src/lib.rs: the self-test *)

(** [TunnResult] with the name of the error. *)
Inductive Reply : Type :=
| RDone | RErr (name : list Z) | RNetwork (p : list Z) | RTunnelV4 (p : list Z) | RTunnelV6 (p : list Z).

Record SelfTestReport : Type := mkReport {
  handshake_ok : bool; keepalive_ok : bool; data_ok : bool; data_len : nat; roundtrip_match : bool; note : list Z
}.
Definition SelfTestReport_default : SelfTestReport := mkReport false false false 0 false [].

Inductive Verdict : Type := HANDSHAKE_FAILED | AEAD_NONEMPTY_MISCOMPILE | CRYPTO_OK_NETWORK_SUSPECT | INCONCLUSIVE.
Definition verdict_name (v : Verdict) : list Z :=
  match v with
  | HANDSHAKE_FAILED => bs "HANDSHAKE_FAILED" | AEAD_NONEMPTY_MISCOMPILE => bs "AEAD_NONEMPTY_MISCOMPILE"
  | CRYPTO_OK_NETWORK_SUSPECT => bs "CRYPTO_OK_NETWORK_SUSPECT" | INCONCLUSIVE => bs "INCONCLUSIVE"
  end.
Definition verdict (r : SelfTestReport) : Verdict :=
  if negb (handshake_ok r) then HANDSHAKE_FAILED
  else if keepalive_ok r && negb (data_ok r) then AEAD_NONEMPTY_MISCOMPILE
  else if data_ok r && roundtrip_match r then CRYPTO_OK_NETWORK_SUSPECT
  else INCONCLUSIVE.

Definition flag (b : bool) : list Z := if b then bs "1" else bs "0".
Definition summary (r : SelfTestReport) : list Z :=
  bs "hs=" ++ flag (handshake_ok r) ++ bs " ka=" ++ flag (keepalive_ok r) ++ bs " data=" ++ flag (data_ok r) ++
  bs " dlen=" ++ dec (Z.of_nat (data_len r)) ++ bs " match=" ++ flag (roundtrip_match r) ++
  bs " note=" ++ (if bool_decide (note r = []) then bs "-" else note r) ++ bs " VERDICT=" ++ verdict_name (verdict r).

Definition tunn_kind (r : Reply) : list Z :=
  match r with
  | RDone => bs "Done" | RErr e => bs "Err(" ++ e ++ bs ")" | RNetwork _ => bs "Network"
  | RTunnelV4 _ => bs "TunnelV4" | RTunnelV6 _ => bs "TunnelV6"
  end.

(** A minimal IPv4 packet whose length field is its length. *)
Definition selftest_payload : list Z :=
  [0x45; 0] ++ be_bytes 2 64 ++ map (fun i => wrap 8 (wrap 8 (i * 7) + 1)) (seqZ 4 60).

Section SelfTest.
(** boringtun: the state after a call and what the call gives. *)
Context {T : Type} (encap decap : T -> list Z -> T * Reply).

Definition network (stage : list Z) (r : Reply) : result (list Z) (list Z) :=
  match r with RNetwork p => Ok p | other => Err (stage ++ bs ":" ++ tunn_kind other) end.
Definition done_or (stage : list Z) (r : Reply) : result (list Z) unit :=
  match r with RDone => Ok tt | other => Err (stage ++ bs ":" ++ tunn_kind other) end.

(** The dance: what is left of the two ends, or the note of the stage that failed. *)
Definition handshake (a b : T) : result (list Z) (T * T) :=
  let '(a, r) := encap a [] in
  init ← network (bs "init_not_network") r;
  let '(b, r) := decap b init in
  resp ← network (bs "resp_not_network") r;
  let '(a, r) := decap a resp in
  keepalive ← network (bs "keepalive_not_network") r;
  let '(b, r) := decap b keepalive in
  _ ← done_or (bs "hs_keepalive") r;
  Ok (a, b).

(** The stage with a payload, from the report so far. *)
Definition data_stage (a b : T) (r : SelfTestReport) : SelfTestReport :=
  let '(_, e) := encap a selftest_payload in
  match network (bs "data_encap") e with
  | Err n => mkReport (handshake_ok r) (keepalive_ok r) (data_ok r) (data_len r) (roundtrip_match r) n
  | Ok frame =>
      match (decap b frame).2 with
      | RTunnelV4 p =>
          mkReport (handshake_ok r) (keepalive_ok r) true (length frame) (bool_decide (p = selftest_payload)) (note r)
      | other =>
          mkReport (handshake_ok r) (keepalive_ok r) (data_ok r) (length frame) (roundtrip_match r)
            (bs "data_decap:" ++ tunn_kind other)
      end
  end.

Definition data_plane_selftest (a b : T) : SelfTestReport :=
  match handshake a b with
  | Err n => mkReport false false false 0 false n
  | Ok (a, b) =>
      let '(a, e) := encap a [] in
      match network (bs "ka_encap") e with
      | Err n => mkReport true false false 0 false n
      | Ok ka_frame =>
          let '(b, d) := decap b ka_frame in
          data_stage a b (match done_or (bs "ka_decap") d with
                          | Ok _ => mkReport true true false 0 false []
                          | Err n => mkReport true false false 0 false n
                          end)
      end
  end.

(** What boringtun does between two ends with matching keys: a session that carries
    packets from the first end to the second, an empty one as a keepalive. *)
Definition carries (linked : T -> T -> Prop) : Prop :=
  forall a b p, linked a b -> exists a' b' f, encap a p = (a', RNetwork f) /\
    decap b f = (b', match p with [] => RDone | _ => RTunnelV4 p end) /\ linked a' b'.

(** With a tunnel whose handshake completes and whose session carries packets, every
    stage passes, nothing is noted and the verdict is that the cryptography is sound. *)
Theorem selftest_passes linked a b a' b' :
  handshake a b = Ok (a', b') -> linked a' b' -> carries linked ->
  let r := data_plane_selftest a b in
  handshake_ok r = true /\ keepalive_ok r = true /\ data_ok r = true /\ roundtrip_match r = true /\ note r = [] /\
  verdict r = CRYPTO_OK_NETWORK_SUSPECT.
Proof.
  intros Hh Hl Hc. unfold data_plane_selftest. rewrite Hh.
  destruct (Hc a' b' [] Hl) as (a1 & b1 & f & -> & E1 & Hl1). cbn [network]. rewrite E1. cbn [done_or].
  destruct (Hc a1 b1 selftest_payload Hl1) as (a2 & b2 & g & E2 & E3 & _). unfold data_stage. rewrite E2. cbn [network].
  rewrite E3. cbn. done.
Qed.

(** The verdicts, for any tunnel: no stage passes without the handshake; the
    cryptography is called sound only if the payload came back unchanged; and the
    verdict on non-empty frames needs the empty one to have passed. *)
Theorem selftest_verdicts a b (r := data_plane_selftest a b) :
  (keepalive_ok r || data_ok r = true -> handshake_ok r = true) /\ (roundtrip_match r = true -> data_ok r = true) /\
  (verdict r = CRYPTO_OK_NETWORK_SUSPECT <-> roundtrip_match r = true) /\
  (verdict r = AEAD_NONEMPTY_MISCOMPILE <-> keepalive_ok r = true /\ data_ok r = false).
Proof.
  assert (H : (keepalive_ok r || data_ok r = true -> handshake_ok r = true) /\ (roundtrip_match r = true -> data_ok r = true)).
  { subst r. unfold data_plane_selftest. destruct (handshake a b) as [[a1 b1]|n]; [|done].
    destruct (encap a1 []) as [a2 e]. destruct (network _ e) as [f|n]; [|done]. destruct (decap b1 f) as [b2 d].
    destruct (done_or _ d); unfold data_stage; destruct (encap a2 selftest_payload) as [a3 e']; destruct (network _ e') as [g|]; try done;
      destruct (decap b2 g).2; done. }
  destruct H as [H1 H2]. split_and!; [done..| |]; unfold verdict; clearbody r; destruct r as [[] [] [] ? [] ?]; cbn in *; split; naive_solver.
Qed.
End SelfTest.

(** A tunnel in the clear that passes, and one that refuses the empty frame after the
    handshake: it has the verdict of a sound one, with the failure only in the note. *)
Definition clear_encap (n : nat) (p : list Z) : nat * Reply := (S n, RNetwork p).
Definition clear_decap (n : nat) (p : list Z) : nat * Reply :=
  match n, p with
  | 0%nat, _ | 1%nat, _ => (2%nat, RNetwork [])
  | _, [] => (S n, RDone)
  | _, _ => (S n, RTunnelV4 p)
  end.
Definition fussy_decap (n : nat) (p : list Z) : nat * Reply :=
  match n, p with
  | 3%nat, [] => (4%nat, RErr (bs "InvalidAeadTag"))
  | _, _ => clear_decap n p
  end.

Example selftest_passes_clear : verdict (data_plane_selftest clear_encap clear_decap 0%nat 0%nat) = CRYPTO_OK_NETWORK_SUSPECT.
Proof.
  apply (selftest_passes clear_encap clear_decap (fun _ b => (2 <= b)%nat) 0%nat 0%nat 2%nat 3%nat); [done|lia|].
  intros a [|[|b]] p Hb; [lia..|]. exists (S a), (S (S (S b))), p. split_and!; [done|by destruct p|lia].
Qed.

Example keepalive_failure_called_sound :
  let r := data_plane_selftest clear_encap fussy_decap 0%nat 0%nat in
  keepalive_ok r = false /\ note r = bs "ka_decap:Err(InvalidAeadTag)" /\ verdict r = CRYPTO_OK_NETWORK_SUSPECT.
Proof. by vm_compute. Qed.

(** ** netstack/src/device.rs *)

(** The two queues shared with the engine's pump. *)
Record WgDevice : Type := mkDevice { dev_rx : list (list Z); dev_tx : list (list Z) }.

(** [free] says whether [try_lock] gets the lock. *)
Definition receive (free : bool) (d : WgDevice) : option (list Z) * WgDevice :=
  if free then match dev_rx d with [] => (None, d) | pkt :: rx => (Some pkt, mkDevice rx (dev_tx d)) end else (None, d).
Definition tx_consume (free : bool) (pkt : list Z) (d : WgDevice) : WgDevice :=
  if free then mkDevice (dev_rx d) (dev_tx d ++ [pkt]) else d.

(** What the poll thread and the pump do with the queues; the pump takes the lock. *)
Inductive DevOp : Type :=
| PollReceive (free : bool) | PollSend (free : bool) (pkt : list Z) | PumpDeliver (pkt : list Z) | PumpTake.
(** A packet that reached smoltcp or the pump. *)
Inductive DevEvent : Type := ToStack (pkt : list Z) | ToPump (pkt : list Z).

Definition dev_step (o : DevOp) (d : WgDevice) : WgDevice * list DevEvent :=
  match o with
  | PollReceive free => let '(r, d) := receive free d in (d, match r with Some p => [ToStack p] | None => [] end)
  | PollSend free pkt => (tx_consume free pkt d, [])
  | PumpDeliver pkt => (mkDevice (dev_rx d ++ [pkt]) (dev_tx d), [])
  | PumpTake => match dev_tx d with [] => (d, []) | pkt :: tx => (mkDevice (dev_rx d) tx, [ToPump pkt]) end
  end.
Fixpoint dev_run (os : list DevOp) (d : WgDevice) : WgDevice * list DevEvent :=
  match os with
  | [] => (d, [])
  | o :: os => let '(d, e) := dev_step o d in let '(d, es) := dev_run os d in (d, e ++ es)
  end.

Definition to_stack (es : list DevEvent) : list (list Z) := omap (fun e => match e with ToStack p => Some p | ToPump _ => None end) es.
Definition to_pump (es : list DevEvent) : list (list Z) := omap (fun e => match e with ToPump p => Some p | ToStack _ => None end) es.
Definition delivered (os : list DevOp) : list (list Z) := omap (fun o => match o with PumpDeliver p => Some p | _ => None end) os.
Definition queued (os : list DevOp) : list (list Z) := omap (fun o => match o with PollSend true p => Some p | _ => None end) os.

Lemma dev_step_conserves o d d' e : dev_step o d = (d', e) ->
  dev_rx d ++ delivered [o] = to_stack e ++ dev_rx d' /\ dev_tx d ++ queued [o] = to_pump e ++ dev_tx d'.
Proof.
  destruct d as [rx tx], o as [[]|[] pkt|pkt|]; cbn; try (intros [= <- <-]; cbn; by rewrite ?app_nil_r).
  - destruct rx; intros [= <- <-]; cbn; by rewrite ?app_nil_r.
  - destruct tx; intros [= <- <-]; cbn; by rewrite ?app_nil_r.
Qed.

(** In either direction the bridge keeps the order and repeats nothing, however the
    two threads interleave.  A contended lock delays what comes in and loses only what
    was to go out at that moment. *)
Theorem device_in_order os d d' es : dev_run os d = (d', es) ->
  dev_rx d ++ delivered os = to_stack es ++ dev_rx d' /\ dev_tx d ++ queued os = to_pump es ++ dev_tx d'.
Proof.
  revert d es. induction os as [|o os IH]; intros d es; cbn [dev_run].
  - intros [= <- <-]. cbn. by rewrite !app_nil_r.
  - destruct (dev_step o d) as [d1 e] eqn:E1. destruct (dev_run os d1) as [d2 es2] eqn:E2. intros [= <- <-].
    apply dev_step_conserves in E1 as [A1 A2]. destruct (IH _ _ E2) as [B1 B2].
    change (delivered (o :: os)) with (delivered ([o] ++ os)). change (queued (o :: os)) with (queued ([o] ++ os)).
    unfold delivered, queued, to_stack, to_pump in *. rewrite !omap_app.
    split; [by rewrite app_assoc, A1, <- !app_assoc, B1|by rewrite app_assoc, A2, <- !app_assoc, B2].
Qed.

(** ** netstack/src/lib.rs: the life of the stack *)

Record StackConfig : Type := mkStackConfig { sc_local_ip : option Ipv4Cidr; sc_mtu : Z }.
Definition StackConfig_new : StackConfig := mkStackConfig None 1280.
Definition with_local_ip (ip : Ipv4Cidr) : StackConfig := mkStackConfig (Some ip) 1280.

(** smoltcp's address store holds [cap]; a push beyond that fails and is ignored. *)
Definition addr_push (cap : nat) (store : list Ipv4Cidr) (c : Ipv4Cidr) : list Ipv4Cidr :=
  if decide (length store < cap)%nat then store ++ [c] else store.
Definition set_local_addrs (cap : nat) (addrs : list Ipv4Cidr) : list Ipv4Cidr := foldl (addr_push cap) [] addrs.

(** Of the node's addresses the stack answers for the first ones, as many as fit. *)
Theorem set_local_addrs_spec cap addrs : set_local_addrs cap addrs = take cap addrs.
Proof.
  unfold set_local_addrs. assert (H : forall st, (length st <= cap)%nat -> foldl (addr_push cap) st addrs = take cap (st ++ addrs)).
  { induction addrs as [|a l IH]; intros st Hs; cbn [foldl]; [by rewrite app_nil_r, take_ge|].
    unfold addr_push at 2. case_decide.
    - rewrite IH by (rewrite length_app; cbn; lia). by rewrite <- app_assoc.
    - rewrite IH by done. by rewrite !take_app_len by lia. }
  by apply H; cbn; lia.
Qed.

Inductive StopEvent : Type := StopPoll | Poke | JoinPoll | StopPump | JoinPump.
#[global] Instance stop_event_eq_dec : EqDecision StopEvent.
Proof. solve_decision. Defined.

(** The threads still to be joined; the engine is gone once it was taken. *)
Record Stack : Type := mkStack { poll_join : bool; engine_join : option bool }.

(** [Drop for EngineRunning]. *)
Definition drop_engine (join : bool) : list StopEvent := StopPump :: if join then [JoinPump] else [].
(** [EngineRunning::shutdown], which the drop follows. *)
Definition engine_shutdown (join : bool) : list StopEvent := drop_engine join ++ drop_engine false.
Definition shutdown (s : Stack) : Stack * list StopEvent :=
  (mkStack false None,
   [StopPoll; Poke] ++ (if poll_join s then [JoinPoll] else []) ++ match engine_join s with Some j => drop_engine j | None => [] end).

(** A running stack that is shut down any number of times and then dropped joins the
    poll thread once and, after it, the pump once; each was told to stop before. *)
Theorem stack_joins_once (n : nat) (s := mkStack true (Some true))
    (all := (Nat.iter (S n) (fun '(s, ev) => let '(s', ev') := shutdown s in (s', ev ++ ev')) (s, [])).2) :
  filter (fun e => e = JoinPoll \/ e = JoinPump) all = [JoinPoll; JoinPump] /\
  take 5 all = [StopPoll; Poke; JoinPoll; StopPump; JoinPump].
Proof.
  assert (H : exists tl, Nat.iter (S n) (fun '(s, ev) => let '(s', ev') := shutdown s in (s', ev ++ ev')) (s, []) =
    (mkStack false None, [StopPoll; Poke; JoinPoll; StopPump; JoinPump] ++ tl) /\ Forall (fun e => e = StopPoll \/ e = Poke) tl).
  { induction n as [|n (tl & IH & Hf)]; [by exists []|]. exists (tl ++ [StopPoll; Poke]). rewrite Nat.iter_succ, IH. cbn. split; [done|].
    apply Forall_app; split; [done|]. constructor; [by left|]. constructor; [by right|constructor]. }
  destruct H as (tl & H & Hf). subst all. rewrite H. cbn [snd]. split; [|done]. rewrite list.filter_app.
  assert (Ht : filter (fun e => e = JoinPoll \/ e = JoinPump) tl = []).
  { clear H. induction Hf as [|e tl [-> | ->] _ IH]; [done|..]; rewrite filter_cons_False by naive_solver; done. }
  by rewrite Ht.
Qed.
